(* ===== verification/_CoqProject ===== *)
-Q . S2P
Prelude.v
Bytes.v
NetAddr.v
Metadata.v
Demo.v
RuleItems.v
RuleAction.v
RuleCore.v
RuleSpec.v
RuleFrame.v
RulePreMatch.v
RuleExamples.v
RuleBuild.v
RuleDispatch.v
RuleBuildExamples.v
StunPacket.v
StunClient.v
StunDiscover.v
StunNat.v
ManagerCore.v
OutboundManager.v
TransportManager.v
GroupCore.v
SelectorGroup.v
URLTestGroups.v
URLTestLoop.v
BoxLifecycle.v
BoxInstance.v
Router.v
RouterInit.v
FakeIPConn.v
RouterPreMatch.v
RouterProps.v
RouterFlow.v
RouterExamples.v
RuleStart.v
DnsWalk.v
DnsSpec.v
DnsMode.v
DnsScope.v
DnsRouter.v
DnsConfigured.v
DnsWake.v
DnsLegacy.v
DnsMessage.v
DnsClient.v
DnsExamples.v
DnsLock.v
Varbin.v
Srs.v
SrsRoundtrip.v
SrsMatch.v
Geosite.v
RuleSets.v
RuleSetExamples.v
Ja3.v
Quic.v
QuicFragments.v
QuicPacket.v
QuicReturns.v
QuicSniff.v
FakeIP.v
FakeIPQueue.v
FakeIPCache.v
TlsFragment.v
TlsFragmentWrite.v
TlsFragmentHello.v
Counting.v
ConnPool.v
ConnPoolInv.v
ConnPoolWait.v
ConnPoolOrder.v
Multiplexer.v
MultiplexerOnce.v
MultiplexerWatch.v
Lines.v
Hosts.v
HostsProps.v
Sniffers.v
SniffersProps.v
