(* ===== verification/Prelude.v ===== *)
(** * QuinMo for Android: verification of the Go core

    QuinMo is an Android proxy client.  Its user interface is Kotlin
    ([src/app]); the work is done by a Go library ([src/libcore]) that embeds
    a fork of sing-box ([src/libcore/sing-box]).  This library models parts of
    that Go core as Rocq functions and proves what makes them correct.

    ** The program and its parts

    A configuration is turned into rules, outbounds and DNS servers.  A
    connection (or a DNS query) is described by a metadata record; the router
    asks rules in order whether they match it and performs the action of the
    rule that does: choose an outbound, reject, sniff, resolve, answer.  Rules
    refer to rule-sets, whose single rule may be merged into the referring rule.
    DNS rules can depend on the addresses of a response that is not known yet;
    they are then matched twice.  Outbounds and DNS servers live in managers
    that start them in the order of their dependencies.  Some outbounds are
    groups of others, chosen by hand or by measured delay.  A box holds all
    components and starts them in stages; the application keeps instances of
    it, one of which is the main one.  Beside the proxy, the
    library offers tools to the application, among them a STUN client that
    classifies the NAT in front of the device.

    ** Files

    - [Prelude]: Go errors ([error], [Res] with values, errors and panics),
      machine integers that wrap, slices that may be nil, [map[K]bool] as a set,
      the slice helpers of the library sing as a class with laws
      ([SliceHelpers]), tactics and hint databases.
    - [NetAddr]: addresses, prefixes, DNS records, and the interfaces of the
      Go standard library ([GoStd]) and of third-party packages ([ThirdParty]).
    - [Metadata]: [adapter.InboundContext] and its resets, the addresses of a
      DNS response ([adapter/inbound.go]).
    - [Demo]: concrete instances of the interfaces, for witnesses.
    - [RuleItems]: the 41 leaf conditions ([route/rule/rule_item_*.go]), each
      with constructor, [Match] and [String].
    - [RuleAction]: rule actions from options ([route/rule/rule_action.go],
      [common/tlsspoof/spoof.go]), flood control of [reject], predefined
      answers.
    - [RuleCore]: the rule engine: match groups ([match_state.go]), default and
      logical rules ([rule_abstract.go]), rule-sets and merging
      ([rule_item_rule_set.go]), DNS rules and their pre-match ([rule_dns.go]).
      [Rule_Match] is structurally recursive on nested rules.
    - [RuleSpec]: the documented group logic as a separate specification, and
      the refinement theorem.
    - [RuleFrame]: what matching can read and write, as frame lemmas for any
      relation between metadata records.
    - [RulePreMatch]: soundness of matching a DNS rule before the response.
    - [RuleBuild], [RuleBuildExamples], [RuleExamples]: rules built from options
      ([rule_default.go], [rule_dns.go], [rule_headless.go]) as chains of
      blocks, rule-set metadata and reload; concrete rules.
    - [RuleDispatch]: route and DNS rules of either type from options, with
      validation and the ban on actions in nested rules
      ([rule_nested_action.go]).
    - [StunPacket], [StunClient], [StunDiscover], [StunNat]:
      [libcore/stun]: message codec, transmission, the discovery procedures
      against a service interface ([BindingService]), and a model NAT as an
      instance of it.
    - [ManagerCore], [OutboundManager], [TransportManager]: the two managers
      ([adapter/outbound/manager.go], [dns/transport_manager.go]) and the
      dependency-ordered start they share.
    - [GroupCore], [SelectorGroup], [URLTestGroups], [URLTestLoop]: the
      outbound groups ([protocol/group]): the interrupt group, the heap of groups
      with [RealTag], the selector, the choice of a URL test,
      its test loop and what a round of tests measures.
    - [BoxLifecycle], [BoxInstance]: the start and the close of the box
      ([sing-box/box.go]) and the instances the application holds
      ([libcore/box.go]).
    - [Router], [RouterInit], [RouterPreMatch], [FakeIPConn]: the connection
      router ([route/route.go], [router.go], [rule_conds.go], [fakeip_conn.go],
      [common/sniff/sniff.go]): rule selection with sniffing and resolving, the
      routing of connections and packet connections, the verdict on flows
      before a connection exists, fake addresses.  [RouterProps], [RouterFlow],
      [RouterExamples]: their theorems.
    - [RuleStart]: [Start] and [Close] of rules and the reference counts of the
      rule-sets they hold.
    - [DnsMode], [DnsScope]: validation of DNS rules and the choice of the legacy
      mode ([dns/router.go]), and which rule lists are accepted.
    - [DnsRouter]: building, starting and closing the rules of the DNS router as
      a step relation over interleaved operations.
    - [DnsWalk]: the rule walk of an exchange: futures of evaluated queries, armed
      (race) rules, suspensions, fallback.  [DnsSpec]: the same rules evaluated
      one after the other, and the simulation.  [DnsConfigured]: the composition
      with validation and construction.  [DnsWake]: the wake channel of the walk.
    - [DnsLegacy]: the exchange in legacy mode.  [DnsExamples]: concrete rules.
    - [DnsMessage], [DnsClient]: client subnets, lifetimes and fixed answers, and
      one exchange of the client with its memory cache ([dns/client.go],
      [dns/extension_edns0_subnet.go]), which keeps the promise that the legacy
      exchange relies on ([client_promise]).  [DnsLock]: the lock that joins equal
      queries of concurrent callers.
    - [Bytes], [Varbin]: byte strings, big-endian numbers, and the readers and
      writers the binary formats share.
    - [Srs], [SrsRoundtrip], [SrsMatch]: binary rule-set files ([common/srs]).
      [Geosite]: geosite databases ([common/geosite], [libcore/geosite.go],
      [libcore/geoip.go]).  [RuleSets], [RuleSetExamples]: local and remote
      rule-sets with their updates and the saved copy ([route/rule/rule_set_*.go],
      [adapter/experimental.go]).
    - [Ja3], [Quic], [QuicFragments], [QuicPacket], [QuicReturns], [QuicSniff]: the parser of client hellos ([common/ja3]) and the QUIC
      sniffer ([common/sniff/quic.go]) with its key derivation and reassembly.
      [Sniffers], [SniffersProps]: the other sniffers
      ([common/sniff]) except those of HTTP and TLS.
    - [FakeIP], [FakeIPQueue], [FakeIPCache]: fake addresses
      ([dns/transport/fakeip], [experimental/cachefile/fakeip.go]): the store
      over an interface of storages ([FakeIPStorage]), two instances of it, and
      the transport.
    - [TlsFragment], [TlsFragmentWrite], [TlsFragmentHello]: client hellos sent in pieces ([common/tlsfragment]).
    - [Counting]: sums over the goroutines of a system.  [ConnPool],
      [ConnPoolInv], [ConnPoolWait], [ConnPoolOrder]: the
      connection pool of the DNS transports ([dns/transport/conn_pool.go]);
      [Multiplexer], [MultiplexerOnce], [MultiplexerWatch]: the query multiplexer
      ([dns/transport/multiplexer.go]).  In both a step is what a goroutine does
      between two operations on shared state.
    - [Lines], [Hosts], [HostsProps]: lines read through a
      buffer, hosts files and the hosts server ([dns/transport/hosts]).

    ** Correspondence

    Definitions keep the names of the source; a method [(r *T) F] is [T_F] or
    [F].  State is passed explicitly: a method that writes to its receiver or
    to the metadata returns the new value.  Calls to members of a manager and
    datagrams on a socket are events in a trace, and an environment function of
    the trace gives their results, so that no order of failures is excluded.
    A pointer is a record that contains an identity.  An operation under a lock
    is one step; where goroutines race (rule walk, DNS router, joined queries,
    connection pool, multiplexer) the theorems range over all interleavings of
    such steps.  Logging is left out.

    Code outside the repository (the library sing, regular expressions, IP
    sets, domain matchers, DNS records, name resolution, dialers) appears as
    class parameters; a law is stated only where a proof needs the documented
    behaviour, and every theorem that uses one has a witness with a concrete
    instance.

    ** What the theorems show

    - Matching of every rule type implements the documented logic (a
      conjunction of groups, each a disjunction; rule-set merging; inversion)
      and changes nothing but the deferral word of the metadata; the one place
      left out is a logical rule inside a rule-set that is used with source
      matching or accept-empty.
    - Matching a DNS rule before its response is a sound approximation, and
      exact when the rule has no address limit; the metadata from which the
      router derives that limit is truthful after every reload.
    - Built rules list exactly the items of their groups; options that do not
      mix domain and address fields build rules to which the previous theorem
      applies; only the top level of a built rule carries an action.
    - Reject floods are cut after fifty rejections in thirty seconds;
      predefined answers rewrite exactly the covered wildcard names.
    - The STUN parser terminates on every datagram the client can read, and
      never reads out of range; it inverts serialisation but for an empty last
      attribute; requests carry a valid
      fingerprint; transmission retries nine times with bounded waits; the
      discovery procedures report the type of the NAT.
    - A manager starts every member exactly once and after its dependencies, or
      reports why it cannot (the one misleading report is described); its index,
      list, dependents and default agree.
    - In a started manager the selections of nested groups can be followed to
      an outbound.  A selector always has a member selected, and a change
      closes exactly the internal connections.  A URL test uses an outbound
      within the tolerance of the fastest, as long as the sums of delay and
      tolerance fit; one loop repeats its tests, and a round covers every member.
    - A box takes its components through their stages in order and closes each
      of them once when one fails, unless one panics; a closed instance is never
      used again.
    - The router takes the first rule that matches after the actions of the
      rules before it; routing returns; with one sniff rule the outbound reads
      what the client sent; pre-matching agrees with routing on the actions that
      both perform.
    - The validation of DNS rules accepts exactly the lists in which every
      response that a rule reads is evaluated before it.  For accepted lists the
      concurrent walk gives the result of the sequential reading of the rules
      when answers arrive while it waits, and it never sleeps through an answer.
      In legacy mode the first rule whose own answer passes its address filter
      decides; answers the client has in its cache are not filtered.
    - However Initialize, Start and Close of the DNS router interleave, every
      reference to a rule-set is given back.
    - The client answers from its cache, with the seconds that are left, until
      the entry expires; the lifetime
      of a response is its least nonzero TTL; client subnets are read back as
      written.  Of equal queries one is sent and the others get its answer.
    - Reading a rule-set file returns; a file that was written (from version 2 on,
      within the limits of the format) reads back as rules that match alike.  Rule-sets start from what they are configured
      with or report the error; what is saved is restored.  Geosite databases
      read back as written.
    - A QUIC client hello cut over several packets is found; which packets keep
      the sniffer from ending or returning is described.  Signatures are found
      however a stream arrives.
    - The fake address store is a queue of domains over any lawful storage, in
      ranges with room, also across a restart.
    - A fragmented client hello carries the bytes that were written; its first
      segment ends before the first label of the server name does; and the write
      fails only as described.
    - The pool loses no connection and forgets no caller that waits; an ordered
      pool gives a connection to one caller at a time.  The multiplexer calls
      every callback exactly once, as long as no identifier is given again during
      a write, forgets no pending query and uses all identifiers.  The hosts
      server answers from its files, at most five seconds late while they can be
      read.
    - Some theorems record where the code departs from its intent, with the
      exact condition.

    ** Bounds and fuel

    Integers of fixed width wrap ([wrap]) wherever the source computes with
    them.  Some loops run on fuel.  The STUN parser gets one unit per byte;
    an iteration consumes at least four bytes ([parse_outcomes]).  The start of
    a manager gets one pass per member and one more; a pass that starts nothing
    is the last ([start_rounds_spec]).  The dependency search gets two more
    than the number of known tags; it never visits a tag twice
    ([lint_terminates]).  [RealTag] and [Network] of groups get two more than
    the number of known outbounds, which is enough once the manager has found no
    circular dependency ([known_rank]); a round of tests gets one more, because a
    selector is entered once ([unchecked_add]).  The DNS
    rule walk has some sufficient fuel for every schedule that answers each
    query ([distance] falls with each resumption), the legacy exchange one unit
    per rule and one more.  Pre-matching follows at most eight nested groups, as
    the source does.  Readers of binary files and of frames, extensions, records
    and lines get one unit per byte and one more, since every round reads a byte;
    nested rules are read a hundred levels deep, as the source allows; the search
    for a free identifier gets 2^16 rounds, one per identifier ([next_id_spec]).
    In each of these cases exhausted fuel is proved not to occur.  Putting QUIC
    fragments together need not end: there [None] is a call that still runs, and
    the condition under which it ends is a theorem.

    ** Not modelled

    Protocol implementations, transports, dialers and platform bindings are I/O
    on third-party libraries and sockets: what they do lies mostly in code that is
    not in the repository.  The same holds for the DNS transports beside the pool
    and the multiplexer, and for the HTTP and TLS sniffers, which call parsers of
    the standard library.  The option structs are read by a JSON library.  The
    daemon, the control interfaces and the command line only pass calls on.
    Lookups of the DNS router and client, the persistent DNS cache, the copying of
    data between connections and the traffic statistics are left for a later
    extension. *)

From stdpp Require Import base numbers list strings gmap option.
From Stdlib Require Import ZArith Lia.

Local Open Scope Z_scope.

Declare Scope go_scope.
Delimit Scope go_scope with go.

(** ** Go values *)

(** An [error] value and the arguments of [E.New], [E.Cause], [E.Extend] and
    [E.Errors] (strings, integers, errors).  The message is kept as the
    argument list of the call that builds it, unformatted. *)
Inductive error :=
  | E_New (msg : list earg)
  | E_Cause (e : error) (msg : list earg)
  | E_Extend (e : error) (msg : list earg)
  | E_Errors (errs : list error)
  | ErrInvalid
  | ErrClosed
with earg :=
  | AStr (s : string)
  | AInt (z : Z)
  | AErr (e : error).

(** The outcome of a Go function returning [(T, error)]: a value, an error,
    or a run-time panic. *)
Inductive Res (A : Type) :=
  | Ok (a : A)
  | Err (e : error)
  | Panic (msg : string).
Arguments Ok {A} a.
Arguments Err {A} e.
Arguments Panic {A} msg.

#[global] Instance res_ret : MRet Res := fun A a => Ok a.
#[global] Instance res_bind : MBind Res := fun A B f m =>
  match m with
  | Ok a => f a
  | Err e => Err e
  | Panic s => Panic s
  end.
#[global] Instance res_fmap : FMap Res := fun A B f m =>
  match m with
  | Ok a => Ok (f a)
  | Err e => Err e
  | Panic s => Panic s
  end.

Lemma ok_bind {A B} (a : A) (f : A -> Res B) : Ok a ≫= f = f a.
Proof. reflexivity. Qed.

(** [E.Cause(err, msg...)] on the error path of a call. *)
Definition wrap_err {A} (m : Res A) (msg : list earg) : Res A :=
  match m with
  | Err e => Err (E_Cause e msg)
  | r => r
  end.

Definition is_ok {A} (m : Res A) : bool :=
  match m with Ok _ => true | _ => false end.

(** ** Machine integers

    A Go [uintN] value is a [Z] in [0, 2^N); arithmetic on it wraps. *)

Definition wrap (w z : Z) : Z := z mod 2 ^ w.
Abbreviation u8 := (wrap 8).
Abbreviation u16 := (wrap 16).
Abbreviation u32 := (wrap 32).

Definition in_width (w z : Z) : Prop := 0 <= z < 2 ^ w.

Lemma wrap_range w z : 0 <= w -> in_width w (wrap w z).
Proof. intros. apply Z.mod_pos_bound. apply Z.pow_pos_nonneg; lia. Qed.

Lemma wrap_small w z : in_width w z -> wrap w z = z.
Proof. apply Z.mod_small. Qed.

Lemma wrap_idemp w z : wrap w (wrap w z) = wrap w z.
Proof. unfold wrap. apply Zmod_mod. Qed.

(** Go's [x &^ y] (and not). *)
Definition andnot (x y : Z) : Z := Z.ldiff x y.
Infix "&^" := andnot (at level 40, left associativity) : go_scope.

Lemma andnot_0_l x : andnot 0 x = 0.
Proof. apply Z.ldiff_0_l. Qed.

(** ** Slice helpers of github.com/sagernet/sing/common

    The sources call these generic helpers of a package outside the tree.
    They are the operations of an interface; its laws are the documented
    meaning of each helper. *)
Class SliceHelpers := {
  Any : forall {T : Type}, list T -> (T -> bool) -> bool;
  All : forall {T : Type}, list T -> (T -> bool) -> bool;
  Map : forall {T U : Type}, list T -> (T -> U) -> list U;
  Filter : forall {T : Type}, list T -> (T -> bool) -> list T;
  FlatMap : forall {T U : Type}, list T -> (T -> list U) -> list U;
  (** first match, the zero value when there is none *)
  Find : forall {T : Type}, T -> list T -> (T -> bool) -> T;
  (** index of the first match, -1 when there is none *)
  Index : forall {T : Type}, list T -> (T -> bool) -> Z;
  Contains : forall {T : Type} `{EqDecision T}, list T -> T -> bool;
  (** first occurrences, in order *)
  Uniq : forall {T : Type} `{EqDecision T}, list T -> list T;
  (** what is not nil, in order *)
  FilterNotNil : forall {T : Type}, list (option T) -> list T;

  Any_law : forall T (l : list T) f, Any l f = existsb f l;
  All_law : forall T (l : list T) f, All l f = forallb f l;
  Map_law : forall T U (l : list T) (f : T -> U), Map l f = map f l;
  Filter_law : forall T (l : list T) f, Filter l f = List.filter f l;
  FlatMap_law : forall T U (l : list T) (f : T -> list U),
    FlatMap l f = flat_map f l;
  Find_law : forall T (z : T) l f, Find z l f = default z (List.find f l);
  Index_law : forall T (l : list T) f,
    Index l f = match list_find (fun x => Is_true (f x)) l with
                | Some (i, _) => Z.of_nat i
                | None => -1
                end;
  Contains_law : forall T `{EqDecision T} (l : list T) x,
    Contains l x = bool_decide (x ∈ l);
  Uniq_law : forall T `{EqDecision T} (l : list T) x,
    x ∈ Uniq l <-> x ∈ l;
  FilterNotNil_law : forall T (l : list (option T)), FilterNotNil l = omap id l
}.

Create Rewrite HintDb slices.
#[export] Hint Rewrite @Any_law @All_law @Map_law @Filter_law @FlatMap_law
  @Find_law @Index_law @Contains_law : slices.

(** The helpers as the list functions of the same name: an instance of the
    interface, for evaluation. *)
#[local, refine] Instance list_helpers : SliceHelpers := {|
  Any T l f := existsb f l;
  All T l f := forallb f l;
  Map T U l f := map f l;
  Filter T l f := List.filter f l;
  FlatMap T U l f := flat_map f l;
  Find T z l f := default z (List.find f l);
  Index T l f := match list_find (fun x => Is_true (f x)) l with
                 | Some (i, _) => Z.of_nat i
                 | None => -1
                 end;
  Contains T _ l x := bool_decide (x ∈ l);
  Uniq T _ l := remove_dups l;
  FilterNotNil T l := omap id l
|}.
Proof.
  all: try reflexivity.
  intros. apply elem_of_remove_dups.
Defined.

(** ** Slices

    A Go slice that may be nil; [reflect.DeepEqual] and comparisons with nil
    tell a nil slice from an empty one, [len] and [range] do not. *)
Definition Slice (A : Type) : Type := option (list A).
Definition elems {A} (s : Slice A) : list A := default [] s.
Definition is_nil {A} (s : option A) : bool := match s with None => true | Some _ => false end.
Definition has_elems {A} (s : Slice A) : bool :=
  match elems s with [] => false | _ => true end.

(** ** Sequential search

    The loops of the sources that scan a slice and return at the first hit. *)

Lemma existsb_Exists {A} (f : A -> bool) l :
  existsb f l = true <-> exists x, x ∈ l /\ f x = true.
Proof.
  rewrite existsb_exists. split; intros (x & Hx & Hf); exists x;
    split; auto; by apply list_elem_of_In.
Qed.

Lemma forallb_Forall' {A} (f : A -> bool) l :
  forallb f l = true <-> Forall (fun x => f x = true) l.
Proof. rewrite forallb_forall, List.Forall_forall. done. Qed.

Lemma forallb_false {A} (f : A -> bool) l :
  forallb f l = false -> exists x, x ∈ l /\ f x = false.
Proof.
  induction l as [|a l IH]; [done|]; simpl. destruct (f a) eqn:Ha; simpl.
  - intros (x & Hx & Hf)%IH. exists x. split; [by right|done].
  - intros _. exists a. split; [left|done].
Qed.

Lemma existsb_ext_in {A} (f g : A -> bool) l :
  (forall x, x ∈ l -> f x = g x) -> existsb f l = existsb g l.
Proof.
  induction l as [|a l IH]; intros H; [done|]; simpl.
  rewrite (H a), IH; [done| |left]. intros; apply H; by right.
Qed.

Lemma forallb_ext_in {A} (f g : A -> bool) l :
  (forall x, x ∈ l -> f x = g x) -> forallb f l = forallb g l.
Proof.
  induction l as [|a l IH]; intros H; [done|]; simpl.
  rewrite (H a), IH; [done| |left]. intros; apply H; by right.
Qed.

(** ** Maps used as sets: [map[K]bool] *)

(** [m[k]] on a [map[K]bool]: the zero value [false] when absent. *)
Definition map_get_bool `{Countable K} (m : gmap K bool) (k : K) : bool :=
  default false (m !! k).

(** [for _, x := range l { m[x] = true }] *)
Definition set_true `{Countable K} (l : list K) (m : gmap K bool) : gmap K bool :=
  fold_left (fun acc k => <[k := true]> acc) l m.

Lemma set_true_get `{Countable K} (l : list K) (m : gmap K bool) k :
  map_get_bool (set_true l m) k = bool_decide (k ∈ l) || map_get_bool m k.
Proof.
  revert m; induction l as [|a l IH]; intros m; simpl; [done|].
  rewrite IH. unfold map_get_bool. destruct (decide (a = k)) as [->|Hne].
  - rewrite lookup_insert_eq. simpl.
    rewrite (bool_decide_eq_true_2 (k ∈ k :: l)) by left.
    by rewrite orb_true_r.
  - rewrite lookup_insert_ne by done. f_equal.
    apply bool_decide_ext. rewrite elem_of_cons. naive_solver.
Qed.

Lemma set_true_empty `{Countable K} (l : list K) k :
  map_get_bool (set_true l ∅) k = bool_decide (k ∈ l).
Proof.
  rewrite set_true_get. unfold map_get_bool. rewrite lookup_empty.
  apply orb_false_r.
Qed.

(** ** Automation *)

Create HintDb go.
Create Rewrite HintDb go.
#[export] Hint Resolve wrap_range : go.

(** Case analysis on the scrutinee of the innermost match or if of the goal. *)
Ltac go_case :=
  match goal with
  | |- context [match ?x with _ => _ end] =>
      lazymatch x with
      | context [match _ with _ => _ end] => fail
      | _ => destruct x eqn:?
      end
  end.

(** The same on a hypothesis. *)
Ltac go_case_in H :=
  match type of H with
  | context [match ?x with _ => _ end] =>
      lazymatch x with
      | context [match _ with _ => _ end] => fail
      | _ => destruct x eqn:?
      end
  end.

(** Push boolean connectives to propositions and solve. *)
Ltac bsimp :=
  repeat match goal with
  | H : _ && _ = true |- _ => apply andb_true_iff in H; destruct H
  | H : _ || _ = false |- _ => apply orb_false_iff in H; destruct H
  | H : negb _ = true |- _ => apply negb_true_iff in H
  | H : negb _ = false |- _ => apply negb_false_iff in H
  end.

(** ** Runs *)

(** On every run, whatever the order of the steps, [P] holds at some point: it
    holds now, or a step is possible and [P] is inevitable after every step. *)
Inductive inevitable {A S} (step : A -> S -> option S) (P : S -> Prop) (s : S) : Prop :=
  | holds_now : P s -> inevitable step P s
  | holds_later :
      (exists a s', step a s = Some s') ->
      (forall a s', step a s = Some s' -> inevitable step P s') -> inevitable step P s.

(** It is inevitable when steps keep an invariant, use something up, and are
    possible as long as [P] does not hold. *)
Lemma inevitable_measure {A S} (step : A -> S -> option S) (I : S -> Prop) (measure : S -> nat) (P : S -> Prop) s :
  (forall a s s', I s -> step a s = Some s' -> I s') ->
  (forall a s s', I s -> step a s = Some s' -> (measure s' < measure s)%nat) ->
  (forall s, I s -> P s \/ exists a s', step a s = Some s') ->
  I s -> inevitable step P s.
Proof.
  intros Hkeep Hless Hmore. remember (measure s) as n eqn:Hn. revert s Hn.
  induction (lt_wf n) as [n _ IH]. intros s -> Hi. destruct (Hmore s Hi) as [Hp|Hs]; [by apply holds_now|].
  apply holds_later; [done|]. intros a s' Ha. eapply IH; [by eapply Hless|reflexivity|by eapply Hkeep].
Qed.
