(* ===== verification/Bytes.v ===== *)
(** * Bytes

    Byte strings as lists of integers, strings as bytes, and big-endian
    numbers, for the codecs of the development. *)

From stdpp Require Import base numbers list strings.
From Stdlib Require Import ZArith Lia Ascii.
From S2P Require Import Prelude.

Local Open Scope Z_scope.

Abbreviation bytes := (list Z).
Definition len {A} (l : list A) : Z := Z.of_nat (length l).
Definition is_byte (b : Z) : Prop := in_width 8 b.

Lemma bytes_check l : forallb (fun b => (0 <=? b) && (b <? 256)) l = true -> Forall is_byte l.
Proof.
  rewrite forallb_Forall'. intros Hl. induction Hl as [|b l H Hl IH]; constructor; [|done].
  apply andb_true_iff in H as [H1 H2]. unfold is_byte, in_width. lia.
Qed.

(** [[]byte(s)] and [string(b)] *)
Definition string_bytes (s : string) : bytes :=
  map (fun c => Z.of_nat (nat_of_ascii c)) (String.list_ascii_of_string s).
Definition bytes_string (b : bytes) : string :=
  String.string_of_list_ascii (map (fun z => ascii_of_nat (Z.to_nat z)) b).

Lemma string_bytes_bytes s : Forall is_byte (string_bytes s).
Proof.
  unfold string_bytes. apply Forall_map, List.Forall_forall. intros c _.
  unfold is_byte, in_width. simpl. pose proof (nat_ascii_bounded c). lia.
Qed.

Lemma bytes_string_bytes s : bytes_string (string_bytes s) = s.
Proof.
  unfold bytes_string, string_bytes. rewrite map_map. rewrite <-(String.string_of_list_ascii_of_string s) at 2. f_equal.
  rewrite <-map_id. apply map_ext. intros c. rewrite Nat2Z.id. apply ascii_nat_embedding.
Qed.

Lemma string_bytes_string b : Forall is_byte b -> string_bytes (bytes_string b) = b.
Proof.
  intros Hb. unfold bytes_string, string_bytes. rewrite String.list_ascii_of_string_of_list_ascii, map_map.
  induction Hb as [|z b Hz Hb IH]; [done|]. cbn [map]. rewrite IH. f_equal. unfold is_byte, in_width in Hz.
  rewrite nat_ascii_embedding by lia. lia.
Qed.

Lemma string_bytes_length s : length (string_bytes s) = String.length s.
Proof. unfold string_bytes. rewrite length_map. induction s; cbn; [done|by f_equal]. Qed.

(** The big-endian bytes of a number, and back *)
Fixpoint be_bytes (n : nat) (v : Z) : bytes :=
  match n with O => [] | S n => be_bytes n (v / 256) ++ [v mod 256] end.
Definition be_value (l : bytes) : Z := fold_left (fun a b => a * 256 + b) l 0.

Lemma be_value_app l b : be_value (l ++ [b]) = be_value l * 256 + b.
Proof. unfold be_value. by rewrite fold_left_app. Qed.

Lemma be_value_bytes n v : 0 <= v < 256 ^ Z.of_nat n -> be_value (be_bytes n v) = v.
Proof.
  revert v. induction n as [|n IH]; intros v Hv; cbn [be_bytes].
  - change (256 ^ Z.of_nat 0) with 1 in Hv. change (be_value []) with 0. lia.
  - rewrite be_value_app. rewrite Nat2Z.inj_succ, Z.pow_succ_r in Hv by lia.
    rewrite IH; [pose proof (Z.div_mod v 256); lia|]. split; [apply Z.div_pos; lia|apply Z.div_lt_upper_bound; lia].
Qed.

Lemma be_bytes_length n v : length (be_bytes n v) = n.
Proof. revert v. induction n as [|n IH]; intros v; cbn; [done|]. rewrite length_app, IH. simpl. lia. Qed.

Lemma be_bytes_bytes n v : Forall is_byte (be_bytes n v).
Proof.
  revert v. induction n as [|n IH]; intros v; cbn; [constructor|]. apply Forall_app. split; [done|].
  constructor; [|constructor]. unfold is_byte, in_width. pose proof (Z.mod_pos_bound v 256). lia.
Qed.

(** ** Bounds *)

(** [b[lo:hi]] *)
Definition slice (b : bytes) (lo hi : Z) : Res bytes :=
  if (0 <=? lo) && (lo <=? hi) && (hi <=? len b)
  then Ok (take (Z.to_nat (hi - lo)) (drop (Z.to_nat lo) b))
  else Panic "slice bounds out of range".

(** [b[i]] *)
Definition index (b : bytes) (i : Z) : Res Z :=
  if i <? 0 then Panic "index out of range"
  else match b !! Z.to_nat i with
       | Some x => Ok x
       | None => Panic "index out of range"
       end.

Lemma slice_ok b lo hi :
  0 <= lo <= hi -> hi <= len b ->
  slice b lo hi = Ok (take (Z.to_nat (hi - lo)) (drop (Z.to_nat lo) b)).
Proof. intros. unfold slice. by rewrite !(proj2 (Z.leb_le _ _)) by lia. Qed.
