(* ===== verification/NetAddr.v ===== *)
(** * Addresses and the external interfaces

    [net/netip] addresses and prefixes, [M.Socksaddr], and the interfaces of
    the code outside the repository the routing components call: pieces of
    the Go standard library whose tables are irrelevant here (class
    [GoStd]) and the packages sing, netipx and miekg/dns (class
    [ThirdParty]). *)

From stdpp Require Import base numbers list strings gmap option.
From Stdlib Require Import ZArith Lia.
From S2P Require Import Prelude Bytes.

Local Open Scope Z_scope.

(** ** net/netip *)

(** [netip.Addr]: the zero (invalid) address, an IPv4 address, an IPv6 one. *)
Inductive Addr :=
  | AddrNone
  | Addr4 (v : Z)
  | Addr6 (v : Z) (zone : string).

#[global] Instance Addr_eq_dec : EqDecision Addr.
Proof. solve_decision. Defined.

Definition Addr_IsValid (a : Addr) : bool :=
  match a with AddrNone => false | _ => true end.

Definition Addr_Is4 (a : Addr) : bool :=
  match a with Addr4 _ => true | _ => false end.

Definition Addr_BitLen (a : Addr) : Z :=
  match a with AddrNone => 0 | Addr4 _ => 32 | Addr6 _ _ => 128 end.

Definition Addr_bits (a : Addr) : Z :=
  match a with AddrNone => 0 | Addr4 v => v | Addr6 v _ => v end.

Definition Addr_hasZone (a : Addr) : bool :=
  match a with Addr6 _ z => negb (bool_decide (z = "")) | _ => false end.

(** [Addr.Is4In6] and [Addr.Unmap]: the ::ffff:0:0/96 block. *)
Definition Addr_Is4In6 (a : Addr) : bool :=
  match a with
  | Addr6 v _ => Z.shiftr v 32 =? 0xffff
  | _ => false
  end.

Definition Addr_Unmap (a : Addr) : Addr :=
  if Addr_Is4In6 a then Addr4 (Z.land (Addr_bits a) 0xffffffff) else a.

(** [netip.Prefix]; [Bits] is -1 on the zero prefix. *)
Record Prefix := mkPrefix { Prefix_Addr : Addr; Prefix_Bits : Z }.

#[global] Instance Prefix_eq_dec : EqDecision Prefix.
Proof. solve_decision. Defined.

Definition Prefix_zero : Prefix := mkPrefix AddrNone (-1).

Definition Prefix_IsValid (p : Prefix) : bool := 0 <=? Prefix_Bits p.

(** [Addr.AsSlice], [netip.AddrFromSlice] and [netip.PrefixFrom] *)
Definition Addr_AsSlice (a : Addr) : list Z :=
  match a with AddrNone => [] | Addr4 v => be_bytes 4 v | Addr6 v _ => be_bytes 16 v end.
Definition AddrFromSlice (l : list Z) : option Addr :=
  if (length l =? 4)%nat then Some (Addr4 (be_value l))
  else if (length l =? 16)%nat then Some (Addr6 (be_value l) "") else None.
Definition PrefixFrom (a : Addr) (bits : Z) : Prefix :=
  let a := match a with Addr6 v _ => Addr6 v "" | a => a end in
  mkPrefix a (if Addr_IsValid a && (0 <=? bits) && (bits <=? Addr_BitLen a) then bits else -1).

Definition Prefix_Contains (p : Prefix) (ip : Addr) : bool :=
  Prefix_IsValid p && negb (Addr_hasZone ip) &&
  (Addr_BitLen (Prefix_Addr p) =? Addr_BitLen ip) &&
  (0 <? Addr_BitLen ip) &&
  (Z.shiftr (Z.lxor (Addr_bits ip) (Addr_bits (Prefix_Addr p)))
            (Addr_BitLen ip - Prefix_Bits p) =? 0).

Definition Prefix_Overlaps (p o : Prefix) : bool :=
  if negb (Prefix_IsValid p) || negb (Prefix_IsValid o) then false
  else if bool_decide (p = o) then true
  else if negb (Bool.eqb (Addr_Is4 (Prefix_Addr p)) (Addr_Is4 (Prefix_Addr o)))
  then false
  else
    let minBits := Z.min (Prefix_Bits p) (Prefix_Bits o) in
    if minBits =? 0 then true
    else
      Z.shiftr (Addr_bits (Prefix_Addr p)) (Addr_BitLen (Prefix_Addr p) - minBits)
      =? Z.shiftr (Addr_bits (Prefix_Addr o)) (Addr_BitLen (Prefix_Addr o) - minBits).

(** [M.Socksaddr]: an IP or a domain name, with a port. *)
Record Socksaddr := mkSocksaddr {
  Socks_Addr : Addr;
  Socks_Port : Z;
  Socks_Fqdn : string
}.

#[global] Instance Socksaddr_eq_dec : EqDecision Socksaddr.
Proof. solve_decision. Defined.

Definition Socksaddr_zero : Socksaddr := mkSocksaddr AddrNone 0 "".

(** ** DNS messages: the parts of [dns.Msg] the sources read *)

(** The values of an HTTPS record the code inspects. *)
Inductive SVCBValue :=
  | SVCBIPv4Hint (hint : list (list Z))
  | SVCBIPv6Hint (hint : list (list Z))
  | SVCBOther (key : string).

Inductive RR :=
  | RR_A (name : string) (ip : list Z)
  | RR_AAAA (name : string) (ip : list Z)
  | RR_HTTPS (name : string) (value : list SVCBValue)
  | RR_Other (name : string) (rrtype : Z) (rdata : list Z).

#[global] Instance SVCBValue_eq_dec : EqDecision SVCBValue.
Proof. solve_decision. Defined.
#[global] Instance RR_eq_dec : EqDecision RR.
Proof. solve_decision. Defined.

Record Msg := mkMsg {
  Msg_Rcode : Z;
  Msg_Answer : list RR;
  Msg_Ns : list RR;
  Msg_Extra : list RR
}.

Definition RcodeSuccess : Z := 0.

(** ** The interfaces of external code *)

(** Go standard library functions that are used as black boxes. *)
Class GoStd := {
  strings_ToLower : string -> string;
  strings_TrimSpace : string -> string;
  strings_EqualFold : string -> string -> bool;
  Regexp : Type;
  regexp_Compile : string -> Res Regexp;
  MatchString : Regexp -> string -> bool;
  ParsePrefix : string -> Res Prefix;
  ParseAddr : string -> Res Addr;
  (** [netip.Prefix.String] *)
  Prefix_String : Prefix -> string;
  (** [net.ParseMAC], [net.HardwareAddr.String], [hex.DecodeString] *)
  ParseMAC : string -> Res (list Z);
  HardwareAddr_String : list Z -> string;
  hex_DecodeString : string -> Res (list Z)
}.

(** The packages sing (common/metadata, common/network, common/domain),
    netipx and miekg/dns. *)
Class ThirdParty := {
  Socks_IsIP : Socksaddr -> bool;
  Socks_IsIPv6 : Socksaddr -> bool;
  AddrFromIP : list Z -> Addr;
  IsPublicAddr : Addr -> bool;
  IPSet : Type;
  IPSetBuilder : Type;
  IPSetBuilder_zero : IPSetBuilder;
  AddPrefix : IPSetBuilder -> Prefix -> IPSetBuilder;
  AddAddr : IPSetBuilder -> Addr -> IPSetBuilder;
  IPSetBuilder_IPSet : IPSetBuilder -> Res IPSet;
  IPSet_Contains : IPSet -> Addr -> bool;
  Matcher : Type;
  NewMatcher : list string -> list string -> bool -> Matcher;
  Matcher_Match : Matcher -> string -> bool;
  AdGuardMatcher : Type;
  NewAdGuardMatcher : list string -> AdGuardMatcher;
  AdGuard_Match : AdGuardMatcher -> string -> bool;
  dns_CanonicalName : string -> string;
  dns_IsDuplicate : RR -> RR -> bool;
  RR_String : RR -> string;
  (** the tables [dns.RcodeToString] and [dns.TypeToString] *)
  RcodeToString : Z -> string;
  TypeToString : Z -> option string;
  (** [badoption.Prefixable]; [Build] takes the default for a nil receiver *)
  Prefixable : Type;
  Prefixable_Build : option Prefixable -> Prefix -> Prefix;
  (** [F.ToString] on an integer *)
  F_ToString : Z -> string
}.

(** ** Strings of the standard library that the sources rely on *)

(** [strings.Contains]. *)
Fixpoint str_contains (sub s : string) : bool :=
  String.prefix sub s ||
  match s with
  | EmptyString => false
  | String _ s' => str_contains sub s'
  end.

(** [strings.Index(s, c)] for a one-byte [c]: -1 when absent. *)
Fixpoint str_index_byte (c : Ascii.ascii) (s : string) : Z :=
  match s with
  | EmptyString => -1
  | String a s' =>
      if Ascii.eqb a c then 0
      else let i := str_index_byte c s' in if i <? 0 then -1 else i + 1
  end.

(** [s[:i]] and [s[i:]] for [0 <= i <= len(s)]. *)
Definition str_take (i : Z) (s : string) : string := String.substring 0 (Z.to_nat i) s.
Definition str_drop (i : Z) (s : string) : string :=
  String.substring (Z.to_nat i) (String.length s - Z.to_nat i) s.
Definition str_len (s : string) : Z := Z.of_nat (String.length s).

(** [strings.Join]. *)
Definition str_join (l : list string) (sep : string) : string := String.concat sep l.

(** One decimal digit. *)
Definition digit_val (c : Ascii.ascii) : option Z :=
  let n := Z.of_nat (Ascii.nat_of_ascii c) in
  if (48 <=? n) && (n <=? 57) then Some (n - 48) else None.

(** [strconv.ParseUint(s, 10, w)]: digits only, value below [2^w]. *)
Fixpoint parse_digits (w acc : Z) (s : string) : option Z :=
  match s with
  | EmptyString => Some acc
  | String c s' =>
      match digit_val c with
      | None => None
      | Some d =>
          let acc' := acc * 10 + d in
          if acc' <? 2 ^ w then parse_digits w acc' s' else None
      end
  end.

Definition ParseUint (w : Z) (s : string) : Res Z :=
  match s with
  | EmptyString => Err (E_New [AStr "strconv.ParseUint: invalid syntax"])
  | _ => match parse_digits w 0 s with
         | Some z => Ok z
         | None => Err (E_New [AStr "strconv.ParseUint"; AStr s])
         end
  end.

(** [filepath.Base] on a Unix path. *)
Fixpoint str_rev_app (s acc : string) : string :=
  match s with
  | EmptyString => acc
  | String c s' => str_rev_app s' (String c acc)
  end.
Definition str_rev (s : string) : string := str_rev_app s "".

Definition slash : Ascii.ascii := Ascii.ascii_of_nat 47.

Fixpoint strip_slashes (s : string) : string :=
  match s with
  | EmptyString => EmptyString
  | String c s' => if Ascii.eqb c slash then strip_slashes s' else s
  end.

Fixpoint take_until_slash (s : string) : string :=
  match s with
  | EmptyString => EmptyString
  | String c s' => if Ascii.eqb c slash then EmptyString
                   else String c (take_until_slash s')
  end.

Definition filepath_Base (path : string) : string :=
  match path with
  | EmptyString => "."
  | _ => match strip_slashes (str_rev path) with
         | EmptyString => "/"
         | s => str_rev (take_until_slash s)
         end
  end.

Lemma parse_digits_range w acc s z :
  0 <= w -> in_width w acc -> parse_digits w acc s = Some z -> in_width w z.
Proof.
  intros Hw. revert acc; induction s as [|c s IH]; intros acc Hacc; simpl.
  - by intros [= <-].
  - unfold digit_val. case_match; [|done].
    destruct (Z.ltb_spec (acc * 10 + z0) (2 ^ w)); [|done].
    apply IH. unfold in_width in *. case_match; simplify_eq. bsimp.
    split; [|lia].
    destruct (Z.leb_spec 48 (Z.of_nat (Ascii.nat_of_ascii c))); [lia|done].
Qed.

Lemma ParseUint_range w s z : 0 <= w -> ParseUint w s = Ok z -> in_width w z.
Proof.
  unfold ParseUint. intros Hw H. destruct s; [done|].
  destruct (parse_digits w 0 _) eqn:E; [|done]. injection H as <-.
  eapply parse_digits_range; [done| |done].
  split; [lia|]. apply Z.pow_pos_nonneg; lia.
Qed.
