(* ===== verification/Metadata.v ===== *)
(** * Connection metadata

    [adapter.InboundContext], the mutable record every rule reads, and the
    state of the surrounding managers that items consult while matching.
    The record follows the comment groups of the Go struct; the operations
    that rewrite it are the setters below. *)

From stdpp Require Import base numbers list strings gmap option.
From Stdlib Require Import ZArith Lia.
From S2P Require Import Prelude NetAddr.

Local Open Scope Z_scope.

(** [adapter.ConnectionOwner]. *)
Record ConnectionOwner := mkConnectionOwner {
  ProcessID : Z;
  UserId : Z;
  UserName : string;
  ProcessPath : string;
  AndroidPackageNames : list string
}.

(** The leading fields of the struct. *)
Record ctx_base := mkBase {
  c_Inbound : string;
  c_InboundType : string;
  c_IPVersion : Z;
  c_Network : string;
  c_Source : Socksaddr;
  c_Destination : Socksaddr;
  c_User : string;
  c_Outbound : string
}.

(** "power report" *)
Record ctx_power := mkPower {
  c_RouteRule : string;
  c_RouteOutbound : string
}.

(** "sniffer" (the parser state [SniffContext] is left out) *)
Record ctx_sniffer := mkSniffer {
  c_Protocol : string;
  c_Domain : string;
  c_Client : string;
  c_SnifferNames : list string;
  c_SniffError : option error
}.

(** "cache": the routing part *)
Record ctx_cache := mkCache {
  c_InboundDetour : string;
  c_LastInbound : string;
  c_OriginDestination : Socksaddr;
  c_RouteOriginalDestination : Socksaddr;
  c_UDPDisableDomainUnmapping : bool;
  c_UDPConnect : bool;
  c_UDPTimeout : Z;
  c_TLSFragment : bool;
  c_TLSFragmentFallbackDelay : Z;
  c_TLSRecordFragment : bool;
  c_TLSSpoof : string;
  c_TLSSpoofMethod : Z;
  c_NetworkStrategy : option Z;
  c_NetworkType : list Z;
  c_FallbackNetworkType : list Z;
  c_FallbackDelay : Z
}.

(** "cache": the part that rule items match on.  The entries of
    [NamedDNSResponses] are pointers, so a present key may hold nil. *)
Record ctx_match := mkMatch {
  c_DestinationAddresses : list Addr;
  c_DNSResponse : option Msg;
  c_NamedDNSResponses : gmap string (option Msg);
  c_DestinationAddressMatchFromResponse : bool;
  c_SourceGeoIPCode : string;
  c_GeoIPCode : string;
  c_ProcessInfo : option ConnectionOwner;
  c_SourceMACAddress : option (list Z);
  c_SourceHostname : string;
  c_QueryType : Z;
  c_QueryClientSubnet : Prefix;
  c_QueryDNSSEC : bool;
  c_FakeIP : bool;
  c_PreMatch : bool
}.

(** "rule cache" *)
Record ctx_rule_cache := mkRuleCache {
  c_IPCIDRMatchSource : bool;
  c_IPCIDRAcceptEmpty : bool;
  c_SourceAddressMatch : bool;
  c_SourcePortMatch : bool;
  c_DestinationAddressMatch : bool;
  c_DestinationPortMatch : bool;
  c_DeferredIPCIDRMatchGroups : Z;
  c_IgnoreDestinationIPCIDRMatch : bool
}.

(** [adapter.InboundContext] *)
Record InboundContext := mkInboundContext {
  ic_base : ctx_base;
  ic_power : ctx_power;
  ic_sniffer : ctx_sniffer;
  ic_cache : ctx_cache;
  ic_match : ctx_match;
  ic_rule : ctx_rule_cache
}.

(** Field access, by the names of the struct. *)
Abbreviation Inbound m := (c_Inbound (ic_base m)).
Abbreviation IPVersion m := (c_IPVersion (ic_base m)).
Abbreviation Network m := (c_Network (ic_base m)).
Abbreviation Source m := (c_Source (ic_base m)).
Abbreviation Destination m := (c_Destination (ic_base m)).
Abbreviation User m := (c_User (ic_base m)).
Abbreviation Outbound m := (c_Outbound (ic_base m)).
Abbreviation Protocol m := (c_Protocol (ic_sniffer m)).
Abbreviation Domain m := (c_Domain (ic_sniffer m)).
Abbreviation Client m := (c_Client (ic_sniffer m)).
Abbreviation DestinationAddresses m := (c_DestinationAddresses (ic_match m)).
Abbreviation DNSResponse m := (c_DNSResponse (ic_match m)).
Abbreviation NamedDNSResponses m := (c_NamedDNSResponses (ic_match m)).
Abbreviation DestinationAddressMatchFromResponse m :=
  (c_DestinationAddressMatchFromResponse (ic_match m)).
Abbreviation ProcessInfo m := (c_ProcessInfo (ic_match m)).
Abbreviation SourceMACAddress m := (c_SourceMACAddress (ic_match m)).
Abbreviation SourceHostname m := (c_SourceHostname (ic_match m)).
Abbreviation QueryType m := (c_QueryType (ic_match m)).
Abbreviation QueryClientSubnet m := (c_QueryClientSubnet (ic_match m)).
Abbreviation QueryDNSSEC m := (c_QueryDNSSEC (ic_match m)).
Abbreviation PreMatch m := (c_PreMatch (ic_match m)).
Abbreviation IPCIDRMatchSource m := (c_IPCIDRMatchSource (ic_rule m)).
Abbreviation IPCIDRAcceptEmpty m := (c_IPCIDRAcceptEmpty (ic_rule m)).
Abbreviation DeferredIPCIDRMatchGroups m := (c_DeferredIPCIDRMatchGroups (ic_rule m)).
Abbreviation IgnoreDestinationIPCIDRMatch m := (c_IgnoreDestinationIPCIDRMatch (ic_rule m)).

(** ** Writing fields *)

Definition set_rule_cache (m : InboundContext) (c : ctx_rule_cache) : InboundContext :=
  mkInboundContext (ic_base m) (ic_power m) (ic_sniffer m) (ic_cache m) (ic_match m) c.

Definition set_match (m : InboundContext) (c : ctx_match) : InboundContext :=
  mkInboundContext (ic_base m) (ic_power m) (ic_sniffer m) (ic_cache m) c (ic_rule m).

(** [metadata.DeferredIPCIDRMatchGroups = d] *)
Definition set_Deferred (m : InboundContext) (d : Z) : InboundContext :=
  let c := ic_rule m in
  set_rule_cache m
    (mkRuleCache (c_IPCIDRMatchSource c) (c_IPCIDRAcceptEmpty c) (c_SourceAddressMatch c)
       (c_SourcePortMatch c) (c_DestinationAddressMatch c) (c_DestinationPortMatch c) d
       (c_IgnoreDestinationIPCIDRMatch c)).

(** [metadata.IgnoreDestinationIPCIDRMatch = b] *)
Definition set_Ignore (m : InboundContext) (b : bool) : InboundContext :=
  let c := ic_rule m in
  set_rule_cache m
    (mkRuleCache (c_IPCIDRMatchSource c) (c_IPCIDRAcceptEmpty c) (c_SourceAddressMatch c)
       (c_SourcePortMatch c) (c_DestinationAddressMatch c) (c_DestinationPortMatch c)
       (c_DeferredIPCIDRMatchGroups c) b).

(** [metadata.IPCIDRMatchSource = a; metadata.IPCIDRAcceptEmpty = b] *)
Definition set_IPCIDR (m : InboundContext) (a b : bool) : InboundContext :=
  let c := ic_rule m in
  set_rule_cache m
    (mkRuleCache a b (c_SourceAddressMatch c)
       (c_SourcePortMatch c) (c_DestinationAddressMatch c) (c_DestinationPortMatch c)
       (c_DeferredIPCIDRMatchGroups c) (c_IgnoreDestinationIPCIDRMatch c)).

(** [metadata.DNSResponse = r; metadata.DestinationAddressMatchFromResponse = b] *)
Definition set_Response (m : InboundContext) (r : option Msg) (b : bool) : InboundContext :=
  let c := ic_match m in
  set_match m
    (mkMatch (c_DestinationAddresses c) r (c_NamedDNSResponses c) b (c_SourceGeoIPCode c)
       (c_GeoIPCode c) (c_ProcessInfo c) (c_SourceMACAddress c) (c_SourceHostname c)
       (c_QueryType c) (c_QueryClientSubnet c) (c_QueryDNSSEC c) (c_FakeIP c) (c_PreMatch c)).

(** [ResetRuleMatchCache]: forget what the last rule matched. *)
Definition ResetRuleMatchCache (c : InboundContext) : InboundContext :=
  set_rule_cache c
    (mkRuleCache (IPCIDRMatchSource c) (IPCIDRAcceptEmpty c) false false false false 0
       (IgnoreDestinationIPCIDRMatch c)).

(** [ResetRuleCache]: also the CIDR matching mode. *)
Definition ResetRuleCache (c : InboundContext) : InboundContext :=
  ResetRuleMatchCache (set_IPCIDR c false false).

(** ** Addresses of a DNS response *)

Section Responses.
Context {TP : ThirdParty}.

(** One SVCB parameter of an HTTPS record. *)
Definition hint_addresses (value : SVCBValue) : list Addr :=
  match value with
  | SVCBIPv4Hint hint =>
      List.filter Addr_IsValid (map (fun ip => Addr_Unmap (AddrFromIP ip)) hint)
  | SVCBIPv6Hint hint => List.filter Addr_IsValid (map AddrFromIP hint)
  | SVCBOther _ => []
  end.

(** One iteration of the loop over the answer section. *)
Definition record_addresses (rawRecord : RR) : list Addr :=
  match rawRecord with
  | RR_A _ ip | RR_AAAA _ ip =>
      let addr := AddrFromIP ip in if Addr_IsValid addr then [addr] else []
  | RR_HTTPS _ values => flat_map hint_addresses values
  | RR_Other _ _ _ => []
  end.

(** [DNSResponseAddresses]: none for a failed or missing response. *)
Definition DNSResponseAddresses (response : option Msg) : list Addr :=
  match response with
  | None => []
  | Some r =>
      if negb (Msg_Rcode r =? RcodeSuccess) then []
      else fold_left (fun addresses rr => addresses ++ record_addresses rr) (Msg_Answer r) []
  end.

(** [(c *InboundContext) DNSResponseAddressesForMatch] *)
Definition DNSResponseAddressesForMatch (c : InboundContext) : list Addr :=
  DNSResponseAddresses (DNSResponse c).

Lemma record_addresses_valid rr a : a ∈ record_addresses rr -> Addr_IsValid a = true.
Proof.
  destruct rr as [n ip|n ip|n vs|]; simpl; [| | |set_solver].
  1,2: destruct (Addr_IsValid (AddrFromIP ip)) eqn:E; set_solver.
  rewrite list_elem_of_In, in_flat_map. intros (v & _ & Hin).
  destruct v; simpl in Hin; try done; by apply filter_In in Hin as [].
Qed.

Lemma addresses_fold rrs acc a :
  a ∈ fold_left (fun addresses rr => addresses ++ record_addresses rr) rrs acc <->
  a ∈ acc \/ exists rr, rr ∈ rrs /\ a ∈ record_addresses rr.
Proof.
  revert acc; induction rrs as [|rr rrs IH]; intros acc; simpl; [set_solver|].
  rewrite IH, elem_of_app. setoid_rewrite elem_of_cons. naive_solver.
Qed.

(** An address of a response comes from an answer record of a successful
    response, and is a valid address. *)
Lemma DNSResponseAddresses_spec response a :
  a ∈ DNSResponseAddresses response <->
  exists r rr, response = Some r /\ Msg_Rcode r = RcodeSuccess /\
    rr ∈ Msg_Answer r /\ a ∈ record_addresses rr.
Proof.
  unfold DNSResponseAddresses. destruct response as [r|]; [|set_solver].
  destruct (Z.eqb_spec (Msg_Rcode r) RcodeSuccess); simpl.
  - rewrite addresses_fold. set_solver.
  - set_solver.
Qed.

End Responses.

(** ** State of the managers consulted by items *)

(** [control.Interface] and [adapter.NetworkInterface], the fields used. *)
Record NetworkInterface := mkNetworkInterface {
  ni_Name : string;
  ni_Addresses : list Prefix;
  ni_Type : Z;
  ni_Expensive : bool;
  ni_Constrained : bool
}.

(** [adapter.WIFIState] *)
Record WIFIState := mkWIFIState { SSID : string; BSSID : string }.

(** What the network manager, the Clash server and the outbounds named by
    [preferred_by] answer during one match. *)
Record RuleEnv := mkRuleEnv {
  DefaultNetworkInterface : option NetworkInterface;
  NetworkInterfaces : list NetworkInterface;
  FinderInterfaces : list NetworkInterface;
  MyInterfaces : list string;
  DefaultInterface : option NetworkInterface;
  env_WIFIState : WIFIState;
  ClashMode : option string;
  (** [PreferredDomain(metadata, domain)] and [PreferredAddress(metadata,
      address)] of the outbound with a tag; of the metadata the
      implementations in protocol/ read [PreMatch] at most *)
  OutboundPreferredDomain : string -> bool -> string -> bool;
  OutboundPreferredAddress : string -> bool -> Addr -> bool;
  TransportPreferredDomain : string -> string -> bool;
  (** the build constant [C.IsAndroid] *)
  C_IsAndroid : bool
}.

Section Wifi.
Context {GS : GoStd}.

(** [adapter.NormalizeWIFIBSSID] *)
Definition NormalizeWIFIBSSID (bssid : string) : string :=
  let bssid := strings_TrimSpace bssid in
  if bool_decide (bssid = "") then ""
  else
    let fallback :=
      if str_len bssid =? 12 then
        match hex_DecodeString bssid with
        | Ok decoded => HardwareAddr_String decoded
        | _ => bssid
        end
      else bssid in
    match ParseMAC bssid with
    | Ok parsed =>
        if Z.of_nat (length parsed) =? 6 then HardwareAddr_String parsed else fallback
    | _ => fallback
    end.
End Wifi.

(** ** Equations of the setters *)

Lemma Reset_fields m :
  DeferredIPCIDRMatchGroups (ResetRuleMatchCache m) = 0 /\
  IgnoreDestinationIPCIDRMatch (ResetRuleMatchCache m) = IgnoreDestinationIPCIDRMatch m /\
  IPCIDRMatchSource (ResetRuleMatchCache m) = IPCIDRMatchSource m /\
  IPCIDRAcceptEmpty (ResetRuleMatchCache m) = IPCIDRAcceptEmpty m.
Proof. done. Qed.

Lemma set_Deferred_same m : set_Deferred m (DeferredIPCIDRMatchGroups m) = m.
Proof. by destruct m as [? ? ? ? ? []]. Qed.

Lemma set_Deferred_twice m d d' : set_Deferred (set_Deferred m d) d' = set_Deferred m d'.
Proof. done. Qed.

Lemma Reset_set_Deferred m d : ResetRuleMatchCache (set_Deferred m d) = ResetRuleMatchCache m.
Proof. done. Qed.

#[export] Hint Rewrite set_Deferred_same set_Deferred_twice Reset_set_Deferred : go.
