(* ===== verification/Demo.v ===== *)
(** * A concrete world

    Instances of the interfaces of external code, small enough to evaluate:
    an IP set is a list of prefixes, a domain matcher compares names and
    suffixes, a regular expression is a literal substring.  The theorems are
    proved for every instance; these only serve the witnesses and the
    concrete executions. *)

From stdpp Require Import base numbers list strings gmap option.
From Stdlib Require Import ZArith Lia.
From S2P Require Import Prelude NetAddr Metadata.

Local Open Scope Z_scope.

Module Demo.

Definition net10 : Prefix := mkPrefix (Addr4 0x0a000000) 8.

(** Dotted quads are not parsed; the literals the examples use are listed. *)
Definition demo_ParsePrefix (s : string) : Res Prefix :=
  if bool_decide (s = "10.0.0.0/8") then Ok net10
  else Err (E_New [AStr "netip.ParsePrefix"; AStr s]).

Definition std : GoStd := {|
  strings_ToLower s := s;
  strings_TrimSpace s := s;
  strings_EqualFold a b := bool_decide (a = b);
  Regexp := string;
  regexp_Compile s := if bool_decide (s = "(") then Err (E_New [AStr "missing )"]) else Ok s;
  MatchString r s := str_contains r s;
  ParsePrefix := demo_ParsePrefix;
  ParseAddr s := Err (E_New [AStr "netip.ParseAddr"; AStr s]);
  Prefix_String p := "prefix";
  ParseMAC s := Err (E_New [AStr "net.ParseMAC"; AStr s]);
  HardwareAddr_String l := "mac";
  hex_DecodeString s := Err (E_New [AStr "hex"; AStr s])
|}.

(** [netip.AddrFromSlice] on four bytes. *)
Definition demo_AddrFromIP (ip : list Z) : Addr :=
  match ip with
  | [a; b; c; d] => Addr4 (a * 2 ^ 24 + b * 2 ^ 16 + c * 2 ^ 8 + d)
  | _ => AddrNone
  end.

Definition demo_suffix (suffix s : string) : bool :=
  String.prefix (str_rev suffix) (str_rev s).

Definition third : ThirdParty := {|
  Socks_IsIP a := Addr_IsValid (Socks_Addr a);
  Socks_IsIPv6 a := match Socks_Addr a with Addr6 _ _ => true | _ => false end;
  AddrFromIP := demo_AddrFromIP;
  IsPublicAddr a := negb (Prefix_Contains net10 a);
  IPSet := list Prefix;
  IPSetBuilder := list Prefix;
  IPSetBuilder_zero := [];
  AddPrefix b p := b ++ [p];
  AddAddr b a := b ++ [mkPrefix a (Addr_BitLen a)];
  IPSetBuilder_IPSet b := Ok b;
  IPSet_Contains s a := existsb (fun p => Prefix_Contains p a) s;
  Matcher := list string * list string;
  NewMatcher domains suffixes _ := (domains, suffixes);
  Matcher_Match mt s :=
    bool_decide (s ∈ mt.1) || existsb (fun suffix => demo_suffix suffix s) mt.2;
  AdGuardMatcher := list string;
  NewAdGuardMatcher l := l;
  AdGuard_Match l s := bool_decide (s ∈ l);
  dns_CanonicalName s := s;
  dns_IsDuplicate a b := bool_decide (a = b);
  RR_String _ := "rr";
  RcodeToString _ := "rcode";
  TypeToString _ := None;
  Prefixable := Prefix;
  Prefixable_Build p d := default d p;
  F_ToString _ := "number"
|}.

(** A connection without anything known about it, to one destination. *)
Definition metadata (dest : Socksaddr) : InboundContext :=
  mkInboundContext
    (mkBase "tun-in" "tun" 4 "udp" (mkSocksaddr (Addr4 0xc0a80002) 40000 "") dest "" "")
    (mkPower "" "")
    (mkSniffer "" "" "" [] None)
    (mkCache "" "" Socksaddr_zero Socksaddr_zero false false 0 false 0 false "" 0 None [] [] 0)
    (mkMatch [] None ∅ false "" "" None None "" 1 Prefix_zero false false false)
    (mkRuleCache false false false false false false 0 false).

(** A query for a domain name. *)
Definition query (domain : string) : InboundContext := metadata (mkSocksaddr AddrNone 53 domain).

(** A response with one A record. *)
Definition response (ip : list Z) : option Msg :=
  Some (mkMsg RcodeSuccess [RR_A "a.example." ip] [] []).

Definition env : RuleEnv :=
  mkRuleEnv None [] [] [] None (mkWIFIState "" "") None
    (fun _ _ _ => false) (fun _ _ _ => false) (fun _ _ => false) true.

End Demo.
