(* ===== verification/RuleItems.v ===== *)
(** * Rule items

    One record per item type of [route/rule/rule_item_*.go], with its
    constructor, its [Match] and its [String] method; [RuleItem] is the sum
    of the types that satisfy the Go interface of that name, and
    [RuleItem_Match] the dynamic dispatch.  [RuleSetItem] contains rules and
    is defined with them (RuleCore). *)

From stdpp Require Import base numbers list strings gmap option.
From Stdlib Require Import ZArith Lia.
From S2P Require Import Prelude NetAddr Metadata.

Local Open Scope Z_scope.

Section Items.
Context {SH : SliceHelpers} {GS : GoStd} {TP : ThirdParty}.

(** The host name an item matches: the sniffed domain, else the FQDN. *)
Definition domainHost (metadata : InboundContext) : string :=
  if bool_decide (Domain metadata = "") then Socks_Fqdn (Destination metadata)
  else Domain metadata.

(** "x=v" for one value, "x=[v w ...]" for any other number. *)
Definition describe (prefix : string) (l : list string) : string :=
  match l with
  | [x] => prefix +:+ x
  | _ => prefix +:+ "[" +:+ str_join l " " +:+ "]"
  end.

(** The same, cut after three values; [more] closes the cut list. *)
Definition describe3 (prefix more : string) (l : list string) : string :=
  match l with
  | [x] => prefix +:+ x
  | _ => if 3 <? Z.of_nat (length l)
         then prefix +:+ "[" +:+ str_join (take 3 l) " " +:+ more
         else prefix +:+ "[" +:+ str_join l " " +:+ "]"
  end.

(** ** Items over a set of strings *)

(** [InboundItem] *)
Record InboundItem := mkInboundItem {
  ii_inbounds : list string;
  ii_inboundMap : gmap string bool
}.
Definition NewInboundRule (inbounds : list string) : InboundItem :=
  mkInboundItem inbounds (set_true inbounds ∅).
Definition InboundItem_Match (r : InboundItem) (metadata : InboundContext) : bool :=
  map_get_bool (ii_inboundMap r) (Inbound metadata).
Definition InboundItem_String (r : InboundItem) : string := describe "inbound=" (ii_inbounds r).

(** [AuthUserItem] *)
Record AuthUserItem := mkAuthUserItem {
  au_users : list string;
  au_userMap : gmap string bool
}.
Definition NewAuthUserItem (users : list string) : AuthUserItem :=
  mkAuthUserItem users (set_true users ∅).
Definition AuthUserItem_Match (r : AuthUserItem) (metadata : InboundContext) : bool :=
  map_get_bool (au_userMap r) (User metadata).
Definition AuthUserItem_String (r : AuthUserItem) : string := describe "auth_user=" (au_users r).

(** [ClientItem] *)
Record ClientItem := mkClientItem {
  cl_clients : list string;
  cl_clientMap : gmap string bool
}.
Definition NewClientItem (clients : list string) : ClientItem :=
  mkClientItem clients (set_true clients ∅).
Definition ClientItem_Match (r : ClientItem) (metadata : InboundContext) : bool :=
  map_get_bool (cl_clientMap r) (Client metadata).
Definition ClientItem_String (r : ClientItem) : string := describe "client=" (cl_clients r).

(** [NetworkItem] *)
Record NetworkItem := mkNetworkItem {
  ne_networks : list string;
  ne_networkMap : gmap string bool
}.
Definition NewNetworkItem (networks : list string) : NetworkItem :=
  mkNetworkItem networks (set_true networks ∅).
Definition NetworkItem_Match (r : NetworkItem) (metadata : InboundContext) : bool :=
  map_get_bool (ne_networkMap r) (Network metadata).
Definition NetworkItem_String (r : NetworkItem) : string := describe "network=" (ne_networks r).

(** [ProtocolItem] *)
Record ProtocolItem := mkProtocolItem {
  pr_protocols : list string;
  pr_protocolMap : gmap string bool
}.
Definition NewProtocolItem (protocols : list string) : ProtocolItem :=
  mkProtocolItem protocols (set_true protocols ∅).
Definition ProtocolItem_Match (r : ProtocolItem) (metadata : InboundContext) : bool :=
  map_get_bool (pr_protocolMap r) (Protocol metadata).
Definition ProtocolItem_String (r : ProtocolItem) : string :=
  describe "protocol=" (pr_protocols r).

(** [OutboundItem]: the name "any" stands for every named outbound. *)
Record OutboundItem := mkOutboundItem {
  ou_outbounds : list string;
  ou_outboundMap : gmap string bool;
  ou_matchAny : bool
}.
Definition NewOutboundRule (outbounds : list string) : OutboundItem :=
  fold_left
    (fun rule outbound =>
       if bool_decide (outbound = "any")
       then mkOutboundItem (ou_outbounds rule) (ou_outboundMap rule) true
       else mkOutboundItem (ou_outbounds rule) (<[outbound := true]> (ou_outboundMap rule))
              (ou_matchAny rule))
    outbounds (mkOutboundItem outbounds ∅ false).
Definition OutboundItem_Match (r : OutboundItem) (metadata : InboundContext) : bool :=
  if ou_matchAny r then negb (bool_decide (Outbound metadata = ""))
  else map_get_bool (ou_outboundMap r) (Outbound metadata).
Definition OutboundItem_String (r : OutboundItem) : string :=
  describe "outbound=" (ou_outbounds r).

(** [SourceHostnameItem] *)
Record SourceHostnameItem := mkSourceHostnameItem {
  sh_hostnames : list string;
  sh_hostnameMap : gmap string bool
}.
Definition NewSourceHostnameItem (hostnameList : list string) : SourceHostnameItem :=
  mkSourceHostnameItem hostnameList (set_true hostnameList ∅).
Definition SourceHostnameItem_Match (r : SourceHostnameItem) (metadata : InboundContext) : bool :=
  if bool_decide (SourceHostname metadata = "") then false
  else map_get_bool (sh_hostnameMap r) (SourceHostname metadata).
Definition SourceHostnameItem_String (r : SourceHostnameItem) : string :=
  describe "source_hostname=" (sh_hostnames r).

(** [SourceMACAddressItem]: addresses are normalised when they parse. *)
Record SourceMACAddressItem := mkSourceMACAddressItem {
  sm_addresses : list string;
  sm_addressMap : gmap string bool
}.
Definition mac_key (address : string) : string :=
  match ParseMAC address with
  | Ok parsed => HardwareAddr_String parsed
  | _ => address
  end.
Definition NewSourceMACAddressItem (addressList : list string) : SourceMACAddressItem :=
  mkSourceMACAddressItem addressList
    (fold_left (fun m address => <[mac_key address := true]> m) addressList ∅).
Definition SourceMACAddressItem_Match (r : SourceMACAddressItem) (metadata : InboundContext)
  : bool :=
  match SourceMACAddress metadata with
  | None => false
  | Some mac => map_get_bool (sm_addressMap r) (HardwareAddr_String mac)
  end.
Definition SourceMACAddressItem_String (r : SourceMACAddressItem) : string :=
  describe "source_mac_address=" (sm_addresses r).

(** ** Process items *)

(** [ProcessItem]: the base name of the process path. *)
Record ProcessItem := mkProcessItem {
  ps_processes : list string;
  ps_processMap : gmap string bool
}.
Definition NewProcessItem (processNameList : list string) : ProcessItem :=
  mkProcessItem processNameList (set_true processNameList ∅).
Definition ProcessItem_Match (r : ProcessItem) (metadata : InboundContext) : bool :=
  match ProcessInfo metadata with
  | None => false
  | Some info =>
      if bool_decide (ProcessPath info = "") then false
      else map_get_bool (ps_processMap r) (filepath_Base (ProcessPath info))
  end.
Definition ProcessItem_String (r : ProcessItem) : string :=
  describe "process_name=" (ps_processes r).

(** [ProcessPathItem]; [IsAndroid] is the build constant [C.IsAndroid]. *)
Record ProcessPathItem := mkProcessPathItem {
  pp_processes : list string;
  pp_processMap : gmap string bool
}.
Definition NewProcessPathItem (processNameList : list string) : ProcessPathItem :=
  mkProcessPathItem processNameList (set_true processNameList ∅).
Definition ProcessPathItem_Match (IsAndroid : bool) (r : ProcessPathItem)
    (metadata : InboundContext) : bool :=
  match ProcessInfo metadata with
  | None => false
  | Some info =>
      if negb (bool_decide (ProcessPath info = "")) &&
         map_get_bool (pp_processMap r) (ProcessPath info) then true
      else if IsAndroid
      then existsb (map_get_bool (pp_processMap r)) (AndroidPackageNames info)
      else false
  end.
Definition ProcessPathItem_String (r : ProcessPathItem) : string :=
  describe "process_path=" (pp_processes r).

(** [PackageNameItem] *)
Record PackageNameItem := mkPackageNameItem {
  pk_packageNames : list string;
  pk_packageMap : gmap string bool
}.
Definition NewPackageNameItem (packageNameList : list string) : PackageNameItem :=
  mkPackageNameItem packageNameList (set_true packageNameList ∅).
Definition PackageNameItem_Match (r : PackageNameItem) (metadata : InboundContext) : bool :=
  match ProcessInfo metadata with
  | None => false
  | Some info =>
      if Z.of_nat (length (AndroidPackageNames info)) =? 0 then false
      else existsb (map_get_bool (pk_packageMap r)) (AndroidPackageNames info)
  end.
Definition PackageNameItem_String (r : PackageNameItem) : string :=
  describe "package_name=" (pk_packageNames r).

(** The loop that compiles the expressions of a regex item. *)
Fixpoint compile_all (i : Z) (expressions : list string) : Res (list Regexp) :=
  match expressions with
  | [] => Ok []
  | regex :: rest =>
      matcher ← wrap_err (regexp_Compile regex) [AStr "parse expression "; AInt i];
      matchers ← compile_all (i + 1) rest;
      Ok (matcher :: matchers)
  end.

(** [PackageNameRegexItem] *)
Record PackageNameRegexItem := mkPackageNameRegexItem {
  pkr_matchers : list Regexp;
  pkr_description : string
}.
Definition NewPackageNameRegexItem (expressions : list string) : Res PackageNameRegexItem :=
  matchers ← compile_all 0 expressions;
  Ok (mkPackageNameRegexItem matchers (describe3 "package_name_regex=" "]" expressions)).
Definition PackageNameRegexItem_Match (r : PackageNameRegexItem) (metadata : InboundContext)
  : bool :=
  match ProcessInfo metadata with
  | None => false
  | Some info =>
      if Z.of_nat (length (AndroidPackageNames info)) =? 0 then false
      else existsb (fun matcher => existsb (MatchString matcher) (AndroidPackageNames info))
             (pkr_matchers r)
  end.
Definition PackageNameRegexItem_String (r : PackageNameRegexItem) : string := pkr_description r.

(** [ProcessPathRegexItem] *)
Record ProcessPathRegexItem := mkProcessPathRegexItem {
  ppr_matchers : list Regexp;
  ppr_description : string
}.
Definition NewProcessPathRegexItem (expressions : list string) : Res ProcessPathRegexItem :=
  matchers ← compile_all 0 expressions;
  Ok (mkProcessPathRegexItem matchers (describe3 "process_path_regex=" "]" expressions)).
Definition ProcessPathRegexItem_Match (r : ProcessPathRegexItem) (metadata : InboundContext)
  : bool :=
  match ProcessInfo metadata with
  | None => false
  | Some info =>
      if bool_decide (ProcessPath info = "") then false
      else existsb (fun matcher => MatchString matcher (ProcessPath info)) (ppr_matchers r)
  end.
Definition ProcessPathRegexItem_String (r : ProcessPathRegexItem) : string := ppr_description r.

(** [UserItem] *)
Record UserItem := mkUserItem {
  us_users : list string;
  us_userMap : gmap string bool
}.
Definition NewUserItem (users : list string) : UserItem :=
  mkUserItem users (set_true users ∅).
Definition UserItem_Match (r : UserItem) (metadata : InboundContext) : bool :=
  match ProcessInfo metadata with
  | None => false
  | Some info =>
      if bool_decide (UserName info = "") then false
      else map_get_bool (us_userMap r) (UserName info)
  end.
Definition UserItem_String (r : UserItem) : string := describe "user=" (us_users r).

(** [UserIdItem] *)
Record UserIdItem := mkUserIdItem {
  ui_userIds : list Z;
  ui_userIdMap : gmap Z bool
}.
Definition NewUserIDItem (userIdList : list Z) : UserIdItem :=
  mkUserIdItem userIdList (set_true userIdList ∅).
Definition UserIdItem_Match (r : UserIdItem) (metadata : InboundContext) : bool :=
  match ProcessInfo metadata with
  | None => false
  | Some info =>
      if UserId info =? -1 then false
      else map_get_bool (ui_userIdMap r) (UserId info)
  end.
Definition UserIdItem_String (r : UserIdItem) : string :=
  describe "user_id=" (map F_ToString (ui_userIds r)).

(** ** Domain items *)

(** [DomainItem] *)
Record DomainItem := mkDomainItem {
  di_matcher : Matcher;
  di_description : string
}.
Definition NewDomainItem (domains domainSuffixes : list string) : Res DomainItem :=
  if bool_decide ("" ∈ domains) then Err (E_New [AStr "domain: empty item is not allowed"])
  else if bool_decide ("" ∈ domainSuffixes)
  then Err (E_New [AStr "domain_suffix: empty item is not allowed"])
  else
    let description :=
      if 0 <? Z.of_nat (length domains) then describe3 "domain=" "...]" domains else "" in
    let description :=
      if 0 <? Z.of_nat (length domainSuffixes) then
        (if 0 <? str_len description then description +:+ " " else description)
          +:+ describe3 "domain_suffix=" "...]" domainSuffixes
      else description in
    Ok (mkDomainItem (NewMatcher domains domainSuffixes false) description).
Definition NewRawDomainItem (matcher : Matcher) : DomainItem :=
  mkDomainItem matcher "domain/domain_suffix=<binary>".
Definition DomainItem_Match (r : DomainItem) (metadata : InboundContext) : bool :=
  if bool_decide (domainHost metadata = "") then false
  else Matcher_Match (di_matcher r) (strings_ToLower (domainHost metadata)).
Definition DomainItem_String (r : DomainItem) : string := di_description r.

(** [DomainKeywordItem] *)
Record DomainKeywordItem := mkDomainKeywordItem { dk_keywords : list string }.
Definition NewDomainKeywordItem (keywords : list string) : DomainKeywordItem :=
  mkDomainKeywordItem keywords.
Definition DomainKeywordItem_Match (r : DomainKeywordItem) (metadata : InboundContext) : bool :=
  if bool_decide (domainHost metadata = "") then false
  else existsb (fun keyword => str_contains keyword (strings_ToLower (domainHost metadata)))
         (dk_keywords r).
Definition DomainKeywordItem_String (r : DomainKeywordItem) : string :=
  describe3 "domain_keyword=" "...]" (dk_keywords r).

(** [DomainRegexItem] *)
Record DomainRegexItem := mkDomainRegexItem {
  dr_matchers : list Regexp;
  dr_description : string
}.
Definition NewDomainRegexItem (expressions : list string) : Res DomainRegexItem :=
  matchers ← compile_all 0 expressions;
  Ok (mkDomainRegexItem matchers (describe3 "domain_regex=" "]" expressions)).
Definition DomainRegexItem_Match (r : DomainRegexItem) (metadata : InboundContext) : bool :=
  if bool_decide (domainHost metadata = "") then false
  else existsb (fun matcher => MatchString matcher (strings_ToLower (domainHost metadata)))
         (dr_matchers r).
Definition DomainRegexItem_String (r : DomainRegexItem) : string := dr_description r.

(** [AdGuardDomainItem] *)
Record AdGuardDomainItem := mkAdGuardDomainItem { ag_matcher : AdGuardMatcher }.
Definition NewAdGuardDomainItem (ruleLines : list string) : AdGuardDomainItem :=
  mkAdGuardDomainItem (NewAdGuardMatcher ruleLines).
Definition NewRawAdGuardDomainItem (matcher : AdGuardMatcher) : AdGuardDomainItem :=
  mkAdGuardDomainItem matcher.
Definition AdGuardDomainItem_Match (r : AdGuardDomainItem) (metadata : InboundContext) : bool :=
  if bool_decide (domainHost metadata = "") then false
  else AdGuard_Match (ag_matcher r) (strings_ToLower (domainHost metadata)).
Definition AdGuardDomainItem_String (r : AdGuardDomainItem) : string :=
  "!adguard_domain_rules=<binary>".

(** ** Address items *)

(** [IPCIDRItem] *)
Record IPCIDRItem := mkIPCIDRItem {
  ic_ipSet : IPSet;
  ic_isSource : bool;
  ic_description : string
}.
Fixpoint add_prefixes (i : Z) (builder : IPSetBuilder) (prefixStrings : list string)
  : Res IPSetBuilder :=
  match prefixStrings with
  | [] => Ok builder
  | prefixString :: rest =>
      match ParsePrefix prefixString with
      | Ok prefix => add_prefixes (i + 1) (AddPrefix builder prefix) rest
      | Panic s => Panic s
      | Err err =>
          match ParseAddr prefixString with
          | Ok addr => add_prefixes (i + 1) (AddAddr builder addr) rest
          | Panic s => Panic s
          | Err _ => Err (E_Cause err [AStr "parse ["; AInt i; AStr "]"])
          end
      end
  end.
Definition cidr_prefix (isSource : bool) : string :=
  if isSource then "source_ip_cidr=" else "ip_cidr=".
Definition NewIPCIDRItem (isSource : bool) (prefixStrings : list string) : Res IPCIDRItem :=
  builder ← add_prefixes 0 IPSetBuilder_zero prefixStrings;
  ipSet ← IPSetBuilder_IPSet builder;
  Ok (mkIPCIDRItem ipSet isSource (describe3 (cidr_prefix isSource) "...]" prefixStrings)).
Definition NewRawIPCIDRItem (isSource : bool) (ipSet : IPSet) : IPCIDRItem :=
  mkIPCIDRItem ipSet isSource (cidr_prefix isSource +:+ "<binary>").
Definition IPCIDRItem_Match (r : IPCIDRItem) (metadata : InboundContext) : bool :=
  if ic_isSource r || IPCIDRMatchSource metadata
  then IPSet_Contains (ic_ipSet r) (Socks_Addr (Source metadata))
  else if DestinationAddressMatchFromResponse metadata then
    let addresses := DNSResponseAddressesForMatch metadata in
    if Z.of_nat (length addresses) =? 0 then IPCIDRAcceptEmpty metadata
    else existsb (IPSet_Contains (ic_ipSet r)) addresses
  else if Socks_IsIP (Destination metadata)
  then IPSet_Contains (ic_ipSet r) (Socks_Addr (Destination metadata))
  else if 0 <? Z.of_nat (length (DestinationAddresses metadata))
  then Any (DestinationAddresses metadata) (IPSet_Contains (ic_ipSet r))
  else IPCIDRAcceptEmpty metadata.
Definition IPCIDRItem_String (r : IPCIDRItem) : string := ic_description r.

(** [IPIsPrivateItem] *)
Record IPIsPrivateItem := mkIPIsPrivateItem { ip_isSource : bool }.
Definition NewIPIsPrivateItem (isSource : bool) : IPIsPrivateItem := mkIPIsPrivateItem isSource.
Definition IPIsPrivateItem_Match (r : IPIsPrivateItem) (metadata : InboundContext) : bool :=
  if ip_isSource r then negb (IsPublicAddr (Socks_Addr (Source metadata)))
  else if DestinationAddressMatchFromResponse metadata
  then existsb (fun a => negb (IsPublicAddr a)) (DNSResponseAddressesForMatch metadata)
  else if Addr_IsValid (Socks_Addr (Destination metadata))
  then negb (IsPublicAddr (Socks_Addr (Destination metadata)))
  else existsb (fun a => negb (IsPublicAddr a)) (DestinationAddresses metadata).
Definition IPIsPrivateItem_String (r : IPIsPrivateItem) : string :=
  if ip_isSource r then "source_ip_is_private=true" else "ip_is_private=true".

(** [IPAcceptAnyItem] *)
Record IPAcceptAnyItem := mkIPAcceptAnyItem {}.
Definition NewIPAcceptAnyItem : IPAcceptAnyItem := mkIPAcceptAnyItem.
Definition IPAcceptAnyItem_Match (r : IPAcceptAnyItem) (metadata : InboundContext) : bool :=
  if DestinationAddressMatchFromResponse metadata
  then 0 <? Z.of_nat (length (DNSResponseAddressesForMatch metadata))
  else 0 <? Z.of_nat (length (DestinationAddresses metadata)).
Definition IPAcceptAnyItem_String (r : IPAcceptAnyItem) : string := "ip_accept_any=true".

(** [IPVersionItem] *)
Record IPVersionItem := mkIPVersionItem { iv_isIPv6 : bool }.
Definition NewIPVersionItem (isIPv6 : bool) : IPVersionItem := mkIPVersionItem isIPv6.
Definition IPVersionItem_Match (r : IPVersionItem) (metadata : InboundContext) : bool :=
  negb (IPVersion metadata =? 0) && Bool.eqb (IPVersion metadata =? 6) (iv_isIPv6 r) ||
  Socks_IsIP (Destination metadata) &&
    Bool.eqb (Socks_IsIPv6 (Destination metadata)) (iv_isIPv6 r).
Definition IPVersionItem_String (r : IPVersionItem) : string :=
  "ip_version=" +:+ (if iv_isIPv6 r then "6" else "4").

(** ** Port items *)

(** [PortItem] *)
Record PortItem := mkPortItem {
  po_ports : list Z;
  po_portMap : gmap Z bool;
  po_isSource : bool
}.
Definition NewPortItem (isSource : bool) (ports : list Z) : PortItem :=
  mkPortItem ports (set_true ports ∅) isSource.
Definition PortItem_Match (r : PortItem) (metadata : InboundContext) : bool :=
  if po_isSource r then map_get_bool (po_portMap r) (Socks_Port (Source metadata))
  else map_get_bool (po_portMap r) (Socks_Port (Destination metadata)).
Definition PortItem_String (r : PortItem) : string :=
  describe (if po_isSource r then "source_port=" else "port=") (map F_ToString (po_ports r)).

Definition ErrBadPortRange : error := E_New [AStr "bad port range"].

(** [rangeItem] *)
Record rangeItem := mkRangeItem { ri_start : Z; ri_end : Z }.

Definition colon : Ascii.ascii := Ascii.ascii_of_nat 58.

(** One iteration of the loop of [NewPortRangeItem]: "a:b", ":b", "a:". *)
Definition parse_range (portRange : string) : Res rangeItem :=
  let bad := E_Extend ErrBadPortRange [AStr portRange] in
  if negb (str_contains ":" portRange) then Err bad
  else
    let subIndex := str_index_byte colon portRange in
    start ← (if 0 <? subIndex then
               match ParseUint 16 (str_take subIndex portRange) with
               | Err e => Err (E_Cause e [AErr bad])
               | r => r
               end
             else Ok 0);
    end_ ← (if subIndex =? str_len portRange - 1 then Ok 0xFFFF
            else
              match ParseUint 16 (str_drop (subIndex + 1) portRange) with
              | Err e => Err (E_Cause e [AErr bad])
              | r => r
              end);
    Ok (mkRangeItem (u16 start) (u16 end_)).

(** [PortRangeItem] *)
Record PortRangeItem := mkPortRangeItem {
  pg_isSource : bool;
  pg_portRanges : list string;
  pg_portRangeList : list rangeItem
}.
Fixpoint parse_ranges (rangeList : list string) : Res (list rangeItem) :=
  match rangeList with
  | [] => Ok []
  | portRange :: rest =>
      r ← parse_range portRange;
      rs ← parse_ranges rest;
      Ok (r :: rs)
  end.
Definition NewPortRangeItem (isSource : bool) (rangeList : list string) : Res PortRangeItem :=
  portRangeList ← parse_ranges rangeList;
  Ok (mkPortRangeItem isSource rangeList portRangeList).
Definition PortRangeItem_Match (r : PortRangeItem) (metadata : InboundContext) : bool :=
  let port :=
    if pg_isSource r then Socks_Port (Source metadata) else Socks_Port (Destination metadata) in
  existsb (fun portRange => (ri_start portRange <=? port) && (port <=? ri_end portRange))
    (pg_portRangeList r).
Definition PortRangeItem_String (r : PortRangeItem) : string :=
  describe (if pg_isSource r then "source_port_range=" else "port_range=") (pg_portRanges r).

(** ** DNS query items *)

(** [QueryTypeItem] *)
Record QueryTypeItem := mkQueryTypeItem {
  qt_typeList : list Z;
  qt_typeMap : gmap Z bool
}.
Definition NewQueryTypeItem (typeList : list Z) : QueryTypeItem :=
  let typeList := Map typeList (fun it => u16 it) in
  mkQueryTypeItem typeList (set_true typeList ∅).
Definition QueryTypeItem_Match (r : QueryTypeItem) (metadata : InboundContext) : bool :=
  if QueryType metadata =? 0 then false
  else map_get_bool (qt_typeMap r) (QueryType metadata).
Definition DNSQueryTypeToString (queryType : Z) : string :=
  match TypeToString queryType with
  | Some typeName => typeName
  | None => F_ToString queryType
  end.
Definition QueryTypeItem_String (r : QueryTypeItem) : string :=
  describe "query_type=" (map DNSQueryTypeToString (qt_typeList r)).

(** [QueryClientSubnetItem] *)
Record QueryClientSubnetItem := mkQueryClientSubnetItem { qc_prefixes : list Prefix }.
Definition NewQueryClientSubnetItem (prefixables : list (option Prefixable))
  : QueryClientSubnetItem :=
  mkQueryClientSubnetItem (Map prefixables (fun it => Prefixable_Build it Prefix_zero)).
Definition QueryClientSubnetItem_Match (r : QueryClientSubnetItem) (metadata : InboundContext)
  : bool :=
  let clientSubnet := QueryClientSubnet metadata in
  if negb (Prefix_IsValid clientSubnet) then false
  else existsb (fun prefix => (Prefix_Bits prefix <=? Prefix_Bits clientSubnet) &&
                              Prefix_Contains prefix (Prefix_Addr clientSubnet))
         (qc_prefixes r).
Definition QueryClientSubnetItem_String (r : QueryClientSubnetItem) : string :=
  describe "query_client_subnet=" (map Prefix_String (qc_prefixes r)).

(** [QueryDNSSECItem] *)
Record QueryDNSSECItem := mkQueryDNSSECItem {}.
Definition NewQueryDNSSECItem : QueryDNSSECItem := mkQueryDNSSECItem.
Definition QueryDNSSECItem_Match (r : QueryDNSSECItem) (metadata : InboundContext) : bool :=
  QueryDNSSEC metadata.
Definition QueryDNSSECItem_String (r : QueryDNSSECItem) : string := "query_dnssec=true".

(** ** DNS response items *)

(** [DNSResponseRCodeItem] *)
Record DNSResponseRCodeItem := mkDNSResponseRCodeItem { rc_rcode : Z }.
Definition NewDNSResponseRCodeItem (rcode : Z) : DNSResponseRCodeItem :=
  mkDNSResponseRCodeItem rcode.
Definition DNSResponseRCodeItem_Match (r : DNSResponseRCodeItem) (metadata : InboundContext)
  : bool :=
  match DNSResponse metadata with
  | None => false
  | Some response => Msg_Rcode response =? rc_rcode r
  end.
Definition DNSResponseRCodeItem_String (r : DNSResponseRCodeItem) : string :=
  "response_rcode=" +:+ RcodeToString (rc_rcode r).

(** [option.DNSRecordOptions] and its [Match] *)
Record DNSRecordOptions := mkDNSRecordOptions {
  ro_RR : option RR;
  ro_fromBase64 : bool
}.
Definition DNSRecordOptions_Match (o : DNSRecordOptions) (record : option RR) : bool :=
  match ro_RR o, record with
  | Some rr, Some record => dns_IsDuplicate rr record
  | _, _ => false
  end.

(** [DNSResponseRecordItem] *)
Record DNSResponseRecordItem := mkDNSResponseRecordItem {
  rr_field : string;
  rr_records : list DNSRecordOptions;
  rr_selector : Msg -> list RR
}.
Definition NewDNSResponseRecordItem (field : string) (records : list DNSRecordOptions)
    (selector : Msg -> list RR) : DNSResponseRecordItem :=
  mkDNSResponseRecordItem field records selector.
Definition DNSResponseRecordItem_Match (r : DNSResponseRecordItem) (metadata : InboundContext)
  : bool :=
  match DNSResponse metadata with
  | None => false
  | Some response =>
      let records := rr_selector r response in
      existsb (fun expected =>
                 existsb (fun rr => DNSRecordOptions_Match expected (Some rr)) records)
        (rr_records r)
  end.
Definition DNSResponseRecordItem_String (r : DNSResponseRecordItem) : string :=
  rr_field r +:+ "=[" +:+
  str_join (flat_map (fun record => match ro_RR record with
                                    | Some rr => [RR_String rr]
                                    | None => []
                                    end) (rr_records r)) " " +:+ "]".
Definition dnsResponseAnswers (message : Msg) : list RR := Msg_Answer message.
Definition dnsResponseNS (message : Msg) : list RR := Msg_Ns message.
Definition dnsResponseExtra (message : Msg) : list RR := Msg_Extra message.

(** ** Network state items

    The managers an item holds a pointer to are the [RuleEnv] of the match. *)

(** [ClashModeItem]: no match until [Start] found a Clash server. *)
Record ClashModeItem := mkClashModeItem { cm_mode : string }.
Definition NewClashModeItem (mode : string) : ClashModeItem := mkClashModeItem mode.
Definition ClashModeItem_Match (env : RuleEnv) (r : ClashModeItem) (metadata : InboundContext)
  : bool :=
  match ClashMode env with
  | None => false
  | Some mode => strings_EqualFold mode (cm_mode r)
  end.
Definition ClashModeItem_String (r : ClashModeItem) : string := "clash_mode=" +:+ cm_mode r.

(** [C.InterfaceType.String] *)
Definition InterfaceType_String (t : Z) : string :=
  if t =? 0 then "wifi" else if t =? 1 then "cellular"
  else if t =? 2 then "ethernet" else if t =? 3 then "other" else F_ToString t.

(** [NetworkTypeItem] *)
Record NetworkTypeItem := mkNetworkTypeItem { nt_networkType : list Z }.
Definition NewNetworkTypeItem (networkType : list Z) : NetworkTypeItem :=
  mkNetworkTypeItem networkType.
Definition NetworkTypeItem_Match (env : RuleEnv) (r : NetworkTypeItem)
    (metadata : InboundContext) : bool :=
  match DefaultNetworkInterface env with
  | None => false
  | Some networkInterface => Contains (nt_networkType r) (ni_Type networkInterface)
  end.
Definition NetworkTypeItem_String (r : NetworkTypeItem) : string :=
  describe "network_type=" (map InterfaceType_String (nt_networkType r)).

(** [NetworkIsExpensiveItem] *)
Record NetworkIsExpensiveItem := mkNetworkIsExpensiveItem {}.
Definition NewNetworkIsExpensiveItem : NetworkIsExpensiveItem := mkNetworkIsExpensiveItem.
Definition NetworkIsExpensiveItem_Match (env : RuleEnv) (r : NetworkIsExpensiveItem)
    (metadata : InboundContext) : bool :=
  match DefaultNetworkInterface env with
  | None => false
  | Some networkInterface => ni_Expensive networkInterface
  end.
Definition NetworkIsExpensiveItem_String (r : NetworkIsExpensiveItem) : string :=
  "network_is_expensive=true".

(** [NetworkIsConstrainedItem] *)
Record NetworkIsConstrainedItem := mkNetworkIsConstrainedItem {}.
Definition NewNetworkIsConstrainedItem : NetworkIsConstrainedItem := mkNetworkIsConstrainedItem.
Definition NetworkIsConstrainedItem_Match (env : RuleEnv) (r : NetworkIsConstrainedItem)
    (metadata : InboundContext) : bool :=
  match DefaultNetworkInterface env with
  | None => false
  | Some networkInterface => ni_Constrained networkInterface
  end.
Definition NetworkIsConstrainedItem_String (r : NetworkIsConstrainedItem) : string :=
  "network_is_expensive=true".

(** [WIFISSIDItem] *)
Record WIFISSIDItem := mkWIFISSIDItem {
  ws_ssidList : list string;
  ws_ssidMap : gmap string bool
}.
Definition NewWIFISSIDItem (ssidList : list string) : WIFISSIDItem :=
  mkWIFISSIDItem ssidList (set_true ssidList ∅).
Definition WIFISSIDItem_Match (env : RuleEnv) (r : WIFISSIDItem) (metadata : InboundContext)
  : bool :=
  map_get_bool (ws_ssidMap r) (SSID (env_WIFIState env)).
Definition WIFISSIDItem_String (r : WIFISSIDItem) : string :=
  describe "wifi_ssid=" (ws_ssidList r).

(** [WIFIBSSIDItem]: configured addresses are normalised. *)
Record WIFIBSSIDItem := mkWIFIBSSIDItem {
  wb_bssidList : list string;
  wb_bssidMap : gmap string bool
}.
Definition NewWIFIBSSIDItem (bssidList : list string) : WIFIBSSIDItem :=
  mkWIFIBSSIDItem bssidList
    (fold_left (fun m bssid => <[NormalizeWIFIBSSID bssid := true]> m) bssidList ∅).
Definition WIFIBSSIDItem_Match (env : RuleEnv) (r : WIFIBSSIDItem) (metadata : InboundContext)
  : bool :=
  map_get_bool (wb_bssidMap r) (BSSID (env_WIFIState env)).
Definition WIFIBSSIDItem_String (r : WIFIBSSIDItem) : string :=
  describe "wifi_bssid=" (wb_bssidList r).

Definition build_prefixes (l : list (option Prefixable)) : list Prefix :=
  map (fun prefixable => Prefixable_Build prefixable Prefix_zero) l.

(** [DefaultInterfaceAddressItem] *)
Record DefaultInterfaceAddressItem := mkDefaultInterfaceAddressItem {
  da_interfaceAddresses : list Prefix
}.
Definition NewDefaultInterfaceAddressItem (interfaceAddresses : list (option Prefixable))
  : DefaultInterfaceAddressItem :=
  mkDefaultInterfaceAddressItem (build_prefixes interfaceAddresses).
Definition DefaultInterfaceAddressItem_Match (env : RuleEnv) (r : DefaultInterfaceAddressItem)
    (metadata : InboundContext) : bool :=
  match DefaultInterface env with
  | None => false
  | Some defaultInterface =>
      forallb (fun address =>
                 negb (All (ni_Addresses defaultInterface)
                         (fun it => negb (Prefix_Overlaps address it))))
        (da_interfaceAddresses r)
  end.
Definition DefaultInterfaceAddressItem_String (r : DefaultInterfaceAddressItem) : string :=
  describe3 "default_interface_address=" "...]" (map Prefix_String (da_interfaceAddresses r)).

(** [InterfaceAddressItem]; the range over the map is a conjunction, so its
    order does not matter. *)
Record InterfaceAddressItem := mkInterfaceAddressItem {
  ia_interfaceAddresses : gmap string (list Prefix);
  ia_description : string
}.
Definition entry_description (key : string) (prefixes : list Prefix) : string :=
  key +:+ "=" +:+ str_join (map Prefix_String prefixes) ",".
Definition NewInterfaceAddressItem
    (interfaceAddresses : list (string * list (option Prefixable))) : InterfaceAddressItem :=
  mkInterfaceAddressItem
    (fold_left (fun m e => <[e.1 := build_prefixes e.2]> m) interfaceAddresses ∅)
    ("interface_address=[" +:+
     str_join (map (fun e => entry_description e.1 (build_prefixes e.2)) interfaceAddresses) " "
     +:+ "]").
Definition Interface_zero : NetworkInterface := mkNetworkInterface "" [] 0 false false.
Definition InterfaceAddressItem_Match (env : RuleEnv) (r : InterfaceAddressItem)
    (metadata : InboundContext) : bool :=
  forallb
    (fun '(ifName, addresses) =>
       let iface := Find Interface_zero (FinderInterfaces env)
                      (fun it => bool_decide (ni_Name it = ifName)) in
       if bool_decide (ni_Name iface = "") then false
       else negb (All addresses (fun address =>
                    All (ni_Addresses iface) (fun it => negb (Prefix_Overlaps address it)))))
    (map_to_list (ia_interfaceAddresses r)).
Definition InterfaceAddressItem_String (r : InterfaceAddressItem) : string := ia_description r.

(** [NetworkInterfaceAddressItem] *)
Record NetworkInterfaceAddressItem := mkNetworkInterfaceAddressItem {
  na_interfaceAddresses : gmap Z (list Prefix);
  na_description : string
}.
Definition NewNetworkInterfaceAddressItem
    (interfaceAddresses : list (Z * list (option Prefixable))) : NetworkInterfaceAddressItem :=
  mkNetworkInterfaceAddressItem
    (fold_left (fun m e => <[e.1 := build_prefixes e.2]> m) interfaceAddresses ∅)
    ("network_interface_address=[" +:+
     str_join (map (fun e => entry_description (InterfaceType_String e.1) (build_prefixes e.2))
                 interfaceAddresses) " "
     +:+ "]").
Definition NetworkInterfaceAddressItem_Match (env : RuleEnv) (r : NetworkInterfaceAddressItem)
    (metadata : InboundContext) : bool :=
  forallb
    (fun '(ifType, addresses) =>
       existsb
         (fun networkInterface =>
            negb (Contains (MyInterfaces env) (ni_Name networkInterface)) &&
            (ni_Type networkInterface =? ifType) &&
            Any (ni_Addresses networkInterface) (fun it =>
              Any addresses (fun prefix => Prefix_Overlaps prefix it)))
         (NetworkInterfaces env))
    (map_to_list (na_interfaceAddresses r)).
Definition NetworkInterfaceAddressItem_String (r : NetworkInterfaceAddressItem) : string :=
  na_description r.

(** ** Preferred outbounds and DNS servers *)

(** [PreferredByItem]; an outbound is named by its tag. *)
Record PreferredByItem := mkPreferredByItem {
  pb_outboundTags : list string;
  pb_outbounds : list string
}.
Definition NewPreferredByItem (outboundTags : list string) : PreferredByItem :=
  mkPreferredByItem outboundTags [].
Definition PreferredByItem_Match (env : RuleEnv) (r : PreferredByItem)
    (metadata : InboundContext) : bool :=
  let host := domainHost metadata in
  if negb (bool_decide (host = "")) &&
     existsb (fun outbound => OutboundPreferredDomain env outbound (PreMatch metadata) host)
       (pb_outbounds r)
  then true
  else if Socks_IsIP (Destination metadata) &&
     existsb (fun outbound =>
                OutboundPreferredAddress env outbound (PreMatch metadata)
                  (Socks_Addr (Destination metadata))) (pb_outbounds r)
  then true
  else
    existsb (fun address =>
               existsb (fun outbound => OutboundPreferredAddress env outbound (PreMatch metadata) address)
                 (pb_outbounds r))
      (DestinationAddresses metadata).
Definition PreferredByItem_String (r : PreferredByItem) : string :=
  describe "preferred_by=" (pb_outboundTags r).

(** The lookup of [Start]: [outbound] resolves a tag to the type of the
    outbound and whether it has preferred routes. *)
Fixpoint start_outbounds (outbound : string -> option (string * bool)) (tags : list string)
  : Res (list string) :=
  match tags with
  | [] => Ok []
  | tag :: rest =>
      match outbound tag with
      | None => Err (E_New [AStr "outbound not found: "; AStr tag])
      | Some (type, false) =>
          Err (E_New [AStr "outbound type does not support preferred routes: "; AStr type])
      | Some (_, true) => found ← start_outbounds outbound rest; Ok (tag :: found)
      end
  end.
Definition PreferredByItem_Start (outbound : string -> option (string * bool))
    (r : PreferredByItem) : Res PreferredByItem :=
  found ← start_outbounds outbound (pb_outboundTags r);
  Ok (mkPreferredByItem (pb_outboundTags r) (pb_outbounds r ++ found)).

(** [PreferredByDNSItem] *)
Record PreferredByDNSItem := mkPreferredByDNSItem {
  pd_transportTags : list string;
  pd_transports : list string
}.
Definition NewPreferredByDNSItem (transportTags : list string) : PreferredByDNSItem :=
  mkPreferredByDNSItem transportTags [].
Fixpoint start_transports (transport : string -> option (string * bool)) (tags : list string)
  : Res (list string) :=
  match tags with
  | [] => Ok []
  | tag :: rest =>
      match transport tag with
      | None => Err (E_New [AStr "DNS server not found: "; AStr tag])
      | Some (type, false) =>
          Err (E_New [AStr "DNS server type does not support preferred_by: "; AStr type])
      | Some (_, true) => found ← start_transports transport rest; Ok (tag :: found)
      end
  end.
Definition PreferredByDNSItem_Start (transport : string -> option (string * bool))
    (r : PreferredByDNSItem) : Res PreferredByDNSItem :=
  found ← start_transports transport (pd_transportTags r);
  Ok (mkPreferredByDNSItem (pd_transportTags r) (pd_transports r ++ found)).
Definition PreferredByDNSItem_Match (env : RuleEnv) (r : PreferredByDNSItem)
    (metadata : InboundContext) : bool :=
  if bool_decide (domainHost metadata = "") then false
  else
    let canonical := dns_CanonicalName (domainHost metadata) in
    existsb (fun transport => TransportPreferredDomain env transport canonical)
      (pd_transports r).
Definition PreferredByDNSItem_String (r : PreferredByDNSItem) : string :=
  describe "preferred_by=" (pd_transportTags r).

(** ** The interface [RuleItem] *)

Inductive RuleItem :=
  | I_Inbound (r : InboundItem)
  | I_AuthUser (r : AuthUserItem)
  | I_Client (r : ClientItem)
  | I_Network (r : NetworkItem)
  | I_Protocol (r : ProtocolItem)
  | I_Outbound (r : OutboundItem)
  | I_SourceHostname (r : SourceHostnameItem)
  | I_SourceMACAddress (r : SourceMACAddressItem)
  | I_Process (r : ProcessItem)
  | I_ProcessPath (r : ProcessPathItem)
  | I_PackageName (r : PackageNameItem)
  | I_PackageNameRegex (r : PackageNameRegexItem)
  | I_ProcessPathRegex (r : ProcessPathRegexItem)
  | I_User (r : UserItem)
  | I_UserId (r : UserIdItem)
  | I_Domain (r : DomainItem)
  | I_DomainKeyword (r : DomainKeywordItem)
  | I_DomainRegex (r : DomainRegexItem)
  | I_AdGuardDomain (r : AdGuardDomainItem)
  | I_IPCIDR (r : IPCIDRItem)
  | I_IPIsPrivate (r : IPIsPrivateItem)
  | I_IPAcceptAny (r : IPAcceptAnyItem)
  | I_IPVersion (r : IPVersionItem)
  | I_Port (r : PortItem)
  | I_PortRange (r : PortRangeItem)
  | I_QueryType (r : QueryTypeItem)
  | I_QueryClientSubnet (r : QueryClientSubnetItem)
  | I_QueryDNSSEC (r : QueryDNSSECItem)
  | I_DNSResponseRCode (r : DNSResponseRCodeItem)
  | I_DNSResponseRecord (r : DNSResponseRecordItem)
  | I_ClashMode (r : ClashModeItem)
  | I_NetworkType (r : NetworkTypeItem)
  | I_NetworkIsExpensive (r : NetworkIsExpensiveItem)
  | I_NetworkIsConstrained (r : NetworkIsConstrainedItem)
  | I_WIFISSID (r : WIFISSIDItem)
  | I_WIFIBSSID (r : WIFIBSSIDItem)
  | I_DefaultInterfaceAddress (r : DefaultInterfaceAddressItem)
  | I_InterfaceAddress (r : InterfaceAddressItem)
  | I_NetworkInterfaceAddress (r : NetworkInterfaceAddressItem)
  | I_PreferredBy (r : PreferredByItem)
  | I_PreferredByDNS (r : PreferredByDNSItem).

(** [RuleItem.Match], dispatched on the dynamic type. *)
Definition RuleItem_Match (env : RuleEnv) (it : RuleItem) (metadata : InboundContext) : bool :=
  match it with
  | I_Inbound r => InboundItem_Match r metadata
  | I_AuthUser r => AuthUserItem_Match r metadata
  | I_Client r => ClientItem_Match r metadata
  | I_Network r => NetworkItem_Match r metadata
  | I_Protocol r => ProtocolItem_Match r metadata
  | I_Outbound r => OutboundItem_Match r metadata
  | I_SourceHostname r => SourceHostnameItem_Match r metadata
  | I_SourceMACAddress r => SourceMACAddressItem_Match r metadata
  | I_Process r => ProcessItem_Match r metadata
  | I_ProcessPath r => ProcessPathItem_Match (C_IsAndroid env) r metadata
  | I_PackageName r => PackageNameItem_Match r metadata
  | I_PackageNameRegex r => PackageNameRegexItem_Match r metadata
  | I_ProcessPathRegex r => ProcessPathRegexItem_Match r metadata
  | I_User r => UserItem_Match r metadata
  | I_UserId r => UserIdItem_Match r metadata
  | I_Domain r => DomainItem_Match r metadata
  | I_DomainKeyword r => DomainKeywordItem_Match r metadata
  | I_DomainRegex r => DomainRegexItem_Match r metadata
  | I_AdGuardDomain r => AdGuardDomainItem_Match r metadata
  | I_IPCIDR r => IPCIDRItem_Match r metadata
  | I_IPIsPrivate r => IPIsPrivateItem_Match r metadata
  | I_IPAcceptAny r => IPAcceptAnyItem_Match r metadata
  | I_IPVersion r => IPVersionItem_Match r metadata
  | I_Port r => PortItem_Match r metadata
  | I_PortRange r => PortRangeItem_Match r metadata
  | I_QueryType r => QueryTypeItem_Match r metadata
  | I_QueryClientSubnet r => QueryClientSubnetItem_Match r metadata
  | I_QueryDNSSEC r => QueryDNSSECItem_Match r metadata
  | I_DNSResponseRCode r => DNSResponseRCodeItem_Match r metadata
  | I_DNSResponseRecord r => DNSResponseRecordItem_Match r metadata
  | I_ClashMode r => ClashModeItem_Match env r metadata
  | I_NetworkType r => NetworkTypeItem_Match env r metadata
  | I_NetworkIsExpensive r => NetworkIsExpensiveItem_Match env r metadata
  | I_NetworkIsConstrained r => NetworkIsConstrainedItem_Match env r metadata
  | I_WIFISSID r => WIFISSIDItem_Match env r metadata
  | I_WIFIBSSID r => WIFIBSSIDItem_Match env r metadata
  | I_DefaultInterfaceAddress r => DefaultInterfaceAddressItem_Match env r metadata
  | I_InterfaceAddress r => InterfaceAddressItem_Match env r metadata
  | I_NetworkInterfaceAddress r => NetworkInterfaceAddressItem_Match env r metadata
  | I_PreferredBy r => PreferredByItem_Match env r metadata
  | I_PreferredByDNS r => PreferredByDNSItem_Match env r metadata
  end.

(** [RuleItem.String] *)
Definition RuleItem_String (it : RuleItem) : string :=
  match it with
  | I_Inbound r => InboundItem_String r
  | I_AuthUser r => AuthUserItem_String r
  | I_Client r => ClientItem_String r
  | I_Network r => NetworkItem_String r
  | I_Protocol r => ProtocolItem_String r
  | I_Outbound r => OutboundItem_String r
  | I_SourceHostname r => SourceHostnameItem_String r
  | I_SourceMACAddress r => SourceMACAddressItem_String r
  | I_Process r => ProcessItem_String r
  | I_ProcessPath r => ProcessPathItem_String r
  | I_PackageName r => PackageNameItem_String r
  | I_PackageNameRegex r => PackageNameRegexItem_String r
  | I_ProcessPathRegex r => ProcessPathRegexItem_String r
  | I_User r => UserItem_String r
  | I_UserId r => UserIdItem_String r
  | I_Domain r => DomainItem_String r
  | I_DomainKeyword r => DomainKeywordItem_String r
  | I_DomainRegex r => DomainRegexItem_String r
  | I_AdGuardDomain r => AdGuardDomainItem_String r
  | I_IPCIDR r => IPCIDRItem_String r
  | I_IPIsPrivate r => IPIsPrivateItem_String r
  | I_IPAcceptAny r => IPAcceptAnyItem_String r
  | I_IPVersion r => IPVersionItem_String r
  | I_Port r => PortItem_String r
  | I_PortRange r => PortRangeItem_String r
  | I_QueryType r => QueryTypeItem_String r
  | I_QueryClientSubnet r => QueryClientSubnetItem_String r
  | I_QueryDNSSEC r => QueryDNSSECItem_String r
  | I_DNSResponseRCode r => DNSResponseRCodeItem_String r
  | I_DNSResponseRecord r => DNSResponseRecordItem_String r
  | I_ClashMode r => ClashModeItem_String r
  | I_NetworkType r => NetworkTypeItem_String r
  | I_NetworkIsExpensive r => NetworkIsExpensiveItem_String r
  | I_NetworkIsConstrained r => NetworkIsConstrainedItem_String r
  | I_WIFISSID r => WIFISSIDItem_String r
  | I_WIFIBSSID r => WIFIBSSIDItem_String r
  | I_DefaultInterfaceAddress r => DefaultInterfaceAddressItem_String r
  | I_InterfaceAddress r => InterfaceAddressItem_String r
  | I_NetworkInterfaceAddress r => NetworkInterfaceAddressItem_String r
  | I_PreferredBy r => PreferredByItem_String r
  | I_PreferredByDNS r => PreferredByDNSItem_String r
  end.

(** ** What an item reads *)

(** Items that look at the DNS response, or take the destination address
    from it. *)
Definition reads_response (it : RuleItem) : bool :=
  match it with
  | I_IPCIDR r => negb (ic_isSource r)
  | I_IPIsPrivate r => negb (ip_isSource r)
  | I_IPAcceptAny _ | I_DNSResponseRCode _ | I_DNSResponseRecord _ => true
  | _ => false
  end.

(** The part of the metadata that neither a response nor rule matching
    changes. *)
Definition connection (m : InboundContext) :=
  (ic_base m, ic_sniffer m, DestinationAddresses m, ProcessInfo m, SourceMACAddress m,
   SourceHostname m, (QueryType m, QueryClientSubnet m, QueryDNSSEC m, PreMatch m)).

(** The response and where the destination address is taken from. *)
Definition response_view (m : InboundContext) :=
  (DNSResponse m, DestinationAddressMatchFromResponse m).

(** The CIDR mode set by the enclosing rule-set item. *)
Definition cidr_mode (m : InboundContext) := (IPCIDRMatchSource m, IPCIDRAcceptEmpty m).

(** No item reads the match flags or the deferral state. *)
Lemma item_frame env it m m' :
  connection m = connection m' -> response_view m = response_view m' ->
  cidr_mode m = cidr_mode m' ->
  RuleItem_Match env it m = RuleItem_Match env it m'.
Proof.
  intros Hc Hr Hm. destruct m as [? ? ? ? [] []], m' as [? ? ? ? [] []].
  unfold connection, response_view, cidr_mode in *; simpl in *; simplify_eq.
  by destruct it.
Qed.

(** An item that does not read the response does not read the CIDR mode
    either. *)
Lemma item_response_free env it m m' :
  reads_response it = false -> connection m = connection m' ->
  RuleItem_Match env it m = RuleItem_Match env it m'.
Proof.
  intros Hf Hc. destruct m as [? ? ? ? [] []], m' as [? ? ? ? [] []].
  unfold connection in *; simpl in *; simplify_eq.
  destruct it; simpl in *; try done.
  - unfold IPCIDRItem_Match. by destruct (ic_isSource r).
  - unfold IPIsPrivateItem_Match. by destruct (ip_isSource r).
Qed.

(** A CIDR item in source mode reads the source address only. *)
Lemma cidr_source_mode r m m' :
  IPCIDRMatchSource m = true -> IPCIDRMatchSource m' = true ->
  connection m = connection m' -> IPCIDRItem_Match r m = IPCIDRItem_Match r m'.
Proof.
  unfold IPCIDRItem_Match, connection. intros -> -> [=]. rewrite orb_true_r. congruence.
Qed.

End Items.
