(* ===== verification/RuleAction.v ===== *)
(** * Rule actions

    [route/rule/rule_action.go]: the action types, their construction from
    options, the flood control of [reject], the sniffer table of [sniff] and
    the responses of [predefined]; [common/tlsspoof/spoof.go] for the spoofing
    options and the reject options of [option/rule_action.go].  Dialers are
    built elsewhere and stay abstract. *)

From stdpp Require Import base numbers list strings gmap option.
From Stdlib Require Import ZArith Lia Sorting.
From S2P Require Import Prelude NetAddr Metadata RuleItems.

Local Open Scope Z_scope.

(** ** TLS spoofing options *)

(** [tlsspoof.ParseMethod]; methods are numbered as in the source. *)
Definition ParseMethod (s : string) : Res Z :=
  if bool_decide (s = "") || bool_decide (s = "wrong-sequence") then Ok 0
  else if bool_decide (s = "wrong-checksum") then Ok 1
  else if bool_decide (s = "wrong-ack") then Ok 2
  else if bool_decide (s = "wrong-md5") then Ok 3
  else if bool_decide (s = "wrong-timestamp") then Ok 4
  else Err (E_New [AStr "tls_spoof: unknown method: "; AStr s]).

(** [tlsspoof.ParseOptions] *)
Definition ParseOptions (PlatformSupported : bool) (spoof method : string) : Res (string * Z) :=
  if bool_decide (spoof = "") then
    if negb (bool_decide (method = "")) then Err (E_New [AStr "spoof_method requires spoof"])
    else Ok ("", 0)
  else if negb PlatformSupported
  then Err (E_New [AStr "tls_spoof is not supported on this platform"])
  else parsedMethod ← ParseMethod method; Ok (spoof, parsedMethod).

(** ** Reject options *)

(** [option.RejectActionOptions] *)
Record RejectActionOptions := mkRejectOptions { ro_Method : string; ro_NoDrop : bool }.

(** The checks of [RejectActionOptions.UnmarshalJSON]. *)
Definition RejectActionOptions_check (r : RejectActionOptions) : Res RejectActionOptions :=
  r ← (if bool_decide (ro_Method r = "") || bool_decide (ro_Method r = "default")
       then Ok (mkRejectOptions "default" (ro_NoDrop r))
       else if bool_decide (ro_Method r = "drop") || bool_decide (ro_Method r = "reply")
       then Ok r
       else Err (E_New [AStr ("unknown reject method: " +:+ ro_Method r)]));
  if bool_decide (ro_Method r = "drop") && ro_NoDrop r
  then Err (E_New [AStr "no_drop is not available in current context"])
  else Ok r.

(** ** Sniffers *)

Inductive StreamSniffer :=
  | TLSClientHello | HTTPHost | StreamDomainNameQuery | BitTorrent | SSH | RDP.
Inductive PacketSniffer :=
  | QUICClientHello | DomainNameQuery | STUNMessage | UTP | UDPTracker | DTLSRecord | NTP.

(** [RuleActionSniff] *)
Record RuleActionSniff := mkSniff {
  SnifferNames : list string;
  StreamSniffers : list StreamSniffer;
  PacketSniffers : list PacketSniffer;
  sniff_Timeout : Z;
  OverrideDestination : bool
}.

Definition add_sniffers (r : RuleActionSniff) (ss : list StreamSniffer) (ps : list PacketSniffer)
  : RuleActionSniff :=
  mkSniff (SnifferNames r) (StreamSniffers r ++ ss) (PacketSniffers r ++ ps)
    (sniff_Timeout r) (OverrideDestination r).

(** The [switch name] of [build]: what one name appends. *)
Definition sniffers_of (name : string) : option (list StreamSniffer * list PacketSniffer) :=
  if bool_decide (name = "tls") then Some ([TLSClientHello], [])
  else if bool_decide (name = "http") then Some ([HTTPHost], [])
  else if bool_decide (name = "quic") then Some ([], [QUICClientHello])
  else if bool_decide (name = "dns") then Some ([StreamDomainNameQuery], [DomainNameQuery])
  else if bool_decide (name = "stun") then Some ([], [STUNMessage])
  else if bool_decide (name = "bittorrent") then Some ([BitTorrent], [UTP; UDPTracker])
  else if bool_decide (name = "dtls") then Some ([], [DTLSRecord])
  else if bool_decide (name = "ssh") then Some ([SSH], [])
  else if bool_decide (name = "rdp") then Some ([RDP], [])
  else if bool_decide (name = "ntp") then Some ([], [NTP])
  else None.

Fixpoint build_names (names : list string) (r : RuleActionSniff) : Res RuleActionSniff :=
  match names with
  | [] => Ok r
  | name :: rest =>
      match sniffers_of name with
      | None => Err (E_New [AStr "unknown sniffer: "; AStr name])
      | Some (ss, ps) => build_names rest (add_sniffers r ss ps)
      end
  end.

(** [(r *RuleActionSniff) build] *)
Definition RuleActionSniff_build (r : RuleActionSniff) : Res RuleActionSniff :=
  build_names (SnifferNames r) r.

(** ** Reject *)

(** [RejectedError] with its cause. *)
Inductive RejectError := ErrReset | ErrDrop.

(** [RuleActionReject]; times are nanoseconds of a monotonic clock. *)
Record RuleActionReject := mkReject {
  rj_Method : string;
  rj_NoDrop : bool;
  dropCounter : list Z
}.

Definition flood_window : Z := 30 * 10 ^ 9.
Definition flood_limit : Z := 50.

(** [(r *RuleActionReject) Error], called at [timeNow]: the error returned
    (none for "reply") and the action afterwards. *)
Definition RuleActionReject_Error (SH : SliceHelpers) (r : RuleActionReject) (timeNow : Z)
  : Res (option RejectError) * RuleActionReject :=
  if bool_decide (rj_Method r = "default") then
    if rj_NoDrop r then (Ok (Some ErrReset), r)
    else
      let dropCounter := Filter (dropCounter r) (fun t => timeNow - t <=? flood_window) in
      let dropCounter := dropCounter ++ [timeNow] in
      let r := mkReject (rj_Method r) (rj_NoDrop r) dropCounter in
      if flood_limit <? Z.of_nat (length dropCounter) then (Ok (Some ErrDrop), r)
      else (Ok (Some ErrReset), r)
  else if bool_decide (rj_Method r = "drop") then (Ok (Some ErrDrop), r)
  else if bool_decide (rj_Method r = "reply") then (Ok None, r)
  else (Panic ("unknown reject method: " +:+ rj_Method r), r).

(** ** Predefined responses *)

(** [dns.Question] and [dns.MsgHdr], as far as they are written. *)
Record Question := mkQuestion { q_Name : string; q_Qtype : Z; q_Qclass : Z }.
Record MsgHdr := mkMsgHdr {
  hdr_Id : Z;
  hdr_Response : bool;
  hdr_Authoritative : bool;
  hdr_RecursionDesired : bool;
  hdr_RecursionAvailable : bool;
  hdr_Rcode : Z
}.
Record DNSMessage := mkDNSMessage {
  dm_hdr : MsgHdr;
  dm_Question : list Question;
  dm_Answer : list RR;
  dm_Ns : list RR;
  dm_Extra : list RR
}.

(** [Header().Name] and an assignment to it on a copy *)
Definition RR_Name (rr : RR) : string :=
  match rr with
  | RR_A n _ | RR_AAAA n _ | RR_HTTPS n _ | RR_Other n _ _ => n
  end.
Definition RR_set_Name (rr : RR) (n : string) : RR :=
  match rr with
  | RR_A _ ip => RR_A n ip
  | RR_AAAA _ ip => RR_AAAA n ip
  | RR_HTTPS _ v => RR_HTTPS n v
  | RR_Other _ t d => RR_Other n t d
  end.

Definition HasSuffix (s suffix : string) : bool := String.prefix (str_rev suffix) (str_rev s).

(** [rewriteRecords]: a wildcard record takes the name of the question. *)
Definition rewriteRecord (question : Question) (it : RR) : RR :=
  if String.prefix "*" (RR_Name it) then
    if HasSuffix (q_Name question) (str_drop 1 (RR_Name it))
    then RR_set_Name it (q_Name question) else it
  else it.
Definition rewriteRecords (SH : SliceHelpers) (records : list RR) (question : Question) : list RR :=
  Map records (rewriteRecord question).

(** [RuleActionPredefined] *)
Record RuleActionPredefined := mkPredefined {
  pre_Rcode : Z;
  pre_Answer : list RR;
  pre_Ns : list RR;
  pre_Extra : list RR
}.

(** [(r *RuleActionPredefined) Response]; it indexes the first question. *)
Definition RuleActionPredefined_Response (SH : SliceHelpers) (r : RuleActionPredefined)
    (request : DNSMessage) : Res DNSMessage :=
  match dm_Question request with
  | [] => Panic "index out of range [0] with length 0"
  | question :: _ =>
      Ok (mkDNSMessage
            (mkMsgHdr (hdr_Id (dm_hdr request)) true true true true (pre_Rcode r))
            (dm_Question request)
            (rewriteRecords SH (pre_Answer r) question)
            (rewriteRecords SH (pre_Ns r) question)
            (rewriteRecords SH (pre_Extra r) question))
  end.

(** ** Action options and actions *)

Section Actions.
Context {SH : SliceHelpers} {GS : GoStd} {TP : ThirdParty}.

(** [M.ParseSocksaddrHostPort] of sing, and [common/dialer]: the options of a
    dialer, the dialer, its constructor and the description of its options. *)
Class DialerFactory := {
  ParseSocksaddrHostPort : string -> Z -> Socksaddr;
  DialerOptions : Type;
  DialerOptions_zero : DialerOptions;
  (** [reflect.DeepEqual] with the zero value *)
  DialerOptions_IsZero : DialerOptions -> bool;
  Dialer : Type;
  dialer_New : DialerOptions -> Res Dialer;
  DirectActionOptions_Descriptions : DialerOptions -> list string
}.
Context {DF : DialerFactory}.

(** [option.RawRouteOptionsActionOptions]; durations are in nanoseconds. *)
Record RawRouteOptions := mkRawRouteOptions {
  o_OverrideAddress : string;
  o_OverridePort : Z;
  o_NetworkStrategy : option Z;
  o_FallbackDelay : Z;
  o_UDPDisableDomainUnmapping : bool;
  o_UDPConnect : bool;
  o_UDPTimeout : Z;
  o_TLSFragment : bool;
  o_TLSFragmentFallbackDelay : Z;
  o_TLSRecordFragment : bool;
  o_TLSSpoof : string;
  o_TLSSpoofMethod : string
}.
Definition RawRouteOptions_zero : RawRouteOptions :=
  mkRawRouteOptions "" 0 None 0 false false 0 false 0 false "" "".

(** [RuleActionRouteOptions] *)
Record RuleActionRouteOptions := mkRouteOptions {
  ro_OverrideAddress : Socksaddr;
  ro_OverridePort : Z;
  ro_NetworkStrategy : option Z;
  ro_NetworkType : Slice Z;
  ro_FallbackNetworkType : Slice Z;
  ro_FallbackDelay : Z;
  ro_UDPDisableDomainUnmapping : bool;
  ro_UDPConnect : bool;
  ro_UDPTimeout : Z;
  ro_TLSFragment : bool;
  ro_TLSFragmentFallbackDelay : Z;
  ro_TLSRecordFragment : bool;
  ro_TLSSpoof : string;
  ro_TLSSpoofMethod : Z
}.

(** [newRuleActionRouteOptions] *)
Definition newRuleActionRouteOptions (PlatformSupported : bool) (options : RawRouteOptions)
  : Res RuleActionRouteOptions :=
  '(spoof, spoofMethod) ← ParseOptions PlatformSupported (o_TLSSpoof options)
                            (o_TLSSpoofMethod options);
  Ok (mkRouteOptions (ParseSocksaddrHostPort (o_OverrideAddress options) 0)
        (o_OverridePort options) (o_NetworkStrategy options) None None
        (o_FallbackDelay options) (o_UDPDisableDomainUnmapping options)
        (o_UDPConnect options) (o_UDPTimeout options) (o_TLSFragment options)
        (o_TLSFragmentFallbackDelay options) (o_TLSRecordFragment options) spoof spoofMethod).

(** [option.RouteActionResolve] *)
Record ResolveOptions := mkResolveOptions {
  rs_Server : string;
  rs_Timeout : Z;
  rs_Strategy : Z;
  rs_DisableCache : bool;
  rs_DisableOptimisticCache : bool;
  rs_RewriteTTL : option Z;
  rs_ClientSubnet : option Prefixable
}.

(** [option.RuleAction]: the name and the option structs of every kind. *)
Record RuleActionOptions := mkRuleActionOptions {
  a_Action : string;
  a_RouteOutbound : string;
  a_RouteOptions : RawRouteOptions;
  a_RouteOptionsOptions : RawRouteOptions;
  a_DirectOptions : DialerOptions;
  a_BypassOutbound : string;
  a_BypassOptions : RawRouteOptions;
  a_RejectOptions : RejectActionOptions;
  a_SniffNames : Slice string;
  a_SniffTimeout : Z;
  a_ResolveOptions : ResolveOptions
}.

(** [option.AbstractDNSRouteActionOptions] *)
Record AbstractDNSRouteOptions := mkDNSRouteOptions {
  d_Timeout : Z;
  d_Strategy : Z;
  d_DisableCache : bool;
  d_DisableOptimisticCache : bool;
  d_RewriteTTL : option Z;
  d_ClientSubnet : option Prefixable;
  d_RemoveClientSubnet : bool
}.
Definition AbstractDNSRouteOptions_zero : AbstractDNSRouteOptions :=
  mkDNSRouteOptions 0 0 false false None None false.

(** [option.DNSRuleAction] *)
Record DNSRuleActionOptions := mkDNSRuleActionOptions {
  da_Action : string;
  da_Race : bool;
  da_RouteServer : string;
  da_RouteSpeculative : bool;
  da_RouteFallback : bool;
  da_RouteOptions : AbstractDNSRouteOptions;
  da_EvaluateServer : string;
  da_EvaluateTag : string;
  da_EvaluateSpeculative : bool;
  da_EvaluateOptions : AbstractDNSRouteOptions;
  da_RouteOptionsOptions : AbstractDNSRouteOptions;
  da_RejectOptions : RejectActionOptions;
  da_Rcode : option Z;
  da_Answer : list DNSRecordOptions;
  da_Ns : list DNSRecordOptions;
  da_Extra : list DNSRecordOptions
}.

(** [RuleActionDNSRouteOptions] *)
Record RuleActionDNSRouteOptions := mkActionDNSRouteOptions {
  ad_Strategy : Z;
  ad_Timeout : Z;
  ad_DisableCache : bool;
  ad_DisableOptimisticCache : bool;
  ad_RewriteTTL : option Z;
  ad_ClientSubnet : Prefix;
  ad_RemoveClientSubnet : bool
}.

(** [adapter.RuleAction] and the types that implement it. *)
Inductive RuleAction :=
  | ActionRoute (outbound : string) (o : RuleActionRouteOptions)
  | ActionRouteOptions (o : RuleActionRouteOptions)
  | ActionBypass (outbound : string) (o : RuleActionRouteOptions)
  | ActionDirect (d : Dialer) (description : string)
  | ActionReject (r : RuleActionReject)
  | ActionHijackDNS
  | ActionSniff (r : RuleActionSniff)
  | ActionResolve (server : string) (timeout strategy : Z)
      (disableCache disableOptimisticCache : bool) (rewriteTTL : option Z) (clientSubnet : Prefix)
  | ActionDNSRoute (server : string) (speculative fallback : bool) (o : RuleActionDNSRouteOptions)
  | ActionEvaluate (server tag : string) (speculative : bool) (o : RuleActionDNSRouteOptions)
  | ActionRespond
  | ActionDNSRouteOptions (o : RuleActionDNSRouteOptions)
  | ActionPredefined (r : RuleActionPredefined).

(** [RuleAction.Type] *)
Definition RuleAction_Type (a : RuleAction) : string :=
  match a with
  | ActionRoute _ _ | ActionDNSRoute _ _ _ _ => "route"
  | ActionRouteOptions _ | ActionDNSRouteOptions _ => "route-options"
  | ActionBypass _ _ => "bypass"
  | ActionDirect _ _ => "direct"
  | ActionReject _ => "reject"
  | ActionHijackDNS => "hijack-dns"
  | ActionSniff _ => "sniff"
  | ActionResolve _ _ _ _ _ _ _ => "resolve"
  | ActionEvaluate _ _ _ _ => "evaluate"
  | ActionRespond => "respond"
  | ActionPredefined _ => "predefined"
  end.

(** The description of a direct action. *)
Definition direct_description (descriptions : list string) : string :=
  match descriptions with
  | [] => ""
  | [d] => "(" +:+ d +:+ ")"
  | [d; e] => "(" +:+ d +:+ "," +:+ e +:+ ")"
  | d :: e :: _ => "(" +:+ d +:+ "," +:+ e +:+ ",...)"
  end.

(** [NewRuleAction] *)
Definition NewRuleAction (PlatformSupported : bool) (action : RuleActionOptions)
  : Res (option RuleAction) :=
  let name := a_Action action in
  if bool_decide (name = "") then Ok None
  else if bool_decide (name = "route") then
    routeOptions ← newRuleActionRouteOptions PlatformSupported (a_RouteOptions action);
    Ok (Some (ActionRoute (a_RouteOutbound action) routeOptions))
  else if bool_decide (name = "route-options") then
    routeOptions ← newRuleActionRouteOptions PlatformSupported (a_RouteOptionsOptions action);
    Ok (Some (ActionRouteOptions routeOptions))
  else if bool_decide (name = "bypass") then
    routeOptions ← newRuleActionRouteOptions PlatformSupported (a_BypassOptions action);
    Ok (Some (ActionBypass (a_BypassOutbound action) routeOptions))
  else if bool_decide (name = "direct") then
    directDialer ← dialer_New (a_DirectOptions action);
    Ok (Some (ActionDirect directDialer
               (direct_description (DirectActionOptions_Descriptions (a_DirectOptions action)))))
  else if bool_decide (name = "reject") then
    Ok (Some (ActionReject (mkReject (ro_Method (a_RejectOptions action))
                              (ro_NoDrop (a_RejectOptions action)) [])))
  else if bool_decide (name = "hijack-dns") then Ok (Some ActionHijackDNS)
  else if bool_decide (name = "sniff") then
    sniffAction ← RuleActionSniff_build
                    (mkSniff (elems (a_SniffNames action)) [] [] (a_SniffTimeout action) false);
    Ok (Some (ActionSniff sniffAction))
  else if bool_decide (name = "resolve") then
    let o := a_ResolveOptions action in
    Ok (Some (ActionResolve (rs_Server o) (rs_Timeout o) (rs_Strategy o) (rs_DisableCache o)
               (rs_DisableOptimisticCache o) (rs_RewriteTTL o)
               (Prefixable_Build (rs_ClientSubnet o) Prefix_zero)))
  else Panic ("unknown rule action: " +:+ name).

(** [RuleActionDNSRouteOptions{...}] from its options *)
Definition dns_route_options (o : AbstractDNSRouteOptions) : RuleActionDNSRouteOptions :=
  mkActionDNSRouteOptions (d_Strategy o) (d_Timeout o) (d_DisableCache o)
    (d_DisableOptimisticCache o) (d_RewriteTTL o)
    (Prefixable_Build (d_ClientSubnet o) Prefix_zero) (d_RemoveClientSubnet o).

(** [DNSRecordOptions.Build]: the embedded record, which decoding guarantees
    to be there. *)
Definition DNSRecordOptions_Build (o : DNSRecordOptions) : list RR :=
  match ro_RR o with Some rr => [rr] | None => [] end.

(** [NewDNSRuleAction] *)
Definition NewDNSRuleAction (action : DNSRuleActionOptions) : Res (option RuleAction) :=
  let name := da_Action action in
  if bool_decide (name = "") then Ok None
  else if bool_decide (name = "route") then
    Ok (Some (ActionDNSRoute (da_RouteServer action) (da_RouteSpeculative action)
               (da_RouteFallback action) (dns_route_options (da_RouteOptions action))))
  else if bool_decide (name = "evaluate") then
    Ok (Some (ActionEvaluate (da_EvaluateServer action) (da_EvaluateTag action)
               (da_EvaluateSpeculative action) (dns_route_options (da_EvaluateOptions action))))
  else if bool_decide (name = "respond") then Ok (Some ActionRespond)
  else if bool_decide (name = "route-options") then
    Ok (Some (ActionDNSRouteOptions (dns_route_options (da_RouteOptionsOptions action))))
  else if bool_decide (name = "reject") then
    Ok (Some (ActionReject (mkReject (ro_Method (da_RejectOptions action))
                              (ro_NoDrop (da_RejectOptions action)) [])))
  else if bool_decide (name = "predefined") then
    Ok (Some (ActionPredefined (mkPredefined (default RcodeSuccess (da_Rcode action))
               (flat_map DNSRecordOptions_Build (da_Answer action))
               (flat_map DNSRecordOptions_Build (da_Ns action))
               (flat_map DNSRecordOptions_Build (da_Extra action)))))
  else Panic ("unknown rule action: " +:+ name).

(** [validateDNSRuleAction] *)
Definition validateDNSRuleAction (action : DNSRuleActionOptions) : Res unit :=
  let name := da_Action action in
  if bool_decide (name = "reject") &&
     bool_decide (ro_Method (da_RejectOptions action) = "reply")
  then Err (E_New [AStr "reject method `reply` is not supported for DNS rules"])
  else
    let routeOptions :=
      if bool_decide (name = "") || bool_decide (name = "route") then da_RouteOptions action
      else if bool_decide (name = "evaluate") then da_EvaluateOptions action
      else if bool_decide (name = "route-options") then da_RouteOptionsOptions action
      else AbstractDNSRouteOptions_zero in
    if d_RemoveClientSubnet routeOptions && negb (is_nil (d_ClientSubnet routeOptions))
    then Err (E_New [AStr "`client_subnet` and `remove_client_subnet` are mutually exclusive"])
    else if da_Race action then
      if negb (bool_decide (name ∈ [""; "route"; "respond"; "reject"; "predefined"]))
      then Err (E_New [AStr "`race` requires a final action"])
      else if da_RouteSpeculative action
      then Err (E_New [AStr "`race` and `speculative` cannot be combined on the same rule"])
      else Ok tt
    else Ok tt.
End Actions.

(** ** Flood control of [reject] *)

Section Reject.
Context (SH : SliceHelpers).

(** The action after calls at the given times, in order. *)
Fixpoint reject_calls (r : RuleActionReject) (ts : list Z) : RuleActionReject :=
  match ts with
  | [] => r
  | t :: rest => reject_calls (snd (RuleActionReject_Error SH r t)) rest
  end.

Lemma reject_calls_app r ts ts' :
  reject_calls r (ts ++ ts') = reject_calls (reject_calls r ts) ts'.
Proof. revert r; induction ts as [|t ts IH]; intros r; simpl; [done|]. apply IH. Qed.

(** Triggers that still count at time [now]. *)
Definition recent (now : Z) (ts : list Z) : list Z :=
  List.filter (fun t => now - t <=? flood_window) ts.

Lemma recent_app now ts ts' : recent now (ts ++ ts') = recent now ts ++ recent now ts'.
Proof. apply List.filter_app. Qed.

Lemma recent_recent t now ts : t <= now -> recent now (recent t ts) = recent now ts.
Proof.
  intros Hle. induction ts as [|x ts IH]; [done|]. simpl.
  destruct (Z.leb_spec (t - x) flood_window); simpl.
  - destruct (now - x <=? flood_window); [by rewrite IH|done].
  - destruct (Z.leb_spec (now - x) flood_window); [lia|done].
Qed.

Lemma reject_step r t :
  rj_Method r = "default" -> rj_NoDrop r = false ->
  RuleActionReject_Error SH r t =
  (Ok (Some (if flood_limit <? Z.of_nat (length (recent t (dropCounter r) ++ [t]))
             then ErrDrop else ErrReset)),
   mkReject "default" false (recent t (dropCounter r) ++ [t])).
Proof.
  intros Hm Hn. unfold RuleActionReject_Error. rewrite Hm, Hn. autorewrite with slices. simpl.
  fold (recent t (dropCounter r)). by destruct (flood_limit <? _).
Qed.

(** Outdated triggers are dropped from the counter without effect. *)
Lemma reject_counter ts r now :
  rj_Method r = "default" -> rj_NoDrop r = false -> dropCounter r = [] ->
  Forall (fun t => t <= now) ts ->
  let r' := reject_calls r ts in
  rj_Method r' = "default" /\ rj_NoDrop r' = false /\
  recent now (dropCounter r') = recent now ts.
Proof.
  intros Hm Hn Hc. induction ts as [|t ts IH] using rev_ind; intros Hts.
  - simpl. by rewrite Hc.
  - apply Forall_app in Hts as [Hts Ht]. apply List.Forall_inv in Ht. specialize (IH Hts).
    cbv zeta in *. destruct IH as (IHm & IHn & IHr). rewrite reject_calls_app. simpl.
    rewrite reject_step by done. simpl. repeat split. rewrite recent_app, recent_recent by done.
    by rewrite IHr, recent_app.
Qed.

(** Flood control.  A [reject] action with the default method answers with
    a reset as long as at most 50 triggers fall into the last 30 seconds, the
    present one included, and with a drop otherwise, whatever the earlier
    triggers were. *)
Theorem reject_flood_control ts now noDrop :
  Forall (fun t => t <= now) ts ->
  fst (RuleActionReject_Error SH (reject_calls (mkReject "default" noDrop []) ts) now) =
  Ok (Some (if negb noDrop && (50 <? Z.of_nat (length (recent now (ts ++ [now]))))
            then ErrDrop else ErrReset)).
Proof.
  intros Hts. destruct noDrop; simpl.
  - assert (Hr : reject_calls (mkReject "default" true []) ts = mkReject "default" true []).
    { clear Hts. induction ts as [|t ts IH]; [done|]. exact IH. }
    by rewrite Hr.
  - destruct (reject_counter ts (mkReject "default" false []) now) as (Hm & Hn & Hr); try done.
    rewrite reject_step by done. rewrite Hr, recent_app. simpl. rewrite Z.sub_diag. done.
Qed.
End Reject.

Lemma reject_flood_control_witness :
  Forall (fun t => t <= 10) (repeat 10 50) /\
  fst (RuleActionReject_Error list_helpers
         (reject_calls list_helpers (mkReject "default" false []) (repeat 10 50)) 10)
  = Ok (Some ErrDrop).
Proof.
  split; [repeat constructor; lia|].
  rewrite (reject_flood_control list_helpers (repeat 10 50) 10 false).
  - reflexivity.
  - repeat constructor; lia.
Defined.

(** ** Predefined responses *)

(** A predefined record reaches the client with its data unchanged, and
    with its own name unless that is a wildcard covering the question, in
    which case it carries the name of the question. *)
Theorem predefined_rewrite (SH : SliceHelpers) records question i rr :
  records !! i = Some rr ->
  exists rr', rewriteRecords SH records question !! i = Some rr' /\
    rr' = RR_set_Name rr (RR_Name rr') /\
    RR_Name rr' = (if String.prefix "*" (RR_Name rr) &&
                      HasSuffix (q_Name question) (str_drop 1 (RR_Name rr))
                   then q_Name question else RR_Name rr).
Proof.
  intros Hi. unfold rewriteRecords. autorewrite with slices.
  exists (rewriteRecord question rr). split.
  - change (map ?f ?l) with (f <$> l). by rewrite list_lookup_fmap, Hi.
  - unfold rewriteRecord. destruct (String.prefix "*" (RR_Name rr)); simpl.
    + destruct (HasSuffix _ _); by destruct rr.
    + by destruct rr.
Qed.

Lemma predefined_rewrite_witness :
  exists rr', rewriteRecords list_helpers [RR_A "*.lan." [10; 0; 0; 1]]
                (mkQuestion "nas.lan." 1 1) !! 0%nat = Some rr' /\
    rr' = RR_set_Name (RR_A "*.lan." [10; 0; 0; 1]) (RR_Name rr') /\ RR_Name rr' = "nas.lan.".
Proof.
  destruct (predefined_rewrite list_helpers [RR_A "*.lan." [10; 0; 0; 1]]
              (mkQuestion "nas.lan." 1 1) 0%nat _ eq_refl) as (rr' & H1 & H2 & H3).
  exists rr'. split; [exact H1|]. split; [exact H2|]. rewrite H3. vm_compute. reflexivity.
Defined.
