(* ===== verification/RuleCore.v ===== *)
(** * The rule engine

    [route/rule/match_state.go], [rule_abstract.go], [rule_item_rule_set.go]
    and the matching part of [rule_dns.go] and [rule_set.go].

    Matching is state passing: a Go method that takes a pointer to the
    metadata returns here its result and the metadata after the call.  A
    nested call on a copy ([nestedMetadata := *metadata]) passes a fresh
    value and reads back only the field the code reads back.  The match
    groups are the bits of an 8-bit word, as in the source. *)

From stdpp Require Import base numbers list strings gmap option.
From Stdlib Require Import ZArith Lia.
From S2P Require Import Prelude NetAddr Metadata RuleItems.

Local Open Scope Z_scope.
Local Open Scope go_scope.
Local Set Warnings "-register-all".

(** ** Match groups *)

(** [ruleMatchState]: an 8-bit mask. *)
Definition ruleMatchSourceAddress : Z := 1.
Definition ruleMatchSourcePort : Z := 2.
Definition ruleMatchDestinationAddress : Z := 4.
Definition ruleMatchDestinationPort : Z := 8.

(** [(s ruleMatchState) has(target)] *)
Definition has (s target : Z) : bool := negb (Z.land s target =? 0).

(** [ruleGroupMatch] *)
Record ruleGroupMatch := mkGroups { required : Z; satisfied : Z }.

Definition groups_zero : ruleGroupMatch := mkGroups 0 0.

(** [done]: every required group is satisfied. *)
Definition done (g : ruleGroupMatch) : bool := required g &^ satisfied g =? 0.

(** [mergeWith] *)
Definition mergeWith (g other : ruleGroupMatch) : ruleGroupMatch :=
  mkGroups (Z.lor (required g) (required other)) (Z.lor (satisfied g) (satisfied other)).

(** ** Data *)

Section Engine.
Context {SH : SliceHelpers} {GS : GoStd} {TP : ThirdParty}.

(** [adapter.RuleAction]: an interface the engine only carries around. *)
Context {Action : Type}.

(** An entry of [allItems]: an item of one of the groups, or the pointer
    that [ruleSetItem] also holds. *)
Inductive AnyItem :=
  | AItem (it : RuleItem)
  | ARuleSet.

(** [adapter.RuleSetMetadata] *)
Record RuleSetMetadata := mkRuleSetMetadata {
  ContainsProcessRule : bool;
  ContainsWIFIRule : bool;
  ContainsIPCIDRRule : bool;
  ContainsDNSQueryTypeRule : bool;
  ContainsNonIPCIDRRule : bool
}.

(** [adapter.RuleSet] as [LocalRuleSet] and [RemoteRuleSet] hold it: the
    rules and their metadata. *)
Record RuleSet (R : Type) := mkRuleSet {
  rs_tag : string;
  rs_rules : list R;
  rs_metadata : RuleSetMetadata
}.

(** [RuleSetItem] *)
Record RuleSetItem (R : Type) := mkRuleSetItem {
  tagList : list string;
  setList : list (RuleSet R);
  ipCidrMatchSource : bool;
  ipCidrAcceptEmpty : bool
}.

(** [abstractDefaultRule] *)
Record abstractDefaultRule (R : Type) := mkDefault {
  items : list RuleItem;
  sourceAddressItems : list RuleItem;
  sourcePortItems : list RuleItem;
  destinationAddressItems : list RuleItem;
  destinationIPCIDRItems : list RuleItem;
  destinationPortItems : list RuleItem;
  allItems : list AnyItem;
  ruleSetItem : option (RuleSetItem R);
  invert : bool;
  action : option Action
}.

(** [abstractLogicalRule] *)
Record abstractLogicalRule (R : Type) := mkLogical {
  l_rules : list R;
  l_mode : string;
  l_invert : bool;
  l_action : option Action
}.

Arguments mkRuleSet {R}.
Arguments rs_tag {R}.
Arguments rs_rules {R}.
Arguments rs_metadata {R}.
Arguments mkRuleSetItem {R}.
Arguments tagList {R}.
Arguments setList {R}.
Arguments ipCidrMatchSource {R}.
Arguments ipCidrAcceptEmpty {R}.
Arguments mkDefault {R}.
Arguments items {R}.
Arguments sourceAddressItems {R}.
Arguments sourcePortItems {R}.
Arguments destinationAddressItems {R}.
Arguments destinationIPCIDRItems {R}.
Arguments destinationPortItems {R}.
Arguments allItems {R}.
Arguments ruleSetItem {R}.
Arguments invert {R}.
Arguments action {R}.
Arguments mkLogical {R}.
Arguments l_rules {R}.
Arguments l_mode {R}.
Arguments l_invert {R}.
Arguments l_action {R}.

(** The rule types: [adapter.HeadlessRule] and its implementations. *)
Inductive Rule :=
  | R_Default (r : abstractDefaultRule Rule)
  | R_Logical (r : abstractLogicalRule Rule)
  | R_DefaultHeadless (r : abstractDefaultRule Rule)
  | R_LogicalHeadless (r : abstractLogicalRule Rule)
  | R_DefaultDNS (r : abstractDefaultRule Rule) (matchResponse : bool)
      (matchResponseTag : string) (race : bool)
  | R_LogicalDNS (r : abstractLogicalRule Rule) (matchResponseTags : list string)
      (matchResponseAnonymous race : bool).

(** ** Matching *)

Context (env : RuleEnv).

(** The outcome of a method that may write to its metadata argument. *)
Definition Outcome : Type := bool * InboundContext.

Definition matchAnyItem (its : list RuleItem) (metadata : InboundContext) : bool :=
  Any its (fun it => RuleItem_Match env it metadata).

Section Groups.
Context {R : Type}.
Implicit Types r : abstractDefaultRule R.

Definition destinationIPCIDRMatchesSource r (metadata : InboundContext) : bool :=
  IPCIDRMatchSource metadata && (0 <? Z.of_nat (length (destinationIPCIDRItems r))).

Definition destinationIPCIDRMatchesDestination r (metadata : InboundContext) : bool :=
  negb (IgnoreDestinationIPCIDRMatch metadata) && negb (IPCIDRMatchSource metadata) &&
  (0 <? Z.of_nat (length (destinationIPCIDRItems r))).

(** One block of [evaluateGroups]: the group is required; satisfied when an
    item matches. *)
Definition require_group (g : ruleGroupMatch) (bit : Z) (matched : bool) : ruleGroupMatch :=
  mkGroups (Z.lor (required g) bit)
    (if matched then Z.lor (satisfied g) bit else satisfied g).

Definition evaluateGroups r (metadata : InboundContext) : ruleGroupMatch * InboundContext :=
  let groups := groups_zero in
  let groups :=
    if 0 <? Z.of_nat (length (sourceAddressItems r))
    then require_group groups ruleMatchSourceAddress
           (matchAnyItem (sourceAddressItems r) metadata)
    else groups in
  let groups :=
    if destinationIPCIDRMatchesSource r metadata
    then require_group groups ruleMatchSourceAddress
           (negb (has (satisfied groups) ruleMatchSourceAddress) &&
            matchAnyItem (destinationIPCIDRItems r) metadata)
    else groups in
  let groups :=
    if 0 <? Z.of_nat (length (sourcePortItems r))
    then require_group groups ruleMatchSourcePort
           (matchAnyItem (sourcePortItems r) metadata)
    else groups in
  let groups :=
    if 0 <? Z.of_nat (length (destinationAddressItems r))
    then require_group groups ruleMatchDestinationAddress
           (matchAnyItem (destinationAddressItems r) metadata)
    else groups in
  let groups :=
    if destinationIPCIDRMatchesDestination r metadata
    then require_group groups ruleMatchDestinationAddress
           (negb (has (satisfied groups) ruleMatchDestinationAddress) &&
            matchAnyItem (destinationIPCIDRItems r) metadata)
    else groups in
  let groups :=
    if 0 <? Z.of_nat (length (destinationPortItems r))
    then require_group groups ruleMatchDestinationPort
           (matchAnyItem (destinationPortItems r) metadata)
    else groups in
  let metadata :=
    if IgnoreDestinationIPCIDRMatch metadata && negb (IPCIDRMatchSource metadata) &&
       (0 <? Z.of_nat (length (destinationIPCIDRItems r))) &&
       (Z.of_nat (length (destinationAddressItems r)) =? 0)
    then set_Deferred metadata
           (Z.lor (DeferredIPCIDRMatchGroups metadata) ruleMatchDestinationAddress)
    else metadata in
  (groups, metadata).

(** The loop over [items]: all of them must match. *)
Definition matchItems r (metadata : InboundContext) : bool :=
  forallb (fun it => RuleItem_Match env it metadata) (items r).

Definition evaluateForMerge r (metadata : InboundContext)
  : ruleGroupMatch * bool * InboundContext :=
  let '(groups, metadata) := evaluateGroups r metadata in
  if matchItems r metadata then (groups, true, metadata)
  else (groups_zero, false, metadata).

(** [(r *RuleSetItem) nestedMetadata] *)
Definition nestedMetadata (r : RuleSetItem R) (metadata : InboundContext) : InboundContext :=
  set_IPCIDR (ResetRuleMatchCache metadata) (ipCidrMatchSource r) (ipCidrAcceptEmpty r).

(** [(r *RuleSetItem) ContainsDestinationIPCIDRRule] *)
Definition ContainsDestinationIPCIDRRule (r : RuleSetItem R) : bool :=
  if ipCidrMatchSource r then false
  else Any (setList r) (fun ruleSet => ContainsIPCIDRRule (rs_metadata ruleSet)).

End Groups.

(** The recursive knot: rules contain rules, through logical rules and
    through rule-sets.  [RMatch] is the [Match] of the nested rules and
    [asDefaultHeadless] the type assertion to a [DefaultHeadlessRule]. *)
Section Open.
Context {R : Type}.
Context (RMatch : R -> InboundContext -> Outcome).
Context (asDefaultHeadless : R -> option (abstractDefaultRule R)).

(** [mergeableRuleIn] *)
Definition mergeableRuleIn (rules : list R) : option (abstractDefaultRule R) :=
  match rules with
  | [rule0] =>
      match asDefaultHeadless rule0 with
      | None => None
      | Some rule =>
          if invert rule || (match ruleSetItem rule with Some _ => true | None => false end)
          then None else Some rule
      end
  | _ => None
  end.

(** [matchAnyHeadlessRule]: the loop with its accumulators. *)
Fixpoint matchAny_loop (rules : list R) (metadata : InboundContext) (matched : bool)
    (deferredGroups : Z) : Outcome :=
  match rules with
  | [] =>
      (matched,
       if matched then set_Deferred metadata
                         (Z.lor (DeferredIPCIDRMatchGroups metadata) deferredGroups)
       else metadata)
  | rule :: rest =>
      let '(hit, nested) := RMatch rule (ResetRuleMatchCache metadata) in
      if hit then
        if DeferredIPCIDRMatchGroups nested =? 0 then (true, metadata)
        else matchAny_loop rest metadata true
               (Z.lor deferredGroups (DeferredIPCIDRMatchGroups nested))
      else matchAny_loop rest metadata matched deferredGroups
  end.

Definition matchAnyHeadlessRule (rules : list R) (metadata : InboundContext) : Outcome :=
  matchAny_loop rules metadata false 0.

(** [(s *LocalRuleSet) Match] and [(s *RemoteRuleSet) Match] *)
Definition RuleSet_Match (s : RuleSet R) (metadata : InboundContext) : Outcome :=
  matchAnyHeadlessRule (rs_rules s) metadata.

(** [mergeableRule] of both rule-set types *)
Definition mergeableRule (s : RuleSet R) : option (abstractDefaultRule R) :=
  mergeableRuleIn (rs_rules s).

(** [(r *RuleSetItem) Match] *)
Definition RuleSetItem_Match (r : RuleSetItem R) (metadata : InboundContext) : bool :=
  existsb (fun ruleSet => fst (RuleSet_Match ruleSet (nestedMetadata r metadata))) (setList r).

(** [matchWithOuterGroups]: the loop over the sets. *)
Fixpoint outer_loop (r : RuleSetItem R) (outerGroups : ruleGroupMatch) (outerDone : bool)
    (sets : list (RuleSet R)) (metadata : InboundContext) (matched : bool)
    (deferredGroups : Z) : Outcome :=
  match sets with
  | [] =>
      (matched,
       if matched then set_Deferred metadata
                         (Z.lor (DeferredIPCIDRMatchGroups metadata) deferredGroups)
       else metadata)
  | ruleSet :: rest =>
      let nested := nestedMetadata r metadata in
      match mergeableRule ruleSet with
      | Some branch =>
          let '(branchGroups, branchMatched, nested) := evaluateForMerge branch nested in
          let merged := mergeWith outerGroups branchGroups in
          if branchMatched && done merged then
            let branchDeferredGroups :=
              DeferredIPCIDRMatchGroups nested &^ satisfied merged in
            if branchDeferredGroups =? 0 then
              (true, set_Deferred metadata
                       (DeferredIPCIDRMatchGroups metadata &^ satisfied merged))
            else outer_loop r outerGroups outerDone rest metadata true
                   (Z.lor deferredGroups branchDeferredGroups)
          else outer_loop r outerGroups outerDone rest metadata matched deferredGroups
      | None =>
          if outerDone then
            let '(hit, nested) := RuleSet_Match ruleSet nested in
            if hit then
              if DeferredIPCIDRMatchGroups nested =? 0 then (true, metadata)
              else outer_loop r outerGroups outerDone rest metadata true
                     (Z.lor deferredGroups (DeferredIPCIDRMatchGroups nested))
            else outer_loop r outerGroups outerDone rest metadata matched deferredGroups
          else outer_loop r outerGroups outerDone rest metadata matched deferredGroups
      end
  end.

Definition matchWithOuterGroups (r : RuleSetItem R) (metadata : InboundContext)
    (outerGroups : ruleGroupMatch) : Outcome :=
  outer_loop r outerGroups (done outerGroups) (setList r) metadata false 0.

(** [(r *abstractDefaultRule) matchInner] *)
Definition matchInner (r : abstractDefaultRule R) (metadata : InboundContext) : Outcome :=
  let '(groups, metadata) := evaluateGroups r metadata in
  if negb (matchItems r metadata) then (false, metadata)
  else
    let '(matched, metadata) :=
      match ruleSetItem r with
      | Some item => matchWithOuterGroups item metadata groups
      | None => (done groups, metadata)
      end in
    if matched
    then (true, set_Deferred metadata (DeferredIPCIDRMatchGroups metadata &^ satisfied groups))
    else (false, metadata).

(** [(r *abstractDefaultRule) Match] *)
Definition abstractDefaultRule_Match (r : abstractDefaultRule R) (metadata : InboundContext)
  : Outcome :=
  if Z.of_nat (length (allItems r)) =? 0 then (true, metadata)
  else
    let '(matched, metadata) := matchInner r metadata in
    if invert r then
      if negb matched then (true, set_Deferred metadata 0)
      else (negb (DeferredIPCIDRMatchGroups metadata =? 0), metadata)
    else (matched, metadata).

(** [(r *abstractLogicalRule) Match]: the two loops, each giving [matched]
    and [deferredGroups]. *)
Fixpoint and_loop (rules : list R) (metadata : InboundContext) (deferredGroups : Z)
  : bool * Z :=
  match rules with
  | [] => (true, deferredGroups)
  | rule :: rest =>
      let '(hit, nested) := RMatch rule (ResetRuleCache metadata) in
      if negb hit then (false, 0)
      else and_loop rest metadata (Z.lor deferredGroups (DeferredIPCIDRMatchGroups nested))
  end.

Fixpoint or_loop (rules : list R) (metadata : InboundContext) (matched : bool)
    (deferredGroups : Z) : bool * Z :=
  match rules with
  | [] => (matched, deferredGroups)
  | rule :: rest =>
      let '(hit, nested) := RMatch rule (ResetRuleCache metadata) in
      if hit then
        if DeferredIPCIDRMatchGroups nested =? 0 then (true, 0)
        else or_loop rest metadata true
               (Z.lor deferredGroups (DeferredIPCIDRMatchGroups nested))
      else or_loop rest metadata matched deferredGroups
  end.

Definition abstractLogicalRule_Match (r : abstractLogicalRule R) (metadata : InboundContext)
  : Outcome :=
  let '(matched, deferredGroups) :=
    if bool_decide (l_mode r = "and") then and_loop (l_rules r) metadata 0
    else or_loop (l_rules r) metadata false 0 in
  let metadata :=
    if matched then set_Deferred metadata
                      (Z.lor (DeferredIPCIDRMatchGroups metadata) deferredGroups)
    else metadata in
  if l_invert r then (negb matched || negb (deferredGroups =? 0), metadata)
  else (matched, metadata).

(** [(r *DefaultDNSRule) matchForMatch]; the copy is matched when the rule
    looks at a response, so the caller's metadata stays as it was. *)
Definition matchForMatch (r : abstractDefaultRule R) (matchResponse : bool)
    (matchResponseTag : string) (metadata : InboundContext) : Outcome :=
  if matchResponse then
    let response :=
      if bool_decide (matchResponseTag = "") then DNSResponse metadata
      else default None (NamedDNSResponses metadata !! matchResponseTag) in
    match response with
    | None => (invert r, metadata)
    | Some _ =>
        (fst (abstractDefaultRule_Match r (set_Response metadata response true)), metadata)
    end
  else abstractDefaultRule_Match r metadata.

End Open.

(** Type assertion [rule.( *DefaultHeadlessRule )]. *)
Definition asDefaultHeadless (rule : Rule) : option (abstractDefaultRule Rule) :=
  match rule with
  | R_DefaultHeadless r => Some r
  | _ => None
  end.

(** [HeadlessRule.Match], dispatched on the dynamic type. *)
Fixpoint Rule_Match (rule : Rule) (metadata : InboundContext) {struct rule} : Outcome :=
  match rule with
  | R_Default r | R_DefaultHeadless r =>
      abstractDefaultRule_Match Rule_Match asDefaultHeadless r metadata
  | R_Logical r | R_LogicalHeadless r | R_LogicalDNS r _ _ _ =>
      abstractLogicalRule_Match Rule_Match r metadata
  | R_DefaultDNS r matchResponse matchResponseTag _ =>
      matchForMatch Rule_Match asDefaultHeadless r matchResponse matchResponseTag metadata
  end.

(** ** DNS rules *)

(** [WithAddressLimit] of both DNS rule types; other rules are not
    [adapter.DNSRule]s. *)
Definition DefaultDNSRule_WithAddressLimit (r : abstractDefaultRule Rule) : bool :=
  if 0 <? Z.of_nat (length (destinationIPCIDRItems r)) then true
  else match ruleSetItem r with
       | None => false
       | Some item => ContainsDestinationIPCIDRRule item
       end.

Fixpoint WithAddressLimit (rule : Rule) : bool :=
  match rule with
  | R_DefaultDNS r _ _ _ => DefaultDNSRule_WithAddressLimit r
  | R_LogicalDNS r _ _ _ => existsb WithAddressLimit (l_rules r)
  | _ => false
  end.

(** [(r *DefaultDNSRule) LegacyPreMatch]: match before a response is known.
    The deferred call restores the flag on return. *)
Definition DefaultDNSRule_LegacyPreMatch (r : abstractDefaultRule Rule) (matchResponse : bool)
    (metadata : InboundContext) : Outcome :=
  if matchResponse then (false, metadata)
  else
    let '(result, metadata) :=
      abstractDefaultRule_Match Rule_Match asDefaultHeadless r (set_Ignore metadata true) in
    (result, set_Ignore metadata false).

(** [(r *LogicalDNSRule) LegacyPreMatch] *)
Definition LogicalDNSRule_LegacyPreMatch (r : abstractLogicalRule Rule)
    (metadata : InboundContext) : Outcome :=
  let '(result, metadata) := abstractLogicalRule_Match Rule_Match r (set_Ignore metadata true) in
  (result, set_Ignore metadata false).

(** [MatchAddressLimit] of both types: a full match of a copy of the metadata
    whose destination addresses come from the response. *)
Definition address_limit_metadata (metadata : InboundContext) (response : option Msg)
  : InboundContext :=
  set_Response (ResetRuleCache metadata) response true.

Definition DefaultDNSRule_MatchAddressLimit (r : abstractDefaultRule Rule)
    (metadata : InboundContext) (response : option Msg) : bool :=
  fst (abstractDefaultRule_Match Rule_Match asDefaultHeadless r
         (address_limit_metadata metadata response)).

Definition LogicalDNSRule_MatchAddressLimit (r : abstractLogicalRule Rule)
    (metadata : InboundContext) (response : option Msg) : bool :=
  fst (abstractLogicalRule_Match Rule_Match r (address_limit_metadata metadata response)).

(** The methods of the interface [adapter.DNSRule]; [None] for a rule that
    does not implement it. *)
Definition LegacyPreMatch (rule : Rule) (metadata : InboundContext) : option Outcome :=
  match rule with
  | R_DefaultDNS r matchResponse _ _ =>
      Some (DefaultDNSRule_LegacyPreMatch r matchResponse metadata)
  | R_LogicalDNS r _ _ _ => Some (LogicalDNSRule_LegacyPreMatch r metadata)
  | _ => None
  end.

Definition MatchAddressLimit (rule : Rule) (metadata : InboundContext) (response : option Msg)
  : option bool :=
  match rule with
  | R_DefaultDNS r _ _ _ => Some (DefaultDNSRule_MatchAddressLimit r metadata response)
  | R_LogicalDNS r _ _ _ => Some (LogicalDNSRule_MatchAddressLimit r metadata response)
  | _ => None
  end.

(** [MatchResponseTags], [MatchResponseAnonymous] and [Race] *)
Definition MatchResponseTags (rule : Rule) : list string :=
  match rule with
  | R_DefaultDNS _ _ tag _ => if bool_decide (tag = "") then [] else [tag]
  | R_LogicalDNS _ tags _ _ => tags
  | _ => []
  end.

Definition MatchResponseAnonymous (rule : Rule) : bool :=
  match rule with
  | R_DefaultDNS _ matchResponse tag _ => matchResponse && bool_decide (tag = "")
  | R_LogicalDNS _ _ anonymous _ => anonymous
  | _ => false
  end.

Definition Race (rule : Rule) : bool :=
  match rule with
  | R_DefaultDNS _ _ _ race | R_LogicalDNS _ _ _ race => race
  | _ => false
  end.

Definition isDNSRule (rule : Rule) : bool :=
  match rule with R_DefaultDNS _ _ _ _ | R_LogicalDNS _ _ _ _ => true | _ => false end.

(** ** Rule-sets *)

(** The IP sets of a default headless rule. *)
Definition item_ipsets (it : RuleItem) : list IPSet :=
  match it with
  | I_IPCIDR r => [ic_ipSet r]
  | _ => []
  end.

(** [extractIPSetFromRule] *)
Fixpoint extractIPSetFromRule (rule : Rule) : Res (list IPSet) :=
  match rule with
  | R_DefaultHeadless r => Ok (FlatMap (destinationIPCIDRItems r) item_ipsets)
  | R_LogicalHeadless r =>
      (fix go (rules : list Rule) : Res (list IPSet) :=
         match rules with
         | [] => Ok []
         | sub :: rest =>
             sets ← extractIPSetFromRule sub;
             others ← go rest;
             Ok (sets ++ others)
         end) (l_rules r)
  | _ => Panic "unexpected rule type"
  end.

(** ** Induction on rules *)

Definition default_children (r : abstractDefaultRule Rule) : list Rule :=
  match ruleSetItem r with
  | None => []
  | Some item => flat_map rs_rules (setList item)
  end.

Definition children (rule : Rule) : list Rule :=
  match rule with
  | R_Default r | R_DefaultHeadless r | R_DefaultDNS r _ _ _ => default_children r
  | R_Logical r | R_LogicalHeadless r | R_LogicalDNS r _ _ _ => l_rules r
  end.

Lemma Rule_nested_ind (P : Rule -> Prop) :
  (forall rule, Forall P (children rule) -> P rule) -> forall rule, P rule.
Proof.
  intros H. fix IH 1. intros rule. apply H.
  destruct rule as [r|r|r|r|r ? ? ?|r ? ? ?]; simpl; destruct r; unfold default_children; simpl.
  1,3,5: destruct ruleSetItem0 as [[tags sets ms ae]|]; simpl; [|constructor];
    induction sets as [|[tag rules md] sets IHs]; simpl; [constructor|];
    apply Forall_app; split; [|exact IHs];
    induction rules as [|rule rules IHr]; constructor; [apply IH|exact IHr].
  all: induction l_rules0 as [|rule rules IHr]; constructor; [apply IH|exact IHr].
Qed.

End Engine.

Arguments RuleSet : clear implicits.
Arguments RuleSetItem : clear implicits.
Arguments mkRuleSet {R}.
Arguments rs_tag {R}.
Arguments rs_rules {R}.
Arguments rs_metadata {R}.
Arguments mkRuleSetItem {R}.
Arguments tagList {R}.
Arguments setList {R}.
Arguments ipCidrMatchSource {R}.
Arguments ipCidrAcceptEmpty {R}.
Arguments abstractDefaultRule {GS TP} Action R.
Arguments mkDefault {GS TP Action R}.
Arguments items {GS TP Action R}.
Arguments sourceAddressItems {GS TP Action R}.
Arguments sourcePortItems {GS TP Action R}.
Arguments destinationAddressItems {GS TP Action R}.
Arguments destinationIPCIDRItems {GS TP Action R}.
Arguments destinationPortItems {GS TP Action R}.
Arguments allItems {GS TP Action R}.
Arguments ruleSetItem {GS TP Action R}.
Arguments invert {GS TP Action R}.
Arguments action {GS TP Action R}.
Arguments abstractLogicalRule Action R : clear implicits.
Arguments mkLogical {Action R}.
Arguments l_rules {Action R}.
Arguments l_mode {Action R}.
Arguments l_invert {Action R}.
Arguments l_action {Action R}.
Arguments Rule {GS TP} Action.
