(* ===== verification/RuleSpec.v ===== *)
(** * The documented matching logic and its refinement

    docs/configuration/route/rule.md and dns/rule.md describe a default rule
    as four groups of fields, alternatives inside a group, all groups and all
    other fields required; a rule-set of one non-inverted default rule is
    merged into the groups of the rule that refers to it, any other rule-set
    is a further condition, and several rule-sets are alternatives.  [Spec]
    states that logic without masks, state or early returns; the engine of
    RuleCore refines it. *)

From stdpp Require Import base numbers list strings gmap option.
From Stdlib Require Import ZArith Lia.
From S2P Require Import Prelude NetAddr Metadata RuleItems RuleCore.

Local Open Scope Z_scope.
Local Open Scope go_scope.

(** ** The groups *)

Inductive Group := SourceAddress | SourcePort | DestinationAddress | DestinationPort.

#[global] Instance Group_eq_dec : EqDecision Group.
Proof. solve_decision. Defined.

Definition all_groups : list Group :=
  [SourceAddress; SourcePort; DestinationAddress; DestinationPort].

(** A mask from the four conditions, and its algebra. *)
Definition mask (f : Group -> bool) : Z :=
  (if f SourceAddress then 1 else 0) + (if f SourcePort then 2 else 0) +
  (if f DestinationAddress then 4 else 0) + (if f DestinationPort then 8 else 0).

Lemma mask_lor f g : Z.lor (mask f) (mask g) = mask (fun x => f x || g x).
Proof.
  unfold mask. destruct (f SourceAddress), (f SourcePort), (f DestinationAddress),
    (f DestinationPort), (g SourceAddress), (g SourcePort), (g DestinationAddress),
    (g DestinationPort); reflexivity.
Qed.

Lemma mask_andnot f g : mask f &^ mask g = mask (fun x => f x && negb (g x)).
Proof.
  unfold mask. destruct (f SourceAddress), (f SourcePort), (f DestinationAddress),
    (f DestinationPort), (g SourceAddress), (g SourcePort), (g DestinationAddress),
    (g DestinationPort); reflexivity.
Qed.

Lemma mask_zero f : (mask f =? 0) = forallb (fun x => negb (f x)) all_groups.
Proof.
  unfold mask. simpl. destruct (f SourceAddress), (f SourcePort), (f DestinationAddress),
    (f DestinationPort); reflexivity.
Qed.

Lemma mask_ext f g : (forall x, f x = g x) -> mask f = mask g.
Proof. intros H. unfold mask. by rewrite !H. Qed.

Lemma mask_false : mask (fun _ => false) = 0.
Proof. done. Qed.

(** ** The specification *)

Section Spec.
Context {SH : SliceHelpers} {GS : GoStd} {TP : ThirdParty} {Action : Type}.
Context (env : RuleEnv).
Implicit Types m : InboundContext.

Definition holds m (it : RuleItem) : bool := RuleItem_Match env it m.

(** The fields of a group.  [ip_cidr] fields belong to the destination, or to
    the source under [rule_set_ip_cidr_match_source]; [ignore] leaves
    destination CIDRs out. *)
Definition fields {R} (ignore matchSource : bool) (r : abstractDefaultRule Action R) (g : Group)
  : list RuleItem :=
  match g with
  | SourceAddress =>
      sourceAddressItems r ++ (if matchSource then destinationIPCIDRItems r else [])
  | SourcePort => sourcePortItems r
  | DestinationAddress =>
      destinationAddressItems r ++
      (if negb ignore && negb matchSource then destinationIPCIDRItems r else [])
  | DestinationPort => destinationPortItems r
  end.

Definition nonempty {A} (l : list A) : bool := match l with [] => false | _ => true end.

(** A group constrains the match when it has a field; a field may satisfy it. *)
Definition constrained {R} (ignore : bool) (r : abstractDefaultRule Action R) m (g : Group)
  : bool := nonempty (fields ignore (IPCIDRMatchSource m) r g).
Definition satisfies {R} (ignore : bool) (r : abstractDefaultRule Action R) m (g : Group)
  : bool := existsb (holds m) (fields ignore (IPCIDRMatchSource m) r g).

(** The groups of several rules taken together, each rule with the metadata
    it is evaluated on. *)
Definition groups_hold {R} (rules : list (abstractDefaultRule Action R * InboundContext)) : bool :=
  forallb
    (fun g => negb (existsb (fun '(r, m) => constrained false r m g) rules) ||
              existsb (fun '(r, m) => satisfies false r m g) rules)
    all_groups.

Definition others_hold {R} (r : abstractDefaultRule Action R) m : bool :=
  forallb (holds m) (items r).

Section Open.
Context {R : Type} (RSpec : R -> InboundContext -> bool).
Context (asHeadless : R -> option (abstractDefaultRule Action R)).

(** One rule-set of the [rule_set] field of [r]. *)
Definition set_holds (r : abstractDefaultRule Action R) m (item : RuleSetItem R)
    (s : RuleSet R) : bool :=
  let m' := nestedMetadata item m in
  match mergeableRuleIn asHeadless (rs_rules s) with
  | Some branch => others_hold branch m' && groups_hold [(r, m); (branch, m')]
  | None => groups_hold [(r, m)] && existsb (fun rule => RSpec rule (ResetRuleMatchCache m')) (rs_rules s)
  end.

Definition conditions_hold (r : abstractDefaultRule Action R) m : bool :=
  others_hold r m &&
  match ruleSetItem r with
  | None => groups_hold [(r, m)]
  | Some item => existsb (set_holds r m item) (setList item)
  end.

(** A rule without any condition matches everything. *)
Definition default_spec (r : abstractDefaultRule Action R) m : bool :=
  match allItems r with
  | [] => true
  | _ => xorb (invert r) (conditions_hold r m)
  end.

Definition logical_spec (r : abstractLogicalRule Action R) m : bool :=
  let sub rule := RSpec rule (ResetRuleCache m) in
  xorb (l_invert r)
    (if bool_decide (l_mode r = "and") then forallb sub (l_rules r)
     else existsb sub (l_rules r)).

(** A DNS rule with [match_response] sees the stored response it names; it
    is false, before [invert], without one. *)
Definition dns_spec (r : abstractDefaultRule Action R) (matchResponse : bool)
    (tag : string) m : bool :=
  if matchResponse then
    let response := if bool_decide (tag = "") then DNSResponse m
                    else default None (NamedDNSResponses m !! tag) in
    match response with
    | None => invert r
    | Some _ => default_spec r (set_Response m response true)
    end
  else default_spec r m.
End Open.

Fixpoint Spec (rule : Rule Action) m {struct rule} : bool :=
  match rule with
  | R_Default r | R_DefaultHeadless r => default_spec Spec asDefaultHeadless r m
  | R_Logical r | R_LogicalHeadless r | R_LogicalDNS r _ _ _ => logical_spec Spec r m
  | R_DefaultDNS r matchResponse tag _ => dns_spec Spec asDefaultHeadless r matchResponse tag m
  end.

(** ** The masks of the engine *)

Lemma length_pos {A} (l : list A) : (0 <? Z.of_nat (length l)) = nonempty l.
Proof. by destruct l. Qed.

Lemma length_zero {A} (l : list A) : (Z.of_nat (length l) =? 0) = negb (nonempty l).
Proof. by destruct l. Qed.

Lemma nonempty_app {A} (l l' : list A) : nonempty (l ++ l') = nonempty l || nonempty l'.
Proof. by destruct l. Qed.

(** A group without fields is not satisfied. *)
Lemma existsb_nonempty {A} (f : A -> bool) l : nonempty l = false -> existsb f l = false.
Proof. by destruct l. Qed.

Lemma satisfies_constrained {R} ig (r : abstractDefaultRule Action R) m g :
  constrained ig r m g = false -> satisfies ig r m g = false.
Proof. apply existsb_nonempty. Qed.

(** The destination CIDRs of a rule are left to the response. *)
Definition defers_own {R} (r : abstractDefaultRule Action R) m : bool :=
  IgnoreDestinationIPCIDRMatch m && negb (IPCIDRMatchSource m) &&
  nonempty (destinationIPCIDRItems r) && negb (nonempty (destinationAddressItems r)).

Lemma evaluateGroups_mask {R} (r : abstractDefaultRule Action R) m :
  evaluateGroups env r m =
  (mkGroups (mask (constrained (IgnoreDestinationIPCIDRMatch m) r m))
            (mask (satisfies (IgnoreDestinationIPCIDRMatch m) r m)),
   if defers_own r m
   then set_Deferred m (Z.lor (DeferredIPCIDRMatchGroups m) ruleMatchDestinationAddress)
   else m).
Proof.
  unfold evaluateGroups, destinationIPCIDRMatchesSource, destinationIPCIDRMatchesDestination,
    matchAnyItem, defers_own, constrained, satisfies, fields.
  autorewrite with slices. rewrite !length_pos, !length_zero.
  change (fun it => RuleItem_Match env it m) with (holds m).
  f_equal.
  assert (H := fun l => existsb_nonempty (holds m) l).
  pose proof (H (sourceAddressItems r)) as H1. pose proof (H (sourcePortItems r)) as H2.
  pose proof (H (destinationAddressItems r)) as H3.
  pose proof (H (destinationIPCIDRItems r)) as H4.
  pose proof (H (destinationPortItems r)) as H5. clear H.
  unfold mask.
  destruct (IgnoreDestinationIPCIDRMatch m), (IPCIDRMatchSource m); cbn [negb andb orb];
  rewrite ?app_nil_r, ?nonempty_app, ?existsb_app;
  destruct (nonempty (sourceAddressItems r)); rewrite ?H1 by done;
  destruct (nonempty (sourcePortItems r)); rewrite ?H2 by done;
  destruct (nonempty (destinationAddressItems r)); rewrite ?H3 by done;
  destruct (nonempty (destinationIPCIDRItems r)); rewrite ?H4 by done;
  destruct (nonempty (destinationPortItems r)); rewrite ?H5 by done;
  clear;
  repeat match goal with |- context [existsb ?f ?l] => destruct (existsb f l) end; reflexivity.
Qed.

Lemma done_mask f g :
  done (mkGroups (mask f) (mask g)) = forallb (fun x => negb (f x) || g x) all_groups.
Proof.
  unfold done. simpl required. simpl satisfied. rewrite mask_andnot, mask_zero.
  apply forallb_ext_in. intros x _. by destruct (f x), (g x).
Qed.

Lemma merge_mask f g f' g' :
  mergeWith (mkGroups (mask f) (mask g)) (mkGroups (mask f') (mask g')) =
  mkGroups (mask (fun x => f x || f' x)) (mask (fun x => g x || g' x)).
Proof. unfold mergeWith. simpl. by rewrite !mask_lor. Qed.

Lemma done_single {R} (r : abstractDefaultRule Action R) m :
  done (mkGroups (mask (constrained false r m)) (mask (satisfies false r m)))
  = groups_hold [(r, m)].
Proof.
  rewrite done_mask. apply forallb_ext_in. intros g _. simpl. by rewrite !orb_false_r.
Qed.

Lemma done_merged {R} (r b : abstractDefaultRule Action R) m m' :
  done (mkGroups (mask (fun x => constrained false r m x || constrained false b m' x))
                 (mask (fun x => satisfies false r m x || satisfies false b m' x)))
  = groups_hold [(r, m); (b, m')].
Proof.
  rewrite done_mask. apply forallb_ext_in. intros g _. simpl. by rewrite !orb_false_r.
Qed.

(** ** Refinement

    [full m]: destination CIDRs are matched, nothing is deferred.  This is how
    route rules, rule-sets and responses are matched. *)
Definition full m : Prop :=
  IgnoreDestinationIPCIDRMatch m = false /\ DeferredIPCIDRMatchGroups m = 0.

Lemma full_Reset m : full m -> full (ResetRuleMatchCache m).
Proof. by intros [? ?]. Qed.
Lemma full_ResetCache m : full m -> full (ResetRuleCache m).
Proof. by intros [? ?]. Qed.
Lemma full_nested {R} (item : RuleSetItem R) m : full m -> full (nestedMetadata item m).
Proof. by intros [? ?]. Qed.
Lemma full_Response m resp b : full m -> full (set_Response m resp b).
Proof. by intros [? ?]. Qed.
Hint Resolve full_Reset full_ResetCache full_nested full_Response : go.

Lemma full_set_Deferred m x : full m -> set_Deferred m (DeferredIPCIDRMatchGroups m &^ x) = m.
Proof.
  intros [_ H]. replace (DeferredIPCIDRMatchGroups m &^ x) with (DeferredIPCIDRMatchGroups m).
  - apply set_Deferred_same.
  - by rewrite H, andnot_0_l.
Qed.

Lemma evaluateGroups_full {R} (r : abstractDefaultRule Action R) m :
  full m ->
  evaluateGroups env r m =
  (mkGroups (mask (constrained false r m)) (mask (satisfies false r m)), m).
Proof.
  intros [Hi _]. rewrite evaluateGroups_mask. unfold defers_own. by rewrite Hi.
Qed.

Section Refine.
Context {R : Type} (RMatch : R -> InboundContext -> Outcome).
Context (RSpec : R -> InboundContext -> bool).
Context (asHeadless : R -> option (abstractDefaultRule Action R)).

Definition refines (rule : R) : Prop :=
  forall m, full m -> RMatch rule m = (RSpec rule m, m).

Lemma matchAny_refines rules m :
  Forall refines rules -> full m ->
  matchAny_loop RMatch rules m false 0 =
  (existsb (fun rule => RSpec rule (ResetRuleMatchCache m)) rules, m).
Proof.
  intros Hr Hm. induction Hr as [|rule rules H _ IH]; [done|]. simpl.
  rewrite H by auto with go. destruct (RSpec rule _); simpl; [done|]. apply IH.
Qed.

Lemma outer_refines r item sets m :
  Forall (fun s => Forall refines (rs_rules s)) sets -> full m ->
  outer_loop env RMatch asHeadless item
    (mkGroups (mask (constrained false r m)) (mask (satisfies false r m)))
    (groups_hold [(r, m)]) sets m false 0
  = (existsb (set_holds RSpec asHeadless r m item) sets, m).
Proof.
  intros Hs Hm. induction Hs as [|s sets H _ IH]; [done|].
  cbn [outer_loop existsb]. unfold set_holds at 1. unfold mergeableRule.
  destruct (mergeableRuleIn asHeadless (rs_rules s)) as [b|].
  - unfold evaluateForMerge. rewrite evaluateGroups_full by auto with go.
    change (matchItems env b (nestedMetadata item m)) with (others_hold b (nestedMetadata item m)).
    destruct (others_hold b (nestedMetadata item m)); simpl; [|apply IH].
    rewrite merge_mask, done_merged.
    destruct (groups_hold [(r, m); (b, nestedMetadata item m)]); [|apply IH].
    by rewrite full_set_Deferred.
  - destruct (groups_hold [(r, m)]); [|apply IH].
    unfold RuleSet_Match, matchAnyHeadlessRule. rewrite matchAny_refines by auto with go.
    cbn [andb]. destruct (existsb _ (rs_rules s)); [|apply IH]. done.
Qed.

Lemma default_refines r m :
  match ruleSetItem r with
  | None => True
  | Some item => Forall (fun s => Forall refines (rs_rules s)) (setList item)
  end -> full m ->
  abstractDefaultRule_Match env RMatch asHeadless r m
  = (default_spec RSpec asHeadless r m, m).
Proof.
  intros Hr Hm. unfold abstractDefaultRule_Match, default_spec.
  rewrite length_zero. destruct (allItems r) as [|a l]; [done|]. simpl negb. cbv iota.
  assert (Hin : matchInner env RMatch asHeadless r m = (conditions_hold RSpec asHeadless r m, m)).
  { unfold matchInner, conditions_hold. rewrite evaluateGroups_full by done.
    change (matchItems env r m) with (others_hold r m).
    destruct (others_hold r m); simpl; [|done].
    destruct (ruleSetItem r) as [item|].
    - unfold matchWithOuterGroups. rewrite done_single, outer_refines by done.
      destruct (existsb _ _); [|done]. by rewrite full_set_Deferred.
    - rewrite done_single. destruct (groups_hold [(r, m)]); [|done].
      by rewrite full_set_Deferred. }
  rewrite Hin. destruct (invert r); [|by destruct (conditions_hold _ _ _ _)].
  destruct Hm as [_ Hd]. destruct (conditions_hold _ _ _ _); simpl.
  - by rewrite Hd.
  - rewrite <- Hd. by rewrite set_Deferred_same.
Qed.

Lemma and_refines rules m :
  Forall refines rules -> full m ->
  and_loop RMatch rules m 0 = (forallb (fun rule => RSpec rule (ResetRuleCache m)) rules, 0).
Proof.
  intros Hr Hm. induction Hr as [|rule rules H _ IH]; [done|]. simpl.
  rewrite H by auto with go. destruct (RSpec rule _); simpl; [|done]. apply IH.
Qed.

Lemma or_refines rules m :
  Forall refines rules -> full m ->
  or_loop RMatch rules m false 0
  = (existsb (fun rule => RSpec rule (ResetRuleCache m)) rules, 0).
Proof.
  intros Hr Hm. induction Hr as [|rule rules H _ IH]; [done|]. simpl.
  rewrite H by auto with go. destruct (RSpec rule _); simpl; [done|]. apply IH.
Qed.

Lemma logical_refines r m :
  Forall refines (l_rules r) -> full m ->
  abstractLogicalRule_Match RMatch r m = (logical_spec RSpec r m, m).
Proof.
  intros Hr Hm. unfold abstractLogicalRule_Match, logical_spec.
  assert (Hd : set_Deferred m (Z.lor (DeferredIPCIDRMatchGroups m) 0) = m).
  { by rewrite Z.lor_0_r, set_Deferred_same. }
  destruct (bool_decide (l_mode r = "and")).
  - rewrite and_refines by done. destruct (forallb _ _), (l_invert r); by rewrite ?Hd.
  - rewrite or_refines by done. destruct (existsb _ _), (l_invert r); by rewrite ?Hd.
Qed.
End Refine.

(** The rules of a rule-set item, set by set. *)
Lemma children_sets {P : Rule Action -> Prop} r :
  Forall P (default_children r) ->
  match ruleSetItem r with
  | None => True
  | Some item => Forall (fun s => Forall P (rs_rules s)) (setList item)
  end.
Proof.
  unfold default_children. destruct (ruleSetItem r) as [item|]; [|done].
  rewrite !List.Forall_forall. intros H s Hs. apply List.Forall_forall. intros x Hx.
  apply H, in_flat_map. by exists s.
Qed.

Lemma engine_refines rule m : full m -> Rule_Match env rule m = (Spec rule m, m).
Proof.
  revert m. induction rule as [rule IH] using Rule_nested_ind.
  intros m Hm. destruct rule as [r|r|r|r|r mr tag ?|r ? ? ?]; simpl in *;
    try (apply logical_refines; done);
    try (apply default_refines; [apply (children_sets r IH)|done]).
  unfold matchForMatch, dns_spec.
  destruct mr; [|apply default_refines; [apply (children_sets r IH)|done]].
  destruct (if bool_decide (tag = "") then _ else _) as [resp|]; [|done].
  rewrite (default_refines _ Spec); [done|apply (children_sets r IH)|auto with go].
Qed.

(** ** The documented logic

    The documentation lets [rule_set_ip_cidr_match_source] and
    [rule_set_ip_cidr_accept_empty] hold for all of a rule-set.  The engine clears
    both at a logical rule ([ResetRuleCache]), which [Spec] describes. *)
Definition logical_documented (RSpec : Rule Action -> InboundContext -> bool)
    (r : abstractLogicalRule Action (Rule Action)) m : bool :=
  let sub rule := RSpec rule (ResetRuleMatchCache m) in
  xorb (l_invert r)
    (if bool_decide (l_mode r = "and") then forallb sub (l_rules r) else existsb sub (l_rules r)).
Fixpoint Documented (rule : Rule Action) m {struct rule} : bool :=
  match rule with
  | R_Default r | R_DefaultHeadless r => default_spec Documented asDefaultHeadless r m
  | R_Logical r | R_LogicalHeadless r | R_LogicalDNS r _ _ _ => logical_documented Documented r m
  | R_DefaultDNS r matchResponse tag _ => dns_spec Documented asDefaultHeadless r matchResponse tag m
  end.

(** No rule-set that is used with one of the two modes has a logical rule; [mode]:
    whether a mode is set where the rule is matched. *)
Definition mode_set m : bool := IPCIDRMatchSource m || IPCIDRAcceptEmpty m.
Definition default_keeps (RKeeps : bool -> Rule Action -> bool) (r : abstractDefaultRule Action (Rule Action)) : bool :=
  match ruleSetItem r with
  | None => true
  | Some item => forallb (fun s => forallb (RKeeps (ipCidrMatchSource item || ipCidrAcceptEmpty item)) (rs_rules s)) (setList item)
  end.
Fixpoint keeps_mode (mode : bool) (rule : Rule Action) {struct rule} : bool :=
  match rule with
  | R_Default r | R_DefaultHeadless r | R_DefaultDNS r _ _ _ => default_keeps keeps_mode r
  | R_Logical r | R_LogicalHeadless r | R_LogicalDNS r _ _ _ => negb mode && forallb (keeps_mode false) (l_rules r)
  end.

Lemma mode_unset m : mode_set m = false -> ResetRuleCache m = ResetRuleMatchCache m.
Proof. unfold mode_set. intros [H1 H2]%orb_false_iff. unfold ResetRuleCache, ResetRuleMatchCache. cbn. by rewrite H1, H2. Qed.

Definition agrees (rule : Rule Action) : Prop := forall m, keeps_mode (mode_set m) rule = true -> Documented rule m = Spec rule m.
Lemma default_documented r m : Forall agrees (default_children r) -> default_keeps keeps_mode r = true ->
  default_spec Documented asDefaultHeadless r m = default_spec Spec asDefaultHeadless r m.
Proof.
  intros Hc%children_sets Hk. unfold default_spec, default_keeps in *. destruct (allItems r); [done|]. f_equal. unfold conditions_hold. f_equal.
  destruct (ruleSetItem r) as [item|]; [|done]. rewrite forallb_forall in Hk. rewrite List.Forall_forall in Hc. apply existsb_ext_in. intros s Hs%list_elem_of_In. unfold set_holds.
  destruct (mergeableRuleIn asDefaultHeadless (rs_rules s)); [done|]. f_equal. specialize (Hk s Hs). specialize (Hc s Hs). rewrite forallb_forall in Hk. rewrite List.Forall_forall in Hc.
  apply existsb_ext_in. intros x Hx%list_elem_of_In. apply Hc; [done|]. by apply Hk.
Qed.
Lemma documented_agrees rule : agrees rule.
Proof.
  induction rule as [rule IH] using Rule_nested_ind. intros m Hk.
  assert (Hl : forall r, Forall agrees (l_rules r) -> negb (mode_set m) && forallb (keeps_mode false) (l_rules r) = true -> logical_documented Documented r m = logical_spec Spec r m).
  { intros r Hc [Hm%negb_true_iff Hr]%andb_true_iff. unfold logical_documented, logical_spec. rewrite mode_unset by done. rewrite forallb_forall in Hr. rewrite List.Forall_forall in Hc.
    assert (Hsub : forall x, In x (l_rules r) -> Documented x (ResetRuleMatchCache m) = Spec x (ResetRuleMatchCache m)).
    { intros x Hx. apply Hc; [done|]. change (mode_set (ResetRuleMatchCache m)) with (mode_set m). rewrite Hm. by apply Hr. }
    f_equal. destruct (bool_decide _); [apply forallb_ext_in|apply existsb_ext_in]; intros x Hx%list_elem_of_In; by apply Hsub. }
  destruct rule as [r|r|r|r|r mr tag ?|r ? ? ?]; cbn [Documented Spec keeps_mode children] in *; try (by apply Hl); try (by apply default_documented).
  unfold dns_spec. destruct mr; [|by apply default_documented]. destruct (if bool_decide (tag = "") then _ else _); [by apply default_documented|done].
Qed.

(** C1: the engine implements the documented matching logic.  When destination CIDRs
    are matched and nothing is deferred, [Match] of every rule type returns what the
    documentation says of groups, merged rule-sets, inversion and stored responses,
    and leaves the metadata as it was, for rules in which no rule-set used with
    [rule_set_ip_cidr_match_source] or [rule_set_ip_cidr_accept_empty] has a logical
    rule (inside one the engine drops these modes). *)
Theorem match_documented_logic rule m : full m -> keeps_mode (mode_set m) rule = true -> Rule_Match env rule m = (Documented rule m, m).
Proof. intros Hm Hk. rewrite (documented_agrees rule m Hk). by apply engine_refines. Qed.

End Spec.
