(* ===== verification/RuleFrame.v ===== *)
(** * What the outcome of a rule depends on

    Two metadata give a rule the same outcome when its items cannot tell them
    apart.  The lemmas are stated for a relation on metadata that matching
    preserves, and used for the fields that matching does not read. *)

From stdpp Require Import base numbers list strings gmap option.
From Stdlib Require Import ZArith Lia.
From S2P Require Import Prelude NetAddr Metadata RuleItems RuleCore RuleSpec.

Local Open Scope Z_scope.

Section Frame.
Context {SH : SliceHelpers} {GS : GoStd} {TP : ThirdParty} {Action : Type}.
Context (env : RuleEnv).

(** The items of a rule itself. *)
Definition own_items {R} (r : abstractDefaultRule Action R) : list RuleItem :=
  items r ++ sourceAddressItems r ++ sourcePortItems r ++ destinationAddressItems r ++
  destinationIPCIDRItems r ++ destinationPortItems r.

(** A relation that matching preserves and that the items in [P] respect. *)
Record frame (A : InboundContext -> InboundContext -> Prop) (P : RuleItem -> Prop) : Prop := {
  fr_item : forall it m m', P it -> A m m' -> RuleItem_Match env it m = RuleItem_Match env it m';
  fr_source : forall m m', A m m' -> IPCIDRMatchSource m = IPCIDRMatchSource m';
  fr_nested : forall (item : RuleSetItem (Rule Action)) m m', A m m' -> A (nestedMetadata item m) (nestedMetadata item m');
  fr_match : forall m m', A m m' -> A (ResetRuleMatchCache m) (ResetRuleMatchCache m');
  fr_rule : forall m m', A m m' -> A (ResetRuleCache m) (ResetRuleCache m')
}.

Section Respects.
Context (A : InboundContext -> InboundContext -> Prop) (P : RuleItem -> Prop) (HA : frame A P).

Lemma existsb_items l m m' : Forall P l -> A m m' -> existsb (holds env m) l = existsb (holds env m') l.
Proof.
  intros Hl Hm. apply existsb_ext_in. intros it Hit. rewrite list.Forall_forall in Hl.
  by apply (fr_item _ _ HA); [apply Hl|].
Qed.

Lemma others_frame {R} (r : abstractDefaultRule Action R) m m' :
  Forall P (own_items r) -> A m m' -> others_hold env r m = others_hold env r m'.
Proof.
  intros Hl Hm. apply forallb_ext_in. intros it Hit. apply (fr_item _ _ HA); [|done].
  rewrite list.Forall_forall in Hl. apply Hl. unfold own_items. set_solver.
Qed.

(** Groups of several rules, each with its own metadata. *)
Lemma groups_frame {R} (l : list (abstractDefaultRule Action R * (InboundContext * InboundContext))) :
  Forall (fun '(r, (m, m')) => Forall P (own_items r) /\ A m m') l ->
  groups_hold env (map (fun '(r, (m, _)) => (r, m)) l) = groups_hold env (map (fun '(r, (_, m')) => (r, m')) l).
Proof.
  intros Hl. rewrite list.Forall_forall in Hl. unfold groups_hold. apply forallb_ext_in. intros g _.
  assert (Hex : forall f : abstractDefaultRule Action R -> InboundContext -> bool,
            (forall r m m', (r, (m, m')) ∈ l -> f r m = f r m') ->
            existsb (fun '(r, m) => f r m) (map (fun '(r, (m, _)) => (r, m)) l) =
            existsb (fun '(r, m) => f r m) (map (fun '(r, (_, m')) => (r, m')) l)).
  { intros f. clear Hl. induction l as [|[r [m m']] l IH]; intros Hf; simpl; [done|].
    rewrite (Hf r m m') by left. f_equal. apply IH. intros. apply Hf. by right. }
  f_equal; [f_equal|]; apply Hex; intros r m m' Hin; apply Hl in Hin as [Hp Hm].
  - unfold constrained. by rewrite (fr_source _ _ HA _ _ Hm).
  - unfold satisfies. rewrite (fr_source _ _ HA _ _ Hm). apply existsb_items; [|done].
    rewrite list.Forall_forall in Hp |- *. intros it Hit. apply Hp. unfold own_items, fields in *.
    destruct g; repeat go_case_in Hit; set_solver.
Qed.

(** Rules, given the outcome of the rules in their rule-sets. *)
Lemma default_frame (RSpec : Rule Action -> InboundContext -> bool) r m m' :
  Forall P (own_items r) -> A m m' ->
  (forall item s rule m m', ruleSetItem r = Some item -> s ∈ setList item -> rule ∈ rs_rules s ->
     A m m' -> RSpec rule m = RSpec rule m') ->
  (forall item s b, ruleSetItem r = Some item -> s ∈ setList item ->
     mergeableRuleIn asDefaultHeadless (rs_rules s) = Some b -> Forall P (own_items b)) ->
  default_spec env RSpec asDefaultHeadless r m = default_spec env RSpec asDefaultHeadless r m'.
Proof.
  intros Hr Hm Hsub Hmerge. unfold default_spec. destruct (allItems r); [done|]. f_equal.
  unfold conditions_hold. rewrite (others_frame r m m') by done. f_equal.
  destruct (ruleSetItem r) as [item|] eqn:Hi; [|by apply (groups_frame [(r, (m, m'))]); repeat constructor].
  apply existsb_ext_in. intros s Hs. unfold set_holds. cbv zeta.
  pose proof (fr_nested _ _ HA item m m' Hm) as Hn.
  destruct (mergeableRuleIn asDefaultHeadless (rs_rules s)) as [b|] eqn:Hb.
  - assert (Forall P (own_items b)) as Hpb by by eapply Hmerge. rewrite (others_frame b _ _ Hpb Hn). f_equal.
    apply (groups_frame [(r, (m, m')); (b, (nestedMetadata item m, nestedMetadata item m'))]). by repeat constructor.
  - f_equal; [by apply (groups_frame [(r, (m, m'))]); repeat constructor|].
    apply existsb_ext_in. intros rule Hrule. eapply Hsub; [done|done|done|]. by apply (fr_match _ _ HA).
Qed.

Lemma logical_frame (RSpec : Rule Action -> InboundContext -> bool) (r : abstractLogicalRule Action (Rule Action)) m m' :
  A m m' ->
  (forall rule m m', rule ∈ l_rules r -> A m m' -> RSpec rule m = RSpec rule m') ->
  logical_spec RSpec r m = logical_spec RSpec r m'.
Proof.
  intros Hm Hsub. unfold logical_spec. cbv zeta. f_equal. pose proof (fr_rule _ _ HA _ _ Hm) as Hr.
  destruct (bool_decide _); [apply forallb_ext_in|apply existsb_ext_in]; intros rule Hrule; by apply Hsub.
Qed.

(** ** Headless rules *)

(** The rules of rule-sets, with items in [P] at every depth. *)
Inductive headless_of : Rule Action -> Prop :=
  | headless_default r : Forall P (own_items r) -> ruleSetItem r = None -> headless_of (R_DefaultHeadless r)
  | headless_logical r : (forall rule, rule ∈ l_rules r -> headless_of rule) -> headless_of (R_LogicalHeadless r).

Lemma mergeable_headless rules b :
  (forall rule, rule ∈ rules -> headless_of rule) ->
  mergeableRuleIn asDefaultHeadless rules = Some b -> Forall P (own_items b).
Proof.
  unfold mergeableRuleIn. intros Hr. destruct rules as [|rule [|? ?]]; try done.
  assert (Hh : headless_of rule) by (apply Hr; left).
  destruct Hh as [r Hp Hnone|r Hsub]; simpl; [|done].
  destruct (_ || _); [done|]. by intros [= <-].
Qed.

Lemma headless_frame rule m m' : headless_of rule -> A m m' -> Spec env rule m = Spec env rule m'.
Proof.
  intros Hh. revert m m'. induction Hh as [r Hp Hnone|r _ IH]; intros m m' Hm; simpl.
  - apply default_frame; [done|done| |]; intros *; rewrite Hnone; done.
  - apply logical_frame; [done|]. auto.
Qed.
End Respects.
End Frame.
