(* ===== verification/RuleExamples.v ===== *)
(** * Concrete rules

    Witnesses of the theorems on rules, and three executions in which the
    engine departs from the documented logic. *)

From stdpp Require Import base numbers list strings gmap option.
From Stdlib Require Import ZArith Lia.
From S2P Require Import Prelude NetAddr Metadata Demo RuleItems RuleCore RuleSpec RulePreMatch.

Local Open Scope Z_scope.

Module RuleExamples.

#[local] Existing Instance list_helpers.
#[local] Existing Instance Demo.std.
#[local] Existing Instance Demo.third.

Definition DRule := Rule unit.

Definition domain_item (d : string) : RuleItem :=
  I_Domain (mkDomainItem ([d], []) "").
Definition cidr_item : RuleItem := I_IPCIDR (mkIPCIDRItem [Demo.net10] false "").

(** A default rule with the given fields. *)
Definition default_rule (dest ip : list RuleItem) (rs : option (RuleSetItem DRule)) (inv : bool)
  : abstractDefaultRule unit DRule :=
  mkDefault [] [] [] dest ip []
    (map AItem (dest ++ ip) ++ match rs with Some _ => [ARuleSet] | None => [] end) rs inv None.

Definition no_metadata : RuleSetMetadata := mkRuleSetMetadata false false false false false.
Definition cidr_metadata : RuleSetMetadata := mkRuleSetMetadata false false true false false.

(** Fields of one headless rule. *)
Definition headless (dest ip : list RuleItem) : DRule :=
  R_DefaultHeadless (default_rule dest ip None false).

Definition dns (r : abstractDefaultRule unit DRule) : DRule := R_DefaultDNS r false "" false.

(** A domain rule that refers to a rule-set of destination CIDRs: merged when
    the set has one rule. *)
Definition set_of (md : RuleSetMetadata) (rules : list DRule) : RuleSet DRule :=
  mkRuleSet "set" rules md.
Definition item_of (source : bool) (sets : list (RuleSet DRule)) : RuleSetItem DRule :=
  mkRuleSetItem ["set"] sets source false.

Definition q := Demo.query "a.example".
Definition inside := Demo.response [10; 0; 0; 1].
Definition outside := Demo.response [8; 8; 8; 8].

(** A DNS rule on the destination CIDR alone. *)
Definition cidr_rule : DRule := dns (default_rule [] [cidr_item] None false).

(** The documented logic on a route rule with a merged rule-set. *)
Definition merged_rule : DRule :=
  R_Default (default_rule [domain_item "b.example"] []
    (Some (item_of false [set_of cidr_metadata [headless [] [cidr_item]]])) false).

Definition to_net10 : InboundContext := Demo.metadata (mkSocksaddr (Addr4 0x0a000001) 443 "").

Lemma match_documented_logic_witness :
  full to_net10 /\ keeps_mode (mode_set to_net10) merged_rule = true /\ Rule_Match Demo.env merged_rule to_net10 = (true, to_net10).
Proof.
  split; [done|]. split; [done|]. rewrite (match_documented_logic Demo.env merged_rule to_net10); done.
Defined.

Lemma legacy_prematch_sound_witness :
  unmixed false cidr_rule = true /\
  LegacyPreMatch Demo.env cidr_rule q = Some (true, set_Deferred q 4) /\
  MatchAddressLimit Demo.env cidr_rule q outside = Some false /\
  ((true = false -> false = false) /\
   (true = true -> DeferredIPCIDRMatchGroups (set_Deferred q 4) = 0 -> false = true)).
Proof.
  split; [done|]. split; [done|]. split; [by vm_compute|].
  apply (legacy_prematch_sound Demo.env cidr_rule q outside true (set_Deferred q 4) false);
    try done; by vm_compute.
Defined.

Definition domain_rule : DRule :=
  dns (default_rule [domain_item "a.example"] []
    (Some (item_of false [set_of no_metadata [headless [domain_item "c.example"] []]])) false).

Lemma no_address_limit_decides_witness :
  WithAddressLimit domain_rule = false /\
  (true = true /\ (true = true -> DeferredIPCIDRMatchGroups (set_Ignore q false) = 0)).
Proof.
  split; [done|].
  apply (no_address_limit_decides Demo.env domain_rule q outside true (set_Ignore q false) true);
    try done; by vm_compute.
Defined.

(** ** Departures from the documented logic *)

Definition mixed_rule : DRule :=
  dns (default_rule [domain_item "b.example"] [cidr_item] None false).

(** A DNS rule with a domain and a destination CIDR, documented as
    alternatives, is dropped by the pre-match when the domain does not match,
    although its address condition holds for the response. *)
Theorem mixed_rule_dropped :
  fst <$> LegacyPreMatch Demo.env mixed_rule q = Some false /\
  MatchAddressLimit Demo.env mixed_rule q inside = Some true /\
  WithAddressLimit mixed_rule = true.
Proof. by vm_compute. Qed.

(** An inverted rule: a domain, and a rule-set of two rules, one of them a
    destination CIDR. *)
Definition inverted_rule : DRule :=
  dns (default_rule [domain_item "a.example"] []
    (Some (item_of false [set_of cidr_metadata
       [headless [] [cidr_item]; headless [domain_item "c.example"] []]])) true).

(** The outer domain match clears the deferral of a rule-set that is not
    merged, so an inverted rule is reported as a definite mismatch before the
    response although it matches for an address outside the set. *)
Theorem deferral_cleared_by_domain :
  fst <$> LegacyPreMatch Demo.env inverted_rule q = Some false /\
  MatchAddressLimit Demo.env inverted_rule q outside = Some true.
Proof. by vm_compute. Qed.

(** One destination CIDR, wrapped in a logical rule or not. *)
Definition wrapped : DRule :=
  R_LogicalHeadless (mkLogical [headless [] [cidr_item]] "and" false None).

Definition source_rule (rules : list DRule) : DRule :=
  R_Default (default_rule [] [] (Some (item_of true [set_of cidr_metadata rules])) false).

Definition from_net10 : InboundContext :=
  let m := Demo.metadata (mkSocksaddr (Addr4 0x08080808) 443 "") in
  mkInboundContext
    (mkBase "tun-in" "tun" 4 "tcp" (mkSocksaddr (Addr4 0x0a000001) 40000 "")
       (Destination m) "" "")
    (ic_power m) (ic_sniffer m) (ic_cache m) (ic_match m) (ic_rule m).

Definition source_dns_rule (rules : list DRule) : DRule :=
  dns (default_rule [] [] (Some (item_of true [set_of cidr_metadata rules])) false).

(** Under [rule_set_ip_cidr_match_source] the CIDRs of a rule-set match the
    source address, but inside a logical rule of the set they match the
    destination: the same CIDR matches unwrapped and fails wrapped.  A DNS rule
    on such a set is reported to have no address limit although its
    confirmation depends on the response. *)
Theorem match_source_lost_in_logical :
  fst (Rule_Match Demo.env (source_rule [headless [] [cidr_item]]) from_net10) = true /\
  fst (Rule_Match Demo.env (source_rule [wrapped]) from_net10) = false /\
  fst (Rule_Match Demo.env (source_rule [wrapped]) to_net10) = true /\
  WithAddressLimit (source_dns_rule [wrapped]) = false /\
  MatchAddressLimit Demo.env (source_dns_rule [wrapped]) q inside = Some true /\
  MatchAddressLimit Demo.env (source_dns_rule [wrapped]) q outside = Some false.
Proof. by vm_compute. Qed.

End RuleExamples.
