(* ===== verification/RuleBuild.v ===== *)
(** * Building rules from options

    [NewDefaultRule], [NewDefaultDNSRule] and [NewDefaultHeadlessRule]
    ([rule_default.go], [rule_dns.go], [rule_headless.go]), the headless
    dispatcher and the metadata of a rule-set ([rule_set.go],
    [rule_set_local.go]).

    Each constructor appends items block by block; a block is a partial
    function on the rule under construction and the constructor is the chain
    of its blocks, in the order of the source. *)

From stdpp Require Import base numbers list strings gmap option.
From Stdlib Require Import ZArith Lia.
From S2P Require Import Prelude NetAddr Metadata RuleItems RuleAction RuleCore RuleSpec RulePreMatch.

Local Open Scope Z_scope.
Local Set Warnings "-register-all".

Section Build.
Context {SH : SliceHelpers} {GS : GoStd} {TP : ThirdParty}.

(** ** Options *)

Definition Entries (K : Type) : Type := list (K * list (option Prefixable)).

(** [option.DefaultHeadlessRule]; a [TypedMap] is its entries in order. *)
Record HeadlessOptions := mkHeadlessOptions {
  h_QueryType : Slice Z;
  h_Network : Slice string;
  h_Domain : Slice string;
  h_DomainSuffix : Slice string;
  h_DomainKeyword : Slice string;
  h_DomainRegex : Slice string;
  h_SourceIPCIDR : Slice string;
  h_IPCIDR : Slice string;
  h_SourcePort : Slice Z;
  h_SourcePortRange : Slice string;
  h_Port : Slice Z;
  h_PortRange : Slice string;
  h_ProcessName : Slice string;
  h_ProcessPath : Slice string;
  h_ProcessPathRegex : Slice string;
  h_PackageName : Slice string;
  h_PackageNameRegex : Slice string;
  h_NetworkType : Slice Z;
  h_NetworkIsExpensive : bool;
  h_NetworkIsConstrained : bool;
  h_WIFISSID : Slice string;
  h_WIFIBSSID : Slice string;
  h_NetworkInterfaceAddress : option (Entries Z);
  h_DefaultInterfaceAddress : Slice (option Prefixable);
  h_Invert : bool;
  h_DomainMatcher : option Matcher;
  h_SourceIPSet : option IPSet;
  h_IPSet : option IPSet;
  h_AdGuardDomain : Slice string;
  h_AdGuardDomainMatcher : option AdGuardMatcher
}.

(** [option.HeadlessRule]; a rule of an unknown type keeps its name.  Decoding
    gives a rule without a type the type default; one that was made with an empty
    type is [H_Untyped]: it is built like a default rule, but [HasHeadlessRule] does
    not count it and it cannot be written. *)
Inductive HeadlessRule :=
  | H_Default (o : HeadlessOptions)
  | H_Logical (mode : string) (rules : list HeadlessRule) (inv : bool)
  | H_Unknown (type : string)
  | H_Untyped (o : HeadlessOptions).

(** The rules that decoding gives: none with an empty type. *)
Fixpoint typed (r : HeadlessRule) : bool :=
  match r with H_Logical _ rules _ => forallb typed rules | H_Untyped _ => false | _ => true end.

(** All fields of a default headless rule but those of an address condition
    on the destination are their zero value. *)
Definition headless_zero_but_ip (r : HeadlessOptions) : bool :=
  is_nil (h_QueryType r) && is_nil (h_Network r) && is_nil (h_Domain r) &&
  is_nil (h_DomainSuffix r) && is_nil (h_DomainKeyword r) && is_nil (h_DomainRegex r) &&
  is_nil (h_SourceIPCIDR r) && is_nil (h_SourcePort r) && is_nil (h_SourcePortRange r) &&
  is_nil (h_Port r) && is_nil (h_PortRange r) && is_nil (h_ProcessName r) &&
  is_nil (h_ProcessPath r) && is_nil (h_ProcessPathRegex r) && is_nil (h_PackageName r) &&
  is_nil (h_PackageNameRegex r) && is_nil (h_NetworkType r) &&
  negb (h_NetworkIsExpensive r) && negb (h_NetworkIsConstrained r) &&
  is_nil (h_WIFISSID r) && is_nil (h_WIFIBSSID r) && is_nil (h_NetworkInterfaceAddress r) &&
  is_nil (h_DefaultInterfaceAddress r) && is_nil (h_DomainMatcher r) &&
  is_nil (h_SourceIPSet r) && is_nil (h_AdGuardDomain r) && is_nil (h_AdGuardDomainMatcher r).

(** [DefaultHeadlessRule.IsValid]: some field besides [Invert] is set. *)
Definition HeadlessOptions_IsValid (r : HeadlessOptions) : bool :=
  negb (headless_zero_but_ip r && is_nil (h_IPCIDR r) && is_nil (h_IPSet r)).

(** [common.All] over a predicate that may panic. *)
Fixpoint all_res {A} (f : A -> Res bool) (l : list A) : Res bool :=
  match l with
  | [] => Ok true
  | x :: rest => b ← f x; if b : bool then all_res f rest else Ok false
  end.

(** [HeadlessRule.IsValid] *)
Fixpoint HeadlessRule_IsValid (r : HeadlessRule) : Res bool :=
  match r with
  | H_Default o | H_Untyped o => Ok (HeadlessOptions_IsValid o)
  | H_Logical _ rules _ =>
      match rules with [] => Ok false | _ => all_res HeadlessRule_IsValid rules end
  | H_Unknown type => Panic ("unknown rule type: " +:+ type)
  end.

(** ** Blocks *)

Context {Action : Type}.
Implicit Types rule : abstractDefaultRule Action (Rule Action).

(** The slice of the rule an item is appended to. *)
Inductive Place := PItems | PSourceAddress | PSourcePort | PDestinationAddress
  | PDestinationIPCIDR | PDestinationPort.

(** [rule.xxxItems = append(rule.xxxItems, item)] and the same for
    [allItems]. *)
Definition push (p : Place) (it : RuleItem) rule : abstractDefaultRule Action (Rule Action) :=
  mkDefault (match p with PItems => items rule ++ [it] | _ => items rule end)
    (match p with PSourceAddress => sourceAddressItems rule ++ [it] | _ => sourceAddressItems rule end)
    (match p with PSourcePort => sourcePortItems rule ++ [it] | _ => sourcePortItems rule end)
    (match p with
     | PDestinationAddress => destinationAddressItems rule ++ [it]
     | _ => destinationAddressItems rule
     end)
    (match p with
     | PDestinationIPCIDR => destinationIPCIDRItems rule ++ [it]
     | _ => destinationIPCIDRItems rule
     end)
    (match p with
     | PDestinationPort => destinationPortItems rule ++ [it]
     | _ => destinationPortItems rule
     end)
    (allItems rule ++ [AItem it]) (ruleSetItem rule) (invert rule) (action rule).

(** One block of a constructor. *)
Definition Block : Type :=
  abstractDefaultRule Action (Rule Action) -> Res (abstractDefaultRule Action (Rule Action)).

Fixpoint chain (bs : list Block) : Block := fun rule =>
  match bs with
  | [] => Ok rule
  | b :: rest => rule' ← b rule; chain rest rule'
  end.

(** [if len(options.X) > 0 { item, err := NewX(options.X); ... append }] *)
Definition on_list {A} (s : Slice A) (p : Place) (mk : list A -> Res RuleItem) : Block := fun rule =>
  if has_elems s then it ← mk (elems s); Ok (push p it rule) else Ok rule.

(** [if options.X { append NewX() }] *)
Definition on_flag (b : bool) (p : Place) (it : RuleItem) : Block := fun rule =>
  if b then Ok (push p it rule) else Ok rule.

(** [if cond { return nil, E.New(msg) }] *)
Definition fail_if (b : bool) (msg : string) : Block := fun rule =>
  if b then Err (E_New [AStr msg]) else Ok rule.

(** [if cond { block }] *)
Definition when (b : bool) (k : Block) : Block := fun rule => if b then k rule else Ok rule.

(** The items whose constructors can fail, with the context of the error. *)
Definition domain_block (d suffix : Slice string) : Block := fun rule =>
  if has_elems d || has_elems suffix then
    item ← NewDomainItem (elems d) (elems suffix);
    Ok (push PDestinationAddress (I_Domain item) rule)
  else Ok rule.

Definition caused {A} (ctx : string) (m : Res A) : Res A := wrap_err m [AStr ctx].

Definition geo_removed : string :=
  "geoip database is deprecated in sing-box 1.8.0 and removed in sing-box 1.12.0".
Definition geosite_removed : string :=
  "geosite database is deprecated in sing-box 1.8.0 and removed in sing-box 1.12.0".

Definition empty_rule (inv : bool) (act : option Action)
  : abstractDefaultRule Action (Rule Action) :=
  mkDefault [] [] [] [] [] [] [] None inv act.

(** [if options.X != nil && options.X.Size() > 0] *)
Definition on_entries {K} (e : option (Entries K)) (p : Place) (mk : Entries K -> RuleItem)
  : Block := on_list e p (fun l => Ok (mk l)).

(** ** Headless rules *)

(** [NewDefaultHeadlessRule], lines 44 to 78: query, network and domains *)
Definition headless_domain_blocks (o : HeadlessOptions) : list Block := [
  on_list (h_QueryType o) PItems (fun l => Ok (I_QueryType (NewQueryTypeItem l)));
  on_list (h_Network o) PItems (fun l => Ok (I_Network (NewNetworkItem l)));
  (if has_elems (h_Domain o) || has_elems (h_DomainSuffix o)
   then domain_block (h_Domain o) (h_DomainSuffix o)
   else match h_DomainMatcher o with
        | Some matcher => on_flag true PDestinationAddress (I_Domain (NewRawDomainItem matcher))
        | None => fun rule => Ok rule
        end);
  on_list (h_DomainKeyword o) PDestinationAddress
    (fun l => Ok (I_DomainKeyword (NewDomainKeywordItem l)));
  on_list (h_DomainRegex o) PDestinationAddress
    (fun l => I_DomainRegex <$> caused "domain_regex" (NewDomainRegexItem l))
].

(** Lines 79 to 128: addresses and ports *)
Definition headless_address_blocks (o : HeadlessOptions) : list Block := [
  (if has_elems (h_SourceIPCIDR o)
   then on_list (h_SourceIPCIDR o) PSourceAddress
          (fun l => I_IPCIDR <$> caused "source_ip_cidr" (NewIPCIDRItem true l))
   else match h_SourceIPSet o with
        | Some s => on_flag true PSourceAddress (I_IPCIDR (NewRawIPCIDRItem true s))
        | None => fun rule => Ok rule
        end);
  (if has_elems (h_IPCIDR o)
   then on_list (h_IPCIDR o) PDestinationIPCIDR
          (fun l => I_IPCIDR <$> caused "ipcidr" (NewIPCIDRItem false l))
   else match h_IPSet o with
        | Some s => on_flag true PDestinationIPCIDR (I_IPCIDR (NewRawIPCIDRItem false s))
        | None => fun rule => Ok rule
        end);
  on_list (h_SourcePort o) PSourcePort (fun l => Ok (I_Port (NewPortItem true l)));
  on_list (h_SourcePortRange o) PSourcePort
    (fun l => I_PortRange <$> caused "source_port_range" (NewPortRangeItem true l));
  on_list (h_Port o) PDestinationPort (fun l => Ok (I_Port (NewPortItem false l)));
  on_list (h_PortRange o) PDestinationPort
    (fun l => I_PortRange <$> caused "port_range" (NewPortRangeItem false l))
].

(** Lines 129 to 159: processes *)
Definition headless_process_blocks (o : HeadlessOptions) : list Block := [
  on_list (h_ProcessName o) PItems (fun l => Ok (I_Process (NewProcessItem l)));
  on_list (h_ProcessPath o) PItems (fun l => Ok (I_ProcessPath (NewProcessPathItem l)));
  on_list (h_ProcessPathRegex o) PItems
    (fun l => I_ProcessPathRegex <$> caused "process_path_regex" (NewProcessPathRegexItem l));
  on_list (h_PackageName o) PItems (fun l => Ok (I_PackageName (NewPackageNameItem l)));
  on_list (h_PackageNameRegex o) PItems
    (fun l => I_PackageNameRegex <$> caused "package_name_regex" (NewPackageNameRegexItem l))
].

(** Lines 160 to 206: network state, when there is a network manager, and
    AdGuard domains *)
Definition headless_network_blocks (networkManager : bool) (o : HeadlessOptions) : list Block := [
  when networkManager (chain [
    on_list (h_NetworkType o) PItems (fun l => Ok (I_NetworkType (NewNetworkTypeItem l)));
    on_flag (h_NetworkIsExpensive o) PItems (I_NetworkIsExpensive NewNetworkIsExpensiveItem);
    on_flag (h_NetworkIsConstrained o) PItems
      (I_NetworkIsConstrained NewNetworkIsConstrainedItem);
    on_list (h_WIFISSID o) PItems (fun l => Ok (I_WIFISSID (NewWIFISSIDItem l)));
    on_list (h_WIFIBSSID o) PItems (fun l => Ok (I_WIFIBSSID (NewWIFIBSSIDItem l)));
    on_entries (h_NetworkInterfaceAddress o) PItems
      (fun l => I_NetworkInterfaceAddress (NewNetworkInterfaceAddressItem l));
    on_list (h_DefaultInterfaceAddress o) PItems
      (fun l => Ok (I_DefaultInterfaceAddress (NewDefaultInterfaceAddressItem l)))]);
  (if has_elems (h_AdGuardDomain o)
   then on_list (h_AdGuardDomain o) PDestinationAddress
          (fun l => Ok (I_AdGuardDomain (NewAdGuardDomainItem l)))
   else match h_AdGuardDomainMatcher o with
        | Some matcher =>
            on_flag true PDestinationAddress (I_AdGuardDomain (NewRawAdGuardDomainItem matcher))
        | None => fun rule => Ok rule
        end)
].

(** [NewDefaultHeadlessRule] *)
Definition NewDefaultHeadlessRule (networkManager : bool) (o : HeadlessOptions)
  : Res (abstractDefaultRule Action (Rule Action)) :=
  chain (headless_domain_blocks o ++ headless_address_blocks o ++ headless_process_blocks o ++
         headless_network_blocks networkManager o)
    (empty_rule (h_Invert o) None).

(** The loop that builds the rules of a list, with the context of an error. *)
Fixpoint build_rules {O R} (build : O -> Res R) (ctx : Z -> list earg) (i : Z) (opts : list O)
  : Res (list R) :=
  match opts with
  | [] => Ok []
  | o :: rest =>
      rule ← wrap_err (build o) (ctx i);
      rules ← build_rules build ctx (i + 1) rest;
      Ok (rule :: rules)
  end.

Definition sub_rule (i : Z) : list earg := [AStr "sub rule["; AInt i; AStr "]"].

(** The [switch options.Mode] of the logical constructors. *)
Definition logical_mode (mode : string) : Res string :=
  if bool_decide (mode = "and") || bool_decide (mode = "or") then Ok mode
  else Err (E_New [AStr "unknown logical mode: "; AStr mode]).

(** [NewHeadlessRule], with [NewLogicalHeadlessRule] *)
Fixpoint NewHeadlessRule (networkManager : bool) (options : HeadlessRule) : Res (Rule Action) :=
  match options with
  | H_Default o | H_Untyped o =>
      if negb (HeadlessOptions_IsValid o) then Err (E_New [AStr "missing conditions"])
      else R_DefaultHeadless <$> NewDefaultHeadlessRule networkManager o
  | H_Logical mode rules inv =>
      valid ← HeadlessRule_IsValid (H_Logical mode rules inv);
      if negb valid then Err (E_New [AStr "missing conditions"])
      else
        mode ← logical_mode mode;
        subs ← build_rules (NewHeadlessRule networkManager) sub_rule 0 rules;
        Ok (R_LogicalHeadless (mkLogical subs mode inv None))
  | H_Unknown type => Err (E_New [AStr "unknown rule type: "; AStr type])
  end.

(** ** Rule-set metadata *)

(** [HasHeadlessRule] *)
Fixpoint HasHeadlessRule_in (cond : HeadlessOptions -> bool) (r : HeadlessRule) : bool :=
  match r with
  | H_Default o => cond o
  | H_Logical _ rules _ => existsb (HasHeadlessRule_in cond) rules
  | H_Unknown _ | H_Untyped _ => false
  end.
Definition HasHeadlessRule (rules : list HeadlessRule) (cond : HeadlessOptions -> bool) : bool :=
  existsb (HasHeadlessRule_in cond) rules.

Definition isProcessHeadlessRule (r : HeadlessOptions) : bool :=
  has_elems (h_ProcessName r) || has_elems (h_ProcessPath r) || has_elems (h_ProcessPathRegex r) ||
  has_elems (h_PackageName r) || has_elems (h_PackageNameRegex r).
Definition isWIFIHeadlessRule (r : HeadlessOptions) : bool :=
  has_elems (h_WIFISSID r) || has_elems (h_WIFIBSSID r).
Definition isIPCIDRHeadlessRule (r : HeadlessOptions) : bool :=
  has_elems (h_IPCIDR r) || negb (is_nil (h_IPSet r)).
Definition isDNSQueryTypeHeadlessRule (r : HeadlessOptions) : bool := has_elems (h_QueryType r).
Definition isNonIPCIDRHeadlessRule (r : HeadlessOptions) : bool := negb (headless_zero_but_ip r).

Definition buildRuleSetMetadata (headlessRules : list HeadlessRule) : RuleSetMetadata :=
  mkRuleSetMetadata (HasHeadlessRule headlessRules isProcessHeadlessRule)
    (HasHeadlessRule headlessRules isWIFIHeadlessRule)
    (HasHeadlessRule headlessRules isIPCIDRHeadlessRule)
    (HasHeadlessRule headlessRules isDNSQueryTypeHeadlessRule)
    (HasHeadlessRule headlessRules isNonIPCIDRHeadlessRule).

(** [(s *LocalRuleSet) reloadRules]: the rules and metadata the set holds
    afterwards, and the world [w] after the registered callbacks ran on the
    updated set; on an error the set keeps its rules and no callback runs.
    [validate] is the validator of the DNS router, when there is one. *)
Definition reloadRules {W : Type} (networkManager : bool)
    (validate : string -> RuleSetMetadata -> Res unit)
    (callbacks : list (RuleSet (Rule Action) -> W -> W)) (s : RuleSet (Rule Action))
    (headlessRules : list HeadlessRule) (w : W) : Res (RuleSet (Rule Action) * W) :=
  rules ← build_rules (NewHeadlessRule networkManager)
            (fun i => [AStr "parse rule_set.rules.["; AInt i; AStr "]"]) 0 headlessRules;
  let metadata := buildRuleSetMetadata headlessRules in
  _ ← validate (rs_tag s) metadata;
  let s := mkRuleSet (rs_tag s) rules metadata in
  Ok (s, fold_left (fun w callback => callback s w) callbacks w).

(** ** Route and DNS rules *)

(** The fields route and DNS rules share ([RawDefaultRule] and
    [RawDefaultDNSRule] declare them with the same names and types). *)
Record CommonOptions := mkCommonOptions {
  o_Inbound : Slice string;
  o_IPVersion : Z;
  o_Network : Slice string;
  o_AuthUser : Slice string;
  o_Protocol : Slice string;
  o_Domain : Slice string;
  o_DomainSuffix : Slice string;
  o_DomainKeyword : Slice string;
  o_DomainRegex : Slice string;
  o_Geosite : Slice string;
  o_SourceGeoIP : Slice string;
  o_GeoIP : Slice string;
  o_SourceIPCIDR : Slice string;
  o_SourceIPIsPrivate : bool;
  o_IPCIDR : Slice string;
  o_IPIsPrivate : bool;
  o_SourcePort : Slice Z;
  o_SourcePortRange : Slice string;
  o_Port : Slice Z;
  o_PortRange : Slice string;
  o_ProcessName : Slice string;
  o_ProcessPath : Slice string;
  o_ProcessPathRegex : Slice string;
  o_PackageName : Slice string;
  o_PackageNameRegex : Slice string;
  o_User : Slice string;
  o_UserID : Slice Z;
  o_ClashMode : string;
  o_NetworkType : Slice Z;
  o_NetworkIsExpensive : bool;
  o_NetworkIsConstrained : bool;
  o_WIFISSID : Slice string;
  o_WIFIBSSID : Slice string;
  o_InterfaceAddress : option (Entries string);
  o_NetworkInterfaceAddress : option (Entries Z);
  o_DefaultInterfaceAddress : Slice (option Prefixable);
  o_SourceMACAddress : Slice string;
  o_SourceHostname : Slice string;
  o_PreferredBy : Slice string;
  o_RuleSet : Slice string;
  o_RuleSetIPCIDRMatchSource : bool;
  o_Invert : bool;
  o_Deprecated_RulesetIPCIDRMatchSource : bool
}.

(** [option.RawDefaultRule] adds the client, *)
Record RouteRuleOptions := mkRouteRuleOptions {
  rr_common : CommonOptions;
  rr_Client : Slice string
}.

(** [option.DNSRuleMatchResponse] *)
Record DNSRuleMatchResponse := mkMatchResponse { mr_Enabled : bool; mr_Tag : string }.
Definition IsEnabled (m : option DNSRuleMatchResponse) : bool :=
  match m with None => false | Some m => mr_Enabled m end.
Definition ResponseTag (m : option DNSRuleMatchResponse) : string :=
  match m with None => "" | Some m => mr_Tag m end.

(** and [option.RawDefaultDNSRule] the query and response fields. *)
Record DNSRuleOptions := mkDNSRuleOptions {
  dr_common : CommonOptions;
  dr_QueryType : Slice Z;
  dr_QueryClientSubnet : Slice (option Prefixable);
  dr_QueryDNSSEC : bool;
  dr_Outbound : Slice string;
  dr_MatchResponse : option DNSRuleMatchResponse;
  dr_IPAcceptAny : bool;
  dr_ResponseRcode : option Z;
  dr_ResponseAnswer : Slice DNSRecordOptions;
  dr_ResponseNs : Slice DNSRecordOptions;
  dr_ResponseExtra : Slice DNSRecordOptions;
  dr_RuleSetIPCIDRAcceptEmpty : bool
}.

(** The [switch options.IPVersion]. *)
Definition ip_version_block (v : Z) : Block := fun rule =>
  if 0 <? v then
    if (v =? 4) || (v =? 6)
    then Ok (push PItems (I_IPVersion (NewIPVersionItem (v =? 6))) rule)
    else Err (E_New [AStr "invalid ip version: "; AInt v])
  else Ok rule.

(** [NewDefaultRule], lines 68 to 102, and [NewDefaultDNSRule], 120 to 166 *)
Definition route_inbound_blocks (o : RouteRuleOptions) : list Block :=
  let c := rr_common o in [
  on_list (o_Inbound c) PItems (fun l => Ok (I_Inbound (NewInboundRule l)));
  ip_version_block (o_IPVersion c);
  on_list (o_Network c) PItems (fun l => Ok (I_Network (NewNetworkItem l)));
  on_list (o_AuthUser c) PItems (fun l => Ok (I_AuthUser (NewAuthUserItem l)));
  on_list (o_Protocol c) PItems (fun l => Ok (I_Protocol (NewProtocolItem l)));
  on_list (rr_Client o) PItems (fun l => Ok (I_Client (NewClientItem l)))
].
Definition dns_query_blocks (o : DNSRuleOptions) : list Block :=
  let c := dr_common o in [
  on_list (o_Inbound c) PItems (fun l => Ok (I_Inbound (NewInboundRule l)));
  ip_version_block (o_IPVersion c);
  on_list (dr_QueryType o) PItems (fun l => Ok (I_QueryType (NewQueryTypeItem l)));
  on_list (dr_QueryClientSubnet o) PItems
    (fun l => Ok (I_QueryClientSubnet (NewQueryClientSubnetItem l)));
  on_flag (dr_QueryDNSSEC o) PItems (I_QueryDNSSEC NewQueryDNSSECItem);
  on_list (o_Network c) PItems (fun l => Ok (I_Network (NewNetworkItem l)));
  on_list (o_AuthUser c) PItems (fun l => Ok (I_AuthUser (NewAuthUserItem l)));
  on_list (o_Protocol c) PItems (fun l => Ok (I_Protocol (NewProtocolItem l)))
].

(** Domains; the DNS constructor adds a context to regex errors.  The removed
    geosite and geoip fields are errors. *)
Definition domain_blocks (regex_ctx : Res DomainRegexItem -> Res DomainRegexItem)
    (c : CommonOptions) : list Block := [
  domain_block (o_Domain c) (o_DomainSuffix c);
  on_list (o_DomainKeyword c) PDestinationAddress
    (fun l => Ok (I_DomainKeyword (NewDomainKeywordItem l)));
  on_list (o_DomainRegex c) PDestinationAddress
    (fun l => I_DomainRegex <$> regex_ctx (NewDomainRegexItem l));
  fail_if (has_elems (o_Geosite c)) geosite_removed;
  fail_if (has_elems (o_SourceGeoIP c)) geo_removed;
  fail_if (has_elems (o_GeoIP c)) geo_removed
].

(** [NewDefaultRule], lines 133 to 158: addresses *)
Definition route_address_blocks (c : CommonOptions) : list Block := [
  on_list (o_SourceIPCIDR c) PSourceAddress
    (fun l => I_IPCIDR <$> caused "source_ip_cidr" (NewIPCIDRItem true l));
  on_flag (o_SourceIPIsPrivate c) PSourceAddress (I_IPIsPrivate (NewIPIsPrivateItem true));
  on_list (o_IPCIDR c) PDestinationIPCIDR
    (fun l => I_IPCIDR <$> caused "ipcidr" (NewIPCIDRItem false l));
  on_flag (o_IPIsPrivate c) PDestinationIPCIDR (I_IPIsPrivate (NewIPIsPrivateItem false))
].

(** [NewDefaultDNSRule], lines 197 to 247: addresses and responses *)
Definition dns_address_blocks (o : DNSRuleOptions) : list Block :=
  let c := dr_common o in [
  on_list (o_SourceIPCIDR c) PSourceAddress
    (fun l => I_IPCIDR <$> caused "source_ip_cidr" (NewIPCIDRItem true l));
  on_list (o_IPCIDR c) PDestinationIPCIDR
    (fun l => I_IPCIDR <$> caused "ip_cidr" (NewIPCIDRItem false l));
  on_flag (o_SourceIPIsPrivate c) PSourceAddress (I_IPIsPrivate (NewIPIsPrivateItem true));
  on_flag (o_IPIsPrivate c) PDestinationIPCIDR (I_IPIsPrivate (NewIPIsPrivateItem false));
  on_flag (dr_IPAcceptAny o) PDestinationIPCIDR (I_IPAcceptAny NewIPAcceptAnyItem);
  (match dr_ResponseRcode o with
   | Some rcode => on_flag true PItems (I_DNSResponseRCode (NewDNSResponseRCodeItem rcode))
   | None => fun rule => Ok rule
   end);
  on_list (dr_ResponseAnswer o) PItems (fun l =>
    Ok (I_DNSResponseRecord (NewDNSResponseRecordItem "response_answer" l dnsResponseAnswers)));
  on_list (dr_ResponseNs o) PItems (fun l =>
    Ok (I_DNSResponseRecord (NewDNSResponseRecordItem "response_ns" l dnsResponseNS)));
  on_list (dr_ResponseExtra o) PItems (fun l =>
    Ok (I_DNSResponseRecord (NewDNSResponseRecordItem "response_extra" l dnsResponseExtra)))
].

(** Ports and processes, as in both constructors *)
Definition port_blocks (c : CommonOptions) : list Block := [
  on_list (o_SourcePort c) PSourcePort (fun l => Ok (I_Port (NewPortItem true l)));
  on_list (o_SourcePortRange c) PSourcePort
    (fun l => I_PortRange <$> caused "source_port_range" (NewPortRangeItem true l));
  on_list (o_Port c) PDestinationPort (fun l => Ok (I_Port (NewPortItem false l)));
  on_list (o_PortRange c) PDestinationPort
    (fun l => I_PortRange <$> caused "port_range" (NewPortRangeItem false l))
].
Definition process_blocks (c : CommonOptions) : list Block := [
  on_list (o_ProcessName c) PItems (fun l => Ok (I_Process (NewProcessItem l)));
  on_list (o_ProcessPath c) PItems (fun l => Ok (I_ProcessPath (NewProcessPathItem l)));
  on_list (o_ProcessPathRegex c) PItems
    (fun l => I_ProcessPathRegex <$> caused "process_path_regex" (NewProcessPathRegexItem l));
  on_list (o_PackageName c) PItems (fun l => Ok (I_PackageName (NewPackageNameItem l)));
  on_list (o_PackageNameRegex c) PItems
    (fun l => I_PackageNameRegex <$> caused "package_name_regex" (NewPackageNameRegexItem l));
  on_list (o_User c) PItems (fun l => Ok (I_User (NewUserItem l)));
  on_list (o_UserID c) PItems (fun l => Ok (I_UserId (NewUserIDItem l)))
].

(** Clash mode and network state, as in both constructors *)
Definition network_blocks (c : CommonOptions) : list Block := [
  on_flag (negb (bool_decide (o_ClashMode c = ""))) PItems
    (I_ClashMode (NewClashModeItem (o_ClashMode c)));
  on_list (o_NetworkType c) PItems (fun l => Ok (I_NetworkType (NewNetworkTypeItem l)));
  on_flag (o_NetworkIsExpensive c) PItems (I_NetworkIsExpensive NewNetworkIsExpensiveItem);
  on_flag (o_NetworkIsConstrained c) PItems (I_NetworkIsConstrained NewNetworkIsConstrainedItem);
  on_list (o_WIFISSID c) PItems (fun l => Ok (I_WIFISSID (NewWIFISSIDItem l)));
  on_list (o_WIFIBSSID c) PItems (fun l => Ok (I_WIFIBSSID (NewWIFIBSSIDItem l)));
  on_entries (o_InterfaceAddress c) PItems
    (fun l => I_InterfaceAddress (NewInterfaceAddressItem l));
  on_entries (o_NetworkInterfaceAddress c) PItems
    (fun l => I_NetworkInterfaceAddress (NewNetworkInterfaceAddressItem l));
  on_list (o_DefaultInterfaceAddress c) PItems
    (fun l => Ok (I_DefaultInterfaceAddress (NewDefaultInterfaceAddressItem l)));
  on_list (o_SourceMACAddress c) PItems
    (fun l => Ok (I_SourceMACAddress (NewSourceMACAddressItem l)));
  on_list (o_SourceHostname c) PItems
    (fun l => Ok (I_SourceHostname (NewSourceHostnameItem l)))
].

(** [rule.ruleSetItem = item; rule.allItems = append(rule.allItems, item)] *)
Definition set_rule_set (item : RuleSetItem (Rule Action)) rule
  : abstractDefaultRule Action (Rule Action) :=
  mkDefault (items rule) (sourceAddressItems rule) (sourcePortItems rule)
    (destinationAddressItems rule) (destinationIPCIDRItems rule) (destinationPortItems rule)
    (allItems rule ++ [ARuleSet]) (Some item) (invert rule) (action rule).

Definition rule_set_block (c : CommonOptions) (acceptEmpty : bool) : Block := fun rule =>
  if has_elems (o_RuleSet c) then
    if o_Deprecated_RulesetIPCIDRMatchSource c
    then Err (E_New [AStr "rule_set_ipcidr_match_source is deprecated in sing-box 1.10.0 and removed in sing-box 1.11.0"])
    else
      Ok (set_rule_set (mkRuleSetItem (elems (o_RuleSet c)) []
                          (o_RuleSetIPCIDRMatchSource c) acceptEmpty) rule)
  else Ok rule.

(** [NewDefaultRule], after its action is built *)
Definition NewDefaultRule (o : RouteRuleOptions) (act : option Action)
  : Res (abstractDefaultRule Action (Rule Action)) :=
  let c := rr_common o in
  chain (route_inbound_blocks o ++ domain_blocks (fun m => m) c ++ route_address_blocks c ++
         port_blocks c ++ process_blocks c ++ network_blocks c ++
         [on_list (o_PreferredBy c) PItems (fun l => Ok (I_PreferredBy (NewPreferredByItem l)));
          rule_set_block c false])
    (empty_rule (o_Invert c) act).

(** [OptionRuleSetIPCIDRAcceptEmpty.MessageWithLink()] *)
Definition OptionRuleSetIPCIDRAcceptEmpty : string :=
  "Legacy `rule_set_ip_cidr_accept_empty` DNS rule item is deprecated in sing-box 1.14.0 and will be removed in sing-box 1.16.0, checkout documentation for migration: https://sing-box.sagernet.org/migration/#migrate-address-filter-fields-to-response-matching".

(** [NewDefaultDNSRule], after its action is built *)
Definition NewDefaultDNSRule (o : DNSRuleOptions) (act : option Action) (legacyDNSMode : bool)
  : Res (abstractDefaultRule Action (Rule Action)) :=
  let c := dr_common o in
  chain (dns_query_blocks o ++ domain_blocks (caused "domain_regex") c ++ dns_address_blocks o ++
         port_blocks c ++ process_blocks c ++
         [on_list (dr_Outbound o) PItems (fun l => Ok (I_Outbound (NewOutboundRule l)))] ++
         network_blocks c ++
         [on_list (o_PreferredBy c) PItems
            (fun l => Ok (I_PreferredByDNS (NewPreferredByDNSItem l)));
          fail_if (dr_RuleSetIPCIDRAcceptEmpty o && negb legacyDNSMode)
            OptionRuleSetIPCIDRAcceptEmpty;
          rule_set_block c (dr_RuleSetIPCIDRAcceptEmpty o)])
    (empty_rule (o_Invert c) act).

(** ** Reasoning about blocks *)

Definition preserves (Q : abstractDefaultRule Action (Rule Action) -> Prop) (b : Block) : Prop :=
  forall rule rule', Q rule -> b rule = Ok rule' -> Q rule'.

Lemma chain_preserves Q bs : Forall (preserves Q) bs -> preserves Q (chain bs).
Proof.
  induction 1 as [|b bs Hb _ IH]; intros rule rule' HQ; simpl.
  - by intros [= <-].
  - destruct (b rule) as [rule1|e|msg] eqn:E; simpl; try done. apply IH. by eapply Hb.
Qed.

Lemma on_list_preserves {A} (Q : _ -> Prop) (s : Slice A) p mk :
  (has_elems s = true -> forall l it rule, mk l = Ok it -> Q rule -> Q (push p it rule)) ->
  preserves Q (on_list s p mk).
Proof.
  intros H rule rule' HQ. unfold on_list. destruct (has_elems s) eqn:Hs; [|by intros [= <-]].
  destruct (mk (elems s)) as [it|e|msg] eqn:E; simpl; try done. intros [= <-]. by eapply H.
Qed.

Lemma on_flag_preserves (Q : _ -> Prop) b p it :
  (b = true -> forall rule, Q rule -> Q (push p it rule)) -> preserves Q (on_flag b p it).
Proof. intros H rule rule' HQ. unfold on_flag. destruct b; intros [= <-]; auto. Qed.

Lemma fail_if_preserves Q b msg : preserves Q (fail_if b msg).
Proof. intros rule rule' HQ. unfold fail_if. by destruct b; intros [= <-]. Qed.

Lemma ret_preserves Q : preserves Q (fun rule => Ok rule).
Proof. by intros rule rule' HQ [= <-]. Qed.

Lemma when_preserves Q b k : preserves Q k -> preserves Q (when b k).
Proof. intros H rule rule' HQ. unfold when. destruct b; [by apply H|by intros [= <-]]. Qed.

Lemma domain_block_preserves (Q : _ -> Prop) d suffix :
  (has_elems d || has_elems suffix = true ->
   forall item rule, Q rule -> Q (push PDestinationAddress (I_Domain item) rule)) ->
  preserves Q (domain_block d suffix).
Proof.
  intros H rule rule' HQ. unfold domain_block. destruct (_ || _) eqn:Hs; [|by intros [= <-]].
  destruct (NewDomainItem _ _) as [it|e|msg]; simpl; try done. intros [= <-]. auto.
Qed.

Lemma ip_version_preserves (Q : _ -> Prop) v :
  (forall item rule, Q rule -> Q (push PItems (I_IPVersion item) rule)) ->
  preserves Q (ip_version_block v).
Proof.
  intros H rule rule' HQ. unfold ip_version_block.
  destruct (0 <? v); [|by intros [= <-]]. destruct (_ || _); [|done]. intros [= <-]. auto.
Qed.

Lemma rule_set_preserves (Q : _ -> Prop) c ae :
  (forall tags ms rule, Q rule -> Q (set_rule_set (mkRuleSetItem tags [] ms ae) rule)) ->
  preserves Q (rule_set_block c ae).
Proof.
  intros H rule rule' HQ. unfold rule_set_block.
  destruct (has_elems _); [|by intros [= <-]].
  destruct (o_Deprecated_RulesetIPCIDRMatchSource c); [done|]. intros [= <-]. auto.
Qed.

Lemma if_preserves Q (b : bool) k k' :
  (b = true -> preserves Q k) -> (b = false -> preserves Q k') ->
  preserves Q (if b then k else k').
Proof. destruct b; auto. Qed.

(** Preservation by every block of a constructor, down to one obligation per
    [push]. *)
Ltac blocks :=
  repeat first
    [ apply Forall_nil; done
    | apply Forall_cons; split
    | apply Forall_cons
    | apply Forall_app; split
    | apply fail_if_preserves
    | apply ret_preserves
    | apply when_preserves, chain_preserves
    | apply if_preserves; intros ?
    | apply domain_block_preserves
    | apply ip_version_preserves
    | apply rule_set_preserves
    | apply on_flag_preserves
    | apply on_list_preserves
    | match goal with |- preserves _ (match ?o with Some _ => _ | None => _ end) => destruct o eqn:? end ].

(** The kind of an item built by a fallible constructor. *)
Lemma fmap_ok {A B} (f : A -> B) (m : Res A) b : f <$> m = Ok b -> exists a, m = Ok a /\ f a = b.
Proof. destruct m; simpl; try done. intros [= <-]. eauto. Qed.

Lemma caused_ok {A} ctx (m : Res A) a : caused ctx m = Ok a -> m = Ok a.
Proof. by destruct m. Qed.

(** ** [allItems] lists the items of the groups *)

Definition grouped rule : list RuleItem :=
  items rule ++ sourceAddressItems rule ++ sourcePortItems rule ++
  destinationAddressItems rule ++ destinationIPCIDRItems rule ++ destinationPortItems rule.

Definition listed rule : Prop :=
  (forall it, AItem it ∈ allItems rule <-> it ∈ grouped rule) /\
  (ARuleSet ∈ allItems rule <-> ruleSetItem rule <> None).

Lemma empty_listed inv act : listed (empty_rule inv act).
Proof. split; simpl; [set_solver|]. split; [set_solver|done]. Qed.

Lemma push_listed p it rule : listed rule -> listed (push p it rule).
Proof.
  intros [H1 H2]. split.
  - intros it'. unfold grouped in *. specialize (H1 it').
    destruct p; simpl; rewrite ?elem_of_app, ?list_elem_of_singleton in *; rewrite H1; naive_solver.
  - simpl. rewrite elem_of_app, list_elem_of_singleton. rewrite H2. naive_solver.
Qed.

Lemma set_rule_set_listed item rule : listed rule -> listed (set_rule_set item rule).
Proof.
  intros [H1 H2]. split.
  - intros it. simpl. rewrite elem_of_app, list_elem_of_singleton. rewrite H1. naive_solver.
  - simpl. rewrite elem_of_app, list_elem_of_singleton. naive_solver.
Qed.
Hint Resolve push_listed set_rule_set_listed : go.

Lemma headless_listed nm o rule : NewDefaultHeadlessRule nm o = Ok rule -> listed rule.
Proof. apply chain_preserves; [|apply empty_listed]. blocks; auto with go. Qed.

Lemma route_listed o act rule : NewDefaultRule o act = Ok rule -> listed rule.
Proof. apply chain_preserves; [|apply empty_listed]. blocks; auto with go. Qed.

Lemma dns_listed o act legacy rule : NewDefaultDNSRule o act legacy = Ok rule -> listed rule.
Proof. apply chain_preserves; [|apply empty_listed]. blocks; auto with go. Qed.

(** Well-formedness of built rules.  In every rule the three constructors
    build, [allItems] holds exactly the items of the six groups and the
    rule-set item; in particular the test [len(allItems) == 0] of [Match]
    succeeds exactly for rules without conditions. *)
Theorem built_rules_listed nm h o d act legacy :
  (forall rule, NewDefaultHeadlessRule nm h = Ok rule \/ NewDefaultRule o act = Ok rule \/
                NewDefaultDNSRule d act legacy = Ok rule ->
    listed rule /\
    (allItems rule = [] <-> grouped rule = [] /\ ruleSetItem rule = None)).
Proof.
  intros rule Hr. assert (Hl : listed rule).
  { destruct Hr as [Hr|[Hr|Hr]]; eauto using headless_listed, route_listed, dns_listed. }
  split; [done|]. destruct Hl as [H1 H2]. split.
  - intros He. rewrite He in *. split.
    + apply elem_of_nil_inv. intros it. rewrite <- H1. apply not_elem_of_nil.
    + destruct (ruleSetItem rule); [|done]. exfalso. apply (not_elem_of_nil ARuleSet). by apply H2.
  - intros [Hg Hs]. apply elem_of_nil_inv. intros [it|].
    + rewrite H1, Hg. apply not_elem_of_nil.
    + rewrite H2. intros Hc. by apply Hc.
Qed.

(** ** Placement of items *)

Lemma NewIPCIDRItem_source b l x : NewIPCIDRItem b l = Ok x -> ic_isSource x = b.
Proof.
  unfold NewIPCIDRItem. destruct (add_prefixes _ _ _); simpl; try done.
  destruct (IPSetBuilder_IPSet _); simpl; try done. by intros [= <-].
Qed.

(** Everything but destination CIDRs is independent of the response, and so
    are the other fields unless the rule has response conditions. *)
Definition placed (resp : bool) rule : Prop :=
  Forall (fun it => response_free it = true)
    (sourceAddressItems rule ++ sourcePortItems rule ++ destinationAddressItems rule ++
     destinationPortItems rule ++ (if resp then [] else items rule)).

Lemma push_placed resp p it rule :
  p = PDestinationIPCIDR \/ response_free it = true \/ (p = PItems /\ resp = true) ->
  placed resp rule -> placed resp (push p it rule).
Proof.
  unfold placed. intros H. rewrite !Forall_app. intros (H1 & H2 & H3 & H4 & H5).
  destruct p; simpl; rewrite ?Forall_app, ?Forall_singleton; destruct resp; simpl;
    rewrite ?Forall_app, ?Forall_singleton; repeat split; try done; naive_solver.
Qed.
Lemma set_rule_set_placed resp item rule : placed resp rule -> placed resp (set_rule_set item rule).
Proof. done. Qed.

(** Discharge the placement of one item from the form of its constructor. *)
Ltac place :=
  intros;
  repeat match goal with
  | H : Ok _ = Ok _ |- _ => injection H as <-
  | H : _ <$> _ = Ok _ |- _ => apply fmap_ok in H as (? & ? & <-)
  | H : caused _ _ = Ok _ |- _ => apply caused_ok in H
  | H : NewIPCIDRItem _ _ = Ok _ |- _ => apply NewIPCIDRItem_source in H
  end;
  first [apply set_rule_set_placed; assumption
        |apply push_placed; [|assumption]; simpl; unfold response_free; simpl;
         repeat match goal with H : ic_isSource _ = _ |- _ => rewrite H end; auto].

Lemma headless_placed nm o rule : NewDefaultHeadlessRule nm o = Ok rule -> placed false rule.
Proof. apply chain_preserves; [|constructor]. blocks; place. Qed.

(** A DNS rule has response conditions. *)
Definition has_response_fields (o : DNSRuleOptions) : bool :=
  negb (is_nil (dr_ResponseRcode o)) || has_elems (dr_ResponseAnswer o) ||
  has_elems (dr_ResponseNs o) || has_elems (dr_ResponseExtra o).

Lemma dns_placed o act legacy rule :
  NewDefaultDNSRule o act legacy = Ok rule -> placed (has_response_fields o) rule.
Proof.
  apply chain_preserves; [|destruct (has_response_fields o); constructor].
  unfold has_response_fields. blocks; place.
  all: right; right; split; [done|].
  all: repeat match goal with H : _ = true |- _ => rewrite H | H : _ = Some _ |- _ => rewrite H end.
  all: simpl; rewrite ?orb_true_r; done.
Qed.

Definition has_domain_fields (c : CommonOptions) : bool :=
  has_elems (o_Domain c) || has_elems (o_DomainSuffix c) || has_elems (o_DomainKeyword c) ||
  has_elems (o_DomainRegex c).

Definition has_address_fields (o : DNSRuleOptions) : bool :=
  has_elems (o_IPCIDR (dr_common o)) || o_IPIsPrivate (dr_common o) || dr_IPAcceptAny o.

Lemma dns_no_domain o act legacy rule :
  NewDefaultDNSRule o act legacy = Ok rule -> has_domain_fields (dr_common o) = false ->
  destinationAddressItems rule = [].
Proof.
  intros Hr Hf. revert Hr. unfold has_domain_fields in Hf.
  apply (chain_preserves (fun rule => destinationAddressItems rule = [])); [|done].
  blocks; intros; try done; simpl in *; try assumption; exfalso;
    repeat match goal with
    | H : _ || _ = true |- _ => apply orb_true_iff in H as [H|H]
    end;
    repeat match goal with E : has_elems _ = true |- _ => rewrite E in Hf; clear E end;
    rewrite ?orb_true_r in Hf; done.
Qed.

Lemma dns_no_address o act legacy rule :
  NewDefaultDNSRule o act legacy = Ok rule -> has_address_fields o = false ->
  destinationIPCIDRItems rule = [].
Proof.
  intros Hr Hf. revert Hr. unfold has_address_fields in Hf.
  apply (chain_preserves (fun rule => destinationIPCIDRItems rule = [])); [|done].
  blocks; intros; try done; simpl in *; try assumption; exfalso;
    repeat match goal with E : _ = true |- _ => rewrite E in Hf; clear E end;
    rewrite ?orb_true_r in Hf; done.
Qed.

(** What a configured DNS rule must satisfy for a sound pre-match.  A rule
    built from options without response conditions that names domains or
    destination addresses, but not both, is unmixed. *)
Theorem dns_rule_options_unmixed o act legacy rule :
  NewDefaultDNSRule o act legacy = Ok rule ->
  has_response_fields o = false ->
  has_domain_fields (dr_common o) && has_address_fields o = false ->
  own_unmixed false rule = true.
Proof.
  intros Hr Hresp Hmix. pose proof (dns_placed _ _ _ _ Hr) as Hp. rewrite Hresp in Hp.
  unfold placed in Hp. rewrite !Forall_app in Hp. destruct Hp as (H1 & H2 & H3 & H4 & H5).
  unfold own_unmixed. rewrite !andb_true_iff, !forallb_Forall'. repeat split; try done.
  apply andb_false_iff in Hmix as [Hm|Hm].
  - by rewrite (dns_no_domain _ _ _ _ Hr Hm).
  - rewrite (dns_no_address _ _ _ _ Hr Hm). by rewrite andb_false_r.
Qed.
(** ** The metadata of a rule-set is truthful *)

Lemma chain_app bs bs' rule :
  chain (bs ++ bs') rule = (rule' ← chain bs rule; chain bs' rule').
Proof.
  revert rule; induction bs as [|b bs IH]; intros rule; simpl; [done|].
  by destruct (b rule); simpl.
Qed.

Lemma chain_app_ok bs bs' rule rule' :
  chain (bs ++ bs') rule = Ok rule' ->
  exists rule1, chain bs rule = Ok rule1 /\ chain bs' rule1 = Ok rule'.
Proof. rewrite chain_app. destruct (chain bs rule); simpl; try done. eauto. Qed.

Definition ip_is (v : bool) rule : Prop := nonempty (destinationIPCIDRItems rule) = v.

(** The second block of the address group is the only one on destination
    CIDRs. *)
Lemma headless_ip_before o v :
  Forall (preserves (ip_is v)) (headless_domain_blocks o ++ take 1 (headless_address_blocks o)).
Proof. blocks; done. Qed.

Lemma headless_ip_after nm o v :
  Forall (preserves (ip_is v)) (drop 2 (headless_address_blocks o) ++ headless_process_blocks o ++
                                headless_network_blocks nm o).
Proof. blocks; done. Qed.

Lemma headless_blocks_split nm o :
  headless_domain_blocks o ++ headless_address_blocks o ++ headless_process_blocks o ++
    headless_network_blocks nm o =
  (headless_domain_blocks o ++ take 1 (headless_address_blocks o)) ++
  (take 1 (drop 1 (headless_address_blocks o)) ++
   (drop 2 (headless_address_blocks o) ++ headless_process_blocks o ++
    headless_network_blocks nm o)).
Proof. by rewrite <- app_assoc. Qed.

Lemma nonempty_push_ip it rule : ip_is true (push PDestinationIPCIDR it rule).
Proof. unfold ip_is. simpl. rewrite nonempty_app. apply orb_true_r. Qed.

Lemma headless_ip nm o rule :
  NewDefaultHeadlessRule nm o = Ok rule ->
  nonempty (destinationIPCIDRItems rule) = isIPCIDRHeadlessRule o.
Proof.
  unfold NewDefaultHeadlessRule. rewrite headless_blocks_split. intros Hr.
  apply chain_app_ok in Hr as (r1 & H1 & Hr). apply chain_app_ok in Hr as (r2 & H2 & H3).
  apply (chain_preserves _ _ (headless_ip_before o false)) in H1; [|done].
  eapply (chain_preserves _ _ (headless_ip_after nm o _)); [|exact H3].
  clear H3. simpl in H2. unfold isIPCIDRHeadlessRule.
  destruct (has_elems (h_IPCIDR o)) eqn:He; simpl.
  - unfold on_list in H2. rewrite He in H2. destruct (I_IPCIDR <$> _); simpl in H2; try done.
    injection H2 as <-. apply nonempty_push_ip.
  - destruct (h_IPSet o); simpl in H2; injection H2 as <-; [apply nonempty_push_ip|exact H1].
Qed.

Lemma headless_no_set nm o rule : NewDefaultHeadlessRule nm o = Ok rule -> ruleSetItem rule = None.
Proof.
  apply (chain_preserves (fun rule => ruleSetItem rule = None)); [|done]. blocks; done.
Qed.

(** Blocks leave the action alone. *)
Lemma route_action o act rule : NewDefaultRule o act = Ok rule -> action rule = act.
Proof. apply (chain_preserves (fun rule => action rule = act)); [|done]. blocks; done. Qed.

Lemma dns_action o act legacy rule : NewDefaultDNSRule o act legacy = Ok rule -> action rule = act.
Proof. apply (chain_preserves (fun rule => action rule = act)); [|done]. blocks; done. Qed.

Lemma HeadlessRule_nested_ind (P : HeadlessRule -> Prop) :
  (forall o, P (H_Default o)) ->
  (forall mode rules inv, Forall P rules -> P (H_Logical mode rules inv)) ->
  (forall t, P (H_Unknown t)) -> (forall o, P (H_Untyped o)) -> forall h, P h.
Proof.
  intros HD HL HU HT. fix IH 1. intros [o|mode rules inv|t|o]; [apply HD| |apply HU|apply HT].
  apply HL. induction rules as [|r rules IHr]; constructor; [apply IH|exact IHr].
Qed.

Lemma build_rules_Forall2 {O R} (build : O -> Res R) ctx i opts rules :
  build_rules build ctx i opts = Ok rules -> Forall2 (fun o r => build o = Ok r) opts rules.
Proof.
  revert i rules; induction opts as [|o opts IH]; intros i rules; simpl.
  - intros [= <-]. constructor.
  - destruct (build o) eqn:E; simpl; try done.
    destruct (build_rules build ctx (i + 1) opts) eqn:E'; simpl; try done.
    intros [= <-]. constructor; eauto.
Qed.

Lemma Forall2_existsb {A B} (f : A -> bool) (g : B -> bool) l l' :
  Forall2 (fun a b => f a = g b) l l' -> existsb f l = existsb g l'.
Proof. induction 1 as [|a b l l' H _ IH]; simpl; [done|]. by rewrite H, IH. Qed.

Arguments NewDefaultHeadlessRule : simpl never.
Arguments HeadlessOptions_IsValid : simpl never.
Arguments isIPCIDRHeadlessRule : simpl never.

(** Whether a default rule in [rule], at any depth, has destination CIDRs. *)
Fixpoint has_cidrs (rule : Rule Action) : bool :=
  match rule with
  | R_Default r | R_DefaultHeadless r | R_DefaultDNS r _ _ _ => nonempty (destinationIPCIDRItems r)
  | R_Logical r | R_LogicalHeadless r | R_LogicalDNS r _ _ _ => existsb has_cidrs (l_rules r)
  end.

(** The rules that are built from headless options: no references to rule-sets. *)
Inductive headless_built : Rule Action -> Prop :=
  | built_default r : ruleSetItem r = None -> headless_built (R_DefaultHeadless r)
  | built_logical r : Forall headless_built (l_rules r) -> headless_built (R_LogicalHeadless r).

(** A built headless rule has CIDRs exactly when its options name them. *)
Lemma headless_has_cidrs nm h (built : Rule Action) :
  typed h = true -> NewHeadlessRule nm h = Ok built ->
  HasHeadlessRule_in isIPCIDRHeadlessRule h = has_cidrs built /\ may_defer false built = has_cidrs built.
Proof.
  revert built. induction h as [o|mode rules inv IH|t|o] using HeadlessRule_nested_ind;
    intros built Ht; cbn [NewHeadlessRule HasHeadlessRule_in]; [| |done..].
  - destruct (HeadlessOptions_IsValid o); cbn [negb]; [|done].
    intros (r & Hr & <-)%fmap_ok. cbn [may_defer has_cidrs]. unfold default_may_defer, own.
    rewrite (headless_no_set _ _ _ Hr), (headless_ip _ _ _ Hr). by rewrite orb_false_r.
  - destruct (HeadlessRule_IsValid _) as [valid|e|msg]; cbn [mbind res_bind]; try done.
    destruct valid; cbn [negb]; [|done].
    destruct (logical_mode mode) as [mode'|e|msg]; cbn [mbind res_bind]; try done.
    destruct (build_rules _ _ _ rules) as [subs|e|msg] eqn:Hb; cbn [mbind res_bind]; try done.
    intros [= <-]. cbn [may_defer has_cidrs l_rules]. apply build_rules_Forall2 in Hb.
    cbn [typed] in Ht. rewrite forallb_forall in Ht.
    assert (H : Forall2 (fun h r => HasHeadlessRule_in isIPCIDRHeadlessRule h = has_cidrs r /\
                  may_defer false r = has_cidrs r) rules subs).
    { clear -IH Hb Ht. induction Hb as [|h r rules subs Hr _ IHb]; constructor.
      - apply (List.Forall_inv IH); [apply Ht; by left|done].
      - apply IHb; [by apply List.Forall_inv_tail in IH|]. intros x Hx. apply Ht. by right. }
    clear -H. induction H as [|h r rules subs [H1 H2] _ [IH1 IH2]]; [done|]. cbn. by rewrite H1, H2, IH1, IH2.
Qed.

Lemma headless_built_ok nm h (built : Rule Action) : NewHeadlessRule nm h = Ok built -> headless_built built.
Proof.
  revert built. induction h as [o|mode rules inv IH|t|o] using HeadlessRule_nested_ind;
    intros built; cbn [NewHeadlessRule]; [| |done|].
  - destruct (HeadlessOptions_IsValid o); cbn [negb]; [|done].
    intros (r & Hr & <-)%fmap_ok. constructor. by eapply headless_no_set.
  - destruct (HeadlessRule_IsValid _) as [valid|e|msg]; cbn [mbind res_bind]; try done.
    destruct valid; cbn [negb]; [|done].
    destruct (logical_mode mode) as [mode'|e|msg]; cbn [mbind res_bind]; try done.
    destruct (build_rules _ _ _ rules) as [subs|e|msg] eqn:Hb; cbn [mbind res_bind]; try done.
    intros [= <-]. constructor. cbn [l_rules]. apply build_rules_Forall2 in Hb. clear -IH Hb.
    induction Hb as [|h r rules subs Hr _ IHb]; constructor; [by apply (List.Forall_inv IH)|].
    apply IHb. by apply List.Forall_inv_tail in IH.
  - destruct (HeadlessOptions_IsValid o); cbn [negb]; [|done].
    intros (r & Hr & <-)%fmap_ok. constructor. by eapply headless_no_set.
Qed.

(** ** Rules without CIDRs leave nothing open *)

Definition nothing_open (m : InboundContext) : Prop := DeferredIPCIDRMatchGroups m = 0.

Lemma default_nothing_open env (r : abstractDefaultRule Action (Rule Action)) m :
  ruleSetItem r = None -> nonempty (destinationIPCIDRItems r) = false -> nothing_open m ->
  nothing_open (abstractDefaultRule_Match env (Rule_Match env) asDefaultHeadless r m).2.
Proof.
  intros Hs Hc Hm. unfold abstractDefaultRule_Match, matchInner, evaluateGroups. destruct (_ =? 0); [done|].
  assert (Hz : (0 <? Z.of_nat (length (destinationIPCIDRItems r))) = false) by (by destruct (destinationIPCIDRItems r)).
  rewrite Hz, !andb_false_r. cbn [andb].
  match goal with |- context [matchItems env r m] => destruct (matchItems env r m) end; cbn [negb].
  - rewrite Hs. match goal with |- context [done ?g] => destruct (done g) end.
    + assert (Hd : forall x, nothing_open (set_Deferred m (andnot (DeferredIPCIDRMatchGroups m) x))).
      { intros x. unfold nothing_open in *. rewrite Hm, andnot_0_l. by destruct m as [? ? ? ? [] []]. }
      destruct (invert r); apply Hd.
    + destruct (invert r); [|done]. by destruct m as [? ? ? ? [] []].
  - destruct (invert r); [|done]. by destruct m as [? ? ? ? [] []].
Qed.

Lemma loops_nothing_open env (rules : list (Rule Action)) m :
  Forall (fun x : Rule Action => forall m, nothing_open m -> nothing_open (Rule_Match env x m).2) rules ->
  (and_loop (Rule_Match env) rules m 0).2 = 0 /\ forall matched, (or_loop (Rule_Match env) rules m matched 0).2 = 0.
Proof.
  assert (Hreset : nothing_open (ResetRuleCache m)) by (by destruct m as [? ? ? ? [] []]).
  induction 1 as [|rule rules Hr _ [IH1 IH2]]; [done|]. cbn [and_loop or_loop].
  specialize (Hr _ Hreset). unfold nothing_open in Hr. destruct (Rule_Match env rule (ResetRuleCache m)) as [hit nested]. cbn in Hr.
  rewrite Hr. destruct hit; cbn [negb Z.lor Z.eqb]; [by split|by split].
Qed.

Lemma built_nothing_open env (rule : Rule Action) m :
  headless_built rule -> has_cidrs rule = false -> nothing_open m -> nothing_open (Rule_Match env rule m).2.
Proof.
  revert rule m. fix IH 3. intros rule m H. destruct H as [r Hs|r Hr]; intros Hc Hm; cbn [Rule_Match has_cidrs] in *.
  - by apply default_nothing_open.
  - assert (Hall : Forall (fun x : Rule Action => forall m, nothing_open m -> nothing_open (Rule_Match env x m).2) (l_rules r)).
    { revert Hc. induction Hr as [|x l Hx _ IHl]; [by constructor|]. cbn [existsb]. intros [Hcx Hcl]%orb_false_iff.
      constructor; [|by apply IHl]. intros m'. by apply IH. }
    clear IH. destruct (loops_nothing_open env (l_rules r) m Hall) as [Ha Ho]. specialize (Ho false).
    unfold abstractLogicalRule_Match.
    destruct (if bool_decide _ then _ else _) as [matched d] eqn:E.
    assert (d = 0) as -> by (destruct (bool_decide _); by rewrite E in Ha || rewrite E in Ho).
    assert (Hd : nothing_open (if matched then set_Deferred m (Z.lor (DeferredIPCIDRMatchGroups m) 0) else m)).
    { destruct matched; [|done]. unfold nothing_open in *. rewrite Hm. by destruct m as [? ? ? ? [] []]. }
    by destruct (l_invert r).
Qed.

(** C40: reloading a rule-set from decoded options gives truthful metadata.  The
    flag [ContainsIPCIDRRule], on which the DNS router bases the address limit
    of the rules that refer to the set, holds exactly when a rule of the set, at
    any depth, has destination CIDRs.  When it does not hold, matching a rule of
    the set never leaves a decision to the response, and without source matching
    the set satisfies the premise of [no_address_limit_decides].  (The flag is not
    sharp: a rule with domains beside its CIDRs sets it and never defers.) *)
Theorem reload_metadata_truthful {W} nm validate callbacks s headlessRules (w : W) s' w' tags accept :
  Forall (fun h => typed h = true) headlessRules ->
  reloadRules nm validate callbacks s headlessRules w = Ok (s', w') ->
  ContainsIPCIDRRule (rs_metadata s') = existsb has_cidrs (rs_rules s') /\
  (ContainsIPCIDRRule (rs_metadata s') = false -> forall env (rule : Rule Action) m, rule ∈ rs_rules s' ->
     DeferredIPCIDRMatchGroups m = 0 -> DeferredIPCIDRMatchGroups (Rule_Match env rule m).2 = 0) /\
  set_truthful (mkRuleSetItem tags [s'] false accept) s' = true.
Proof.
  intros Ht. unfold reloadRules. destruct (build_rules _ _ _ _) as [rules|e|msg] eqn:Hb; simpl; try done.
  destruct (validate _ _); simpl; try done. intros [= <- <-]. apply build_rules_Forall2 in Hb.
  assert (Heq : HasHeadlessRule headlessRules isIPCIDRHeadlessRule = existsb has_cidrs rules /\
                existsb (may_defer false) rules = existsb has_cidrs rules).
  { clear -Hb Ht. induction Hb as [|h r hs rs Hr _ IH]; [done|]. apply Forall_cons_iff in Ht as [Hh Ht].
    destruct (headless_has_cidrs nm h r Hh Hr) as [H1 H2], (IH Ht) as [H3 H4]. cbn. by rewrite H1, H2, H4, <-H3. }
  destruct Heq as [Hflag Hdefer]. cbn [rs_metadata rs_rules buildRuleSetMetadata ContainsIPCIDRRule]. split_and!; [done| |].
  - intros Hf env rule m Hin Hm. rewrite Hflag in Hf.
    apply list_elem_of_lookup in Hin as [i Hi]. destruct (Forall2_lookup_r _ _ _ _ _ Hb Hi) as (h & _ & Hh).
    apply built_nothing_open; [by eapply headless_built_ok| |done].
    destruct (has_cidrs rule) eqn:E; [|done]. rewrite <-Hf. symmetry. apply existsb_exists.
    exists rule. split; [|done]. apply list_elem_of_In. by eapply list_elem_of_lookup_2.
  - unfold set_truthful. cbn [ipCidrMatchSource rs_metadata rs_rules buildRuleSetMetadata ContainsIPCIDRRule].
    rewrite Hflag, Hdefer. by destruct (existsb has_cidrs rules).
Qed.
End Build.

(** The same tactic for the files that build on this one. *)
Ltac blocks :=
  repeat first
    [ apply Forall_nil; done
    | apply Forall_cons; split
    | apply Forall_cons
    | apply Forall_app; split
    | apply fail_if_preserves
    | apply ret_preserves
    | apply when_preserves, chain_preserves
    | apply if_preserves; intros ?
    | apply domain_block_preserves
    | apply ip_version_preserves
    | apply rule_set_preserves
    | apply on_flag_preserves
    | apply on_list_preserves
    | match goal with |- preserves _ (match ?o with Some _ => _ | None => _ end) => destruct o eqn:? end ].
