(* ===== verification/RuleDispatch.v ===== *)
(** * Route and DNS rules from their options

    [NewRule] and [NewLogicalRule] ([rule_default.go]), [NewDNSRule] and
    [NewLogicalDNSRule] ([rule_dns.go]), the validity of options
    ([option/rule.go], [option/rule_dns.go]) and the check that nested rules
    carry no action ([rule_nested_action.go]).

    Decoding replaces an empty type by "default", so a rule's options are a
    default, a logical, or an unknown rule. *)

From stdpp Require Import base numbers list strings gmap option.
From Stdlib Require Import ZArith Lia.
From S2P Require Import Prelude NetAddr Metadata RuleItems RuleAction RuleCore RuleSpec RulePreMatch RuleBuild.

Local Open Scope Z_scope.
Local Set Warnings "-register-all".

Section Dispatch.
Context {SH : SliceHelpers} {GS : GoStd} {TP : ThirdParty} {DF : DialerFactory}.

(** ** Options *)

(** [option.Rule] *)
Inductive RouteRule :=
  | RouteDefault (o : RouteRuleOptions) (a : RuleActionOptions)
  | RouteLogical (mode : string) (rules : list RouteRule) (inv : bool) (a : RuleActionOptions)
  | RouteUnknown (type : string).

(** [option.DNSRule] *)
Inductive DNSRule :=
  | DNSDefault (o : DNSRuleOptions) (a : DNSRuleActionOptions)
  | DNSLogical (mode : string) (rules : list DNSRule) (inv : bool) (a : DNSRuleActionOptions)
  | DNSUnknown (type : string).

(** [reflect.DeepEqual(x, T{})] for the structs of actions and rules. *)
Definition RawRouteOptions_IsZero (o : RawRouteOptions) : bool :=
  bool_decide (o_OverrideAddress o = "") && (o_OverridePort o =? 0) && is_nil (o_NetworkStrategy o) &&
  (o_FallbackDelay o =? 0) && negb (o_UDPDisableDomainUnmapping o) && negb (o_UDPConnect o) &&
  (o_UDPTimeout o =? 0) && negb (o_TLSFragment o) && (o_TLSFragmentFallbackDelay o =? 0) &&
  negb (o_TLSRecordFragment o) && bool_decide (o_TLSSpoof o = "") && bool_decide (o_TLSSpoofMethod o = "").
Definition RejectActionOptions_IsZero (o : RejectActionOptions) : bool :=
  bool_decide (ro_Method o = "") && negb (ro_NoDrop o).
Definition ResolveOptions_IsZero (o : ResolveOptions) : bool :=
  bool_decide (rs_Server o = "") && (rs_Timeout o =? 0) && (rs_Strategy o =? 0) &&
  negb (rs_DisableCache o) && negb (rs_DisableOptimisticCache o) && is_nil (rs_RewriteTTL o) &&
  is_nil (rs_ClientSubnet o).
Definition RuleActionOptions_IsZero (a : RuleActionOptions) : bool :=
  bool_decide (a_Action a = "") && bool_decide (a_RouteOutbound a = "") &&
  RawRouteOptions_IsZero (a_RouteOptions a) && RawRouteOptions_IsZero (a_RouteOptionsOptions a) &&
  DialerOptions_IsZero (a_DirectOptions a) && bool_decide (a_BypassOutbound a = "") &&
  RawRouteOptions_IsZero (a_BypassOptions a) && RejectActionOptions_IsZero (a_RejectOptions a) &&
  is_nil (a_SniffNames a) && (a_SniffTimeout a =? 0) && ResolveOptions_IsZero (a_ResolveOptions a).

Definition AbstractDNSRouteOptions_IsZero (o : AbstractDNSRouteOptions) : bool :=
  (d_Timeout o =? 0) && (d_Strategy o =? 0) && negb (d_DisableCache o) &&
  negb (d_DisableOptimisticCache o) && is_nil (d_RewriteTTL o) && is_nil (d_ClientSubnet o) &&
  negb (d_RemoveClientSubnet o).
Definition DNSRuleActionOptions_IsZero (a : DNSRuleActionOptions) : bool :=
  bool_decide (da_Action a = "") && negb (da_Race a) && bool_decide (da_RouteServer a = "") &&
  negb (da_RouteSpeculative a) && negb (da_RouteFallback a) &&
  AbstractDNSRouteOptions_IsZero (da_RouteOptions a) && bool_decide (da_EvaluateServer a = "") &&
  bool_decide (da_EvaluateTag a = "") && negb (da_EvaluateSpeculative a) &&
  AbstractDNSRouteOptions_IsZero (da_EvaluateOptions a) &&
  AbstractDNSRouteOptions_IsZero (da_RouteOptionsOptions a) &&
  RejectActionOptions_IsZero (da_RejectOptions a) && is_nil (da_Rcode a) &&
  bool_decide (da_Answer a = []) && bool_decide (da_Ns a = []) && bool_decide (da_Extra a = []).

(** The fields both rule types have, but [Invert]. *)
Definition CommonOptions_IsZero (c : CommonOptions) : bool :=
  is_nil (o_Inbound c) && (o_IPVersion c =? 0) && is_nil (o_Network c) && is_nil (o_AuthUser c) &&
  is_nil (o_Protocol c) && is_nil (o_Domain c) && is_nil (o_DomainSuffix c) &&
  is_nil (o_DomainKeyword c) && is_nil (o_DomainRegex c) && is_nil (o_Geosite c) &&
  is_nil (o_SourceGeoIP c) && is_nil (o_GeoIP c) && is_nil (o_SourceIPCIDR c) &&
  negb (o_SourceIPIsPrivate c) && is_nil (o_IPCIDR c) && negb (o_IPIsPrivate c) &&
  is_nil (o_SourcePort c) && is_nil (o_SourcePortRange c) && is_nil (o_Port c) &&
  is_nil (o_PortRange c) && is_nil (o_ProcessName c) && is_nil (o_ProcessPath c) &&
  is_nil (o_ProcessPathRegex c) && is_nil (o_PackageName c) && is_nil (o_PackageNameRegex c) &&
  is_nil (o_User c) && is_nil (o_UserID c) && bool_decide (o_ClashMode c = "") &&
  is_nil (o_NetworkType c) && negb (o_NetworkIsExpensive c) && negb (o_NetworkIsConstrained c) &&
  is_nil (o_WIFISSID c) && is_nil (o_WIFIBSSID c) && is_nil (o_InterfaceAddress c) &&
  is_nil (o_NetworkInterfaceAddress c) && is_nil (o_DefaultInterfaceAddress c) &&
  is_nil (o_SourceMACAddress c) && is_nil (o_SourceHostname c) && is_nil (o_PreferredBy c) &&
  is_nil (o_RuleSet c) && negb (o_RuleSetIPCIDRMatchSource c) &&
  negb (o_Deprecated_RulesetIPCIDRMatchSource c).

(** [DefaultRule.IsValid] and [DefaultDNSRule.IsValid] *)
Definition DefaultRule_IsValid (o : RouteRuleOptions) (a : RuleActionOptions) : bool :=
  negb (CommonOptions_IsZero (rr_common o) && is_nil (rr_Client o) && RuleActionOptions_IsZero a).
Definition DefaultDNSRule_IsValid (o : DNSRuleOptions) (a : DNSRuleActionOptions) : bool :=
  negb (CommonOptions_IsZero (dr_common o) && is_nil (dr_QueryType o) &&
        is_nil (dr_QueryClientSubnet o) && negb (dr_QueryDNSSEC o) && is_nil (dr_Outbound o) &&
        is_nil (dr_MatchResponse o) && negb (dr_IPAcceptAny o) && is_nil (dr_ResponseRcode o) &&
        is_nil (dr_ResponseAnswer o) && is_nil (dr_ResponseNs o) && is_nil (dr_ResponseExtra o) &&
        negb (dr_RuleSetIPCIDRAcceptEmpty o) && DNSRuleActionOptions_IsZero a).

(** [Rule.IsValid] and [LogicalRule.IsValid]; the same for DNS rules *)
Fixpoint RouteRule_IsValid (r : RouteRule) : Res bool :=
  match r with
  | RouteDefault o a => Ok (DefaultRule_IsValid o a)
  | RouteLogical _ rules _ _ =>
      match rules with [] => Ok false | _ => all_res RouteRule_IsValid rules end
  | RouteUnknown type => Panic ("unknown rule type: " +:+ type)
  end.
Fixpoint DNSRule_IsValid (r : DNSRule) : Res bool :=
  match r with
  | DNSDefault o a => Ok (DefaultDNSRule_IsValid o a)
  | DNSLogical _ rules _ _ =>
      match rules with [] => Ok false | _ => all_res DNSRule_IsValid rules end
  | DNSUnknown type => Panic ("unknown DNS rule type: " +:+ type)
  end.

(** ** Nested actions *)

Definition RouteRuleActionNestedUnsupportedMessage : string :=
  "rule action is not supported in nested rules".
Definition DNSRuleActionNestedUnsupportedMessage : string :=
  "DNS rule action is not supported in nested rules".

(** [ruleHasConfiguredAction] and [dnsRuleHasConfiguredAction] *)
Definition ruleHasConfiguredAction (r : RouteRule) : bool :=
  match r with
  | RouteDefault _ a | RouteLogical _ _ _ a => negb (RuleActionOptions_IsZero a)
  | RouteUnknown _ => false
  end.
Definition dnsRuleHasConfiguredAction (r : DNSRule) : bool :=
  match r with
  | DNSDefault _ a | DNSLogical _ _ _ a => negb (DNSRuleActionOptions_IsZero a)
  | DNSUnknown _ => false
  end.

(** A loop that checks the rules of a list, with the context of an error. *)
Fixpoint check_rules {O} (check : O -> Res unit) (i : Z) (l : list O) : Res unit :=
  match l with
  | [] => Ok tt
  | o :: rest => _ ← wrap_err (check o) (sub_rule i); check_rules check (i + 1) rest
  end.

(** [validateNoNestedRuleActions] and [validateNoNestedDNSRuleActions] *)
Fixpoint validateNoNestedRuleActions (r : RouteRule) (nested : bool) : Res unit :=
  if nested && ruleHasConfiguredAction r
  then Err (E_New [AStr RouteRuleActionNestedUnsupportedMessage])
  else match r with
       | RouteLogical _ rules _ _ =>
           check_rules (fun sub => validateNoNestedRuleActions sub true) 0 rules
       | _ => Ok tt
       end.
Fixpoint validateNoNestedDNSRuleActions (r : DNSRule) (nested : bool) : Res unit :=
  if nested && dnsRuleHasConfiguredAction r
  then Err (E_New [AStr DNSRuleActionNestedUnsupportedMessage])
  else match r with
       | DNSLogical _ rules _ _ =>
           check_rules (fun sub => validateNoNestedDNSRuleActions sub true) 0 rules
       | _ => Ok tt
       end.

(** ** Route rules *)

Definition missing_conditions : error := E_New [AStr "missing conditions"].

(** The [switch options.XOptions.Action]: an outbound is required. *)
Definition missing_outbound (a : RuleActionOptions) (checkOutbound : bool) : bool :=
  (bool_decide (a_Action a = "") || bool_decide (a_Action a = "route")) &&
  bool_decide (a_RouteOutbound a = "") && checkOutbound.

(** [NewLogicalRule]; [newRule] builds a sub-rule. *)
Definition NewLogicalRule (PlatformSupported : bool) (newRule : RouteRule -> Res (Rule RuleAction))
    (mode : string) (rules : list RouteRule) (inv : bool) (a : RuleActionOptions)
  : Res (Rule RuleAction) :=
  act ← caused "action" (NewRuleAction PlatformSupported a);
  mode ← logical_mode mode;
  subs ← build_rules (fun sub => _ ← validateNoNestedRuleActions sub true; newRule sub)
           sub_rule 0 rules;
  Ok (R_Logical (mkLogical subs mode inv act)).

(** [NewRule] *)
Fixpoint NewRule (PlatformSupported : bool) (options : RouteRule) (checkOutbound : bool)
  : Res (Rule RuleAction) :=
  match options with
  | RouteDefault o a =>
      if negb (DefaultRule_IsValid o a) then Err missing_conditions
      else if missing_outbound a checkOutbound then Err (E_New [AStr "missing outbound field"])
      else
        act ← caused "action" (NewRuleAction PlatformSupported a);
        R_Default <$> NewDefaultRule o act
  | RouteLogical mode rules inv a =>
      valid ← RouteRule_IsValid (RouteLogical mode rules inv a);
      if negb valid then Err missing_conditions
      else if missing_outbound a checkOutbound then Err (E_New [AStr "missing outbound field"])
      else NewLogicalRule PlatformSupported (fun sub => NewRule PlatformSupported sub false)
             mode rules inv a
  | RouteUnknown type => Err (E_New [AStr "unknown rule type: "; AStr type])
  end.

(** ** DNS rules *)

(** The [switch options.XOptions.Action]: a server is required. *)
Definition missing_server (a : DNSRuleActionOptions) (checkServer : bool) : bool :=
  if bool_decide (da_Action a = "") || bool_decide (da_Action a = "route")
  then bool_decide (da_RouteServer a = "") && checkServer
  else bool_decide (da_Action a = "evaluate") && bool_decide (da_EvaluateServer a = "") && checkServer.

(** The checks before a DNS rule of either type is built. *)
Definition check_dns_action (a : DNSRuleActionOptions) (checkServer : bool) : Res unit :=
  if negb checkServer && bool_decide (da_Action a = "evaluate")
  then Err (E_New [AStr (da_Action a); AStr " is only allowed on top-level DNS rules"])
  else validateDNSRuleAction a.

(** [NewLogicalDNSRule]; [newDNSRule] builds a sub-rule. *)
Definition NewLogicalDNSRule (newDNSRule : DNSRule -> Res (Rule RuleAction)) (mode : string)
    (rules : list DNSRule) (inv : bool) (a : DNSRuleActionOptions) : Res (Rule RuleAction) :=
  act ← NewDNSRuleAction a;
  mode ← logical_mode mode;
  subs ← build_rules (fun sub => _ ← validateNoNestedDNSRuleActions sub true; newDNSRule sub)
           sub_rule 0 rules;
  let tags := Uniq (flat_map MatchResponseTags subs) in
  let anonymous := existsb MatchResponseAnonymous subs in
  if da_Race a && bool_decide (tags = []) && negb anonymous
  then Err (E_New [AStr "`race` requires `match_response` in sub-rules"])
  else Ok (R_LogicalDNS (mkLogical subs mode inv act) tags anonymous (da_Race a)).

(** [NewDNSRule] *)
Fixpoint NewDNSRule (legacyDNSMode : bool) (options : DNSRule) (checkServer : bool)
  : Res (Rule RuleAction) :=
  match options with
  | DNSDefault o a =>
      if negb (DefaultDNSRule_IsValid o a) then Err missing_conditions
      else
        _ ← check_dns_action a checkServer;
        if da_Race a && negb (IsEnabled (dr_MatchResponse o))
        then Err (E_New [AStr "`race` requires `match_response`"])
        else if missing_server a checkServer then Err (E_New [AStr "missing server field"])
        else
          act ← NewDNSRuleAction a;
          rule ← NewDefaultDNSRule o act legacyDNSMode;
          Ok (R_DefaultDNS rule (IsEnabled (dr_MatchResponse o))
                (ResponseTag (dr_MatchResponse o)) (da_Race a))
  | DNSLogical mode rules inv a =>
      valid ← DNSRule_IsValid (DNSLogical mode rules inv a);
      if negb valid then Err missing_conditions
      else
        _ ← check_dns_action a checkServer;
        if missing_server a checkServer then Err (E_New [AStr "missing server field"])
        else NewLogicalDNSRule (fun sub => NewDNSRule legacyDNSMode sub false) mode rules inv a
  | DNSUnknown type => Err (E_New [AStr "unknown rule type: "; AStr type])
  end.

(** ** What is built *)

Lemma RouteRule_nested_ind (P : RouteRule -> Prop) :
  (forall o a, P (RouteDefault o a)) ->
  (forall mode rules inv a, Forall P rules -> P (RouteLogical mode rules inv a)) ->
  (forall type, P (RouteUnknown type)) -> forall r, P r.
Proof.
  intros H1 H2 H3. fix IH 1. intros [o a|mode rules inv a|type]; [apply H1| |apply H3].
  apply H2. induction rules as [|r rules IHr]; constructor; [apply IH|exact IHr].
Qed.

Lemma DNSRule_nested_ind (P : DNSRule -> Prop) :
  (forall o a, P (DNSDefault o a)) ->
  (forall mode rules inv a, Forall P rules -> P (DNSLogical mode rules inv a)) ->
  (forall type, P (DNSUnknown type)) -> forall r, P r.
Proof.
  intros H1 H2 H3. fix IH 1. intros [o a|mode rules inv a|type]; [apply H1| |apply H3].
  apply H2. induction rules as [|r rules IHr]; constructor; [apply IH|exact IHr].
Qed.

(** The action of a rule. *)
Definition Rule_action (rule : Rule RuleAction) : option RuleAction :=
  match rule with
  | R_Default r | R_DefaultHeadless r | R_DefaultDNS r _ _ _ => action r
  | R_Logical r | R_LogicalHeadless r | R_LogicalDNS r _ _ _ => l_action r
  end.

(** The rules nested in a logical rule, at any depth, have no action. *)
Definition sub_rules (rule : Rule RuleAction) : list (Rule RuleAction) :=
  match rule with
  | R_Logical r | R_LogicalHeadless r | R_LogicalDNS r _ _ _ => l_rules r
  | _ => []
  end.
Inductive actionless_below (rule : Rule RuleAction) : Prop :=
  | actionless_intro :
      (forall sub, sub ∈ sub_rules rule -> Rule_action sub = None /\ actionless_below sub) ->
      actionless_below rule.

(** The responses the default rules below a DNS rule refer to. *)
Fixpoint leaf_tags (rule : Rule RuleAction) : list string :=
  match rule with
  | R_DefaultDNS _ _ tag _ => if bool_decide (tag = "") then [] else [tag]
  | R_LogicalDNS r _ _ _ => flat_map leaf_tags (l_rules r)
  | _ => []
  end.
Fixpoint leaf_anonymous (rule : Rule RuleAction) : bool :=
  match rule with
  | R_DefaultDNS _ matchResponse tag _ => matchResponse && bool_decide (tag = "")
  | R_LogicalDNS r _ _ _ => existsb leaf_anonymous (l_rules r)
  | _ => false
  end.

Lemma RuleAction_zero a ps : RuleActionOptions_IsZero a = true -> NewRuleAction ps a = Ok None.
Proof.
  unfold RuleActionOptions_IsZero. intros H. bsimp. unfold NewRuleAction.
  repeat match goal with H : bool_decide (a_Action a = "") = true |- _ => rewrite H end. done.
Qed.

Lemma DNSRuleAction_zero a : DNSRuleActionOptions_IsZero a = true -> NewDNSRuleAction a = Ok None.
Proof.
  unfold DNSRuleActionOptions_IsZero. intros H. bsimp. unfold NewDNSRuleAction.
  repeat match goal with H : bool_decide (da_Action a = "") = true |- _ => rewrite H end. done.
Qed.

(** Inversion of the two dispatchers. *)
Lemma bind_ok {A B} (m : Res A) (f : A -> Res B) b :
  (a ← m; f a) = Ok b -> exists a, m = Ok a /\ f a = Ok b.
Proof. destruct m; simpl; try done. eauto. Qed.

Lemma NewRule_default ps o a check rule :
  NewRule ps (RouteDefault o a) check = Ok rule ->
  exists act r, NewRuleAction ps a = Ok act /\ NewDefaultRule o act = Ok r /\ rule = R_Default r.
Proof.
  cbn [NewRule]. destruct (negb _); [done|]. destruct (missing_outbound _ _); [done|].
  intros (act & Ha%caused_ok & (r & Hr & <-)%fmap_ok)%bind_ok. eauto 6.
Qed.

Lemma NewRule_logical ps mode rules inv a check rule :
  NewRule ps (RouteLogical mode rules inv a) check = Ok rule ->
  exists act mode' subs, NewRuleAction ps a = Ok act /\ rule = R_Logical (mkLogical subs mode' inv act) /\
    Forall2 (fun o r => validateNoNestedRuleActions o true = Ok tt /\ NewRule ps o false = Ok r) rules subs.
Proof.
  cbn [NewRule]. intros (valid & _ & H)%bind_ok. destruct (negb valid); [done|].
  destruct (missing_outbound _ _); [done|]. unfold NewLogicalRule in H.
  apply bind_ok in H as (act & Ha%caused_ok & H).
  apply bind_ok in H as (mode' & _ & H). apply bind_ok in H as (subs & Hs & [= <-]).
  exists act, mode', subs. split; [done|]. split; [done|]. apply build_rules_Forall2 in Hs.
  eapply Forall2_impl; [|exact Hs]. intros o r ([] & Hv & Hr)%bind_ok. done.
Qed.

Lemma NewDNSRule_default legacy o a check rule :
  NewDNSRule legacy (DNSDefault o a) check = Ok rule ->
  exists act r, NewDNSRuleAction a = Ok act /\ NewDefaultDNSRule o act legacy = Ok r /\
    rule = R_DefaultDNS r (IsEnabled (dr_MatchResponse o)) (ResponseTag (dr_MatchResponse o)) (da_Race a) /\
    (da_Race a = true -> IsEnabled (dr_MatchResponse o) = true).
Proof.
  cbn [NewDNSRule]. destruct (negb (DefaultDNSRule_IsValid o a)); [done|]. intros ([] & _ & H)%bind_ok.
  destruct (da_Race a && negb (IsEnabled (dr_MatchResponse o))) eqn:Hrace; [done|].
  destruct (missing_server _ _); [done|].
  apply bind_ok in H as (act & Ha & H). apply bind_ok in H as (r & Hr & [= <-]).
  exists act, r. repeat split; try done. intros E. rewrite E in Hrace.
  by apply negb_false_iff in Hrace.
Qed.

Lemma NewDNSRule_logical legacy mode rules inv a check rule :
  NewDNSRule legacy (DNSLogical mode rules inv a) check = Ok rule ->
  exists act mode' subs, NewDNSRuleAction a = Ok act /\
    rule = R_LogicalDNS (mkLogical subs mode' inv act) (Uniq (flat_map MatchResponseTags subs))
             (existsb MatchResponseAnonymous subs) (da_Race a) /\
    (da_Race a = true -> Uniq (flat_map MatchResponseTags subs) <> [] \/
                         existsb MatchResponseAnonymous subs = true) /\
    Forall2 (fun o r => validateNoNestedDNSRuleActions o true = Ok tt /\ NewDNSRule legacy o false = Ok r)
      rules subs.
Proof.
  cbn [NewDNSRule]. intros (valid & _ & H)%bind_ok. destruct (negb valid); [done|].
  apply bind_ok in H as ([] & _ & H). destruct (missing_server _ _); [done|].
  unfold NewLogicalDNSRule in H.
  apply bind_ok in H as (act & Ha & H). apply bind_ok in H as (mode' & _ & H).
  apply bind_ok in H as (subs & Hs & H). cbv zeta in H.
  destruct (da_Race a && _ && _) eqn:Hrace; [done|]. injection H as <-.
  exists act, mode', subs. split; [done|]. split; [done|]. split.
  - intros E. rewrite E in Hrace. cbn [andb] in Hrace. apply andb_false_iff in Hrace as [Hr|Hr].
    + left. by apply bool_decide_eq_false in Hr.
    + right. by apply negb_false_iff in Hr.
  - apply build_rules_Forall2 in Hs. eapply Forall2_impl; [|exact Hs].
    intros o r ([] & Hv & Hr)%bind_ok. done.
Qed.

(** A nested rule has no action. *)
Lemma nested_route_action ps o check rule :
  validateNoNestedRuleActions o true = Ok tt -> NewRule ps o check = Ok rule -> Rule_action rule = None.
Proof.
  intros Hv H. assert (Hc : ruleHasConfiguredAction o = false).
  { destruct (ruleHasConfiguredAction o) eqn:E; [|done].
    destruct o; cbn [validateNoNestedRuleActions andb] in Hv; rewrite E in Hv; done. }
  destruct o as [o a|mode rules inv a|type]; cbn in Hc; [| |done]; apply negb_false_iff in Hc.
  - apply NewRule_default in H as (act & r & Ha & Hr & ->). rewrite RuleAction_zero in Ha by done.
    injection Ha as <-. by apply route_action in Hr.
  - apply NewRule_logical in H as (act & mode' & subs & Ha & -> & _). rewrite RuleAction_zero in Ha by done.
    by injection Ha as <-.
Qed.

Lemma nested_dns_action legacy o check rule :
  validateNoNestedDNSRuleActions o true = Ok tt -> NewDNSRule legacy o check = Ok rule ->
  Rule_action rule = None.
Proof.
  intros Hv H. assert (Hc : dnsRuleHasConfiguredAction o = false).
  { destruct (dnsRuleHasConfiguredAction o) eqn:E; [|done].
    destruct o; cbn [validateNoNestedDNSRuleActions andb] in Hv; rewrite E in Hv; done. }
  destruct o as [o a|mode rules inv a|type]; cbn in Hc; [| |done]; apply negb_false_iff in Hc.
  - apply NewDNSRule_default in H as (act & r & Ha & Hr & -> & _). rewrite DNSRuleAction_zero in Ha by done.
    injection Ha as <-. by apply dns_action in Hr.
  - apply NewDNSRule_logical in H as (act & mode' & subs & Ha & -> & _). rewrite DNSRuleAction_zero in Ha by done.
    by injection Ha as <-.
Qed.

(** Only the rule at the top of a route or DNS rule decides what is done: in
    every rule the constructors accept, the rules nested in logical rules have
    no action, at any depth. *)
Theorem nested_rules_have_no_action ps legacy r d check rule :
  NewRule ps r check = Ok rule \/ NewDNSRule legacy d check = Ok rule -> actionless_below rule.
Proof.
  intros [H|H].
  - revert check rule H. induction r as [o a|mode rules inv a IH|type] using RouteRule_nested_ind;
      intros check rule H; [| |done].
    + apply NewRule_default in H as (act & r & _ & _ & ->). constructor. cbn. set_solver.
    + apply NewRule_logical in H as (act & mode' & subs & _ & -> & Hs). constructor. cbn.
      intros sub Hsub. rewrite list.Forall_forall in IH.
      apply list_elem_of_lookup in Hsub as (i & Hi).
      destruct (Forall2_lookup_r _ _ _ _ _ Hs Hi) as (o & Ho & Hv & Hr).
      split; [by eapply nested_route_action|]. eapply IH; [|exact Hr]. by eapply list_elem_of_lookup_2.
  - revert check rule H. induction d as [o a|mode rules inv a IH|type] using DNSRule_nested_ind;
      intros check rule H; [| |done].
    + apply NewDNSRule_default in H as (act & r' & _ & _ & -> & _). constructor. cbn. set_solver.
    + apply NewDNSRule_logical in H as (act & mode' & subs & _ & -> & _ & Hs). constructor. cbn.
      intros sub Hsub. rewrite list.Forall_forall in IH.
      apply list_elem_of_lookup in Hsub as (i & Hi).
      destruct (Forall2_lookup_r _ _ _ _ _ Hs Hi) as (o & Ho & Hv & Hr).
      split; [by eapply nested_dns_action|]. eapply IH; [|exact Hr]. by eapply list_elem_of_lookup_2.
Qed.

(** A DNS rule knows the responses it waits for: the tags and the anonymous
    flag it reports are those of the default rules below it, at any depth, and
    a rule that takes part in a race waits for at least one response. *)
Theorem dns_rule_responses legacy d check rule :
  NewDNSRule legacy d check = Ok rule ->
  (forall t, t ∈ MatchResponseTags rule <-> t ∈ leaf_tags rule) /\
  MatchResponseAnonymous rule = leaf_anonymous rule /\
  (Race rule = true -> MatchResponseTags rule <> [] \/ MatchResponseAnonymous rule = true).
Proof.
  revert check rule. induction d as [o a|mode rules inv a IH|type] using DNSRule_nested_ind;
    intros check rule H; [| |done].
  - apply NewDNSRule_default in H as (act & r & _ & _ & -> & Hrace). split; [done|]. split; [done|].
    cbn. intros E. apply Hrace in E. rewrite E. case_bool_decide; [by right|by left].
  - apply NewDNSRule_logical in H as (act & mode' & subs & _ & -> & Hrace & Hs). cbn.
    assert (Hsubs : forall sub, sub ∈ subs ->
              (forall t, t ∈ MatchResponseTags sub <-> t ∈ leaf_tags sub) /\
              MatchResponseAnonymous sub = leaf_anonymous sub).
    { intros sub Hsub. rewrite list.Forall_forall in IH. apply list_elem_of_lookup in Hsub as (i & Hi).
      destruct (Forall2_lookup_r _ _ _ _ _ Hs Hi) as (o & Ho & _ & Hr).
      destruct (IH o (list_elem_of_lookup_2 _ _ _ Ho) false sub Hr) as (H1 & H2 & _). done. }
    split; [|split; [|done]].
    + intros t. rewrite Uniq_law, !list_elem_of_In, !in_flat_map.
      split; intros (sub & Hsub & Ht); exists sub; (split; [done|]);
        apply list_elem_of_In in Hsub, Ht; apply list_elem_of_In; by apply (Hsubs sub Hsub).
    + apply existsb_ext_in. intros sub Hsub. by apply Hsubs.
Qed.
End Dispatch.
