(* ===== verification/RuleBuildExamples.v ===== *)
(** * Concrete rule options

    Witnesses of the theorems on built rules, and an option set that passes
    validation but builds a rule without conditions. *)

From stdpp Require Import base numbers list strings gmap option.
From Stdlib Require Import ZArith Lia.
From S2P Require Import Prelude NetAddr Metadata Demo RuleItems RuleAction RuleCore RuleSpec RulePreMatch RuleBuild RuleDispatch.

Local Open Scope Z_scope.

Module RuleBuildExamples.

#[local] Existing Instance list_helpers.
#[local] Existing Instance Demo.std.
#[local] Existing Instance Demo.third.

(** A headless rule with a domain list and a CIDR list. *)
Definition headless_options (domain ipcidr : Slice string) : HeadlessOptions :=
  mkHeadlessOptions None None domain None None None None ipcidr None None None None None None
    None None None None false false None None None None false None None None None None.

(** Route and DNS options with an inbound, domains, CIDRs and rule-sets. *)
Definition common_options (inbound domain ipcidr ruleset : Slice string) : CommonOptions :=
  mkCommonOptions inbound 0 None None None domain None None None None None None None false ipcidr
    false None None None None None None None None None None None "" None false false None None
    None None None None None None ruleset false false false.

Definition route_options : RouteRuleOptions :=
  mkRouteRuleOptions (common_options (Some ["tun-in"]) (Some ["a.example"])
    (Some ["10.0.0.0/8"]) (Some ["set"])) None.

Definition dns_options (domain ipcidr : Slice string) : DNSRuleOptions :=
  mkDNSRuleOptions (common_options None domain ipcidr None) (Some [1; 28]) None false None None
    false None None None None false.

Definition built (r : Res (abstractDefaultRule unit (Rule unit)))
  : abstractDefaultRule unit (Rule unit) :=
  match r with Ok r => r | _ => empty_rule false None end.

Lemma built_rules_listed_witness :
  NewDefaultRule route_options (Some tt) = Ok (built (NewDefaultRule route_options (Some tt))) /\
  listed (built (NewDefaultRule route_options (Some tt))).
Proof.
  split; [reflexivity|].
  apply (built_rules_listed true (headless_options None None) route_options
           (dns_options None None) (Some tt) true
           (built (NewDefaultRule route_options (Some tt)))).
  right. left. reflexivity.
Defined.

Lemma dns_rule_options_unmixed_witness :
  has_address_fields (dns_options None (Some ["10.0.0.0/8"])) = true /\
  own_unmixed false
    (built (NewDefaultDNSRule (dns_options None (Some ["10.0.0.0/8"])) None true)) = true.
Proof.
  split; [by vm_compute|].
  apply (dns_rule_options_unmixed (dns_options None (Some ["10.0.0.0/8"])) None true);
    reflexivity.
Defined.

Definition old_set : RuleSet (Rule unit) :=
  mkRuleSet "set" [] (mkRuleSetMetadata false false false false false).

Definition new_rules : list HeadlessRule :=
  [H_Default (headless_options (Some ["a.example"]) None);
   H_Logical "or" [H_Default (headless_options None (Some ["10.0.0.0/8"]))] false].

Definition reloaded : RuleSet (Rule unit) :=
  match reloadRules true (fun _ _ => Ok tt) [] old_set new_rules tt with
  | Ok (s, _) => s
  | _ => old_set
  end.

Definition domain_rules : list HeadlessRule := [H_Default (headless_options (Some ["a.example"]) None)].
Definition reloaded_domains : RuleSet (Rule unit) :=
  match reloadRules true (fun _ _ => Ok tt) [] old_set domain_rules tt with
  | Ok (s, _) => s
  | _ => old_set
  end.

Lemma reload_metadata_truthful_witness :
  existsb has_cidrs (rs_rules reloaded) = true /\
  ContainsIPCIDRRule (rs_metadata reloaded) = existsb has_cidrs (rs_rules reloaded) /\
  (forall env rule m, rule ∈ rs_rules reloaded_domains ->
     DeferredIPCIDRMatchGroups m = 0 -> DeferredIPCIDRMatchGroups (Rule_Match env rule m).2 = 0).
Proof.
  split; [by vm_compute|]. split.
  - refine (proj1 (reload_metadata_truthful true (fun _ _ => Ok tt) [] old_set new_rules tt
                     reloaded tt ["set"] false _ _)); [by repeat constructor|reflexivity].
  - refine (proj1 (proj2 (reload_metadata_truthful true (fun _ _ => Ok tt) [] old_set domain_rules tt
                     reloaded_domains tt ["set"] false _ _)) _); [by repeat constructor|reflexivity|by vm_compute].
Defined.

(** A rule with a domain beside its CIDRs sets the flag, and its pre-match leaves
    nothing open, for queries inside and outside it. *)
Definition mixed_rules : list HeadlessRule := [H_Default (headless_options (Some ["a.example"]) (Some ["10.0.0.0/8"]))].
Definition reloaded_mixed : RuleSet (Rule unit) :=
  match reloadRules true (fun _ _ => Ok tt) [] old_set mixed_rules tt with Ok (s, _) => s | _ => old_set end.
Example flag_is_not_sharp :
  ContainsIPCIDRRule (rs_metadata reloaded_mixed) = true /\
  forallb (fun domain =>
    let m := set_Ignore (Demo.query domain) true in
    forallb (fun rule => DeferredIPCIDRMatchGroups (Rule_Match Demo.env rule m).2 =? 0) (rs_rules reloaded_mixed))
    ["a.example"; "b.example"] = true.
Proof. split; by vm_compute. Qed.

(** The metadata of a set whose rule has an empty type does not show its CIDRs;
    decoding gives no such rules. *)
Definition untyped_rules : list HeadlessRule := [H_Untyped (headless_options None (Some ["10.0.0.0/8"]))].
Example untyped_not_counted :
  match reloadRules (Action := unit) true (fun _ _ => Ok tt) [] old_set untyped_rules tt with
  | Ok (s, _) => negb (ContainsIPCIDRRule (rs_metadata s)) && existsb has_cidrs (rs_rules s)
  | _ => false
  end = true.
Proof. by vm_compute. Qed.

Definition empty_options : HeadlessOptions := headless_options (Some []) None.

(** A headless rule whose only field is an empty list passes [IsValid],
    which compares with nil slices, and is built without any item; it then
    matches every connection. *)
Theorem empty_list_rule_matches_all m :
  HeadlessOptions_IsValid empty_options = true /\
  HeadlessOptions_IsValid (headless_options None None) = false /\
  exists rule, NewHeadlessRule (Action := unit) true (H_Default empty_options) = Ok rule /\
    Rule_Match Demo.env rule m = (true, m).
Proof.
  split; [done|]. split; [done|].
  exists (R_DefaultHeadless (empty_rule false None)). split; done.
Qed.

(** A logical DNS rule that races two servers' answers: one sub-rule looks at
    the response named "first", the other at the anonymous one. *)
#[local] Instance dialers : DialerFactory := {|
  ParseSocksaddrHostPort := fun s port => mkSocksaddr AddrNone port s;
  DialerOptions := unit;
  DialerOptions_zero := tt;
  DialerOptions_IsZero := fun _ => true;
  Dialer := unit;
  dialer_New := fun _ => Ok tt;
  DirectActionOptions_Descriptions := fun _ => []
|}.

Definition reject_zero : RejectActionOptions := mkRejectOptions "" false.
Definition dns_action_options (action server : string) (race : bool) : DNSRuleActionOptions :=
  mkDNSRuleActionOptions action race server false false AbstractDNSRouteOptions_zero "" "" false
    AbstractDNSRouteOptions_zero AbstractDNSRouteOptions_zero reject_zero None [] [] [].

Definition response_options (tag : string) : DNSRuleOptions :=
  mkDNSRuleOptions (common_options None None (Some ["10.0.0.0/8"]) None) None None false None
    (Some (mkMatchResponse true tag)) false None None None None false.

Definition racing : DNSRule :=
  DNSLogical "or"
    [DNSDefault (response_options "first") (dns_action_options "" "" false);
     DNSDefault (response_options "") (dns_action_options "" "" false)] false
    (dns_action_options "route" "local" true).

Definition raced : Rule RuleAction :=
  match NewDNSRule false racing true with Ok r => r | _ => R_DefaultHeadless (empty_rule false None) end.

Lemma raced_built : NewDNSRule false racing true = Ok raced.
Proof. reflexivity. Qed.

Lemma nested_rules_have_no_action_witness :
  length (sub_rules raced) = 2%nat /\ actionless_below raced.
Proof.
  split; [reflexivity|].
  apply (nested_rules_have_no_action false false (RouteUnknown "") racing true raced).
  right. exact raced_built.
Defined.

Lemma dns_rule_responses_witness :
  MatchResponseTags raced = ["first"] /\ MatchResponseAnonymous raced = true /\
  (Race raced = true -> MatchResponseTags raced <> [] \/ MatchResponseAnonymous raced = true).
Proof.
  split; [reflexivity|]. split; [reflexivity|].
  apply (dns_rule_responses false racing true raced). exact raced_built.
Defined.

End RuleBuildExamples.
