(* ===== verification/StunPacket.v ===== *)
(** * STUN messages

    [libcore/stun/packet.go], [attribute.go] and [utils.go]: parsing a
    datagram, building and serialising a request, the address attributes.
    Bytes are [Z] values; [uint16] positions and lengths wrap, and a slice
    expression outside its bounds is a run-time panic.  The parsing loop is
    not structurally recursive: it runs on fuel, [None] is an exhausted fuel,
    and [parse_total] below shows how much is enough. *)

From Stdlib Require Import ZArith Lia Ascii.
From stdpp Require Import base numbers list strings option.
From S2P Require Import Prelude Bytes.

Local Open Scope Z_scope.

(** [lia] on quotients and remainders by constants *)
#[local] Ltac Zify.zify_post_hook ::= Z.to_euclidean_division_equations.

(** ** Bytes *)

(** [binary.BigEndian.Uint16], [PutUint16] and [PutUint32] *)
Definition Uint16 (b : bytes) : Z :=
  match b with x :: y :: _ => x * 256 + y | _ => 0 end.
Definition PutUint16 (v : Z) : bytes := [v / 256 mod 256; v mod 256].
Definition PutUint32 (v : Z) : bytes :=
  [v / 2 ^ 24 mod 256; v / 2 ^ 16 mod 256; v / 256 mod 256; v mod 256].

(** [crc32.ChecksumIEEE] *)
Definition crc32_bit (c : Z) : Z :=
  if Z.testbit c 0 then Z.lxor (Z.shiftr c 1) 0xEDB88320 else Z.shiftr c 1.
Definition crc32_byte (c b : Z) : Z := Nat.iter 8 crc32_bit (Z.lxor c b).
Definition ChecksumIEEE (b : bytes) : Z :=
  Z.lxor (fold_left crc32_byte b 0xFFFFFFFF) 0xFFFFFFFF.

(** ** Constants ([const.go]) *)

Definition magicCookie : Z := 0x2112A442.
Definition fingerprint : Z := 0x5354554e.
Definition attributeFamilyIPv4 : Z := 1.
Definition attributeFamilyIPV6 : Z := 2.
Definition attributeMappedAddress : Z := 0x0001.
Definition attributeChangeRequest : Z := 0x0003.
Definition attributeSourceAddress : Z := 0x0004.
Definition attributeChangedAddress : Z := 0x0005.
Definition attributeXorMappedAddress : Z := 0x0020.
Definition attributeXorMappedAddressExp : Z := 0x8020.
Definition attributeSoftware : Z := 0x8022.
Definition attributeFingerprint : Z := 0x8028.
Definition attributeOtherAddress : Z := 0x802c.
Definition typeBindingRequest : Z := 0x0001.

(** ** Attributes *)

(** [align]: [(n + 3) & 0xfffc] on [uint16] *)
Definition align (n : Z) : Z := Z.land (u16 (n + 3)) 0xfffc.

(** [padding] *)
Definition padding (b : bytes) : bytes :=
  let length := u16 (len b) in
  b ++ replicate (Z.to_nat (u16 (align length - length))) 0.

Record attribute := mkAttribute { a_types : Z; a_length : Z; a_value : bytes }.

Definition newAttribute (types : Z) (value : bytes) : attribute :=
  let v := padding value in mkAttribute types (u16 (len v)) v.

(** [packet] *)
Record packet := mkPacket {
  p_types : Z;
  p_length : Z;
  p_transID : bytes;
  p_attributes : list attribute
}.

Definition addAttribute (v : packet) (a : attribute) : packet :=
  mkPacket (p_types v) (u16 (p_length v + u16 (align (a_length a) + 4))) (p_transID v)
    (p_attributes v ++ [a]).

(** [(v *packet) bytes] *)
Definition attribute_bytes (a : attribute) : bytes :=
  PutUint16 (a_types a) ++ PutUint16 (a_length a) ++ a_value a.
Definition packet_bytes (v : packet) : bytes :=
  (PutUint16 (p_types v) ++ PutUint16 (p_length v)) ++ p_transID v ++
  concat (map attribute_bytes (p_attributes v)).

Definition newSoftwareAttribute (name : string) : attribute :=
  newAttribute attributeSoftware (string_bytes name).

Definition newChangeReqAttribute (changeIP changePort : bool) : attribute :=
  let b := 0 in
  let b := if changeIP then Z.lor b 0x04 else b in
  let b := if changePort then Z.lor b 0x02 else b in
  newAttribute attributeChangeRequest [0; 0; 0; b].

Definition newFingerprintAttribute (v : packet) : attribute :=
  let crc := Z.lxor (ChecksumIEEE (packet_bytes v)) fingerprint in
  newAttribute attributeFingerprint (PutUint32 crc).

(** [newPacket]; [rand] is the outcome of [rand.Read] on 12 bytes. *)
Definition newPacket (rand : Res bytes) : Res packet :=
  id ← rand; Ok (mkPacket 0 0 (PutUint32 magicCookie ++ id) []).

(** The packet [sendBindingReq] builds ([net.go]).  The length of the
    fingerprint is in the header while the checksum is computed. *)
Definition set_length (v : packet) (n : Z) : packet :=
  mkPacket (p_types v) n (p_transID v) (p_attributes v).

Definition newBindingRequest (rand : Res bytes) (softwareName : string)
    (changeIP changePort : bool) : Res packet :=
  pkt ← newPacket rand;
  let pkt := mkPacket typeBindingRequest (p_length pkt) (p_transID pkt) (p_attributes pkt) in
  let pkt := addAttribute pkt (newSoftwareAttribute softwareName) in
  let pkt := if changeIP || changePort
             then addAttribute pkt (newChangeReqAttribute changeIP changePort) else pkt in
  let pkt := set_length pkt (u16 (p_length pkt + 8)) in
  let a := newFingerprintAttribute pkt in
  let pkt := set_length pkt (u16 (p_length pkt - 8)) in
  Ok (addAttribute pkt a).

(** ** Parsing *)

(** One iteration of the loop of [newPacketFromBytes]: the attribute, the
    buffer and the next position.  [padding] appends to a slice of the buffer
    that has spare capacity, so the padding is zeroed in the buffer itself. *)
Definition zero_padding (buf : bytes) (end_ pad : Z) : bytes :=
  take (Z.to_nat end_) buf ++
  replicate (Nat.min (Z.to_nat pad) (length buf - Z.to_nat end_)) 0 ++
  drop (Z.to_nat (end_ + pad)) buf.

Definition parse_attribute (buf : bytes) (pos : Z) : Res (attribute * bytes * Z) :=
  t ← slice buf pos (u16 (pos + 2));
  l ← slice buf (u16 (pos + 2)) (u16 (pos + 4));
  let types := Uint16 t in
  let length := Uint16 l in
  let end_ := u16 (pos + 4 + length) in
  if (end_ <? u16 (pos + 4)) || (u16 (len buf) <? end_)
  then Err (E_New [AStr "Received data format mismatch."])
  else
    value ← slice buf (u16 (pos + 4)) end_;
    Ok (newAttribute types value,
        zero_padding buf end_ (u16 (align length - length)),
        u16 (pos + u16 (align length + 4))).

Fixpoint parse_loop (fuel : nat) (buf : bytes) (pos : Z) (pkt : packet) : option (Res packet) :=
  match fuel with
  | O => None
  | S fuel =>
      if u16 (pos + 4) <? u16 (len buf) then
        match parse_attribute buf pos with
        | Ok (a, buf, pos) => parse_loop fuel buf pos (addAttribute pkt a)
        | Err e => Some (Err e)
        | Panic msg => Some (Panic msg)
        end
      else Some (Ok pkt)
  end.

Definition newPacketFromBytes (fuel : nat) (packetBytes : bytes) : option (Res packet) :=
  if len packetBytes <? 20 then Some (Err (E_New [AStr "Received data length too short."]))
  else if 65535 + 20 <? len packetBytes
  then Some (Err (E_New [AStr "Received data length too long."]))
  else
    let pkt := mkPacket (Uint16 packetBytes) (Uint16 (drop 2 packetBytes))
                 (take 16 (drop 4 packetBytes)) [] in
    parse_loop fuel (drop 20 packetBytes) 0 pkt.

(** Fuel for every datagram the client reads ([parse_total]): an iteration
    consumes at least four bytes. *)
Definition parse (packetBytes : bytes) : option (Res packet) :=
  newPacketFromBytes (S (length packetBytes)) packetBytes.

(** ** Address attributes *)

(** [net.IP.String] *)
Class IPText := { IP_String : bytes -> string }.

Record Host := mkHost { h_family : Z; h_ip : string; h_port : Z }.

Section Addresses.
Context {IT : IPText}.

(** The loop of [xorAddr]: [xorIP[i] = v.value[i+4] ^ transID[i]] into 16 zero
    bytes. *)
Fixpoint xor_loop (value transID : bytes) : Res bytes :=
  match value, transID with
  | [], _ => Ok []
  | x :: value, y :: transID => rest ← xor_loop value transID; Ok (Z.lxor x y :: rest)
  | _ :: _, [] => Panic "index out of range"
  end.

(** [(v *attribute) xorAddr] *)
Definition xorAddr (v : attribute) (transID : bytes) : Res (option Host) :=
  if (len (a_value v) <? 8) || (20 <? len (a_value v)) then Ok None
  else
    x ← xor_loop (drop 4 (a_value v)) transID;
    let xorIP := x ++ replicate (16 - length x) 0 in
    family ← index (a_value v) 1;
    p ← slice (a_value v) 2 4;
    let port := Uint16 p in
    let xorIP := if family =? attributeFamilyIPv4 then take 4 xorIP else xorIP in
    t ← slice transID 0 2;
    Ok (Some (mkHost family (IP_String xorIP) (Z.lxor port (Uint16 t)))).

(** [(v *attribute) rawAddr] *)
Definition rawAddr (v : attribute) : Res (option Host) :=
  if len (a_value v) <? 8 then Ok None
  else
    family ← index (a_value v) 1;
    p ← slice (a_value v) 2 4;
    let value := if family =? attributeFamilyIPv4 then take 8 (a_value v) else a_value v in
    Ok (Some (mkHost family (IP_String (drop 4 value)) (Uint16 p))).

(** [getRawAddr] and [getXorAddr]: the first attribute of the type *)
Definition find_attribute (v : packet) (types : Z) : option attribute :=
  List.find (fun a => a_types a =? types) (p_attributes v).

Definition getRawAddr (v : packet) (types : Z) : Res (option Host) :=
  match find_attribute v types with Some a => rawAddr a | None => Ok None end.
Definition getXorAddr (v : packet) (types : Z) : Res (option Host) :=
  match find_attribute v types with Some a => xorAddr a (p_transID v) | None => Ok None end.

Definition getSourceAddr (v : packet) := getRawAddr v attributeSourceAddress.
Definition getMappedAddr (v : packet) := getRawAddr v attributeMappedAddress.
Definition getChangedAddr (v : packet) := getRawAddr v attributeChangedAddress.
Definition getOtherAddr (v : packet) := getRawAddr v attributeOtherAddress.
Definition getXorMappedAddr (v : packet) : Res (option Host) :=
  addr ← getXorAddr v attributeXorMappedAddress;
  match addr with
  | None => getXorAddr v attributeXorMappedAddressExp
  | Some _ => Ok addr
  end.
End Addresses.

(** The check value of CRC-32. *)
Example crc32_check : ChecksumIEEE (string_bytes "123456789") = 0xCBF43926.
Proof. vm_compute. reflexivity. Qed.

(** ** Lengths and alignment *)

Lemma align_eq n : in_width 16 n -> align n = u16 (4 * ((n + 3) / 4)).
Proof.
  unfold in_width, align. intros Hn.
  change 0xfffc with (Z.ldiff (Z.ones 16) (Z.ones 2)).
  rewrite !Z.ldiff_land, Z.land_assoc, Z.land_ones by lia.
  unfold wrap at 1. rewrite Zmod_mod. fold (wrap 16 (n + 3)).
  rewrite <- Z.ldiff_land, Z.ldiff_ones_r, Z.shiftl_mul_pow2, Z.shiftr_div_pow2 by lia.
  unfold wrap. change (2 ^ 16) with 65536 in *. change (2 ^ 2) with 4.
  destruct (decide (n < 65533)) as [Hs|Hs].
  - rewrite (Z.mod_small (n + 3)), Z.mod_small by lia. lia.
  - assert (n = 65533 \/ n = 65534 \/ n = 65535) as [-> | [-> | ->]] by lia; reflexivity.
Qed.

Lemma align_small n : 0 <= n <= 65532 -> align n = 4 * ((n + 3) / 4).
Proof.
  intros Hn. rewrite align_eq by (unfold in_width; lia).
  apply wrap_small. unfold in_width. lia.
Qed.

Lemma Uint16_range b : Forall is_byte b -> in_width 16 (Uint16 b).
Proof.
  unfold is_byte, in_width. intros H.
  destruct b as [|x [|y b]]; simpl; try lia.
  inversion H as [|? ? Hx H']; subst. inversion H'; subst. lia.
Qed.

Lemma Uint16_PutUint16 v l : in_width 16 v -> Uint16 (PutUint16 v ++ l) = v.
Proof. unfold in_width. simpl. lia. Qed.

Lemma zero_padding_length buf e pad :
  0 <= e <= len buf -> 0 <= pad -> length (zero_padding buf e pad) = length buf.
Proof.
  unfold len, zero_padding. intros. rewrite !length_app, length_take, length_replicate, length_drop.
  lia.
Qed.

Lemma zero_padding_drop buf e pad n :
  0 <= e <= len buf -> 0 <= pad -> e + pad <= n ->
  drop (Z.to_nat n) (zero_padding buf e pad) = drop (Z.to_nat n) buf.
Proof.
  unfold len. intros He Hp Hn. unfold zero_padding. rewrite app_assoc, drop_app.
  assert (Hlen : (length (take (Z.to_nat e) buf ++
                    replicate (Z.to_nat pad `min` (length buf - Z.to_nat e)) 0%Z)
                  <= Z.to_nat (e + pad))%nat).
  { rewrite length_app, length_take, length_replicate. lia. }
  rewrite drop_ge by lia. rewrite length_app, length_take, length_replicate, drop_drop. simpl.
  destruct (decide (e + pad <= Z.of_nat (length buf))).
  - f_equal. lia.
  - rewrite !drop_ge; [done|lia|lia].
Qed.

Lemma zero_padding_bytes buf e pad : Forall is_byte buf -> Forall is_byte (zero_padding buf e pad).
Proof.
  intros H. unfold zero_padding. repeat apply Forall_app_2.
  - by apply Forall_take.
  - apply Forall_replicate. done.
  - by apply Forall_drop.
Qed.

Lemma take_Uint16 b n : (2 <= n)%nat -> Uint16 (take n b) = Uint16 b.
Proof. intros. destruct n as [|[|n]]; try lia. by destruct b as [|x [|y b]]. Qed.

(** One iteration, when the positions do not wrap. *)
Lemma parse_attribute_eq buf pos :
  Forall is_byte buf -> len buf <= 65528 -> 0 <= pos -> pos + 4 < len buf -> pos mod 4 = 0 ->
  parse_attribute buf pos =
    let d := drop (Z.to_nat pos) buf in
    let length := Uint16 (drop 2 d) in
    if len buf <? pos + 4 + length then Err (E_New [AStr "Received data format mismatch."])
    else Ok (newAttribute (Uint16 d) (take (Z.to_nat length) (drop 4 d)),
             zero_padding buf (pos + 4 + length) (align length - length),
             pos + 4 + align length).
Proof.
  intros Hb Hl Hp Hlt Hmod. unfold parse_attribute.
  assert (Hrange : in_width 16 (Uint16 (drop 2 (drop (Z.to_nat pos) buf)))).
  { apply Uint16_range. by do 2 apply Forall_drop. }
  rewrite !(wrap_small 16 (pos + 2)), !(wrap_small 16 (pos + 4)), (wrap_small 16 (len buf))
    by (unfold in_width; lia).
  rewrite !slice_ok by lia. cbn [mbind res_bind].
  rewrite !take_Uint16 by lia.
  replace (drop (Z.to_nat (pos + 2)) buf) with (drop 2 (drop (Z.to_nat pos) buf))
    by (rewrite drop_drop; f_equal; lia).
  set (n := Uint16 _) in *. cbv zeta.
  unfold in_width in Hrange. change (2 ^ 16) with 65536 in Hrange.
  destruct (Z.ltb_spec (len buf) (pos + 4 + n)) as [Hbig|Hfit].
  - replace (_ || _) with true; [done|]. symmetry. apply orb_true_iff.
    unfold wrap. change (2 ^ 16) with 65536.
    destruct (decide (pos + 4 + n < 65536)) as [Hs|Hs].
    + right. apply Z.ltb_lt. rewrite Z.mod_small; lia.
    + left. apply Z.ltb_lt. lia.
  - rewrite (wrap_small 16 (pos + 4 + n)) by (unfold in_width; lia).
    rewrite (proj2 (Z.ltb_ge _ _)), (proj2 (Z.ltb_ge _ _)) by lia. cbn [orb].
    rewrite slice_ok by lia. cbn [mbind res_bind].
    rewrite align_small by lia.
    rewrite (wrap_small 16 (4 * ((n + 3) / 4) + 4)), (wrap_small 16 (4 * ((n + 3) / 4) - n)),
      (wrap_small 16 (pos + (4 * ((n + 3) / 4) + 4)))
      by (unfold in_width; change (2 ^ 16) with 65536; lia).
    f_equal. f_equal; [|lia]. f_equal. f_equal. rewrite drop_drop. f_equal; [f_equal; lia|].
    f_equal. lia.
Qed.

(** ** Termination of the parser *)

(** The positions of a run that does not wrap. *)
Definition good_pos (buf : bytes) (pos : Z) : Prop :=
  Forall is_byte buf /\ len buf <= 65528 /\ 0 <= pos <= 65528 /\ pos mod 4 = 0.

Lemma good_pos_next buf pos n :
  good_pos buf pos -> 0 <= n -> pos + 4 + n <= len buf ->
  good_pos (zero_padding buf (pos + 4 + n) (align n - n)) (pos + 4 + align n).
Proof.
  intros (Hb & Hl & Hp & Hm) Hn Hfit. rewrite align_small by lia.
  repeat split; try lia.
  - by apply zero_padding_bytes.
  - unfold len. rewrite zero_padding_length by lia. done.
Qed.

Definition same_header (p q : packet) : Prop :=
  p_types p = p_types q /\ p_transID p = p_transID q.

Lemma parse_loop_total fuel buf pos pkt :
  good_pos buf pos -> len buf - pos < 4 * Z.of_nat fuel -> (0 < fuel)%nat ->
  (exists p, parse_loop fuel buf pos pkt = Some (Ok p) /\ same_header p pkt) \/
  parse_loop fuel buf pos pkt = Some (Err (E_New [AStr "Received data format mismatch."])).
Proof.
  revert buf pos pkt. induction fuel as [|fuel IH]; intros buf pos pkt Hg Hf Hpos; [lia|].
  pose proof Hg as (Hb & Hl & Hp & Hm). cbn [parse_loop].
  rewrite (wrap_small 16 (pos + 4)), (wrap_small 16 (len buf))
    by (unfold in_width, len in *; change (2 ^ 16) with 65536; lia).
  destruct (Z.ltb_spec (pos + 4) (len buf)) as [Hlt|Hge]; [|left; by exists pkt].
  rewrite parse_attribute_eq by (done || lia). cbv zeta.
  set (n := Uint16 (drop 2 _)).
  assert (0 <= n) by (apply Uint16_range; by do 2 apply Forall_drop).
  destruct (Z.ltb_spec (len buf) (pos + 4 + n)) as [|Hfit]; [by right|].
  apply (IH _ _ (addAttribute pkt _)).
  - by apply good_pos_next.
  - unfold len. rewrite zero_padding_length by (rewrite ?align_small; lia). fold (len buf).
    rewrite align_small by lia. lia.
  - lia.
Qed.

(** The outcomes of the parser. *)
Lemma parse_outcomes packetBytes :
  Forall is_byte packetBytes -> len packetBytes <= 65548 ->
  (exists p, parse packetBytes = Some (Ok p) /\ p_types p = Uint16 packetBytes /\
     p_transID p = take 16 (drop 4 packetBytes) /\ length (p_transID p) = 16%nat) \/
  (exists msg, parse packetBytes = Some (Err (E_New [AStr msg]))).
Proof.
  intros Hb Hl. unfold parse, newPacketFromBytes.
  destruct (Z.ltb_spec (len packetBytes) 20) as [|H20]; [right; eauto|].
  rewrite (proj2 (Z.ltb_ge _ _)) by lia. cbv zeta.
  destruct (parse_loop_total (S (length packetBytes)) (drop 20 packetBytes) 0
              (mkPacket (Uint16 packetBytes) (Uint16 (drop 2 packetBytes))
                 (take 16 (drop 4 packetBytes)) [])) as [(p & Hp & Ht & Hid)|He].
  - unfold good_pos, len in *. rewrite length_drop. repeat split; try lia. by apply Forall_drop.
  - unfold len in *. rewrite length_drop. lia.
  - lia.
  - left. exists p. rewrite Hp, Ht, Hid. simpl. repeat split; try done.
    rewrite length_take, length_drop. unfold len in *. lia.
  - right. eauto.
Qed.

(** C19: parsing a datagram terminates and never panics.  On any datagram of up
    to 65548 bytes (the client reads at most 1024) [newPacketFromBytes] returns
    a packet that carries the type and the transaction id of the header, or one
    of its errors; the loop makes at most one iteration per four bytes, which
    the fuel of [parse] covers. *)
Theorem parse_total packetBytes :
  Forall is_byte packetBytes -> len packetBytes <= 65548 ->
  (exists p, parse packetBytes = Some (Ok p) /\ p_types p = Uint16 packetBytes /\
     p_transID p = take 16 (drop 4 packetBytes) /\ length (p_transID p) = 16%nat) \/
  (exists msg, parse packetBytes = Some (Err (E_New [AStr msg]))).
Proof. apply parse_outcomes. Qed.

Lemma parse_total_witness :
  len [1; 1; 0; 8; 33; 18; 164; 66; 0; 0; 0; 0; 0; 0; 0; 0; 0; 0; 0; 7; 0; 32; 0; 4; 1; 2; 3; 4] = 28 /\
  exists p, parse [1; 1; 0; 8; 33; 18; 164; 66; 0; 0; 0; 0; 0; 0; 0; 0; 0; 0; 0; 7;
                   0; 32; 0; 4; 1; 2; 3; 4] = Some (Ok p) /\ p_types p = 257.
Proof.
  split; [reflexivity|].
  destruct (parse_total [1; 1; 0; 8; 33; 18; 164; 66; 0; 0; 0; 0; 0; 0; 0; 0; 0; 0; 0; 7;
                         0; 32; 0; 4; 1; 2; 3; 4]) as [(p & Hp & Ht & _)|(msg & H)].
  - repeat constructor; unfold is_byte, in_width; cbn; lia.
  - vm_compute. discriminate.
  - exists p. split; [exact Hp|exact Ht].
  - exfalso. vm_compute in H. discriminate.
Defined.

(** An attribute that ends with the last of 65535 bytes leads back to the
    first position. *)
Lemma parse_attribute_wraps buf :
  len buf = 65535 -> Uint16 (drop 2 buf) = 65531 ->
  exists a, parse_attribute buf 0 = Ok (a, buf, 0).
Proof.
  intros Hl Hn. unfold parse_attribute.
  change (u16 (0 + 2)) with 2. change (u16 (0 + 4)) with 4.
  rewrite !slice_ok by lia. cbn [mbind res_bind]. change (Z.to_nat 2) with 2%nat.
  rewrite (take_Uint16 (drop 2 buf)) by lia. rewrite Hn, Hl. cbv zeta.
  change (u16 (0 + 4 + 65531)) with 65535. change (u16 65535) with 65535. cbn [Z.ltb orb Z.compare].
  rewrite slice_ok by lia. cbn [mbind res_bind].
  eexists. f_equal. f_equal. f_equal.
  change (u16 (align 65531 - 65531)) with 1. unfold zero_padding, len in *.
  rewrite take_ge by lia. rewrite (drop_ge buf) by lia.
  replace (Z.to_nat 1 `min` _)%nat with 0%nat by lia. by rewrite app_nil_r.
Qed.

(** The length check of [newPacketFromBytes] admits datagrams on which the
    loop never ends.  With 65535 bytes of attributes and a first attribute of
    65531 bytes the next position wraps to 0, so the same attribute is parsed
    again, whatever the number of iterations. *)
Theorem parse_diverges header t1 t2 tail fuel :
  len header = 20 -> len tail = 65531 ->
  newPacketFromBytes fuel (header ++ t1 :: t2 :: 255 :: 251 :: tail) = None.
Proof.
  intros Hh Ht. set (buf := t1 :: t2 :: 255 :: 251 :: tail).
  assert (Hl : len buf = 65535) by (unfold len, buf in *; cbn [length]; lia).
  unfold newPacketFromBytes.
  rewrite (proj2 (Z.ltb_ge _ 20)), (proj2 (Z.ltb_ge _ _))
    by (unfold len in *; rewrite length_app; lia).
  replace (drop 20 (header ++ buf)) with buf
    by (replace 20%nat with (length header) by (unfold len in Hh; lia); by rewrite drop_app_length).
  cbv zeta. generalize (mkPacket (Uint16 (header ++ buf))
    (Uint16 (drop 2 (header ++ buf))) (take 16 (drop 4 (header ++ buf))) []).
  destruct (parse_attribute_wraps buf Hl eq_refl) as [a Hstep].
  induction fuel as [|fuel IH]; intros pkt; [done|].
  cbn [parse_loop]. rewrite Hl, Hstep. apply IH.
Qed.

Lemma parse_diverges_witness :
  len ([0; 1; 0; 0] ++ replicate 16 0) = 20 /\
  newPacketFromBytes 3 (([0; 1; 0; 0] ++ replicate 16 0) ++
    0 :: 1 :: 255 :: 251 :: replicate (Z.to_nat 65531) 0) = None.
Proof.
  split; [reflexivity|]. apply parse_diverges; [reflexivity|].
  unfold len. rewrite length_replicate. lia.
Defined.

(** ** Serialisation and parsing *)

(** What [newAttribute] builds from up to 65532 bytes. *)
Definition wf_attribute (a : attribute) : Prop :=
  in_width 16 (a_types a) /\ Forall is_byte (a_value a) /\
  a_length a = len (a_value a) /\ len (a_value a) mod 4 = 0 /\ len (a_value a) <= 65532.

Definition attribute_size (a : attribute) : Z := len (a_value a) + 4.
Definition size (l : list attribute) : Z := foldr (fun a n => attribute_size a + n) 0 l.

(** The loop needs more than four bytes to go on, so an empty attribute in the
    last place is not seen. *)
Definition last_nonempty (l : list attribute) : Prop :=
  match list.last l with Some a => a_value a <> [] | None => True end.

Record wf_packet (p : packet) : Prop := {
  wf_types : in_width 16 (p_types p);
  wf_transID : length (p_transID p) = 16%nat /\ Forall is_byte (p_transID p);
  wf_attributes : Forall wf_attribute (p_attributes p);
  wf_length : p_length p = size (p_attributes p);
  wf_size : size (p_attributes p) <= 65528
}.

Lemma padding_eq b : len b <= 65532 ->
  padding b = b ++ replicate (Z.to_nat (4 * ((len b + 3) / 4) - len b)) 0.
Proof.
  intros H. assert (0 <= len b) by (unfold len; lia). unfold padding.
  rewrite (wrap_small 16 (len b)) by (unfold in_width; lia).
  rewrite align_small by lia. do 3 f_equal. apply wrap_small. unfold in_width. lia.
Qed.

Lemma newAttribute_wf t v :
  in_width 16 t -> Forall is_byte v -> len v <= 65532 -> wf_attribute (newAttribute t v).
Proof.
  intros Ht Hv Hl. assert (0 <= len v) by (unfold len; lia).
  assert (Hlen : len (padding v) = 4 * ((len v + 3) / 4)).
  { rewrite padding_eq by done. unfold len in *. rewrite length_app, length_replicate. lia. }
  repeat split; simpl; rewrite ?Hlen; try done; try lia.
  - apply Ht.
  - apply Ht.
  - rewrite padding_eq by done. apply Forall_app_2; [done|]. by apply Forall_replicate.
  - apply wrap_small. unfold in_width. lia.
Qed.

(** [newAttribute] on an aligned value adds nothing. *)
Lemma newAttribute_aligned a :
  wf_attribute a -> newAttribute (a_types a) (a_value a) = a.
Proof.
  intros (_ & _ & Hl & Hm & Hb). unfold newAttribute. rewrite padding_eq by done.
  assert (0 <= len (a_value a)) by (unfold len; lia).
  replace (4 * _ - _) with 0 by lia. rewrite app_nil_r, wrap_small by (unfold in_width; lia).
  rewrite <- Hl. by destruct a.
Qed.

Lemma attribute_bytes_len a : len (attribute_bytes a) = attribute_size a.
Proof. unfold len, attribute_bytes, attribute_size, len. simpl. lia. Qed.

Lemma size_cons a l : size (a :: l) = attribute_size a + size l.
Proof. done. Qed.

Lemma attributes_bytes_len l : len (concat (map attribute_bytes l)) = size l.
Proof.
  induction l as [|a l IH]; [done|]. rewrite size_cons, <- attribute_bytes_len, <- IH.
  cbn [map concat]. unfold len. rewrite length_app. lia.
Qed.

Lemma size_nonneg l : 0 <= size l.
Proof. rewrite <- attributes_bytes_len. unfold len. lia. Qed.

Lemma fold_addAttribute l types L id acc :
  Forall wf_attribute l ->
  fold_left addAttribute l (mkPacket types (u16 L) id acc) =
  mkPacket types (u16 (L + size l)) id (acc ++ l).
Proof.
  intros H. revert L acc. induction H as [|a l Ha Hl IH]; intros L acc; simpl.
  - by rewrite Z.add_0_r, app_nil_r.
  - destruct Ha as (_ & _ & Hlen & Hm & Hb). unfold addAttribute at 2. simpl.
    assert (0 <= len (a_value a)) by (unfold len; lia).
    rewrite Hlen, align_small by lia.
    assert (Heq : u16 (u16 L + u16 (4 * ((len (a_value a) + 3) / 4) + 4)) =
                  u16 (L + attribute_size a)).
    { unfold wrap, attribute_size. rewrite <- Z.add_mod by lia. f_equal. lia. }
    rewrite Heq, IH, <- app_assoc. simpl. do 2 f_equal. lia.
Qed.

Lemma attribute_bytes_fields a rest :
  wf_attribute a ->
  Uint16 (attribute_bytes a ++ rest) = a_types a /\
  Uint16 (drop 2 (attribute_bytes a ++ rest)) = a_length a /\
  drop 4 (attribute_bytes a ++ rest) = a_value a ++ rest.
Proof.
  intros (Ht & _ & Hl & _ & Hb). unfold attribute_bytes. rewrite <- !app_assoc.
  assert (0 <= len (a_value a)) by (unfold len; lia).
  split_and!; [by apply Uint16_PutUint16| |done].
  apply (Uint16_PutUint16 (a_length a)). unfold in_width. lia.
Qed.

Lemma attribute_fits buf pos a l :
  0 <= pos -> drop (Z.to_nat pos) buf = concat (map attribute_bytes (a :: l)) ->
  len buf = pos + attribute_size a + size l.
Proof.
  intros Hp Hd. apply (f_equal len) in Hd. rewrite attributes_bytes_len, size_cons in Hd.
  pose proof (size_nonneg l).
  unfold len in *. rewrite length_drop in Hd. unfold attribute_size, len in *. lia.
Qed.

Lemma parse_attribute_bytes buf pos a l :
  good_pos buf pos -> wf_attribute a -> pos + 4 < len buf ->
  drop (Z.to_nat pos) buf = concat (map attribute_bytes (a :: l)) ->
  parse_attribute buf pos = Ok (a, buf, pos + attribute_size a).
Proof.
  intros (Hb & Hl & Hp & Hm) Ha Hlt Hd. pose proof (attribute_fits _ _ _ _ (proj1 Hp) Hd) as Hlen.
  pose proof Ha as (Hta & Hva & Hla & Hma & Hba). pose proof (size_nonneg l).
  rewrite parse_attribute_eq by (done || lia). cbv zeta. rewrite Hd. cbn [map concat].
  destruct (attribute_bytes_fields a (concat (map attribute_bytes l)) Ha) as (-> & -> & ->).
  assert (0 <= len (a_value a)) by (unfold len; lia). unfold attribute_size in *.
  rewrite Hla, (proj2 (Z.ltb_ge _ _)) by lia.
  replace (Z.to_nat (len (a_value a))) with (length (a_value a)) by (unfold len; lia).
  rewrite take_app_length, newAttribute_aligned by done. rewrite align_small by lia.
  replace (4 * ((len (a_value a) + 3) / 4)) with (len (a_value a)) by lia.
  rewrite Z.sub_diag. unfold zero_padding. simpl replicate.
  rewrite Z.add_0_r, app_nil_l, take_drop. do 2 f_equal. lia.
Qed.

Lemma parse_loop_bytes l : forall fuel buf pos pkt,
  good_pos buf pos -> drop (Z.to_nat pos) buf = concat (map attribute_bytes l) ->
  Forall wf_attribute l -> last_nonempty l -> (length l < fuel)%nat ->
  parse_loop fuel buf pos pkt = Some (Ok (fold_left addAttribute l pkt)).
Proof.
  induction l as [|a l IH]; intros fuel buf pos pkt Hg Hd Hwf Hlast Hf;
    (destruct fuel as [|fuel]; [simpl in Hf; lia|]); pose proof Hg as (Hb & Hl & Hp & Hm);
    cbn [parse_loop];
    rewrite (wrap_small 16 (pos + 4)), (wrap_small 16 (len buf))
      by (unfold in_width, len in *; change (2 ^ 16) with 65536; lia).
  - apply (f_equal length) in Hd. rewrite length_drop in Hd. simpl in Hd.
    rewrite (proj2 (Z.ltb_ge _ _)) by (unfold len; lia). done.
  - inversion Hwf as [|? ? Ha Hwf']; subst. pose proof (size_nonneg l).
    pose proof (attribute_fits _ _ _ _ (proj1 Hp) Hd) as Hlen. unfold attribute_size in Hlen.
    assert (Hlt : pos + 4 < len buf).
    { destruct l as [|a' l]; [|rewrite size_cons in Hlen; pose proof (size_nonneg l);
        unfold attribute_size, len in *; lia].
      unfold last_nonempty in Hlast. simpl in Hlast.
      destruct (a_value a); [done|]. unfold len in *. simpl in Hlen. lia. }
    rewrite (proj2 (Z.ltb_lt _ _)), (parse_attribute_bytes buf pos a l) by done.
    destruct Ha as (_ & _ & _ & Hma & _).
    apply IH; try done; [| |destruct l; [done|]; exact Hlast|simpl in Hf; lia].
    + repeat split; try done; unfold attribute_size, len in *; lia.
    + replace (Z.to_nat (pos + attribute_size a))
        with (Z.to_nat pos + length (attribute_bytes a))%nat
        by (pose proof (attribute_bytes_len a); unfold attribute_size, len in *; lia).
      rewrite <- drop_drop, Hd. cbn [map concat]. apply drop_app_length.
Qed.

Lemma PutUint16_bytes v : Forall is_byte (PutUint16 v).
Proof. repeat constructor; unfold is_byte, in_width; lia. Qed.

Lemma attributes_bytes_bytes l :
  Forall wf_attribute l -> Forall is_byte (concat (map attribute_bytes l)).
Proof.
  induction 1 as [|a l (_ & Hv & _) _ IH]; [done|]. cbn [map concat].
  repeat apply Forall_app_2; try done; apply PutUint16_bytes.
Qed.

Lemma attributes_count l : (length l <= length (concat (map attribute_bytes l)))%nat.
Proof.
  induction l as [|a l IH]; [done|]. cbn [map concat length]. rewrite length_app.
  unfold attribute_bytes at 1. simpl length at 2. lia.
Qed.

(** The content of [parse_bytes], for use in other proofs. *)
Lemma parse_roundtrip p :
  wf_packet p -> last_nonempty (p_attributes p) ->
  parse (packet_bytes p) =
  Some (Ok (mkPacket (p_types p) (u16 (2 * p_length p)) (p_transID p) (p_attributes p))).
Proof.
  intros [Ht (Hid & Hidb) Ha Hl Hs] Hlast. unfold parse, newPacketFromBytes.
  pose proof (size_nonneg (p_attributes p)) as Hpos.
  set (body := concat (map attribute_bytes (p_attributes p))).
  assert (Hbody : len body = size (p_attributes p)) by apply attributes_bytes_len.
  assert (Hlen : len (packet_bytes p) = 20 + len body).
  { unfold packet_bytes, len. rewrite !length_app. simpl. fold body. lia. }
  rewrite (proj2 (Z.ltb_ge _ _)), (proj2 (Z.ltb_ge _ _)) by lia. cbv zeta.
  assert (Hd4 : drop 4 (packet_bytes p) = p_transID p ++ body) by done.
  replace (drop 20 (packet_bytes p)) with body
    by (change 20%nat with (4 + 16)%nat; rewrite <- drop_drop, Hd4, <- Hid;
        by rewrite drop_app_length).
  rewrite Hd4. rewrite <- Hid at 1. rewrite take_app_length.
  change (Uint16 (packet_bytes p)) with (Uint16 (PutUint16 (p_types p) ++ drop 2 (packet_bytes p))).
  change (Uint16 (drop 2 (packet_bytes p)))
    with (Uint16 (PutUint16 (p_length p) ++ p_transID p ++ body)).
  rewrite !Uint16_PutUint16 by (done || (unfold in_width; lia)).
  rewrite (parse_loop_bytes (p_attributes p)); try done.
  - rewrite <- (wrap_small 16 (p_length p)) at 1 by (unfold in_width; lia).
    rewrite fold_addAttribute by done. simpl. do 4 f_equal. lia.
  - repeat split; try done; try lia. by apply attributes_bytes_bytes.
  - pose proof (attributes_count (p_attributes p)). fold body in H. unfold len in Hlen. lia.
Qed.

(** C20: parsing inverts serialisation.  A well-formed packet whose last
    attribute is not empty is read back from its bytes with the same type,
    transaction id and attributes; only [length] differs, because the parser
    keeps the header's length and [addAttribute] counts every attribute
    again.  An empty last attribute is lost ([empty_last_attribute_lost]). *)
Theorem parse_bytes p :
  wf_packet p -> last_nonempty (p_attributes p) ->
  parse (packet_bytes p) =
  Some (Ok (mkPacket (p_types p) (u16 (2 * p_length p)) (p_transID p) (p_attributes p))).
Proof. apply parse_roundtrip. Qed.

(** The loop ends four bytes before the end: an empty attribute there is not read. *)
Definition empty_last : packet :=
  addAttribute (mkPacket 1 0 (replicate 16 7) []) (mkAttribute 6 0 []).
Example empty_last_attribute_lost :
  match parse (packet_bytes empty_last) with Some (Ok p) => p_attributes p = [] | _ => False end /\
  length (p_attributes empty_last) = 1%nat.
Proof. vm_compute. done. Qed.

(** ** The binding request *)

Lemma addAttribute_wf p a :
  wf_packet p -> wf_attribute a -> size (p_attributes p) + attribute_size a <= 65528 ->
  wf_packet (addAttribute p a).
Proof.
  intros [Ht Hid Ha Hl Hs] Hwa Hsz.
  assert (Hsize : size (p_attributes p ++ [a]) = size (p_attributes p) + attribute_size a).
  { clear. induction (p_attributes p) as [|b l IH]; [cbn; lia|].
    rewrite <- app_comm_cons, !size_cons. lia. }
  split; cbn [addAttribute p_types p_transID p_attributes p_length]; try done.
  - apply Forall_app_2; [done|]. by constructor.
  - rewrite Hsize. pose proof (size_nonneg (p_attributes p)).
    destruct Hwa as (_ & _ & Hla & Hm & Hb). unfold attribute_size in *.
    assert (0 <= len (a_value a)) by (unfold len; lia).
    rewrite Hla, Hl, align_small by lia.
    rewrite (wrap_small 16 (4 * _ + 4)), wrap_small by (unfold in_width; lia). lia.
  - by rewrite Hsize.
Qed.

Lemma PutUint32_bytes v : Forall is_byte (PutUint32 v).
Proof. repeat constructor; unfold is_byte, in_width; lia. Qed.

Lemma newChangeReqAttribute_eq ip port :
  newChangeReqAttribute ip port =
  mkAttribute attributeChangeRequest 4 [0; 0; 0; (if ip then 4 else 0) + (if port then 2 else 0)].
Proof. by destruct ip, port. Qed.

Lemma newFingerprintAttribute_eq v :
  newFingerprintAttribute v = mkAttribute attributeFingerprint 4
    (PutUint32 (Z.lxor (ChecksumIEEE (packet_bytes v)) fingerprint)).
Proof. done. Qed.

(** The request before its fingerprint is well-formed. *)
Lemma unsigned_request_wf id name ip port :
  length id = 12%nat -> Forall is_byte id -> len (string_bytes name) <= 65500 ->
  let pkt := addAttribute (mkPacket typeBindingRequest 0 (PutUint32 magicCookie ++ id) [])
               (newSoftwareAttribute name) in
  let pkt := if ip || port then addAttribute pkt (newChangeReqAttribute ip port) else pkt in
  wf_packet pkt /\ size (p_attributes pkt) <= 65520.
Proof.
  intros Hid Hb Hn. cbv zeta.
  assert (Hsw : wf_attribute (newSoftwareAttribute name)).
  { apply newAttribute_wf; [done|apply string_bytes_bytes|lia]. }
  assert (Hssz : attribute_size (newSoftwareAttribute name) <= 65508).
  { unfold attribute_size, newSoftwareAttribute, newAttribute. cbn [a_value].
    rewrite padding_eq by lia. unfold len in *. rewrite length_app, length_replicate. lia. }
  assert (H0 : wf_packet (mkPacket typeBindingRequest 0 (PutUint32 magicCookie ++ id) [])).
  { split; try done. cbn [p_transID]. split; [rewrite length_app, Hid; done|].
    apply Forall_app_2; [apply PutUint32_bytes|done]. }
  assert (Hcsz : attribute_size (newChangeReqAttribute ip port) = 8) by (by destruct ip, port).
  assert (Hcw : wf_attribute (newChangeReqAttribute ip port)).
  { rewrite newChangeReqAttribute_eq. repeat split; try done.
    repeat constructor; try done; by destruct ip, port. }
  assert (H1 : wf_packet (addAttribute (mkPacket typeBindingRequest 0 (PutUint32 magicCookie ++ id) [])
                 (newSoftwareAttribute name))).
  { apply addAttribute_wf; try done. cbn [p_attributes]. change (size []) with 0. lia. }
  destruct (ip || port).
  - split; [apply addAttribute_wf; try done|]; cbn [addAttribute p_attributes app];
      rewrite !size_cons; change (size []) with 0; lia.
  - split; [done|]. cbn [addAttribute p_attributes app]. rewrite size_cons.
    change (size []) with 0. lia.
Qed.

(** The last steps of the request: checksum and fingerprint. *)
Definition add_fingerprint (pkt : packet) : packet :=
  let pkt := set_length pkt (u16 (p_length pkt + 8)) in
  let a := newFingerprintAttribute pkt in
  addAttribute (set_length pkt (u16 (p_length pkt - 8))) a.

Lemma add_fingerprint_spec q :
  wf_packet q -> size (p_attributes q) <= 65520 ->
  let covered := packet_bytes (set_length q (p_length q + 8)) in
  wf_packet (add_fingerprint q) /\ last_nonempty (p_attributes (add_fingerprint q)) /\
  packet_bytes (add_fingerprint q) = covered ++ PutUint16 attributeFingerprint ++ PutUint16 4 ++
    PutUint32 (Z.lxor (ChecksumIEEE covered) fingerprint) /\
  Uint16 (drop 2 covered) = len (packet_bytes (add_fingerprint q)) - 20.
Proof.
  intros Hq Hsz. pose proof (size_nonneg (p_attributes q)) as Hpos.
  pose proof (wf_length _ Hq) as Hlen. unfold add_fingerprint. cbv zeta. cbn [set_length p_length].
  rewrite (wrap_small 16 (p_length q + 8)) by (unfold in_width; lia).
  rewrite wrap_small by (unfold in_width; lia). rewrite Z.add_simpl_r.
  set (covered := packet_bytes (set_length q _)). set (fp := newFingerprintAttribute _).
  replace (set_length (set_length q (p_length q + 8)) (p_length q)) with q by by destruct q.
  assert (Hbytes : packet_bytes (addAttribute q fp) = covered ++ attribute_bytes fp).
  { unfold covered, packet_bytes.
    cbn [addAttribute set_length p_types p_transID p_attributes p_length].
    rewrite map_app, concat_app. cbn [map concat]. rewrite app_nil_r, <- !app_assoc.
    do 2 f_equal. f_equal. change (a_length fp) with 4. change (u16 (align 4 + 4)) with 8.
    apply wrap_small. unfold in_width. lia. }
  assert (Hcov : len covered = 20 + size (p_attributes q)).
  { rewrite <- attributes_bytes_len. unfold covered, packet_bytes, len.
    cbn [set_length p_transID p_attributes]. rewrite !length_app, (proj1 (wf_transID _ Hq)).
    simpl. lia. }
  split_and!.
  - apply addAttribute_wf; [done| |change (attribute_size fp) with 8; lia].
    repeat split; try done. apply PutUint32_bytes.
  - unfold last_nonempty. cbn [addAttribute p_attributes]. by rewrite last_snoc.
  - rewrite Hbytes. done.
  - rewrite Hbytes. replace (len (covered ++ attribute_bytes fp)) with (len covered + 8)
      by (unfold len; rewrite length_app; simpl length; lia). rewrite Hcov.
    change (drop 2 covered) with (PutUint16 (p_length q + 8) ++ drop 4 covered).
    rewrite Uint16_PutUint16 by (unfold in_width; lia). lia.
Qed.

(** The request a client sends is a valid RFC 5389 message.  It is
    well-formed and reads back as itself; its last attribute is the
    FINGERPRINT: the CRC-32 of the bytes before it, exclusive-or 0x5354554e,
    where those bytes already carry the length of the complete message. *)
Theorem binding_request_fingerprint id name ip port :
  length id = 12%nat -> Forall is_byte id -> len (string_bytes name) <= 65500 ->
  exists pkt covered,
    newBindingRequest (Ok id) name ip port = Ok pkt /\ wf_packet pkt /\
    p_transID pkt = PutUint32 magicCookie ++ id /\
    packet_bytes pkt = covered ++ PutUint16 attributeFingerprint ++ PutUint16 4 ++
                       PutUint32 (Z.lxor (ChecksumIEEE covered) fingerprint) /\
    Uint16 (drop 2 covered) = len (packet_bytes pkt) - 20 /\
    (exists p, parse (packet_bytes pkt) = Some (Ok p) /\ p_attributes p = p_attributes pkt).
Proof.
  intros Hid Hb Hn. destruct (unsigned_request_wf id name ip port Hid Hb Hn) as [Hq Hsz].
  destruct (add_fingerprint_spec _ Hq Hsz) as (Hwf & Hlast & Hbytes & Hlen).
  eexists _, _. split; [reflexivity|]. split_and!; [exact Hwf| |exact Hbytes|exact Hlen|].
  - by destruct (ip || port).
  - eexists. split; [by apply parse_roundtrip|done].
Qed.

Lemma binding_request_fingerprint_witness :
  len (string_bytes "StunClient") = 10 /\
  exists pkt, newBindingRequest (Ok (replicate 12 7)) "StunClient" true false = Ok pkt /\
              wf_packet pkt.
Proof.
  split; [reflexivity|].
  destruct (binding_request_fingerprint (replicate 12 7) "StunClient" true false)
    as (pkt & covered & H & Hwf & _).
  - reflexivity.
  - apply bytes_check; reflexivity.
  - vm_compute. discriminate.
  - exists pkt. split; [exact H|exact Hwf].
Defined.

Definition sample_packet : packet :=
  mkPacket 0x0101 12 (PutUint32 magicCookie ++ replicate 12 9)
    [mkAttribute attributeMappedAddress 8 [0; 1; 31; 144; 10; 0; 0; 1]].

Lemma parse_bytes_witness :
  len (packet_bytes sample_packet) = 32 /\
  parse (packet_bytes sample_packet) = Some (Ok (set_length sample_packet 24)).
Proof.
  split; [reflexivity|].
  refine (eq_trans (parse_bytes sample_packet _ _) _); [|discriminate|reflexivity].
  split; try reflexivity.
  - unfold in_width. cbn. lia.
  - split; [reflexivity|]. apply bytes_check; reflexivity.
  - constructor; [|constructor]. split_and!; try reflexivity; [|apply bytes_check; reflexivity|].
    all: unfold in_width; vm_compute; (split; [discriminate|reflexivity]) || discriminate.
  - vm_compute. discriminate.
Defined.

(** ** Address attributes *)

Section XorAddress.
Context {IT : IPText}.

Lemma xor_loop_total value transID :
  (length value <= length transID)%nat -> exists x, xor_loop value transID = Ok x /\ length x = length value.
Proof.
  revert transID. induction value as [|v value IH]; intros [|y t] H; simpl in *; try lia;
    [by eexists|by eexists|].
  destruct (IH t) as (x & -> & Hx); [lia|]. eexists. split; [done|]. simpl. by rewrite Hx.
Qed.

Lemma xor_loop_zip ip t :
  (length ip <= length t)%nat -> xor_loop (zip_with Z.lxor ip t) t = Ok ip.
Proof.
  revert t. induction ip as [|x ip IH]; intros [|y t] H; simpl in *; try lia; try done.
  rewrite IH by lia. simpl. by rewrite Z.lxor_assoc, Z.lxor_nilpotent, Z.lxor_0_r.
Qed.

(** XOR-MAPPED-ADDRESS as a server encodes it (RFC 5389, section 15.2). *)
Definition xor_encode (family : Z) (ip : bytes) (port : Z) (transID : bytes) : bytes :=
  [0; family] ++ PutUint16 (Z.lxor port (Uint16 transID)) ++ zip_with Z.lxor ip transID.

Lemma lxor_width w a b : 0 <= w -> in_width w a -> in_width w b -> in_width w (Z.lxor a b).
Proof.
  intros Hw Ha Hb. replace (Z.lxor a b) with (wrap w (Z.lxor a b)); [by apply wrap_range|].
  rewrite <- (wrap_small w a Ha), <- (wrap_small w b Hb). unfold wrap.
  apply Z.bits_inj'. intros n Hn. destruct (decide (n < w)).
  - by rewrite Z.mod_pow2_bits_low by lia.
  - by rewrite Z.lxor_spec, !Z.mod_pow2_bits_high by lia.
Qed.

(** Decoding an XOR-mapped address gives back the address and port the
    server encoded with the transaction id of the request, for IPv4 addresses
    (family 1, four bytes) and for sixteen-byte addresses of another family. *)
Theorem xorAddr_decodes types family ip port transID :
  length transID = 16%nat -> Forall is_byte transID -> in_width 16 port ->
  (family = attributeFamilyIPv4 /\ length ip = 4%nat) \/
  (family <> attributeFamilyIPv4 /\ length ip = 16%nat) ->
  xorAddr (newAttribute types (xor_encode family ip port transID)) transID =
  Ok (Some (mkHost family (IP_String ip) port)).
Proof.
  intros Ht Hb Hp Hf. set (e := xor_encode family ip port transID).
  assert (Hzip : length (zip_with Z.lxor ip transID) = length ip)
    by (rewrite length_zip_with; destruct Hf as [[_ ->] | [_ ->]]; rewrite Ht; done).
  assert (Hlen : len e = 4 + Z.of_nat (length ip))
    by (unfold len, e, xor_encode; rewrite !length_app, Hzip; simpl; lia).
  assert (Hmod : (len e = 8 \/ len e = 20)) by (destruct Hf as [[_ Hi] | [_ Hi]]; lia).
  assert (Hval : a_value (newAttribute types e) = e).
  { cbn [newAttribute a_value]. rewrite padding_eq by lia.
    replace (4 * _ - _) with 0 by lia. by rewrite app_nil_r. }
  unfold xorAddr. rewrite Hval. rewrite (proj2 (Z.ltb_ge (len e) 8)), (proj2 (Z.ltb_ge 20 (len e))) by lia.
  change (drop 4 e) with (zip_with Z.lxor ip transID).
  rewrite xor_loop_zip by (destruct Hf as [[_ ->] | [_ ->]]; lia). cbn [orb mbind res_bind].
  change (index e 1) with (Ok family). cbn [mbind res_bind].
  rewrite (slice_ok e 2 4) by lia. change (take _ (drop (Z.to_nat 2) e)) with (PutUint16 (Z.lxor port (Uint16 transID)) ++ []).
  cbn [mbind res_bind]. rewrite (slice_ok transID 0 2) by (unfold len; lia). cbn [mbind res_bind].
  change (drop (Z.to_nat 0) transID) with transID. rewrite take_Uint16 by (vm_compute; lia).
  rewrite Uint16_PutUint16 by (apply lxor_width; [lia|done|by apply Uint16_range]).
  rewrite Z.lxor_assoc, Z.lxor_nilpotent, Z.lxor_0_r. do 4 f_equal.
  destruct Hf as [[-> Hi] | [Hne Hi]].
  - rewrite Z.eqb_refl, <- Hi. by rewrite take_app_length.
  - rewrite (proj2 (Z.eqb_neq _ _) Hne), Hi, Nat.sub_diag. by rewrite app_nil_r.
Qed.

(** No address attribute of a received packet makes the client panic. *)
Lemma xorAddr_total a transID :
  length transID = 16%nat -> exists h, xorAddr a transID = Ok h.
Proof.
  intros Ht. unfold xorAddr.
  destruct (Z.ltb_spec (len (a_value a)) 8); [by eexists|].
  destruct (Z.ltb_spec 20 (len (a_value a))); [by eexists|]. cbn [orb].
  destruct (xor_loop_total (drop 4 (a_value a)) transID) as (x & -> & _).
  { rewrite length_drop. unfold len in *. lia. }
  cbn [mbind res_bind]. unfold index.
  destruct (lookup_lt_is_Some_2 (a_value a) (Z.to_nat 1)) as [f ->]; [unfold len in *; lia|].
  cbn [mbind res_bind]. rewrite !slice_ok by (unfold len in *; lia). by eexists.
Qed.

Lemma rawAddr_total a : exists h, rawAddr a = Ok h.
Proof.
  unfold rawAddr. destruct (Z.ltb_spec (len (a_value a)) 8); [by eexists|].
  unfold index.
  destruct (lookup_lt_is_Some_2 (a_value a) (Z.to_nat 1)) as [f ->]; [unfold len in *; lia|].
  cbn [mbind res_bind]. rewrite slice_ok by lia. by eexists.
Qed.

Lemma getRawAddr_total v t : exists h, getRawAddr v t = Ok h.
Proof. unfold getRawAddr. destruct (find_attribute v t); [apply rawAddr_total|by eexists]. Qed.

Lemma getXorMappedAddr_total v : length (p_transID v) = 16%nat -> exists h, getXorMappedAddr v = Ok h.
Proof.
  intros Hv. assert (Hx : forall t, exists h, getXorAddr v t = Ok h).
  { intros t. unfold getXorAddr. destruct (find_attribute v t); [by apply xorAddr_total|by eexists]. }
  unfold getXorMappedAddr. destruct (Hx attributeXorMappedAddress) as [[h|] ->]; simpl; [by eexists|].
  apply Hx.
Qed.
End XorAddress.

Lemma xorAddr_decodes_witness :
  xorAddr (IT := {| IP_String := fun _ => "192.0.2.1" |})
    (newAttribute attributeXorMappedAddress
       (xor_encode 1 [192; 0; 2; 1] 32853 (PutUint32 magicCookie ++ replicate 12 5)))
    (PutUint32 magicCookie ++ replicate 12 5) =
  Ok (Some (mkHost 1 "192.0.2.1" 32853)).
Proof.
  apply (xorAddr_decodes (IT := {| IP_String := fun _ => "192.0.2.1" |})).
  - reflexivity.
  - apply bytes_check; reflexivity.
  - unfold in_width. lia.
  - left. split; reflexivity.
Defined.
