(* ===== verification/StunClient.v ===== *)
(** * The STUN client

    [libcore/stun]: sending a binding request with retransmission ([net.go]),
    building the response ([response.go], [host.go], [utils.go]), the tests
    ([tests.go]) and the two discovery procedures ([discover.go], [client.go]).

    The connection is used by steps: the log of what was sent is the state,
    and an environment answers every transmission with the outcome of the
    write and with the datagrams that arrive before the deadline. *)

From stdpp Require Import base numbers list strings option.
From Stdlib Require Import ZArith Lia.
From S2P Require Import Prelude Bytes StunPacket.

Local Open Scope Z_scope.

(** ** Addresses *)

(** [net.UDPAddr] without its zone; a nil [net.IP] is the empty list. *)
Record UDPAddr := mkUDPAddr { u_IP : bytes; u_Port : Z }.
#[global] Instance UDPAddr_eq_dec : EqDecision UDPAddr.
Proof. solve_decision. Defined.
#[global] Instance Host_eq_dec : EqDecision Host.
Proof. solve_decision. Defined.

(** Functions of package [net] that depend on the system or on textual
    formats. *)
Class NetLib := {
  net_IPText :: IPText;
  ResolveUDPAddr : string -> Res UDPAddr;
  InterfaceAddrs : Res (list string);
  ParseCIDR : string -> Res bytes;
  ParseIP : string -> bytes;
  JoinHostPort : string -> string -> string;
  Itoa : Z -> string
}.

(** [net.IP.To4], [Equal] and [IsUnspecified] *)
Definition v4InV6Prefix : bytes := replicate 10 0 ++ [255; 255].
Definition To4 (ip : bytes) : option bytes :=
  if Nat.eqb (length ip) 4 then Some ip
  else if Nat.eqb (length ip) 16 && bool_decide (take 12 ip = v4InV6Prefix)
  then Some (drop 12 ip)
  else None.
Definition IP_Equal (ip x : bytes) : bool :=
  if Nat.eqb (length ip) (length x) then bool_decide (ip = x)
  else if Nat.eqb (length ip) 4 && Nat.eqb (length x) 16
  then bool_decide (take 12 x = v4InV6Prefix) && bool_decide (ip = drop 12 x)
  else if Nat.eqb (length ip) 16 && Nat.eqb (length x) 4
  then bool_decide (take 12 ip = v4InV6Prefix) && bool_decide (drop 12 ip = x)
  else false.
Definition IsUnspecified (ip : bytes) : bool :=
  IP_Equal ip (v4InV6Prefix ++ [0; 0; 0; 0]) || IP_Equal ip (replicate 16 0).

Section Client.
Context {NL : NetLib}.

(** [(h *Host) TransportAddr] and [String] *)
Definition TransportAddr (h : Host) : string := JoinHostPort (h_ip h) (Itoa (h_port h)).

(** [newHostFromStr] *)
Definition newHostFromStr (s : string) : option Host :=
  match ResolveUDPAddr s with
  | Ok udpAddr =>
      let family := match To4 (u_IP udpAddr) with
                    | Some _ => attributeFamilyIPv4
                    | None => attributeFamilyIPV6
                    end in
      Some (mkHost family (IP_String (u_IP udpAddr)) (u16 (u_Port udpAddr)))
  | _ => None
  end.

(** A method of a nil [*Host] dereferences it. *)
Definition Host_IP (h : option Host) : Res string :=
  match h with Some h => Ok (h_ip h) | None => Panic "nil pointer dereference" end.
Definition Host_Port (h : option Host) : Res Z :=
  match h with Some h => Ok (h_port h) | None => Panic "nil pointer dereference" end.

(** [isLocalAddress] *)
Definition isLocalAddress (local localRemote : string) : bool :=
  match ResolveUDPAddr localRemote with
  | Ok localRemoteAddr =>
      let fallback :=
        match InterfaceAddrs with
        | Ok addrs =>
            existsb (fun addr => match ParseCIDR addr with
                                 | Ok ip => IP_Equal ip (u_IP localRemoteAddr)
                                 | _ => false
                                 end) addrs
        | _ => false
        end in
      match ResolveUDPAddr local with
      | Ok addr =>
          if negb (bool_decide (u_IP addr = [])) && negb (IsUnspecified (u_IP addr))
          then IP_Equal (u_IP addr) (u_IP localRemoteAddr)
          else fallback
      | _ => fallback
      end
  | _ => false
  end.

(** ** Responses *)

Record response := mkResponse {
  r_packet : option packet;
  r_serverAddr : option Host;
  r_changedAddr : option Host;
  r_mappedAddr : option Host;
  r_otherAddr : option Host;
  r_identical : bool
}.

(** [newResponse]; [local] is [conn.LocalAddr().String()]. *)
Definition newResponse (pkt : option packet) (local : string) : Res response :=
  match pkt with
  | None => Ok (mkResponse None None None None None false)
  | Some p =>
      xorAddr ← getXorMappedAddr p;
      mappedAddr ← match xorAddr with None => getMappedAddr p | Some _ => Ok xorAddr end;
      let identical := match mappedAddr with
                       | Some h => isLocalAddress local (TransportAddr h)
                       | None => false
                       end in
      changedAddr ← getChangedAddr p;
      otherAddr ← getOtherAddr p;
      let resolve (h : option Host) :=
        match h with Some h => newHostFromStr (TransportAddr h) | None => None end in
      Ok (mkResponse pkt None (resolve changedAddr) mappedAddr (resolve otherAddr) identical)
  end.

Definition set_serverAddr (r : response) (h : option Host) : response :=
  mkResponse (r_packet r) h (r_changedAddr r) (r_mappedAddr r) (r_otherAddr r) (r_identical r).

(** ** The connection *)

(** A transmission and what the environment does with it: the outcome of
    [WriteTo] and [SetReadDeadline], the datagrams (with [raddr.String()])
    that arrive before the deadline, and the error that ends reading. *)
Record Sent := mkSent { s_bytes : bytes; s_addr : UDPAddr; s_timeout : Z }.
Record Datagram := mkDatagram { d_bytes : bytes; d_from : string }.
Inductive ReadEnd := ReadTimeout | ReadError (e : error).
Record Attempt := mkAttempt {
  at_write : Z + error;
  at_deadline : option error;
  at_reads : list Datagram;
  at_end : ReadEnd
}.
Record Network := mkNetwork {
  n_rand : nat -> Res bytes;
  n_respond : list Sent -> Attempt;
  n_local : string
}.
Record Conn := mkConn { c_log : list Sent; c_requests : nat }.

Context (net : Network).

Definition numRetransmit : nat := 9.
Definition defaultTimeout : Z := 100.
Definition maxTimeout : Z := 1600.
Definition maxPacketSize : nat := 1024.

(** The inner loop of [send]: datagrams that do not parse or carry another
    transaction id are skipped; [Ok None] is its [break]. *)
Fixpoint read_loop (pkt : packet) (reads : list Datagram) (e : ReadEnd) : Res (option response) :=
  match reads with
  | [] => match e with ReadTimeout => Ok None | ReadError e => Err e end
  | d :: rest =>
      match parse (take maxPacketSize (d_bytes d)) with
      | Some (Ok p) =>
          if negb (bool_decide (p_transID pkt = p_transID p)) then read_loop pkt rest e
          else
            resp ← newResponse (Some p) (n_local net);
            Ok (Some (set_serverAddr resp (newHostFromStr (d_from d))))
      | Some (Err _) => read_loop pkt rest e
      | Some (Panic msg) => Panic msg
      | None => Panic "the parser does not terminate"
      end
  end.

(** [(c *Client) send]: [n] transmissions are left. *)
Fixpoint send_loop (pkt : packet) (addr : UDPAddr) (n : nat) (timeout : Z) (c : Conn)
  : Res (option response) * Conn :=
  match n with
  | O => (Ok None, c)
  | S n =>
      let c := mkConn (c_log c ++ [mkSent (packet_bytes pkt) addr timeout]) (c_requests c) in
      let a := n_respond net (c_log c) in
      match at_write a with
      | inr e => (Err e, c)
      | inl length =>
          if negb (length =? len (packet_bytes pkt))
          then (Err (E_New [AStr "Error in sending data."]), c)
          else match at_deadline a with
          | Some e => (Err e, c)
          | None =>
              let timeout := if timeout <? maxTimeout then timeout * 2 else timeout in
              match read_loop pkt (at_reads a) (at_end a) with
              | Ok None => send_loop pkt addr n timeout c
              | r => (r, c)
              end
          end
      end
  end.
Definition send (pkt : packet) (addr : UDPAddr) (c : Conn) : Res (option response) * Conn :=
  send_loop pkt addr numRetransmit defaultTimeout c.

(** [(c *Client) sendBindingReq] *)
Definition sendBindingReq (softwareName : string) (addr : UDPAddr) (changeIP changePort : bool)
    (c : Conn) : Res (option response) * Conn :=
  let rand := n_rand net (c_requests c) in
  let c := mkConn (c_log c) (S (c_requests c)) in
  match newBindingRequest rand softwareName changeIP changePort with
  | Ok pkt => send pkt addr c
  | Err e => (Err e, c)
  | Panic msg => (Panic msg, c)
  end.

(** ** What [send] does *)

(** The first datagram that is an answer to [pkt]. *)
Definition answers (pkt : packet) (d : Datagram) : option packet :=
  match parse (take maxPacketSize (d_bytes d)) with
  | Some (Ok p) => if bool_decide (p_transID pkt = p_transID p) then Some p else None
  | _ => None
  end.
Fixpoint first_answer (pkt : packet) (reads : list Datagram) : option (Datagram * packet) :=
  match reads with
  | [] => None
  | d :: rest => match answers pkt d with
                 | Some p => Some (d, p)
                 | None => first_answer pkt rest
                 end
  end.

Lemma newResponse_total p local :
  length (p_transID p) = 16%nat -> exists r, newResponse (Some p) local = Ok r.
Proof.
  intros Hp. unfold newResponse. destruct (getXorMappedAddr_total p Hp) as [x ->].
  assert (Hm : exists m, match x with None => getMappedAddr p | Some _ => Ok x end = Ok m)
    by (destruct x; [by eexists|apply getRawAddr_total]).
  destruct Hm as [m Hm]. cbn [mbind res_bind]. rewrite Hm. cbn [mbind res_bind].
  destruct (getRawAddr_total p attributeChangedAddress) as [ch Hc].
  destruct (getRawAddr_total p attributeOtherAddress) as [o Ho].
  unfold getChangedAddr, getOtherAddr. rewrite Hc. cbn [mbind res_bind]. rewrite Ho. by eexists.
Qed.

(** The response made of an answer. *)
Definition response_to (d : Datagram) (p : packet) : Res (option response) :=
  resp ← newResponse (Some p) (n_local net);
  Ok (Some (set_serverAddr resp (newHostFromStr (d_from d)))).

Definition byte_datagrams (reads : list Datagram) : Prop :=
  Forall (fun d => Forall is_byte (d_bytes d)) reads.

Lemma parse_datagram d :
  Forall is_byte (d_bytes d) ->
  (exists p, parse (take maxPacketSize (d_bytes d)) = Some (Ok p) /\ length (p_transID p) = 16%nat) \/
  (exists e, parse (take maxPacketSize (d_bytes d)) = Some (Err e)).
Proof.
  intros Hd. destruct (parse_outcomes (take maxPacketSize (d_bytes d))) as [(p & Hp & _ & _ & Hl)|[m Hm]].
  - by apply Forall_take.
  - unfold len. rewrite length_take. unfold maxPacketSize. lia.
  - left. eauto.
  - right. eauto.
Qed.

Lemma read_loop_spec pkt reads e :
  byte_datagrams reads ->
  read_loop pkt reads e =
  match first_answer pkt reads with
  | Some (d, p) => response_to d p
  | None => match e with ReadTimeout => Ok None | ReadError e => Err e end
  end.
Proof.
  induction 1 as [|d reads Hd _ IH]; [done|]. cbn [read_loop first_answer]. unfold answers.
  destruct (parse_datagram d Hd) as [(p & -> & _)|[m ->]]; [|done].
  by destruct (bool_decide (p_transID pkt = p_transID p)).
Qed.

Lemma first_answer_response pkt reads d p :
  byte_datagrams reads -> first_answer pkt reads = Some (d, p) ->
  exists r, response_to d p = Ok (Some r) /\ r_serverAddr r = newHostFromStr (d_from d).
Proof.
  intros Hb Hf.
  assert (Hp : length (p_transID p) = 16%nat).
  { revert Hf. induction Hb as [|d' reads Hd _ IH]; [done|]. cbn [first_answer]. unfold answers.
    destruct (parse_datagram d' Hd) as [(p' & -> & Hl)|[m ->]]; [|done].
    case_bool_decide; [|done]. intros [= -> ->]. done. }
  unfold response_to. destruct (newResponse_total p (n_local net) Hp) as [r ->]. by eexists.
Qed.

(** The deadlines of the nine transmissions, in milliseconds. *)
Definition timeouts : list Z := [100; 200; 400; 800; 1600; 1600; 1600; 1600; 1600].

Definition transmissions (pkt : packet) (addr : UDPAddr) (ts : list Z) : list Sent :=
  map (mkSent (packet_bytes pkt) addr) ts.

(** An attempt that leads to the next one, and the outcome of one that does
    not. *)
Definition sent_ok (pkt : packet) (a : Attempt) : bool :=
  match at_write a, at_deadline a with
  | inl n, None => n =? len (packet_bytes pkt)
  | _, _ => false
  end.
Definition quiet (pkt : packet) (a : Attempt) : bool :=
  sent_ok pkt a && match first_answer pkt (at_reads a), at_end a with
                   | None, ReadTimeout => true
                   | _, _ => false
                   end.
Definition outcome (pkt : packet) (a : Attempt) : Res (option response) :=
  match at_write a, at_deadline a with
  | inr e, _ => Err e
  | inl n, d =>
      if negb (n =? len (packet_bytes pkt)) then Err (E_New [AStr "Error in sending data."])
      else match d with
           | Some e => Err e
           | None => match first_answer pkt (at_reads a), at_end a with
                     | Some (d, p), _ => response_to d p
                     | None, ReadError e => Err e
                     | None, ReadTimeout => Ok None
                     end
           end
  end.

Lemma send_loop_step pkt addr n timeout c :
  (forall log, byte_datagrams (at_reads (n_respond net log))) ->
  let c' := mkConn (c_log c ++ [mkSent (packet_bytes pkt) addr timeout]) (c_requests c) in
  let a := n_respond net (c_log c') in
  send_loop pkt addr (S n) timeout c =
  if quiet pkt a
  then send_loop pkt addr n (if timeout <? maxTimeout then timeout * 2 else timeout) c'
  else (outcome pkt a, c').
Proof.
  intros Hb. cbv zeta. cbn [send_loop c_log c_requests]. set (a := n_respond net _).
  unfold quiet, outcome, sent_ok. rewrite read_loop_spec by apply Hb.
  destruct (at_write a) as [k|e]; [|done].
  destruct (at_deadline a); [by destruct (k =? _)|].
  destruct (k =? len (packet_bytes pkt)); [|done]. cbn [negb andb].
  destruct (first_answer pkt (at_reads a)) as [[d p]|] eqn:Hf; [|by destruct (at_end a)].
  destruct (first_answer_response _ _ _ _ (Hb _) Hf) as (r & -> & _). done.
Qed.

Fixpoint deadlines (n : nat) (timeout : Z) : list Z :=
  match n with
  | O => []
  | S n => timeout :: deadlines n (if timeout <? maxTimeout then timeout * 2 else timeout)
  end.

(** The log after [k] transmissions, and attempt [i]. *)
Definition log_after (pkt : packet) (addr : UDPAddr) (c : Conn) (ts : list Z) (k : nat) : list Sent :=
  c_log c ++ transmissions pkt addr (take k ts).
Definition attempt (pkt : packet) (addr : UDPAddr) (c : Conn) (ts : list Z) (i : nat) : Attempt :=
  n_respond net (log_after pkt addr c ts (S i)).

(** How the loop ends: every attempt was quiet, or the first that was not gives
    the result. *)
Definition send_result (pkt : packet) (addr : UDPAddr) (c : Conn) (ts : list Z)
    (out : Res (option response) * Conn) : Prop :=
  exists k, c_log (snd out) = log_after pkt addr c ts k /\
    ((k = length ts /\ fst out = Ok None /\
      forall i, (i < k)%nat -> quiet pkt (attempt pkt addr c ts i) = true) \/
     (exists j, k = S j /\ (j < length ts)%nat /\
      (forall i, (i < j)%nat -> quiet pkt (attempt pkt addr c ts i) = true) /\
      quiet pkt (attempt pkt addr c ts j) = false /\
      fst out = outcome pkt (attempt pkt addr c ts j))).

Lemma send_loop_spec pkt addr n timeout c :
  (forall log, byte_datagrams (at_reads (n_respond net log))) ->
  send_result pkt addr c (deadlines n timeout) (send_loop pkt addr n timeout c).
Proof.
  intros Hb. revert timeout c. induction n as [|n IH]; intros timeout c.
  - exists 0%nat. split; [unfold log_after; simpl; by rewrite app_nil_r|].
    left. repeat split; try done. lia.
  - rewrite send_loop_step by done. cbv zeta. cbn [c_log c_requests].
    set (c1 := mkConn (c_log c ++ [mkSent (packet_bytes pkt) addr timeout]) (c_requests c)).
    set (t' := if timeout <? maxTimeout then _ else _).
    assert (Hlog : forall k, log_after pkt addr c (deadlines (S n) timeout) (S k) =
                     log_after pkt addr c1 (deadlines n t') k).
    { intros k. unfold log_after, c1. simpl. by rewrite <- app_assoc. }
    assert (H0 : attempt pkt addr c (deadlines (S n) timeout) 0 =
                 n_respond net (c_log c ++ [mkSent (packet_bytes pkt) addr timeout])).
    { done. }
    assert (Hat : forall i, attempt pkt addr c (deadlines (S n) timeout) (S i) =
                    attempt pkt addr c1 (deadlines n t') i).
    { intros i. unfold attempt. by rewrite Hlog. }
    rewrite <- H0. destruct (quiet pkt _) eqn:Hq.
    + destruct (IH t' c1) as (k & Hk & [(-> & Hr & Hall)|(j & -> & Hj & Hall & Hne & Hr)]);
        eexists (S _); (split; [rewrite Hlog; exact Hk|]).
      * left. split; [done|]. split; [done|]. intros [|i] Hi; [done|].
        rewrite Hat. apply Hall. simpl in Hi. lia.
      * right. exists (S j). split; [done|]. split; [simpl; fold t'; lia|]. rewrite Hat.
        split; [|done]. intros [|i] Hi; [done|]. rewrite Hat. apply Hall. lia.
    + exists 1%nat. split; [rewrite Hlog; unfold log_after; simpl; by rewrite app_nil_r|].
      right. exists 0%nat. repeat split; try done; simpl; lia.
Qed.

Lemma outcome_no_panic pkt a msg :
  byte_datagrams (at_reads a) -> outcome pkt a <> Panic msg.
Proof.
  intros Hb. unfold outcome. destruct (at_write a) as [k|e]; [|done].
  destruct (negb _); [done|]. destruct (at_deadline a); [done|].
  destruct (first_answer pkt (at_reads a)) as [[d p]|] eqn:Hf; [|by destruct (at_end a)].
  by destruct (first_answer_response _ _ _ _ Hb Hf) as (r & -> & _).
Qed.

(** [send] transmits the same request at most nine times, waiting 100, 200,
    400, 800 and then 1600 ms for each answer, and stops at the first attempt
    that is not quiet: its result is the response made of the first datagram
    that parses and carries the transaction id of the request, or the error of
    the write, the deadline or the read.  Nine quiet attempts give no response
    and no error.  Whatever bytes arrive, it does not panic. *)
Theorem send_retransmits pkt addr c :
  (forall log, byte_datagrams (at_reads (n_respond net log))) ->
  send_result pkt addr c timeouts (send pkt addr c) /\
  (length (c_log (snd (send pkt addr c))) <= length (c_log c) + numRetransmit)%nat /\
  (forall msg, fst (send pkt addr c) <> Panic msg).
Proof.
  intros Hb. pose proof (send_loop_spec pkt addr numRetransmit defaultTimeout c Hb) as Hs.
  change (deadlines numRetransmit defaultTimeout) with timeouts in Hs.
  split; [exact Hs|]. unfold send.
  destruct Hs as (k & Hlog & Hres). split.
  - rewrite Hlog. unfold log_after, transmissions. rewrite length_app, length_map, length_take.
    change (length timeouts) with numRetransmit. lia.
  - intros msg. destruct Hres as [(_ & -> & _)|(j & _ & _ & _ & _ & ->)]; [done|].
    apply outcome_no_panic, Hb.
Qed.
End Client.
