(* ===== verification/StunDiscover.v ===== *)
(** * NAT discovery

    [libcore/stun/tests.go], [discover.go], [client.go] and the NAT types of
    [const.go].  The procedures are written against an interface, a service
    that answers binding requests; the UDP client of [StunClient] is one
    instance, a host behind a model NAT is another. *)

From stdpp Require Import base numbers list strings option.
From Stdlib Require Import ZArith Lia.
From S2P Require Import Prelude Bytes StunPacket StunClient.

Local Open Scope Z_scope.

(** ** NAT types *)

Inductive NATType := NATError | NATUnknown | NATNone | NATBlocked | NATFull | NATSymmetric
  | NATRestricted | NATPortRestricted | SymmetricUDPFirewall.
Inductive BehaviorType := BehaviorTypeUnknown | BehaviorTypeEndpoint | BehaviorTypeAddr
  | BehaviorTypeAddrAndPort.
Record NATBehavior := mkNATBehavior {
  MappingType : BehaviorType;
  FilteringType : BehaviorType
}.
#[global] Instance BehaviorType_eq_dec : EqDecision BehaviorType.
Proof. solve_decision. Defined.

(** [(nat NATType) String] *)
Definition NATType_String (nat : NATType) : string :=
  match nat with
  | NATError => "Test failed"
  | NATUnknown => "Unexpected response from the STUN server"
  | NATBlocked => "UDP is blocked"
  | NATFull => "Full cone NAT"
  | NATSymmetric => "Symmetric NAT"
  | NATRestricted => "Restricted NAT"
  | NATPortRestricted => "Port restricted NAT"
  | NATNone => "Not behind a NAT"
  | SymmetricUDPFirewall => "Symmetric UDP firewall"
  end.

(** [(natBehavior NATBehavior) NormalType] *)
Definition NormalType (b : NATBehavior) : string :=
  match MappingType b, FilteringType b with
  | BehaviorTypeEndpoint, BehaviorTypeEndpoint => "Full cone NAT"
  | BehaviorTypeEndpoint, BehaviorTypeAddr => "Restricted cone NAT"
  | BehaviorTypeEndpoint, BehaviorTypeAddrAndPort => "Port Restricted cone NAT"
  | BehaviorTypeAddrAndPort, BehaviorTypeAddrAndPort => "Symmetric NAT"
  | _, _ => "Undefined"
  end.

(** ** The service of binding requests *)

Class BindingService (St : Type) := {
  request : UDPAddr -> bool -> bool -> St -> Res (option response) * St
}.

#[global] Instance udp_service {NL : NetLib} (net : Network) (softwareName : string)
  : BindingService Conn := {| request := sendBindingReq net softwareName |}.

Section Discover.
Context {NL : NetLib} {St : Type} {BS : BindingService St}.

(** A call whose error is handled by [fail] and whose value goes to [k]. *)
Definition Action (A : Type) : Type := St -> Res A * St.
Definition ret {A} (a : A) : Action A := fun st => (Ok a, st).
Definition run {A B} (m : Action A) (fail : error -> Action B) (k : A -> Action B) : Action B :=
  fun st => let '(r, st) := m st in
            match r with
            | Ok a => k a st
            | Err e => fail e st
            | Panic msg => (Panic msg, st)
            end.
Definition lift {A} (m : Res A) : Action A := fun st => (m, st).

(** ** Tests *)

(** [addrCompare] *)
Definition addrCompare (host : option Host) (addr : UDPAddr) (IPChange portChange : bool)
  : Res bool :=
  ip ← Host_IP host;
  port ← Host_Port host;
  let isIPChange := negb (bool_decide (ip = IP_String (u_IP addr))) in
  let isPortChange := negb (port =? u16 (u_Port addr)) in
  Ok (Bool.eqb isIPChange IPChange && Bool.eqb isPortChange portChange).

(** [sendWithLog] *)
Definition sendWithLog (addr : UDPAddr) (changeIP changePort : bool) : Action (option response) :=
  fun st =>
  let '(r, st) := request addr changeIP changePort st in
  match r with
  | Ok None =>
      if Bool.eqb changeIP false && Bool.eqb changePort false
      then (Err (E_New [AStr "NAT blocked."]), st) else (Ok None, st)
  | Ok (Some resp) =>
      match addrCompare (r_serverAddr resp) addr changeIP changePort with
      | Ok true => (Ok (Some resp), st)
      | Ok false => (Err (E_New [AStr "Server error: response IP/port"]), st)
      | Err e => (Err e, st)
      | Panic msg => (Panic msg, st)
      end
  | r => (r, st)
  end.

Definition test (addr : UDPAddr) := sendWithLog addr false false.
Definition testChangePort (addr : UDPAddr) := sendWithLog addr false true.
Definition testChangeBoth (addr : UDPAddr) := sendWithLog addr true true.
Definition test1 (addr : UDPAddr) := request addr false false.
Definition test2 (addr : UDPAddr) := request addr true true.
Definition test3 (addr : UDPAddr) := request addr false true.

(** ** discover *)

(** The four results: type, mapped address, error, [fakeFullCone]. *)
Definition Verdict : Type := NATType * option Host * option error * bool.

(** [resp.serverAddr.IP() == addr.IP.String()] and the same for the port *)
Definition same_ip (resp : response) (addr : UDPAddr) : Res bool :=
  ip ← Host_IP (r_serverAddr resp); Ok (bool_decide (ip = IP_String (u_IP addr))).
Definition same_port (resp : response) (addr : UDPAddr) : Res bool :=
  port ← Host_Port (r_serverAddr resp); Ok (port =? u16 (u_Port addr)).

(** [a() || b()] and [!a()] *)
Definition or_else (a b : Res bool) : Res bool := x ← a; if (x : bool) then Ok true else b.
Definition not_ (a : Res bool) : Res bool := negb <$> a.

Definition no_mapped : error := E_New [AStr "Server error: no mapped address."].

(** Test 3, to the changed address. *)
Definition discover_test3 (mappedAddr : Host) (caddr : UDPAddr) (fake : bool) : Action Verdict :=
  run (test3 caddr) (fun e => ret (NATError, Some mappedAddr, Some e, fake)) (fun resp =>
  match resp with
  | None => ret (NATPortRestricted, Some mappedAddr, None, fake)
  | Some resp =>
      run (lift (or_else (not_ (same_ip resp caddr)) (same_port resp caddr)))
        (fun e => ret (NATError, Some mappedAddr, Some e, fake)) (fun wrong =>
      ret (NATRestricted, Some mappedAddr, None, fake || wrong))
  end).

(** Test 1 again, to the changed address. *)
Definition discover_changed (mappedAddr changedAddr : Host) (fake : bool) : Action Verdict :=
  run (lift (ResolveUDPAddr (TransportAddr changedAddr)))
    (fun e => ret (NATError, Some mappedAddr, Some e, fake)) (fun caddr =>
  run (test1 caddr) (fun e => ret (NATError, Some mappedAddr, Some e, fake)) (fun resp =>
  match resp with
  | None => ret (NATUnknown, Some mappedAddr, None, fake)
  | Some resp =>
      run (lift (or_else (not_ (same_ip resp caddr)) (not_ (same_port resp caddr))))
        (fun e => ret (NATError, Some mappedAddr, Some e, fake)) (fun wrong =>
      let fake := fake || wrong in
      match r_mappedAddr resp with
      | None => ret (NATError, Some mappedAddr, Some no_mapped, fake)
      | Some mapped' =>
          if bool_decide (h_ip mappedAddr = h_ip mapped') && (h_port mappedAddr =? h_port mapped')
          then discover_test3 mappedAddr caddr fake
          else ret (NATSymmetric, Some mappedAddr, None, fake)
      end)
  end)).

(** [(c *Client) discover] *)
Definition discover (addr : UDPAddr) : Action Verdict :=
  run (test1 addr) (fun e => ret (NATError, None, Some e, false)) (fun resp =>
  match resp with
  | None => ret (NATBlocked, None, None, false)
  | Some resp =>
      let identical := r_identical resp in
      match r_mappedAddr resp with
      | None => ret (NATError, None, Some no_mapped, false)
      | Some mappedAddr =>
          run (lift (or_else (not_ (same_ip resp addr)) (not_ (same_port resp addr))))
            (fun e => ret (NATError, None, Some e, false)) (fun fake =>
          let changedAddr := match r_changedAddr resp with
                             | None => r_otherAddr resp
                             | Some _ => r_changedAddr resp
                             end in
          match changedAddr with
          | None => ret (NATError, Some mappedAddr,
                         Some (E_New [AStr "Server error: no changed address."]), fake)
          | Some changedAddr =>
              run (test2 addr) (fun e => ret (NATError, Some mappedAddr, Some e, fake)) (fun resp =>
              run (lift (match resp with
                         | None => Ok false
                         | Some resp => or_else (same_ip resp addr) (same_port resp addr)
                         end))
                (fun e => ret (NATError, Some mappedAddr, Some e, fake)) (fun wrong =>
              let fake := fake || wrong in
              if identical then
                match resp with
                | None => ret (SymmetricUDPFirewall, Some mappedAddr, None, fake)
                | Some _ => ret (NATNone, Some mappedAddr, None, fake)
                end
              else match resp with
                   | Some _ => ret (NATFull, Some mappedAddr, None, fake)
                   | None => discover_changed mappedAddr changedAddr fake
                   end))
          end)
      end
  end).

(** ** behaviorTest *)

(** [*NATBehavior] and the error. *)
Definition BehaviorResult : Type := option NATBehavior * option error.

(** [r.mappedAddr.IP() == r'.mappedAddr.IP() && ...Port()] *)
Definition same_mapping (h h' : Host) : bool :=
  bool_decide (h_ip h = h_ip h') && (h_port h =? h_port h').

(** A test whose response must exist and have a mapped address.  A nil
    response would be dereferenced. *)
Definition mapped_test (addr : UDPAddr) (k : response -> Host -> Action BehaviorResult)
  : Action BehaviorResult :=
  run (test addr) (fun e => ret (None, Some e)) (fun resp =>
  match resp with
  | None => lift (Panic "nil pointer dereference")
  | Some resp =>
      match r_mappedAddr resp with
      | None => ret (None, Some no_mapped)
      | Some mapped => k resp mapped
      end
  end).

(** Tests 4 and 5. *)
Definition filtering_tests (addr : UDPAddr) (mapping : BehaviorType) : Action BehaviorResult :=
  run (testChangeBoth addr)
    (fun e => ret (Some (mkNATBehavior mapping BehaviorTypeUnknown), Some e)) (fun resp4 =>
  match resp4 with
  | Some _ => ret (Some (mkNATBehavior mapping BehaviorTypeEndpoint), None)
  | None =>
      run (testChangePort addr)
        (fun e => ret (Some (mkNATBehavior mapping BehaviorTypeUnknown), Some e)) (fun resp5 =>
      match resp5 with
      | Some _ => ret (Some (mkNATBehavior mapping BehaviorTypeAddr), None)
      | None => ret (Some (mkNATBehavior mapping BehaviorTypeAddrAndPort), None)
      end)
  end).

(** [(c *Client) behaviorTest] *)
Definition behaviorTest (addr : UDPAddr) : Action BehaviorResult :=
  mapped_test addr (fun resp1 mapped1 =>
  if r_identical resp1 then ret (None, Some (E_New [AStr "Not behind a NAT."]))
  else
    let otherAddr := match r_otherAddr resp1 with
                     | None => r_changedAddr resp1
                     | Some _ => r_otherAddr resp1
                     end in
    match otherAddr with
    | None => ret (None, Some (E_New [AStr "Server error: no other address and changed address."]))
    | Some otherAddr =>
        let ip2 := ParseIP (h_ip otherAddr) in
        mapped_test (mkUDPAddr ip2 (u_Port addr)) (fun _ mapped2 =>
        if same_mapping mapped2 mapped1 then filtering_tests addr BehaviorTypeEndpoint
        else
          mapped_test (mkUDPAddr ip2 (h_port otherAddr)) (fun _ mapped3 =>
          filtering_tests addr (if same_mapping mapped3 mapped2 then BehaviorTypeAddr
                                else BehaviorTypeAddrAndPort)))
    end).

(** ** Entry points *)

Definition DefaultServerAddr : string := "stun.ekiga.net:3478".
Definition server_or_default (serverAddr : string) : string :=
  if bool_decide (serverAddr = "") then DefaultServerAddr else serverAddr.

(** The connection of the client, or a new socket that is closed at the end. *)
Definition with_conn {A} (conn : option St) (listen : Res St) (fail : error -> A) (k : Action A)
  : Res A :=
  match conn with
  | Some st => fst (k st)
  | None => match listen with
            | Ok st => fst (k st)
            | Err e => Ok (fail e)
            | Panic msg => Panic msg
            end
  end.

(** [Discover], [BehaviorTest] and [Keepalive]; the last one needs a
    connection. *)
Definition Discover (conn : option St) (listen : Res St) (serverAddr : string) : Res Verdict :=
  match ResolveUDPAddr (server_or_default serverAddr) with
  | Ok addr => with_conn conn listen (fun e => (NATError, None, Some e, false)) (discover addr)
  | Err e => Ok (NATError, None, Some e, false)
  | Panic msg => Panic msg
  end.
Definition BehaviorTest (conn : option St) (listen : Res St) (serverAddr : string)
  : Res BehaviorResult :=
  match ResolveUDPAddr (server_or_default serverAddr) with
  | Ok addr => with_conn conn listen (fun e => (None, Some e)) (behaviorTest addr)
  | Err e => Ok (None, Some e)
  | Panic msg => Panic msg
  end.
Definition Keepalive (conn : option St) (serverAddr : string) : Res (option Host) :=
  match conn with
  | None => Err (E_New [AStr "no connection available"])
  | Some st =>
      addr ← ResolveUDPAddr (server_or_default serverAddr);
      resp ← fst (test1 addr st);
      match resp with
      | Some resp => match r_packet resp with
                     | Some _ => Ok (r_mappedAddr resp)
                     | None => Err (E_New [AStr "failed to contact"])
                     end
      | None => Err (E_New [AStr "failed to contact"])
      end
  end.
End Discover.
