(* ===== verification/StunNat.v ===== *)
(** * Discovery behind a model NAT

    An abstract specification of the network the STUN procedures probe: a
    server with two addresses and two ports, and a NAT given by its mapping and
    its filtering behaviour (RFC 4787, sections 4.1 and 5).  The model is an
    instance of the service interface, and the theorems say what [discover]
    and [behaviorTest] report for every such NAT. *)

From stdpp Require Import base numbers list strings option.
From Stdlib Require Import ZArith Lia.
From S2P Require Import Prelude Bytes StunPacket StunClient StunDiscover.

Local Open Scope Z_scope.

Inductive Mapping := MapEndpoint | MapAddr | MapAddrPort.
Inductive Filtering := FilterEndpoint | FilterAddr | FilterAddrPort.

(** The external endpoint as a function of the destination, and the filter of
    incoming packets; [n_local] says that the external address is the host's
    own. *)
Record NAT := mkNAT {
  nat_ext : UDPAddr -> Host;
  nat_filter : Filtering;
  nat_identical : bool
}.

(** The server's addresses and ports. *)
Record Site := mkSite { ip1 : bytes; ip2 : bytes; port1 : Z; port2 : Z }.

Section Model.
Context {NL : NetLib} (site : Site) (nat : NAT).

(** The endpoint the server answers from. *)
Definition flip (addr : UDPAddr) (changeIP changePort : bool) : UDPAddr :=
  mkUDPAddr
    (if changeIP then if bool_decide (u_IP addr = ip1 site) then ip2 site else ip1 site
     else u_IP addr)
    (if changePort then if u_Port addr =? port1 site then port2 site else port1 site
     else u_Port addr).

Definition host_of (a : UDPAddr) : Host :=
  mkHost (match To4 (u_IP a) with Some _ => attributeFamilyIPv4 | None => attributeFamilyIPV6 end)
    (IP_String (u_IP a)) (u16 (u_Port a)).

(** Does the NAT let a packet from [from] through to the external endpoint
    used for [via]?  [contacted] are the destinations sent to so far; those
    that share the external endpoint open it. *)
Definition passes (contacted : list UDPAddr) (via from : UDPAddr) : bool :=
  let opened d := same_mapping (nat_ext nat d) (nat_ext nat via) in
  match nat_filter nat with
  | FilterEndpoint => true
  | FilterAddr => existsb (fun d => opened d && bool_decide (u_IP d = u_IP from)) contacted
  | FilterAddrPort => existsb (fun d => opened d && bool_decide (d = from)) contacted
  end.

(** The answer to a binding request; the state is the list of destinations. *)
Definition nat_request (addr : UDPAddr) (changeIP changePort : bool) (contacted : list UDPAddr)
  : Res (option response) * list UDPAddr :=
  let contacted := addr :: contacted in
  let from := flip addr changeIP changePort in
  (if passes contacted addr from
   then Ok (Some (mkResponse (Some (mkPacket 0x0101 0 [] [])) (Some (host_of from))
                    (Some (host_of (flip addr true true))) (Some (nat_ext nat addr)) None
                    (nat_identical nat)))
   else Ok None, contacted).

#[local] Instance nat_service : BindingService (list UDPAddr) := {| request := nat_request |}.

Definition maps_as (m : Mapping) : Prop := forall a b,
  same_mapping (nat_ext nat a) (nat_ext nat b) =
  match m with
  | MapEndpoint => true
  | MapAddr => bool_decide (u_IP a = u_IP b)
  | MapAddrPort => bool_decide (a = b)
  end.

(** The type of the RFC 3489 flow chart. *)
Definition rfc3489_type (m : Mapping) : NATType :=
  match nat_identical nat, nat_filter nat, m with
  | true, FilterEndpoint, _ => NATNone
  | true, _, _ => SymmetricUDPFirewall
  | false, FilterEndpoint, _ => NATFull
  | false, FilterAddr, MapEndpoint => NATRestricted
  | false, FilterAddrPort, MapEndpoint => NATPortRestricted
  | false, _, _ => NATSymmetric
  end.

(** The behaviour of RFC 4787. *)
Definition mapping_behavior (m : Mapping) : BehaviorType :=
  match m with
  | MapEndpoint => BehaviorTypeEndpoint
  | MapAddr => BehaviorTypeAddr
  | MapAddrPort => BehaviorTypeAddrAndPort
  end.
Definition filtering_behavior : BehaviorType :=
  match nat_filter nat with
  | FilterEndpoint => BehaviorTypeEndpoint
  | FilterAddr => BehaviorTypeAddr
  | FilterAddrPort => BehaviorTypeAddrAndPort
  end.

(** A proper server, and the texts of its second address. *)
Record good_site : Prop := {
  gs_ip : IP_String (ip1 site) <> IP_String (ip2 site);
  gs_port : port1 site <> port2 site;
  gs_port1 : in_width 16 (port1 site);
  gs_port2 : in_width 16 (port2 site);
  gs_resolve : ResolveUDPAddr (JoinHostPort (IP_String (ip2 site)) (Itoa (port2 site))) =
               Ok (mkUDPAddr (ip2 site) (port2 site));
  gs_parse : ParseIP (IP_String (ip2 site)) = ip2 site
}.

Definition server : UDPAddr := mkUDPAddr (ip1 site) (port1 site).
Definition alternate : UDPAddr := mkUDPAddr (ip2 site) (port2 site).

Section Proofs.
Context (Hsite : good_site) (m : Mapping) (Hmap : maps_as m).

Lemma ips_differ : ip1 site <> ip2 site.
Proof. intros H. apply (gs_ip Hsite). by rewrite H. Qed.

Lemma flip_server ip port :
  flip server ip port = mkUDPAddr (if ip then ip2 site else ip1 site)
                          (if port then port2 site else port1 site).
Proof.
  unfold flip, server. cbn [u_IP u_Port]. by rewrite bool_decide_eq_true_2, Z.eqb_refl by done.
Qed.

Lemma flip_alternate ip port :
  flip alternate ip port = mkUDPAddr (if ip then ip1 site else ip2 site)
                             (if port then port1 site else port2 site).
Proof.
  unfold flip, alternate. cbn [u_IP u_Port].
  rewrite bool_decide_eq_false_2 by (intros H; by apply ips_differ).
  by rewrite (proj2 (Z.eqb_neq _ _)) by (intros H; by apply (gs_port Hsite)).
Qed.

Lemma opened_refl a : same_mapping (nat_ext nat a) (nat_ext nat a) = true.
Proof. unfold same_mapping. by rewrite bool_decide_eq_true_2, Z.eqb_refl by done. Qed.

(** A request without changes is always answered. *)
Lemma plain_request addr contacted :
  nat_request addr false false contacted =
  (Ok (Some (mkResponse (Some (mkPacket 0x0101 0 [] [])) (Some (host_of addr))
               (Some (host_of (flip addr true true))) (Some (nat_ext nat addr)) None
               (nat_identical nat))), addr :: contacted).
Proof.
  unfold nat_request. replace (flip addr false false) with addr by by destruct addr.
  unfold passes. destruct (nat_filter nat); [done| |]; cbn [existsb];
    rewrite opened_refl, bool_decide_eq_true_2 by done; done.
Qed.

Lemma same_ip_host resp a b :
  r_serverAddr resp = Some (host_of a) ->
  same_ip resp b = Ok (bool_decide (IP_String (u_IP a) = IP_String (u_IP b))).
Proof. intros H. unfold same_ip. by rewrite H. Qed.

Lemma same_port_host resp a b :
  r_serverAddr resp = Some (host_of a) -> in_width 16 (u_Port a) -> in_width 16 (u_Port b) ->
  same_port resp b = Ok (u_Port a =? u_Port b).
Proof.
  intros H Ha Hb. unfold same_port. rewrite H. cbn [Host_Port host_of h_port mbind res_bind].
  by rewrite !wrap_small.
Qed.

Lemma server_width : in_width 16 (u_Port (server)) /\ in_width 16 (u_Port alternate).
Proof. split; [apply (gs_port1 Hsite)|apply (gs_port2 Hsite)]. Qed.

(** The comparisons of a response from [a] with the address it was sent to. *)
Lemma check_same resp a :
  r_serverAddr resp = Some (host_of a) -> in_width 16 (u_Port a) ->
  or_else (not_ (same_ip resp a)) (not_ (same_port resp a)) = Ok false.
Proof.
  intros H Ha. rewrite (same_ip_host _ a), (same_port_host _ a) by done.
  by rewrite bool_decide_eq_true_2, Z.eqb_refl by done.
Qed.

Lemma check_both_changed resp :
  r_serverAddr resp = Some (host_of alternate) ->
  or_else (same_ip resp server) (same_port resp server) = Ok false.
Proof.
  intros H. destruct server_width as [H1 H2].
  rewrite (same_ip_host _ alternate), (same_port_host _ alternate) by done. cbn [server alternate u_IP u_Port].
  rewrite bool_decide_eq_false_2 by (intros E; by apply (gs_ip Hsite)).
  by rewrite (proj2 (Z.eqb_neq _ _)) by (intros E; by apply (gs_port Hsite)).
Qed.

Lemma check_port_changed resp :
  r_serverAddr resp = Some (host_of (mkUDPAddr (ip2 site) (port1 site))) ->
  or_else (not_ (same_ip resp alternate)) (same_port resp alternate) = Ok false.
Proof.
  intros H. destruct server_width as [H1 H2].
  rewrite (same_ip_host _ (mkUDPAddr (ip2 site) (port1 site))),
    (same_port_host _ (mkUDPAddr (ip2 site) (port1 site))) by done.
  cbn [alternate u_IP u_Port]. rewrite bool_decide_eq_true_2 by done.
  cbn. by rewrite (proj2 (Z.eqb_neq _ _)) by apply (gs_port Hsite).
Qed.

(** Before the alternate address is contacted, its packets pass only an
    endpoint-independent filter. *)
Lemma passes_unknown contacted via from :
  (forall d, d ∈ contacted -> u_IP d <> u_IP from) ->
  passes contacted via from = match nat_filter nat with FilterEndpoint => true | _ => false end.
Proof.
  intros Hc. unfold passes. destruct (nat_filter nat); [done| |]; apply not_true_iff_false;
    rewrite existsb_Exists; intros (d & Hd & H); apply andb_true_iff in H as [_ H];
    apply bool_decide_eq_true in H; specialize (Hc d Hd); [done|by subst].
Qed.

(** The answer to test 3, when the external endpoint is shared. *)
Lemma passes_test3 contacted :
  m = MapEndpoint -> alternate ∈ contacted ->
  (forall d, d ∈ contacted -> d = server \/ d = alternate) ->
  passes contacted alternate (mkUDPAddr (ip2 site) (port1 site)) =
  match nat_filter nat with FilterAddrPort => false | _ => true end.
Proof.
  intros -> Hin Hc. unfold passes. destruct (nat_filter nat); [done| |].
  - apply existsb_Exists. exists alternate. split; [done|]. rewrite Hmap. cbn [andb].
    by apply bool_decide_eq_true_2.
  - apply not_true_iff_false. rewrite existsb_Exists. intros (d & Hd & H).
    apply andb_true_iff in H as [_ H]. apply bool_decide_eq_true in H. subst d.
    destruct (Hc _ Hd) as [E|E].
    + apply (f_equal u_IP) in E. by apply ips_differ.
    + apply (f_equal u_Port) in E. by apply (gs_port Hsite).
Qed.

Lemma resolve_alternate : ResolveUDPAddr (TransportAddr (host_of alternate)) = Ok alternate.
Proof.
  unfold TransportAddr. cbn [host_of h_ip h_port alternate u_IP u_Port].
  rewrite wrap_small by apply (gs_port2 Hsite). apply (gs_resolve Hsite).
Qed.

(** From test 3 on. *)
Lemma discover_test3_spec mapped contacted :
  m = MapEndpoint -> (forall d, d ∈ contacted -> d = server \/ d = alternate) ->
  fst (discover_test3 mapped alternate false contacted) =
  Ok (match nat_filter nat with FilterAddrPort => NATPortRestricted | _ => NATRestricted end,
      Some mapped, None, false).
Proof.
  intros Hm Hc. unfold discover_test3, run, test3. cbn [request nat_service]. unfold nat_request.
  rewrite flip_alternate. rewrite passes_test3; [|done|by left|].
  2: { intros d Hd. apply elem_of_cons in Hd as [->|Hd]; [by right|by apply Hc]. }
  destruct (nat_filter nat); cbn [lift]; rewrite ?check_port_changed; done.
Qed.

Lemma discover_changed_spec contacted :
  (forall d, d ∈ contacted -> d = server \/ d = alternate) -> nat_filter nat <> FilterEndpoint ->
  fst (discover_changed (nat_ext nat server) (host_of alternate) false contacted) =
  Ok (match m, nat_filter nat with
      | MapEndpoint, FilterAddrPort => NATPortRestricted
      | MapEndpoint, _ => NATRestricted
      | _, _ => NATSymmetric
      end, Some (nat_ext nat server), None, false).
Proof.
  intros Hc Hf. unfold discover_changed, run at 1. cbn [lift]. rewrite resolve_alternate.
  unfold run at 1, test1. cbn [request nat_service]. rewrite plain_request.
  unfold run at 1. cbn [lift]. rewrite (check_same _ alternate) by (done || apply server_width).
  cbn [r_mappedAddr orb]. fold (same_mapping (nat_ext nat server) (nat_ext nat alternate)).
  rewrite Hmap. remember m as k eqn:Hk in |- *. destruct k.
  - apply discover_test3_spec; [done|]. intros d Hd.
    apply elem_of_cons in Hd as [->|Hd]; [by right|by apply Hc].
  - rewrite bool_decide_eq_false_2 by apply ips_differ. by destruct (nat_filter nat).
  - rewrite bool_decide_eq_false_2 by (intros E; injection E as E _; by apply ips_differ).
    by destruct (nat_filter nat).
Qed.

(** [discover] implements the flow chart of RFC 3489. *)
Lemma discover_rfc3489 :
  fst (discover server []) =
  Ok (rfc3489_type m, Some (nat_ext nat server), None, false).
Proof.
  unfold discover, run at 1, test1. cbn [request nat_service]. rewrite plain_request.
  cbn [r_mappedAddr]. unfold run at 1. cbn [lift].
  rewrite (check_same _ server) by (done || apply server_width).
  cbn [r_changedAddr]. unfold run at 1, test2. cbn [request nat_service].
  unfold nat_request. rewrite flip_server. rewrite passes_unknown.
  2: { intros d Hd. rewrite !elem_of_cons, elem_of_nil in Hd.
       destruct Hd as [-> | [-> | []]]; cbn; apply ips_differ. }
  unfold rfc3489_type. destruct (nat_filter nat) eqn:Hf; unfold run at 1; cbn [lift].
  - rewrite check_both_changed by done. cbn [r_identical]. by destruct (nat_identical nat).
  - cbn [r_identical]. destruct (nat_identical nat); [done|]. cbn [orb].
    rewrite discover_changed_spec; rewrite ?Hf; [by destruct m| |done].
    intros d Hd. rewrite !elem_of_cons, elem_of_nil in Hd. destruct Hd as [-> | [-> | []]]; by left.
  - cbn [r_identical]. destruct (nat_identical nat); [done|]. cbn [orb].
    rewrite discover_changed_spec; rewrite ?Hf; [by destruct m| |done].
    intros d Hd. rewrite !elem_of_cons, elem_of_nil in Hd. destruct Hd as [-> | [-> | []]]; by left.
Qed.

(** ** behaviorTest *)

Lemma addrCompare_host a b ip port :
  in_width 16 (u_Port a) -> in_width 16 (u_Port b) ->
  addrCompare (Some (host_of a)) b ip port =
  Ok (Bool.eqb (negb (bool_decide (IP_String (u_IP a) = IP_String (u_IP b)))) ip &&
      Bool.eqb (negb (u_Port a =? u_Port b)) port).
Proof.
  intros Ha Hb. unfold addrCompare. cbn [Host_IP Host_Port host_of h_ip h_port mbind res_bind].
  by rewrite !wrap_small.
Qed.

(** A mapping test. *)
Lemma mapped_test_spec addr k contacted :
  in_width 16 (u_Port addr) ->
  mapped_test addr k contacted =
  k (mkResponse (Some (mkPacket 0x0101 0 [] [])) (Some (host_of addr))
       (Some (host_of (flip addr true true))) (Some (nat_ext nat addr)) None (nat_identical nat))
    (nat_ext nat addr) (addr :: contacted).
Proof.
  intros Ha. unfold mapped_test, run, test, sendWithLog. cbn [request nat_service].
  rewrite plain_request. cbn [r_serverAddr]. rewrite addrCompare_host by done.
  by rewrite bool_decide_eq_true_2, Z.eqb_refl by done.
Qed.

Definition cross : UDPAddr := mkUDPAddr (ip2 site) (port1 site).

(** The destinations of the mapping tests. *)
Definition mapping_contacts (contacted : list UDPAddr) : Prop :=
  server ∈ contacted /\ cross ∈ contacted /\
  forall d, d ∈ contacted -> d = server \/ d = cross \/ (d = alternate /\ m <> MapEndpoint).

(** What tests 4 and 5 see: after test 2 the address [ip2] is known to an
    address-dependent filter if the mapping is shared. *)
Definition observed_filtering : BehaviorType :=
  match nat_filter nat, m with
  | FilterEndpoint, _ => BehaviorTypeEndpoint
  | FilterAddr, MapEndpoint => BehaviorTypeEndpoint
  | FilterAddr, _ => BehaviorTypeAddr
  | FilterAddrPort, _ => BehaviorTypeAddrAndPort
  end.

(** A destination on another address shares the external endpoint only if the
    mapping is endpoint-independent. *)
Lemma opened_other d : u_IP d = ip2 site ->
  same_mapping (nat_ext nat d) (nat_ext nat server) =
  match m with MapEndpoint => true | _ => false end.
Proof.
  intros Hd. rewrite Hmap. pose proof ips_differ. destruct m; [done| |]; apply bool_decide_eq_false_2.
  - rewrite Hd. done.
  - intros ->. done.
Qed.

Lemma passes_test4 contacted :
  mapping_contacts contacted ->
  passes (server :: contacted) server alternate =
  match nat_filter nat, m with
  | FilterEndpoint, _ | FilterAddr, MapEndpoint => true
  | _, _ => false
  end.
Proof.
  intros (_ & Hcross & Hc). unfold passes. pose proof ips_differ as Hips.
  destruct (nat_filter nat); [done| |].
  - remember m as k eqn:Hk in |- *. destruct k.
    { apply existsb_Exists. exists cross. split; [by right|].
      rewrite opened_other, <- Hk, bool_decide_eq_true_2; done. }
    all: apply not_true_iff_false; rewrite existsb_Exists; intros (d & Hd & H);
      apply andb_true_iff in H as [H Hip]; apply bool_decide_eq_true in Hip;
      rewrite opened_other, <- Hk in H by done; done.
  - apply not_true_iff_false. rewrite existsb_Exists. intros (d & Hd & H).
    apply andb_true_iff in H as [H Heq]. apply bool_decide_eq_true in Heq. subst d.
    rewrite opened_other in H by done. apply elem_of_cons in Hd as [E|Hd].
    + apply (f_equal u_IP) in E. by apply ips_differ.
    + destruct (Hc _ Hd) as [E|[E|[_ E]]].
      * apply (f_equal u_IP) in E. by apply ips_differ.
      * apply (f_equal u_Port) in E. by apply (gs_port Hsite).
      * by destruct m.
Qed.

Lemma passes_test5 contacted :
  mapping_contacts contacted ->
  passes (server :: server :: contacted) server (mkUDPAddr (ip1 site) (port2 site)) =
  match nat_filter nat with FilterAddrPort => false | _ => true end.
Proof.
  intros (_ & _ & Hc). unfold passes. pose proof ips_differ as Hips. destruct (nat_filter nat); [done| |].
  - apply existsb_Exists. exists server. split; [by left|]. by rewrite opened_refl, bool_decide_eq_true_2.
  - apply not_true_iff_false. rewrite existsb_Exists. intros (d & Hd & H).
    apply andb_true_iff in H as [_ Heq]. apply bool_decide_eq_true in Heq. subst d.
    pose proof (gs_port Hsite) as Hport.
    rewrite !elem_of_cons in Hd. destruct Hd as [E|[E|Hd]];
      [by apply (f_equal u_Port) in E|by apply (f_equal u_Port) in E|].
    destruct (Hc _ Hd) as [E|[E|[E _]]];
      [by apply (f_equal u_Port) in E|by apply (f_equal u_IP) in E|by apply (f_equal u_IP) in E].
Qed.

Lemma filtering_tests_spec mb contacted :
  mapping_contacts contacted ->
  fst (filtering_tests server mb contacted) =
  Ok (Some (mkNATBehavior mb observed_filtering), None).
Proof.
  intros Hc. destruct server_width as [W1 W2].
  unfold filtering_tests, run at 1, testChangeBoth, sendWithLog. cbn [request nat_service].
  unfold nat_request at 1. rewrite flip_server. fold alternate. rewrite passes_test4 by done.
  assert (Hboth : addrCompare (Some (host_of alternate)) server true true = Ok true).
  { rewrite addrCompare_host by done. cbn [server alternate u_IP u_Port].
    rewrite bool_decide_eq_false_2 by (intros E; by apply (gs_ip Hsite)).
    by rewrite (proj2 (Z.eqb_neq _ _)) by (intros E; by apply (gs_port Hsite)). }
  assert (Hport : addrCompare (Some (host_of (mkUDPAddr (ip1 site) (port2 site)))) server false true
                  = Ok true).
  { rewrite addrCompare_host by done. cbn [server u_IP u_Port].
    rewrite bool_decide_eq_true_2 by done.
    by rewrite (proj2 (Z.eqb_neq _ _)) by (intros E; by apply (gs_port Hsite)). }
  assert (Htest5 : forall B (f : error -> Action B) k,
    run (testChangePort server) f k (server :: contacted) =
    k (if match nat_filter nat with FilterAddrPort => false | _ => true end
       then Some (mkResponse (Some (mkPacket 0x0101 0 [] []))
              (Some (host_of (mkUDPAddr (ip1 site) (port2 site)))) (Some (host_of alternate))
              (Some (nat_ext nat server)) None (nat_identical nat))
       else None) (server :: server :: contacted)).
  { intros B f k. unfold run, testChangePort, sendWithLog. cbn [request nat_service].
    unfold nat_request. rewrite !flip_server, passes_test5 by done.
    destruct (nat_filter nat); cbn [r_serverAddr]; rewrite ?Hport; done. }
  unfold observed_filtering.
  destruct (nat_filter nat), m; cbn [r_serverAddr Bool.eqb andb]; rewrite ?Hboth, ?Htest5; done.
Qed.

Lemma behaviorTest_observed :
  nat_identical nat = false ->
  fst (behaviorTest server []) =
  Ok (Some (mkNATBehavior (mapping_behavior m) observed_filtering), None).
Proof.
  intros Hid. destruct server_width as [W1 W2]. unfold behaviorTest.
  rewrite mapped_test_spec by done. cbn [r_identical r_otherAddr r_changedAddr]. rewrite Hid.
  rewrite flip_server. cbn [host_of h_ip h_port u_IP u_Port]. rewrite (gs_parse Hsite).
  cbn [server u_Port]. fold cross. rewrite mapped_test_spec by done.
  rewrite opened_other by done. rewrite wrap_small by apply W2.
  remember m as k eqn:Hk in |- *. unfold mapping_behavior. destruct k.
  - apply filtering_tests_spec. split_and!; [right; by left|by left|].
    intros d Hd. rewrite !elem_of_cons, elem_of_nil in Hd. destruct Hd as [-> | [-> | []]]; auto.
  - fold alternate. rewrite mapped_test_spec by done. rewrite filtering_tests_spec.
    2: { split_and!; [do 2 right; by left|right; by left|].
         intros d Hd. rewrite !elem_of_cons, elem_of_nil in Hd.
         destruct Hd as [-> | [-> | [-> | []]]]; auto. right. right. split; [done|by rewrite <- Hk]. }
    unfold observed_filtering. rewrite Hmap, <- Hk. by rewrite bool_decide_eq_true_2.
  - fold alternate. rewrite mapped_test_spec by done. rewrite filtering_tests_spec.
    2: { split_and!; [do 2 right; by left|right; by left|].
         intros d Hd. rewrite !elem_of_cons, elem_of_nil in Hd.
         destruct Hd as [-> | [-> | [-> | []]]]; auto. right. right. split; [done|by rewrite <- Hk]. }
    unfold observed_filtering. rewrite Hmap, <- Hk. rewrite bool_decide_eq_false_2; [done|].
    intros E. apply (f_equal u_Port) in E. by apply (gs_port Hsite).
Qed.
End Proofs.
End Model.

(** C17: behind any NAT of the model [discover] reports the type of the RFC 3489
    flow chart: open Internet or a symmetric firewall when the external address
    is the host's own, otherwise full cone, restricted, port restricted or
    symmetric according to mapping and filtering; with the mapped address, no
    error, and without the mark of an inconsistent server. *)
Theorem discover_classifies {NL : NetLib} site nat m :
  good_site site -> maps_as nat m ->
  fst (discover (BS := nat_service site nat) (server site) []) =
  Ok (rfc3489_type nat m, Some (nat_ext nat (server site)), None, false).
Proof. intros. by apply discover_rfc3489. Qed.

(** Behind a NAT, [behaviorTest] reports the mapping behaviour of the NAT
    and its filtering behaviour, unless the NAT combines an
    endpoint-independent mapping with an address-dependent filter. *)
Theorem behaviorTest_classifies {NL : NetLib} site nat m :
  good_site site -> maps_as nat m -> nat_identical nat = false ->
  m <> MapEndpoint \/ nat_filter nat <> FilterAddr ->
  fst (behaviorTest (BS := nat_service site nat) (server site) []) =
  Ok (Some (mkNATBehavior (mapping_behavior m) (filtering_behavior nat)), None).
Proof.
  intros Hs Hm Hid Hcase. rewrite (behaviorTest_observed site nat Hs m Hm Hid).
  do 4 f_equal. unfold observed_filtering, filtering_behavior.
  destruct (nat_filter nat), m; try done. by destruct Hcase.
Qed.

(** A restricted cone NAT (endpoint-independent mapping, address-dependent
    filter) is reported as a full cone.  Test 2 has sent to the alternate
    address on the same connection, which opens the filter for test 4. *)
Theorem restricted_cone_reported_full {NL : NetLib} site nat :
  good_site site -> maps_as nat MapEndpoint -> nat_identical nat = false ->
  nat_filter nat = FilterAddr ->
  exists b, fst (behaviorTest (BS := nat_service site nat) (server site) []) = Ok (Some b, None) /\
    NormalType b = "Full cone NAT" /\
    NormalType (mkNATBehavior (mapping_behavior MapEndpoint) (filtering_behavior nat)) =
      "Restricted cone NAT" /\
    fst (discover (BS := nat_service site nat) (server site) []) =
      Ok (NATRestricted, Some (nat_ext nat (server site)), None, false).
Proof.
  intros Hs Hm Hid Hf. eexists. split; [by apply (behaviorTest_observed site nat Hs _ Hm)|].
  unfold observed_filtering, filtering_behavior. rewrite Hf. split_and!; [done..|].
  rewrite (discover_rfc3489 site nat Hs _ Hm). unfold rfc3489_type. by rewrite Hid, Hf.
Qed.

(** ** A concrete NAT *)

Module StunNatExample.

#[local] Instance lib : NetLib := {|
  net_IPText := {| IP_String := fun ip => if bool_decide (ip = [192; 0; 2; 1]) then "192.0.2.1"
                                          else if bool_decide (ip = [192; 0; 2; 2]) then "192.0.2.2"
                                          else "?" |};
  ResolveUDPAddr := fun s => if bool_decide (s = "192.0.2.2:3479")
                             then Ok (mkUDPAddr [192; 0; 2; 2] 3479)
                             else Err (E_New [AStr "lookup"; AStr s]);
  InterfaceAddrs := Ok [];
  ParseCIDR := fun s => Err (E_New [AStr "invalid CIDR address: "; AStr s]);
  ParseIP := fun s => if bool_decide (s = "192.0.2.2") then [192; 0; 2; 2] else [];
  JoinHostPort := fun h p => h +:+ ":" +:+ p;
  Itoa := fun z => if z =? 3479 then "3479" else "?"
|}.

Definition site : Site := mkSite [192; 0; 2; 1] [192; 0; 2; 2] 3478 3479.
Definition cone (f : Filtering) : NAT := mkNAT (fun _ => mkHost 1 "198.51.100.7" 40000) f false.

Lemma site_good : good_site site.
Proof. split; try reflexivity; try discriminate; unfold in_width; cbn; lia. Qed.

Lemma cone_maps f : maps_as (cone f) MapEndpoint.
Proof. intros a b. reflexivity. Qed.

Lemma discover_classifies_witness :
  rfc3489_type (cone FilterAddrPort) MapEndpoint = NATPortRestricted /\
  fst (discover (BS := nat_service site (cone FilterAddrPort)) (server site) []) =
  Ok (NATPortRestricted, Some (mkHost 1 "198.51.100.7" 40000), None, false).
Proof.
  split; [reflexivity|].
  apply (discover_classifies site (cone FilterAddrPort) MapEndpoint); [apply site_good|apply cone_maps].
Defined.

Lemma behaviorTest_classifies_witness :
  nat_filter (cone FilterAddrPort) <> FilterAddr /\
  fst (behaviorTest (BS := nat_service site (cone FilterAddrPort)) (server site) []) =
  Ok (Some (mkNATBehavior BehaviorTypeEndpoint BehaviorTypeAddrAndPort), None).
Proof.
  split; [discriminate|].
  apply (behaviorTest_classifies site (cone FilterAddrPort) MapEndpoint);
    [apply site_good|apply cone_maps|reflexivity|right; discriminate].
Defined.

Lemma restricted_cone_reported_full_witness :
  exists b, fst (behaviorTest (BS := nat_service site (cone FilterAddr)) (server site) []) =
              Ok (Some b, None) /\ NormalType b = "Full cone NAT".
Proof.
  destruct (restricted_cone_reported_full site (cone FilterAddr)) as (b & H & Hb & _);
    [apply site_good|apply cone_maps|reflexivity|reflexivity|].
  exists b. split; [exact H|exact Hb].
Defined.

(** A network that delivers noise and never answers. *)
Definition silent : Network :=
  mkNetwork (fun _ => Ok (replicate 12 0))
    (fun log => mkAttempt (inl (match list.last log with Some s => len (s_bytes s) | None => 0 end))
                  None [mkDatagram [1; 2; 3] "192.0.2.9:53"] ReadTimeout)
    "0.0.0.0:0".

Lemma send_retransmits_witness :
  fst (send silent sample_packet (server site) (mkConn [] 0)) = Ok None /\
  map s_timeout (c_log (snd (send silent sample_packet (server site) (mkConn [] 0)))) = timeouts /\
  send_result silent sample_packet (server site) (mkConn [] 0) timeouts
    (send silent sample_packet (server site) (mkConn [] 0)).
Proof.
  split; [reflexivity|]. split; [reflexivity|].
  apply (send_retransmits silent sample_packet (server site) (mkConn [] 0)).
  intros log. constructor; [|constructor]. apply bytes_check. reflexivity.
Defined.
End StunNatExample.
