(* ===== verification/ManagerCore.v ===== *)
(** * Starting the members of a manager

    The outbound manager ([adapter/outbound/manager.go]) and the DNS transport
    manager ([dns/transport_manager.go]) start their members by the same
    algorithm: repeated passes start what has all its dependencies started,
    and when a pass starts nothing a search explains why.  It is written here
    once, with the texts of its errors as parameters.

    Calls to a member are events; [outcome] tells the result of the last event
    of a trace.  Members are compared by identity, which is part of the record. *)

From stdpp Require Import base numbers list strings gmap option.
From Stdlib Require Import ZArith Lia.
From S2P Require Import Prelude.

Local Open Scope Z_scope.

(** An outbound or a DNS transport: identity, tag, type, dependencies, and the
    methods it has ([adapter.Lifecycle], or the older optional ones). *)
Record Member := mkMember {
  m_id : nat;
  m_Tag : string;
  m_Type : string;
  m_Dependencies : list string;
  m_Lifecycle : bool;
  m_PreStart : bool;
  m_Start : bool;
  m_PostStart : bool;
  m_Closer : bool
}.
#[global] Instance Member_eq_dec : EqDecision Member.
Proof. solve_decision. Defined.

(** [adapter.StartStage] *)
Definition StartStateInitialize : Z := 0.
Definition StartStateStart : Z := 1.
Definition StartStatePostStart : Z := 2.
Definition StartStateStarted : Z := 3.
Definition ListStartStages : list Z :=
  [StartStateInitialize; StartStateStart; StartStatePostStart; StartStateStarted].
Definition StartStage_String (s : Z) : string :=
  if s =? 0 then "initialize" else if s =? 1 then "start"
  else if s =? 2 then "post-start" else "finish-start".

(** Calls to members. *)
Inductive Event :=
  | EvStart (m : Member) (stage : Z)
  | EvPreStart (m : Member)
  | EvPlainStart (m : Member)
  | EvPostStart (m : Member)
  | EvClose (m : Member).

Section Manager.
Context {SH : SliceHelpers}.
Context (outcome : list Event -> option error).

Definition Trace : Type := list Event.
Definition call (ev : Event) (tr : Trace) : Res unit * Trace :=
  let tr := tr ++ [ev] in
  (match outcome tr with None => Ok tt | Some e => Err e end, tr).

(** [adapter.LegacyStart] *)
Definition LegacyStart (m : Member) (stage : Z) (tr : Trace) : Res unit * Trace :=
  if m_Lifecycle m then call (EvStart m stage) tr
  else if (stage =? StartStateInitialize) && m_PreStart m then call (EvPreStart m) tr
  else if (stage =? StartStateStart) && m_Start m then call (EvPlainStart m) tr
  else if (stage =? StartStateStarted) && m_PostStart m then call (EvPostStart m) tr
  else (Ok tt, tr).

(** [common.Close] of sing: closes what is an [io.Closer]. *)
Definition common_Close (o : Member) (tr : Trace) : Res unit * Trace :=
  if m_Closer o then call (EvClose o) tr else (Ok tt, tr).

(** [common.Find] on a slice of interface values: nil when nothing is found. *)
Definition FindPtr {T} (l : list T) (f : T -> bool) : option T :=
  Find None (map Some l) (fun it => match it with Some x => f x | None => false end).

(** The texts of a manager: the context of a start error, and the words of
    the two dependency errors. *)
Record Texts := mkTexts { start_ctx : Member -> list earg; kind_word : string }.
Context (texts : Texts).

(** One [for] pass of [startOutbounds]: what is started, and [canContinue]. *)
Fixpoint start_pass (l : list Member) (started : gset string) (canContinue : bool) (tr : Trace)
  : Res (gset string * bool) * Trace :=
  match l with
  | [] => (Ok (started, canContinue), tr)
  | o :: rest =>
      if bool_decide (m_Tag o ∈ started) then start_pass rest started canContinue tr
      else if negb (forallb (fun d => bool_decide (d ∈ started)) (m_Dependencies o))
      then start_pass rest started canContinue tr
      else
        let started := {[m_Tag o]} ∪ started in
        let '(r, tr) := if m_Lifecycle o then call (EvStart o StartStateStart) tr
                        else if m_Start o then call (EvPlainStart o) tr
                        else (Ok tt, tr) in
        match r with
        | Ok _ => start_pass rest started true tr
        | Err e => (Err (E_Cause e (start_ctx texts o)), tr)
        | Panic msg => (Panic msg, tr)
        end
  end.

(** [lintOutbound]: follow unstarted dependencies until one repeats or is
    missing. *)
Fixpoint lint (fuel : nat) (started : gset string) (byTag : gmap string Member)
    (oTree : list string) (oCurrent : Member) : option error :=
  match fuel with
  | O => None
  | S fuel =>
      let problem := Find "" (m_Dependencies oCurrent) (fun it => negb (bool_decide (it ∈ started))) in
      if Contains oTree problem
      then Some (E_New [AStr ("circular " +:+ kind_word texts +:+ " dependency: ");
                        AStr (String.concat " -> " oTree); AStr " -> "; AStr problem])
      else match byTag !! problem with
           | None => Some (E_New [AStr "dependency["; AStr problem; AStr ("] not found for " +:+ kind_word texts +:+ "[");
                                  AStr (m_Tag oCurrent); AStr "]"])
           | Some o => lint fuel started byTag (oTree ++ [problem]) o
           end
  end.

(** The outer loop. *)
Fixpoint start_rounds (fuel : nat) (l : list Member) (byTag : gmap string Member)
    (started : gset string) (tr : Trace) : option (Res unit * Trace) :=
  match fuel with
  | O => None
  | S fuel =>
      let '(r, tr) := start_pass l started false tr in
      match r with
      | Err e => Some (Err e, tr)
      | Panic msg => Some (Panic msg, tr)
      | Ok (started, canContinue) =>
          if Nat.eqb (size started) (length l) then Some (Ok tt, tr)
          else if (canContinue : bool) then start_rounds fuel l byTag started tr
          else match FindPtr l (fun it => negb (bool_decide (m_Tag it ∈ started))) with
               | None => Some (Panic "nil pointer dereference", tr)
               | Some current =>
                   match lint (size byTag + 2) started byTag [m_Tag current] current with
                   | Some e => Some (Err e, tr)
                   | None => None
                   end
               end
      end
  end.

(** [startOutbounds] / [startTransports]: a pass per member, and one more,
    are enough ([start_all_terminates]). *)
Definition start_all (l : list Member) (byTag : gmap string Member) (tr : Trace)
  : option (Res unit * Trace) :=
  start_rounds (length l + 1) l byTag ∅ tr.

(** ** The list and the dependents of a manager *)

(** [append(l[:i], l[i+1:]...)] *)
Definition delete_at (i : Z) (l : list Member) : list Member :=
  take (Z.to_nat i) l ++ drop (S (Z.to_nat i)) l.
Definition index_of (o : Member) (l : list Member) : Z := Index l (fun it => bool_decide (it = o)).

(** [m.dependByTag[d]]: nil when absent *)
Definition dependents (x : gmap string (list string)) (d : string) : list string := default [] (x !! d).

(** The loop over the dependencies of a removed outbound. *)
Definition undepend_one (tag : string) (x : gmap string (list string)) (d : string)
  : gmap string (list string) :=
  if Nat.eqb (length (dependents x d)) 1 then delete d x
  else <[d := Filter (dependents x d) (fun it => negb (bool_decide (it = tag)))]> x.
Definition undepend (tag : string) (ds : list string) (x : gmap string (list string)) :=
  fold_left (undepend_one tag) ds x.

(** [m.dependByTag[d] = append(m.dependByTag[d], tag)] for the dependencies *)
Definition depend (tag : string) (ds : list string) (x : gmap string (list string)) :=
  fold_left (fun x d => <[d := dependents x d ++ [tag]]> x) ds x.

(** Deleting a member from the list. *)
Lemma index_of_in o l : o ∈ l -> exists i : nat, index_of o l = Z.of_nat i /\ l !! i = Some o.
Proof.
  intros Hin. unfold index_of. rewrite Index_law.
  destruct (list_find _ l) as [[i x]|] eqn:Hf.
  - apply list_find_Some in Hf as (Hi & Hx & _). apply Is_true_true, bool_decide_eq_true in Hx.
    subst x. by exists i.
  - exfalso. rewrite list_find_None, list.Forall_forall in Hf. apply (Hf o Hin).
    by apply Is_true_true, bool_decide_eq_true.
Qed.

Lemma delete_at_eq i (o : Member) l :
  l !! i = Some o -> delete_at (Z.of_nat i) l ++ [o] ≡ₚ l /\ delete_at (Z.of_nat i) l = take i l ++ drop (S i) l.
Proof.
  intros Hi. unfold delete_at. rewrite Nat2Z.id. split; [|done].
  transitivity (take i l ++ o :: drop (S i) l); [|by rewrite take_drop_middle].
  rewrite <- app_assoc. apply Permutation_app_head. symmetry. apply Permutation_cons_append.
Qed.

(** The list without [o]. *)
Lemma delete_member o l :
  NoDup (map m_Tag l) -> o ∈ l ->
  (index_of o l =? -1) = false /\ NoDup (map m_Tag (delete_at (index_of o l) l)) /\
  (forall x, x ∈ delete_at (index_of o l) l <-> x ∈ l /\ m_Tag x <> m_Tag o).
Proof.
  intros Hnd Hin. destruct (index_of_in o l Hin) as (i & -> & Hi).
  destruct (delete_at_eq i o l Hi) as [Hperm _].
  split; [apply Z.eqb_neq; lia|].
  assert (Hnd' : NoDup (map m_Tag (delete_at (Z.of_nat i) l) ++ [m_Tag o])).
  { change [m_Tag o] with (map m_Tag [o]). rewrite <- map_app. by rewrite Hperm. }
  apply list.NoDup_app in Hnd' as (H1 & H2 & _). split; [done|].
  intros x. split.
  - intros Hx. split; [rewrite <- Hperm; apply elem_of_app; by left|].
    intros E. apply (H2 (m_Tag x)); [apply list_elem_of_fmap; by exists x|].
    rewrite E. by left.
  - intros [Hx Hne]. rewrite <- Hperm in Hx. apply elem_of_app in Hx as [Hx|Hx]; [done|].
    apply list_elem_of_singleton in Hx as ->. done.
Qed.

Lemma dependents_insert x d ts d' :
  dependents (<[d := ts]> x) d' = if decide (d = d') then ts else dependents x d'.
Proof.
  unfold dependents. destruct (decide (d = d')) as [->|Hne];
    [by rewrite lookup_insert_eq|by rewrite lookup_insert_ne].
Qed.

Lemma depend_spec tag ds x t d :
  t ∈ dependents (depend tag ds x) d <-> t ∈ dependents x d \/ (t = tag /\ d ∈ ds).
Proof.
  unfold depend. revert x. induction ds as [|d' ds IH]; intros x; cbn [fold_left]; [set_solver|].
  rewrite IH, dependents_insert. destruct (decide (d' = d)) as [->|Hne]; set_solver.
Qed.

Lemma undepend_one_spec tag x d t d' :
  tag ∈ dependents x d ->
  t ∈ dependents (undepend_one tag x d) d' <-> t ∈ dependents x d' /\ ~ (t = tag /\ d' = d).
Proof.
  intros Hin. unfold undepend_one. destruct (Nat.eqb_spec (length (dependents x d)) 1) as [H1|H1].
  - assert (Hx : dependents x d = [tag]).
    { destruct (dependents x d) as [|y [|z l]]; [by simpl in H1| |by simpl in H1].
      apply list_elem_of_singleton in Hin as ->. done. }
    destruct (decide (d = d')) as [->|Hne].
    + unfold dependents at 1. rewrite lookup_delete_eq. cbn. rewrite Hx. set_solver.
    + unfold dependents at 1. rewrite lookup_delete_ne by done. fold (dependents x d'). set_solver.
  - rewrite dependents_insert. destruct (decide (d = d')) as [->|Hne]; [|set_solver].
    rewrite Filter_law, list_elem_of_In, List.filter_In, <- list_elem_of_In, negb_true_iff, bool_decide_eq_false.
    set_solver.
Qed.

Lemma undepend_spec tag ds x t d :
  NoDup ds -> (forall d, d ∈ ds -> tag ∈ dependents x d) ->
  t ∈ dependents (undepend tag ds x) d <-> t ∈ dependents x d /\ ~ (t = tag /\ d ∈ ds).
Proof.
  unfold undepend. revert x. induction ds as [|d' ds IH]; intros x Hnd Hin; cbn [fold_left]; [set_solver|].
  apply list.NoDup_cons in Hnd as [Hd' Hnd].
  assert (Hhd : tag ∈ dependents x d') by (apply Hin; by left).
  rewrite IH, undepend_one_spec by
    (done || (intros e He; rewrite undepend_one_spec by done; split; [apply Hin; by right|set_solver])).
  set_solver.
Qed.

(** ** Order of a start *)

Definition tags (l : list Member) : gset string := list_to_set (map m_Tag l).

(** [l] can be started in this order after [s]: no tag twice, and every
    dependency is in [s] or the tag of an earlier member. *)
Inductive ordered (s : gset string) : list Member -> Prop :=
  | ordered_nil : ordered s []
  | ordered_cons o rest :
      m_Tag o ∉ s -> (forall d, d ∈ m_Dependencies o -> d ∈ s) ->
      ordered ({[m_Tag o]} ∪ s) rest -> ordered s (o :: rest).

(** The calls a member gets when it is started. *)
Definition start_events (o : Member) : list Event :=
  if m_Lifecycle o then [EvStart o StartStateStart]
  else if m_Start o then [EvPlainStart o] else [].

Lemma tags_cons o l : tags (o :: l) = {[m_Tag o]} ∪ tags l.
Proof. done. Qed.

Lemma tags_app l l' : tags (l ++ l') = tags l ∪ tags l'.
Proof. unfold tags. rewrite map_app. apply list_to_set_app_L. Qed.

Lemma ordered_app s l l' : ordered s l -> ordered (tags l ∪ s) l' -> ordered s (l ++ l').
Proof.
  induction 1 as [s|s o rest Hn Hd H IH]; intros H'.
  - by replace (tags [] ∪ s) with s in H' by set_solver.
  - cbn. constructor; [done..|]. apply IH.
    replace (tags rest ∪ ({[m_Tag o]} ∪ s)) with (tags (o :: rest) ∪ s); [done|].
    rewrite tags_cons. set_solver.
Qed.

Lemma ordered_NoDup s l : ordered s l -> NoDup (map m_Tag l) /\ tags l ## s.
Proof.
  induction 1 as [s|s o rest Hn Hd H [IH1 IH2]]; [split; [constructor|set_solver]|].
  rewrite tags_cons. split; [|set_solver]. cbn. constructor; [|done].
  intros Hin. apply (elem_of_list_to_set (C := gset string)) in Hin. fold (tags rest) in Hin.
  set_solver.
Qed.

Lemma call_start o tr :
  (if m_Lifecycle o then call (EvStart o StartStateStart) tr
   else if m_Start o then call (EvPlainStart o) tr else (Ok tt, tr)) =
  (match start_events o with
   | [] => Ok tt
   | _ => match outcome (tr ++ start_events o) with None => Ok tt | Some e => Err e end
   end, tr ++ start_events o).
Proof.
  unfold start_events. destruct (m_Lifecycle o); [done|]. destruct (m_Start o); [done|].
  by rewrite app_nil_r.
Qed.

(** A member that cannot be started yet. *)
Definition blocked (started : gset string) (o : Member) : Prop :=
  exists d, d ∈ m_Dependencies o /\ d ∉ started.

(** What a pass does: it starts an ordered list of members of [l]; if it starts
    none, what is left is blocked. *)
Lemma start_pass_spec l started c tr s' c' tr' :
  start_pass l started c tr = (Ok (s', c'), tr') ->
  exists order, ordered started order /\ order ⊆ l /\ s' = tags order ∪ started /\
    tr' = tr ++ concat (map start_events order) /\ c' = c || negb (bool_decide (order = [])) /\
    (order = [] -> forall o, o ∈ l -> m_Tag o ∈ started \/ blocked started o).
Proof.
  revert started c tr. induction l as [|o l IH]; intros started c tr; cbn [start_pass].
  - intros [= <- <- <-]. exists []. repeat split; [constructor|done|set_solver| |by destruct c|set_solver].
    by rewrite app_nil_r.
  - case_bool_decide as Hin.
    { intros (order & H1 & H2 & H3 & H4 & H5 & H6)%IH. exists order. repeat split; try done; [set_solver|].
      intros Ho x Hx. apply elem_of_cons in Hx as [->|Hx]; [by left|by apply H6]. }
    destruct (forallb _ (m_Dependencies o)) eqn:Hd; cbn [negb].
    + rewrite call_start. destruct (match start_events o with [] => _ | _ => _ end) eqn:Hc; try done.
      intros (order & H1 & H2 & H3 & H4 & H5 & H6)%IH. exists (o :: order). repeat split.
      * constructor; [done| |done]. intros d Hdin. rewrite forallb_Forall', List.Forall_forall in Hd.
        apply list_elem_of_In in Hdin. by apply Hd, bool_decide_eq_true in Hdin.
      * set_solver.
      * rewrite tags_cons. set_solver.
      * rewrite H4. cbn. by rewrite <- app_assoc.
      * rewrite H5. by destruct c.
      * done.
    + intros (order & H1 & H2 & H3 & H4 & H5 & H6)%IH. exists order. repeat split; try done; [set_solver|].
      intros Ho x Hx. apply elem_of_cons in Hx as [->|Hx]; [right|by apply H6].
      apply forallb_false in Hd as (d & Hd & Hf). apply bool_decide_eq_false in Hf. by exists d.
Qed.

Lemma start_pass_no_panic l started c tr msg tr' :
  start_pass l started c tr <> (Panic msg, tr').
Proof.
  revert started c tr. induction l as [|o l IH]; intros started c tr; cbn [start_pass]; [done|].
  case_bool_decide; [apply IH|]. destruct (negb _); [apply IH|]. rewrite call_start.
  destruct (start_events o); [apply IH|]. destruct (outcome _); [done|apply IH].
Qed.

(** ** Termination *)

Lemma FindPtr_law {T} (l : list T) f : FindPtr l f = List.find f l.
Proof.
  unfold FindPtr. rewrite Find_law. induction l as [|x l IH]; [done|]. simpl.
  by destruct (f x).
Qed.

Lemma size_tags l : NoDup (map m_Tag l) -> size (tags l) = length l.
Proof. intros H. unfold tags. rewrite size_list_to_set by done. by rewrite length_map. Qed.

(** Following dependencies visits a new tag of [byTag] at every step. *)
Lemma lint_terminates fuel started byTag t rest o :
  NoDup rest -> (forall x, x ∈ rest -> x ∈ dom byTag) ->
  (size byTag + 1 < fuel + S (length rest))%nat ->
  exists e, lint fuel started byTag (t :: rest) o = Some e.
Proof.
  revert rest o. induction fuel as [|fuel IH]; intros rest o Hnd Hdom Hf.
  - exfalso. assert (length rest <= size (dom byTag))%nat.
    { rewrite <- (size_list_to_set (C := gset string)) by done. apply subseteq_size.
      intros x Hx. apply Hdom. by apply elem_of_list_to_set in Hx. }
    rewrite size_dom in H. lia.
  - cbn [lint]. set (problem := Find _ _ _). rewrite Contains_law. case_bool_decide as Hc; [by eexists|].
    destruct (byTag !! problem) as [o'|] eqn:Hb; [|by eexists].
    apply (IH (rest ++ [problem])).
    + apply list.NoDup_app. split; [done|]. split; [|apply NoDup_singleton].
      intros x Hx Hp. apply list_elem_of_singleton in Hp as ->. apply Hc. by right.
    + intros x Hx. apply elem_of_app in Hx as [Hx|Hx]; [by apply Hdom|].
      apply list_elem_of_singleton in Hx as ->. by apply elem_of_dom_2 in Hb.
    + rewrite length_app. simpl. lia.
Qed.

(** A set of tags of [l] that is not all of them misses a member. *)
Lemma unstarted_member l started :
  NoDup (map m_Tag l) -> started ⊆ tags l -> size started <> length l ->
  exists o, FindPtr l (fun it => negb (bool_decide (m_Tag it ∈ started))) = Some o.
Proof.
  intros Hnd Hsub Hsz. rewrite FindPtr_law. destruct (List.find _ l) as [o|] eqn:Hf; [by exists o|].
  exfalso. apply Hsz. rewrite <- size_tags by done. f_equal. apply set_eq. intros x. split; [set_solver|].
  unfold tags. intros Hx. apply elem_of_list_to_set, list_elem_of_fmap in Hx as (o & -> & Ho).
  apply list_elem_of_In in Ho. apply (List.find_none _ _ Hf) in Ho. apply negb_false_iff in Ho.
  by apply bool_decide_eq_true in Ho.
Qed.

Lemma tags_subset order l : order ⊆ l -> tags order ⊆ tags l.
Proof.
  intros H x Hx. unfold tags in *. apply elem_of_list_to_set, list_elem_of_fmap in Hx as (o & -> & Ho).
  apply elem_of_list_to_set, list_elem_of_fmap. exists o. split; [done|]. by apply H.
Qed.

(** How the rounds end: all members started in an order, or an error. *)
Lemma start_rounds_spec fuel l byTag started tr :
  NoDup (map m_Tag l) -> started ⊆ tags l -> (length l < fuel + size started)%nat ->
  (exists order tr', start_rounds fuel l byTag started tr = Some (Ok tt, tr') /\
     ordered started order /\ order ⊆ l /\ size (tags order ∪ started) = length l /\
     tr' = tr ++ concat (map start_events order)) \/
  (exists e tr', start_rounds fuel l byTag started tr = Some (Err e, tr')).
Proof.
  intros Hnd. revert started tr. induction fuel as [|fuel IH]; intros started tr Hsub Hf.
  - exfalso. apply subseteq_size in Hsub. rewrite size_tags in Hsub by done. lia.
  - cbn [start_rounds]. destruct (start_pass l started false tr) as [r tr1] eqn:Hp.
    destruct r as [[s1 c1]|e|msg]; [|right; by eexists _, _|by apply start_pass_no_panic in Hp].
    apply start_pass_spec in Hp as (order & Ho & Hl & -> & -> & -> & Hb).
    assert (Hsub' : tags order ∪ started ⊆ tags l) by (apply tags_subset in Hl; set_solver).
    destruct (Nat.eqb_spec (size (tags order ∪ started)) (length l)) as [Hs|Hs].
    { left. exists order, (tr ++ concat (map start_events order)). done. }
    case_bool_decide as Hnil; cbn [negb orb].
    + destruct (unstarted_member l _ Hnd Hsub' Hs) as [o ->].
      destruct (lint_terminates (size byTag + 2) (tags order ∪ started) byTag (m_Tag o) [] o) as [e ->];
        [constructor|set_solver|simpl; lia|]. right. by eexists _, _.
    + assert (Hgrow : (size started < size (tags order ∪ started))%nat).
      { apply subset_size. split; [set_solver|]. destruct order as [|o order]; [done|].
        inversion Ho; subst. rewrite tags_cons. set_solver. }
      destruct (IH (tags order ∪ started) (tr ++ concat (map start_events order)))
        as [(order' & tr' & -> & Ho' & Hl' & Hs' & ->)|H]; [done|lia| |by right].
      left. exists (order ++ order'), ((tr ++ concat (map start_events order)) ++ concat (map start_events order')).
      split; [done|]. split; [by apply ordered_app|]. split; [set_solver|].
      split; [rewrite <- Hs', tags_app; f_equal; set_solver|].
      by rewrite map_app, concat_app, app_assoc.
Qed.

(** Starting ends, in an order that respects the dependencies or with an
    error. *)
Lemma start_all_spec l byTag tr :
  NoDup (map m_Tag l) ->
  (exists order, start_all l byTag tr = Some (Ok tt, tr ++ concat (map start_events order)) /\
     order ≡ₚ l /\ ordered ∅ order) \/
  (exists e tr', start_all l byTag tr = Some (Err e, tr')).
Proof.
  intros Hnd. unfold start_all.
  destruct (start_rounds_spec (length l + 1) l byTag ∅ tr Hnd) as [(order & tr' & -> & Ho & Hl & Hs & ->)|H];
    [set_solver|rewrite size_empty; lia| |by right].
  left. exists order. split; [done|]. split; [|done].
  apply ordered_NoDup in Ho as [Hnd' _]. apply submseteq_length_Permutation.
  - apply NoDup_submseteq; [|done]. by apply NoDup_fmap_1 in Hnd'.
  - rewrite (union_empty_r_L (tags order)), size_tags in Hs by done. lia.
Qed.

(** ** What an error means *)

(** [a] depends on [b]. *)
Definition edge (l : list Member) (a b : string) : Prop :=
  exists o, o ∈ l /\ m_Tag o = a /\ b ∈ m_Dependencies o.

Definition circular_error (oTree : list string) (problem : string) : error :=
  E_New [AStr ("circular " +:+ kind_word texts +:+ " dependency: ");
         AStr (String.concat " -> " oTree); AStr " -> "; AStr problem].
Definition missing_error (problem tag : string) : error :=
  E_New [AStr "dependency["; AStr problem; AStr ("] not found for " +:+ kind_word texts +:+ "[");
         AStr tag; AStr "]"].

(** What [lint] says by the index of the manager. *)
Definition reported (l : list Member) (byTag : gmap string Member) (e : error) : Prop :=
  (exists oTree t, e = circular_error oTree t /\ tc (edge l) t t) \/
  (exists o d, e = missing_error d (m_Tag o) /\ o ∈ l /\ d ∈ m_Dependencies o /\ byTag !! d = None).

(** Members that cannot all be started: a cycle, or a dependency nobody has. *)
Definition cyclic (l : list Member) : Prop := exists t, tc (edge l) t t.
Definition incomplete (l : list Member) : Prop :=
  exists o d, o ∈ l /\ d ∈ m_Dependencies o /\ d ∉ map m_Tag l.
(** An error that names its cause, or one that takes a member outside the index of
    the manager (an endpoint, for the outbound manager), which is itself waiting,
    for a missing one *)
Definition explained (l : list Member) (byTag : gmap string Member) (e : error) : Prop :=
  (exists oTree t, e = circular_error oTree t /\ tc (edge l) t t) \/
  (exists o d, e = missing_error d (m_Tag o) /\ o ∈ l /\ d ∈ m_Dependencies o /\ d ∉ map m_Tag l) \/
  (exists o d, e = missing_error d (m_Tag o) /\ o ∈ l /\ d ∈ m_Dependencies o /\
     d ∈ map m_Tag l /\ byTag !! d = None /\ (cyclic l \/ incomplete l)).

(** The tags of the manager are those of its members. *)
Definition indexes (byTag : gmap string Member) (l : list Member) : Prop :=
  forall t o, byTag !! t = Some o -> o ∈ l /\ m_Tag o = t.

Lemma blocked_find started o :
  blocked started o ->
  let problem := Find "" (m_Dependencies o) (fun it => negb (bool_decide (it ∈ started))) in
  problem ∈ m_Dependencies o /\ problem ∉ started.
Proof.
  intros (d & Hd & Hs). cbv zeta. rewrite Find_law.
  destruct (List.find _ (m_Dependencies o)) as [x|] eqn:Hf; cbn.
  - apply List.find_some in Hf as [Hx Hn]. split; [by apply list_elem_of_In|].
    apply negb_true_iff in Hn. by apply bool_decide_eq_false in Hn.
  - apply list_elem_of_In in Hd. apply (List.find_none _ _ Hf), negb_false_iff, bool_decide_eq_true in Hd.
    done.
Qed.

Lemma lint_reported l byTag started fuel oTree o e :
  indexes byTag l -> (forall x, x ∈ l -> m_Tag x ∈ started \/ blocked started x) ->
  o ∈ l -> m_Tag o ∉ started -> (forall x, x ∈ oTree -> rtc (edge l) x (m_Tag o)) ->
  lint fuel started byTag oTree o = Some e -> reported l byTag e.
Proof.
  intros Hidx Hblk. revert oTree o. induction fuel as [|fuel IH]; intros oTree o Ho Hns Htree; [done|].
  cbn [lint]. destruct (Hblk o Ho) as [?|Hb]; [done|]. destruct (blocked_find _ _ Hb) as [Hp Hps].
  set (problem := Find _ _ _) in *. rewrite Contains_law.
  assert (He : edge l (m_Tag o) problem) by (by exists o).
  case_bool_decide as Hc.
  - intros [= <-]. left. exists oTree, problem. split; [done|].
    eapply tc_rtc_l; [by apply Htree|]. by apply tc_once.
  - destruct (byTag !! problem) as [o'|] eqn:Hb'.
    + destruct (Hidx _ _ Hb') as [Ho' Ht']. apply IH; [done|by rewrite Ht'|].
      intros x Hx. rewrite Ht'. apply elem_of_app in Hx as [Hx|Hx].
      * eapply rtc_r; [by apply Htree|done].
      * apply list_elem_of_singleton in Hx as ->. done.
    + intros [= <-]. right. exists o, problem. done.
Qed.

(** The index of all members *)
Definition full_index (l : list Member) : gmap string Member := list_to_map (map (fun o => (m_Tag o, o)) l).
Lemma full_index_indexes l : indexes (full_index l) l.
Proof.
  intros t o H. apply elem_of_list_to_map_2, list_elem_of_fmap in H as (x & [= -> ->] & Hx). done.
Qed.
Lemma full_index_none l d : full_index l !! d = None -> d ∉ map m_Tag l.
Proof.
  intros H Hd. apply not_elem_of_list_to_map in H. apply H.
  apply list_elem_of_fmap in Hd as (o & -> & Ho). apply list_elem_of_fmap. exists (m_Tag o, o). split; [done|].
  apply list_elem_of_fmap. by exists o.
Qed.

(** When a pass starts nothing and something is left, there is a cycle or a
    dependency nobody has. *)
Lemma blocked_cause l started o :
  (forall x, x ∈ l -> m_Tag x ∈ started \/ blocked started x) -> o ∈ l -> m_Tag o ∉ started ->
  cyclic l \/ incomplete l.
Proof.
  intros Hblk Ho Hns.
  destruct (lint_terminates (S (size (full_index l) + 1)) started (full_index l) (m_Tag o) [] o) as [e He];
    [constructor|set_solver|cbn; lia|].
  destruct (lint_reported l (full_index l) started (S (size (full_index l) + 1)) [m_Tag o] o e (full_index_indexes l) Hblk Ho Hns) as [(? & t & _ & Ht)|(x & d & _ & Hx & Hd & Hn)].
  - intros x Hx. by apply list_elem_of_singleton in Hx as ->.
  - exact He.
  - left. by exists t.
  - right. exists x, d. split; [done|]. split; [done|]. by apply full_index_none.
Qed.

Lemma lint_explained l byTag started fuel o e :
  indexes byTag l -> (forall x, x ∈ l -> m_Tag x ∈ started \/ blocked started x) ->
  o ∈ l -> m_Tag o ∉ started -> lint fuel started byTag [m_Tag o] o = Some e -> explained l byTag e.
Proof.
  intros Hidx Hblk Ho Hns He.
  destruct (lint_reported l byTag started fuel [m_Tag o] o e Hidx Hblk Ho Hns) as [H|(x & d & -> & Hx & Hd & Hn)].
  - intros x Hx. by apply list_elem_of_singleton in Hx as ->.
  - exact He.
  - by left.
  - right. destruct (decide (d ∈ map m_Tag l)); [right|left; by exists x, d].
    exists x, d. do 5 (split; [done|]). exact (blocked_cause l started o Hblk Ho Hns).
Qed.

Lemma start_pass_error l started c tr e tr' :
  start_pass l started c tr = (Err e, tr') ->
  exists o e0, o ∈ l /\ e = E_Cause e0 (start_ctx texts o) /\ outcome tr' = Some e0.
Proof.
  revert started c tr. induction l as [|o l IH]; intros started c tr; cbn [start_pass]; [done|].
  assert (Hrec : forall s c tr, start_pass l s c tr = (Err e, tr') ->
            exists o' e0, o' ∈ o :: l /\ e = E_Cause e0 (start_ctx texts o') /\ outcome tr' = Some e0).
  { intros s c1 tr1 (o' & e0 & H & He)%IH. exists o', e0. split; [by right|done]. }
  case_bool_decide; [apply Hrec|]. destruct (negb _); [apply Hrec|]. rewrite call_start.
  destruct (start_events o) as [|ev evs] eqn:Hev; [apply Hrec|].
  destruct (outcome (tr ++ ev :: evs)) as [e0|] eqn:Hout; [|apply Hrec].
  intros [= <- <-]. exists o, e0. split; [left|done].
Qed.

Lemma start_rounds_error fuel l byTag started tr e tr' :
  indexes byTag l ->
  start_rounds fuel l byTag started tr = Some (Err e, tr') ->
  (exists o e0, o ∈ l /\ e = E_Cause e0 (start_ctx texts o) /\ outcome tr' = Some e0) \/
  explained l byTag e.
Proof.
  intros Hidx. revert started tr. induction fuel as [|fuel IH]; intros started tr; [done|].
  cbn [start_rounds]. destruct (start_pass l started false tr) as [r tr1] eqn:Hp.
  destruct r as [[s1 c1]|e1|msg]; [|intros [= -> ->]; left; by eapply start_pass_error|done].
  apply start_pass_spec in Hp as (order & _ & _ & -> & _ & -> & Hb).
  destruct (Nat.eqb _ _); [done|]. case_bool_decide as Hnil; cbn [negb orb]; [|apply IH].
  rewrite FindPtr_law. destruct (List.find _ l) as [o|] eqn:Hf; [|done].
  destruct (lint _ _ _ _ _) as [e1|] eqn:Hlint; [|done]. intros [= -> _]. right.
  apply List.find_some in Hf as [Ho Hn]. apply negb_true_iff, bool_decide_eq_false in Hn.
  subst order. replace (tags [] ∪ started) with started in * by set_solver.
  eapply lint_explained; [done|by apply Hb|by apply list_elem_of_In|done|exact Hlint].
Qed.

(** C16: starting the members of a manager always ends (a pass per member is
    enough), and it ends in one of two ways.  Either every member was started
    exactly once, in an order where each dependency of a member is the tag of
    one started before it; or there is an error: the failure of the member it
    names, a cycle of dependencies, or a dependency that is not found.  Such a
    cycle is one, and a dependency that is not found belongs to no member, with
    one exception: a member outside the manager's index (the outbound manager
    starts the endpoints with its outbounds, but looks up only outbounds) that is
    itself waiting is called not found, while the cause is a cycle or a missing
    dependency elsewhere.  Tags are distinct, and the index holds members under
    their tags. *)
Theorem start_all_correct l byTag tr :
  NoDup (map m_Tag l) -> indexes byTag l ->
  (exists order, start_all l byTag tr = Some (Ok tt, tr ++ concat (map start_events order)) /\
     order ≡ₚ l /\ ordered ∅ order) \/
  (exists e tr', start_all l byTag tr = Some (Err e, tr') /\
     ((exists o e0, o ∈ l /\ e = E_Cause e0 (start_ctx texts o) /\ outcome tr' = Some e0) \/
      explained l byTag e)).
Proof.
  intros Hnd Hidx. destruct (start_all_spec l byTag tr Hnd) as [H|(e & tr' & H)]; [by left|].
  right. exists e, tr'. split; [done|]. by eapply start_rounds_error.
Qed.
End Manager.
