(* ===== verification/OutboundManager.v ===== *)
(** * The outbound manager

    [adapter/outbound/manager.go].  The state is the manager's fields and the
    trace of calls to outbounds; operations return their error next to the
    new state, because several of them change the state before they fail.
    The endpoint manager is used through its lookup, the outbounds come from a
    registry. *)

From stdpp Require Import base numbers list strings gmap option.
From Stdlib Require Import ZArith Lia.
From S2P Require Import Prelude ManagerCore.

Local Open Scope Z_scope.

(** [adapter.EndpointManager], as far as it is used here. *)
Class EndpointManager := {
  ep_Get : string -> option Member;
  ep_Endpoints : list Member
}.

(** [Manager] *)
Record Manager := mkManager {
  defaultTag : string;
  started : bool;
  stage : Z;
  outbounds : list Member;
  outboundByTag : gmap string Member;
  dependByTag : gmap string (list string);
  defaultOutbound : option Member
}.

(** [NewManager] *)
Definition NewManager (defaultTag : string) : Manager :=
  mkManager defaultTag false 0 [] ∅ ∅ None.

(** Assignments to fields. *)
Definition set_stage (m : Manager) (b : bool) (s : Z) : Manager :=
  mkManager (defaultTag m) b s (outbounds m) (outboundByTag m) (dependByTag m) (defaultOutbound m).
Definition set_outbounds (m : Manager) (l : list Member) : Manager :=
  mkManager (defaultTag m) (started m) (stage m) l (outboundByTag m) (dependByTag m) (defaultOutbound m).
Definition set_byTag (m : Manager) (x : gmap string Member) : Manager :=
  mkManager (defaultTag m) (started m) (stage m) (outbounds m) x (dependByTag m) (defaultOutbound m).
Definition set_dependByTag (m : Manager) (x : gmap string (list string)) : Manager :=
  mkManager (defaultTag m) (started m) (stage m) (outbounds m) (outboundByTag m) x (defaultOutbound m).
Definition set_default (m : Manager) (o : option Member) : Manager :=
  mkManager (defaultTag m) (started m) (stage m) (outbounds m) (outboundByTag m) (dependByTag m) o.

Section OutboundManager.
Context {SH : SliceHelpers} {EM : EndpointManager}.
Context (outcome : list Event -> option error).

Definition outbound_name (o : Member) : list earg :=
  [AStr "outbound/"; AStr (m_Type o); AStr "["; AStr (m_Tag o); AStr "]"].
Definition outbound_texts : Texts :=
  mkTexts (fun o => AStr "start " :: outbound_name o) "outbound".

(** The outcome of a method: the error, the manager and the trace. *)
Definition Outcome : Type := Res unit * Manager * Trace.

(** The loop of [Start] for the other stages, and of [Create]. *)
Fixpoint start_stage (l : list Member) (s : Z) (tr : Trace) : Res unit * Trace :=
  match l with
  | [] => (Ok tt, tr)
  | o :: rest =>
      let '(r, tr) := LegacyStart outcome o s tr in
      match wrap_err r (AStr (StartStage_String s) :: AStr " " :: outbound_name o) with
      | Ok _ => start_stage rest s tr
      | r => (r, tr)
      end
  end.
Fixpoint start_stages (o : Member) (stages : list Z) (tr : Trace) : Res unit * Trace :=
  match stages with
  | [] => (Ok tt, tr)
  | s :: rest =>
      let '(r, tr) := start_stage [o] s tr in
      match r with Ok _ => start_stages o rest tr | r => (r, tr) end
  end.

(** The default outbound of [Start]: the endpoint of the default tag, or the
    fallback.  It fails before any assignment. *)
Definition choose_default (fallback : Res Member) (m : Manager) : Res Manager :=
  m ← (if negb (bool_decide (defaultTag m = "")) && is_nil (defaultOutbound m) then
         match ep_Get (defaultTag m) with
         | None => Err (E_New [AStr "default outbound not found: "; AStr (defaultTag m)])
         | Some e => Ok (set_default m (Some e))
         end
       else Ok m);
  if is_nil (defaultOutbound m) then
    o ← wrap_err fallback [AStr "create direct outbound for fallback"];
    Ok (set_default (set_byTag (set_outbounds m (outbounds m ++ [o]))
                       (<[m_Tag o := o]> (outboundByTag m))) (Some o))
  else Ok m.

(** [(m *Manager) Start] *)
Definition Start (fallback : Res Member) (s : Z) (m : Manager) (tr : Trace) : Outcome :=
  if started m && (s <=? stage m) then (Panic "already started", m, tr)
  else
    let m := set_stage m true s in
    if s =? StartStateStart then
      match choose_default fallback m with
      | Ok m =>
          match start_all outcome outbound_texts (outbounds m ++ ep_Endpoints) (outboundByTag m) tr with
          | Some (r, tr) => (r, m, tr)
          | None => (Panic "startOutbounds does not terminate", m, tr)
          end
      | Err e => (Err e, m, tr)
      | Panic msg => (Panic msg, m, tr)
      end
    else let '(r, tr) := start_stage (outbounds m) s tr in (r, m, tr).

(** [(m *Manager) Close]; the collected error is dropped. *)
Fixpoint close_all (l : list Member) (tr : Trace) : Trace :=
  match l with
  | [] => tr
  | o :: rest => close_all rest (snd (common_Close outcome o tr))
  end.
Definition Close (m : Manager) (tr : Trace) : Outcome :=
  if negb (started m) then (Ok tt, m, tr)
  else (Ok tt, set_outbounds (set_stage m false (stage m)) [], close_all (outbounds m) tr).

(** [(m *Manager) Outbound] *)
Definition Outbound (m : Manager) (tag : string) : option Member :=
  match outboundByTag m !! tag with
  | Some o => Some o
  | None => ep_Get tag
  end.

(** [(m *Manager) Remove] *)
Definition Remove (tag : string) (m : Manager) (tr : Trace) : Outcome :=
  match outboundByTag m !! tag with
  | None => (Err ErrInvalid, m, tr)
  | Some o =>
      let m := set_byTag m (delete tag (outboundByTag m)) in
      let index := index_of o (outbounds m) in
      if index =? -1 then (Panic "invalid inbound index", m, tr)
      else
        let m := set_outbounds m (delete_at index (outbounds m)) in
        let m := if bool_decide (defaultOutbound m = Some o)
                 then set_default m (match outbounds m with x :: _ => Some x | [] => None end)
                 else m in
        let dependBy := dependents (dependByTag m) tag in
        if negb (bool_decide (dependBy = [])) then
          (Err (E_New [AStr "outbound["; AStr tag; AStr "] is depended by ";
                       AStr (String.concat ", " dependBy)]), m, tr)
        else
          let m := set_dependByTag m (undepend tag (m_Dependencies o) (dependByTag m)) in
          if started m then let '(r, tr) := common_Close outcome o tr in (r, m, tr)
          else (Ok tt, m, tr)
  end.

(** The insertion at the end of [Create]. *)
Definition insert_outbound (tag : string) (o : Member) (m : Manager) : Manager :=
  let m := set_outbounds m (outbounds m ++ [o]) in
  let m := set_byTag m (<[tag := o]> (outboundByTag m)) in
  let m := set_dependByTag m (depend tag (m_Dependencies o) (dependByTag m)) in
  if bool_decide (tag = defaultTag m) ||
     (bool_decide (defaultTag m = "") && is_nil (defaultOutbound m))
  then set_default m (Some o) else m.

(** [(m *Manager) Create]; [created] is what the registry returns. *)
Definition Create (tag : string) (created : Res Member) (m : Manager) (tr : Trace) : Outcome :=
  if bool_decide (tag = "") then (Err ErrInvalid, m, tr)
  else match created with
  | Err e => (Err e, m, tr)
  | Panic msg => (Panic msg, m, tr)
  | Ok o =>
      let '(r, tr) := if started m then start_stages o ListStartStages tr else (Ok tt, tr) in
      match r with
      | Ok _ =>
          match outboundByTag m !! tag with
          | Some exists_ =>
              let '(r, tr) := if started m then common_Close outcome exists_ tr else (Ok tt, tr) in
              match wrap_err r [AStr "close outbound/"; AStr (m_Type exists_); AStr "[";
                                AStr (m_Tag exists_); AStr "]"] with
              | Ok _ =>
                  let index := index_of exists_ (outbounds m) in
                  if index =? -1 then (Panic "invalid inbound index", m, tr)
                  else (Ok tt, insert_outbound tag o
                                 (set_outbounds m (delete_at index (outbounds m))), tr)
              | r => (r, m, tr)
              end
          | None => (Ok tt, insert_outbound tag o m, tr)
          end
      | r => (r, m, tr)
      end
  end.

(** ** The invariant of the manager *)

(** The index, the list, the dependents and the default agree. *)
Record wf (m : Manager) : Prop := {
  wf_tags : NoDup (map m_Tag (outbounds m));
  wf_index : forall t o, outboundByTag m !! t = Some o <-> o ∈ outbounds m /\ m_Tag o = t;
  wf_depend : forall d t, t ∈ dependents (dependByTag m) d <->
                exists o, o ∈ outbounds m /\ m_Tag o = t /\ d ∈ m_Dependencies o;
  wf_deps : forall o, o ∈ outbounds m -> NoDup (m_Dependencies o);
  wf_default : forall o, defaultOutbound m = Some o ->
                 o ∈ outbounds m \/ (defaultTag m <> "" /\ ep_Get (defaultTag m) = Some o);
  wf_no_default : defaultTag m = "" -> defaultOutbound m = None -> outbounds m = []
}.

Lemma NewManager_wf tag : wf (NewManager tag).
Proof.
  split; cbn; try done; [constructor| | |].
  - intros t o. rewrite lookup_empty. set_solver.
  - intros d t. unfold dependents. rewrite lookup_empty. set_solver.
  - set_solver.
Qed.

(** ** Operations preserve the invariant *)

Lemma same_tag_same m x y :
  wf m -> x ∈ outbounds m -> y ∈ outbounds m -> m_Tag x = m_Tag y -> x = y.
Proof.
  intros Hw Hx Hy E.
  assert (outboundByTag m !! m_Tag y = Some x) as H1 by (by apply (wf_index m Hw)).
  assert (outboundByTag m !! m_Tag y = Some y) as H2 by (by apply (wf_index m Hw)).
  congruence.
Qed.

Lemma insert_wf m tag o :
  wf m -> outboundByTag m !! tag = None -> m_Tag o = tag -> NoDup (m_Dependencies o) ->
  wf (insert_outbound tag o m).
Proof.
  intros Hw Hfresh Htag Hdeps.
  assert (Hnew : forall x, x ∈ outbounds m -> m_Tag x <> tag).
  { intros x Hx E. assert (outboundByTag m !! tag = Some x) by (by apply (wf_index m Hw)). congruence. }
  unfold insert_outbound. cbn [set_outbounds set_byTag set_dependByTag defaultTag defaultOutbound outbounds
    outboundByTag dependByTag].
  assert (Hcore : forall d, (forall x, d = Some x -> x ∈ outbounds m ++ [o] \/
                     (defaultTag m <> "" /\ ep_Get (defaultTag m) = Some x)) ->
                  (defaultTag m = "" -> d <> None) ->
                  wf (mkManager (defaultTag m) (started m) (stage m) (outbounds m ++ [o])
                        (<[tag := o]> (outboundByTag m)) (depend tag (m_Dependencies o) (dependByTag m)) d)).
  { intros d Hd Hnone. split; cbn; try done.
    - rewrite map_app. cbn. apply list.NoDup_app. split; [apply (wf_tags m Hw)|].
      split; [|apply NoDup_singleton]. intros t Ht Ht'. apply list_elem_of_singleton in Ht' as ->.
      apply list_elem_of_fmap in Ht as (x & E & Hx). apply (Hnew x Hx). congruence.
    - intros t x. rewrite elem_of_app, list_elem_of_singleton. destruct (decide (t = tag)) as [->|Hne].
      + rewrite lookup_insert_eq. split; [intros [= <-]; auto|].
        intros [[Hx | ->] E]; [by apply Hnew in E|done].
      + rewrite lookup_insert_ne by done. rewrite (wf_index m Hw). split; [naive_solver|].
        intros [[Hx | ->] E]; [done|congruence].
    - intros d' t. rewrite depend_spec, (wf_depend m Hw). setoid_rewrite elem_of_app.
      setoid_rewrite list_elem_of_singleton. split.
      + intros [(x & Hx & E & Hin)|[-> Hin]]; [by exists x; auto|by exists o; auto].
      + intros (x & [Hx | ->] & E & Hin); [left; by exists x|right; by subst].
    - intros x. rewrite elem_of_app, list_elem_of_singleton. intros [Hx | ->]; [by apply (wf_deps m Hw)|done].
    - intros E N. by apply Hnone in E. }
  destruct (bool_decide (tag = defaultTag m) || _) eqn:Hc.
  - apply Hcore; [|done]. intros x [= <-]. left. set_solver.
  - apply orb_false_iff in Hc as [_ Hc]. apply Hcore.
    + intros x Hx. destruct (wf_default m Hw x Hx) as [?|?]; [left; set_solver|by right].
    + intros E N. change (defaultOutbound m = None) in N.
      rewrite N, (bool_decide_eq_true_2 (defaultTag m = "")) in Hc by done. done.
Qed.

(** The manager after the removal of [o]. *)
Definition removed (m : Manager) (o : Member) : Manager :=
  let l := delete_at (index_of o (outbounds m)) (outbounds m) in
  mkManager (defaultTag m) (started m) (stage m) l (delete (m_Tag o) (outboundByTag m))
    (undepend (m_Tag o) (m_Dependencies o) (dependByTag m))
    (if bool_decide (defaultOutbound m = Some o)
     then match l with x :: _ => Some x | [] => None end else defaultOutbound m).

Lemma removed_wf m o :
  wf m -> o ∈ outbounds m -> dependents (dependByTag m) (m_Tag o) = [] -> wf (removed m o).
Proof.
  intros Hw Ho Hdep. destruct (delete_member o (outbounds m) (wf_tags m Hw) Ho) as (_ & Hnd & Hin).
  unfold removed. set (l := delete_at _ _) in *. split; cbn.
  - done.
  - intros t x. rewrite Hin. destruct (decide (t = m_Tag o)) as [->|Hne].
    + rewrite lookup_delete_eq. naive_solver.
    + rewrite lookup_delete_ne by done. rewrite (wf_index m Hw). naive_solver.
  - intros d t. rewrite undepend_spec.
    2: { by apply (wf_deps m Hw). }
    2: { intros e He. apply (wf_depend m Hw). by exists o. }
    rewrite (wf_depend m Hw). split.
    + intros [(x & Hx & <- & Hd) Hne]. exists x. rewrite Hin. split; [|done]. split; [done|].
      intros E. apply Hne. split; [done|]. by rewrite <- (same_tag_same m x o Hw Hx Ho E).
    + intros (x & Hx & <- & Hd). apply Hin in Hx as [Hx Hne]. split; [by exists x|]. by intros [E _].
  - intros x Hx. apply Hin in Hx as [Hx _]. by apply (wf_deps m Hw).
  - intros x. case_bool_decide as Hd.
    + destruct l as [|y l']; [done|]. intros [= <-]. left. by left.
    + intros Hx. destruct (wf_default m Hw x Hx) as [Hx'|?]; [|by right]. left. apply Hin.
      split; [done|]. intros E. apply Hd. by rewrite Hx, (same_tag_same m x o Hw Hx' Ho E).
  - intros E. case_bool_decide as Hd; [by destruct l|]. intros N.
    apply (wf_no_default m Hw E) in N. rewrite N in Ho. by apply not_elem_of_nil in Ho.
Qed.

Lemma Remove_eq m o tr :
  wf m -> o ∈ outbounds m -> dependents (dependByTag m) (m_Tag o) = [] ->
  Remove (m_Tag o) m tr =
  (if started m then let '(r, tr) := common_Close outcome o tr in (r, removed m o, tr)
   else (Ok tt, removed m o, tr)).
Proof.
  intros Hw Ho Hdep. unfold Remove.
  rewrite (proj2 (wf_index m Hw (m_Tag o) o)) by done. cbn [set_byTag outbounds].
  destruct (delete_member o (outbounds m) (wf_tags m Hw) Ho) as (-> & _ & _).
  cbn [set_outbounds outbounds defaultOutbound set_byTag].
  unfold removed. cbv zeta. cbn [set_outbounds set_byTag outbounds defaultOutbound].
  destruct (bool_decide (defaultOutbound m = Some o));
    cbn [set_default dependByTag set_outbounds set_byTag]; rewrite Hdep; done.
Qed.

Lemma wf_stage m b s : wf m -> wf (set_stage m b s).
Proof. intros []. by split. Qed.

(** The fallback is used only by an empty manager. *)
Lemma choose_default_wf fallback m m' :
  wf m -> (forall o, fallback = Ok o -> m_Dependencies o = []) ->
  choose_default fallback m = Ok m' -> wf m' /\ defaultOutbound m' <> None.
Proof.
  intros Hw Hf. unfold choose_default.
  destruct (defaultOutbound m) as [d|] eqn:Hd; cbn [is_nil].
  { rewrite andb_false_r. cbn [mbind res_bind]. rewrite Hd. intros [= <-]. by rewrite Hd. }
  rewrite andb_true_r. case_bool_decide as Ht; cbn [negb mbind res_bind].
  - rewrite Hd. cbn [is_nil]. destruct fallback as [o|e|msg]; [|done|done].
    cbn [wrap_err mbind res_bind]. intros [= <-]. split; [|done].
    pose proof (wf_no_default m Hw Ht Hd) as Hl.
    assert (Hempty : forall t, outboundByTag m !! t = None).
    { intros t. destruct (outboundByTag m !! t) as [x|] eqn:Hx; [|done].
      apply (wf_index m Hw) in Hx as [Hx _]. rewrite Hl in Hx. by apply not_elem_of_nil in Hx. }
    assert (Hnd : NoDup (m_Dependencies o)) by (rewrite (Hf o eq_refl); constructor).
    pose proof (insert_wf m (m_Tag o) o Hw (Hempty _) eq_refl Hnd) as Hi.
    unfold insert_outbound in Hi. rewrite (Hf o eq_refl) in Hi. cbn in Hi.
    rewrite Hd, (bool_decide_eq_true_2 (defaultTag m = "")), orb_true_r in Hi by done. exact Hi.
  - destruct (ep_Get (defaultTag m)) as [e|] eqn:He; [|done]. cbn [mbind res_bind set_default defaultOutbound is_nil].
    intros [= <-]. split; [|done]. destruct Hw as [H1 H2 H3 H4 H5 H6].
    split; cbn; try done. intros o [= <-]. by right.
Qed.

Lemma choose_default_list fallback m m' :
  wf m -> choose_default fallback m = Ok m' ->
  outbounds m' = outbounds m \/ (outbounds m = [] /\ exists o, fallback = Ok o /\ outbounds m' = [o]).
Proof.
  intros Hw. unfold choose_default. destruct (defaultOutbound m) as [d|] eqn:Hd; cbn [is_nil].
  { rewrite andb_false_r. cbn [mbind res_bind]. rewrite Hd. intros [= <-]. by left. }
  rewrite andb_true_r. case_bool_decide as Ht; cbn [negb mbind res_bind].
  - rewrite Hd. cbn [is_nil]. destruct fallback as [o|e|msg]; [|done|done].
    cbn [wrap_err mbind res_bind]. intros [= <-]. right. pose proof (wf_no_default m Hw Ht Hd) as Hl.
    split; [done|]. exists o. cbn. by rewrite Hl.
  - destruct (ep_Get (defaultTag m)); [|done]. intros [= <-]. by left.
Qed.

Lemma choose_default_no_panic fallback m msg :
  (forall msg, fallback <> Panic msg) -> choose_default fallback m <> Panic msg.
Proof.
  intros Hf. unfold choose_default. destruct (negb _ && _).
  - destruct (ep_Get _); [|done]. done.
  - cbn [mbind res_bind]. destruct (is_nil _); [|done].
    destruct fallback as [o|e|msg']; [done|done|]. by destruct (Hf msg').
Qed.

(** The life of a manager: outbounds are created under new tags, removed when
    nothing depends on them, and the manager is started. *)
Inductive reachable (fallback : Res Member) : Manager -> Trace -> Prop :=
  | reach_new tag : reachable fallback (NewManager tag) []
  | reach_create m tr tag o r m' tr' :
      reachable fallback m tr -> outboundByTag m !! tag = None -> m_Tag o = tag ->
      NoDup (m_Dependencies o) -> Create tag (Ok o) m tr = (r, m', tr') ->
      reachable fallback m' tr'
  | reach_remove m tr tag r m' tr' :
      reachable fallback m tr -> dependents (dependByTag m) tag = [] ->
      Remove tag m tr = (r, m', tr') -> reachable fallback m' tr'
  | reach_start m tr s r m' tr' :
      reachable fallback m tr -> (started m && (s <=? stage m)) = false ->
      Start fallback s m tr = (r, m', tr') -> reachable fallback m' tr'.

Lemma Create_fresh m tr tag o :
  outboundByTag m !! tag = None ->
  exists r tr', Create tag (Ok o) m tr = (r, m, tr') \/ Create tag (Ok o) m tr = (Ok tt, insert_outbound tag o m, tr').
Proof.
  intros Hf. unfold Create. case_bool_decide; [by eexists _, _; left|].
  destruct (if started m then _ else _) as [[u|e|msg] tr1]; [|by eexists _, _; left..].
  rewrite Hf. by eexists (Ok tt), _; right.
Qed.

Lemma Remove_unknown m tag tr :
  outboundByTag m !! tag = None -> Remove tag m tr = (Err ErrInvalid, m, tr).
Proof. intros H. unfold Remove. by rewrite H. Qed.

Lemma reachable_invariant fallback m tr :
  (forall o, fallback = Ok o -> m_Dependencies o = []) -> reachable fallback m tr -> wf m.
Proof.
  intros Hf. induction 1 as [tag|m tr tag o r m' tr' _ Hw Hfresh Htag Hnd Hc
                            |m tr tag r m' tr' _ Hw Hdep Hr|m tr s r m' tr' _ Hw Hs Hr].
  - apply NewManager_wf.
  - destruct (Create_fresh m tr tag o Hfresh) as (r1 & tr1 & [E|E]); rewrite E in Hc;
      injection Hc as _ <- _; [done|by apply insert_wf].
  - destruct (outboundByTag m !! tag) as [o|] eqn:Ho.
    + apply (wf_index m Hw) in Ho as [Ho <-]. rewrite Remove_eq in Hr by done.
      assert (Hw' : wf (removed m o)) by by apply removed_wf.
      destruct (started m); [|by injection Hr as _ <- _].
      destruct (common_Close outcome o tr) as [r1 tr1]. by injection Hr as _ <- _.
    + rewrite Remove_unknown in Hr by done. by injection Hr as _ <- _.
  - unfold Start in Hr. rewrite Hs in Hr. pose proof (wf_stage m true s Hw) as Hw1.
    destruct (s =? StartStateStart).
    + destruct (choose_default fallback (set_stage m true s)) as [m1|e|msg] eqn:Hc;
        [|by injection Hr as _ <- _..].
      apply choose_default_wf in Hc as [Hw2 _]; [|done..].
      destruct (start_all _ _ _ _ _) as [[r1 tr1]|]; by injection Hr as _ <- _.
    + destruct (start_stage _ _ _) as [r1 tr1]. by injection Hr as _ <- _.
Qed.

(** ** Properties *)

(** Every manager reached by creating outbounds under new tags, removing
    those nothing depends on and starting the manager is consistent: tags are
    unique, the index holds exactly the listed outbounds, the dependents of a
    tag are exactly the outbounds that name it, and the default outbound is
    listed or is the endpoint of the default tag. *)
Theorem outbound_manager_invariant fallback m tr :
  (forall o, fallback = Ok o -> m_Dependencies o = []) -> reachable fallback m tr -> wf m.
Proof. apply reachable_invariant. Qed.

(** [Remove] on a consistent manager.  An unknown tag is an error and changes
    nothing.  A tag that others depend on is an error.  Otherwise the outbound
    leaves the list and the index, all other tags keep their outbound, the
    manager stays consistent, and the outbound is closed if the manager was
    started.  The index panic is not reached. *)
Theorem remove_outbound m tag tr :
  wf m ->
  match outboundByTag m !! tag with
  | None => Remove tag m tr = (Err ErrInvalid, m, tr)
  | Some o =>
      if bool_decide (dependents (dependByTag m) tag = []) then
        exists m', Remove tag m tr =
          (if started m then let '(r, tr) := common_Close outcome o tr in (r, m', tr) else (Ok tt, m', tr)) /\
          wf m' /\ outboundByTag m' !! tag = None /\ (o ∉ outbounds m') /\
          (forall t, t <> tag -> outboundByTag m' !! t = outboundByTag m !! t)
      else exists e m', Remove tag m tr = (Err e, m', tr)
  end.
Proof.
  intros Hw. destruct (outboundByTag m !! tag) as [o|] eqn:Ho; [|by apply Remove_unknown].
  pose proof Ho as Ho'. apply (wf_index m Hw) in Ho' as [Hin <-]. case_bool_decide as Hdep.
  - exists (removed m o). split; [by apply Remove_eq|].
    split; [by apply removed_wf|]. cbn. split; [by rewrite lookup_delete_eq|]. split.
    + intros Hx. apply (delete_member o (outbounds m) (wf_tags m Hw) Hin) in Hx. naive_solver.
    + intros t Hne. by rewrite lookup_delete_ne.
  - unfold Remove. rewrite Ho. cbn [set_byTag outbounds].
    destruct (delete_member o (outbounds m) (wf_tags m Hw) Hin) as (-> & _ & _). cbv zeta.
    cbn [set_outbounds outbounds defaultOutbound set_byTag].
    destruct (bool_decide (defaultOutbound m = Some o)); cbn [set_default dependByTag set_outbounds set_byTag];
      rewrite bool_decide_eq_false_2 by done; by eexists _, _.
Qed.

(** Starting a consistent manager whose outbounds and endpoints have
    distinct tags always returns: without error only with a default outbound
    and with every outbound and endpoint started after its dependencies; it
    panics neither in the dependency search nor for lack of a member. *)
Theorem start_manager fallback m tr :
  wf m -> (forall o, fallback = Ok o -> m_Dependencies o = [] /\ m_Tag o ∉ map m_Tag ep_Endpoints) ->
  (forall msg, fallback <> Panic msg) ->
  NoDup (map m_Tag (outbounds m ++ ep_Endpoints)) -> (started m && (StartStateStart <=? stage m)) = false ->
  (exists m' order, Start fallback StartStateStart m tr = (Ok tt, m', tr ++ concat (map start_events order)) /\
     wf m' /\ defaultOutbound m' <> None /\
     order ≡ₚ (outbounds m' ++ ep_Endpoints) /\ ordered ∅ order) \/
  (exists e m' tr', Start fallback StartStateStart m tr = (Err e, m', tr')).
Proof.
  intros Hw Hf Hnp Hnd Hs. unfold Start. rewrite Hs, Z.eqb_refl.
  destruct (choose_default fallback (set_stage m true StartStateStart)) as [m1|e|msg] eqn:Hc;
    [|right; by eexists _, _, _|by apply choose_default_no_panic in Hc].
  assert (Hnd1 : NoDup (map m_Tag (outbounds m1 ++ ep_Endpoints))).
  { destruct (choose_default_list _ _ _ (wf_stage _ _ _ Hw) Hc) as [->|(Hnil & o & Ho & ->)]; [done|].
    cbn [set_stage outbounds] in Hnil. rewrite Hnil in Hnd. cbn in *. constructor; [|done]. by apply Hf. }
  apply choose_default_wf in Hc as [Hw1 Hd1]; [|by apply wf_stage|naive_solver].
  destruct (start_all_spec outcome outbound_texts (outbounds m1 ++ ep_Endpoints) (outboundByTag m1) tr Hnd1)
    as [(order & -> & Hp & Ho)|(e & tr' & ->)].
  - left. exists m1, order. done.
  - right. by eexists _, _, _.
Qed.

(** A removal that is refused because others depend on the outbound has
    already taken place: the error comes after the outbound has left the list
    and the index, and it is not closed. *)
Theorem refused_removal_removes m tag o tr :
  wf m -> outboundByTag m !! tag = Some o -> dependents (dependByTag m) tag <> [] ->
  exists e m', Remove tag m tr = (Err e, m', tr) /\
    outboundByTag m' !! tag = None /\ o ∉ outbounds m'.
Proof.
  intros Hw Ho Hdep. pose proof Ho as Ho'. apply (wf_index m Hw) in Ho' as [Hin <-].
  unfold Remove. rewrite Ho. cbn [set_byTag outbounds].
  destruct (delete_member o (outbounds m) (wf_tags m Hw) Hin) as (-> & _ & Hl). cbv zeta.
  cbn [set_outbounds outbounds defaultOutbound set_byTag].
  assert (Hout : o ∉ delete_at (index_of o (outbounds m)) (outbounds m)) by (rewrite Hl; naive_solver).
  destruct (bool_decide (defaultOutbound m = Some o)); cbn [set_default dependByTag set_outbounds set_byTag];
    rewrite bool_decide_eq_false_2 by done; cbn [negb]; eexists _, _; (split; [done|]); cbn;
    (split; [by rewrite lookup_delete_eq|done]).
Qed.

(** [Close] empties the list but keeps the index, so a later [Remove] of
    any outbound the manager had panics. *)
Theorem remove_after_close_panics m tag o tr :
  started m = true -> outboundByTag m !! tag = Some o ->
  exists m' tr', Close m tr = (Ok tt, m', tr') /\
    fst (fst (Remove tag m' tr')) = Panic "invalid inbound index".
Proof.
  intros Hs Ho. unfold Close. rewrite Hs. cbn [negb]. eexists _, _. split; [done|].
  unfold Remove. cbn [set_outbounds set_stage outboundByTag]. rewrite Ho.
  cbn [set_byTag outbounds]. unfold index_of. by rewrite Index_law.
Qed.

(** Creating an outbound under the tag of the default one does not update
    the default when no default tag is configured: [Default] keeps returning
    the replaced outbound, which is no longer listed. *)
Theorem replaced_default_is_stale m tag old o tr :
  wf m -> started m = false -> defaultTag m = "" -> tag <> "" ->
  outboundByTag m !! tag = Some old -> defaultOutbound m = Some old -> o <> old ->
  exists m', Create tag (Ok o) m tr = (Ok tt, m', tr) /\
    Outbound m' tag = Some o /\ defaultOutbound m' = Some old /\ old ∉ outbounds m'.
Proof.
  intros Hw Hs Hdt Htag Hold Hdef Hne. unfold Create.
  rewrite bool_decide_eq_false_2, Hs, Hold by done. cbn [wrap_err].
  pose proof Hold as Hin. apply (wf_index m Hw) in Hin as [Hin _].
  destruct (delete_member old (outbounds m) (wf_tags m Hw) Hin) as (-> & _ & Hl).
  eexists. split; [done|].
  unfold insert_outbound. cbn [set_outbounds set_byTag set_dependByTag defaultTag defaultOutbound outbounds outboundByTag].
  rewrite Hdt, Hdef, bool_decide_eq_false_2 by done. cbn [is_nil]. rewrite andb_false_r. cbn [orb].
  unfold Outbound. cbn. rewrite lookup_insert_eq. split; [done|]. split; [done|].
  rewrite elem_of_app, Hl, list_elem_of_singleton. intros [[_ H] | ->]; done.
Qed.
End OutboundManager.

(** ** A concrete manager *)

Module OutboundExample.

#[local] Existing Instance list_helpers.
#[local] Instance no_endpoints : EndpointManager := {| ep_Get := fun _ => None; ep_Endpoints := [] |}.

Definition ok_outcome : list Event -> option error := fun _ => None.
Definition outbound (id : nat) (tag : string) (deps : list string) : Member :=
  mkMember id tag "direct" deps true false false false true.
Definition node : Member := outbound 1 "node" [].
Definition selector : Member := outbound 2 "selector" ["node"].
Definition fallback : Res Member := Ok (outbound 3 "direct" []).

(** A selector is created before the node it depends on. *)
Definition step (r : Outcome) : Manager := snd (fst r).
Definition m1 : Manager := step (Create ok_outcome "selector" (Ok selector) (NewManager "") []).
Definition m2 : Manager := step (Create ok_outcome "node" (Ok node) m1 []).

Lemma m2_reachable : reachable ok_outcome fallback m2 [].
Proof.
  assert (H1 : reachable ok_outcome fallback m1 []).
  { eapply (reach_create _ _ (NewManager "") [] "selector" selector (Ok tt));
      [apply reach_new|reflexivity|reflexivity|apply NoDup_singleton|reflexivity]. }
  eapply (reach_create _ _ m1 [] "node" node (Ok tt));
    [exact H1|reflexivity|reflexivity|constructor|reflexivity].
Qed.

Lemma fallback_deps o : fallback = Ok o -> m_Dependencies o = [].
Proof. intros [= <-]. done. Qed.

Lemma m2_wf : wf m2.
Proof. eapply reachable_invariant; [apply fallback_deps|apply m2_reachable]. Qed.

Lemma outbound_manager_invariant_witness : outbounds m2 = [selector; node] /\ wf m2.
Proof.
  split; [reflexivity|].
  apply (outbound_manager_invariant ok_outcome fallback m2 []); [apply fallback_deps|apply m2_reachable].
Defined.

Lemma remove_outbound_witness :
  outboundByTag m2 !! "selector" = Some selector /\
  exists m', Remove ok_outcome "selector" m2 [] = (Ok tt, m', []) /\ outboundByTag m' !! "selector" = None.
Proof.
  split; [reflexivity|].
  destruct (remove_outbound ok_outcome m2 "selector" [] m2_wf) as (m' & H & _ & Hl & _).
  exists m'. split; [exact H|exact Hl].
Defined.

Lemma start_manager_witness :
  exists m' order, Start ok_outcome fallback StartStateStart m2 [] =
                     (Ok tt, m', [] ++ concat (map start_events order)) /\ ordered ∅ order.
Proof.
  destruct (start_manager ok_outcome fallback m2 []) as [(m' & order & H & _ & _ & _ & Ho)|(e & m' & tr' & H)].
  - apply m2_wf.
  - intros o [= <-]. split; [reflexivity|]. apply not_elem_of_nil.
  - discriminate.
  - repeat constructor; set_solver.
  - reflexivity.
  - exists m', order. split; [exact H|exact Ho].
  - exfalso. vm_compute in H. discriminate.
Defined.

Lemma refused_removal_removes_witness :
  dependents (dependByTag m2) "node" = ["selector"] /\
  exists e m', Remove ok_outcome "node" m2 [] = (Err e, m', []) /\ outboundByTag m' !! "node" = None.
Proof.
  split; [reflexivity|].
  destruct (refused_removal_removes ok_outcome m2 "node" node [] m2_wf) as (e & m' & H & Hl & _);
    [reflexivity|discriminate|]. exists e, m'. split; [exact H|exact Hl].
Defined.

Definition m3 : Manager := set_stage m2 true StartStateStarted.

Lemma remove_after_close_panics_witness :
  started m3 = true /\
  exists m' tr', Close ok_outcome m3 [] = (Ok tt, m', tr') /\
    fst (fst (Remove ok_outcome "node" m' tr')) = Panic "invalid inbound index".
Proof.
  split; [reflexivity|].
  apply (remove_after_close_panics ok_outcome m3 "node" node []); reflexivity.
Defined.

Lemma replaced_default_is_stale_witness :
  defaultOutbound m2 = Some selector /\
  exists m', Create ok_outcome "selector" (Ok (outbound 9 "selector" [])) m2 [] = (Ok tt, m', []) /\
    defaultOutbound m' = Some selector.
Proof.
  split; [reflexivity|].
  destruct (replaced_default_is_stale ok_outcome m2 "selector" selector (outbound 9 "selector" []) [] m2_wf)
    as (m' & H & _ & Hd & _); try reflexivity; try discriminate.
  exists m'. split; [exact H|exact Hd].
Defined.

Lemma start_all_correct_witness :
  exists order, start_all ok_outcome outbound_texts [selector; node] (outboundByTag m2) [] =
                  Some (Ok tt, [] ++ concat (map start_events order)) /\ ordered ∅ order.
Proof.
  destruct (start_all_correct ok_outcome outbound_texts [selector; node] (outboundByTag m2) [])
    as [(order & H & _ & Ho)|(e & tr' & H & _)].
  - repeat constructor; set_solver.
  - intros t o Ht. apply (wf_index m2 m2_wf) in Ht. exact Ht.
  - exists order. split; [exact H|exact Ho].
  - exfalso. vm_compute in H. discriminate.
Defined.

(** An outbound and an endpoint that depend on each other: the endpoint, which is
    not in the index of outbounds, is called not found. *)
Definition looping_proxy : Member := outbound 5 "proxy" ["wg"].
Definition looping_endpoint : Member := outbound 6 "wg" ["proxy"].
Example endpoint_cycle_misreported :
  start_all ok_outcome outbound_texts [looping_proxy; looping_endpoint] {["proxy" := looping_proxy]} [] =
    Some (Err (missing_error outbound_texts "wg" "proxy"), []).
Proof. by vm_compute. Qed.
End OutboundExample.
