(* ===== verification/TransportManager.v ===== *)
(** * The DNS transport manager

    [dns/transport_manager.go].  It is the outbound manager over again, with
    one more field: the fakeip transport, which must not be the default. *)

From stdpp Require Import base numbers list strings gmap option.
From Stdlib Require Import ZArith Lia.
From S2P Require Import Prelude ManagerCore.

Local Open Scope Z_scope.

(** [TransportManager] *)
Record TransportManager := mkTransportManager {
  t_defaultTag : string;
  t_started : bool;
  t_stage : Z;
  transports : list Member;
  transportByTag : gmap string Member;
  t_dependByTag : gmap string (list string);
  defaultTransport : option Member;
  fakeIPTransport : option Member
}.

(** [NewTransportManager] *)
Definition NewTransportManager (tag : string) : TransportManager :=
  mkTransportManager tag false 0 [] ∅ ∅ None None.

(** Assignments to fields. *)
Definition t_set_stage (m : TransportManager) (b : bool) (s : Z) : TransportManager :=
  mkTransportManager (t_defaultTag m) b s (transports m) (transportByTag m) (t_dependByTag m)
    (defaultTransport m) (fakeIPTransport m).
Definition t_set_list (m : TransportManager) (l : list Member) (x : gmap string Member) : TransportManager :=
  mkTransportManager (t_defaultTag m) (t_started m) (t_stage m) l x (t_dependByTag m)
    (defaultTransport m) (fakeIPTransport m).
Definition t_set_dependByTag (m : TransportManager) (x : gmap string (list string)) : TransportManager :=
  mkTransportManager (t_defaultTag m) (t_started m) (t_stage m) (transports m) (transportByTag m) x
    (defaultTransport m) (fakeIPTransport m).
Definition t_set_default (m : TransportManager) (o : option Member) : TransportManager :=
  mkTransportManager (t_defaultTag m) (t_started m) (t_stage m) (transports m) (transportByTag m)
    (t_dependByTag m) o (fakeIPTransport m).
Definition t_set_fakeip (m : TransportManager) (o : option Member) : TransportManager :=
  mkTransportManager (t_defaultTag m) (t_started m) (t_stage m) (transports m) (transportByTag m)
    (t_dependByTag m) (defaultTransport m) o.

Definition DNSTypeFakeIP : string := "fakeip".
Definition is_fakeip (o : Member) : bool := bool_decide (m_Type o = DNSTypeFakeIP).

Section TransportManager.
Context {SH : SliceHelpers}.
Context (outcome : list Event -> option error).

Definition dns_name (o : Member) : list earg :=
  [AStr (m_Type o); AStr "["; AStr (m_Tag o); AStr "]"].
Definition transport_texts : Texts :=
  mkTexts (fun o => AStr "start dns/" :: dns_name o) "server".

Definition TOutcome : Type := Res unit * TransportManager * Trace.

(** The loop of [Start] for the other stages, and that of [Create]. *)
Fixpoint t_start_stage (l : list Member) (s : Z) (tr : Trace) : Res unit * Trace :=
  match l with
  | [] => (Ok tt, tr)
  | o :: rest =>
      let '(r, tr) := LegacyStart outcome o s tr in
      match wrap_err r (AStr (StartStage_String s) :: AStr " dns/" :: dns_name o) with
      | Ok _ => t_start_stage rest s tr
      | r => (r, tr)
      end
  end.
Fixpoint t_start_stages (o : Member) (stages : list Z) (tr : Trace) : Res unit * Trace :=
  match stages with
  | [] => (Ok tt, tr)
  | s :: rest =>
      let '(r, tr) := t_start_stage [o] s tr in
      match r with Ok _ => t_start_stages o rest tr | r => (r, tr) end
  end.

(** The default transport of [Start]. *)
Definition t_choose_default (fallback : Res Member) (m : TransportManager) : Res TransportManager :=
  if negb (bool_decide (t_defaultTag m = "")) && is_nil (defaultTransport m)
  then Err (E_New [AStr "default DNS server not found: "; AStr (t_defaultTag m)])
  else if is_nil (defaultTransport m) then
    o ← wrap_err fallback [AStr "default DNS server fallback"];
    Ok (t_set_default (t_set_list m (transports m ++ [o]) (<[m_Tag o := o]> (transportByTag m))) (Some o))
  else Ok m.

(** [(m *TransportManager) Start] *)
Definition TransportManager_Start (fallback : Res Member) (s : Z) (m : TransportManager) (tr : Trace)
  : TOutcome :=
  if t_started m && (s <=? t_stage m) then (Panic "already started", m, tr)
  else
    let m := t_set_stage m true s in
    if s =? StartStateStart then
      match t_choose_default fallback m with
      | Ok m =>
          match start_all outcome transport_texts (transports m) (transportByTag m) tr with
          | Some (r, tr) => (r, m, tr)
          | None => (Panic "startTransports does not terminate", m, tr)
          end
      | Err e => (Err e, m, tr)
      | Panic msg => (Panic msg, m, tr)
      end
    else let '(r, tr) := t_start_stage (transports m) s tr in (r, m, tr).

(** [(m *TransportManager) Close] *)
Fixpoint t_close_all (l : list Member) (tr : Trace) : Trace :=
  match l with
  | [] => tr
  | o :: rest => t_close_all rest (snd (common_Close outcome o tr))
  end.
Definition TransportManager_Close (m : TransportManager) (tr : Trace) : TOutcome :=
  if negb (t_started m) then (Ok tt, m, tr)
  else (Ok tt, t_set_list (t_set_stage m false (t_stage m)) [] (transportByTag m),
        t_close_all (transports m) tr).

(** The error paths of [Remove] return after the list and the index have
    changed; the default is replaced by the first transport left. *)
Definition t_replace_default (o : Member) (m : TransportManager) : Res unit * TransportManager :=
  if bool_decide (defaultTransport m = Some o) then
    match transports m with
    | next :: _ =>
        if negb (is_fakeip next) then (Err (E_New [AStr "default server cannot be fakeip"]), m)
        else (Ok tt, t_set_default m (Some next))
    | [] => (Ok tt, t_set_default m None)
    end
  else (Ok tt, m).

(** [(m *TransportManager) Remove]; the error of [transport.Close] is dropped. *)
Definition TransportManager_Remove (tag : string) (m : TransportManager) (tr : Trace) : TOutcome :=
  match transportByTag m !! tag with
  | None => (Err ErrInvalid, m, tr)
  | Some o =>
      let byTag := delete tag (transportByTag m) in
      let index := index_of o (transports m) in
      if index =? -1 then (Panic "invalid inbound index", t_set_list m (transports m) byTag, tr)
      else
        let m := t_set_list m (delete_at index (transports m)) byTag in
        let '(r, m) := t_replace_default o m in
        match r with
        | Ok _ =>
            let dependBy := dependents (t_dependByTag m) tag in
            if negb (bool_decide (dependBy = [])) then
              (Err (E_New [AStr "server["; AStr tag; AStr "] is depended by ";
                           AStr (String.concat ", " dependBy)]), m, tr)
            else
              let m := t_set_dependByTag m (undepend tag (m_Dependencies o) (t_dependByTag m)) in
              (Ok tt, m, if t_started m then snd (call outcome (EvClose o) tr) else tr)
        | r => (r, m, tr)
        end
  end.

(** The end of [Create]: the default and the fakeip transport. *)
Definition t_register (tag : string) (o : Member) (m : TransportManager) : Res unit * TransportManager :=
  let m := t_set_list m (transports m ++ [o]) (<[tag := o]> (transportByTag m)) in
  let m := t_set_dependByTag m (depend tag (m_Dependencies o) (t_dependByTag m)) in
  let is_default := bool_decide (tag = t_defaultTag m) ||
                    (bool_decide (t_defaultTag m = "") && is_nil (defaultTransport m)) in
  if is_default && is_fakeip o then (Err (E_New [AStr "default server cannot be fakeip"]), m)
  else
    let m := if is_default then t_set_default m (Some o) else m in
    if is_fakeip o then
      match fakeIPTransport m with
      | Some _ => (Err (E_New [AStr "multiple fakeip server are not supported"]), m)
      | None => (Ok tt, t_set_fakeip m (Some o))
      end
    else (Ok tt, m).

(** [(m *TransportManager) Create] *)
Definition TransportManager_Create (tag : string) (created : Res Member) (m : TransportManager) (tr : Trace)
  : TOutcome :=
  if bool_decide (tag = "") then (Err ErrInvalid, m, tr)
  else match created with
  | Err e => (Err e, m, tr)
  | Panic msg => (Panic msg, m, tr)
  | Ok o =>
      let '(r, tr) := if t_started m then t_start_stages o ListStartStages tr else (Ok tt, tr) in
      match r with
      | Ok _ =>
          match transportByTag m !! tag with
          | Some exists_ =>
              let '(r, tr) := if t_started m then common_Close outcome exists_ tr else (Ok tt, tr) in
              match wrap_err r (AStr "close dns/" :: dns_name exists_) with
              | Ok _ =>
                  let index := index_of exists_ (transports m) in
                  if index =? -1 then (Panic "invalid inbound index", m, tr)
                  else let '(r, m) := t_register tag o (t_set_list m (delete_at index (transports m))
                                                          (transportByTag m)) in (r, m, tr)
              | r => (r, m, tr)
              end
          | None => let '(r, m) := t_register tag o m in (r, m, tr)
          end
      | r => (r, m, tr)
      end
  end.

(** ** The index is kept by every operation *)

Record t_wf (m : TransportManager) : Prop := {
  twf_tags : NoDup (map m_Tag (transports m));
  twf_index : forall t o, transportByTag m !! t = Some o <-> o ∈ transports m /\ m_Tag o = t
}.

(** Both halves only depend on the list and the index. *)
Lemma t_wf_ext m m' :
  transports m' = transports m -> transportByTag m' = transportByTag m -> t_wf m -> t_wf m'.
Proof. intros H1 H2 [Ht Hi]. split; rewrite ?H1, ?H2; done. Qed.

Lemma NewTransportManager_wf tag : t_wf (NewTransportManager tag).
Proof. split; cbn; [constructor|]. intros t o. rewrite lookup_empty. set_solver. Qed.

Lemma delete_wf m o tag :
  t_wf m -> transportByTag m !! tag = Some o ->
  (index_of o (transports m) =? -1) = false /\
  t_wf (t_set_list m (delete_at (index_of o (transports m)) (transports m)) (delete tag (transportByTag m))).
Proof.
  intros Hw Ho. apply (twf_index m Hw) in Ho as [Ho <-].
  destruct (delete_member o (transports m) (twf_tags m Hw) Ho) as (Hi & Hnd & Hin). split; [done|].
  split; cbn; [done|]. intros t x. rewrite Hin. destruct (decide (t = m_Tag o)) as [->|Hne].
  - rewrite lookup_delete_eq. naive_solver.
  - rewrite lookup_delete_ne by done. rewrite (twf_index m Hw). naive_solver.
Qed.

Lemma append_wf m l x tag o :
  t_wf (t_set_list m l (delete tag x)) -> m_Tag o = tag -> t_wf (t_set_list m (l ++ [o]) (<[tag := o]> x)).
Proof.
  intros [Hnd Hi] Htag. cbn in *. split; cbn.
  - rewrite map_app. apply list.NoDup_app. split; [done|]. split; [|apply NoDup_singleton].
    intros t Ht E. apply list_elem_of_singleton in E as ->. apply list_elem_of_fmap in Ht as (y & E & Hy).
    assert (H : delete tag x !! tag = Some y) by (apply Hi; split; [done|congruence]).
    by rewrite lookup_delete_eq in H.
  - intros t y. rewrite elem_of_app, list_elem_of_singleton. destruct (decide (t = tag)) as [->|Hne].
    + rewrite lookup_insert_eq. split; [intros [= <-]; auto|]. intros [[Hy | ->] E]; [|done].
      assert (H : delete tag x !! tag = Some y) by by apply Hi. by rewrite lookup_delete_eq in H.
    + rewrite lookup_insert_ne by done. rewrite <- (lookup_delete_ne x tag t) by done. rewrite Hi.
      split; [naive_solver|]. intros [[Hy | ->] E]; [done|congruence].
Qed.

Lemma t_register_wf m tag o :
  t_wf (t_set_list m (transports m) (delete tag (transportByTag m))) -> m_Tag o = tag ->
  t_wf (snd (t_register tag o m)).
Proof.
  intros Hw Htag. pose proof (append_wf m _ _ tag o Hw Htag) as H. unfold t_register. cbv zeta.
  repeat match goal with
  | |- context [if ?b then _ else _] => destruct b
  | |- context [match fakeIPTransport ?x with _ => _ end] => destruct (fakeIPTransport x)
  end; (eapply t_wf_ext; [| |exact H]); done.
Qed.

Lemma t_replace_default_list o m :
  transports (snd (t_replace_default o m)) = transports m /\
  transportByTag (snd (t_replace_default o m)) = transportByTag m.
Proof.
  unfold t_replace_default. destruct (bool_decide _); [|done].
  destruct (transports m) as [|next l] eqn:Hl; [done|]. by destruct (negb _).
Qed.

Lemma t_replace_default_no_panic o m msg m' : t_replace_default o m <> (Panic msg, m').
Proof.
  unfold t_replace_default. destruct (bool_decide _); [|done].
  destruct (transports m); [done|]. by destruct (negb _).
Qed.

Lemma Remove_wf tag m tr :
  t_wf m -> t_wf (snd (fst (TransportManager_Remove tag m tr))) /\
  (forall msg, fst (fst (TransportManager_Remove tag m tr)) <> Panic msg).
Proof.
  intros Hw. unfold TransportManager_Remove. destruct (transportByTag m !! tag) as [o|] eqn:Ho; [|done].
  destruct (delete_wf m o tag Hw Ho) as [-> Hd]. cbv zeta.
  set (m1 := t_set_list m _ _) in *. destruct (t_replace_default_list o m1) as [H1 H2].
  destruct (t_replace_default o m1) as [r m2] eqn:Hr. cbn [snd] in H1, H2.
  assert (Hw2 : t_wf m2) by by eapply t_wf_ext.
  destruct r as [u|e|msg]; [|done|by apply t_replace_default_no_panic in Hr].
  destruct (negb _); [done|]. split; [|done]. by eapply (t_wf_ext m2).
Qed.

Lemma LegacyStart_no_panic o s tr msg : fst (LegacyStart outcome o s tr) <> Panic msg.
Proof.
  unfold LegacyStart, call. repeat match goal with |- context [if ?b then _ else _] => destruct b end;
    cbn; try done; by destruct (outcome _).
Qed.

Lemma t_start_stages_no_panic o ss tr msg : fst (t_start_stages o ss tr) <> Panic msg.
Proof.
  revert tr. induction ss as [|s ss IH]; intros tr; [done|]. cbn [t_start_stages t_start_stage].
  pose proof (LegacyStart_no_panic o s tr) as Hn. destruct (LegacyStart outcome o s tr) as [[u|e|m] tr1];
    cbn [fst wrap_err] in *; [apply IH|done|by destruct (Hn m)].
Qed.

Lemma t_register_no_panic tag o m msg : fst (t_register tag o m) <> Panic msg.
Proof.
  unfold t_register. cbv zeta. repeat match goal with
  | |- context [if ?b then _ else _] => destruct b
  | |- context [match fakeIPTransport ?x with _ => _ end] => destruct (fakeIPTransport x)
  end; done.
Qed.

Lemma Create_wf tag o m tr :
  t_wf m -> m_Tag o = tag ->
  t_wf (snd (fst (TransportManager_Create tag (Ok o) m tr))) /\
  (forall msg, fst (fst (TransportManager_Create tag (Ok o) m tr)) <> Panic msg).
Proof.
  intros Hw Htag. unfold TransportManager_Create. case_bool_decide; [done|].
  assert (Hs : forall msg, fst (if t_started m then t_start_stages o ListStartStages tr else (Ok tt, tr)) <> Panic msg)
    by (intros msg; destruct (t_started m); [apply t_start_stages_no_panic|done]).
  destruct (if t_started m then _ else _) as [[u|e|msg] tr1]; [|done|by destruct (Hs msg)].
  destruct (transportByTag m !! tag) as [old|] eqn:Ho.
  - assert (Hc : forall msg, fst (if t_started m then common_Close outcome old tr1 else (Ok tt, tr1)) <> Panic msg).
    { intros msg. unfold common_Close, call. destruct (t_started m), (m_Closer old); cbn; try done;
        by destruct (outcome _). }
    destruct (if t_started m then _ else _) as [[u'|e|msg] tr2]; cbn [wrap_err]; [|done|by destruct (Hc msg)].
    destruct (delete_wf m old tag Hw Ho) as [-> Hd].
    pose proof (t_register_wf (t_set_list m (delete_at (index_of old (transports m)) (transports m))
                  (transportByTag m)) tag o Hd Htag) as Hreg.
    pose proof (t_register_no_panic tag o (t_set_list m (delete_at (index_of old (transports m)) (transports m))
                  (transportByTag m))) as Hnp.
    destruct (t_register _ _ _) as [r m2]. done.
  - assert (Hd : t_wf (t_set_list m (transports m) (delete tag (transportByTag m)))).
    { rewrite delete_id by done. by eapply (t_wf_ext m). }
    pose proof (t_register_wf m tag o Hd Htag) as Hreg. pose proof (t_register_no_panic tag o m) as Hnp.
    destruct (t_register _ _ _) as [r m2]. done.
Qed.

(** No sequence of [Create] and [Remove], whether the calls succeed or fail,
    makes the index of the transport manager disagree with its list, and none
    of these calls panics.  (A transport carries the tag it is created under.) *)
Theorem transport_index_invariant tag o m tr :
  t_wf m -> m_Tag o = tag ->
  t_wf (NewTransportManager (t_defaultTag m)) /\
  t_wf (snd (fst (TransportManager_Create tag (Ok o) m tr))) /\
  t_wf (snd (fst (TransportManager_Remove tag m tr))) /\
  (forall msg, fst (fst (TransportManager_Create tag (Ok o) m tr)) <> Panic msg) /\
  (forall msg, fst (fst (TransportManager_Remove tag m tr)) <> Panic msg).
Proof.
  intros Hw Ht. destruct (Create_wf tag o m tr Hw Ht), (Remove_wf tag m tr Hw).
  split; [apply NewTransportManager_wf|done].
Qed.

(** Removing the default DNS server inverts the check of its successor: when
    the next server is an ordinary one the call fails with "default server
    cannot be fakeip" and the default stays the removed server; when the next
    one is the fakeip server it becomes the default. *)
Theorem default_removal_check_inverted tag o next rest m tr :
  t_wf m -> transports m = o :: next :: rest -> m_Tag o = tag -> defaultTransport m = Some o ->
  dependents (t_dependByTag m) tag = [] ->
  let '(r, m', _) := TransportManager_Remove tag m tr in
  if is_fakeip next then r = Ok tt /\ defaultTransport m' = Some next
  else r = Err (E_New [AStr "default server cannot be fakeip"]) /\
       defaultTransport m' = Some o /\ transportByTag m' !! tag = None.
Proof.
  intros Hw Hl Htag Hd Hdep. unfold TransportManager_Remove.
  assert (Ho : transportByTag m !! tag = Some o).
  { apply (twf_index m Hw). rewrite Hl. split; [left|done]. }
  rewrite Ho. destruct (delete_wf m o tag Hw Ho) as [-> _].
  assert (Hidx : index_of o (transports m) = 0).
  { unfold index_of. rewrite Index_law, Hl. cbn. rewrite decide_True; [done|].
    apply Is_true_true. by apply bool_decide_eq_true. }
  rewrite Hidx, Hl. change (delete_at 0 (o :: next :: rest)) with (next :: rest).
  unfold t_replace_default. cbn [t_set_list defaultTransport transports].
  rewrite Hd, bool_decide_eq_true_2 by done. destruct (is_fakeip next); cbn [negb].
  - cbn [t_set_default t_set_list t_dependByTag]. rewrite Hdep. cbn [bool_decide decide_rel negb].
    rewrite bool_decide_eq_true_2 by done. done.
  - cbn. split; [done|]. split; [done|]. by rewrite lookup_delete_eq.
Qed.

(** Removing the fakeip server leaves it in place as [FakeIP()], and a new
    one is refused as a second fakeip server. *)
Theorem removed_fakeip_remains tag o m tr :
  t_wf m -> transportByTag m !! tag = Some o -> is_fakeip o = true -> fakeIPTransport m = Some o ->
  defaultTransport m <> Some o -> dependents (t_dependByTag m) tag = [] ->
  exists m' tr', TransportManager_Remove tag m tr = (Ok tt, m', tr') /\
    transportByTag m' !! tag = None /\ fakeIPTransport m' = Some o.
Proof.
  intros Hw Ho Hf Hfake Hd Hdep. unfold TransportManager_Remove. rewrite Ho.
  destruct (delete_wf m o tag Hw Ho) as [-> _].
  unfold t_replace_default. cbn [t_set_list defaultTransport].
  rewrite bool_decide_eq_false_2 by done. cbn [t_dependByTag t_set_list]. rewrite Hdep.
  rewrite (bool_decide_eq_true_2 ([] = [])) by done. cbn [negb]. eexists _, _. split; [done|].
  cbn. split; [by rewrite lookup_delete_eq|done].
Qed.
End TransportManager.

Module TransportExample.
#[local] Existing Instance list_helpers.
Definition ok_outcome : list Event -> option error := fun _ => None.
Definition server (id : nat) (tag type : string) : Member :=
  mkMember id tag type [] true false false false true.
Definition local : Member := server 1 "local" "local".
Definition remote : Member := server 2 "remote" "udp".
Definition fake : Member := server 3 "fake" "fakeip".
Definition created (l : list Member) : TransportManager :=
  fold_left (fun m o => snd (fst (TransportManager_Create ok_outcome (m_Tag o) (Ok o) m []))) l
    (NewTransportManager "").

Lemma created_wf l : t_wf (created l).
Proof.
  unfold created. generalize (NewTransportManager_wf ""). generalize (NewTransportManager "").
  induction l as [|o l IH]; intros m Hm; [done|]. cbn [fold_left]. apply IH. by apply Create_wf.
Qed.

Lemma transport_index_invariant_witness :
  transports (created [local; remote]) = [local; remote] /\
  t_wf (snd (fst (TransportManager_Create ok_outcome "fake" (Ok fake) (created [local; remote]) []))).
Proof.
  split; [reflexivity|].
  apply (transport_index_invariant ok_outcome "fake" fake (created [local; remote]) []);
    [apply created_wf|reflexivity].
Defined.

Lemma default_removal_check_inverted_witness :
  is_fakeip remote = false /\
  let '(r, m', _) := TransportManager_Remove ok_outcome "local" (created [local; remote]) [] in
  r = Err (E_New [AStr "default server cannot be fakeip"]) /\
  defaultTransport m' = Some local /\ transportByTag m' !! "local" = None.
Proof.
  split; [reflexivity|].
  apply (default_removal_check_inverted ok_outcome "local" local remote [] (created [local; remote]) []);
    [apply created_wf|reflexivity..].
Defined.

Lemma removed_fakeip_remains_witness :
  fakeIPTransport (created [local; fake]) = Some fake /\
  exists m' tr', TransportManager_Remove ok_outcome "fake" (created [local; fake]) [] = (Ok tt, m', tr') /\
    fakeIPTransport m' = Some fake.
Proof.
  split; [reflexivity|].
  destruct (removed_fakeip_remains ok_outcome "fake" fake (created [local; fake]) [])
    as (m' & tr' & H & _ & Hf); [apply created_wf|reflexivity|reflexivity|reflexivity|discriminate|reflexivity|].
  exists m', tr'. split; [exact H|exact Hf].
Defined.
End TransportExample.
