(* ===== verification/GroupCore.v ===== *)
(** * Outbound groups: shared parts

    What the two outbound groups ([protocol/group]) build on: the interrupt
    group that closes connections when the selection changes
    ([common/interrupt]), the storage of test results ([common/urltest]), and
    the objects behind outbound pointers.  An outbound is a [Member]; groups
    keep state, so it lives in a heap that is indexed by the identity of the
    member.  [RealTag] and [Network] follow the selections of groups; a chain
    of selections that returns to itself never ends, so the two run on fuel. *)

From stdpp Require Import base numbers list strings gmap option.
From Stdlib Require Import ZArith Lia.
From S2P Require Import Prelude ManagerCore.

Local Open Scope Z_scope.

(** ** Connections of a group: [interrupt.Group] *)

(** [groupConnItem] in its list element; the element and the connection are
    pointers. *)
Record groupConnItem := mkItem { gi_element : nat; gi_conn : nat; gi_isExternal : bool }.
(** [Group]; [ig_next] is the next fresh element. *)
Record IGroup := mkIGroup { ig_next : nat; ig_connections : list groupConnItem }.

(** [NewGroup] *)
Definition NewGroup : IGroup := mkIGroup 0 [].

(** [(g *Group) NewConn] and [NewPacketConn]: the element of the connection. *)
Definition NewConn (g : IGroup) (conn : nat) (isExternal : bool) : nat * IGroup :=
  (ig_next g, mkIGroup (S (ig_next g)) (ig_connections g ++ [mkItem (ig_next g) conn isExternal])).

(** [g.connections.Remove]: nothing when the element is not in the list. *)
Definition remove_element (e : nat) (l : list groupConnItem) : list groupConnItem :=
  List.filter (fun it => negb (Nat.eqb (gi_element it) e)) l.

(** The first loop of [Interrupt]: what is closed, and what is to be deleted. *)
Fixpoint interrupt_scan (all : bool) (l : list groupConnItem) : list nat * list nat :=
  match l with
  | [] => ([], [])
  | it :: rest =>
      let '(closed, toDelete) := interrupt_scan all rest in
      if negb (gi_isExternal it) || all
      then (gi_conn it :: closed, gi_element it :: toDelete)
      else (closed, toDelete)
  end.

(** [(g *Group) Interrupt]: the connections it closes, and the group. *)
Definition Interrupt (interruptExternalConnections : bool) (g : IGroup) : list nat * IGroup :=
  let '(closed, toDelete) := interrupt_scan interruptExternalConnections (ig_connections g) in
  (closed, mkIGroup (ig_next g) (fold_left (fun l e => remove_element e l) toDelete (ig_connections g))).

(** [(c *Conn) Close], of a connection with its element. *)
Definition Conn_Close (element conn : nat) (g : IGroup) : list nat * IGroup :=
  ([conn], mkIGroup (ig_next g) (remove_element element (ig_connections g))).

(** Elements are distinct and older than the next one. *)
Definition IGroup_wf (g : IGroup) : Prop :=
  NoDup (map gi_element (ig_connections g)) /\
  forall it, it ∈ ig_connections g -> (gi_element it < ig_next g)%nat.

Lemma NewGroup_wf : IGroup_wf NewGroup.
Proof. split; [constructor|]. set_solver. Qed.

Lemma NewConn_wf g conn ext : IGroup_wf g -> IGroup_wf (snd (NewConn g conn ext)).
Proof.
  intros [Hnd Hlt]. split; cbn.
  - rewrite map_app. apply list.NoDup_app. split; [done|]. split; [|apply NoDup_singleton].
    intros e He. apply list_elem_of_fmap in He as (it & -> & Hit).
    cbn. rewrite list_elem_of_singleton. apply Hlt in Hit. lia.
  - intros it [Hit|Hit]%elem_of_app; [apply Hlt in Hit; lia|].
    apply list_elem_of_singleton in Hit as ->. cbn. lia.
Qed.

Lemma remove_element_spec e l it : it ∈ remove_element e l <-> it ∈ l /\ gi_element it <> e.
Proof.
  unfold remove_element. rewrite !list_elem_of_In, filter_In, negb_true_iff, Nat.eqb_neq. done.
Qed.

Lemma fold_remove_filter es l :
  fold_left (fun l e => remove_element e l) es l =
  List.filter (fun it => negb (bool_decide (gi_element it ∈ es))) l.
Proof.
  revert l. induction es as [|e es IH]; intros l; cbn [fold_left].
  - induction l as [|it l IHl]; [done|]. cbn. by rewrite <- IHl.
  - rewrite IH. unfold remove_element. induction l as [|it l IHl]; [done|]. cbn [List.filter].
    rewrite <- IHl. destruct (Nat.eqb_spec (gi_element it) e) as [He|He]; cbn [negb List.filter].
    + by rewrite (bool_decide_eq_true_2 (gi_element it ∈ e :: es)) by (rewrite He; left).
    + erewrite (bool_decide_ext (gi_element it ∈ e :: es)); [done|].
      rewrite elem_of_cons. naive_solver.
Qed.

(** An item is to be closed. *)
Definition hit (all : bool) (it : groupConnItem) : bool := negb (gi_isExternal it) || all.

Lemma interrupt_scan_spec all l :
  interrupt_scan all l =
  (map gi_conn (List.filter (hit all) l), map gi_element (List.filter (hit all) l)).
Proof.
  induction l as [|it l IH]; [done|]. cbn [interrupt_scan List.filter]. rewrite IH.
  change (negb (gi_isExternal it) || all) with (hit all it). by destruct (hit all it).
Qed.

(** [Interrupt] closes the internal connections (all of them on demand), in
    order, and the others stay in the group. *)
Lemma Interrupt_spec all g :
  IGroup_wf g ->
  Interrupt all g =
  (map gi_conn (List.filter (hit all) (ig_connections g)),
   mkIGroup (ig_next g) (List.filter (fun it => negb (hit all it)) (ig_connections g))).
Proof.
  intros [Hnd _]. unfold Interrupt. rewrite interrupt_scan_spec. f_equal. f_equal.
  rewrite fold_remove_filter. apply List.filter_ext_in. intros it Hit. f_equal.
  destruct (hit all it) eqn:Hh.
  - apply bool_decide_eq_true_2, list_elem_of_In, in_map, filter_In. done.
  - apply bool_decide_eq_false_2. intros He. apply list_elem_of_In, in_map_iff in He as (it' & He & Hin).
    apply filter_In in Hin as [Hin Hh']. cut (it' = it); [by intros ->; congruence|].
    apply list_elem_of_In in Hit, Hin. apply list_elem_of_lookup in Hit as [i Hi], Hin as [j Hj].
    assert (i = j) as ->; [|congruence].
    eapply NoDup_lookup; [exact Hnd| |]; rewrite list_lookup_fmap; [by rewrite Hi|].
    rewrite Hj. cbn. by rewrite He.
Qed.

Lemma filter_wf g (f : groupConnItem -> bool) :
  IGroup_wf g -> IGroup_wf (mkIGroup (ig_next g) (List.filter f (ig_connections g))).
Proof.
  intros [Hnd Hlt]. split; cbn.
  - induction (ig_connections g) as [|it l IH]; [constructor|]. cbn in *.
    apply list.NoDup_cons in Hnd as [Hn Hnd]. assert (Hlt' : forall x, x ∈ l -> (gi_element x < ig_next g)%nat).
    { intros x Hx. apply Hlt. by right. }
    destruct (f it); [|by apply IH]. cbn. constructor; [|by apply IH].
    intros He. apply Hn. apply list_elem_of_In, in_map_iff in He as (y & He & Hy).
    apply filter_In in Hy as [Hy _]. rewrite <- He. apply list_elem_of_In. by apply in_map.
  - intros it Hit. apply list_elem_of_In, filter_In in Hit as [Hit _]. apply Hlt. by apply list_elem_of_In.
Qed.

Lemma Interrupt_wf all g : IGroup_wf g -> IGroup_wf (snd (Interrupt all g)).
Proof. intros H. rewrite Interrupt_spec by done. by apply filter_wf. Qed.

Lemma Conn_Close_wf e c g : IGroup_wf g -> IGroup_wf (snd (Conn_Close e c g)).
Proof. apply filter_wf. Qed.
#[export] Hint Resolve NewGroup_wf NewConn_wf Interrupt_wf Conn_Close_wf : go.

(** ** Results of tests: [urltest.HistoryStorage] *)

(** [adapter.URLTestHistory] *)
Record URLTestHistory := mkHistory { h_Time : Z; h_Delay : Z }.
(** [delayHistory] of a [HistoryStorage] *)
Definition HistoryStorage : Type := gmap string URLTestHistory.
Definition LoadURLTestHistory (s : HistoryStorage) (tag : string) : option URLTestHistory := s !! tag.
Definition DeleteURLTestHistory (s : HistoryStorage) (tag : string) : HistoryStorage := delete tag s.
Definition StoreURLTestHistory (s : HistoryStorage) (tag : string) (h : URLTestHistory) : HistoryStorage :=
  <[tag := h]> s.

(** ** Groups and the heap *)

(** [Selector] *)
Record Selector := mkSelector {
  s_Tag : string;
  s_tags : list string;
  s_defaultTag : string;
  s_outbounds : gmap string Member;
  s_selected : option Member;
  s_interruptGroup : IGroup;
  s_interruptExternalConnections : bool
}.

(** [URLTestGroup]; the ticker is its identity, the channel [close] is whether
    it is closed. *)
Record URLTestGroup := mkURLTestGroup {
  g_outbounds : list Member;
  g_link : string;
  g_interval : Z;
  g_tolerance : Z;
  g_idleTimeout : Z;
  g_checking : bool;
  g_selectedOutboundTCP : option Member;
  g_selectedOutboundUDP : option Member;
  g_interruptGroup : IGroup;
  g_interruptExternalConnections : bool;
  g_ticker : option nat;
  g_closed : bool;
  g_started : bool;
  g_lastActive : Z
}.

(** [URLTest] *)
Record URLTest := mkURLTest {
  u_Tag : string;
  u_tags : list string;
  u_link : string;
  u_interval : Z;
  u_tolerance : Z;
  u_idleTimeout : Z;
  u_interruptExternalConnections : bool;
  u_group : option URLTestGroup
}.

(** What an outbound pointer refers to: a selector, a URL test, or an outbound
    that is no group, with its networks. *)
Inductive Object :=
  | OSelector (s : Selector)
  | OURLTest (u : URLTest)
  | OLeaf (network : list string).

(** The heap, the outbounds the manager knows, and the test results. *)
Record World := mkWorld {
  w_heap : gmap nat Object;
  w_byTag : gmap string Member;
  w_history : HistoryStorage
}.
Definition object (w : World) (m : Member) : Object := default (OLeaf []) (w_heap w !! m_id m).
Definition set_object (w : World) (m : Member) (o : Object) : World :=
  mkWorld (<[m_id m := o]> (w_heap w)) (w_byTag w) (w_history w).
Definition set_history (w : World) (h : HistoryStorage) : World :=
  mkWorld (w_heap w) (w_byTag w) h.

(** A computation that may run out of fuel. *)
Inductive Run (A : Type) :=
  | Done (r : Res A)
  | OutOfFuel.
Arguments Done {A} r.
Arguments OutOfFuel {A}.
#[global] Instance run_ret : MRet Run := fun A a => Done (Ok a).
#[global] Instance run_bind : MBind Run := fun A B f m =>
  match m with
  | Done (Ok a) => f a
  | Done (Err e) => Done (Err e)
  | Done (Panic s) => Done (Panic s)
  | OutOfFuel => OutOfFuel
  end.

Definition nil_dereference : string := "invalid memory address or nil pointer dereference".

(** [(s *Selector) Now] *)
Definition Selector_Now (s : Selector) : Res string :=
  match s_selected s with
  | None => match s_tags s with t :: _ => Ok t | [] => Panic "index out of range [0] with length 0" end
  | Some o => Ok (m_Tag o)
  end.

(** [(s *URLTest) Now] *)
Definition URLTest_Now (u : URLTest) : Res string :=
  match u_group u with
  | None => Panic nil_dereference
  | Some g =>
      match g_selectedOutboundTCP g, g_selectedOutboundUDP g with
      | Some o, _ => Ok (m_Tag o)
      | None, Some o => Ok (m_Tag o)
      | None, None => Ok ""
      end
  end.

(** [detour.(adapter.OutboundGroup)] and [Now] *)
Definition group_Now (w : World) (detour : Member) : option (Res string) :=
  match object w detour with
  | OSelector s => Some (Selector_Now s)
  | OURLTest u => Some (URLTest_Now u)
  | OLeaf _ => None
  end.

(** The loop of [RealTag]. *)
Fixpoint RealTag_loop (fuel : nat) (w : World) (tag : string) (detour : Member) : Run string :=
  match fuel with
  | O => OutOfFuel
  | S fuel =>
      match group_Now w detour with
      | None => mret tag
      | Some now =>
          tag ← Done now;
          match w_byTag w !! tag with
          | None => mret tag
          | Some detour => RealTag_loop fuel w tag detour
          end
      end
  end.
(** [RealTag] *)
Definition RealTag (w : World) (detour : Member) : Run string :=
  RealTag_loop (size (w_byTag w) + 2) w (m_Tag detour) detour.

(** [Network] of an outbound: a selector asks the selected outbound. *)
Fixpoint Network_from (fuel : nat) (w : World) (detour : Member) : Run (list string) :=
  match fuel with
  | O => OutOfFuel
  | S fuel =>
      match object w detour with
      | OSelector s =>
          match s_selected s with
          | None => mret ["tcp"; "udp"]
          | Some o => Network_from fuel w o
          end
      | OURLTest _ => mret ["tcp"; "udp"]
      | OLeaf network => mret network
      end
  end.
Definition outbound_Network (w : World) (detour : Member) : Run (list string) :=
  Network_from (size (w_byTag w) + 2) w detour.

(** ** Consistent worlds

    After the manager has started its outbounds, the pointers in groups are to
    outbounds the manager knows, under tags that are dependencies of the group. *)

(** [d] is known to the manager and a dependency of [m]. *)
Definition member_of (w : World) (m d : Member) : Prop :=
  w_byTag w !! m_Tag d = Some d /\ m_Tag d ∈ m_Dependencies m.

Definition selector_wf (w : World) (m : Member) (s : Selector) : Prop :=
  s_Tag s = m_Tag m /\ s_tags s = m_Dependencies m /\ s_tags s <> [] /\
  (forall t d, s_outbounds s !! t = Some d -> m_Tag d = t /\ member_of w m d) /\
  (forall d, s_selected s = Some d -> s_outbounds s !! m_Tag d = Some d) /\
  IGroup_wf (s_interruptGroup s).
Definition group_wf (w : World) (m : Member) (g : URLTestGroup) : Prop :=
  Forall (member_of w m) (g_outbounds g) /\
  (forall d, g_selectedOutboundTCP g = Some d -> d ∈ g_outbounds g) /\
  (forall d, g_selectedOutboundUDP g = Some d -> d ∈ g_outbounds g) /\
  IGroup_wf (g_interruptGroup g).
Definition object_wf (w : World) (m : Member) (o : Object) : Prop :=
  match o with
  | OSelector s => selector_wf w m s
  | OURLTest u => u_Tag u = m_Tag m /\ u_tags u = m_Dependencies m /\
                  exists g, u_group u = Some g /\ group_wf w m g
  | OLeaf _ => True
  end.

(** The manager has started the outbounds in [order], and every group is
    consistent. *)
Record consistent (w : World) (order : list Member) : Prop := {
  cons_order : ordered ∅ order;
  cons_index : indexes (w_byTag w) order;
  cons_known : forall m, m ∈ order -> w_byTag w !! m_Tag m = Some m;
  cons_tags : w_byTag w !! "" = None;
  cons_objects : forall t m, w_byTag w !! t = Some m -> object_wf w m (object w m)
}.

(** Dependencies come before their dependents in a start order. *)
Lemma ordered_rank s l :
  ordered s l ->
  exists rank : string -> nat,
    (forall m, m ∈ l -> (rank (m_Tag m) < length l)%nat) /\
    (forall m d, m ∈ l -> d ∈ m_Dependencies m -> d ∈ tags l -> (rank d < rank (m_Tag m))%nat).
Proof.
  induction 1 as [s|s o rest Hn Hd Hrest (rank & Hlt & Hdep)].
  { exists (fun _ => O). split; set_solver. }
  destruct (ordered_NoDup _ _ Hrest) as [_ Hdisj].
  assert (Hne : forall m, m ∈ rest -> m_Tag m <> m_Tag o).
  { intros m Hm E. apply (Hdisj (m_Tag m)); [|set_solver]. unfold tags.
    apply elem_of_list_to_set, list_elem_of_fmap. by exists m. }
  exists (fun t => if decide (t = m_Tag o) then O else S (rank t)). split.
  - intros m [->|Hm]%elem_of_cons; cbn [length].
    + rewrite decide_True by done. lia.
    + rewrite decide_False by (by apply Hne). specialize (Hlt m Hm). lia.
  - intros m d [->|Hm]%elem_of_cons Hdm Hdt.
    + exfalso. specialize (Hd d Hdm). rewrite tags_cons in Hdt. set_solver.
    + rewrite (decide_False (P := m_Tag m = m_Tag o)) by (by apply Hne).
      case_decide; [lia|]. rewrite tags_cons in Hdt. specialize (Hdep m d Hm Hdm). set_solver by lia.
Qed.

Lemma index_size (byTag : gmap string Member) l :
  indexes byTag l -> (forall m, m ∈ l -> byTag !! m_Tag m = Some m) -> NoDup (map m_Tag l) ->
  (length l <= size byTag)%nat.
Proof.
  intros Hidx Hall Hnd. rewrite <- size_dom, <- (size_tags l) by done.
  apply subseteq_size. intros t Ht. unfold tags in Ht.
  apply elem_of_list_to_set, list_elem_of_fmap in Ht as (m & -> & Hm).
  apply elem_of_dom. eexists. by apply Hall.
Qed.

Lemma ordered_deps s l m d : ordered s l -> m ∈ l -> d ∈ m_Dependencies m -> d ∈ s ∪ tags l.
Proof.
  induction 1 as [s|s o rest Hn Hd Hrest IH]; [set_solver|].
  intros [->|Hm]%elem_of_cons Hdm; [specialize (Hd d Hdm); set_solver|].
  specialize (IH Hm Hdm). rewrite tags_cons. set_solver.
Qed.

Section Consistent.
Context (w : World) (order : list Member).
Hypothesis Hw : consistent w order.

Lemma known_order t m : w_byTag w !! t = Some m -> m ∈ order /\ m_Tag m = t.
Proof. apply Hw. Qed.

Lemma known_rank :
  exists rank : string -> nat,
    (forall t m, w_byTag w !! t = Some m -> (rank t < size (w_byTag w))%nat) /\
    (forall m d, m ∈ order -> m_Tag d ∈ m_Dependencies m -> w_byTag w !! m_Tag d = Some d ->
       (rank (m_Tag d) < rank (m_Tag m))%nat).
Proof.
  destruct (ordered_rank _ _ (cons_order _ _ Hw)) as (rank & Hlt & Hdep).
  destruct (ordered_NoDup _ _ (cons_order _ _ Hw)) as [Hnd _].
  pose proof (index_size _ _ (cons_index _ _ Hw) (cons_known _ _ Hw) Hnd) as Hsz.
  exists rank. split.
  - intros t m (Hm & <-)%known_order. specialize (Hlt m Hm). lia.
  - intros m d Hm Hd Hk. apply Hdep; [done..|]. apply known_order in Hk as [Hk _].
    unfold tags. apply elem_of_list_to_set, list_elem_of_fmap. by exists d.
Qed.

(** Every dependency of a known outbound is known. *)
Lemma dependency_known m d :
  m ∈ order -> d ∈ m_Dependencies m -> exists o, w_byTag w !! d = Some o /\ m_Tag o = d.
Proof.
  intros Hm Hd. pose proof (ordered_deps _ _ _ _ (cons_order _ _ Hw) Hm Hd) as Ht.
  assert (Ht' : d ∈ tags order) by set_solver. unfold tags in Ht'.
  apply elem_of_list_to_set, list_elem_of_fmap in Ht' as (o & -> & Ho).
  exists o. split; [by apply Hw|done].
Qed.

(** The current selection of a known outbound: it is no group, has not chosen
    yet, or has chosen a known dependency. *)
Lemma now_cases m :
  m ∈ order ->
  (exists network, object w m = OLeaf network /\ group_Now w m = None) \/
  group_Now w m = Some (Ok "") \/
  (exists d, group_Now w m = Some (Ok (m_Tag d)) /\ member_of w m d).
Proof.
  intros Hm. pose proof (cons_objects _ _ Hw _ _ (cons_known _ _ Hw m Hm)) as Ho.
  unfold group_Now. destruct (object w m) as [s|u|network]; [| |left; by exists network].
  - right; right. destruct Ho as (_ & Htags & Hne & Hobs & Hsel & _). unfold Selector_Now.
    destruct (s_selected s) as [d|].
    + exists d. split; [done|]. by destruct (Hobs _ _ (Hsel d eq_refl)).
    + destruct (s_tags s) as [|t rest]; [done|].
      assert (Ht : t ∈ m_Dependencies m) by (rewrite <- Htags; left).
      destruct (dependency_known m t Hm Ht) as (d & Hd & <-). exists d. done.
  - right. destruct Ho as (_ & _ & g & Hg & Hobs & Htcp & Hudp & _). unfold URLTest_Now. rewrite Hg.
    rewrite list.Forall_forall in Hobs.
    destruct (g_selectedOutboundTCP g) as [d|]; [right; exists d; auto|].
    destruct (g_selectedOutboundUDP g) as [d|]; [right; exists d; auto|by left].
Qed.

(** [tag] names an outbound that is no group. *)
Definition real_outbound (tag : string) : Prop :=
  exists d network, w_byTag w !! tag = Some d /\ object w d = OLeaf network.

Lemma RealTag_loop_total rank fuel m :
  (forall m d, m ∈ order -> m_Tag d ∈ m_Dependencies m -> w_byTag w !! m_Tag d = Some d ->
     (rank (m_Tag d) < rank (m_Tag m))%nat) ->
  m ∈ order -> (rank (m_Tag m) < fuel)%nat ->
  exists t, RealTag_loop fuel w (m_Tag m) m = Done (Ok t) /\ (t = "" \/ real_outbound t).
Proof.
  intros Hrank. revert m. induction fuel as [|fuel IH]; intros m Hm Hf; [lia|]. cbn [RealTag_loop].
  destruct (now_cases m Hm) as [(net & Hnet & ->)|[->|(d & -> & Hd & Hdep)]].
  - exists (m_Tag m). split; [done|]. right. exists m, net. split; [by apply Hw|done].
  - exists "". split; [|by left]. cbn. by rewrite (cons_tags _ _ Hw).
  - cbn. rewrite Hd. apply known_order in Hd as Hin. apply IH; [apply Hin|].
    specialize (Hrank m d Hm Hdep Hd). lia.
Qed.

Lemma RealTag_total m :
  m ∈ order -> exists t, RealTag w m = Done (Ok t) /\ (t = "" \/ real_outbound t).
Proof.
  intros Hm. destruct known_rank as (rank & Hlt & Hrank). eapply RealTag_loop_total; [done..|].
  specialize (Hlt _ m (cons_known _ _ Hw m Hm)). lia.
Qed.

Lemma Network_from_total rank fuel m :
  (forall m d, m ∈ order -> m_Tag d ∈ m_Dependencies m -> w_byTag w !! m_Tag d = Some d ->
     (rank (m_Tag d) < rank (m_Tag m))%nat) ->
  m ∈ order -> (rank (m_Tag m) < fuel)%nat -> exists l, Network_from fuel w m = Done (Ok l).
Proof.
  intros Hrank. revert m. induction fuel as [|fuel IH]; intros m Hm Hf; [lia|]. cbn [Network_from].
  pose proof (cons_objects _ _ Hw _ _ (cons_known _ _ Hw m Hm)) as Ho.
  destruct (object w m) as [s|u|network]; [|by eexists..].
  destruct Ho as (_ & _ & _ & Hobs & Hsel & _). destruct (s_selected s) as [d|]; [|by eexists].
  destruct (Hobs _ _ (Hsel d eq_refl)) as (_ & Hd & Hdep). apply known_order in Hd as Hin.
  apply IH; [apply Hin|]. specialize (Hrank m d Hm Hdep Hd). lia.
Qed.

Lemma outbound_Network_total m : m ∈ order -> exists l, outbound_Network w m = Done (Ok l).
Proof.
  intros Hm. destruct known_rank as (rank & Hlt & Hrank). eapply Network_from_total; [done..|].
  specialize (Hlt _ m (cons_known _ _ Hw m Hm)). lia.
Qed.

(** Outbound pointers are distinct. *)
Definition distinct : Prop := forall a b, a ∈ order -> b ∈ order -> m_id a = m_id b -> a = b.

(** ** Changing one group *)

Lemma object_set_object_same m o : object (set_object w m o) m = o.
Proof. unfold object. cbn. by rewrite lookup_insert_eq. Qed.

Lemma object_set_object_other m m' o :
  distinct -> m ∈ order -> m' ∈ order -> m <> m' -> object (set_object w m o) m' = object w m'.
Proof.
  intros Hd Hm Hm' Hne. unfold object. cbn. rewrite lookup_insert_ne; [done|].
  intros E. apply Hne. by apply Hd.
Qed.

Lemma set_object_consistent m o :
  distinct -> m ∈ order -> object_wf w m o -> consistent (set_object w m o) order.
Proof.
  intros Hd Hm Ho. split; [apply Hw|apply Hw|apply Hw|apply Hw|].
  intros t m' Hm'. cbn in Hm'. destruct (known_order _ _ Hm') as [Hin _].
  destruct (decide (m = m')) as [<-|Hne].
  - rewrite object_set_object_same. done.
  - rewrite object_set_object_other by done. by eapply Hw.
Qed.

(** A change of a group does not concern the outbounds below it. *)
Section Below.
Context (self : Member) (o : Object) (rank : string -> nat).
Hypothesis Hdist : distinct.
Hypothesis Hself : self ∈ order.
Hypothesis Hrank : forall m d, m ∈ order -> m_Tag d ∈ m_Dependencies m -> w_byTag w !! m_Tag d = Some d ->
  (rank (m_Tag d) < rank (m_Tag m))%nat.

Lemma below_object m :
  m ∈ order -> (rank (m_Tag m) < rank (m_Tag self))%nat -> object (set_object w self o) m = object w m.
Proof. intros Hm Hlt. apply object_set_object_other; [done..|]. intros ->. lia. Qed.

Lemma RealTag_loop_below fuel m t :
  m ∈ order -> (rank (m_Tag m) < rank (m_Tag self))%nat ->
  RealTag_loop fuel (set_object w self o) t m = RealTag_loop fuel w t m.
Proof.
  revert m t. induction fuel as [|fuel IH]; intros m t Hm Hlt; [done|]. cbn [RealTag_loop].
  replace (group_Now (set_object w self o) m) with (group_Now w m)
    by (unfold group_Now; by rewrite below_object).
  destruct (now_cases m Hm) as [(net & _ & ->)|[->|(d & -> & Hd & Hdep)]]; [done| |].
  - cbn. by rewrite (cons_tags _ _ Hw).
  - cbn. rewrite Hd. apply known_order in Hd as Hin. apply IH; [apply Hin|].
    specialize (Hrank m d Hm Hdep Hd). lia.
Qed.

Lemma Network_from_below fuel m :
  m ∈ order -> (rank (m_Tag m) < rank (m_Tag self))%nat ->
  Network_from fuel (set_object w self o) m = Network_from fuel w m.
Proof.
  revert m. induction fuel as [|fuel IH]; intros m Hm Hlt; [done|]. cbn [Network_from].
  rewrite below_object by done. pose proof (cons_objects _ _ Hw _ _ (cons_known _ _ Hw m Hm)) as Ho.
  destruct (object w m) as [s|u|network]; [|done..].
  destruct Ho as (_ & _ & _ & Hobs & Hsel & _). destruct (s_selected s) as [d|]; [|done].
  destruct (Hobs _ _ (Hsel d eq_refl)) as (_ & Hd & Hdep). apply known_order in Hd as Hin.
  apply IH; [apply Hin|]. specialize (Hrank m d Hm Hdep Hd). lia.
Qed.
End Below.

Lemma unchanged_below self o d :
  distinct -> self ∈ order -> member_of w self d ->
  RealTag (set_object w self o) d = RealTag w d /\ outbound_Network (set_object w self o) d = outbound_Network w d.
Proof.
  intros Hdist Hself [Hd Hdep]. destruct known_rank as (rank & _ & Hrank).
  apply known_order in Hd as Hin. specialize (Hrank self d Hself Hdep Hd) as Hlt.
  unfold RealTag, outbound_Network. cbn [w_byTag set_object].
  split; [apply (RealTag_loop_below self o rank)|apply (Network_from_below self o rank)]; (done || apply Hin).
Qed.
End Consistent.

(** Following the selections of groups ends.  Once the manager has started
    its outbounds (so that no group depends on itself), [RealTag] of every
    outbound returns, with fuel bounded by the number of outbounds, the tag of
    an outbound that is no group, or the empty tag of a URL test without a
    choice; and [Network] returns. *)
Theorem real_tag_total `{SliceHelpers} outcome texts l byTag tr tr' w m :
  start_all outcome texts l byTag tr = Some (Ok tt, tr') -> NoDup (map m_Tag l) ->
  w_byTag w = byTag -> (forall t o, byTag !! t = Some o <-> o ∈ l /\ m_Tag o = t) ->
  byTag !! "" = None -> (forall o, o ∈ l -> object_wf w o (object w o)) ->
  m ∈ l ->
  (exists t, RealTag w m = Done (Ok t) /\ (t = "" \/ real_outbound w t)) /\
  (exists networks, outbound_Network w m = Done (Ok networks)).
Proof.
  intros Hstart Hnd <- Hidx Hempty Hobj Hm.
  destruct (start_all_spec outcome texts l (w_byTag w) tr Hnd) as [(order & _ & Hperm & Hord)|(e & tr2 & He)];
    [|congruence].
  assert (Hw : consistent w order).
  { split; [done| | |done|].
    - intros t o [Ho Ht]%Hidx. by rewrite Hperm.
    - intros o Ho. apply Hidx. rewrite <- Hperm. done.
    - intros t o [Ho _]%Hidx. by apply Hobj. }
  rewrite <- Hperm in Hm. split; [by eapply RealTag_total|by eapply outbound_Network_total].
Qed.
