(* ===== verification/SelectorGroup.v ===== *)
(** * The selector outbound

    [protocol/group/selector.go]: a group whose outbound is chosen by hand.
    The choice is kept in the cache file and replaces the configured default
    at the next start; a change of the choice interrupts the connections made
    through the group.  Effects on the outside are events in the order in which
    they happen. *)

From stdpp Require Import base numbers list strings gmap option.
From Stdlib Require Import ZArith Lia.
From S2P Require Import Prelude ManagerCore GroupCore.

Local Open Scope Z_scope.

(** Effects of a group: a stored choice, a closed connection, the callback
    [nekoutils.Selector_OnProxySelected], a notification of the history. *)
Inductive GroupEvent :=
  | StoreSelected (group selected : string)
  | ConnClosed (conn : nat)
  | OnProxySelected (group selected : string)
  | HistoryUpdated.

(** Assignments to fields. *)
Definition set_s_outbounds (s : Selector) (x : gmap string Member) : Selector :=
  mkSelector (s_Tag s) (s_tags s) (s_defaultTag s) x (s_selected s) (s_interruptGroup s)
    (s_interruptExternalConnections s).
Definition set_s_selected (s : Selector) (o : option Member) : Selector :=
  mkSelector (s_Tag s) (s_tags s) (s_defaultTag s) (s_outbounds s) o (s_interruptGroup s)
    (s_interruptExternalConnections s).
Definition set_s_interruptGroup (s : Selector) (g : IGroup) : Selector :=
  mkSelector (s_Tag s) (s_tags s) (s_defaultTag s) (s_outbounds s) (s_selected s) g
    (s_interruptExternalConnections s).

Lemma set_s_selected_same s : set_s_selected s (s_selected s) = s.
Proof. by destruct s. Qed.

(** [NewSelector] *)
Definition NewSelector (tag : string) (outbounds : list string) (default : string) (interrupt : bool)
  : Res Selector :=
  match outbounds with
  | [] => Err (E_New [AStr "missing tags"])
  | _ => Ok (mkSelector tag outbounds default ∅ None NewGroup interrupt)
  end.

(** The lookup loop of [Start]; an error leaves what was found. *)
Fixpoint find_outbounds (Outbound : string -> option Member) (i : Z) (l : list string)
    (found : gmap string Member) : Res unit * gmap string Member :=
  match l with
  | [] => (Ok tt, found)
  | tag :: rest =>
      match Outbound tag with
      | None => (Err (E_New [AStr "outbound "; AInt i; AStr " not found: "; AStr tag]), found)
      | Some detour => find_outbounds Outbound (i + 1) rest (<[tag := detour]> found)
      end
  end.

(** The choice in the cache file, if there is one for this group. *)
Definition cached_choice (cacheFile : option (string -> string)) (s : Selector) : option Member :=
  if bool_decide (s_Tag s = "") then None
  else match cacheFile with
       | None => None
       | Some LoadSelected =>
           let selected := LoadSelected (s_Tag s) in
           if bool_decide (selected = "") then None else s_outbounds s !! selected
       end.

(** The rest of [Start]: the default outbound, or the first. *)
Definition default_choice (s : Selector) : Res unit * Selector :=
  if negb (bool_decide (s_defaultTag s = "")) then
    match s_outbounds s !! s_defaultTag s with
    | None => (Err (E_New [AStr "default outbound not found: "; AStr (s_defaultTag s)]), s)
    | Some detour => (Ok tt, set_s_selected s (Some detour))
    end
  else match s_tags s with
       | t :: _ => (Ok tt, set_s_selected s (s_outbounds s !! t))
       | [] => (Panic "index out of range [0] with length 0", s)
       end.

(** [(s *Selector) Start] *)
Definition Selector_Start (Outbound : string -> option Member) (cacheFile : option (string -> string))
    (s : Selector) : Res unit * Selector :=
  let '(r, found) := find_outbounds Outbound 0 (s_tags s) (s_outbounds s) in
  let s := set_s_outbounds s found in
  match r with
  | Ok _ =>
      match cached_choice cacheFile s with
      | Some detour => (Ok tt, set_s_selected s (Some detour))
      | None => default_choice s
      end
  | r => (r, s)
  end.

(** [(s *Selector) SelectOutbound]; whether there is a cache file, a callback
    and a history is up to the context. *)
Definition SelectOutbound (hasCache hasCallback hasHistory : bool) (s : Selector) (tag : string)
  : bool * Selector * list GroupEvent :=
  match s_outbounds s !! tag with
  | None => (false, s, [])
  | Some detour =>
      let old := s_selected s in
      let s := set_s_selected s (Some detour) in
      if bool_decide (old = Some detour) then (true, s, [])
      else
        let stored := if negb (bool_decide (s_Tag s = "")) && hasCache
                      then [StoreSelected (s_Tag s) tag] else [] in
        let '(closed, group) := Interrupt (s_interruptExternalConnections s) (s_interruptGroup s) in
        (true, set_s_interruptGroup s group,
         stored ++ map ConnClosed closed ++
         (if (hasCallback : bool) then [OnProxySelected (s_Tag s) tag] else []) ++
         (if (hasHistory : bool) then [HistoryUpdated] else []))
  end.

(** [(s *Selector) DialContext] and [ListenPacket]; [dial] is the call to the
    selected outbound. *)
Definition Selector_DialContext (dial : Member -> Res nat) (isExternal : bool) (s : Selector)
  : Res (nat * nat) * Selector :=
  match s_selected s with
  | None => (Panic nil_dereference, s)
  | Some o =>
      match dial o with
      | Ok conn =>
          let '(element, group) := NewConn (s_interruptGroup s) conn isExternal in
          (Ok (element, conn), set_s_interruptGroup s group)
      | Err e => (Err e, s)
      | Panic msg => (Panic msg, s)
      end
  end.

(** Close of a connection made through the group. *)
Definition Selector_conn_Close (element conn : nat) (s : Selector) : Selector * list GroupEvent :=
  let '(closed, group) := Conn_Close element conn (s_interruptGroup s) in
  (set_s_interruptGroup s group, map ConnClosed closed).

(** ** Start *)

Lemma find_outbounds_ok Outbound l i found :
  (forall t, t ∈ l -> exists o, Outbound t = Some o) ->
  exists found', find_outbounds Outbound i l found = (Ok tt, found') /\
    forall t, found' !! t = if decide (t ∈ l) then Outbound t else found !! t.
Proof.
  revert i found. induction l as [|t l IH]; intros i found Hall; cbn [find_outbounds].
  { exists found. split; [done|]. intros t. by rewrite decide_False by set_solver. }
  destruct (Hall t ltac:(left)) as (o & Ho). rewrite Ho.
  destruct (IH (i + 1) (<[t := o]> found)) as (found' & -> & Hf); [intros; apply Hall; by right|].
  exists found'. split; [done|]. intros t'. rewrite Hf. destruct (decide (t' = t)) as [->|Hne].
  - rewrite (decide_True (P := t ∈ t :: l)) by left. case_decide; [done|]. by rewrite lookup_insert_eq.
  - rewrite lookup_insert_ne by done. case_decide; case_decide; set_solver.
Qed.

Lemma find_outbounds_missing Outbound l i found t :
  t ∈ l -> Outbound t = None ->
  exists j t' found', find_outbounds Outbound i l found =
    (Err (E_New [AStr "outbound "; AInt j; AStr " not found: "; AStr t']), found') /\
    t' ∈ l /\ Outbound t' = None.
Proof.
  revert i found. induction l as [|x l IH]; intros i found Ht Hn; [set_solver|]. cbn [find_outbounds].
  destruct (Outbound x) as [o|] eqn:Hx.
  - apply elem_of_cons in Ht as [->|Ht]; [congruence|].
    destruct (IH (i + 1) (<[x := o]> found) Ht Hn) as (j & t' & f & -> & Ht' & Hn').
    exists j, t', f. split; [done|]. split; [by right|done].
  - exists i, x, found. split; [done|]. split; [left|done].
Qed.

(** The tag [Start] selects: the cached one if it is still a member, else the
    default, else the first. *)
Definition start_choice (cacheFile : option (string -> string)) (s : Selector) : string :=
  let fallback := if bool_decide (s_defaultTag s = "") then hd "" (s_tags s) else s_defaultTag s in
  match cacheFile with
  | None => fallback
  | Some LoadSelected =>
      let selected := LoadSelected (s_Tag s) in
      if bool_decide (s_Tag s = "") || bool_decide (selected = "") ||
         negb (bool_decide (selected ∈ s_tags s))
      then fallback else selected
  end.

Section Start.
Context (Outbound : string -> option Member) (cacheFile : option (string -> string)) (s : Selector).
Hypothesis Hempty : s_outbounds s = ∅.
Hypothesis Hne : s_tags s <> [].

Lemma Selector_Start_ok :
  (forall t, t ∈ s_tags s -> exists o, Outbound t = Some o) -> start_choice cacheFile s ∈ s_tags s ->
  exists found, Selector_Start Outbound cacheFile s =
    (Ok tt, set_s_selected (set_s_outbounds s found) (Outbound (start_choice cacheFile s))) /\
  forall t, found !! t = if decide (t ∈ s_tags s) then Outbound t else None.
Proof.
  intros Hall Hin. destruct (find_outbounds_ok Outbound (s_tags s) 0 (s_outbounds s) Hall) as (found & Hf & Hl).
  assert (Hl' : forall t, found !! t = if decide (t ∈ s_tags s) then Outbound t else None).
  { intros t. rewrite Hl, Hempty, lookup_empty. done. }
  assert (Hyes : forall t, t ∈ s_tags s -> found !! t = Outbound t).
  { intros t Ht. rewrite Hl'. by case_decide. }
  assert (Hno : forall t, t ∉ s_tags s -> found !! t = None).
  { intros t Ht. rewrite Hl'. by case_decide. }
  exists found. split; [|exact Hl']. unfold Selector_Start. rewrite Hf. cbv beta zeta iota.
  assert (Hfb : forall t, t = (if bool_decide (s_defaultTag s = "") then hd "" (s_tags s) else s_defaultTag s) ->
     t ∈ s_tags s ->
     default_choice (set_s_outbounds s found) = (Ok tt, set_s_selected (set_s_outbounds s found) (Outbound t))).
  { intros t Ht Htin. unfold default_choice. cbn [s_defaultTag s_outbounds s_tags set_s_outbounds].
    case_bool_decide as Hd; cbn [negb].
    - destruct (s_tags s) as [|t0 rest] eqn:Es; [done|]. cbn in Ht. subst t.
      by rewrite Hyes.
    - subst t. rewrite Hyes by done. destruct (Hall _ Htin) as (o & ->). done. }
  unfold start_choice in *. unfold cached_choice. cbn [s_Tag s_outbounds set_s_outbounds] in *.
  destruct cacheFile as [load|].
  - destruct (bool_decide (s_Tag s = "")) eqn:E1; cbn [orb] in *; [by apply Hfb|].
    destruct (bool_decide (load (s_Tag s) = "")) eqn:E2; cbn [orb] in *; [by apply Hfb|].
    destruct (bool_decide_reflect (load (s_Tag s) ∈ s_tags s)) as [Hc|Hc]; cbn [negb] in *.
    + rewrite Hyes by done. destruct (Hall _ Hc) as (o & ->). done.
    + rewrite Hno by done. by apply Hfb.
  - destruct (bool_decide (s_Tag s = "")); by apply Hfb.
Qed.

(** Why [Start] fails: a tag is unknown, or the choice is not a member. *)
Lemma Selector_Start_error :
  (exists t, t ∈ s_tags s /\ Outbound t = None) \/ start_choice cacheFile s ∉ s_tags s ->
  exists e s', Selector_Start Outbound cacheFile s = (Err e, s').
Proof.
  intros Hbad. destruct (decide (Forall (fun t => is_Some (Outbound t)) (s_tags s))) as [Hall|Hn].
  - rewrite list.Forall_forall in Hall. destruct Hbad as [(t & Ht & Ho)|Hbad].
    { apply Hall in Ht as [o Ht]. congruence. }
    destruct (find_outbounds_ok Outbound (s_tags s) 0 (s_outbounds s)) as (found & Hf & Hl).
    { intros t Ht. destruct (Hall t Ht) as [o Ho]. by exists o. }
    unfold Selector_Start. rewrite Hf. cbv beta zeta iota.
    assert (Hno : forall t, t ∉ s_tags s -> found !! t = None).
    { intros t Ht. rewrite Hl, Hempty, lookup_empty. by case_decide. }
    unfold start_choice in Hbad. unfold cached_choice, default_choice.
    cbn [s_Tag s_outbounds s_defaultTag s_tags set_s_outbounds].
    assert (Hd : (if bool_decide (s_defaultTag s = "") then hd "" (s_tags s) else s_defaultTag s) ∉ s_tags s ->
                 bool_decide (s_defaultTag s = "") = false /\ found !! s_defaultTag s = None).
    { destruct (bool_decide (s_defaultTag s = "")); [|by auto].
      destruct (s_tags s); [done|]. intros []. left. }
    destruct cacheFile as [load|].
    + destruct (bool_decide (s_Tag s = "")); cbn [orb] in Hbad;
        [destruct (Hd Hbad) as [-> ->]; by do 2 eexists|].
      destruct (bool_decide (load (s_Tag s) = "")); cbn [orb] in Hbad;
        [destruct (Hd Hbad) as [-> ->]; by do 2 eexists|].
      destruct (bool_decide_reflect (load (s_Tag s) ∈ s_tags s)) as [Hc|Hc]; cbn [negb] in Hbad; [done|].
      rewrite (Hno _ Hc). destruct (Hd Hbad) as [-> ->]. by do 2 eexists.
    + destruct (Hd Hbad) as [-> ->]. destruct (bool_decide (s_Tag s = "")); by do 2 eexists.
  - apply not_Forall_Exists, list.Exists_exists in Hn as (t & Ht & Hn); [|apply _].
    apply eq_None_not_Some in Hn.
    destruct (find_outbounds_missing Outbound (s_tags s) 0 (s_outbounds s) t Ht Hn) as (j & t' & f & Hf & _).
    unfold Selector_Start. rewrite Hf. by do 2 eexists.
Qed.
End Start.

(** ** Selection *)

(** [Start] of a selector selects the choice of the cache file if it is a
    member of the group, else the configured default, else the first member;
    it fails exactly when a member is unknown to the manager or the default is
    not a member. *)
Theorem selector_start tag outbounds default interrupt Outbound cacheFile s :
  NewSelector tag outbounds default interrupt = Ok s ->
  let known := forall t, t ∈ outbounds -> is_Some (Outbound t) in
  let choice := start_choice cacheFile s in
  (known /\ choice ∈ outbounds ->
   exists s', Selector_Start Outbound cacheFile s = (Ok tt, s') /\
     s_selected s' = Outbound choice /\
     forall t, s_outbounds s' !! t = if decide (t ∈ outbounds) then Outbound t else None) /\
  (~ (known /\ choice ∈ outbounds) ->
   exists e s', Selector_Start Outbound cacheFile s = (Err e, s')).
Proof.
  intros Hs. cbv zeta. unfold NewSelector in Hs. destruct outbounds as [|t0 ts]; [done|].
  injection Hs as <-. set (s := mkSelector _ _ _ _ _ _ _). split.
  - intros [Hk Hc]. destruct (Selector_Start_ok Outbound cacheFile s) as (found & -> & Hf); [done|done| |done|].
    { intros t Ht. destruct (Hk t Ht) as [o Ho]. by exists o. }
    eexists. split; [reflexivity|]. split; [done|]. exact Hf.
  - intros Hn. apply Selector_Start_error; [done|done|].
    destruct (decide (Forall (fun t => is_Some (Outbound t)) (t0 :: ts))) as [Hall|Hbad].
    + right. intros Hc. apply Hn. rewrite list.Forall_forall in Hall. done.
    + left. apply not_Forall_Exists, list.Exists_exists in Hbad as (t & Ht & Hb); [|apply _].
      exists t. by apply eq_None_not_Some in Hb.
Qed.

(** A selector of the manager [byTag], from its start on: the choice changes,
    connections are made and closed. *)
Inductive selector_reachable (m : Member) (byTag : gmap string Member) : Selector -> Prop :=
  | selector_started default interrupt cacheFile s s' :
      NewSelector (m_Tag m) (m_Dependencies m) default interrupt = Ok s ->
      Selector_Start (fun t => byTag !! t) cacheFile s = (Ok tt, s') -> selector_reachable m byTag s'
  | selector_choice hasCache hasCallback hasHistory s tag r s' events :
      selector_reachable m byTag s ->
      SelectOutbound hasCache hasCallback hasHistory s tag = (r, s', events) ->
      selector_reachable m byTag s'
  | selector_dial dial isExternal s r s' :
      selector_reachable m byTag s -> Selector_DialContext dial isExternal s = (r, s') ->
      selector_reachable m byTag s'
  | selector_close element conn s s' events :
      selector_reachable m byTag s -> Selector_conn_Close element conn s = (s', events) ->
      selector_reachable m byTag s'.

Section Reachable.
Context (w : World) (m : Member).
Hypothesis Hindex : forall t o, w_byTag w !! t = Some o -> m_Tag o = t.

Lemma set_s_interruptGroup_wf s g :
  selector_wf w m s -> IGroup_wf g -> selector_wf w m (set_s_interruptGroup s g).
Proof.
  intros (H1 & H2 & H3 & H4 & H5 & _) Hg.
  split; [done|]. split; [done|]. split; [done|]. split; [done|]. split; done.
Qed.

Lemma set_s_selected_wf s tag d :
  selector_wf w m s -> s_outbounds s !! tag = Some d -> selector_wf w m (set_s_selected s (Some d)).
Proof.
  intros (H1 & H2 & H3 & H4 & _ & Hg) Hd.
  split; [done|]. split; [done|]. split; [done|]. split; [done|]. split; [|done].
  cbn. intros d' [= <-]. destruct (H4 _ _ Hd) as [-> _]. done.
Qed.

Lemma started_wf default interrupt cacheFile s s' :
  NewSelector (m_Tag m) (m_Dependencies m) default interrupt = Ok s ->
  Selector_Start (fun t => w_byTag w !! t) cacheFile s = (Ok tt, s') ->
  selector_wf w m s' /\ is_Some (s_selected s').
Proof.
  unfold NewSelector. destruct (m_Dependencies m) as [|t0 ts] eqn:Hdeps; [done|].
  intros [= <-]. set (s := mkSelector _ _ _ _ _ _ _). intros Hstart.
  destruct (decide (Forall (fun t => is_Some (w_byTag w !! t)) (t0 :: ts))) as [Hall|Hbad].
  - rewrite list.Forall_forall in Hall. destruct (decide (start_choice cacheFile s ∈ t0 :: ts)) as [Hc|Hc].
    + destruct (Selector_Start_ok (fun t => w_byTag w !! t) cacheFile s) as (found & Hok & Hf); [done|done| |done|].
      { intros t Ht. destruct (Hall t Ht) as [o Ho]. by exists o. }
      rewrite Hok in Hstart. injection Hstart as <-. destruct (Hall _ Hc) as [d Hd].
      split; [|cbn; by rewrite Hd]. split; [done|]. split; [by rewrite Hdeps|]. split; [done|].
      change (s_tags s) with (t0 :: ts) in Hf.
      split; [|split; [|apply NewGroup_wf]]; cbn -[start_choice].
      * intros t o Ho. rewrite Hf in Ho. case_decide as Ht; [|done]. rewrite (Hindex _ _ Ho).
        split; [done|]. split; [by rewrite (Hindex _ _ Ho)|]. rewrite Hdeps, (Hindex _ _ Ho). done.
      * intros o Ho. rewrite Hf. rewrite (Hindex _ _ Ho). case_decide; done.
    + destruct (Selector_Start_error (fun t => w_byTag w !! t) cacheFile s) as (e & s2 & He);
        [done|done|by right|congruence].
  - destruct (Selector_Start_error (fun t => w_byTag w !! t) cacheFile s) as (e & s2 & He);
      [done|done| |congruence].
    left. apply not_Forall_Exists, list.Exists_exists in Hbad as (t & Ht & Hb); [|apply _].
    exists t. by apply eq_None_not_Some in Hb.
Qed.

Lemma selector_reachable_wf s :
  selector_reachable m (w_byTag w) s -> selector_wf w m s /\ is_Some (s_selected s).
Proof.
  induction 1 as [d i c s s' Hn Hs|hc hb hh s tag r s' evs _ [IH Hsel] Hs
                 |dial ext s r s' _ [IH Hsel] Hd|e c s s' evs _ [IH Hsel] Hc].
  - by eapply started_wf.
  - unfold SelectOutbound in Hs. destruct (s_outbounds s !! tag) as [o|] eqn:Ho;
      [|injection Hs as _ <- _; done].
    case_bool_decide; [injection Hs as _ <- _; split; [by eapply set_s_selected_wf|done]|].
    destruct (Interrupt _ _) as [closed g] eqn:Hi. injection Hs as _ <- _. split; [|done].
    apply set_s_interruptGroup_wf; [by eapply set_s_selected_wf|].
    change g with (snd (closed, g)). rewrite <- Hi. apply Interrupt_wf, IH.
  - unfold Selector_DialContext in Hd. destruct (s_selected s) as [o|] eqn:Eo; [|by destruct Hsel].
    destruct (dial o) as [conn|e|msg]; [|injection Hd as _ <-; by rewrite Eo..].
    destruct (NewConn _ _ _) as [element g] eqn:Hg. injection Hd as _ <-. cbn. rewrite Eo.
    split; [|done]. apply set_s_interruptGroup_wf; [done|].
    change g with (snd (element, g)). rewrite <- Hg. apply NewConn_wf, IH.
  - unfold Selector_conn_Close in Hc. destruct (Conn_Close _ _ _) as [closed g] eqn:Hg.
    injection Hc as <- _. split; [|done]. apply set_s_interruptGroup_wf; [done|].
    change g with (snd (closed, g)). rewrite <- Hg. apply Conn_Close_wf, IH.
Qed.

(** A started selector always has a selected outbound, which the manager
    knows and which is one of the members; [SelectOutbound] accepts exactly the
    members.  Selecting the present choice again has no effect; a new choice is
    stored, closes the internal connections of the group (all of them if so
    configured) and keeps the others, and is announced, in this order. *)
Theorem selector_selection s tag :
  selector_reachable m (w_byTag w) s ->
  selector_wf w m s /\ (exists d, s_selected s = Some d /\ member_of w m d) /\
  forall hasCache hasCallback hasHistory,
    let '(accepted, s', events) := SelectOutbound hasCache hasCallback hasHistory s tag in
    let conns := ig_connections (s_interruptGroup s) in
    let closes := hit (s_interruptExternalConnections s) in
    match s_outbounds s !! tag with
    | None => accepted = false /\ s' = s /\ events = []
    | Some d =>
        accepted = true /\ m_Tag d = tag /\ s_selected s' = Some d /\
        if bool_decide (s_selected s = Some d)
        then s' = s /\ events = []
        else ig_connections (s_interruptGroup s') = List.filter (fun c => negb (closes c)) conns /\
             events = (if negb (bool_decide (s_Tag s = "")) && hasCache
                       then [StoreSelected (s_Tag s) tag] else []) ++
                      map ConnClosed (map gi_conn (List.filter closes conns)) ++
                      (if hasCallback : bool then [OnProxySelected (s_Tag s) tag] else []) ++
                      (if hasHistory : bool then [HistoryUpdated] else [])
    end.
Proof.
  intros Hr. destruct (selector_reachable_wf s Hr) as [Hwf [d Hd]].
  pose proof Hwf as (H1 & H2 & H3 & Hobs & Hsel & Hig).
  split; [done|]. split.
  { exists d. split; [done|]. by destruct (Hobs _ _ (Hsel d Hd)). }
  intros hc hb hh. unfold SelectOutbound. destruct (s_outbounds s !! tag) as [o|] eqn:Ho; [|done].
  destruct (Hobs _ _ Ho) as [Ht _]. case_bool_decide as Hsame.
  - rewrite <- Hsame, set_s_selected_same. done.
  - rewrite (Interrupt_spec _ _ Hig : Interrupt (s_interruptExternalConnections (set_s_selected s (Some o)))
      (s_interruptGroup (set_s_selected s (Some o))) = _). done.
Qed.
End Reachable.
