(* ===== verification/URLTestGroups.v ===== *)
(** * The URL test outbound

    [protocol/group/urltest.go]: a group that measures its outbounds and uses
    the fastest one, with a tolerance against flapping.  Delays and the
    tolerance are [uint16] values and are added at that width.  The object of
    the group lives in the heap of [GroupCore], since selecting follows the
    selections of nested groups. *)

From stdpp Require Import base numbers list strings gmap option.
From Stdlib Require Import ZArith Lia.
From S2P Require Import Prelude ManagerCore GroupCore SelectorGroup.

Local Open Scope Z_scope.

(** Durations are in nanoseconds. *)
Definition DefaultURLTestInterval : Z := 180 * 1000000000.
Definition DefaultURLTestIdleTimeout : Z := 1800 * 1000000000.

(** Assignments to fields. *)
Definition set_g_selected (g : URLTestGroup) (tcp udp : option Member) : URLTestGroup :=
  mkURLTestGroup (g_outbounds g) (g_link g) (g_interval g) (g_tolerance g) (g_idleTimeout g) (g_checking g)
    tcp udp (g_interruptGroup g) (g_interruptExternalConnections g) (g_ticker g) (g_closed g)
    (g_started g) (g_lastActive g).
Definition set_g_interruptGroup (g : URLTestGroup) (i : IGroup) : URLTestGroup :=
  mkURLTestGroup (g_outbounds g) (g_link g) (g_interval g) (g_tolerance g) (g_idleTimeout g) (g_checking g)
    (g_selectedOutboundTCP g) (g_selectedOutboundUDP g) i (g_interruptExternalConnections g) (g_ticker g)
    (g_closed g) (g_started g) (g_lastActive g).
Definition set_g_checking (g : URLTestGroup) (b : bool) : URLTestGroup :=
  mkURLTestGroup (g_outbounds g) (g_link g) (g_interval g) (g_tolerance g) (g_idleTimeout g) b
    (g_selectedOutboundTCP g) (g_selectedOutboundUDP g) (g_interruptGroup g)
    (g_interruptExternalConnections g) (g_ticker g) (g_closed g) (g_started g) (g_lastActive g).
Definition set_g_ticker (g : URLTestGroup) (ticker : option nat) (closed started : bool) (lastActive : Z)
  : URLTestGroup :=
  mkURLTestGroup (g_outbounds g) (g_link g) (g_interval g) (g_tolerance g) (g_idleTimeout g) (g_checking g)
    (g_selectedOutboundTCP g) (g_selectedOutboundUDP g) (g_interruptGroup g)
    (g_interruptExternalConnections g) ticker closed started lastActive.

(** ** Construction *)

(** [NewURLTest] *)
Definition NewURLTest (tag : string) (outbounds : list string) (url : string)
    (interval tolerance idleTimeout : Z) (interrupt : bool) : Res URLTest :=
  match outbounds with
  | [] => Err (E_New [AStr "missing tags"])
  | _ => Ok (mkURLTest tag outbounds url interval tolerance idleTimeout interrupt None)
  end.

(** [NewURLTestGroup]; the zero time is 0. *)
Definition NewURLTestGroup (hasHistory : bool) (outbounds : list Member) (link : string)
    (interval tolerance idleTimeout : Z) (interruptExternalConnections : bool) : Res URLTestGroup :=
  let interval := if interval =? 0 then DefaultURLTestInterval else interval in
  let tolerance := if tolerance =? 0 then 50 else tolerance in
  let idleTimeout := if idleTimeout =? 0 then DefaultURLTestIdleTimeout else idleTimeout in
  if idleTimeout <? interval
  then Err (E_New [AStr "interval must be less or equal than idle_timeout"])
  else if negb hasHistory then Err (E_New [AStr "missing URL test history storage"])
  else Ok (mkURLTestGroup outbounds link interval tolerance idleTimeout false None None NewGroup
             interruptExternalConnections None false false 0).

(** The lookup loop of [URLTest.Start]. *)
Fixpoint lookup_outbounds (Outbound : string -> option Member) (i : Z) (l : list string)
  : Res (list Member) :=
  match l with
  | [] => Ok []
  | tag :: rest =>
      match Outbound tag with
      | None => Err (E_New [AStr "outbound "; AInt i; AStr " not found: "; AStr tag])
      | Some detour => outbounds ← lookup_outbounds Outbound (i + 1) rest; Ok (detour :: outbounds)
      end
  end.

(** [(s *URLTest) Start] *)
Definition URLTest_Start (hasHistory : bool) (Outbound : string -> option Member) (u : URLTest)
  : Res URLTest :=
  outbounds ← lookup_outbounds Outbound 0 (u_tags u);
  group ← NewURLTestGroup hasHistory outbounds (u_link u) (u_interval u) (u_tolerance u)
            (u_idleTimeout u) (u_interruptExternalConnections u);
  Ok (mkURLTest (u_Tag u) (u_tags u) (u_link u) (u_interval u) (u_tolerance u) (u_idleTimeout u)
        (u_interruptExternalConnections u) (Some group)).

(** ** Selection *)

Section Select.
Context {SH : SliceHelpers}.

(** [g.history.LoadURLTestHistory(RealTag(g.outbound, o))] *)
Definition load_delay (w : World) (o : Member) : Run (option URLTestHistory) :=
  tag ← RealTag w o; mret (LoadURLTestHistory (w_history w) tag).

(** The [switch]: the present choice is the first candidate if it has been
    measured.  A candidate is an outbound and its delay. *)
Definition present_candidate (w : World) (selected : option Member) : Run (option Member * Z) :=
  match selected with
  | None => mret (None, 0)
  | Some o =>
      history ← load_delay w o;
      mret (match history with Some h => (Some o, h_Delay h) | None => (None, 0) end)
  end.
Definition selected_for (g : URLTestGroup) (network : string) : option Member :=
  if bool_decide (network = "tcp") then g_selectedOutboundTCP g
  else if bool_decide (network = "udp") then g_selectedOutboundUDP g
  else None.

(** The loop over the measured outbounds. *)
Fixpoint select_loop (w : World) (network : string) (tolerance : Z) (l : list Member)
    (minOutbound : option Member) (minDelay : Z) : Run (option Member * Z) :=
  match l with
  | [] => mret (minOutbound, minDelay)
  | detour :: rest =>
      networks ← outbound_Network w detour;
      if negb (Contains networks network) then select_loop w network tolerance rest minOutbound minDelay
      else
        history ← load_delay w detour;
        match history with
        | None => select_loop w network tolerance rest minOutbound minDelay
        | Some h =>
            if (minDelay =? 0) || (u16 (h_Delay h + tolerance) <? minDelay)
            then select_loop w network tolerance rest (Some detour) (h_Delay h)
            else select_loop w network tolerance rest minOutbound minDelay
        end
  end.

(** The loop for the case that nothing has been measured. *)
Fixpoint first_supported (w : World) (network : string) (l : list Member) : Run (option Member) :=
  match l with
  | [] => mret None
  | detour :: rest =>
      networks ← outbound_Network w detour;
      if negb (Contains networks network) then first_supported w network rest
      else mret (Some detour)
  end.

(** [(g *URLTestGroup) Select] *)
Definition Select (w : World) (g : URLTestGroup) (network : string) : Run (option Member * bool) :=
  '(minOutbound, minDelay) ← present_candidate w (selected_for g network);
  '(minOutbound, _) ← select_loop w network (g_tolerance g) (g_outbounds g) minOutbound minDelay;
  match minOutbound with
  | None => o ← first_supported w network (g_outbounds g); mret (o, false)
  | Some o => mret (Some o, true)
  end.

(** The condition of the [if]s of [performUpdateCheck]. *)
Definition should_replace (selected outbound : option Member) (exists_ : bool) : bool :=
  negb (is_nil outbound) &&
  (is_nil selected || (exists_ && negb (bool_decide (outbound = selected)))).

(** The bodies of the [if]s. *)
Definition replace_tcp (g : URLTestGroup) (outbound : option Member) (exists_ : bool) : URLTestGroup :=
  if should_replace (g_selectedOutboundTCP g) outbound exists_
  then set_g_selected g outbound (g_selectedOutboundUDP g) else g.
Definition replace_udp (g : URLTestGroup) (outbound : option Member) (exists_ : bool) : URLTestGroup :=
  if should_replace (g_selectedOutboundUDP g) outbound exists_
  then set_g_selected g (g_selectedOutboundTCP g) outbound else g.

Definition put_group (w : World) (self : Member) (u : URLTest) (g : URLTestGroup) : World :=
  set_object w self (OURLTest (mkURLTest (u_Tag u) (u_tags u) (u_link u) (u_interval u) (u_tolerance u)
    (u_idleTimeout u) (u_interruptExternalConnections u) (Some g))).

(** [(g *URLTestGroup) performUpdateCheck], of the group [g] of [self]: the
    connections closed, and the world. *)
Definition performUpdateCheck (w : World) (self : Member) (u : URLTest) (g : URLTestGroup)
  : Run (list nat * URLTestGroup * World) :=
  '(outbound, exists_) ← Select w g "tcp";
  let updated := should_replace (g_selectedOutboundTCP g) outbound exists_ &&
                 negb (is_nil (g_selectedOutboundTCP g)) in
  let g := replace_tcp g outbound exists_ in
  let w := put_group w self u g in
  '(outbound, exists_) ← Select w g "udp";
  let updated := updated || (should_replace (g_selectedOutboundUDP g) outbound exists_ &&
                             negb (is_nil (g_selectedOutboundUDP g))) in
  let g := replace_udp g outbound exists_ in
  if updated then
    let '(closed, i) := Interrupt (g_interruptExternalConnections g) (g_interruptGroup g) in
    let g := set_g_interruptGroup g i in
    mret (closed, g, put_group w self u g)
  else mret ([], g, put_group w self u g).

(** ** What is selected *)

(** [o] can be used for a network, and the last test of its real outbound
    took [d] milliseconds. *)
Definition supports (w : World) (network : string) (o : Member) : Prop :=
  exists networks, outbound_Network w o = Done (Ok networks) /\ network ∈ networks.
Definition measured (w : World) (o : Member) (d : Z) : Prop :=
  exists h, load_delay w o = Done (Ok (Some h)) /\ h_Delay h = d.

Section Spec.
Context (w : World) (order : list Member) (network : string) (tolerance : Z).
Hypothesis Hw : consistent w order.

Lemma load_delay_total o : o ∈ order -> exists h, load_delay w o = Done (Ok h).
Proof.
  intros Ho. destruct (RealTag_total w order Hw o Ho) as (t & Ht & _).
  exists (LoadURLTestHistory (w_history w) t). unfold load_delay. by rewrite Ht.
Qed.

Lemma measured_fun o d d' : measured w o d -> measured w o d' -> d = d'.
Proof. intros (h & Hh & <-) (h' & Hh' & <-). congruence. Qed.

(** The delays of [l] are positive and the sum with the tolerance fits. *)
Definition fits (l : list Member) : Prop :=
  0 <= tolerance /\
  forall o d, o ∈ l -> measured w o d -> 0 < d /\ d + tolerance < 2 ^ 16.

(** A candidate: nothing yet, or a measured outbound. *)
Definition candidate (c : option Member) (d : Z) : Prop :=
  match c with None => d = 0 | Some o => 0 < d /\ measured w o d end.

(** How a scan of [l] takes the candidate [c] with delay [d] to [c'], [d']. *)
Definition scanned (l : list Member) (c : option Member) (d : Z) (c' : option Member) (d' : Z) : Prop :=
  candidate c' d' /\
  (c' = None -> c = None /\ forall o dd, o ∈ l -> supports w network o -> ~ measured w o dd) /\
  (c' = c /\ d' = d \/
   exists o, c' = Some o /\ o ∈ l /\ supports w network o /\ (c = None \/ d' + tolerance < d)) /\
  (forall o dd, o ∈ l -> supports w network o -> measured w o dd -> d' <= dd + tolerance).

Lemma scanned_skip o l c d c' d' :
  (forall dd, supports w network o -> measured w o dd -> c' <> None /\ d' <= dd + tolerance) ->
  scanned l c d c' d' -> scanned (o :: l) c d c' d'.
Proof.
  intros Ho (Hc & Hn & Hcase & Hmin). split; [done|]. split; [|split].
  - intros E. destruct (Hn E) as [-> Hall]. split; [done|].
    intros x dd [->|Hx]%elem_of_cons; [intros Hs Hm; by destruct (Ho dd Hs Hm)|by apply Hall].
  - destruct Hcase as [?|(x & ? & ? & ?)]; [by left|right; exists x; split; [done|]; split; [by right|done]].
  - intros x dd [->|Hx]%elem_of_cons Hs Hm; [by apply Ho|by eapply Hmin].
Qed.

Lemma scanned_take o l c d dd c' d' :
  0 <= tolerance -> supports w network o -> measured w o dd -> candidate c d ->
  (d =? 0) || (dd + tolerance <? d) = true ->
  scanned l (Some o) dd c' d' -> scanned (o :: l) c d c' d'.
Proof.
  intros Ht Hs Hm Hc Eb (Hc' & Hn & Hcase & Hmin).
  assert (Hd' : d' <= dd) by (destruct Hcase as [[_ ->]|(x & _ & _ & _ & [?|?])]; [lia|done|lia]).
  assert (Hcd : c = None \/ d' + tolerance < d).
  { apply orb_true_iff in Eb as [Eb%Z.eqb_eq|Eb%Z.ltb_lt]; [|right; lia]. left.
    destruct c; [cbn in Hc; lia|done]. }
  split; [done|]. split; [intros E; by destruct (Hn E)|]. split.
  - right. destruct Hcase as [[-> _]|(x & -> & Hx & Hsx & _)];
      [exists o; split; [done|]; split; [left|done]|exists x; split; [done|]; split; [by right|done]].
  - intros x dx [->|Hx]%elem_of_cons Hsx Hmx; [|by eapply Hmin]. rewrite (measured_fun _ _ _ Hmx Hm). lia.
Qed.

Lemma select_loop_spec l c d :
  l ⊆ order -> fits l -> candidate c d ->
  exists c' d', select_loop w network tolerance l c d = Done (Ok (c', d')) /\ scanned l c d c' d'.
Proof.
  revert c d. induction l as [|o l IH]; intros c d Hsub [Ht Hf] Hc; cbn [select_loop].
  { exists c, d. split; [done|]. split; [done|]. split; [intros ->; set_solver|]. split; [by left|set_solver]. }
  assert (Ho : o ∈ order) by (apply Hsub; left).
  assert (IH' : forall c d, candidate c d -> exists c' d',
            select_loop w network tolerance l c d = Done (Ok (c', d')) /\ scanned l c d c' d').
  { intros c0 d0. apply IH; [intros x Hx; apply Hsub; by right|].
    split; [done|]. intros x dd Hx. apply Hf. by right. }
  destruct (IH' c d Hc) as (c' & d' & Hl & Hs').
  destruct (outbound_Network_total w order Hw o Ho) as (ns & Hns). rewrite Hns. cbn [mbind run_bind].
  rewrite Contains_law. case_bool_decide as Hin; cbn [negb].
  2: { exists c', d'. split; [done|]. apply scanned_skip; [|done].
       intros dd (ns' & E & ?). congruence. }
  destruct (load_delay_total o Ho) as (h & Hh). rewrite Hh. cbn [mbind run_bind].
  destruct h as [h|].
  2: { exists c', d'. split; [done|]. apply scanned_skip; [|done]. intros dd _ (h' & E & _). congruence. }
  assert (Hso : supports w network o) by (by exists ns).
  assert (Hm : measured w o (h_Delay h)) by (by exists h).
  destruct (Hf o _ ltac:(left) Hm) as [Hpos Hlt]. rewrite wrap_small by (split; lia).
  destruct ((d =? 0) || _) eqn:Eb.
  - destruct (IH' (Some o) (h_Delay h)) as (c2 & d2 & Hl2 & Hs2); [done|].
    exists c2, d2. split; [done|]. by eapply scanned_take.
  - exists c', d'. split; [done|]. apply scanned_skip; [|done]. intros dd _ Hmd.
    apply orb_false_iff in Eb as [E1%Z.eqb_neq E2%Z.ltb_ge]. rewrite (measured_fun _ _ _ Hmd Hm).
    destruct Hs' as (_ & Hn & Hcase & _). split.
    + intros E. destruct (Hn E) as [-> _]. cbn in Hc. lia.
    + destruct Hcase as [[_ ->]|(x & _ & _ & _ & [->|?])]; [lia|cbn in Hc; lia|lia].
Qed.

Lemma first_supported_spec l :
  l ⊆ order ->
  exists r, first_supported w network l = Done (Ok r) /\
    match r with
    | None => forall o, o ∈ l -> ~ supports w network o
    | Some o => exists l1 l2, l = l1 ++ o :: l2 /\ supports w network o /\
                  forall x, x ∈ l1 -> ~ supports w network x
    end.
Proof.
  induction l as [|o l IH]; intros Hsub; cbn [first_supported]; [exists None; split; [done|set_solver]|].
  assert (Ho : o ∈ order) by (apply Hsub; left).
  destruct (outbound_Network_total w order Hw o Ho) as (ns & Hns). rewrite Hns. cbn [mbind run_bind].
  rewrite Contains_law. case_bool_decide as Hin; cbn [negb].
  - exists (Some o). split; [done|]. exists [], l. split; [done|]. split; [by exists ns|set_solver].
  - assert (Hno : ~ supports w network o) by (intros (ns' & E & ?); congruence).
    destruct IH as (r & -> & Hr); [intros x Hx; apply Hsub; by right|]. exists r. split; [done|].
    destruct r as [x|].
    + destruct Hr as (l1 & l2 & -> & Hs & Hl1). exists (o :: l1), l2. split; [done|]. split; [done|].
      intros y [->|Hy]%elem_of_cons; [done|by apply Hl1].
    + intros y [->|Hy]%elem_of_cons; [done|by apply Hr].
Qed.

Lemma present_candidate_spec s :
  (forall o, s = Some o -> o ∈ order /\ forall d, measured w o d -> 0 < d) ->
  exists c d, present_candidate w s = Done (Ok (c, d)) /\ candidate c d /\
    (c = None -> forall o d, s = Some o -> ~ measured w o d) /\ (c = None \/ c = s).
Proof.
  intros Hs. destruct s as [o|]; cbn [present_candidate]; [|exists None, 0; split; [done|]; split; [done|]; split; [done|by left]].
  destruct (Hs o eq_refl) as [Ho Hpos]. destruct (load_delay_total o Ho) as (h & Hh). rewrite Hh.
  destruct h as [h|]; cbn [mbind run_bind].
  - exists (Some o), (h_Delay h). split; [done|]. assert (Hm : measured w o (h_Delay h)) by (by exists h).
    split; [split; [by apply Hpos|done]|]. split; [done|by right].
  - exists None, 0. split; [done|]. split; [done|]. split; [|by left].
    intros _ x d [= <-] (h' & E & _). congruence.
Qed.
End Spec.

(** What [Select] promises: with [true], a measured outbound whose delay no
    other supported one beats by more than the tolerance, and which replaces
    the present choice only if it beats it by more; with [false], the first
    supported outbound, and nothing is measured; or nothing. *)
Definition best_choice (w : World) (g : URLTestGroup) (network : string) (r : option Member) (e : bool)
  : Prop :=
  match r, e with
  | Some o, true =>
      o ∈ g_outbounds g /\ exists d, measured w o d /\
      (forall o' d', o' ∈ g_outbounds g -> supports w network o' -> measured w o' d' ->
         d <= d' + g_tolerance g) /\
      (selected_for g network = Some o \/
       supports w network o /\
       forall s ds, selected_for g network = Some s -> measured w s ds -> d + g_tolerance g < ds)
  | Some o, false =>
      (forall o' d', o' ∈ g_outbounds g -> supports w network o' -> ~ measured w o' d') /\
      exists l1 l2, g_outbounds g = l1 ++ o :: l2 /\ supports w network o /\
        forall x, x ∈ l1 -> ~ supports w network x
  | None, e => e = false /\ forall o, o ∈ g_outbounds g -> ~ supports w network o
  end.

Lemma selected_for_in w m g network o :
  group_wf w m g -> selected_for g network = Some o -> o ∈ g_outbounds g.
Proof.
  intros (_ & Htcp & Hudp & _). unfold selected_for.
  case_bool_decide; [apply Htcp|]. case_bool_decide; [apply Hudp|done].
Qed.

Lemma group_members w order m g :
  consistent w order -> group_wf w m g -> g_outbounds g ⊆ order.
Proof.
  intros Hw (Hm & _) o Ho. rewrite list.Forall_forall in Hm. destruct (Hm o Ho) as [Hk _].
  by apply (cons_index _ _ Hw) in Hk as [? _].
Qed.

Lemma Select_spec w order m g network :
  consistent w order -> group_wf w m g -> fits w (g_tolerance g) (g_outbounds g) ->
  exists r e, Select w g network = Done (Ok (r, e)) /\ best_choice w g network r e.
Proof.
  intros Hw Hg Hfits. pose proof (group_members w order m g Hw Hg) as Hsub.
  destruct (present_candidate_spec w order Hw (selected_for g network)) as (c & d & Hp & Hc & Hcn & Hcs).
  { intros o Ho. apply (selected_for_in w m) in Ho; [|done]. split; [by apply Hsub|].
    intros d Hd. by destruct (proj2 Hfits o d Ho Hd). }
  destruct (select_loop_spec w order network (g_tolerance g) Hw (g_outbounds g) c d Hsub Hfits Hc)
    as (c' & d' & Hl & Hc' & Hn & Hcase & Hmin).
  unfold Select. rewrite Hp. cbn [mbind run_bind]. rewrite Hl. cbn [mbind run_bind].
  destruct c' as [o|].
  - exists (Some o), true. split; [done|]. destruct Hc' as [Hpos Hm].
    destruct Hcase as [[E ->]|(x & [= <-] & Hin & Hs & Hlt)].
    + destruct Hcs as [-> | ->]; [done|]. symmetry in E.
      split; [by eapply selected_for_in|]. exists d. split; [done|]. split; [done|]. by left.
    + split; [done|]. exists d'. split; [done|]. split; [done|]. right. split; [done|].
      intros s ds Hsel Hms. destruct c as [y|]; [|by destruct (Hcn eq_refl _ _ Hsel Hms)].
      destruct Hcs as [?|Hcs]; [done|]. destruct Hlt as [?|Hlt]; [done|]. destruct Hc as [_ Hmy].
      rewrite Hsel in Hcs. injection Hcs as <-. by rewrite (measured_fun _ _ _ _ Hms Hmy).
  - destruct (Hn eq_refl) as [-> Hall].
    destruct (first_supported_spec w order network Hw (g_outbounds g) Hsub) as (r & Hr & Hspec).
    rewrite Hr. exists r, false. split; [done|]. destruct r as [o|]; [|done]. done.
Qed.

(** ** Updates *)

Lemma put_group_object w self u g :
  object (put_group w self u g) self =
  OURLTest (mkURLTest (u_Tag u) (u_tags u) (u_link u) (u_interval u) (u_tolerance u) (u_idleTimeout u)
              (u_interruptExternalConnections u) (Some g)).
Proof. apply object_set_object_same. Qed.

Lemma put_group_consistent w order self u g :
  consistent w order -> distinct order -> self ∈ order -> object w self = OURLTest u ->
  group_wf w self g -> consistent (put_group w self u g) order.
Proof.
  intros Hw Hd Hs Hu Hg. apply set_object_consistent; [done..|].
  pose proof (cons_objects _ _ Hw _ _ (cons_known _ _ Hw self Hs)) as Ho. rewrite Hu in Ho.
  destruct Ho as (H1 & H2 & _). cbn. split; [done|]. split; [done|]. by exists g.
Qed.

Lemma replaced_wf w self g tcp udp :
  group_wf w self g -> (forall o, tcp = Some o -> o ∈ g_outbounds g) ->
  (forall o, udp = Some o -> o ∈ g_outbounds g) -> group_wf w self (set_g_selected g tcp udp).
Proof. intros (H1 & _ & _ & H4) Ht Hu. split; [done|]. split; [done|]. by split. Qed.

Lemma best_choice_in w g network o e : best_choice w g network (Some o) e -> o ∈ g_outbounds g.
Proof.
  destruct e; [by intros [? _]|]. intros (_ & l1 & l2 & -> & _). apply elem_of_app. right. left.
Qed.

Lemma replace_tcp_spec g r e :
  let g' := replace_tcp g r e in
  g_outbounds g' = g_outbounds g /\ g_tolerance g' = g_tolerance g /\
  g_selectedOutboundUDP g' = g_selectedOutboundUDP g /\
  g_selectedOutboundTCP g' =
    (if should_replace (g_selectedOutboundTCP g) r e then r else g_selectedOutboundTCP g) /\
  g_interruptGroup g' = g_interruptGroup g /\
  g_interruptExternalConnections g' = g_interruptExternalConnections g.
Proof. unfold replace_tcp. by destruct (should_replace (g_selectedOutboundTCP g) r e). Qed.

Lemma replace_udp_spec g r e :
  let g' := replace_udp g r e in
  g_outbounds g' = g_outbounds g /\ g_selectedOutboundTCP g' = g_selectedOutboundTCP g /\
  g_selectedOutboundUDP g' =
    (if should_replace (g_selectedOutboundUDP g) r e then r else g_selectedOutboundUDP g) /\
  g_interruptGroup g' = g_interruptGroup g /\
  g_interruptExternalConnections g' = g_interruptExternalConnections g.
Proof. unfold replace_udp. by destruct (should_replace (g_selectedOutboundUDP g) r e). Qed.

Section Update.
Context (w : World) (order : list Member) (self : Member) (u : URLTest) (g : URLTestGroup).
Hypothesis Hw : consistent w order.
Hypothesis Hd : distinct order.
Hypothesis Hself : self ∈ order.
Hypothesis Hu : object w self = OURLTest u.
Hypothesis Hg : group_wf w self g.

(** Delays and networks of the members are the same after an update. *)
Lemma put_group_below g' o :
  o ∈ g_outbounds g ->
  (forall d, measured (put_group w self u g') o d <-> measured w o d) /\
  (forall n, supports (put_group w self u g') n o <-> supports w n o).
Proof.
  intros Ho. destruct Hg as [Hm _]. rewrite list.Forall_forall in Hm.
  destruct (unchanged_below w order Hw self (OURLTest (mkURLTest (u_Tag u) (u_tags u) (u_link u) (u_interval u)
    (u_tolerance u) (u_idleTimeout u) (u_interruptExternalConnections u) (Some g'))) o Hd Hself (Hm o Ho)) as [H1 H2].
  unfold measured, supports, load_delay, put_group. split; [intros d|intros n].
  - rewrite H1. done.
  - rewrite H2. done.
Qed.

Lemma put_group_best g' network r e :
  g_outbounds g' = g_outbounds g -> g_tolerance g' = g_tolerance g ->
  selected_for g' network = selected_for g network ->
  best_choice (put_group w self u g') g' network r e -> best_choice w g network r e.
Proof.
  intros Eo Et Es. unfold best_choice. rewrite Eo, Et, Es.
  assert (Hm : forall o d, o ∈ g_outbounds g -> measured (put_group w self u g') o d <-> measured w o d).
  { intros o d Ho. by apply put_group_below. }
  assert (Hn : forall o, o ∈ g_outbounds g -> supports (put_group w self u g') network o <-> supports w network o).
  { intros o Ho. by apply put_group_below. }
  destruct r as [o|]; [destruct e|].
  - intros (Ho & d & Hmd & Hmin & Hc). split; [done|]. exists d. split; [by apply Hm|]. split.
    + intros o' d' Ho' Hs' Hm'. apply (Hmin o'); [done|by apply Hn|by apply Hm].
    + destruct Hc as [?|[Hs Hc]]; [by left|right]. split; [by apply Hn|].
      intros s ds Hsel Hms. apply (Hc s); [done|]. apply Hm; [|done]. by eapply selected_for_in.
  - intros (Hno & l1 & l2 & El & Hs & Hl1). split.
    + intros o' d' Ho' Hs' Hm'. apply (Hno o' d'); [done|by apply Hn|by apply Hm].
    + exists l1, l2. split; [done|]. split; [apply Hn; [rewrite El; apply elem_of_app; right; left|done]|].
      intros x Hx Hsx. apply (Hl1 x Hx). apply Hn; [|done]. rewrite El. apply elem_of_app. by left.
  - intros [-> Hno]. split; [done|]. intros o Ho Hs. by apply (Hno o Ho), Hn.
Qed.

(** What becomes of the choice for a network. *)
Definition next_choice (network : string) (s' : option Member) : Prop :=
  exists r e, best_choice w g network r e /\
    s' = if should_replace (selected_for g network) r e then r else selected_for g network.

(** A choice was replaced by another. *)
Definition changed (s s' : option Member) : bool := negb (is_nil s) && negb (bool_decide (s' = s)).

(** The connections [closed], and the others kept, if a choice was replaced. *)
Definition interrupted (g' : URLTestGroup) (closed : list nat) : Prop :=
  let conns := ig_connections (g_interruptGroup g) in
  let closes := hit (g_interruptExternalConnections g) in
  if changed (g_selectedOutboundTCP g) (g_selectedOutboundTCP g') ||
     changed (g_selectedOutboundUDP g) (g_selectedOutboundUDP g')
  then closed = map gi_conn (List.filter closes conns) /\
       ig_connections (g_interruptGroup g') = List.filter (fun c => negb (closes c)) conns
  else closed = [] /\ g_interruptGroup g' = g_interruptGroup g.

Lemma should_replace_changed s r e :
  should_replace s r e && negb (is_nil s) = changed s (if should_replace s r e then r else s).
Proof.
  unfold should_replace, changed. destruct s as [x|]; cbn; [|by rewrite andb_false_r].
  destruct r as [y|]; cbn; [|by rewrite bool_decide_eq_true_2]. destruct e; cbn.
  - destruct (bool_decide_reflect (Some y = Some x)) as [E|E]; cbn.
    + by rewrite bool_decide_eq_true_2.
    + by rewrite bool_decide_eq_false_2.
  - by rewrite bool_decide_eq_true_2.
Qed.

Lemma replaced_in network s r e o :
  best_choice w g network r e -> s = selected_for g network ->
  (if should_replace s r e then r else s) = Some o -> o ∈ g_outbounds g.
Proof.
  intros Hb -> E. destruct (should_replace _ r e); [subst; by eapply best_choice_in|].
  by eapply selected_for_in.
Qed.

Lemma put_group_twice g1 g2 : put_group (put_group w self u g1) self u g2 = put_group w self u g2.
Proof. unfold put_group, set_object. cbn. by rewrite insert_insert_eq. Qed.

Lemma performUpdateCheck_spec :
  fits w (g_tolerance g) (g_outbounds g) ->
  exists closed g', performUpdateCheck w self u g = Done (Ok (closed, g', put_group w self u g')) /\
    next_choice "tcp" (g_selectedOutboundTCP g') /\ next_choice "udp" (g_selectedOutboundUDP g') /\
    interrupted g' closed /\ group_wf w self g'.
Proof.
  intros Hfits. destruct (Select_spec w order self g "tcp" Hw Hg Hfits) as (r1 & e1 & Hs1 & Hb1).
  unfold performUpdateCheck. rewrite Hs1. cbn [mbind run_bind]. cbv zeta.
  destruct (replace_tcp_spec g r1 e1) as (Eo & Et & Eu & Etcp & Ei & Ee).
  remember (replace_tcp g r1 e1) as g1 eqn:Hg1def.
  assert (Hg1 : group_wf w self g1).
  { destruct Hg as (H1 & H2 & H3 & H4). split; [by rewrite Eo|]. rewrite Eo, Eu, Ei.
    split; [|done]. intros o. rewrite Etcp. by eapply (replaced_in "tcp"). }
  pose proof (put_group_consistent w order self u g1 Hw Hd Hself Hu Hg1) as Hw1.
  assert (Hfits1 : fits (put_group w self u g1) (g_tolerance g1) (g_outbounds g1)).
  { rewrite Et, Eo. destruct Hfits as [Ht Hf]. split; [done|]. intros o d Ho Hm.
    apply Hf with o; [done|]. by apply put_group_below in Hm. }
  destruct (Select_spec _ order self g1 "udp" Hw1 Hg1 Hfits1) as (r2 & e2 & Hs2 & Hb2).
  apply put_group_best in Hb2; [|done|done|unfold selected_for; cbn; by rewrite Eu].
  rewrite Hs2. cbn [mbind run_bind]. rewrite !should_replace_changed, <- Etcp.
  destruct (replace_udp_spec g1 r2 e2) as (Eo2 & Etcp2 & Eu2 & Ei2 & Ee2).
  remember (replace_udp g1 r2 e2) as g2 eqn:Hg2def. rewrite Ei in Ei2. rewrite Ee in Ee2. rewrite Eo in Eo2.
  rewrite <- Eu2, Eu, <- Etcp2. rewrite Eu in Eu2. rewrite Etcp in Etcp2.
  assert (Hg2 : group_wf w self g2).
  { split; [rewrite Eo2; apply Hg|]. rewrite Eo2, Ei2. split; [|split; [|apply Hg]]; intros o.
    - rewrite Etcp2. by eapply (replaced_in "tcp").
    - rewrite Eu2. by eapply (replaced_in "udp"). }
  assert (Hn1 : next_choice "tcp" (g_selectedOutboundTCP g2)) by (by exists r1, e1).
  assert (Hn2 : next_choice "udp" (g_selectedOutboundUDP g2)) by (by exists r2, e2).
  rewrite put_group_twice. destruct (changed _ _ || changed _ _) eqn:Ec.
  - rewrite Ei2, Ee2, Interrupt_spec by apply Hg. rewrite put_group_twice.
    eexists _, _. split; [reflexivity|]. split; [done|]. split; [done|].
    split; [unfold interrupted; cbn; by rewrite Ec|].
    destruct Hg2 as (H1 & H2 & H3 & _). split; [done|]. split; [done|]. split; [done|]. by apply filter_wf, Hg.
  - eexists _, _. split; [reflexivity|]. split; [done|]. split; [done|].
    split; [unfold interrupted; rewrite Ec; by rewrite Ei2|done].
Qed.

(** C18: after [performUpdateCheck] the group uses, for TCP and for UDP, an
    outbound that no other measured one beats by more than the tolerance, as
    soon as one that supports the network is measured.  A choice that has itself
    been measured is only left for one that beats it by more than the tolerance (one
    that has not may be left for any measured one).  Connections are closed exactly
    when a choice was replaced.  This holds for a group in a consistent configuration,
    for delays that are positive and whose sum with the tolerance stays below 65536
    ([fits]; [slow_outbound_preferred] shows what happens otherwise), and the check
    then returns. *)
Theorem update_check_selects_best :
  fits w (g_tolerance g) (g_outbounds g) ->
  exists closed g', performUpdateCheck w self u g = Done (Ok (closed, g', put_group w self u g')) /\
    consistent (put_group w self u g') order /\ interrupted g' closed /\
    forall network, network = "tcp" \/ network = "udp" ->
    forall o d, o ∈ g_outbounds g -> supports w network o -> measured w o d ->
    exists best db, selected_for g' network = Some best /\ best ∈ g_outbounds g /\ measured w best db /\
      (forall o' d', o' ∈ g_outbounds g -> supports w network o' -> measured w o' d' ->
         db <= d' + g_tolerance g) /\
      (selected_for g network = Some best \/
       forall s ds, selected_for g network = Some s -> measured w s ds -> db + g_tolerance g < ds).
Proof.
  intros Hfits. destruct (performUpdateCheck_spec Hfits) as (closed & g' & Hrun & Htcp & Hudp & Hi & Hg').
  exists closed, g'. split; [done|]. split; [by apply put_group_consistent|]. split; [done|].
  intros network Hnet o d Ho Hs Hm.
  assert (Hnext : next_choice network (selected_for g' network)) by (destruct Hnet as [-> | ->]; done).
  destruct Hnext as (r & e & Hb & Hsel). destruct r as [best|]; [destruct e|].
  - destruct Hb as (Hin & db & Hmb & Hmin & Hmove). exists best, db. split; [|split; [done|split; [done|split]]].
    + rewrite Hsel. unfold should_replace. cbn. destruct (selected_for g network) as [s|]; [|done]. cbn.
      destruct (bool_decide_reflect (Some best = Some s)) as [E|E]; by rewrite ?E.
    + done.
    + destruct Hmove as [?|[_ ?]]; [by left|by right].
  - destruct Hb as [Hno _]. by destruct (Hno o d Ho Hs Hm).
  - destruct Hb as [_ Hno]. by destruct (Hno o Ho).
Qed.
End Update.
End Select.
