(* ===== verification/URLTestLoop.v ===== *)
(** * Life cycle and tests of the URL test outbound

    The rest of [protocol/group/urltest.go]: the goroutine that repeats the
    tests while the group is used ([Touch], [loopCheck], [Close]) as a state
    machine, and which outbounds a round of tests measures
    ([urlTestBatch.test]). *)

From stdpp Require Import base numbers list strings gmap option.
From Stdlib Require Import ZArith Lia.
From S2P Require Import Prelude ManagerCore GroupCore SelectorGroup URLTestGroups.

Local Open Scope Z_scope.

(** ** The loop of a group *)

(** [(g *URLTestGroup) PostStart] *)
Definition PostStart (now : Z) (g : URLTestGroup) : URLTestGroup :=
  set_g_ticker g (g_ticker g) (g_closed g) true now.

(** [(g *URLTestGroup) Touch]; [ticker] is the ticker it would create, which is
    returned if a loop for it was started. *)
Definition Touch (ticker : nat) (now : Z) (g : URLTestGroup) : option nat * URLTestGroup :=
  if negb (g_started g) then (None, g)
  else match g_ticker g with
       | Some t => (None, set_g_ticker g (Some t) (g_closed g) (g_started g) now)
       | None => (Some ticker, set_g_ticker g (Some ticker) (g_closed g) (g_started g) (g_lastActive g))
       end.

(** [(g *URLTestGroup) Close] *)
Definition URLTestGroup_Close (g : URLTestGroup) : Res unit * URLTestGroup :=
  match g_ticker g with
  | None => (Ok tt, g)
  | Some _ =>
      let r := if g_closed g then Panic "close of closed channel" else Ok tt in
      (r, set_g_ticker g None true (g_started g) (g_lastActive g))
  end.

(** [loopCheck] before its loop: whether it tests the outbounds. *)
Definition loopCheck_enter (now : Z) (g : URLTestGroup) : bool * URLTestGroup :=
  if g_interval g <? now - g_lastActive g
  then (true, set_g_ticker g (g_ticker g) (g_closed g) (g_started g) now)
  else (false, g).

(** [loopCheck] after a tick of its ticker: whether it goes on (and tests the
    outbounds), or has ended. *)
Definition loopCheck_tick (ticker : nat) (now : Z) (g : URLTestGroup) : bool * URLTestGroup :=
  if g_idleTimeout g <? now - g_lastActive g then
    (false, if bool_decide (g_ticker g = Some ticker)
            then set_g_ticker g None (g_closed g) (g_started g) (g_lastActive g) else g)
  else (true, g).

(** A group with the loops that run, by their ticker, and the next ticker. *)
Record Loops := mkLoops { l_group : URLTestGroup; l_running : gset nat; l_next : nat }.

(** What can happen to a group.  A tick may arrive after its ticker was
    stopped; a loop ends at any time after the channel was closed. *)
Inductive loop_step : Loops -> Loops -> Prop :=
  | step_post_start now s :
      loop_step s (mkLoops (PostStart now (l_group s)) (l_running s) (l_next s))
  | step_touch now s r g :
      Touch (l_next s) now (l_group s) = (r, g) ->
      loop_step s (mkLoops g (match r with Some t => {[t]} ∪ l_running s | None => l_running s end)
                     (S (l_next s)))
  | step_enter ticker now s b g :
      ticker ∈ l_running s -> loopCheck_enter now (l_group s) = (b, g) ->
      loop_step s (mkLoops g (l_running s) (l_next s))
  | step_tick ticker now s g b :
      ticker ∈ l_running s -> loopCheck_tick ticker now (l_group s) = (b, g) ->
      loop_step s (mkLoops g (if b then l_running s else l_running s ∖ {[ticker]}) (l_next s))
  | step_closed ticker s :
      ticker ∈ l_running s -> g_closed (l_group s) = true ->
      loop_step s (mkLoops (l_group s) (l_running s ∖ {[ticker]}) (l_next s))
  | step_close s r g :
      URLTestGroup_Close (l_group s) = (r, g) -> loop_step s (mkLoops g (l_running s) (l_next s)).

(** A group that was just built. *)
Definition fresh_loops (s : Loops) : Prop :=
  g_ticker (l_group s) = None /\ g_closed (l_group s) = false /\ l_running s = ∅.

(** Until the channel is closed, a loop runs exactly when there is a ticker. *)
Definition loops_wf (s : Loops) : Prop :=
  (forall t, t ∈ l_running s \/ g_ticker (l_group s) = Some t -> (t < l_next s)%nat) /\
  (g_closed (l_group s) = false ->
   l_running s = match g_ticker (l_group s) with Some t => {[t]} | None => ∅ end).

Lemma loop_step_wf s s' : loops_wf s -> loop_step s s' -> loops_wf s'.
Proof.
  intros [Hlt Hrun] Hstep.
  destruct Hstep as [now s|now s r g Ht|ticker now s b g Hin He|ticker now s g b Hin Ht
                    |ticker s Hin Hc|s r g Hc]; unfold loops_wf; cbn [l_group l_running l_next].
  - done.
  - unfold Touch in Ht. destruct (negb (g_started (l_group s))) eqn:Es.
    { injection Ht as <- <-. split; [intros t Hq; specialize (Hlt t Hq); lia|done]. }
    destruct (g_ticker (l_group s)) as [t0|] eqn:Et; injection Ht as <- <-; cbn.
    + split; [intros t Hq; specialize (Hlt t Hq); lia|done].
    + split.
      * intros t [Hq|[= <-]]; [|lia]. apply elem_of_union in Hq as [Hq|Hq]; [set_solver by lia|].
        specialize (Hlt t (or_introl Hq)). lia.
      * intros Hc. rewrite (Hrun Hc). set_solver.
  - unfold loopCheck_enter in He. destruct (_ <? _); injection He as <- <-; done.
  - unfold loopCheck_tick in Ht. destruct (_ <? _); injection Ht as <- <-; [|done].
    case_bool_decide as Hsame; cbn.
    + split; [intros t [Hq|Hq]; [|done]; apply Hlt; set_solver|].
      intros Hc. rewrite (Hrun Hc), Hsame. set_solver.
    + split; [intros t [Hq|Hq]; apply Hlt; set_solver|]. intros Hc. exfalso. apply Hsame.
      rewrite (Hrun Hc) in Hin. destruct (g_ticker (l_group s)) as [t0|]; set_solver.
  - split; [intros t [Hq|Hq]; apply Hlt; set_solver|]. congruence.
  - unfold URLTestGroup_Close in Hc. destruct (g_ticker (l_group s)) as [t0|] eqn:Et; injection Hc as <- <-; cbn.
    + split; [|done]. intros t [Hq|Hq]; [|done]. apply Hlt. by left.
    + rewrite Et. done.
Qed.

(** The tests of a URL test group are repeated by one goroutine at most: as
    long as the group is not closed, a loop runs exactly when a ticker is
    installed, whatever the order of uses, ticks and idle expirations; [Close]
    then succeeds, and closing again without a use in between does nothing. *)
Theorem one_loop_runs s0 s :
  fresh_loops s0 -> rtc loop_step s0 s -> g_closed (l_group s) = false ->
  l_running s = match g_ticker (l_group s) with Some t => {[t]} | None => ∅ end /\
  fst (URLTestGroup_Close (l_group s)) = Ok tt /\
  (let g := snd (URLTestGroup_Close (l_group s)) in URLTestGroup_Close g = (Ok tt, g)).
Proof.
  intros (H1 & H2 & H3) Hr Hc.
  assert (Hwf : loops_wf s).
  { assert (H0 : loops_wf s0).
    { split; rewrite H1, H3; [intros t [?|?]; [set_solver|done]|done]. }
    clear -H0 Hr. induction Hr as [s|a b c Hs Hr IH]; [done|]. apply IH. by eapply loop_step_wf. }
  split; [by apply Hwf|]. unfold URLTestGroup_Close.
  destruct (g_ticker (l_group s)) as [t|] eqn:Et; cbn; rewrite ?Hc, ?Et; done.
Qed.

(** A use after [Close] installs a ticker on the closed channel, and the next
    [Close] panics. *)
Lemma close_after_use_panics g ticker now r1 g1 r2 g2 :
  g_started g = true -> g_ticker g <> None -> URLTestGroup_Close g = (r1, g1) ->
  Touch ticker now g1 = (r2, g2) -> fst (URLTestGroup_Close g2) = Panic "close of closed channel".
Proof.
  intros Hs Ht Hc Hu. unfold URLTestGroup_Close in Hc. destruct (g_ticker g); [|done].
  injection Hc as _ <-. unfold Touch in Hu. cbn in Hu. rewrite Hs in Hu. injection Hu as _ <-. done.
Qed.

(** ** Connections *)

Section Dial.
Context {SH : SliceHelpers}.
(** [N.NetworkName] and [N.ErrUnknownNetwork] of sing. *)
Context (NetworkName : string -> string) (ErrUnknownNetwork : error).

(** The end of [DialContext] and of [ListenPacket]: [dial] is the call to the
    chosen outbound. *)
Definition dial_outbound (dial : Member -> Res nat) (isExternal : bool) (w : World) (self : Member)
    (u : URLTest) (g : URLTestGroup) (outbound : option Member) : Res (nat * nat) * World :=
  match outbound with
  | None => (Err (E_New [AStr "missing supported outbound"]), w)
  | Some o =>
      match dial o with
      | Ok conn =>
          let '(element, i) := NewConn (g_interruptGroup g) conn isExternal in
          (Ok (element, conn), put_group w self u (set_g_interruptGroup g i))
      | Err e => (Err e, set_history w (DeleteURLTestHistory (w_history w) (m_Tag o)))
      | Panic msg => (Panic msg, w)
      end
  end.

(** [(s *URLTest) DialContext] *)
Definition URLTest_DialContext (dial : Member -> Res nat) (isExternal : bool) (ticker : nat) (now : Z)
    (w : World) (self : Member) (u : URLTest) (g : URLTestGroup) (network : string)
  : Run (Res (nat * nat) * World) :=
  let '(_, g) := Touch ticker now g in
  let w := put_group w self u g in
  let name := NetworkName network in
  if negb (bool_decide (name = "tcp") || bool_decide (name = "udp"))
  then mret (Err (E_Extend ErrUnknownNetwork [AStr network]), w)
  else
    outbound ← match selected_for g name with
               | Some o => mret (Some o)
               | None => '(o, _) ← Select w g network; mret o
               end;
    mret (dial_outbound dial isExternal w self u g outbound).

(** [(s *URLTest) ListenPacket] *)
Definition URLTest_ListenPacket (dial : Member -> Res nat) (isExternal : bool) (ticker : nat) (now : Z)
    (w : World) (self : Member) (u : URLTest) (g : URLTestGroup) : Run (Res (nat * nat) * World) :=
  let '(_, g) := Touch ticker now g in
  let w := put_group w self u g in
  outbound ← match g_selectedOutboundUDP g with
             | Some o => mret (Some o)
             | None => '(o, _) ← Select w g "udp"; mret o
             end;
  mret (dial_outbound dial isExternal w self u g outbound).

(** A failed connection removes the result under the tag of the chosen
    outbound; results of a group are found under its real tag, so that of a
    chosen group stays. *)
Lemma failed_dial_history dial isExternal w self u g o e t :
  dial o = Err e -> RealTag w o = Done (Ok t) -> t <> m_Tag o ->
  w_history (snd (dial_outbound dial isExternal w self u g (Some o))) !! t = w_history w !! t.
Proof. intros Hd _ Hne. unfold dial_outbound. rewrite Hd. cbn. unfold DeleteURLTestHistory. by apply (lookup_delete_ne (M := gmap string)). Qed.
End Dial.

(** ** What a round of tests measures *)

Section Test.
Context {SH : SliceHelpers}.

(** A task of the batch: the test of a nested group or of an outbound. *)
Inductive Task :=
  | TestGroup (m : Member)
  | TestOutbound (m : Member).
Definition task_member (t : Task) : Member :=
  match t with TestGroup m | TestOutbound m => m end.

(** [urlTestBatch]: the tags checked, the groups met, the tasks given to the
    batch. *)
Record urlTestBatch := mkBatch {
  b_checked : gset string;
  b_groups : list Member;
  b_tasks : list Task
}.
Definition newBatch : urlTestBatch := mkBatch ∅ [] [].

(** The members of a group that the manager knows. *)
Definition known_members (w : World) (all : list string) : list Member :=
  FilterNotNil (Map all (fun it => w_byTag w !! it)).

Context (w : World) (now interval : Z) (force : bool).

(** The last test is recent enough. *)
Definition recently_tested (tag : string) : bool :=
  match LoadURLTestHistory (w_history w) tag with
  | Some h => negb force && (now - h_Time h <? interval)
  | None => false
  end.

(** The body of the loop of [test]. *)
Definition test_one (test : list Member -> urlTestBatch -> Run urlTestBatch) (detour : Member)
    (b : urlTestBatch) : Run urlTestBatch :=
  let tag := m_Tag detour in
  if bool_decide (tag ∈ b_checked b) then mret b
  else match object w detour with
       | OURLTest _ =>
           mret (mkBatch ({[tag]} ∪ b_checked b) (b_groups b ++ [detour]) (b_tasks b ++ [TestGroup detour]))
       | OSelector s =>
           test (known_members w (s_tags s))
             (mkBatch ({[tag]} ∪ b_checked b) (b_groups b ++ [detour]) (b_tasks b))
       | OLeaf _ =>
           if recently_tested tag then mret b
           else mret (mkBatch ({[tag]} ∪ b_checked b) (b_groups b) (b_tasks b ++ [TestOutbound detour]))
       end.

Fixpoint test_list (one : Member -> urlTestBatch -> Run urlTestBatch) (l : list Member) (b : urlTestBatch)
  : Run urlTestBatch :=
  match l with
  | [] => mret b
  | detour :: rest => b ← one detour b; test_list one rest b
  end.

(** [(b *urlTestBatch) test] *)
Fixpoint batch_test (fuel : nat) (l : list Member) (b : urlTestBatch) : Run urlTestBatch :=
  match fuel with
  | O => OutOfFuel
  | S fuel => test_list (test_one (batch_test fuel)) l b
  end.

(** The tags the manager knows name their outbounds. *)
Hypothesis Hindex : forall t o, w_byTag w !! t = Some o -> m_Tag o = t.
Definition known (m : Member) : Prop := w_byTag w !! m_Tag m = Some m.

Lemma known_members_spec all m :
  m ∈ known_members w all <-> exists t, t ∈ all /\ w_byTag w !! t = Some m.
Proof.
  unfold known_members. rewrite FilterNotNil_law, Map_law, list_elem_of_omap. split.
  - intros (x & Hx & E). apply list_elem_of_fmap in Hx as (t & -> & Ht). by exists t.
  - intros (t & Ht & E). exists (Some m). split; [|done]. apply list_elem_of_fmap. by exists t.
Qed.

(** [m] needs nothing more: it has been checked, or its test is recent. *)
Definition handled (b : urlTestBatch) (m : Member) : Prop :=
  m_Tag m ∈ b_checked b \/ (exists network, object w m = OLeaf network) /\ recently_tested (m_Tag m) = true.

(** The task a checked member has in the batch. *)
Definition task_of (m : Member) : option Task :=
  match object w m with
  | OURLTest _ => Some (TestGroup m)
  | OSelector _ => None
  | OLeaf _ => Some (TestOutbound m)
  end.

(** What a call adds to a batch: a set of known members, each with its task,
    and the members of the selectors among them are handled. *)
Record extends (b b' : urlTestBatch) (new : list Member) : Prop := {
  ext_checked : b_checked b' = tags new ∪ b_checked b;
  ext_tasks : b_tasks b' = b_tasks b ++ omap task_of new;
  ext_nodup : NoDup (map m_Tag new);
  ext_fresh : tags new ## b_checked b;
  ext_known : Forall known new;
  ext_needed : Forall (fun m => (exists network, object w m = OLeaf network) -> recently_tested (m_Tag m) = false) new;
  ext_members : forall m s d, m ∈ new -> object w m = OSelector s -> d ∈ known_members w (s_tags s) ->
    handled b' d
}.

Lemma handled_mono b b' new m : extends b b' new -> handled b m -> handled b' m.
Proof. intros E [H|H]; [left|by right]. rewrite (ext_checked _ _ _ E). set_solver. Qed.

Lemma extends_refl b : extends b b [].
Proof.
  split; [set_solver|by rewrite app_nil_r|constructor|set_solver|constructor|constructor|set_solver].
Qed.

Lemma extends_trans b1 b2 b3 n1 n2 :
  extends b1 b2 n1 -> extends b2 b3 n2 -> extends b1 b3 (n1 ++ n2).
Proof.
  intros E1 E2. pose proof (ext_checked _ _ _ E1) as C1. pose proof (ext_checked _ _ _ E2) as C2.
  pose proof (ext_fresh _ _ _ E1) as F1. pose proof (ext_fresh _ _ _ E2) as F2.
  split.
  - rewrite tags_app, C2, C1. set_solver.
  - rewrite (ext_tasks _ _ _ E2), (ext_tasks _ _ _ E1), omap_app, app_assoc. done.
  - rewrite map_app. apply list.NoDup_app. split; [apply E1|]. split; [|apply E2].
    intros t H1 H2. apply (F2 t); [unfold tags; by apply elem_of_list_to_set|].
    rewrite C1. apply elem_of_union. left. unfold tags. by apply elem_of_list_to_set.
  - rewrite tags_app. rewrite C1 in F2. set_solver.
  - apply Forall_app. split; [apply E1|apply E2].
  - apply Forall_app. split; [apply E1|apply E2].
  - intros m s d [Hm|Hm]%elem_of_app Hs Hd; [|by eapply E2].
    eapply handled_mono; [exact E2|]. by eapply E1.
Qed.

(** One new member. *)
Lemma extends_one b m gs ts :
  m_Tag m ∉ b_checked b -> known m -> (forall s, object w m <> OSelector s) ->
  ((exists network, object w m = OLeaf network) -> recently_tested (m_Tag m) = false) ->
  option_list (task_of m) = ts ->
  extends b (mkBatch ({[m_Tag m]} ∪ b_checked b) gs (b_tasks b ++ ts)) [m].
Proof.
  intros Hn Hk Hns Hr <-. split; cbn.
  - unfold tags. cbn. set_solver.
  - by destruct (task_of m).
  - apply NoDup_singleton.
  - unfold tags. cbn. set_solver.
  - by constructor.
  - by constructor.
  - intros x s d ->%list_elem_of_singleton Hs. by destruct (Hns s).
Qed.

(** A selector and what its members add. *)
Lemma extends_selector b b' m s gs new :
  m_Tag m ∉ b_checked b -> known m -> object w m = OSelector s ->
  extends (mkBatch ({[m_Tag m]} ∪ b_checked b) gs (b_tasks b)) b' new ->
  (forall d, d ∈ known_members w (s_tags s) -> handled b' d) ->
  extends b b' (m :: new).
Proof.
  intros Hn Hk Hs E Hh. pose proof (ext_checked _ _ _ E) as C. pose proof (ext_fresh _ _ _ E) as F.
  cbn in C, F. split.
  - rewrite tags_cons, C. set_solver.
  - rewrite (ext_tasks _ _ _ E). cbn. unfold task_of at 2. by rewrite Hs.
  - cbn. constructor; [|apply E]. intros Hin. apply (F (m_Tag m)); [|set_solver].
    unfold tags. by apply elem_of_list_to_set.
  - rewrite tags_cons. set_solver.
  - constructor; [done|apply E].
  - constructor; [|apply E]. intros [net Hnet]. congruence.
  - intros x s' d [->|Hx]%elem_of_cons Hs' Hd; [|by eapply E].
    rewrite Hs in Hs'. injection Hs' as <-. by apply Hh.
Qed.

(** The known tags that are not checked yet. *)
Definition unchecked (b : urlTestBatch) : nat := size (dom (w_byTag w) ∖ b_checked b).

Lemma unchecked_extends b b' new : extends b b' new -> (unchecked b' <= unchecked b)%nat.
Proof. intros E. unfold unchecked. apply subseteq_size. rewrite (ext_checked _ _ _ E). set_solver. Qed.

Lemma unchecked_add b m gs ts :
  known m -> m_Tag m ∉ b_checked b ->
  (unchecked (mkBatch ({[m_Tag m]} ∪ b_checked b) gs ts) < unchecked b)%nat.
Proof.
  intros Hk Hn. unfold unchecked. cbn. apply subset_size. split; [set_solver|].
  intros Hsub. assert (Hd : m_Tag m ∈ dom (w_byTag w)) by (apply elem_of_dom; by exists m).
  set_solver.
Qed.

(** The promise of a call on [l] from [b]. *)
Definition collects (r : Run urlTestBatch) (l : list Member) (b : urlTestBatch) : Prop :=
  exists b' new, r = Done (Ok b') /\ extends b b' new /\ Forall (handled b') l.

Lemma test_one_spec rec m b :
  known m ->
  (forall l b', Forall known l -> (unchecked b' < unchecked b)%nat -> collects (rec l b') l b') ->
  collects (test_one rec m b) [m] b.
Proof.
  intros Hk Hrec. unfold test_one. case_bool_decide as Hc.
  { exists b, []. split; [done|]. split; [apply extends_refl|]. constructor; [by left|done]. }
  destruct (object w m) as [s|u|network] eqn:Ho.
  - destruct (Hrec (known_members w (s_tags s)) (mkBatch ({[m_Tag m]} ∪ b_checked b) (b_groups b ++ [m]) (b_tasks b)))
      as (b' & new & Hr & E & Hh).
    { rewrite list.Forall_forall. intros d (t & _ & Hd)%known_members_spec. unfold known.
      by rewrite (Hindex _ _ Hd). }
    { by apply unchecked_add. }
    exists b', (m :: new). split; [done|]. rewrite list.Forall_forall in Hh.
    assert (E' : extends b b' (m :: new)) by (by eapply extends_selector).
    split; [done|]. constructor; [left|done]. rewrite (ext_checked _ _ _ E'), tags_cons. set_solver.
  - eexists _, [m]. split; [reflexivity|]. split; [|constructor; [left; cbn; set_solver|done]].
    apply extends_one; [done|done|congruence| |unfold task_of; by rewrite Ho]. intros [net Hnet]. congruence.
  - destruct (recently_tested (m_Tag m)) eqn:Hr.
    + exists b, []. split; [done|]. split; [apply extends_refl|]. constructor; [|done].
      right. split; [by exists network|done].
    + eexists _, [m]. split; [reflexivity|]. split; [|constructor; [left; cbn; set_solver|done]].
      apply extends_one; [done|done|congruence|done|unfold task_of; by rewrite Ho].
Qed.

Lemma test_list_spec one l b :
  Forall known l ->
  (forall m b', known m -> (unchecked b' <= unchecked b)%nat -> collects (one m b') [m] b') ->
  collects (test_list one l b) l b.
Proof.
  revert b. induction l as [|m l IH]; intros b Hk Hone; cbn [test_list].
  { exists b, []. split; [done|]. split; [apply extends_refl|done]. }
  apply Forall_cons_iff in Hk as [Hm Hk]. destruct (Hone m b Hm (le_n _)) as (b1 & n1 & -> & E1 & Hh1).
  cbn [mbind run_bind]. destruct (IH b1 Hk) as (b2 & n2 & -> & E2 & Hh2).
  { intros m' b' Hm' Hle. apply Hone; [done|]. pose proof (unchecked_extends _ _ _ E1). lia. }
  exists b2, (n1 ++ n2). split; [done|]. split; [by eapply extends_trans|].
  constructor; [|done]. eapply handled_mono; [exact E2|]. by apply Forall_inv in Hh1.
Qed.

Lemma test_collects fuel l b :
  Forall known l -> (unchecked b < fuel)%nat -> collects (batch_test fuel l b) l b.
Proof.
  revert l b. induction fuel as [|fuel IH]; intros l b Hk Hf; [lia|]. cbn [batch_test].
  apply test_list_spec; [done|]. intros m b' Hm Hle. apply test_one_spec; [done|].
  intros l' b'' Hk' Hlt. apply IH; [done|lia].
Qed.

(** [m] is reached from [l] through selectors. *)
Inductive reached (l : list Member) : Member -> Prop :=
  | reached_top m : m ∈ l -> reached l m
  | reached_member m s d :
      reached l m -> object w m = OSelector s -> d ∈ known_members w (s_tags s) -> reached l d.

Lemma checked_new b new m :
  extends newBatch b new -> known m -> m_Tag m ∈ b_checked b -> m ∈ new.
Proof.
  intros E Hk Hc. rewrite (ext_checked _ _ _ E) in Hc. cbn in Hc. rewrite union_empty_r_L in Hc. unfold tags in Hc.
  apply elem_of_list_to_set, list_elem_of_fmap in Hc as (m' & Em & Hm').
  pose proof (ext_known _ _ _ E) as Hkn. rewrite list.Forall_forall in Hkn. specialize (Hkn m' Hm').
  by assert (m' = m) as -> by (unfold known in *; congruence).
Qed.

Lemma reached_handled l b new m :
  extends newBatch b new -> Forall known l -> Forall (handled b) l -> reached l m -> known m /\ handled b m.
Proof.
  intros E Hk Hh. rewrite list.Forall_forall in Hk, Hh. induction 1 as [m Hm|m s d Hr [Hkm Hhm] Ho Hd].
  - split; [by apply Hk|by apply Hh].
  - apply known_members_spec in Hd as Hd'. destruct Hd' as (t & _ & Hd').
    split; [unfold known; by rewrite (Hindex _ _ Hd')|].
    destruct Hhm as [Hc|[[net Hnet] _]]; [|congruence].
    eapply (ext_members _ _ _ E); [by eapply checked_new|done..].
Qed.

Lemma tasks_nodup new :
  NoDup (map m_Tag new) -> NoDup (map (fun t => m_Tag (task_member t)) (omap task_of new)).
Proof.
  assert (Hin : forall l t, t ∈ map (fun t => m_Tag (task_member t)) (omap task_of l) -> t ∈ map m_Tag l).
  { intros l t Ht. apply list_elem_of_fmap in Ht as (k & -> & Hk). apply list_elem_of_omap in Hk as (m & Hm & Hk).
    apply list_elem_of_fmap. exists m. split; [|done]. unfold task_of in Hk. destruct (object w m); by simplify_eq. }
  induction new as [|m new IH]; [constructor|]. cbn. intros [Hn Hnd]%list.NoDup_cons.
  destruct (task_of m) as [k|] eqn:Hk; [|by apply IH]. cbn. constructor; [|by apply IH].
  intros Ht. apply Hn, Hin. unfold task_of in Hk. destruct (object w m); by simplify_eq.
Qed.

(** A round of tests ends even when groups contain each other, and it covers
    the group: every outbound and every nested URL test that is reached through
    selectors is tested, except outbounds with a recent result (none, when
    forced); nothing is tested twice, and no recent one is tested. *)
Theorem test_covers_group l :
  Forall known l ->
  exists b, batch_test (S (size (w_byTag w))) l newBatch = Done (Ok b) /\
    NoDup (map (fun t => m_Tag (task_member t)) (b_tasks b)) /\
    (forall m, reached l m ->
       match object w m with
       | OLeaf _ => recently_tested (m_Tag m) = true \/ TestOutbound m ∈ b_tasks b
       | OURLTest _ => TestGroup m ∈ b_tasks b
       | OSelector _ => True
       end) /\
    (forall m, TestOutbound m ∈ b_tasks b -> recently_tested (m_Tag m) = false).
Proof.
  intros Hk. destruct (test_collects (S (size (w_byTag w))) l newBatch Hk) as (b & new & Hr & E & Hh).
  { unfold unchecked. cbn. rewrite difference_empty_L, size_dom. lia. }
  exists b. split; [done|]. pose proof (ext_tasks _ _ _ E) as Ht. cbn in Ht.
  split; [rewrite Ht; apply tasks_nodup, E|]. rewrite Ht. split.
  - intros m Hm. destruct (reached_handled l b new m E Hk Hh Hm) as [Hkm Hhm].
    destruct (object w m) as [s|u|network] eqn:Ho; [done| |].
    + destruct Hhm as [Hc|[[net Hnet] _]]; [|congruence]. apply list_elem_of_omap. exists m.
      split; [by apply (checked_new b new)|]. unfold task_of. by rewrite Ho.
    + destruct Hhm as [Hc|[_ Hrec]]; [right|by left]. apply list_elem_of_omap. exists m.
      split; [by apply (checked_new b new)|]. unfold task_of. by rewrite Ho.
  - intros m (m' & Hm' & Hk')%list_elem_of_omap. pose proof (ext_needed _ _ _ E) as Hn.
    rewrite list.Forall_forall in Hn. unfold task_of in Hk'. destruct (object w m') eqn:Ho; simplify_eq.
    apply Hn; [done|]. rewrite Ho. by eexists.
Qed.
End Test.

(** ** Concrete outbound groups

    A manager with two nodes, a selector over both and a URL test over a node
    and the selector: the theorems about groups at work, and two cases in which
    a URL test prefers a slow outbound. *)

Module GroupExamples.
#[local] Existing Instance list_helpers.

Definition member (id : nat) (tag : string) (deps : list string) : Member :=
  mkMember id tag "" deps false false true false false.
Definition node_a : Member := member 1 "a" [].
Definition node_b : Member := member 2 "b" [].
Definition pick : Member := member 3 "pick" ["a"; "b"].
Definition auto : Member := member 4 "auto" ["a"; "pick"].
Definition members : list Member := [auto; pick; node_b; node_a].
Definition byTag : gmap string Member :=
  {["a" := node_a; "b" := node_b; "pick" := pick; "auto" := auto]}.

Definition texts : Texts := mkTexts (fun o => [AStr (m_Tag o)]) "outbound".
Definition ok_outcome : list Event -> option error := fun _ => None.

(** The selector has chosen [b]; the URL test has a tolerance of 50. *)
Definition pick_object : Selector :=
  mkSelector "pick" ["a"; "b"] "" {["a" := node_a; "b" := node_b]} (Some node_b) NewGroup false.
Definition auto_group (tolerance : Z) (tcp : option Member) : URLTestGroup :=
  mkURLTestGroup [node_a; pick] "" DefaultURLTestInterval tolerance DefaultURLTestIdleTimeout false
    tcp None (mkIGroup 2 [mkItem 0 7 false; mkItem 1 8 true]) false None false true 0.
Definition auto_object (g : URLTestGroup) : URLTest :=
  mkURLTest "auto" ["a"; "pick"] "" 0 0 0 false (Some g).

(** The world with measured delays of [a] and [b]. *)
Definition world (g : URLTestGroup) (da db : Z) : World :=
  mkWorld {[1%nat := OLeaf ["tcp"; "udp"]; 2%nat := OLeaf ["tcp"; "udp"];
            3%nat := OSelector pick_object; 4%nat := OURLTest (auto_object g)]}
    byTag {["a" := mkHistory 0 da; "b" := mkHistory 0 db]}.
Definition group0 : URLTestGroup := auto_group 50 (Some node_a).
Definition world0 : World := world group0 200 120.

(** The test result of a nested selector is that of its choice. *)
Example nested_delay : RealTag world0 pick = Done (Ok "b").
Proof. vm_compute. reflexivity. Qed.

Lemma byTag_spec t o : byTag !! t = Some o <-> o ∈ members /\ m_Tag o = t.
Proof.
  unfold byTag. rewrite !lookup_insert_Some, lookup_singleton_Some. unfold members.
  rewrite !elem_of_cons, elem_of_nil. split.
  - intros [[<- <-]|[_ [[<- <-]|[_ [[<- <-]|[_ [<- <-]]]]]]]; (split; [|done]); auto.
  - intros [[->|[->|[->|[->|[]]]]] <-]; cbn; naive_solver.
Qed.

Lemma members_nodup : NoDup (map m_Tag members).
Proof. apply (bool_decide_unpack _). vm_compute. done. Qed.

Lemma member_ofs w :
  w_byTag w = byTag ->
  member_of w auto node_a /\ member_of w auto pick /\ member_of w pick node_a /\ member_of w pick node_b.
Proof.
  intros E. unfold member_of. rewrite E. repeat split; try reflexivity; apply (bool_decide_unpack _); vm_compute; done.
Qed.

Lemma pick_wf w : w_byTag w = byTag -> selector_wf w pick pick_object.
Proof.
  intros E. destruct (member_ofs w E) as (_ & _ & Ha & Hb).
  split; [done|]. split; [done|]. split; [done|]. split; [|split; [|apply NewGroup_wf]]; cbn.
  - intros t d. rewrite lookup_insert_Some, lookup_singleton_Some. intros [[<- <-]|[_ [<- <-]]]; done.
  - intros d [= <-]. reflexivity.
Qed.

Lemma auto_wf w tolerance tcp :
  w_byTag w = byTag -> tcp = None \/ tcp = Some node_a -> group_wf w auto (auto_group tolerance tcp).
Proof.
  intros E Ht. destruct (member_ofs w E) as (Ha & Hp & _ & _).
  split; [by apply Forall_cons_iff; split; [|apply Forall_cons_iff]|]. split; [|split; [done|]].
  - intros d Hd. cbn in Hd. destruct Ht; simplify_eq. left.
  - split; [apply (bool_decide_unpack _); vm_compute; done|]. cbn. intros it. rewrite !elem_of_cons, elem_of_nil.
    intros [->|[->|[]]]; cbn; lia.
Qed.

Lemma objects_wf g da db o :
  g = auto_group (g_tolerance g) (g_selectedOutboundTCP g) ->
  g_selectedOutboundTCP g = None \/ g_selectedOutboundTCP g = Some node_a ->
  o ∈ members -> object_wf (world g da db) o (object (world g da db) o).
Proof.
  intros Hg Ht. unfold members. rewrite !elem_of_cons, elem_of_nil.
  intros [->|[->|[->|[->|[]]]]]; [|by apply pick_wf|done..].
  cbn. split; [done|]. split; [done|]. exists g. split; [done|]. rewrite Hg. by apply auto_wf.
Qed.

(** The manager starts the four outbounds. *)
Example starts : start_all ok_outcome texts members byTag [] =
  Some (Ok tt, map EvPlainStart [node_b; node_a; pick; auto]).
Proof. vm_compute. reflexivity. Qed.

Lemma real_tag_total_witness :
  exists t, RealTag world0 auto = Done (Ok t) /\ (t = "" \/ real_outbound world0 t).
Proof.
  apply (real_tag_total ok_outcome texts members byTag [] _ world0 auto starts members_nodup eq_refl byTag_spec).
  - reflexivity.
  - intros o. by apply objects_wf; [|right].
  - left.
Defined.

(** ** The selector *)

Definition pick_choice : option (string -> string) := Some (fun _ => "b").
Definition pick_new : Selector := mkSelector "pick" ["a"; "b"] "" ∅ None NewGroup false.

Lemma selector_start_witness :
  exists s', Selector_Start (fun t => byTag !! t) pick_choice pick_new = (Ok tt, s') /\
    s_selected s' = byTag !! "b" /\
    forall t, s_outbounds s' !! t = if decide (t ∈ ["a"; "b"]) then byTag !! t else None.
Proof.
  apply (selector_start "pick" ["a"; "b"] "" false (fun t => byTag !! t) pick_choice pick_new eq_refl).
  split; [|apply (bool_decide_unpack _); vm_compute; done].
  intros t. rewrite !elem_of_cons, elem_of_nil. intros [->|[->|[]]]; by eexists.
Defined.

(** A started selector with an internal and an external connection. *)
Definition pick_started : Selector := snd (Selector_Start (fun t => byTag !! t) pick_choice pick_new).
Definition pick_one : Selector := snd (Selector_DialContext (fun _ => Ok 7%nat) false pick_started).
Definition pick_two : Selector := snd (Selector_DialContext (fun _ => Ok 8%nat) true pick_one).

Lemma pick_two_reachable : selector_reachable pick byTag pick_two.
Proof.
  assert (H0 : selector_reachable pick byTag pick_started)
    by (eapply (selector_started _ _ "" false pick_choice); reflexivity).
  assert (H1 : selector_reachable pick byTag pick_one)
    by (eapply (selector_dial _ _ (fun _ => Ok 7%nat) false); [exact H0|reflexivity]).
  eapply (selector_dial _ _ (fun _ => Ok 8%nat) true); [exact H1|reflexivity].
Qed.

Lemma byTag_tag t o : byTag !! t = Some o -> m_Tag o = t.
Proof. by intros [_ ?]%byTag_spec. Qed.

(** Choosing [a] closes the internal connection 7 and keeps 8. *)
Lemma selector_selection_witness :
  selector_wf world0 pick pick_two /\
  snd (SelectOutbound true true true pick_two "a") =
    [StoreSelected "pick" "a"; ConnClosed 7; OnProxySelected "pick" "a"; HistoryUpdated].
Proof.
  destruct (selector_selection world0 pick byTag_tag pick_two "a" pick_two_reachable) as (Hwf & _ & _).
  split; [exact Hwf|]. vm_compute. reflexivity.
Defined.

(** ** The URL test *)

Lemma consistent_world g da db :
  g = auto_group (g_tolerance g) (g_selectedOutboundTCP g) ->
  g_selectedOutboundTCP g = None \/ g_selectedOutboundTCP g = Some node_a ->
  consistent (world g da db) [node_b; node_a; pick; auto].
Proof.
  intros Hg Ht. assert (Hperm : [node_b; node_a; pick; auto] ≡ₚ members).
  { apply (bool_decide_unpack _). vm_compute. done. }
  split.
  - repeat (constructor; [apply (bool_decide_unpack _); vm_compute; done| |]);
      [..|constructor]; cbn; intros d; rewrite ?elem_of_cons, ?elem_of_nil; set_solver.
  - intros t o [Ho Hto]%byTag_spec. by rewrite Hperm.
  - intros o Ho. apply byTag_spec. by rewrite <- Hperm.
  - reflexivity.
  - intros t o [Ho _]%byTag_spec. by apply objects_wf.
Qed.

Lemma order_distinct : distinct [node_b; node_a; pick; auto].
Proof.
  intros a b. rewrite !elem_of_cons, !elem_of_nil.
  intros [->|[->|[->|[->|[]]]]] [->|[->|[->|[->|[]]]]]; cbn; congruence || done.
Qed.

Lemma fits_world0 : fits world0 (g_tolerance group0) (g_outbounds group0).
Proof.
  split; [cbn; lia|]. intros o d. cbn. rewrite !elem_of_cons, elem_of_nil.
  intros [->|[->|[]]] (h & Hh & <-); vm_compute in Hh; injection Hh as <-; cbn; lia.
Qed.

(** The URL test moves from [a] (200 ms) to the selector (120 ms), and closes
    the internal connection. *)
Lemma update_check_selects_best_witness :
  exists closed g', performUpdateCheck world0 auto (auto_object group0) group0 =
    Done (Ok (closed, g', put_group world0 auto (auto_object group0) g')) /\
    closed = [7%nat] /\ g_selectedOutboundTCP g' = Some pick.
Proof.
  destruct (update_check_selects_best world0 [node_b; node_a; pick; auto] auto (auto_object group0) group0
    (consistent_world group0 200 120 eq_refl (or_intror eq_refl)) order_distinct
    ltac:(apply (bool_decide_unpack _); vm_compute; done) eq_refl
    (auto_wf world0 50 (Some node_a) eq_refl (or_intror eq_refl)) fits_world0) as (closed & g' & Hrun & _).
  exists closed, g'. split; [exact Hrun|]. vm_compute in Hrun. injection Hrun as <- <-. done.
Defined.

(** The sum of delay and tolerance is a [uint16]: with a tolerance of 60000
    milliseconds the group leaves an outbound that takes 6 s for one that takes
    10 s.  And a delay of 0 (less than a millisecond) counts as not measured:
    the group leaves it for one that takes 300 milliseconds. *)
Theorem slow_outbound_preferred :
  Select (world (auto_group 60000 (Some node_a)) 6000 10000) (auto_group 60000 (Some node_a)) "tcp" =
    Done (Ok (Some pick, true)) /\
  Select (world group0 0 300) group0 "tcp" = Done (Ok (Some pick, true)).
Proof. split; vm_compute; reflexivity. Qed.

(** ** Loops and rounds *)

Definition loops0 : Loops := mkLoops group0 ∅ 0.
Definition loops1 : Loops := mkLoops (snd (Touch 0 5 group0)) {[0%nat]} 1.

Lemma one_loop_runs_witness :
  l_running loops1 = {[0%nat]} /\ fst (URLTestGroup_Close (l_group loops1)) = Ok tt.
Proof.
  destruct (one_loop_runs loops0 loops1) as (H1 & H2 & _).
  - done.
  - apply rtc_once. apply (step_touch 5 loops0 (Some 0%nat)). reflexivity.
  - reflexivity.
  - split; [exact H1|exact H2].
Defined.

Lemma test_covers_group_witness :
  exists b, batch_test world0 0 0 true 5 [auto; pick] newBatch = Done (Ok b) /\
    b_tasks b = [TestGroup auto; TestOutbound node_a; TestOutbound node_b].
Proof.
  destruct (test_covers_group world0 0 0 true byTag_tag [auto; pick]) as (b & Hb & _).
  - by apply Forall_cons_iff; split; [|apply Forall_cons_iff].
  - exists b. split; [exact Hb|]. vm_compute in Hb. by injection Hb as <-.
Defined.
End GroupExamples.
