(* ===== verification/BoxLifecycle.v ===== *)
(** * Starting and closing the box

    [sing-box/box.go]: the components of a box are started stage by stage in a
    fixed order, and closed in another.  Calls to components are events in a
    trace; [result] tells how the last call of a trace ended: it returned, it
    returned an error, or it panicked.  The context of the box is part of its
    state. *)

From stdpp Require Import base numbers list strings gmap option.
From Stdlib Require Import ZArith Lia.
From S2P Require Import Prelude ManagerCore.

Local Open Scope Z_scope.

(** The components of a [Box] with the life cycle of [adapter.Lifecycle];
    [CInternal] is one of [internalService], with its name. *)
Inductive Component :=
  | CNetwork | CEndpoint | CInbound | COutbound | CService | CCertificateProvider
  | CDNSTransport | CDNSRouter | CConnection | CRouter | CHTTPClient
  | CInternal (name : string).
#[global] Instance CInternal_inj : Inj (=) (=) CInternal.
Proof. by intros x y [= ->]. Qed.
#[global] Instance Component_eq_dec : EqDecision Component.
Proof. solve_decision. Defined.

Inductive BoxEvent :=
  | LogStart
  | DebugServerStart
  | CompStart (c : Component) (stage : Z)
  | DebugServerClose
  | CompClose (c : Component)
  | LogClose.
#[global] Instance BoxEvent_eq_dec : EqDecision BoxEvent.
Proof. solve_decision. Defined.

(** The state of a [Box]: the channel [done] is closed, the debug server is
    there, the error of the context, the calls so far. *)
Record BoxState := mkBox {
  bx_done : bool;
  bx_debugHTTPServer : bool;
  bx_ctxErr : option error;
  bx_trace : list BoxEvent
}.
Definition NewBox : BoxState := mkBox false false None [].

(** Computations on a box. *)
Definition BM (A : Type) : Type := BoxState -> Res A * BoxState.
#[global] Instance bm_ret : MRet BM := fun A a s => (Ok a, s).
#[global] Instance bm_bind : MBind BM := fun A B f m s =>
  let '(r, s) := m s in
  match r with
  | Ok a => f a s
  | Err e => (Err e, s)
  | Panic msg => (Panic msg, s)
  end.

Section Box.
Context (result : list BoxEvent -> Res unit).
(** The internal services of the box, and whether a debug server is configured. *)
Context (internalService : list string) (debugListen : bool).
(** [Name()] of the HTTP client service. *)
Context (httpClientName : string).

Definition emit (ev : BoxEvent) : BM unit := fun s =>
  let tr := bx_trace s ++ [ev] in
  (result tr, mkBox (bx_done s) (bx_debugHTTPServer s) (bx_ctxErr s) tr).

(** [ctx.Err()] *)
Definition check_ctx : BM unit := fun s =>
  (match bx_ctxErr s with Some e => Err e | None => Ok tt end, s).

(** An error gets a context. *)
Definition cause (msg : list earg) (m : BM unit) : BM unit := fun s =>
  let '(r, s) := m s in (wrap_err r msg, s).

(** [adapter.Start] *)
Fixpoint adapter_Start (stage : Z) (services : list Component) : BM unit :=
  match services with
  | [] => mret tt
  | c :: rest => _ ← check_ctx; _ ← emit (CompStart c stage); adapter_Start stage rest
  end.

(** [adapter.StartNamed], on services with their names. *)
Fixpoint adapter_StartNamed (stage : Z) (services : list (Component * string)) : BM unit :=
  match services with
  | [] => mret tt
  | (c, name) :: rest =>
      _ ← check_ctx;
      _ ← cause [AStr (StartStage_String stage); AStr " "; AStr name] (emit (CompStart c stage));
      adapter_StartNamed stage rest
  end.
Definition internal_services : list (Component * string) :=
  map (fun n => (CInternal n, n)) internalService.

(** [s.debugHTTPServer, err = startDebugHTTPServer(...)] *)
Definition set_debug (b : bool) (s : BoxState) : BoxState := mkBox (bx_done s) b (bx_ctxErr s) (bx_trace s).
Definition startDebugHTTPServer : BM unit := fun s =>
  if debugListen then
    let '(r, s) := cause [AStr "listen debug HTTP server"] (emit DebugServerStart) s in
    match r with
    | Ok _ => (Ok tt, set_debug true s)
    | Err e => (Err e, set_debug false s)
    | Panic msg => (Panic msg, s)
    end
  else (Ok tt, set_debug false s).

(** [(s *Box) preStart] *)
Definition box_preStart : BM unit :=
  _ ← cause [AStr "start logger"] (emit LogStart);
  _ ← startDebugHTTPServer;
  _ ← adapter_StartNamed StartStateInitialize internal_services;
  _ ← adapter_Start StartStateInitialize
        [CNetwork; CDNSTransport; CDNSRouter; CConnection; CRouter; COutbound; CInbound; CEndpoint;
         CService; CCertificateProvider];
  _ ← adapter_Start StartStateStart [COutbound; CDNSTransport; CNetwork; CConnection];
  _ ← adapter_StartNamed StartStateStart [(CHTTPClient, httpClientName)];
  adapter_Start StartStateStart [CRouter; CDNSRouter].

(** [(s *Box) start] *)
Definition box_start : BM unit :=
  _ ← box_preStart;
  _ ← adapter_StartNamed StartStateStart internal_services;
  _ ← adapter_Start StartStateStart [CEndpoint];
  _ ← adapter_Start StartStateStart [CCertificateProvider];
  _ ← adapter_Start StartStateStart [CInbound; CService];
  _ ← adapter_Start StartStatePostStart
        [COutbound; CNetwork; CDNSTransport; CDNSRouter; CConnection; CRouter; CEndpoint;
         CCertificateProvider; CInbound; CService];
  _ ← adapter_StartNamed StartStatePostStart internal_services;
  _ ← adapter_Start StartStateStarted
        [CNetwork; CDNSTransport; CDNSRouter; CConnection; CRouter; COutbound; CEndpoint;
         CCertificateProvider; CInbound; CService];
  adapter_StartNamed StartStateStarted internal_services.

(** [err = E.Append(err, x.Close(), ...)]: errors are collected. *)
Definition append_err (errs : list error) (ev : BoxEvent) (msg : list earg) : BM (list error) := fun s =>
  let '(r, s) := emit ev s in
  match r with
  | Ok _ => (Ok errs, s)
  | Err e => (Ok (errs ++ [E_Cause e msg]), s)
  | Panic m => (Panic m, s)
  end.
Fixpoint close_items (errs : list error) (items : list (Component * string)) : BM (list error) :=
  match items with
  | [] => mret errs
  | (c, name) :: rest =>
      errs ← append_err errs (CompClose c) [AStr "close "; AStr name];
      close_items errs rest
  end.

(** The list in [Close]. *)
Definition closeItem : list (Component * string) :=
  [(CService, "service"); (CInbound, "inbound"); (CCertificateProvider, "certificate-provider");
   (CEndpoint, "endpoint"); (COutbound, "outbound"); (CRouter, "router"); (CConnection, "connection");
   (CDNSRouter, "dns-router"); (CDNSTransport, "dns-transport"); (CNetwork, "network")].

Definition close_debug : BM (list error) := fun s =>
  if bx_debugHTTPServer s then
    let '(r, s) := append_err [] DebugServerClose [AStr "close debug HTTP server"] s in
    match r with
    | Ok errs => (Ok errs, set_debug false s)
    | r => (r, s)
    end
  else (Ok [], s).

(** [(s *Box) Close]: the errors it collects. *)
Definition box_Close : BM (list error) := fun s =>
  if bx_done s then (Ok [ErrClosed], s)
  else
    (errs ← close_debug;
     errs ← close_items errs closeItem;
     errs ← close_items errs [(CHTTPClient, httpClientName)];
     errs ← close_items errs internal_services;
     append_err errs LogClose [AStr "close logger"] : BM (list error))
    (mkBox true (bx_debugHTTPServer s) (bx_ctxErr s) (bx_trace s)).

(** [(s *Box) Start].  A panic of [Close] is caught by a deferred function, and
    the call then returns the zero value of its unnamed result. *)
Definition box_Start : BM unit := fun s =>
  let '(r, s) := box_start s in
  match r with
  | Ok _ => (Ok tt, s)
  | Err e =>
      let '(rc, s) := box_Close s in
      match rc with
      | Panic _ => (Ok tt, s)
      | _ => (Err e, s)
      end
  | Panic msg => (Panic msg, s)
  end.

(** ** The schedule *)

(** The calls of a start that meets no error. *)
Definition starts (stage : Z) (l : list Component) : list BoxEvent := map (fun c => CompStart c stage) l.
Definition schedule : list BoxEvent :=
  [LogStart] ++ (if debugListen then [DebugServerStart] else []) ++
  starts StartStateInitialize (map CInternal internalService) ++
  starts StartStateInitialize
    [CNetwork; CDNSTransport; CDNSRouter; CConnection; CRouter; COutbound; CInbound; CEndpoint;
     CService; CCertificateProvider] ++
  starts StartStateStart [COutbound; CDNSTransport; CNetwork; CConnection; CHTTPClient; CRouter; CDNSRouter] ++
  starts StartStateStart (map CInternal internalService) ++
  starts StartStateStart [CEndpoint; CCertificateProvider; CInbound; CService] ++
  starts StartStatePostStart
    [COutbound; CNetwork; CDNSTransport; CDNSRouter; CConnection; CRouter; CEndpoint;
     CCertificateProvider; CInbound; CService] ++
  starts StartStatePostStart (map CInternal internalService) ++
  starts StartStateStarted
    [CNetwork; CDNSTransport; CDNSRouter; CConnection; CRouter; COutbound; CEndpoint;
     CCertificateProvider; CInbound; CService] ++
  starts StartStateStarted (map CInternal internalService).

(** The calls of a close: the parts in the opposite direction, what accepts traffic
    first and the logger last. *)
Definition closings : list BoxEvent :=
  map CompClose [CService; CInbound; CCertificateProvider; CEndpoint; COutbound; CRouter; CConnection; CDNSRouter;
                 CDNSTransport; CNetwork; CHTTPClient] ++
  map CompClose (map CInternal internalService) ++ [LogClose].
(** How often a component is closed *)
Definition closes_of (c : Component) (evs : list BoxEvent) : nat :=
  length (filter (fun ev => ev = CompClose c) evs).

(** ** What a start does *)

(** The calls [evs] after the calls [tr], up to the first that fails. *)
Fixpoint run (tr evs : list BoxEvent) : Res unit * list BoxEvent :=
  match evs with
  | [] => (Ok tt, tr)
  | ev :: rest =>
      match result (tr ++ [ev]) with
      | Ok _ => run (tr ++ [ev]) rest
      | r => (r, tr ++ [ev])
      end
  end.

Lemma run_app tr a b :
  run tr (a ++ b) = match run tr a with (Ok _, tr') => run tr' b | r => r end.
Proof.
  revert tr. induction a as [|ev a IH]; intros tr; [done|]. cbn.
  destruct (result (tr ++ [ev])); [apply IH|done|done].
Qed.

(** A run makes a prefix of the calls: all of them if it ends well, else up to
    a call that failed. *)
Lemma run_prefix tr evs :
  match run tr evs with
  | (Ok _, tr') => tr' = tr ++ evs
  | (r, tr') => exists k, (k < length evs)%nat /\ tr' = tr ++ take (S k) evs /\ result tr' = r
  end.
Proof.
  revert tr. induction evs as [|ev evs IH]; intros tr; cbn; [by rewrite app_nil_r|].
  destruct (result (tr ++ [ev])) as [u|e|msg] eqn:Hr.
  - specialize (IH (tr ++ [ev])). destruct (run (tr ++ [ev]) evs) as [[u'|e'|m'] tr'].
    + by rewrite IH, <- app_assoc.
    + destruct IH as (k & Hk & -> & Hr'). exists (S k). split; [lia|]. rewrite <- app_assoc in *. done.
    + destruct IH as (k & Hk & -> & Hr'). exists (S k). split; [lia|]. rewrite <- app_assoc in *. done.
  - exists 0%nat. split; [lia|]. done.
  - exists 0%nat. split; [lia|]. done.
Qed.

(** The outcome of a computation is that of a run; errors may have more
    context. *)
Definition same_outcome (r r' : Res unit) : Prop :=
  match r, r' with
  | Ok _, Ok _ | Err _, Err _ => True
  | Panic m, Panic m' => m = m'
  | _, _ => False
  end.
Definition follows (m : BM unit) (evs : list BoxEvent) : Prop :=
  forall s, bx_ctxErr s = None ->
  let '(r, s') := m s in
  let '(r', tr') := run (bx_trace s) evs in
  same_outcome r r' /\ bx_trace s' = tr' /\ bx_done s' = bx_done s /\ bx_ctxErr s' = None.

Lemma follows_bind m n a b : follows m a -> follows n b -> follows (_ ← m; n) (a ++ b).
Proof.
  intros Hm Hn s Hs. rewrite run_app. specialize (Hm s Hs).
  change ((_ ← m; n) s) with (let '(r, s) := m s in
    match r with Ok _ => n s | Err e => (Err e, s) | Panic msg => (Panic msg, s) end).
  destruct (m s) as [r s1], (run (bx_trace s) a) as [r1 tr1]. destruct Hm as (Ho & Ht & Hd & Hc).
  destruct r as [u|e|msg], r1 as [u1|e1|msg1]; try done; [].
  specialize (Hn s1 Hc). rewrite Ht in Hn. destruct (n s1) as [r2 s2], (run tr1 b) as [r3 tr3].
  destruct Hn as (H1 & H2 & H3 & H4). split; [done|]. split; [done|]. split; congruence.
Qed.

Lemma follows_emit ev : follows (emit ev) [ev].
Proof.
  intros s Hs. cbn. destruct (result (bx_trace s ++ [ev])) as [u|e|msg]; cbn; done.
Qed.

Lemma follows_cause msg ev : follows (cause msg (emit ev)) [ev].
Proof.
  intros s Hs. cbn. destruct (result (bx_trace s ++ [ev])) as [u|e|m]; cbn; done.
Qed.

Lemma follows_ret : follows (mret tt) [].
Proof. intros s Hs. done. Qed.

Lemma follows_ctx : follows check_ctx [].
Proof. intros s Hs. unfold check_ctx. by rewrite Hs. Qed.

Lemma follows_Start stage l : follows (adapter_Start stage l) (starts stage l).
Proof.
  induction l as [|c l IH]; [apply follows_ret|]. cbn [adapter_Start starts map].
  change (CompStart c stage :: map _ l) with ([] ++ [CompStart c stage] ++ starts stage l).
  apply follows_bind; [apply follows_ctx|]. apply follows_bind; [apply follows_emit|done].
Qed.

Lemma follows_StartNamed stage l :
  follows (adapter_StartNamed stage l) (starts stage (map fst l)).
Proof.
  induction l as [|[c name] l IH]; [apply follows_ret|]. cbn [adapter_StartNamed starts map fst].
  change (CompStart c stage :: map _ (map fst l)) with ([] ++ [CompStart c stage] ++ starts stage (map fst l)).
  apply follows_bind; [apply follows_ctx|]. apply follows_bind; [apply follows_cause|done].
Qed.

Lemma follows_internal stage :
  follows (adapter_StartNamed stage internal_services) (starts stage (map CInternal internalService)).
Proof.
  replace (map CInternal internalService) with (map fst internal_services); [apply follows_StartNamed|].
  unfold internal_services. by rewrite map_map.
Qed.

Lemma follows_debug : follows startDebugHTTPServer (if debugListen then [DebugServerStart] else []).
Proof.
  intros s Hs. unfold startDebugHTTPServer. destruct debugListen; [|done].
  pose proof (follows_cause [AStr "listen debug HTTP server"] DebugServerStart s Hs) as H.
  destruct (cause _ _ s) as [[u|e|m] s1], (run _ _) as [[u1|e1|m1] tr1]; done.
Qed.

Ltac follow :=
  repeat (apply follows_bind;
    [first [apply follows_cause|apply follows_debug|apply follows_internal|apply follows_Start
           |apply follows_StartNamed]|]);
  first [apply follows_internal|apply follows_Start].

(** The calls of [preStart]. *)
Definition preStart_calls : list BoxEvent :=
  [LogStart] ++ (if debugListen then [DebugServerStart] else []) ++
  starts StartStateInitialize (map CInternal internalService) ++
  starts StartStateInitialize
    [CNetwork; CDNSTransport; CDNSRouter; CConnection; CRouter; COutbound; CInbound; CEndpoint;
     CService; CCertificateProvider] ++
  starts StartStateStart [COutbound; CDNSTransport; CNetwork; CConnection] ++
  starts StartStateStart [CHTTPClient] ++ starts StartStateStart [CRouter; CDNSRouter].

Lemma follows_preStart : follows box_preStart preStart_calls.
Proof. unfold box_preStart, preStart_calls. follow. Qed.

Lemma schedule_split :
  schedule = preStart_calls ++ starts StartStateStart (map CInternal internalService) ++
    starts StartStateStart [CEndpoint] ++ starts StartStateStart [CCertificateProvider] ++
    starts StartStateStart [CInbound; CService] ++
    starts StartStatePostStart
      [COutbound; CNetwork; CDNSTransport; CDNSRouter; CConnection; CRouter; CEndpoint;
       CCertificateProvider; CInbound; CService] ++
    starts StartStatePostStart (map CInternal internalService) ++
    starts StartStateStarted
      [CNetwork; CDNSTransport; CDNSRouter; CConnection; CRouter; COutbound; CEndpoint;
       CCertificateProvider; CInbound; CService] ++
    starts StartStateStarted (map CInternal internalService).
Proof. unfold preStart_calls. repeat rewrite <- app_assoc. reflexivity. Qed.

Lemma follows_start : follows box_start schedule.
Proof.
  rewrite schedule_split. unfold box_start. apply follows_bind; [apply follows_preStart|]. follow.
Qed.

(** ** The order of the stages *)

(** The stages a component is started for, in the order of a list of calls. *)
Definition stages_of (c : Component) (evs : list BoxEvent) : list Z :=
  omap (fun ev => match ev with
                  | CompStart c' stage => if bool_decide (c' = c) then Some stage else None
                  | _ => None
                  end) evs.

Lemma stages_of_app c a b : stages_of c (a ++ b) = stages_of c a ++ stages_of c b.
Proof. apply omap_app. Qed.

Lemma stages_of_internal c stage :
  NoDup internalService ->
  stages_of c (starts stage (map CInternal internalService)) =
  match c with CInternal n => if bool_decide (n ∈ internalService) then [stage] else [] | _ => [] end.
Proof.
  clear result debugListen httpClientName.
  intros Hnd. destruct c as [| | | | | | | | | | |n];
    try (clear Hnd; induction internalService as [|x l IH]; [done|exact IH]).
  induction internalService as [|x l IH]; [done|]. apply list.NoDup_cons in Hnd as [Hx Hnd].
  specialize (IH Hnd). cbn. fold (stages_of (CInternal n) (starts stage (map CInternal l))).
  unfold stages_of, starts in IH. rewrite IH. destruct (decide (x = n)) as [->|Hne].
  - rewrite bool_decide_eq_true_2 by done. rewrite (bool_decide_eq_false_2 (n ∈ l)) by done.
    by rewrite bool_decide_eq_true_2 by left.
  - rewrite bool_decide_eq_false_2 by congruence. f_equal.
    destruct (bool_decide_reflect (n ∈ l)); destruct (bool_decide_reflect (n ∈ x :: l)); set_solver.
Qed.

(** The components of this box. *)
Definition components : list Component :=
  [CNetwork; CEndpoint; CInbound; COutbound; CService; CCertificateProvider; CDNSTransport; CDNSRouter;
   CConnection; CRouter] ++ map CInternal internalService.

Lemma schedule_stages c :
  NoDup internalService -> c ∈ components -> stages_of c schedule = ListStartStages.
Proof.
  intros Hnd Hc. unfold schedule. rewrite !stages_of_app, !stages_of_internal by done.
  replace (stages_of c (if debugListen then [DebugServerStart] else [])) with (@nil Z)
    by (by destruct debugListen).
  apply elem_of_app in Hc as [Hc|Hc].
  - repeat (apply elem_of_cons in Hc as [->|Hc]; [reflexivity|]). by apply elem_of_nil in Hc.
  - apply list_elem_of_fmap in Hc as (n & -> & Hn). rewrite bool_decide_eq_true_2 by done. reflexivity.
Qed.

(** Everything else but the services is started before the inbounds. *)
Lemma inbound_last c :
  c ∈ components -> c <> CInbound -> c <> CService ->
  exists before after, schedule = before ++ CompStart CInbound StartStateStart :: after /\
    CompStart c StartStateStart ∈ before.
Proof.
  intros Hc H1 H2. rewrite schedule_split.
  exists (preStart_calls ++ starts StartStateStart (map CInternal internalService) ++
     starts StartStateStart [CEndpoint] ++ starts StartStateStart [CCertificateProvider]).
  eexists. split; [repeat rewrite <- app_assoc; reflexivity|].
  apply elem_of_app in Hc as [Hc|Hc].
  - unfold preStart_calls. repeat (apply elem_of_cons in Hc as [->|Hc]; [try done; rewrite !elem_of_app; cbn; set_solver|]).
    by apply elem_of_nil in Hc.
  - apply elem_of_app. right. apply elem_of_app. left. unfold starts. by apply (list_elem_of_fmap_2 (fun c => CompStart c StartStateStart)).
Qed.

(** ** Closing *)

(** No call panics. *)
Definition no_panic : Prop := forall tr msg, result tr <> Panic msg.

Lemma bm_bind_ok {A B} (m : BM A) (f : A -> BM B) s a s1 : m s = (Ok a, s1) -> (m ≫= f) s = f a s1.
Proof. intros H. unfold mbind, bm_bind. by rewrite H. Qed.

Lemma append_err_spec errs ev msg s :
  no_panic ->
  exists errs', append_err errs ev msg s =
    (Ok errs', mkBox (bx_done s) (bx_debugHTTPServer s) (bx_ctxErr s) (bx_trace s ++ [ev])).
Proof.
  intros Hnp. unfold append_err, emit. destruct (result (bx_trace s ++ [ev])) as [u|e|m] eqn:Hr;
    [by eexists..|]. by destruct (Hnp _ _ Hr).
Qed.

Lemma close_items_spec errs items s :
  no_panic ->
  exists errs', close_items errs items s =
    (Ok errs', mkBox (bx_done s) (bx_debugHTTPServer s) (bx_ctxErr s)
                 (bx_trace s ++ map (fun it => CompClose (fst it)) items)).
Proof.
  intros Hnp. revert errs s. induction items as [|[c name] items IH]; intros errs s; cbn [close_items map fst].
  - exists errs. rewrite app_nil_r. by destruct s.
  - destruct (append_err_spec errs (CompClose c) [AStr "close "; AStr name] s Hnp) as (errs1 & H1).
    destruct (IH errs1 (mkBox (bx_done s) (bx_debugHTTPServer s) (bx_ctxErr s) (bx_trace s ++ [CompClose c])))
      as (errs2 & H2).
    exists errs2. rewrite (bm_bind_ok _ _ _ _ _ H1), H2. cbn. by rewrite <- app_assoc.
Qed.

Lemma close_debug_spec s :
  no_panic ->
  exists errs, close_debug s =
    (Ok errs, mkBox (bx_done s) false (bx_ctxErr s)
                (bx_trace s ++ if bx_debugHTTPServer s then [DebugServerClose] else [])).
Proof.
  intros Hnp. unfold close_debug. destruct (bx_debugHTTPServer s) eqn:Hd.
  - destruct (append_err_spec [] DebugServerClose [AStr "close debug HTTP server"] s Hnp) as (errs & ->).
    by exists errs.
  - exists []. rewrite app_nil_r. destruct s; cbn in *. by subst.
Qed.

(** [Close] of an open box closes every component once, whatever their errors. *)
Lemma box_Close_spec s :
  no_panic -> bx_done s = false ->
  exists errs, box_Close s =
    (Ok errs, mkBox true false (bx_ctxErr s)
       (bx_trace s ++ (if bx_debugHTTPServer s then [DebugServerClose] else []) ++ closings)).
Proof.
  intros Hnp Hd. unfold box_Close. rewrite Hd. set (s0 := mkBox true _ _ _).
  destruct (close_debug_spec s0 Hnp) as (e1 & H1).
  match type of H1 with _ = (_, ?s1) => destruct (close_items_spec e1 closeItem s1 Hnp) as (e2 & H2) end.
  match type of H2 with _ = (_, ?s2) =>
    destruct (close_items_spec e2 [(CHTTPClient, httpClientName)] s2 Hnp) as (e3 & H3) end.
  match type of H3 with _ = (_, ?s3) => destruct (close_items_spec e3 internal_services s3 Hnp) as (e4 & H4) end.
  match type of H4 with _ = (_, ?s4) =>
    destruct (append_err_spec e4 LogClose [AStr "close logger"] s4 Hnp) as (e5 & H5) end.
  exists e5. rewrite (bm_bind_ok _ _ _ _ _ H1), (bm_bind_ok _ _ _ _ _ H2), (bm_bind_ok _ _ _ _ _ H3),
    (bm_bind_ok _ _ _ _ _ H4), H5. f_equal. cbn [bx_done bx_debugHTTPServer bx_ctxErr bx_trace].
  f_equal. unfold closings, internal_services. rewrite !map_map. repeat rewrite <- app_assoc. done.
Qed.

(** Everything that is started is closed once. *)
Lemma closes_of_app c a b : closes_of c (a ++ b) = (closes_of c a + closes_of c b)%nat.
Proof. unfold closes_of. by rewrite list.filter_app, length_app. Qed.
Lemma closes_of_once c l : NoDup l -> c ∈ l -> closes_of c (map CompClose l) = 1%nat.
Proof.
  clear. intros Hnd Hc. apply list_elem_of_split in Hc as (l1 & l2 & ->). apply list.NoDup_app in Hnd as (_ & H1 & [H2 _]%list.NoDup_cons).
  assert (Hnone : forall l, c ∉ l -> closes_of c (map CompClose l) = 0%nat).
  { clear. intros l. induction l as [|x l IH]; intros Hl; [done|]. unfold closes_of in *. cbn [map].
    rewrite filter_cons_False by (intros [= ->]; apply Hl; left). apply IH. set_solver. }
  rewrite map_app, closes_of_app. cbn [map]. change (CompClose c :: map CompClose l2) with ([CompClose c] ++ map CompClose l2).
  rewrite closes_of_app, !Hnone; [|done|intros Hc; apply (H1 c Hc); left]. unfold closes_of. rewrite filter_cons_True by done. done.
Qed.
Lemma closings_once c : NoDup internalService -> c ∈ CHTTPClient :: components -> closes_of c closings = 1%nat.
Proof.
  intros Hnd Hc. unfold closings. rewrite app_assoc, <-map_app, closes_of_app. change (closes_of c [LogClose]) with 0%nat. rewrite Nat.add_0_r.
  apply closes_of_once.
  - apply list.NoDup_app. split; [apply (bool_decide_unpack _); by vm_compute|]. split; [|by apply (NoDup_fmap_2 CInternal)].
    intros x Hx (n & -> & _)%list_elem_of_fmap. set_solver.
  - unfold components in Hc. set_solver.
Qed.
Lemma schedule_components c stage : CompStart c stage ∈ schedule -> c ∈ CHTTPClient :: components.
Proof.
  assert (Hs : forall st l, CompStart c stage ∈ starts st l -> c ∈ l).
  { clear. intros st l (c' & [= -> _] & Hc')%list_elem_of_fmap. done. }
  unfold schedule, components. rewrite !elem_of_app. intros H. repeat match type of H with _ \/ _ => destruct H as [H|H] end;
    first [apply Hs in H; set_solver|destruct debugListen; set_solver|set_solver].
Qed.

(** The debug server is kept from when it has been started. *)
Definition keeps_debug {A} (m : BM A) : Prop := forall s, bx_debugHTTPServer (snd (m s)) = bx_debugHTTPServer s.
Lemma keeps_debug_bind {A B} (m : BM A) (f : A -> BM B) : keeps_debug m -> (forall a, keeps_debug (f a)) -> keeps_debug (m ≫= f).
Proof.
  intros Hm Hf s. unfold mbind, bm_bind. specialize (Hm s). destruct (m s) as [[a|e|msg] s1]; cbn in *; [|done..]. by rewrite Hf.
Qed.
Lemma keeps_debug_ctx : keeps_debug check_ctx.
Proof. done. Qed.
Lemma keeps_debug_emit ev : keeps_debug (emit ev).
Proof. done. Qed.
Lemma keeps_debug_cause msg ev : keeps_debug (cause msg (emit ev)).
Proof. done. Qed.
Lemma keeps_debug_Start stage l : keeps_debug (adapter_Start stage l).
Proof. induction l as [|c l IH]; [done|]. cbn [adapter_Start]. auto using keeps_debug_bind, keeps_debug_ctx, keeps_debug_emit. Qed.
Lemma keeps_debug_StartNamed stage l : keeps_debug (adapter_StartNamed stage l).
Proof. induction l as [|[c n] l IH]; [done|]. cbn [adapter_StartNamed]. auto using keeps_debug_bind, keeps_debug_ctx, keeps_debug_cause. Qed.

(** A computation leaves the context and the channel as they are. *)
Definition keeps {A} (m : BM A) : Prop :=
  forall s, bx_ctxErr (snd (m s)) = bx_ctxErr s /\ bx_done (snd (m s)) = bx_done s.

Lemma keeps_bind {A B} (m : BM A) (f : A -> BM B) : keeps m -> (forall a, keeps (f a)) -> keeps (m ≫= f).
Proof.
  intros Hm Hf s. unfold mbind, bm_bind. specialize (Hm s). destruct (m s) as [[a|e|msg] s1]; cbn in *; [|done..].
  destruct (Hf a s1) as [-> ->]. done.
Qed.

Lemma keeps_append errs ev msg : keeps (append_err errs ev msg).
Proof. intros s. unfold append_err, emit. by destruct (result _). Qed.

Lemma keeps_close_items errs items : keeps (close_items errs items).
Proof.
  revert errs. induction items as [|[c name] items IH]; intros errs; [done|]. cbn [close_items].
  apply keeps_bind; [apply keeps_append|]. done.
Qed.

Lemma keeps_close_debug : keeps close_debug.
Proof.
  intros s. unfold close_debug. destruct (bx_debugHTTPServer s); [|done].
  destruct (keeps_append [] DebugServerClose [AStr "close debug HTTP server"] s) as [H1 H2].
  destruct (append_err _ _ _ s) as [[a|e|m] s1]; cbn in *; done.
Qed.

(** After [Close] the channel is closed, whatever happened. *)
Lemma box_Close_done s :
  bx_ctxErr (snd (box_Close s)) = bx_ctxErr s /\ bx_done (snd (box_Close s)) = true.
Proof.
  unfold box_Close. destruct (bx_done s) eqn:Hd; [done|].
  match goal with |- context [snd (?m ?s0)] => assert (Hk : keeps m); [|destruct (Hk s0) as [-> ->]; done] end.
  apply keeps_bind; [apply keeps_close_debug|]. intros e1. apply keeps_bind; [apply keeps_close_items|].
  intros e2. apply keeps_bind; [apply keeps_close_items|]. intros e3.
  apply keeps_bind; [apply keeps_close_items|]. intros e4. apply keeps_append.
Qed.

(** A start in a live context: the box is as open as before, or it has been
    closed after an error; the calls are an extension. *)
Lemma box_Start_keeps s :
  bx_ctxErr s = None ->
  bx_ctxErr (snd (box_Start s)) = None /\
  (bx_done s = true -> bx_done (snd (box_Start s)) = true).
Proof.
  intros Hctx. unfold box_Start. pose proof (follows_start s Hctx) as Hf.
  destruct (box_start s) as [r s1], (run (bx_trace s) schedule) as [r1 tr1].
  destruct Hf as (_ & _ & Hd & Hc). destruct r as [u|e|m]; cbn; [by rewrite Hd| |by rewrite Hd].
  destruct (box_Close_done s1) as [E1 E2]. rewrite Hc in E1.
  destruct (box_Close s1) as [[a|e'|m] s2]; cbn in *; done.
Qed.

(** A start is the logger, the debug server, and calls that leave the server alone. *)
Lemma box_start_parts : exists rest, keeps_debug rest /\
  forall s, box_start s = (_ ← cause [AStr "start logger"] (emit LogStart); _ ← startDebugHTTPServer; rest) s.
Proof.
  pose proof keeps_debug_Start as H1. pose proof keeps_debug_StartNamed as H2. unfold box_start, box_preStart.
  match goal with |- context [(_ ← (_ ← _; (_ ← startDebugHTTPServer; ?a)); ?b)] => exists ((_ ← a; b) : BM unit) end.
  split; [auto 30 using keeps_debug_bind|].
  intros s. unfold mbind, bm_bind. destruct (cause _ _ s) as [[u|e|m] s1]; [|done..]. by destruct (startDebugHTTPServer s1) as [[u'|e|m] s2].
Qed.
Lemma schedule_debug : exists others, (DebugServerStart ∉ others) /\
  schedule = [LogStart] ++ (if debugListen then [DebugServerStart] else []) ++ others.
Proof.
  unfold schedule. eexists. split; [|reflexivity]. assert (Hs : forall st l, DebugServerStart ∉ starts st l).
  { clear. intros st l (c' & ? & _)%list_elem_of_fmap. done. }
  rewrite !not_elem_of_app. repeat split; apply Hs.
Qed.
(** The debug server is there after a failure when it had been started before. *)
Lemma box_start_debug s e e' s1 k :
  bx_debugHTTPServer s = false -> box_start s = (Err e, s1) ->
  bx_trace s1 = bx_trace s ++ take (S k) schedule -> (k < length schedule)%nat -> result (bx_trace s1) = Err e' ->
  bx_debugHTTPServer s1 = bool_decide (DebugServerStart ∈ take k schedule).
Proof.
  intros Hf Hs Ht Hk Hr. destruct box_start_parts as (rest & Hrest & Heq). rewrite Heq in Hs. clear Heq.
  destruct schedule_debug as (others & Hnone & Hsch). unfold mbind, bm_bind in Hs. unfold cause at 1, emit at 1 in Hs.
  destruct (result (bx_trace s ++ [LogStart])) as [u|e1|m] eqn:R1; cbn in Hs; [| |done].
  2: { injection Hs as _ <-. apply app_inv_head in Ht. apply (f_equal length) in Ht. rewrite length_take in Ht. cbn [length app] in Ht.
       replace k with 0%nat by lia. by rewrite bool_decide_eq_false_2 by set_solver. }
  unfold startDebugHTTPServer in Hs. destruct debugListen.
  2: { cbn in Hs. pose proof (Hrest (set_debug false (mkBox (bx_done s) (bx_debugHTTPServer s) (bx_ctxErr s) (bx_trace s ++ [LogStart])))) as H.
       rewrite Hs in H. cbn in H. rewrite H, bool_decide_eq_false_2; [done|]. intros Hin. apply (subseteq_take k) in Hin. rewrite Hsch in Hin. set_solver. }
  cbn [app] in Hsch. unfold cause, emit in Hs. cbn [bx_trace bx_done bx_debugHTTPServer bx_ctxErr] in Hs.
  destruct (result ((bx_trace s ++ [LogStart]) ++ [DebugServerStart])) as [u'|e2|m] eqn:R2; cbn in Hs; [| |done].
  - match type of Hs with rest ?s0 = _ => pose proof (Hrest s0) as H end. rewrite Hs in H. cbn in H. rewrite H. symmetry. apply bool_decide_eq_true_2.
    rewrite Hsch in *. destruct k as [|[|k]]; [rewrite Ht in Hr; cbn in Hr; congruence| |cbn; set_solver].
    rewrite Ht in Hr. change (take 2 _) with [LogStart; DebugServerStart] in Hr. rewrite <-app_assoc in R2. cbn [app] in R2. congruence.
  - injection Hs as _ <-. cbn [bx_trace set_debug] in Ht. rewrite <-app_assoc in Ht. apply app_inv_head in Ht. apply (f_equal length) in Ht. rewrite length_take in Ht. cbn [length app] in Ht.
    replace k with 1%nat by lia. rewrite Hsch. rewrite bool_decide_eq_false_2; [done|]. cbn. set_solver.
Qed.

(** How a start ends when no call panics. *)
Lemma box_Start_spec s :
  no_panic -> bx_ctxErr s = None ->
  let '(r, s') := box_Start s in
  match r with
  | Ok _ => bx_trace s' = bx_trace s ++ schedule /\ bx_done s' = bx_done s
  | Err _ => exists k e s1, (k < length schedule)%nat /\
      result (bx_trace s ++ take (S k) schedule) = Err e /\ bx_done s' = true /\
      bx_trace s1 = bx_trace s ++ take (S k) schedule /\ bx_done s1 = bx_done s /\ s' = snd (box_Close s1) /\
      (bx_debugHTTPServer s = false -> bx_debugHTTPServer s1 = bool_decide (DebugServerStart ∈ take k schedule))
  | Panic _ => False
  end.
Proof.
  intros Hnp Hctx. unfold box_Start. pose proof (follows_start s Hctx) as Hf.
  pose proof (run_prefix (bx_trace s) schedule) as Hp.
  destruct (box_start s) as [r s1] eqn:Es, (run (bx_trace s) schedule) as [r1 tr1].
  destruct Hf as (Ho & Ht & Hd & Hc). destruct r as [u|e|m], r1 as [u1|e1|m1]; try done.
  - by rewrite Ht, Hd.
  - destruct Hp as (k & Hk & -> & Hr). rewrite <-Ht in Hr.
    assert (Hdebug : bx_debugHTTPServer s = false -> bx_debugHTTPServer s1 = bool_decide (DebugServerStart ∈ take k schedule)).
    { intros Hf. by apply (box_start_debug s e e1 s1 k). }
    assert (Hn : forall m s2, box_Close s1 <> (Panic m, s2)).
    { intros m s2 E. destruct (bx_done s1) eqn:E1.
      - unfold box_Close in E. by rewrite E1 in E.
      - destruct (box_Close_spec s1 Hnp E1) as (errs & E'). congruence. }
    destruct (box_Close_done s1) as [_ Hdone]. destruct (box_Close s1) as [[a|e'|m] s2] eqn:Ec;
      [| |by destruct (Hn m s2)]; exists k, e1, s1; rewrite Ec, <-Ht; done.
  - destruct Hp as (k & _ & _ & Hr). by destruct (Hnp _ _ Hr).
Qed.

End Box.
