(* ===== verification/BoxInstance.v ===== *)
(** * Instances of the box

    [libcore/box.go]: the handle the application holds on a box.  An instance
    is new (0), started (1) or closed (2); at most one instance is the main
    one, for which the protect server runs.  Several instances share these
    globals, so the state is all instances by identity, the main instance and
    the protect server.  A method runs under the lock of its instance and is one
    step. *)

From stdpp Require Import base numbers list strings gmap option.
From Stdlib Require Import ZArith Lia Ascii.
From S2P Require Import Prelude ManagerCore BoxLifecycle.

Local Open Scope Z_scope.

(** [BoxInstance] *)
Record BoxInstance := mkInstance {
  bi_state : Z;
  bi_box : BoxState;
  bi_v2api : option (list string)
}.

(** [mainInstance], [protectCloser] and all instances. *)
Record Globals := mkGlobals {
  instances : gmap nat BoxInstance;
  mainInstance : option nat;
  protectCloser : bool
}.
Definition put (i : nat) (b : BoxInstance) (g : Globals) : Globals :=
  mkGlobals (<[i := b]> (instances g)) (mainInstance g) (protectCloser g).
Definition set_state (b : BoxInstance) (state : Z) (box : BoxState) : BoxInstance :=
  mkInstance state box (bi_v2api b).

(** [device.DeferPanicToError] *)
Definition panic_error (name msg : string) : error := E_New [AStr name; AStr " panic: "; AStr msg].

Section Instance.
Context (result : list BoxEvent -> Res unit).
Context (internalService : list string) (debugListen : bool) (httpClientName : string).
Definition Box_Start : BM unit := box_Start result internalService debugListen httpClientName.
Definition Box_Close : BM (list error) := box_Close result internalService httpClientName.

(** [goServeProtect]; [serve] tells whether the server can be started. *)
Definition goServeProtect (serve start : bool) (g : Globals) : Globals :=
  mkGlobals (instances g) (mainInstance g) (start && serve).

(** The instance [NewSingBoxInstance] returns. *)
Definition newInstance : BoxInstance := mkInstance 0 NewBox None.

(** [(b *BoxInstance) Start] *)
Definition BoxInstance_Start (b : BoxInstance) : Res unit * BoxInstance :=
  if bi_state b =? 0 then
    let '(r, box) := Box_Start (bi_box b) in
    match r with
    | Ok _ => (Ok tt, set_state b 1 box)
    | Err e => (Err e, set_state b 0 box)
    | Panic msg => (Err (panic_error "box.Start" msg), set_state b 0 box)
    end
  else (Err (E_New [AStr "already started"]), b).

(** [b.cancel()]; the error of a cancelled context. *)
Definition cancel (s : BoxState) : BoxState :=
  mkBox (bx_done s) (bx_debugHTTPServer s) (Some (E_New [AStr "context canceled"])) (bx_trace s).

(** [(b *BoxInstance) Close], of the instance [i]. *)
Definition BoxInstance_Close (serve : bool) (i : nat) (b : BoxInstance) (g : Globals)
  : Res unit * Globals :=
  if bi_state b =? 2 then (Ok tt, g)
  else
    let g := if bool_decide (mainInstance g = Some i)
             then goServeProtect serve false (mkGlobals (instances g) None (protectCloser g)) else g in
    let '(r, box) := Box_Close (cancel (bi_box b)) in
    (match r with Panic msg => Err (panic_error "box.Close" msg) | _ => Ok tt end,
     put i (set_state b 2 box) g).

(** [(b *BoxInstance) SetAsMain] *)
Definition SetAsMain (serve : bool) (i : nat) (g : Globals) : Globals :=
  goServeProtect serve true (mkGlobals (instances g) (Some i) (protectCloser g)).

(** [strings.Split(s, "\n")] *)
Fixpoint split_lines (s : string) : list string :=
  match s with
  | EmptyString => [""]
  | String c rest =>
      if bool_decide (c = "010"%char) then "" :: split_lines rest
      else match split_lines rest with
           | h :: t => String c h :: t
           | [] => [String c ""]
           end
  end.

(** [(b *BoxInstance) SetV2rayStats] *)
Definition SetV2rayStats (outbounds : string) (b : BoxInstance) : BoxInstance :=
  match bi_v2api b with
  | Some _ => b
  | None => mkInstance (bi_state b) (bi_box b) (Some (split_lines outbounds))
  end.

(** An HTTP client: direct, or through an instance, with its statistics. *)
Inductive HttpClient :=
  | Direct
  | Through (i : nat) (tracked : bool).

(** [(b *BoxInstance) newProxyHttpClient] *)
Definition newProxyHttpClient (i : nat) (b : BoxInstance) : Res HttpClient :=
  if bi_state b =? 2 then Err (E_New [AStr "instance is closed"])
  else Ok (Through i (negb (is_nil (bi_v2api b)))).

(** [UrlTest], up to the client it tests with; [i] may be nil. *)
Definition UrlTest_client (i : option nat) (g : Globals) : Res HttpClient :=
  match (match i with None => mainInstance g | Some _ => i end) with
  | None => Ok Direct
  | Some j =>
      match instances g !! j with
      | Some b => newProxyHttpClient j b
      | None => Panic "invalid memory address or nil pointer dereference"
      end
  end.

(** ** Runs *)

(** What the application does with its instances. *)
Inductive step : Globals -> Globals -> Prop :=
  | step_new g i : instances g !! i = None -> step g (put i newInstance g)
  | step_start g i b r b' :
      instances g !! i = Some b -> BoxInstance_Start b = (r, b') -> step g (put i b' g)
  | step_instance_close g serve i b r g' :
      instances g !! i = Some b -> BoxInstance_Close serve i b g = (r, g') -> step g g'
  | step_main g serve i b : instances g !! i = Some b -> step g (SetAsMain serve i g)
  | step_stats g i b outbounds :
      instances g !! i = Some b -> step g (put i (SetV2rayStats outbounds b) g).

Definition initial : Globals := mkGlobals ∅ None false.

(** The states of an instance, and what they say about its box. *)
Definition instance_wf (b : BoxInstance) : Prop :=
  (bi_state b = 0 \/ bi_state b = 1 \/ bi_state b = 2) /\
  (bi_state b <> 2 -> bx_ctxErr (bi_box b) = None) /\
  (bi_state b = 2 -> no_panic result -> bx_done (bi_box b) = true).
Definition globals_wf (g : Globals) : Prop :=
  (forall i b, instances g !! i = Some b -> instance_wf b) /\
  (protectCloser g = true -> is_Some (mainInstance g)) /\
  (forall i, mainInstance g = Some i -> is_Some (instances g !! i)).

Lemma put_wf i b g :
  globals_wf g -> instance_wf b -> globals_wf (put i b g).
Proof.
  intros (H1 & H2 & H3) Hb. split; [|split; [done|]]; cbn.
  - intros j b' [[_ <-]|[_ Hj]]%lookup_insert_Some; [done|by eapply H1].
  - intros j Hj. rewrite lookup_insert_is_Some'. right. by apply H3.
Qed.

Lemma start_wf b r b' : instance_wf b -> BoxInstance_Start b = (r, b') -> instance_wf b'.
Proof.
  intros Hb. unfold BoxInstance_Start. destruct (Z.eqb_spec (bi_state b) 0) as [H0|H0]; [|by intros [= _ <-]].
  destruct Hb as (_ & Hctx & _). pose proof (Hctx ltac:(lia)) as Hc.
  destruct (box_Start_keeps result internalService debugListen httpClientName (bi_box b) Hc) as [Hc' _].
  unfold Box_Start. destruct (box_Start _ _ _ _ (bi_box b)) as [[u|e|m] box]; cbn in Hc';
    intros [= _ <-]; (split; [cbn; lia|]); (split; [done|]); cbn; lia.
Qed.

Lemma close_state serve i b g :
  bi_state b <> 2 ->
  let '(r, g') := BoxInstance_Close serve i b g in
  instances g' = <[i := set_state b 2 (snd (Box_Close (cancel (bi_box b))))]> (instances g) /\
  mainInstance g' = (if bool_decide (mainInstance g = Some i) then None else mainInstance g) /\
  protectCloser g' = (if bool_decide (mainInstance g = Some i) then false else protectCloser g) /\
  (no_panic result -> bx_done (bi_box b) = false -> r = Ok tt).
Proof.
  intros Hs. unfold BoxInstance_Close. destruct (Z.eqb_spec (bi_state b) 2) as [?|_]; [done|].
  destruct (Box_Close (cancel (bi_box b))) as [r box] eqn:Hc. cbn [snd].
  split; [by case_bool_decide|]. split; [by case_bool_decide|]. split; [by case_bool_decide|].
  intros Hnp Hd. destruct (box_Close_spec result internalService httpClientName (cancel (bi_box b)) Hnp Hd)
    as (errs & E). unfold Box_Close in Hc. rewrite E in Hc. by injection Hc as <- _.
Qed.

Lemma step_wf g g' : globals_wf g -> step g g' -> globals_wf g'.
Proof.
  intros Hg Hstep. pose proof Hg as (H1 & H2 & H3).
  destruct Hstep as [g i Hi|g i b r b' Hi Hs|g serve i b r g' Hi Hs|g serve i b Hi|g i b outbounds Hi].
  - apply put_wf; [done|]. split; [cbn; lia|]. split; [done|]. cbn; lia.
  - apply put_wf; [done|]. eapply start_wf; [by eapply H1|done].
  - destruct (Z.eq_dec (bi_state b) 2) as [E|E].
    { unfold BoxInstance_Close in Hs. apply Z.eqb_eq in E. rewrite E in Hs. by injection Hs as _ <-. }
    pose proof (close_state serve i b g E) as Hc. rewrite Hs in Hc. destruct Hc as (Ei & Em & Ep & _).
    split; [|split]; rewrite ?Ei, ?Em, ?Ep.
    + intros j b' [[_ <-]|[_ Hj]]%lookup_insert_Some; [|by eapply H1].
      split; [cbn; lia|]. split; [cbn; lia|]. intros _ _. cbn. apply box_Close_done.
    + case_bool_decide; [done|]. apply H2.
    + intros j Hj. rewrite lookup_insert_is_Some'. right. apply H3. by case_bool_decide.
  - split; [exact H1|]. split; [done|]. cbn. intros j [= <-]. by exists b.
  - apply put_wf; [done|]. specialize (H1 i b Hi). unfold SetV2rayStats. by destruct (bi_v2api b).
Qed.

Lemma reachable_wf g : rtc step initial g -> globals_wf g.
Proof.
  intros Hr. assert (H0 : globals_wf initial).
  { split; [|by split]. intros i b Hi. change ((∅ : gmap nat BoxInstance) !! i = Some b) in Hi. by rewrite lookup_empty in Hi. }
  revert H0. induction Hr as [g|a b c Hs Hr IH]; [done|]. intros Ha. apply IH. by eapply step_wf.
Qed.

(** A closed instance is left alone by every step. *)
Lemma closed_step g g' i b :
  instances g !! i = Some b -> bi_state b = 2 -> step g g' ->
  exists b', instances g' !! i = Some b' /\ bi_state b' = 2 /\ bi_box b' = bi_box b.
Proof.
  intros Hi Hb Hstep.
  assert (Hput : forall j c g, instances g !! i = Some b ->
            (j = i -> bi_state c = 2 /\ bi_box c = bi_box b) ->
            exists b', instances (put j c g) !! i = Some b' /\ bi_state b' = 2 /\ bi_box b' = bi_box b).
  { intros j c g0 Hi0 Hc. cbn. destruct (decide (j = i)) as [->|Hne].
    - rewrite lookup_insert_eq. exists c. split; [done|by apply Hc].
    - rewrite lookup_insert_ne by done. by exists b. }
  destruct Hstep as [g j Hj|g j c r c' Hj Hs|g serve j c r g' Hj Hs|g serve j c Hj|g j c outbounds Hj].
  - apply Hput; [done|]. intros ->. congruence.
  - apply Hput; [done|]. intros ->. rewrite Hi in Hj. injection Hj as <-.
    unfold BoxInstance_Start in Hs. rewrite Hb in Hs. cbn in Hs. by injection Hs as _ <-.
  - destruct (Z.eq_dec (bi_state c) 2) as [E|E].
    { unfold BoxInstance_Close in Hs. apply Z.eqb_eq in E. rewrite E in Hs. injection Hs as _ <-. by exists b. }
    pose proof (close_state serve j c g E) as Hc. rewrite Hs in Hc. destruct Hc as (-> & _).
    destruct (decide (j = i)) as [->|Hne]; [congruence|]. rewrite lookup_insert_ne by done. by exists b.
  - by exists b.
  - apply Hput; [done|]. intros ->. rewrite Hi in Hj. injection Hj as <-. unfold SetV2rayStats.
    by destruct (bi_v2api b).
Qed.

Lemma closed_forever g g' i b :
  instances g !! i = Some b -> bi_state b = 2 -> rtc step g g' ->
  exists b', instances g' !! i = Some b' /\ bi_state b' = 2 /\ bi_box b' = bi_box b.
Proof.
  intros Hi Hb Hr. revert b Hi Hb. induction Hr as [g|x y z Hs Hr IH]; intros b Hi Hb; [by exists b|].
  destruct (closed_step x y i b Hi Hb Hs) as (b1 & H1 & H2 & H3).
  destruct (IH b1 H1 H2) as (b2 & G1 & G2 & G3). exists b2. split; [done|]. split; [done|]. congruence.
Qed.

(** C39: whatever the application does with its instances: the protect server
    runs only while there is a main instance; closing an instance makes it
    closed, takes the main role from it and stops the protect server if it had
    it; after that the instance is closed for ever, its box is never called
    again, another close does nothing, a start fails, and no test goes through
    it. *)
Theorem closed_instance_is_final g i b serve r g' :
  rtc step initial g -> instances g !! i = Some b -> BoxInstance_Close serve i b g = (r, g') ->
  bi_state b <> 2 ->
  (protectCloser g = true -> is_Some (mainInstance g)) /\
  mainInstance g' <> Some i /\
  (mainInstance g = Some i -> protectCloser g' = false) /\
  (exists c, instances g' !! i = Some c /\ (no_panic result -> bx_done (bi_box c) = true) /\
   forall g2, rtc step g' g2 ->
   exists c2, instances g2 !! i = Some c2 /\ bi_state c2 = 2 /\ bi_box c2 = bi_box c /\
     BoxInstance_Close serve i c2 g2 = (Ok tt, g2) /\
     BoxInstance_Start c2 = (Err (E_New [AStr "already started"]), c2) /\
     newProxyHttpClient i c2 = Err (E_New [AStr "instance is closed"])).
Proof.
  intros Hr Hi Hclose Hs. destruct (reachable_wf g Hr) as (_ & Hp & _). split; [done|].
  pose proof (close_state serve i b g Hs) as Hc. rewrite Hclose in Hc. destruct Hc as (Ei & Em & Ep & _).
  split; [rewrite Em; case_bool_decide; done|]. split; [intros E; rewrite Ep; by rewrite bool_decide_eq_true_2|].
  exists (set_state b 2 (snd (Box_Close (cancel (bi_box b))))).
  assert (Hg' : instances g' !! i = Some (set_state b 2 (snd (Box_Close (cancel (bi_box b)))))).
  { rewrite Ei. apply lookup_insert_eq. }
  split; [done|]. split; [intros _; apply box_Close_done|]. intros g2 Hr2.
  destruct (closed_forever g' g2 i _ Hg' eq_refl Hr2) as (c2 & G1 & G2 & G3).
  exists c2. split; [done|]. split; [done|]. split; [done|].
  unfold BoxInstance_Close, BoxInstance_Start, newProxyHttpClient. by rewrite G2.
Qed.

(** ** Departures *)

(** An instance that is started again after a failed start is never closed:
    the failed start has closed the box for good, so [Close] returns at once and
    the components started by the second attempt keep running. *)
Lemma retried_instance_not_closed b e b1 b2 serve i g :
  no_panic result -> instance_wf b -> bx_done (bi_box b) = false ->
  BoxInstance_Start b = (Err e, b1) -> bi_state b = 0 -> BoxInstance_Start b1 = (Ok tt, b2) ->
  bx_trace (bi_box b2) = bx_trace (bi_box b1) ++ schedule internalService debugListen /\
  exists c, instances (snd (BoxInstance_Close serve i b2 g)) !! i = Some c /\
    bx_trace (bi_box c) = bx_trace (bi_box b2).
Proof.
  intros Hnp (_ & Hctx & _) Hd H1 H0 H2. assert (Hc : bx_ctxErr (bi_box b) = None) by (apply Hctx; lia).
  pose proof (box_Start_spec result internalService debugListen httpClientName (bi_box b) Hnp Hc) as S1.
  destruct (box_Start_keeps result internalService debugListen httpClientName (bi_box b) Hc) as [Hc1 _].
  unfold BoxInstance_Start, Box_Start in H1. rewrite H0 in H1. cbn in H1.
  destruct (box_Start _ _ _ _ (bi_box b)) as [[u|e'|m] box1]; [done| |done]. injection H1 as <- <-.
  destruct S1 as (_ & _ & _ & _ & _ & Hdone1 & _). cbn in Hc1.
  pose proof (box_Start_spec result internalService debugListen httpClientName box1 Hnp Hc1) as S2.
  unfold BoxInstance_Start, Box_Start in H2. cbn in H2.
  destruct (box_Start _ _ _ _ box1) as [[u|e2|m] box2]; [|done|done]. injection H2 as <-.
  destruct S2 as [Ht Hd2]. rewrite Hdone1 in Hd2. split; [exact Ht|].
  unfold BoxInstance_Close. cbn. unfold Box_Close, box_Close. cbn. rewrite Hd2.
  eexists. split; [apply lookup_insert_eq|]. done.
Qed.

(** A closed instance can be made the main one, and then keeps the role and the
    protect server: closing it again does nothing. *)
Lemma closed_main_stays g i b serve :
  instances g !! i = Some b -> bi_state b = 2 ->
  mainInstance (SetAsMain true i g) = Some i /\ protectCloser (SetAsMain true i g) = true /\
  BoxInstance_Close serve i b (SetAsMain true i g) = (Ok tt, SetAsMain true i g).
Proof. intros _ Hb. unfold BoxInstance_Close. by rewrite Hb. Qed.
End Instance.

(** ** Concrete runs of the box

    A box with two internal services: a start that succeeds, one that fails in
    the outbounds, and what can go wrong after a failed start. *)

Module BoxExamples.

Definition services : list string := ["cache file"; "clash server"].
Definition all_ok : list BoxEvent -> Res unit := fun _ => Ok tt.
Definition no_port : error := E_New [AStr "address already in use"].

(** The first start of the inbounds fails. *)
Definition inbound_fails : list BoxEvent -> Res unit := fun tr =>
  if bool_decide (list.last tr = Some (CompStart CInbound StartStateStart)) &&
     bool_decide (length (List.filter (fun ev => bool_decide (ev = CompStart CInbound StartStateStart)) tr) = 1%nat)
  then Err no_port else Ok tt.

Lemma all_ok_no_panic : no_panic all_ok.
Proof. by intros tr msg. Qed.
Lemma inbound_fails_no_panic : no_panic inbound_fails.
Proof. intros tr msg. unfold inbound_fails. by destruct (_ && _). Qed.
Lemma services_nodup : NoDup services.
Proof. apply (bool_decide_unpack _). vm_compute. done. Qed.


(** A start that fails in the inbounds closes everything. *)
Example failed_start_closes :
  list.last (bx_trace (snd (box_Start inbound_fails services false "http-client" NewBox))) = Some LogClose /\
  CompClose COutbound ∈ bx_trace (snd (box_Start inbound_fails services false "http-client" NewBox)).
Proof. split; [vm_compute; reflexivity|]. apply (bool_decide_unpack _). vm_compute. done. Qed.

(** The same, and closing the services panics. *)
Definition close_panics : list BoxEvent -> Res unit := fun tr =>
  if bool_decide (list.last tr = Some (CompClose CService)) then Panic "close of nil channel"
  else inbound_fails tr.

(** A failed start can be reported as a success: [Box.Start] catches a panic
    of the closing of the components in a deferred function and then returns
    the zero value of its result.  The instance counts as started, although the
    inbounds failed and were neither started nor closed. *)
Theorem failed_start_reported_as_success :
  let '(r, b) := BoxInstance_Start close_panics services false "http-client" newInstance in
  r = Ok tt /\ bi_state b = 1 /\ bx_done (bi_box b) = true /\
  close_panics (take 25 (bx_trace (bi_box b))) = Err no_port /\ CompClose CInbound ∉ bx_trace (bi_box b).
Proof.
  destruct (BoxInstance_Start _ _ _ _ _) as [r b] eqn:E. vm_compute in E. injection E as <- <-.
  split; [reflexivity|]. split; [reflexivity|]. split; [reflexivity|]. split; [vm_compute; reflexivity|].
  apply (bool_decide_unpack _). vm_compute. done.
Qed.

(** Two instances; the first is the main one and is closed. *)
Definition start (b : BoxInstance) : BoxInstance := snd (BoxInstance_Start all_ok services false "http-client" b).
Definition g1 : Globals := put 0 newInstance initial.
Definition g2 : Globals := put 1 newInstance g1.
Definition g3 : Globals := put 0 (start newInstance) g2.
Definition g4 : Globals := SetAsMain true 0 g3.

Lemma g4_reachable : rtc (step all_ok services false "http-client") initial g4.
Proof.
  eapply rtc_l; [apply (step_new _ _ _ _ initial 0%nat); reflexivity|].
  eapply rtc_l; [apply (step_new _ _ _ _ g1 1%nat); reflexivity|].
  eapply rtc_l; [apply (step_start _ _ _ _ g2 0%nat newInstance (Ok tt) (start newInstance)); vm_compute; reflexivity|].
  apply rtc_once. apply (step_main _ _ _ _ g3 true 0%nat (start newInstance)). reflexivity.
Qed.

Lemma closed_instance_is_final_witness :
  mainInstance g4 = Some 0%nat /\ protectCloser g4 = true /\
  mainInstance (snd (BoxInstance_Close all_ok services "http-client" true 0 (start newInstance) g4)) <> Some 0%nat.
Proof.
  split; [reflexivity|]. split; [reflexivity|].
  destruct (BoxInstance_Close all_ok services "http-client" true 0 (start newInstance) g4) as [r g'] eqn:E.
  apply (closed_instance_is_final all_ok services false "http-client" g4 0 (start newInstance) true r g'
           g4_reachable eq_refl E). vm_compute. discriminate.
Defined.

(** The second attempt succeeds, and [Close] leaves its components running. *)
Definition again (b : BoxInstance) : BoxInstance :=
  snd (BoxInstance_Start inbound_fails services false "http-client" b).
Example retried_instance :
  fst (BoxInstance_Start inbound_fails services false "http-client" newInstance) = Err no_port /\
  fst (BoxInstance_Start inbound_fails services false "http-client" (again newInstance)) = Ok tt /\
  exists c, instances (snd (BoxInstance_Close inbound_fails services "http-client" true 0
                              (again (again newInstance)) initial)) !! 0%nat = Some c /\
    bx_trace (bi_box c) = bx_trace (bi_box (again (again newInstance))).
Proof.
  split; [vm_compute; reflexivity|]. split; [vm_compute; reflexivity|].
  destruct (retried_instance_not_closed inbound_fails services false "http-client" newInstance no_port
    (again newInstance) (again (again newInstance)) true 0 initial inbound_fails_no_panic) as [_ H].
  - split; [cbn; lia|]. split; [done|]. cbn. lia.
  - reflexivity.
  - vm_compute. reflexivity.
  - reflexivity.
  - vm_compute. reflexivity.
  - exact H.
Qed.
End BoxExamples.
