(* ===== verification/Router.v ===== *)
(** * The connection router

    [route/route.go] with [common/sniff/sniff.go] and the process lookup of
    [route/process_cache.go]: the metadata of a connection is completed, the
    rules are asked in order, the actions of matching rules are performed on
    the metadata, and a final action decides what becomes of the connection.

    A connection is what can be read from it: the results of the reads to come,
    behind the chunks put in front of it.  Outbounds are [Member]s.  The DNS
    client, the sniffers and the lookups of processes, neighbours and fake
    addresses are asked through [RouterEnv]. *)

From stdpp Require Import base numbers list strings gmap option.
From Stdlib Require Import ZArith Lia.
From S2P Require Import Prelude NetAddr Metadata RuleItems RuleAction RuleCore RuleDispatch ManagerCore.

Local Open Scope Z_scope.

(** ** Connections *)

(** A read of a stream: data, or an error of the read or of its deadline.
    When nothing is left, reads time out. *)
Inductive StreamRead :=
  | SRead (data : list Z)
  | SReadError (e : error)
  | SDeadlineError (e : error).

(** A read of a packet: the packet and its destination, a timeout, another
    error, or the end of the context. *)
Inductive PacketRead :=
  | PRead (data : list Z) (destination : Socksaddr)
  | PTimeout (e : error)
  | PError (e : error)
  | PCanceled (e : error).

(** [net.Conn] and [N.PacketConn], with what [bufio.NewCachedConn] and
    [bufio.NewCachedPacketConn] have put in front, in the order it is read. *)
Record Conn := mkConn { cn_cached : list (list Z); cn_reads : list StreamRead }.
Definition NewCachedConn (c : Conn) (buffer : list Z) : Conn :=
  mkConn (buffer :: cn_cached c) (cn_reads c).
(** [N.PacketBuffer]: a pointer to a packet; [pb_id] tells packets apart. *)
Record PacketBuffer := mkPacket { pb_id : nat; pb_Buffer : list Z; pb_Destination : Socksaddr }.
(** [pc_nat]: the addresses of a [fakeIPNATPacketConn] around it. *)
Record PacketConn := mkPacketConn {
  pc_nat : option (Socksaddr * Socksaddr);
  pc_cached : list (list Z * Socksaddr);
  pc_reads : list PacketRead
}.
Definition NewCachedPacketConn (c : PacketConn) (buffer : list Z) (destination : Socksaddr) : PacketConn :=
  mkPacketConn (pc_nat c) ((buffer, destination) :: pc_cached c) (pc_reads c).

Definition timeout_error : error := E_New [AStr "i/o timeout"].

(** ** What the router asks *)

(** Methods of [M.Socksaddr] and [netip.Addr], and [M.IsDomainName]. *)
Class SocksLib := {
  Socks_IsValid : Socksaddr -> bool;
  Socks_IsDomain : Socksaddr -> bool;
  Socks_IsIPv4 : Socksaddr -> bool;
  IsDomainName : string -> bool;
  Addr_IsLoopback : Addr -> bool;
  Socks_AddrPort : Socksaddr -> Addr * Z;
  (** what the pool of [N.PutPacketBuffer] makes of a packet given back *)
  PutPacketBuffer : PacketBuffer -> PacketBuffer;
  (** destinations of multiplexing and UDP over TCP *)
  mux_Destination : string;
  vmess_MuxDestination : string;
  uot_MagicAddress : string;
  uot_LegacyMagicAddress : string
}.

(** [adapter.DNSQueryOptions], as a resolve action fills it. *)
Record DNSQueryOptions := mkQueryOptions {
  qo_Server : string;
  qo_Timeout : Z;
  qo_Strategy : Z;
  qo_DisableCache : bool;
  qo_DisableOptimisticCache : bool;
  qo_RewriteTTL : option Z;
  qo_ClientSubnet : Prefix
}.

(** The other components of a router.  A sniffer may write to the metadata. *)
Record RouterEnv := mkRouterEnv {
  (** [findProcessInfoCached], and [MyInterfaceAddress] of the platform *)
  re_processSearcher : option (string -> Addr * Z -> Addr * Z -> Res ConnectionOwner);
  re_platformAddresses : list Addr;
  (** [neighborResolver]: [LookupMAC] and [LookupHostname] *)
  re_neighborResolver : option ((Addr -> option (list Z)) * (Addr -> option string));
  (** the store of [dnsTransport.FakeIP()]: [Contains] and [Lookup] *)
  re_fakeIP : option ((Addr -> bool) * (Addr -> option string));
  re_LookupReverseMapping : Addr -> option string;
  (** [dnsTransport.Transport] and [dns.Lookup] *)
  re_Transport : string -> bool;
  re_Lookup : InboundContext -> string -> DNSQueryOptions -> Res (list Addr);
  (** a stream sniffer reads the buffers through an [io.MultiReader], a packet
      sniffer gets the packet *)
  re_streamSniff : StreamSniffer -> InboundContext -> list (list Z) -> option error * InboundContext;
  re_packetSniff : PacketSniffer -> InboundContext -> list Z -> option error * InboundContext;
  (** the inbound manager: what can be injected into an inbound *)
  re_inbound : string -> option (bool * bool);
  (** the outbound manager and [Network] of outbounds *)
  re_Outbound : string -> option Member;
  re_Default : option Member;
  re_Network : Member -> list string;
  (** [Now] of an outbound group, [PreMatchFlow] of a flow outbound *)
  re_Now : Member -> option string;
  re_Flow : Member -> option (string -> Addr -> Z);
  (** the trackers: what they make of a connection *)
  re_trackers : list (Conn -> InboundContext -> Conn);
  re_packetTrackers : list (PacketConn -> InboundContext -> PacketConn)
}.

(** ** Writing to the metadata *)

Definition set_base (m : InboundContext) (b : ctx_base) : InboundContext :=
  mkInboundContext b (ic_power m) (ic_sniffer m) (ic_cache m) (ic_match m) (ic_rule m).
Definition set_power (m : InboundContext) (p : ctx_power) : InboundContext :=
  mkInboundContext (ic_base m) p (ic_sniffer m) (ic_cache m) (ic_match m) (ic_rule m).
Definition set_sniffer (m : InboundContext) (s : ctx_sniffer) : InboundContext :=
  mkInboundContext (ic_base m) (ic_power m) s (ic_cache m) (ic_match m) (ic_rule m).
Definition set_cache (m : InboundContext) (c : ctx_cache) : InboundContext :=
  mkInboundContext (ic_base m) (ic_power m) (ic_sniffer m) c (ic_match m) (ic_rule m).

Definition set_Destination (m : InboundContext) (d : Socksaddr) : InboundContext :=
  let b := ic_base m in
  set_base m (mkBase (c_Inbound b) (c_InboundType b) (c_IPVersion b) (c_Network b) (c_Source b) d
                (c_User b) (c_Outbound b)).
Definition set_IPVersion (m : InboundContext) (v : Z) : InboundContext :=
  let b := ic_base m in
  set_base m (mkBase (c_Inbound b) (c_InboundType b) v (c_Network b) (c_Source b) (c_Destination b)
                (c_User b) (c_Outbound b)).
Definition set_Network (m : InboundContext) (n : string) : InboundContext :=
  let b := ic_base m in
  set_base m (mkBase (c_Inbound b) (c_InboundType b) (c_IPVersion b) n (c_Source b) (c_Destination b)
                (c_User b) (c_Outbound b)).
Definition set_Inbound (m : InboundContext) (i : string) : InboundContext :=
  let b := ic_base m in
  set_base m (mkBase i (c_InboundType b) (c_IPVersion b) (c_Network b) (c_Source b) (c_Destination b)
                (c_User b) (c_Outbound b)).
Definition set_Domain (m : InboundContext) (d : string) : InboundContext :=
  let s := ic_sniffer m in
  set_sniffer m (mkSniffer (c_Protocol s) d (c_Client s) (c_SnifferNames s) (c_SniffError s)).
Definition set_Sniffed (m : InboundContext) (names : list string) (e : option error) : InboundContext :=
  let s := ic_sniffer m in
  set_sniffer m (mkSniffer (c_Protocol s) (c_Domain s) (c_Client s) names e).
Definition set_DestinationAddresses (m : InboundContext) (l : list Addr) : InboundContext :=
  let c := ic_match m in
  set_match m (mkMatch l (c_DNSResponse c) (c_NamedDNSResponses c) (c_DestinationAddressMatchFromResponse c)
    (c_SourceGeoIPCode c) (c_GeoIPCode c) (c_ProcessInfo c) (c_SourceMACAddress c) (c_SourceHostname c)
    (c_QueryType c) (c_QueryClientSubnet c) (c_QueryDNSSEC c) (c_FakeIP c) (c_PreMatch c)).
Definition set_ProcessInfo (m : InboundContext) (p : option ConnectionOwner) : InboundContext :=
  let c := ic_match m in
  set_match m (mkMatch (c_DestinationAddresses c) (c_DNSResponse c) (c_NamedDNSResponses c)
    (c_DestinationAddressMatchFromResponse c) (c_SourceGeoIPCode c) (c_GeoIPCode c) p
    (c_SourceMACAddress c) (c_SourceHostname c) (c_QueryType c) (c_QueryClientSubnet c)
    (c_QueryDNSSEC c) (c_FakeIP c) (c_PreMatch c)).
Definition set_Neighbor (m : InboundContext) (mac : option (list Z)) (hostname : string) : InboundContext :=
  let c := ic_match m in
  set_match m (mkMatch (c_DestinationAddresses c) (c_DNSResponse c) (c_NamedDNSResponses c)
    (c_DestinationAddressMatchFromResponse c) (c_SourceGeoIPCode c) (c_GeoIPCode c) (c_ProcessInfo c)
    mac hostname (c_QueryType c) (c_QueryClientSubnet c) (c_QueryDNSSEC c) (c_FakeIP c) (c_PreMatch c)).
Definition set_FakeIP (m : InboundContext) : InboundContext :=
  let c := ic_match m in
  set_match m (mkMatch (c_DestinationAddresses c) (c_DNSResponse c) (c_NamedDNSResponses c)
    (c_DestinationAddressMatchFromResponse c) (c_SourceGeoIPCode c) (c_GeoIPCode c) (c_ProcessInfo c)
    (c_SourceMACAddress c) (c_SourceHostname c) (c_QueryType c) (c_QueryClientSubnet c)
    (c_QueryDNSSEC c) true (c_PreMatch c)).
Definition set_PreMatch (m : InboundContext) : InboundContext :=
  let c := ic_match m in
  set_match m (mkMatch (c_DestinationAddresses c) (c_DNSResponse c) (c_NamedDNSResponses c)
    (c_DestinationAddressMatchFromResponse c) (c_SourceGeoIPCode c) (c_GeoIPCode c) (c_ProcessInfo c)
    (c_SourceMACAddress c) (c_SourceHostname c) (c_QueryType c) (c_QueryClientSubnet c)
    (c_QueryDNSSEC c) (c_FakeIP c) true).
Definition set_OriginDestination (m : InboundContext) (d : Socksaddr) : InboundContext :=
  let c := ic_cache m in
  set_cache m (mkCache (c_InboundDetour c) (c_LastInbound c) d (c_RouteOriginalDestination c)
    (c_UDPDisableDomainUnmapping c) (c_UDPConnect c) (c_UDPTimeout c) (c_TLSFragment c)
    (c_TLSFragmentFallbackDelay c) (c_TLSRecordFragment c) (c_TLSSpoof c) (c_TLSSpoofMethod c)
    (c_NetworkStrategy c) (c_NetworkType c) (c_FallbackNetworkType c) (c_FallbackDelay c)).
Definition set_UDPTimeout (m : InboundContext) (t : Z) : InboundContext :=
  let c := ic_cache m in
  set_cache m (mkCache (c_InboundDetour c) (c_LastInbound c) (c_OriginDestination c)
    (c_RouteOriginalDestination c) (c_UDPDisableDomainUnmapping c) (c_UDPConnect c) t (c_TLSFragment c)
    (c_TLSFragmentFallbackDelay c) (c_TLSRecordFragment c) (c_TLSSpoof c) (c_TLSSpoofMethod c)
    (c_NetworkStrategy c) (c_NetworkType c) (c_FallbackNetworkType c) (c_FallbackDelay c)).
Definition set_RouteOriginalDestination (m : InboundContext) (d : Socksaddr) : InboundContext :=
  let c := ic_cache m in
  set_cache m (mkCache (c_InboundDetour c) (c_LastInbound c) (c_OriginDestination c) d
    (c_UDPDisableDomainUnmapping c) (c_UDPConnect c) (c_UDPTimeout c) (c_TLSFragment c)
    (c_TLSFragmentFallbackDelay c) (c_TLSRecordFragment c) (c_TLSSpoof c) (c_TLSSpoofMethod c)
    (c_NetworkStrategy c) (c_NetworkType c) (c_FallbackNetworkType c) (c_FallbackDelay c)).
Definition set_Route (m : InboundContext) (rule outbound : string) : InboundContext :=
  set_power m (mkPower rule outbound).
(** [LastInbound = Inbound; Inbound = InboundDetour; InboundDetour = ""] *)
Definition take_detour (m : InboundContext) : InboundContext :=
  let c := ic_cache m in
  set_cache (set_Inbound m (c_InboundDetour c))
    (mkCache "" (Inbound m) (c_OriginDestination c)
    (c_RouteOriginalDestination c) (c_UDPDisableDomainUnmapping c) (c_UDPConnect c) (c_UDPTimeout c)
    (c_TLSFragment c) (c_TLSFragmentFallbackDelay c) (c_TLSRecordFragment c) (c_TLSSpoof c)
    (c_TLSSpoofMethod c) (c_NetworkStrategy c) (c_NetworkType c) (c_FallbackNetworkType c)
    (c_FallbackDelay c)).

(** ** Sniffing *)

(** [sniff.ErrNeedMoreData], and [errors.Is] for it. *)
Definition ErrNeedMoreData : error := E_New [AStr "need more data"].
Fixpoint is_need_more (e : error) : bool :=
  match e with
  | E_New [AStr s] => bool_decide (s = "need more data")
  | E_New _ => false
  | E_Cause e _ | E_Extend e _ => is_need_more e
  | E_Errors errs => existsb is_need_more errs
  | ErrInvalid | ErrClosed => false
  end.
Definition need_more (e : option error) : bool :=
  match e with Some e => is_need_more e | None => false end.

(** [E.Errors]: nil for no error, the error itself for one. *)
Definition join_errors (errs : list error) : option error :=
  match errs with
  | [] => None
  | [e] => Some e
  | _ => Some (E_Errors errs)
  end.

(** The loop over the sniffers: whether one succeeded, the metadata, the errors. *)
Fixpoint try_sniffers {S P} (sniff : S -> InboundContext -> P -> option error * InboundContext)
    (sniffers : list S) (m : InboundContext) (payload : P) : bool * InboundContext * list error :=
  match sniffers with
  | [] => (false, m, [])
  | sniffer :: rest =>
      let '(err, m) := sniff sniffer m payload in
      match err with
      | None => (true, m, [])
      | Some e =>
          let '(found, m, errs) := try_sniffers sniff rest m payload in
          (found, m, if found : bool then [] else e :: errs)
      end
  end.

(** [sniff.Skip] *)
Definition Skip (m : InboundContext) : bool :=
  let port := Socks_Port (Destination m) in
  (port =? 25) || (port =? 465) || (port =? 587) || (port =? 143) || (port =? 993) ||
  (port =? 110) || (port =? 995).

Section Router.
Context {SH : SliceHelpers} {GS : GoStd} {TP : ThirdParty} {DF : DialerFactory} {SL : SocksLib}.
Context (env : RuleEnv) (re : RouterEnv).

(** [PeekStream]; [last] is [sniffError], nil before the first read ([first]).
    The buffer of the caller, and the reads left, are part of the result.  A read
    is a result of [ReadOnceFrom]: it gives at most what the buffer has room for,
    and is an error when there is none. *)
Fixpoint PeekStream (sniffers : list StreamSniffer) (buffers : list (list Z)) (m : InboundContext)
    (buffer : list Z) (first : bool) (last : option error) (reads : list StreamRead)
  : option error * InboundContext * list Z * list StreamRead :=
  match reads with
  | SRead data :: reads =>
      let buffer := buffer ++ data in
      let '(found, m, errs) := try_sniffers (re_streamSniff re) sniffers m (buffers ++ [buffer]) in
      if found then (None, m, buffer, reads)
      else if existsb is_need_more errs
      then PeekStream sniffers buffers m buffer false (join_errors errs) reads
      else (join_errors errs, m, buffer, reads)
  | SDeadlineError e :: reads => (Some (E_Cause e [AStr "set read deadline"]), m, buffer, reads)
  | SReadError e :: reads =>
      (if first then Some (E_Cause e [AStr "read payload"]) else last, m, buffer, reads)
  | [] => (if first then Some (E_Cause timeout_error [AStr "read payload"]) else last, m, buffer, [])
  end.

(** [PeekPacket] *)
Definition PeekPacket (sniffers : list PacketSniffer) (m : InboundContext) (packet : list Z)
  : option error * InboundContext :=
  let '(found, m, errs) := try_sniffers (re_packetSniff re) sniffers m packet in
  (if found then None else join_errors errs, m).

Definition defaultPacketSniffers : list PacketSniffer :=
  [DomainNameQuery; QUICClientHello; STUNMessage; UTP; UDPTracker; DTLSRecord; NTP].
Definition defaultStreamSniffers : list StreamSniffer :=
  [TLSClientHello; HTTPHost; StreamDomainNameQuery; BitTorrent; SSH; RDP].

(** The destination becomes the sniffed domain. *)
Definition override_destination (action : RuleActionSniff) (m : InboundContext) : InboundContext :=
  if OverrideDestination action && IsDomainName (Domain m)
  then set_Destination m (mkSocksaddr AddrNone (Socks_Port (Destination m)) (Domain m))
  else m.

(** The same sniffers have failed before (and would not succeed with more data). *)
Definition failed_before (action : RuleActionSniff) (m : InboundContext) : bool :=
  bool_decide (c_SnifferNames (ic_sniffer m) = SnifferNames action) &&
  negb (is_nil (c_SniffError (ic_sniffer m))) && negb (need_more (c_SniffError (ic_sniffer m))).
Definition quicMoreData (action : RuleActionSniff) (m : InboundContext) : bool :=
  bool_decide (c_SnifferNames (ic_sniffer m) = SnifferNames action) &&
  need_more (c_SniffError (ic_sniffer m)).

(** [actionSniff] of a stream: the metadata, a new buffer if it is not empty,
    the reads left. *)
Definition actionSniff_stream (action : RuleActionSniff) (buffers : list (list Z)) (m : InboundContext)
    (reads : list StreamRead) : InboundContext * list (list Z) * list StreamRead :=
  if Skip m then (m, [], reads)
  else if negb (bool_decide (Protocol m = "")) then (m, [], reads)
  else if bool_decide (StreamSniffers action = []) && negb (bool_decide (PacketSniffers action = []))
  then (m, [], reads)
  else if failed_before action m then (m, [], reads)
  else
    let sniffers := if bool_decide (StreamSniffers action = []) then defaultStreamSniffers
                    else StreamSniffers action in
    let '(err, m, buffer, reads) := PeekStream sniffers buffers m [] true None reads in
    let m := set_Sniffed m (SnifferNames action) err in
    let m := if is_nil err then override_destination action m else m in
    (m, if bool_decide (buffer = []) then [] else [buffer], reads).

(** One packet is sniffed. *)
Definition sniff_packet (action : RuleActionSniff) (m : InboundContext) (packet : list Z)
  : option error * InboundContext :=
  let sniffers :=
    if quicMoreData action m then [QUICClientHello]
    else if bool_decide (PacketSniffers action = []) then defaultPacketSniffers
    else PacketSniffers action in
  let '(err, m) := PeekPacket sniffers m packet in
  (err, set_Sniffed m (SnifferNames action) err).

(** The loop over the packets that were read before: [Some] at [goto finally]. *)
Fixpoint sniff_buffered (action : RuleActionSniff) (l : list PacketBuffer) (m : InboundContext)
  : option (option error) * InboundContext :=
  match l with
  | [] => (None, m)
  | packet :: rest =>
      let '(err, m) := sniff_packet action m (pb_Buffer packet) in
      if need_more err then sniff_buffered action rest m else (Some err, m)
  end.

(** The loop that reads packets (numbered by the reads left): the error of the last step or a fatal one, the
    metadata, the packets, the reads left. *)
Fixpoint sniff_reads (action : RuleActionSniff) (reads : list PacketRead) (m : InboundContext)
    (packets : list PacketBuffer)
  : (option error * option error) * InboundContext * list PacketBuffer * list PacketRead :=
  match reads with
  | [] => ((Some timeout_error, None), m, packets, [])
  | PTimeout e :: reads => ((Some e, None), m, packets, reads)
  | PError e :: reads | PCanceled e :: reads => ((Some e, Some e), m, packets, reads)
  | PRead data destination :: reads =>
      let '(err, m) := sniff_packet action m data in
      let packets := packets ++ [mkPacket (length reads) data destination] in
      if need_more err then sniff_reads action reads m packets
      else ((err, None), m, packets, reads)
  end.

(** [actionSniff] of a packet connection: a fatal error, the metadata, the
    packets it returns, the reads left. *)
Definition actionSniff_packet (action : RuleActionSniff) (buffers : list PacketBuffer) (m : InboundContext)
    (reads : list PacketRead) : option error * InboundContext * list PacketBuffer * list PacketRead :=
  if Skip m then (None, m, [], reads)
  else if negb (bool_decide (Protocol m = "")) then (None, m, [], reads)
  else if bool_decide (PacketSniffers action = []) && negb (bool_decide (StreamSniffers action = []))
  then (None, m, [], reads)
  else if failed_before action m then (None, m, [], reads)
  else
    match sniff_buffered action buffers m with
    | (Some err, m) => (None, if is_nil err then override_destination action m else m, [], reads)
    | (None, m) =>
        let '((err, fatal), m, packets, reads) := sniff_reads action reads m buffers in
        match fatal with
        | Some e => (Some e, m, packets, reads)
        | None => (None, if is_nil err then override_destination action m else m, packets, reads)
        end
    end.

(** ** Completing the metadata *)

(** [isLocalSource] *)
Definition isLocalSource (source : Addr) : bool :=
  Addr_IsLoopback source || bool_decide (source ∈ re_platformAddresses re) ||
  existsb (fun netInterface => existsb (fun p => bool_decide (Prefix_Addr p = source))
                                 (ni_Addresses netInterface)) (FinderInterfaces env).

(** [searchProcessInfo] *)
Definition searchProcessInfo (m : InboundContext) : InboundContext :=
  match re_processSearcher re with
  | None => m
  | Some find =>
      if negb (is_nil (ProcessInfo m)) || negb (isLocalSource (Socks_Addr (Source m))) then m
      else
        let originDestination :=
          if Socks_IsValid (c_OriginDestination (ic_cache m))
          then Socks_AddrPort (c_OriginDestination (ic_cache m))
          else if Socks_IsIP (Destination m) then Socks_AddrPort (Destination m) else (AddrNone, 0) in
        match find (Network m) (Socks_AddrPort (Source m)) originDestination with
        | Ok processInfo => set_ProcessInfo m (Some processInfo)
        | _ => m
        end
  end.

(** The neighbour lookups of [prepareMatchMetadata]. *)
Definition search_neighbor (m : InboundContext) : InboundContext :=
  match re_neighborResolver re with
  | Some (LookupMAC, LookupHostname) =>
      if is_nil (SourceMACAddress m) && Addr_IsValid (Socks_Addr (Source m)) then
        let mac := match LookupMAC (Socks_Addr (Source m)) with
                   | Some mac => Some mac | None => SourceMACAddress m end in
        let hostname := match LookupHostname (Socks_Addr (Source m)) with
                        | Some h => h | None => SourceHostname m end in
        set_Neighbor m mac hostname
      else m
  | None => m
  end.

Definition missing_fakeip : error :=
  E_New [AStr "missing fakeip record, try enable `experimental.cache_file`"].

(** The destination of a fake address is the domain it stands for; another
    address may have been resolved from a domain. *)
Definition restore_domain (m : InboundContext) : Res InboundContext :=
  let reverse :=
    if bool_decide (Domain m = "") then
      match re_LookupReverseMapping re (Socks_Addr (Destination m)) with
      | Some domain => set_Domain m domain
      | None => m
      end
    else m in
  match re_fakeIP re with
  | Some (Contains, Lookup) =>
      if Addr_IsValid (Socks_Addr (Destination m)) && Contains (Socks_Addr (Destination m)) then
        match Lookup (Socks_Addr (Destination m)) with
        | None => Err missing_fakeip
        | Some domain =>
            if bool_decide (domain = "") then Ok m
            else
              let m' := set_OriginDestination m (Destination m) in
              Ok (set_FakeIP
                    (set_Destination m' (mkSocksaddr AddrNone (Socks_Port (Destination m)) domain)))
        end
      else Ok reverse
  | None => Ok reverse
  end.

(** [prepareMatchMetadata] *)
Definition prepareMatchMetadata (m : InboundContext) : Res InboundContext :=
  let m := search_neighbor (searchProcessInfo m) in
  m ← restore_domain m;
  Ok (if Socks_IsIPv4 (Destination m) then set_IPVersion m 4
      else if Socks_IsIPv6 (Destination m) then set_IPVersion m 6 else m).

(** ** Actions on the metadata *)

(** [applyRouteOptionsOverride] *)
Definition applyRouteOptionsOverride (m : InboundContext) (o : RuleActionRouteOptions) : InboundContext :=
  let m := if Socks_IsValid (ro_OverrideAddress o)
           then set_Destination m (mkSocksaddr (Socks_Addr (ro_OverrideAddress o))
                  (Socks_Port (Destination m)) (Socks_Fqdn (ro_OverrideAddress o)))
           else m in
  let m := if 0 <? ro_OverridePort o
           then set_Destination m (mkSocksaddr (Socks_Addr (Destination m)) (ro_OverridePort o)
                  (Socks_Fqdn (Destination m)))
           else m in
  if 0 <? ro_UDPTimeout o then set_UDPTimeout m (ro_UDPTimeout o) else m.

(** The dial options of a route, written over those of earlier rules. *)
Definition apply_dial_options (c : ctx_cache) (o : RuleActionRouteOptions) : ctx_cache :=
  mkCache (c_InboundDetour c) (c_LastInbound c) (c_OriginDestination c) (c_RouteOriginalDestination c)
    (c_UDPDisableDomainUnmapping c || ro_UDPDisableDomainUnmapping o)
    (c_UDPConnect c || ro_UDPConnect o)
    (if 0 <? ro_UDPTimeout o then ro_UDPTimeout o else c_UDPTimeout c)
    (c_TLSFragment c || ro_TLSFragment o)
    (if ro_TLSFragment o then ro_TLSFragmentFallbackDelay o else c_TLSFragmentFallbackDelay c)
    (c_TLSRecordFragment c || ro_TLSRecordFragment o)
    (if bool_decide (ro_TLSSpoof o = "") then c_TLSSpoof c else ro_TLSSpoof o)
    (if bool_decide (ro_TLSSpoof o = "") then c_TLSSpoofMethod c else ro_TLSSpoofMethod o)
    (match ro_NetworkStrategy o with Some s => Some s | None => c_NetworkStrategy c end)
    (if bool_decide (elems (ro_NetworkType o) = []) then c_NetworkType c else elems (ro_NetworkType o))
    (if bool_decide (elems (ro_FallbackNetworkType o) = []) then c_FallbackNetworkType c
     else elems (ro_FallbackNetworkType o))
    (if ro_FallbackDelay o =? 0 then c_FallbackDelay c else ro_FallbackDelay o).

(** The route options of a matching rule of [matchRule]. *)
Definition apply_route_options (m : InboundContext) (o : RuleActionRouteOptions) : InboundContext :=
  let m := if (Socks_IsValid (ro_OverrideAddress o) || (0 <? ro_OverridePort o)) &&
              negb (Socks_IsValid (c_RouteOriginalDestination (ic_cache m)))
           then set_RouteOriginalDestination m (Destination m) else m in
  let m := if Socks_IsValid (ro_OverrideAddress o) then set_DestinationAddresses m [] else m in
  let m := applyRouteOptionsOverride m o in
  set_cache m (apply_dial_options (ic_cache m) o).
Definition route_options (a : RuleAction) : option RuleActionRouteOptions :=
  match a with
  | ActionRoute _ o | ActionRouteOptions o => Some o
  | ActionBypass outbound o => if bool_decide (outbound = "") then None else Some o
  | _ => None
  end.

(** [actionResolve] *)
Definition actionResolve (m : InboundContext) (server : string) (q : DNSQueryOptions) : Res InboundContext :=
  if Socks_IsDomain (Destination m) then
    if negb (bool_decide (server = "")) && negb (re_Transport re server)
    then Err (E_New [AStr "DNS server not found: "; AStr server])
    else
      addresses ← re_Lookup re m (Socks_Fqdn (Destination m)) q;
      Ok (set_DestinationAddresses m addresses)
  else Ok m.

(** ** Matching the rules *)

(** What a connection offers to sniffing: the data read so far, and the reads
    to come. *)
Inductive Input :=
  | InConn (buffers : list (list Z)) (reads : list StreamRead)
  | InPacketConn (packetBuffers : list PacketBuffer) (reads : list PacketRead).

(** [actionSniff], with the appends of [matchRule] to what was read. *)
Definition actionSniff (action : RuleActionSniff) (m : InboundContext) (input : Input)
  : option error * InboundContext * Input :=
  match input with
  | InConn buffers reads =>
      let '(m, new, reads) := actionSniff_stream action buffers m reads in
      (None, m, InConn (buffers ++ new) reads)
  | InPacketConn packetBuffers reads =>
      let '(fatalErr, m, new, reads) := actionSniff_packet action packetBuffers m reads in
      (fatalErr, m, InPacketConn (packetBuffers ++ new) reads)
  end.

(** The effect of the action of a matching rule. *)
Definition perform (a : RuleAction) (m : InboundContext) (input : Input) : Res (InboundContext * Input) :=
  let m := match route_options a with Some o => apply_route_options m o | None => m end in
  match a with
  | ActionSniff action =>
      let '(newErr, m, input) := actionSniff action m input in
      match newErr with Some e => Err e | None => Ok (m, input) end
  | ActionResolve server timeout strategy disableCache disableOptimistic rewriteTTL subnet =>
      m ← actionResolve m server
            (mkQueryOptions server timeout strategy disableCache disableOptimistic rewriteTTL subnet);
      Ok (m, input)
  | _ => Ok (m, input)
  end.

(** Whether the loop over the rules ends with this action. *)
Definition final_action (a : RuleAction) : bool :=
  match a with
  | ActionBypass outbound _ => negb (bool_decide (outbound = ""))
  | _ => bool_decide (RuleAction_Type a ∈ ["route"; "reject"; "hijack-dns"])
  end.

(** The loop of [matchRule]; a rule without an action is a nil pointer. *)
Fixpoint match_rules (index : nat) (rules : list (Rule RuleAction)) (m : InboundContext) (input : Input)
  : Res (option (nat * Rule RuleAction) * InboundContext * Input) :=
  match rules with
  | [] => Ok (None, m, input)
  | currentRule :: rest =>
      let '(matched, m) := Rule_Match env currentRule (ResetRuleCache m) in
      if negb matched then match_rules (S index) rest m input
      else
        match Rule_action currentRule with
        | None => Panic "invalid memory address or nil pointer dereference"
        | Some a =>
            '(m, input) ← perform a m input;
            if final_action a then Ok (Some (index, currentRule), m, input)
            else match_rules (S index) rest m input
        end
  end.

(** [matchRule] *)
Definition matchRule (rules : list (Rule RuleAction)) (m : InboundContext) (input : Input)
  : Res (option (nat * Rule RuleAction) * InboundContext * Input) :=
  m ← prepareMatchMetadata m; match_rules 0 rules m input.

(** ** Routing *)

(** [Rule.String], the description of a rule in logs and reports: of
    [RuleSetItem], of an entry of [allItems], of the rule types. *)
Definition RuleSetItem_String {R} (r : RuleSetItem R) : string :=
  match tagList r with
  | [tag] => "rule_set=" +:+ tag
  | tags => "rule_set=[" +:+ str_join tags " " +:+ "]"
  end.
Definition inverted (invert : bool) (s : string) : string := if invert then "!(" +:+ s +:+ ")" else s.
Definition AnyItem_String {R} (r : abstractDefaultRule RuleAction R) (it : AnyItem) : string :=
  match it with
  | AItem it => RuleItem_String it
  | ARuleSet => match ruleSetItem r with Some item => RuleSetItem_String item | None => "" end
  end.
Definition abstractDefaultRule_String {R} (r : abstractDefaultRule RuleAction R) : string :=
  inverted (invert r) (str_join (map (AnyItem_String r) (allItems r)) " ").
Fixpoint Rule_String (rule : Rule RuleAction) : string :=
  match rule with
  | R_Default r | R_DefaultHeadless r | R_DefaultDNS r _ _ _ => abstractDefaultRule_String r
  | R_Logical r | R_LogicalHeadless r | R_LogicalDNS r _ _ _ =>
      let op := if bool_decide (l_mode r = "and") then "&&"
                else if bool_decide (l_mode r = "or") then "||" else "" in
      inverted (l_invert r) (str_join (map Rule_String (l_rules r)) (" " +:+ op +:+ " "))
  end.

(** What becomes of a connection: an error for its handshake, another inbound,
    the DNS router, a rejection (with the flood control of the action), or an
    outbound. *)
Inductive Routed (C : Type) :=
  | Failed (e : error)
  | ToInbound (c : C) (m : InboundContext)
  | ToDNS (c : C) (packets : list PacketBuffer) (m : InboundContext)
  | Rejected (e : option RejectError) (action : RuleActionReject)
  | ToOutbound (o : Member) (c : C) (m : InboundContext).

(** The names a network has in messages. *)
Definition network_word (network : string) : string :=
  if bool_decide (network = "tcp") then "TCP" else "UDP".

(** The inbound detour of [routeConnection] and [routePacketConnection]. *)
Definition inject {C} (injectable : bool * bool -> bool) (word : string) (c : C) (m : InboundContext)
  : Routed C :=
  let detour := c_InboundDetour (ic_cache m) in
  if bool_decide (c_LastInbound (ic_cache m) = detour)
  then Failed _ (E_New [AStr "routing loop on detour: "; AStr detour])
  else
    match re_inbound re detour with
    | None => Failed _ (E_New [AStr "inbound detour not found: "; AStr detour])
    | Some i =>
        if injectable i then ToInbound _ c (take_detour m)
        else Failed _ (E_New [AStr ("inbound detour is not " +:+ word +:+ " injectable: "); AStr detour])
    end.

(** The outbound of a route action. *)
Definition find_outbound (network outbound : string) : Res Member :=
  match re_Outbound re outbound with
  | None => Err (E_New [AStr "outbound not found: "; AStr outbound])
  | Some o =>
      if bool_decide (network ∈ re_Network re o) then Ok o
      else Err (E_New [AStr (network_word network +:+ " is not supported by outbound: "); AStr (m_Tag o)])
  end.

(** The default outbound; [Network] of a nil interface panics. *)
Definition default_outbound (network : string) : Res Member :=
  match re_Default re with
  | None => Panic "invalid memory address or nil pointer dereference"
  | Some o =>
      if bool_decide (network ∈ re_Network re o) then Ok o
      else Err (E_New [AStr (if bool_decide (network = "tcp")
                             then "TCP is not supported by default outbound: "
                             else "UDP is not supported by outbound: "); AStr (m_Tag o)])
  end.

(** The switch over the action of the selected rule: an outbound, or another
    outcome.  With any other action no outbound is selected, and its tag is
    read from a nil interface. *)
Definition select_outbound {C} (network : string) (timeNow : Z)
    (selectedRule : option (nat * Rule RuleAction)) (hijack : Routed C) : Res (Member + Routed C) :=
  match selectedRule with
  | None => o ← default_outbound network; Ok (inl o)
  | Some (_, rule) =>
      match Rule_action rule with
      | Some (ActionRoute outbound _) => o ← find_outbound network outbound; Ok (inl o)
      | Some (ActionBypass outbound _) =>
          if bool_decide (outbound = "") then Panic "invalid memory address or nil pointer dereference"
          else o ← find_outbound network outbound; Ok (inl o)
      | Some (ActionReject action) =>
          if bool_decide (rj_Method action = "reply")
          then Err (E_New [AStr ("reject method `reply` is not supported for " +:+
                                 network_word network +:+ " connections")])
          else
            let '(err, action) := RuleActionReject_Error SH action timeNow in
            err ← err; Ok (inr (Rejected _ err action))
      | Some ActionHijackDNS => Ok (inr hijack)
      | _ => Panic "invalid memory address or nil pointer dereference"
      end
  end.

(** [metadata.RouteRule] and [metadata.RouteOutbound] *)
Definition report_route (m : InboundContext) (selectedRule : option (nat * Rule RuleAction)) (o : Member)
  : InboundContext :=
  set_Route m (match selectedRule with Some (_, rule) => Rule_String rule | None => c_RouteRule (ic_power m) end)
    (m_Tag o).

(** An error of Go becomes the outcome [Failed]. *)
Definition or_failed {C} (r : Res (Routed C)) : Res (Routed C) :=
  match r with Err e => Ok (Failed _ e) | r => r end.

(** [hijackDNSStream] asks for the process and clears the destination before
    it serves requests. *)
Definition hijackDNSStream (conn : Conn) (m : InboundContext) : Routed Conn :=
  ToDNS _ conn [] (set_Destination (searchProcessInfo m) Socksaddr_zero).
(** [hijackDNSPacket] *)
Definition hijackDNSPacket (conn : PacketConn) (packetBuffers : list PacketBuffer) (m : InboundContext)
  : Routed PacketConn := ToDNS _ conn packetBuffers (searchProcessInfo m).

(** The destinations of multiplexing that are refused. *)
Definition refused_destination (fqdn : string) : option error :=
  if bool_decide (fqdn = mux_Destination) then Some (E_New [AStr
    "global multiplex is deprecated since sing-box v1.7.0, enable multiplex in Inbound fields instead."])
  else if bool_decide (fqdn = vmess_MuxDestination) then Some (E_New [AStr
    "global multiplex (v2ray legacy) not supported since sing-box v1.7.0."])
  else if bool_decide (fqdn = uot_MagicAddress) then Some (E_New [AStr
    "global UoT not supported since sing-box v1.7.0."])
  else if bool_decide (fqdn = uot_LegacyMagicAddress) then Some (E_New [AStr
    "global UoT (legacy) not supported since sing-box v1.7.0."])
  else None.

(** [for _, buffer := range buffers { conn = bufio.NewCachedConn(conn, buffer) }] *)
Definition cache_conn (conn : Conn) (buffers : list (list Z)) : Conn :=
  fold_left NewCachedConn buffers conn.

(** The same for packets.  A packet that is listed twice has been given back
    to the pool when it is used again. *)
Fixpoint cache_packets (conn : PacketConn) (put : list nat) (packets : list PacketBuffer) : PacketConn :=
  match packets with
  | [] => conn
  | buffer :: rest =>
      let b := if bool_decide (pb_id buffer ∈ put) then PutPacketBuffer buffer else buffer in
      cache_packets (NewCachedPacketConn conn (pb_Buffer b) (pb_Destination b)) (pb_id buffer :: put) rest
  end.

(** [routeConnection] of a connection that nothing was read from *)
Definition routeConnection (rules : list (Rule RuleAction)) (timeNow : Z) (reads : list StreamRead)
    (m : InboundContext) : Res (Routed Conn) :=
  let conn := mkConn [] reads in
  if negb (bool_decide (c_InboundDetour (ic_cache m) = "")) then Ok (inject fst "TCP" conn m)
  else
    let m := set_Network m "tcp" in
    match refused_destination (Socks_Fqdn (Destination m)) with
    | Some e => Ok (Failed _ e)
    | None =>
        if bool_decide (c_InboundType (ic_base m) = "tun") && bool_decide (Protocol m = "dns")
        then Ok (hijackDNSStream conn m)
        else or_failed (
          '(selectedRule, m, input) ← matchRule rules m (InConn [] reads);
          let conn := match input with
                      | InConn buffers reads => cache_conn (mkConn [] reads) buffers
                      | InPacketConn _ _ => conn
                      end in
          selected ← select_outbound "tcp" timeNow selectedRule (hijackDNSStream conn m);
          match selected with
          | inr outcome => Ok outcome
          | inl o =>
              let m := report_route m selectedRule o in
              Ok (ToOutbound _ o (fold_left (fun conn track => track conn m) (re_trackers re) conn) m)
          end)
    end.

(** [routePacketConnection] *)
Definition routePacketConnection (rules : list (Rule RuleAction)) (timeNow : Z) (reads : list PacketRead)
    (m : InboundContext) : Res (Routed PacketConn) :=
  let conn := mkPacketConn None [] reads in
  if negb (bool_decide (c_InboundDetour (ic_cache m) = "")) then Ok (inject snd "UDP" conn m)
  else
    let m := set_Network m "udp" in
    if bool_decide (c_InboundType (ic_base m) = "tun") && bool_decide (Protocol m = "dns")
    then Ok (hijackDNSPacket conn [] m)
    else or_failed (
      '(selectedRule, m, input) ← matchRule rules m (InPacketConn [] reads);
      let '(packetBuffers, conn) := match input with
                  | InPacketConn packets reads => (packets, mkPacketConn None [] reads)
                  | InConn _ _ => ([], conn)
                  end in
      selected ← select_outbound "udp" timeNow selectedRule (hijackDNSPacket conn packetBuffers m);
      match selected with
      | inr outcome => Ok outcome
      | inl o =>
          let m := report_route m selectedRule o in
          let conn := cache_packets conn [] packetBuffers in
          let conn := fold_left (fun conn track => track conn m) (re_packetTrackers re) conn in
          Ok (ToOutbound _ o
                (if c_FakeIP (ic_match m)
                 then mkPacketConn (Some (c_OriginDestination (ic_cache m), Destination m))
                        (pc_cached conn) (pc_reads conn)
                 else conn) m)
      end).

End Router.

Arguments Failed {C}.
Arguments ToInbound {C}.
Arguments ToDNS {C}.
Arguments Rejected {C}.
Arguments ToOutbound {C}.
