(* ===== verification/RouterInit.v ===== *)
(** * Setting the router up

    [NewRouter], [Initialize] and the rule-set part of [Start] of
    [route/router.go], with the conditions of [route/rule_conds.go]: the rules
    are built from their options, and the process and neighbour lookups are
    switched on when a rule needs them. *)

From stdpp Require Import base numbers list strings gmap option.
From Stdlib Require Import ZArith Lia.
From S2P Require Import Prelude NetAddr Metadata RuleItems RuleAction RuleCore RuleFrame RuleBuild RuleDispatch.
From S2P Require Import Router.

Local Open Scope Z_scope.

Section Init.
Context {SH : SliceHelpers} {GS : GoStd} {TP : ThirdParty} {DF : DialerFactory}.

(** ** Conditions on rules *)

(** [hasRule] and [hasDNSRule] look into logical rules. *)
Fixpoint has_in_rule (cond : RouteRuleOptions -> bool) (rule : RouteRule) : bool :=
  match rule with
  | RouteDefault o _ => cond o
  | RouteLogical _ rules _ _ => existsb (has_in_rule cond) rules
  | RouteUnknown _ => false
  end.
Definition hasRule (rules : list RouteRule) (cond : RouteRuleOptions -> bool) : bool :=
  existsb (has_in_rule cond) rules.
Fixpoint has_in_dns_rule (cond : DNSRuleOptions -> bool) (rule : DNSRule) : bool :=
  match rule with
  | DNSDefault o _ => cond o
  | DNSLogical _ rules _ _ => existsb (has_in_dns_rule cond) rules
  | DNSUnknown _ => false
  end.
Definition hasDNSRule (rules : list DNSRule) (cond : DNSRuleOptions -> bool) : bool :=
  existsb (has_in_dns_rule cond) rules.

Definition names_process (c : CommonOptions) : bool :=
  has_elems (o_ProcessName c) || has_elems (o_ProcessPath c) || has_elems (o_ProcessPathRegex c) ||
  has_elems (o_PackageName c) || has_elems (o_PackageNameRegex c) || has_elems (o_User c) ||
  has_elems (o_UserID c).
Definition isProcessRule (rule : RouteRuleOptions) : bool := names_process (rr_common rule).
Definition isProcessDNSRule (rule : DNSRuleOptions) : bool := names_process (dr_common rule).
Definition names_neighbor (c : CommonOptions) : bool :=
  has_elems (o_SourceMACAddress c) || has_elems (o_SourceHostname c).
Definition isNeighborRule (rule : RouteRuleOptions) : bool := names_neighbor (rr_common rule).
Definition isNeighborDNSRule (rule : DNSRuleOptions) : bool := names_neighbor (dr_common rule).
Definition names_wifi (c : CommonOptions) : bool := has_elems (o_WIFISSID c) || has_elems (o_WIFIBSSID c).
Definition isWIFIRule (rule : RouteRuleOptions) : bool := names_wifi (rr_common rule).
Definition isWIFIDNSRule (rule : DNSRuleOptions) : bool := names_wifi (dr_common rule).

(** [option.DNSServerOptions], as far as it is read: its type, and
    [NeighborDomain] when its options are those of a local server *)
Record DNSServerOptions := mkServerOptions { so_Type : string; so_Local : option (list string) }.
Definition hasLocalNeighborDNSServer (servers : list DNSServerOptions) : bool :=
  existsb (fun server => bool_decide (so_Type server = "local") &&
             match so_Local server with Some l => negb (bool_decide (l = [])) | None => false end) servers.

(** The flags [NewRouter] sets. *)
Definition needFindProcess (rules : list RouteRule) (dnsRules : list DNSRule) (findProcess : bool) : bool :=
  hasRule rules isProcessRule || hasDNSRule dnsRules isProcessDNSRule || findProcess.
Definition needFindNeighbor (rules : list RouteRule) (dnsRules : list DNSRule)
    (servers : list DNSServerOptions) (findNeighbor : bool) : bool :=
  hasRule rules isNeighborRule || hasDNSRule dnsRules isNeighborDNSRule ||
  hasLocalNeighborDNSServer servers || findNeighbor.

(** [Start], stage [StartStateStart]: rule-sets and the platform may ask for the
    process lookup too. *)
Definition started_needFindProcess (needed : bool) (ruleSets : list (RuleSet (Rule RuleAction)))
    (androidPlatform : bool) : bool :=
  needed || existsb (fun s => ContainsProcessRule (rs_metadata s)) ruleSets || androidPlatform.

(** ** Building the rules *)

Definition parse_rule (i : Z) : list earg := [AStr "parse rule["; AInt i; AStr "]"].
Definition Initialize_rules (PlatformSupported : bool) (rules : list RouteRule)
  : Res (list (Rule RuleAction)) :=
  build_rules (fun options => _ ← validateNoNestedRuleActions options false;
                              NewRule PlatformSupported options false) parse_rule 0 rules.

(** The loops over the rule-sets and their tags; [newRuleSet] is
    [R.NewRuleSet]. *)
Section RuleSets.
Context {O S : Type} (newRuleSet : string -> O -> Res S).
Fixpoint add_tags (i : Z) (options : O) (tags : list string) (acc : list S * gmap string S)
  : Res (list S * gmap string S) :=
  match tags with
  | [] => Ok acc
  | tag :: rest =>
      match snd acc !! tag with
      | Some _ => Err (E_New [AStr "duplicate rule-set tag: "; AStr tag])
      | None =>
          ruleSet ← wrap_err (newRuleSet tag options) [AStr "parse rule-set["; AInt i; AStr "]"];
          add_tags i options rest (fst acc ++ [ruleSet], <[tag := ruleSet]> (snd acc))
      end
  end.
Fixpoint add_rule_sets (i : Z) (ruleSets : list (list string * O)) (acc : list S * gmap string S)
  : Res (list S * gmap string S) :=
  match ruleSets with
  | [] => Ok acc
  | (tags, options) :: rest => acc ← add_tags i options tags acc; add_rule_sets (i + 1) rest acc
  end.

(** [Initialize]: the rules, the rule-sets and their map *)
Definition Router_Initialize (PlatformSupported : bool) (rules : list RouteRule)
    (ruleSets : list (list string * O)) : Res (list (Rule RuleAction) * (list S * gmap string S)) :=
  rules ← Initialize_rules PlatformSupported rules;
  sets ← add_rule_sets 0 ruleSets ([], ∅);
  Ok (rules, sets).

(** ** Rule-sets are registered under distinct tags *)

Definition tags_of (ruleSets : list (list string * O)) : list string := flat_map fst ruleSets.

Lemma add_tags_ok i options tags acc acc' :
  add_tags i options tags acc = Ok acc' ->
  NoDup tags /\ (forall t, t ∈ tags -> snd acc !! t = None) /\
  dom (snd acc') = dom (snd acc) ∪ list_to_set tags /\ length (fst acc') = (length (fst acc) + length tags)%nat.
Proof.
  revert acc. induction tags as [|tag tags IH]; intros [l mp]; simpl.
  { intros [= <-]. split; [constructor|]. split; [set_solver|]. split; [set_solver|]. simpl. lia. }
  destruct (mp !! tag) eqn:Hm; [done|]. intros (s & _ & H)%bind_ok.
  apply IH in H as (Hnd & Hfree & Hdom & Hlen). simpl in *.
  split; [apply list.NoDup_cons; split; [|done]|].
  { intros Hin. specialize (Hfree tag Hin). by rewrite lookup_insert_eq in Hfree. }
  split; [intros t [->|Ht]%elem_of_cons; [done|]|].
  { specialize (Hfree t Ht). apply lookup_insert_None in Hfree. tauto. }
  split; [rewrite Hdom, dom_insert_L; set_solver|]. rewrite length_app in Hlen. simpl in Hlen. lia.
Qed.

Lemma add_rule_sets_ok i ruleSets acc acc' :
  add_rule_sets i ruleSets acc = Ok acc' ->
  NoDup (tags_of ruleSets) /\ (forall t, t ∈ tags_of ruleSets -> snd acc !! t = None) /\
  dom (snd acc') = dom (snd acc) ∪ list_to_set (tags_of ruleSets) /\
  length (fst acc') = (length (fst acc) + length (tags_of ruleSets))%nat.
Proof.
  revert i acc. induction ruleSets as [|[tags options] ruleSets IH]; intros i acc; simpl.
  { intros [= <-]. split; [constructor|]. split; [set_solver|]. split; [set_solver|]. simpl. lia. }
  intros (acc1 & H1 & H)%bind_ok. apply add_tags_ok in H1 as (Hnd1 & Hf1 & Hd1 & Hl1).
  apply IH in H as (Hnd & Hf & Hd & Hl). unfold tags_of in *. simpl.
  assert (Hdis : forall t, t ∈ tags -> t ∉ flat_map fst ruleSets).
  { intros t Ht Hin. apply Hf, not_elem_of_dom in Hin. rewrite Hd1 in Hin. set_solver. }
  split; [apply list.NoDup_app; naive_solver|]. split.
  { intros t [Ht|Ht]%elem_of_app; [by apply Hf1|]. apply Hf, not_elem_of_dom in Ht. rewrite Hd1 in Ht.
    apply not_elem_of_dom. set_solver. }
  split; [rewrite Hd, Hd1, list_to_set_app_L; set_solver|]. rewrite length_app. lia.
Qed.
End RuleSets.

(** ** Lookups are on when they are needed *)

(** The items of a built rule, at any depth. *)
Fixpoint rule_items (rule : Rule RuleAction) : list RuleItem :=
  match rule with
  | R_Default r | R_DefaultHeadless r | R_DefaultDNS r _ _ _ => own_items r
  | R_Logical r | R_LogicalHeadless r | R_LogicalDNS r _ _ _ => flat_map rule_items (l_rules r)
  end.

(** Items of processes and of neighbours. *)
Definition process_item (it : RuleItem) : bool :=
  match it with
  | I_Process _ | I_ProcessPath _ | I_PackageName _ | I_PackageNameRegex _ | I_ProcessPathRegex _
  | I_User _ | I_UserId _ => true
  | _ => false
  end.
Definition neighbor_item (it : RuleItem) : bool :=
  match it with I_SourceMACAddress _ | I_SourceHostname _ => true | _ => false end.

Lemma process_item_reads env it m p :
  process_item it = false -> RuleItem_Match env it (set_ProcessInfo m p) = RuleItem_Match env it m.
Proof. by destruct it. Qed.
Lemma neighbor_item_reads env it m mac h :
  neighbor_item it = false -> RuleItem_Match env it (set_Neighbor m mac h) = RuleItem_Match env it m.
Proof. by destruct it. Qed.

Definition free_of (kind : RuleItem -> bool) (r : abstractDefaultRule RuleAction (Rule RuleAction)) : Prop :=
  Forall (fun it => kind it = false) (own_items r).

Lemma free_push kind p it r : kind it = false -> free_of kind r -> free_of kind (push p it r).
Proof.
  unfold free_of, own_items. intros Hk. rewrite !Forall_app. destruct p; simpl; rewrite ?Forall_app; naive_solver.
Qed.

Lemma route_free kind o act r :
  (forall it, kind it = true -> process_item it = true /\ isProcessRule o = false \/
                                neighbor_item it = true /\ isNeighborRule o = false) ->
  NewDefaultRule o act = Ok r -> free_of kind r.
Proof.
  intros Hkind. apply (chain_preserves (free_of kind)); [|by constructor].
  assert (Hf : forall it, (process_item it = true -> isProcessRule o = true) ->
                 (neighbor_item it = true -> isNeighborRule o = true) -> kind it = false).
  { intros it H1 H2. destruct (kind it) eqn:E; [|done]. destruct (Hkind it E) as [[Hp Hn]|[Hp Hn]].
    - by rewrite H1 in Hn. - by rewrite H2 in Hn. }
  assert (Hpush : forall p it rule, (process_item it = true -> isProcessRule o = true) ->
                 (neighbor_item it = true -> isNeighborRule o = true) ->
                 free_of kind rule -> free_of kind (push p it rule)).
  { intros. apply free_push; auto. }
  clear Hf. unfold isProcessRule, names_process, isNeighborRule, names_neighbor in *.
  blocks; try done.
  all: try (intros; by apply Hpush).
  all: intros He; try (intros l it rule (x & _ & <-)%fmap_ok HQ); try (intros rule HQ);
    apply Hpush; try exact HQ; intros Hk; first [done | rewrite He, ?orb_true_r; done].
Qed.

(** Every rule that is built under [hasRule ... = false] is free of the items. *)
Lemma built_free kind cond ps options check rule :
  (forall it, kind it = true ->
     process_item it = true /\ cond = isProcessRule \/ neighbor_item it = true /\ cond = isNeighborRule) ->
  has_in_rule cond options = false -> NewRule ps options check = Ok rule ->
  Forall (fun it => kind it = false) (rule_items rule).
Proof.
  intros Hkind. revert check rule.
  induction options as [o a|mode rules inv a IH|type] using RouteRule_nested_ind; intros check rule Hc H; [| |done].
  - apply NewRule_default in H as (act & r & _ & Hr & ->). cbn. cbn in Hc.
    eapply (route_free kind o act r); [|done]. intros it Hit. destruct (Hkind it Hit) as [[? ->]|[? ->]]; auto.
  - apply NewRule_logical in H as (act & mode' & subs & _ & -> & Hs). cbn. cbn in Hc.
    apply list.Forall_forall. intros it Hit. apply list_elem_of_In, in_flat_map in Hit as (sub & Hsub & Hit).
    apply list_elem_of_In, list_elem_of_lookup in Hsub as (i & Hi).
    destruct (Forall2_lookup_r _ _ _ _ _ Hs Hi) as (o & Ho & _ & Hr).
    rewrite list.Forall_forall in IH. apply list_elem_of_lookup_2 in Ho.
    assert (Hf : has_in_rule cond o = false).
    { destruct (has_in_rule cond o) eqn:E; [|done]. rewrite <-Hc. symmetry. apply existsb_exists.
      exists o. split; [by apply list_elem_of_In|done]. }
    specialize (IH o Ho false sub Hf Hr). rewrite list.Forall_forall in IH. apply IH. by apply list_elem_of_In.
Qed.

(** A lookup that is off is not needed, and rule-sets have distinct tags: when
    [NewRouter] leaves the process or the neighbour lookup off, no item of any
    rule [Initialize] builds, at any depth, reads what the lookup would have
    found; an accepted configuration registers every rule-set tag once. *)
Theorem lookups_off_unneeded {O S} (newRuleSet : string -> O -> Res S) ps options sets rules ruleSets byTag :
  Router_Initialize newRuleSet ps options sets = Ok (rules, (ruleSets, byTag)) ->
  NoDup (tags_of sets) /\ dom byTag = list_to_set (tags_of sets) /\ length ruleSets = length (tags_of sets) /\
  (forall rule it env m, rule ∈ rules -> it ∈ rule_items rule ->
    (forall dnsRules findProcess p, needFindProcess options dnsRules findProcess = false ->
       RuleItem_Match env it (set_ProcessInfo m p) = RuleItem_Match env it m) /\
    (forall dnsRules servers findNeighbor mac h, needFindNeighbor options dnsRules servers findNeighbor = false ->
       RuleItem_Match env it (set_Neighbor m mac h) = RuleItem_Match env it m)).
Proof.
  unfold Router_Initialize. intros (rs & Hr & (st & Hs & [= <- ->])%bind_ok)%bind_ok.
  apply add_rule_sets_ok in Hs as (Hnd & _ & Hd & Hl). split; [done|]. split; [simpl in Hd; set_solver|].
  split; [done|]. intros rule it env m Hrule Hit.
  apply build_rules_Forall2 in Hr. apply list_elem_of_lookup in Hrule as (i & Hi).
  destruct (Forall2_lookup_r _ _ _ _ _ Hr Hi) as (o & Ho & (u & _ & Hn)%bind_ok).
  apply list_elem_of_lookup_2 in Ho.
  assert (Hnone : forall cond, hasRule options cond = false -> has_in_rule cond o = false).
  { intros cond Hc. destruct (has_in_rule cond o) eqn:E; [|done]. rewrite <-Hc. symmetry. apply existsb_exists.
    exists o. split; [by apply list_elem_of_In|done]. }
  split.
  - intros dnsRules fp p Hoff. unfold needFindProcess in Hoff. bsimp. apply process_item_reads.
    assert (Hf : Forall (fun it => process_item it = false) (rule_items rule)).
    { eapply (built_free process_item isProcessRule); [|by apply Hnone|done]. eauto. }
    rewrite list.Forall_forall in Hf. by apply Hf.
  - intros dnsRules servers fn mac h Hoff. unfold needFindNeighbor in Hoff. bsimp. apply neighbor_item_reads.
    assert (Hf : Forall (fun it => neighbor_item it = false) (rule_items rule)).
    { eapply (built_free neighbor_item isNeighborRule); [|by apply Hnone|done]. eauto. }
    rewrite list.Forall_forall in Hf. by apply Hf.
Qed.

End Init.
