(* ===== verification/FakeIPConn.v ===== *)
(** * Packets to fake addresses

    [route/fakeip_conn.go]: the connection that is put around a packet
    connection to a fake address.  Packets from the client to the fake address
    are sent to the domain it stands for; replies come back from the fake
    address, unless the client addressed their sender itself. *)

From stdpp Require Import base numbers list strings gmap option.
From Stdlib Require Import ZArith Lia.
From S2P Require Import Prelude NetAddr.

Local Open Scope Z_scope.

(** [fakeIPNATPacketConn], without the connection it wraps *)
Record fakeIPNATPacketConn := mkFakeIPNAT {
  nat_origin : Socksaddr;
  nat_destination : Socksaddr;
  directDestinations : list Addr
}.
Definition newFakeIPNATPacketConn (origin destination : Socksaddr) : fakeIPNATPacketConn :=
  mkFakeIPNAT origin destination [].

(** [rewriteReadDestination]: the destination of a packet of the client *)
Definition rewriteReadDestination (c : fakeIPNATPacketConn) (destination : Socksaddr)
  : Socksaddr * fakeIPNATPacketConn :=
  if bool_decide (Socks_Addr destination = Socks_Addr (nat_origin c)) then
    (mkSocksaddr (Socks_Addr (nat_destination c)) (Socks_Port destination) (Socks_Fqdn (nat_destination c)), c)
  else if Addr_IsValid (Socks_Addr destination) then
    (destination,
     if bool_decide (Socks_Addr destination ∈ directDestinations c) then c
     else mkFakeIPNAT (nat_origin c) (nat_destination c) (Socks_Addr destination :: directDestinations c))
  else (destination, c).

(** [rewriteWriteDestination]: the source the client sees on a reply *)
Definition rewriteWriteDestination (c : fakeIPNATPacketConn) (destination : Socksaddr) : Socksaddr :=
  if Addr_IsValid (Socks_Addr destination) && bool_decide (Socks_Addr destination ∈ directDestinations c)
  then destination
  else mkSocksaddr (Socks_Addr (nat_origin c)) (Socks_Port destination) "".

(** [UpdateDestination]; [SocksaddrFrom] is [M.SocksaddrFrom]. *)
Definition UpdateDestination (SocksaddrFrom : Addr -> Z -> Socksaddr) (c : fakeIPNATPacketConn)
    (destinationAddress : Addr) : fakeIPNATPacketConn :=
  mkFakeIPNAT (nat_origin c) (SocksaddrFrom destinationAddress (Socks_Port (nat_destination c)))
    (directDestinations c).

(** The packets of a connection, in order. *)
Inductive NATEvent :=
  | FromClient (destination : Socksaddr)
  | ToClient (source : Socksaddr)
  | Update (address : Addr).

Section NAT.
Context (SocksaddrFrom : Addr -> Z -> Socksaddr).

Definition nat_step (c : fakeIPNATPacketConn) (ev : NATEvent) : fakeIPNATPacketConn :=
  match ev with
  | FromClient d => snd (rewriteReadDestination c d)
  | ToClient _ => c
  | Update a => UpdateDestination SocksaddrFrom c a
  end.
Definition nat_run (c : fakeIPNATPacketConn) (evs : list NATEvent) : fakeIPNATPacketConn :=
  fold_left nat_step evs c.

(** The addresses the client sent to. *)
Definition client_addresses (evs : list NATEvent) : list Addr :=
  flat_map (fun ev => match ev with FromClient d => [Socks_Addr d] | _ => [] end) evs.

Lemma nat_step_direct c ev a :
  a ∈ directDestinations (nat_step c ev) <->
  a ∈ directDestinations c \/
  exists d, ev = FromClient d /\ a = Socks_Addr d /\ a <> Socks_Addr (nat_origin c) /\ Addr_IsValid a = true.
Proof.
  destruct ev as [d|d|x]; simpl; [|naive_solver|naive_solver].
  unfold rewriteReadDestination. case_bool_decide as Ho; simpl; [naive_solver|].
  destruct (Addr_IsValid (Socks_Addr d)) eqn:Hv; simpl.
  - case_bool_decide as Hd; simpl; [naive_solver|]. rewrite elem_of_cons. naive_solver.
  - split; [by left|]. intros [?|(d' & [= <-] & -> & _ & ?)]; [done|congruence].
Qed.

Lemma nat_step_origin c ev : nat_origin (nat_step c ev) = nat_origin c.
Proof.
  destruct ev; simpl; [|done|done]. unfold rewriteReadDestination.
  case_bool_decide; [done|]. destruct (Addr_IsValid _); [|done]. by case_bool_decide.
Qed.

Lemma nat_run_spec evs : forall c,
  nat_origin (nat_run c evs) = nat_origin c /\
  forall a, a ∈ directDestinations (nat_run c evs) <->
    a ∈ directDestinations c \/
    (a ∈ client_addresses evs /\ a <> Socks_Addr (nat_origin c) /\ Addr_IsValid a = true).
Proof.
  induction evs as [|ev evs IH]; intros c; [simpl; set_solver|].
  change (nat_run c (ev :: evs)) with (nat_run (nat_step c ev) evs).
  destruct (IH (nat_step c ev)) as [Ho Hd]. rewrite nat_step_origin in Ho, Hd. split; [done|].
  intros a. rewrite Hd, nat_step_direct. unfold client_addresses. simpl. rewrite elem_of_app.
  destruct ev as [d|d|x]; [|set_solver|set_solver]. rewrite list_elem_of_singleton. naive_solver.
Qed.

(** Address translation of a connection to a fake address.  After any packets,
    the client sees a reply from the address of its sender exactly when it sent
    to that address itself, and from the fake address otherwise; so it only
    sees addresses it has sent to.  A packet to the fake address goes to the
    destination it stands for, and the reply to it carries the address and port
    the client used, unless the client also sent to that destination itself. *)
Theorem fake_address_translation origin destination evs d :
  let c := nat_run (newFakeIPNATPacketConn origin destination) evs in
  (Addr_IsValid (Socks_Addr d) = true -> Socks_Addr d ∈ client_addresses evs ->
     Socks_Addr d <> Socks_Addr origin -> rewriteWriteDestination c d = d) /\
  Socks_Addr (rewriteWriteDestination c d) ∈ Socks_Addr origin :: client_addresses evs /\
  (Socks_Addr d = Socks_Addr origin ->
     Addr_IsValid (Socks_Addr (nat_destination c)) = false \/
       (Socks_Addr (nat_destination c) ∉ client_addresses evs) ->
     let '(sent, c') := rewriteReadDestination c d in
     sent = mkSocksaddr (Socks_Addr (nat_destination c)) (Socks_Port d) (Socks_Fqdn (nat_destination c)) /\
     rewriteWriteDestination c' sent = mkSocksaddr (Socks_Addr d) (Socks_Port d) "").
Proof.
  intros c. destruct (nat_run_spec evs (newFakeIPNATPacketConn origin destination)) as [Ho Hd].
  fold c in Ho, Hd. simpl in Ho, Hd. clearbody c. unfold rewriteWriteDestination. split; [|split].
  - intros Hv Hin Hne. rewrite Hv. rewrite bool_decide_true; [done|]. apply Hd. naive_solver.
  - destruct (_ && _) eqn:E; simpl.
    + apply andb_true_iff in E as [_ E%bool_decide_eq_true]. apply Hd in E. set_solver.
    + rewrite Ho. left.
  - intros Hd0 Hnv. unfold rewriteReadDestination. rewrite bool_decide_true by congruence.
    split; [done|]. simpl.
    destruct (_ && _) eqn:E; [|by rewrite Ho, Hd0]. apply andb_true_iff in E as [Hv E%bool_decide_eq_true].
    apply Hd in E as [?|[? _]]; [set_solver|]. destruct Hnv; [congruence|done].
Qed.

End NAT.

Definition mkSocksaddr_addr (a : Addr) (port : Z) : Socksaddr := mkSocksaddr a port "".

Lemma fake_address_translation_witness :
  let c := newFakeIPNATPacketConn (mkSocksaddr (Addr4 0xc6120001) 443 "") (mkSocksaddr AddrNone 443 "a.example") in
  rewriteWriteDestination c (mkSocksaddr AddrNone 443 "a.example") = mkSocksaddr (Addr4 0xc6120001) 443 "".
Proof.
  destruct (fake_address_translation mkSocksaddr_addr (mkSocksaddr (Addr4 0xc6120001) 443 "")
              (mkSocksaddr AddrNone 443 "a.example") [] (mkSocksaddr (Addr4 0xc6120001) 443 "")) as (_ & _ & H).
  apply H; [reflexivity|by left].
Defined.
