(* ===== verification/RouterPreMatch.v ===== *)
(** * Pre-matching of flows

    [PreMatch] and [preMatchFlow] of [route/route.go], [JudgeFlow] of
    [adapter/router.go]: before a connection is set up, a tun inbound asks for a
    verdict on its first packet.  A flow can then be forwarded, rejected,
    dropped, bypassed or left to the router. *)

From stdpp Require Import base numbers list strings gmap option.
From Stdlib Require Import ZArith Lia.
From S2P Require Import Prelude NetAddr Metadata RuleItems RuleAction RuleCore RuleDispatch ManagerCore.
From S2P Require Import Router.

Local Open Scope Z_scope.

(** [adapter.PreMatchAction] *)
Definition PreMatchContinue : Z := 0.
Definition PreMatchFlow : Z := 1.
Definition PreMatchReject : Z := 2.
Definition PreMatchDrop : Z := 3.
Definition PreMatchBypass : Z := 4.
Definition PreMatchHijackDNS : Z := 5.

(** [adapter.PreMatchResult]: without the constructor of trackers; the zero
    [netip.AddrPort] is [None]. *)
Record PreMatchResult := mkPreMatch {
  pm_Action : Z;
  pm_Outbound : option Member;
  pm_Destination : option (Addr * Z);
  pm_UDPTimeout : Z
}.
Definition result_of (action : Z) (outbound : option Member) : PreMatchResult :=
  mkPreMatch action outbound None 0.
Definition continueResult : PreMatchResult := result_of PreMatchContinue None.

(** [C.PortProtocols] and [C.ProtocolTimeouts] (nanoseconds) *)
Definition PortProtocols (port : Z) : string :=
  if port =? 53 then "dns" else if port =? 123 then "ntp" else if port =? 3478 then "stun"
  else if port =? 443 then "quic" else "".
Definition ProtocolTimeouts (protocol : string) : Z :=
  if bool_decide (protocol ∈ ["dns"; "ntp"; "stun"]) then 10 * 10 ^ 9
  else if bool_decide (protocol ∈ ["quic"; "dtls"]) then 30 * 10 ^ 9 else 0.

(** The timeout of a forwarded flow. *)
Definition flow_timeout (m : InboundContext) : Z :=
  if bool_decide (Network m = "udp") then
    if 0 <? c_UDPTimeout (ic_cache m) then c_UDPTimeout (ic_cache m)
    else
      let protocol := if bool_decide (Protocol m = "") then PortProtocols (Socks_Port (Destination m))
                      else Protocol m in
      if bool_decide (protocol = "") then 0 else ProtocolTimeouts protocol
  else 0.

(** [tun.FlowVerdict], with an action per constructor of the source's use *)
Inductive FlowVerdict :=
  | ActionAccept
  | ActionFlow (port : Member) (destination : option (Addr * Z)) (udpTimeout : Z)
  | VerdictReject
  | VerdictDrop
  | VerdictBypass
  | VerdictHijackDNS.

(** The name of an IP protocol number. *)
Definition network_of (network : Z) : option string :=
  if network =? 6 then Some "tcp" else if network =? 17 then Some "udp"
  else if (network =? 1) || (network =? 58) then Some "icmp" else None.

Section PreMatch.
Context {SH : SliceHelpers} {GS : GoStd} {TP : ThirdParty} {DF : DialerFactory} {SL : SocksLib}.
Context (env : RuleEnv) (re : RouterEnv).

(** The member a group stands for, through at most [n] groups. *)
Fixpoint follow_groups (n : nat) (outbound : Member) : option Member :=
  match n with
  | O => Some outbound
  | S n =>
      match re_Now re outbound with
      | None => Some outbound
      | Some now =>
          match re_Outbound re now with
          | None => None
          | Some selected => follow_groups n selected
          end
      end
  end.

(** The resolved address of the family of the packet. *)
Definition new_destination (m : InboundContext) (packetDestination : Socksaddr) : Addr :=
  default AddrNone
    (List.find (fun address => Bool.eqb (Addr_Is4 address) (Socks_IsIPv4 packetDestination))
       (DestinationAddresses m)).

(** [preMatchFlow]; a nil default outbound panics. *)
Definition preMatchFlow (m : InboundContext) (packetDestination : Socksaddr) (outboundTag : string)
  : Res PreMatchResult :=
  let outbound := if bool_decide (outboundTag = "") then
                    match re_Default re with
                    | Some o => Ok (Some o)
                    | None => Panic "invalid memory address or nil pointer dereference"
                    end
                  else Ok (re_Outbound re outboundTag) in
  outbound ← outbound;
  match outbound ≫= follow_groups 8 with
  | None => Ok continueResult
  | Some outbound =>
      if negb (bool_decide (Network m ∈ re_Network re outbound)) then Ok continueResult
      else
        match re_Flow re outbound with
        | None => Ok continueResult
        | Some flow =>
            let flowAction := flow (Network m) (Socks_Addr (Destination m)) in
            if negb (flowAction =? PreMatchFlow) then Ok (result_of flowAction (Some outbound))
            else
              let forward destination :=
                mkPreMatch PreMatchFlow (Some outbound) destination (flow_timeout m) in
              if Socks_IsDomain (Destination m) then
                if negb (c_FakeIP (ic_match m)) then Ok continueResult
                else
                  let newDestination := new_destination m packetDestination in
                  if negb (Addr_IsValid newDestination) then Ok (result_of PreMatchReject None)
                  else
                    let flowAction := flow (Network m) newDestination in
                    if negb (flowAction =? PreMatchFlow) then Ok (result_of flowAction (Some outbound))
                    else Ok (forward (Some (newDestination, Socks_Port (Destination m))))
              else if negb (bool_decide (Destination m = packetDestination))
              then Ok (forward (Some (Socks_AddrPort (Destination m))))
              else Ok (forward None)
        end
  end.

(** The sniff action of [PreMatch]: the verdict [continueResult], or the
    metadata with which the loop goes on. *)
Definition prematch_sniff (action : RuleActionSniff) (m : InboundContext) (firstPacket : list Z)
  : option InboundContext :=
  if bool_decide (Network m = "icmp") then Some m
  else if negb (bool_decide (Network m = "udp")) || bool_decide (firstPacket = []) then None
  else if Skip m || negb (bool_decide (Protocol m = "")) then Some m
  else if bool_decide (PacketSniffers action = []) && negb (bool_decide (StreamSniffers action = []))
  then Some m
  else if bool_decide (c_SnifferNames (ic_sniffer m) = SnifferNames action) &&
          negb (is_nil (c_SniffError (ic_sniffer m))) then Some m
  else
    let packetSniffers := if bool_decide (PacketSniffers action = []) then defaultPacketSniffers
                          else PacketSniffers action in
    let '(sniffErr, m) := PeekPacket re packetSniffers m firstPacket in
    let m := set_Sniffed m (SnifferNames action) sniffErr in
    match sniffErr with
    | Some e => if is_need_more e then None else Some m
    | None => Some (override_destination action m)
    end.

(** The loop of [PreMatch].  A rule without an action takes the default case. *)
Fixpoint prematch_rules (timeNow : Z) (packetDestination : Socksaddr) (firstPacket : list Z)
    (rules : list (Rule RuleAction)) (m : InboundContext) : Res PreMatchResult :=
  match rules with
  | [] => preMatchFlow m packetDestination ""
  | currentRule :: rest =>
      let go_on := prematch_rules timeNow packetDestination firstPacket rest in
      let '(matched, m) := Rule_Match env currentRule (ResetRuleCache m) in
      if negb matched then go_on m
      else
        match Rule_action currentRule with
        | Some (ActionSniff action) =>
            match prematch_sniff action m firstPacket with
            | None => Ok continueResult
            | Some m => go_on m
            end
        | Some (ActionRouteOptions o) => go_on (applyRouteOptionsOverride m o)
        | Some (ActionRoute outbound o) =>
            preMatchFlow (applyRouteOptionsOverride m o) packetDestination outbound
        | Some (ActionBypass outbound o) =>
            let m := applyRouteOptionsOverride m o in
            if bool_decide (outbound = "") then
              if Socks_IsDomain (Destination m) || negb (bool_decide (Destination m = packetDestination))
              then Ok continueResult
              else Ok (result_of PreMatchBypass None)
            else preMatchFlow m packetDestination outbound
        | Some (ActionReject action) =>
            rejectErr ← fst (RuleActionReject_Error SH action timeNow);
            Ok (result_of (match rejectErr with Some ErrDrop => PreMatchDrop | _ => PreMatchReject end) None)
        | Some ActionHijackDNS =>
            Ok (if bool_decide (Network m = "udp") then result_of PreMatchHijackDNS None else continueResult)
        | Some (ActionResolve server timeout strategy disableCache disableOptimistic rewriteTTL subnet) =>
            match actionResolve re m server
                    (mkQueryOptions server timeout strategy disableCache disableOptimistic rewriteTTL subnet) with
            | Ok m => go_on m
            | Err _ => Ok (result_of PreMatchReject None)
            | Panic p => Panic p
            end
        | _ => Ok continueResult
        end
  end.

(** [PreMatch] *)
Definition Router_PreMatch (rules : list (Rule RuleAction)) (timeNow : Z) (m : InboundContext)
    (firstPacket : list Z) : Res PreMatchResult :=
  let m := set_PreMatch m in
  let packetDestination := Destination m in
  match prepareMatchMetadata env re m with
  | Ok m => prematch_rules timeNow packetDestination firstPacket rules m
  | Err _ => Ok continueResult
  | Panic p => Panic p
  end.

(** The metadata of a flow that [JudgeFlow] is asked about;
    [SocksaddrFromNetIP] is [M.SocksaddrFromNetIP]. *)
Context (SocksaddrFromNetIP : Addr * Z -> Socksaddr).
Definition without_port (a : Socksaddr) : Socksaddr := mkSocksaddr (Socks_Addr a) 0 (Socks_Fqdn a).
Definition flow_metadata (inbound inboundType networkName : string) (source destination : Addr * Z)
  : InboundContext :=
  let port a := if bool_decide (networkName = "icmp") then without_port a else a in
  mkInboundContext
    (mkBase inbound inboundType 0 networkName (port (SocksaddrFromNetIP source))
       (port (SocksaddrFromNetIP destination)) "" "")
    (mkPower "" "") (mkSniffer "" "" "" [] None)
    (mkCache "" "" Socksaddr_zero Socksaddr_zero false false 0 false 0 false "" 0 None [] [] 0)
    (mkMatch [] None ∅ false "" "" None None "" 0 Prefix_zero false false false)
    (mkRuleCache false false false false false false 0 false).

(** [JudgeFlow]; [isPort] is the type assertion to [tun.Port]. *)
Definition JudgeFlow (isPort : Member -> bool) (rules : list (Rule RuleAction)) (timeNow : Z)
    (inbound inboundType : string) (network : Z) (source destination : Addr * Z) (firstPacket : list Z)
  : Res FlowVerdict :=
  match network_of network with
  | None => Ok ActionAccept
  | Some networkName =>
      result ← Router_PreMatch rules timeNow (flow_metadata inbound inboundType networkName source destination)
                 firstPacket;
      Ok (if pm_Action result =? PreMatchFlow then
            match pm_Outbound result with
            | Some port =>
                if isPort port then
                  ActionFlow port
                    (match pm_Destination result with
                     | Some (addr, destinationPort) =>
                         if Addr_IsValid addr
                         then Some (addr, if bool_decide (networkName = "icmp") then snd destination
                                          else destinationPort)
                         else None
                     | None => None
                     end) (pm_UDPTimeout result)
                else ActionAccept
            | None => ActionAccept
            end
          else if pm_Action result =? PreMatchReject then VerdictReject
          else if pm_Action result =? PreMatchDrop then VerdictDrop
          else if pm_Action result =? PreMatchBypass then VerdictBypass
          else if pm_Action result =? PreMatchHijackDNS then VerdictHijackDNS
          else ActionAccept)
  end.

End PreMatch.
