(* ===== verification/RouterProps.v ===== *)
(** * What the connection router guarantees

    Theorems on [Router]: the rule that is selected, against the documented
    matching logic of [RuleSpec]; the outbound a connection is handed to; the
    data an outbound reads, against what the client sent; the absence of
    panics for rules that [NewRule] built. *)

From stdpp Require Import base numbers list strings gmap option.
From Stdlib Require Import ZArith Lia.
From S2P Require Import Prelude NetAddr Metadata RuleItems RuleAction RuleCore RuleSpec RuleBuild RuleDispatch ManagerCore.
From S2P Require Import Router RouterInit.

Local Open Scope Z_scope.

(** What sniffers write: the sniffer fields of the metadata. *)
Definition writes_sniffer {S P} (sniff : S -> InboundContext -> P -> option error * InboundContext) : Prop :=
  forall s m p, exists sn, snd (sniff s m p) = set_sniffer m sn.
Record SniffersWriteSniffer (re : RouterEnv) : Prop := {
  stream_writes : writes_sniffer (re_streamSniff re);
  packet_writes : writes_sniffer (re_packetSniff re)
}.

Section Props.
Context {SH : SliceHelpers} {GS : GoStd} {TP : ThirdParty} {DF : DialerFactory} {SL : SocksLib}.
Context (env : RuleEnv) (re : RouterEnv).

(** ** The matching state is left alone *)

Lemma try_writes {S P} (sniff : S -> InboundContext -> P -> option error * InboundContext) l p :
  writes_sniffer sniff -> forall m, exists sn, snd (fst (try_sniffers sniff l m p)) = set_sniffer m sn.
Proof.
  intros Hk. induction l as [|s l IH]; intros m; simpl.
  { exists (ic_sniffer m). by destruct m. }
  destruct (Hk s m p) as [sn1 H1]. destruct (sniff s m p) as [[e|] m1]; simpl in *; subst; [|eauto].
  destruct (IH (set_sniffer m sn1)) as [sn2 H2].
  destruct (try_sniffers sniff l _ p) as [[[] m2] errs]; simpl in *; eauto.
Qed.

Lemma try_keeps {S P} (sniff : S -> InboundContext -> P -> option error * InboundContext) l p m :
  writes_sniffer sniff -> ic_rule (snd (fst (try_sniffers sniff l m p))) = ic_rule m.
Proof. intros Hk. by destruct (try_writes sniff l p Hk m) as [sn ->]. Qed.

Section Keeps.
Context (Hk : SniffersWriteSniffer re).

Lemma peek_stream_keeps l buffers m buffer first last reads :
  ic_rule (snd (fst (fst (PeekStream re l buffers m buffer first last reads)))) = ic_rule m.
Proof.
  revert m buffer first last. induction reads as [|[d|e|e] reads IH]; intros m buffer first last; simpl; try done.
  pose proof (try_keeps _ l (buffers ++ [buffer ++ d]) m (stream_writes _ Hk)) as H.
  destruct (try_sniffers _ _ _ _) as [[found m1] errs]; simpl in *. destruct found; [done|].
  destruct (existsb _ errs); [|done]. by rewrite IH.
Qed.

Lemma sniff_packet_keeps action m p : ic_rule (snd (sniff_packet re action m p)) = ic_rule m.
Proof.
  unfold sniff_packet, PeekPacket. set (l := if quicMoreData _ _ then _ else _). clearbody l.
  pose proof (try_keeps _ l p m (packet_writes _ Hk)) as H.
  destruct (try_sniffers _ _ _ _) as [[found m1] errs]. by destruct found.
Qed.

Lemma sniff_buffered_keeps action l m : ic_rule (snd (sniff_buffered re action l m)) = ic_rule m.
Proof.
  revert m. induction l as [|b l IH]; intros m; simpl; [done|].
  pose proof (sniff_packet_keeps action m (pb_Buffer b)) as H.
  destruct (sniff_packet _ _ _ _) as [err m1]; simpl in *. destruct (need_more err); [|done]. by rewrite IH.
Qed.

Lemma sniff_reads_keeps action reads m packets :
  ic_rule (snd (fst (fst (sniff_reads re action reads m packets)))) = ic_rule m.
Proof.
  revert m packets. induction reads as [|[d dst|e|e|e] reads IH]; intros m packets; simpl; try done.
  pose proof (sniff_packet_keeps action m d) as H.
  destruct (sniff_packet _ _ _ _) as [err m1]; simpl in *. destruct (need_more err); [|done]. by rewrite IH.
Qed.

Lemma override_keeps action m : ic_rule (override_destination action m) = ic_rule m.
Proof. unfold override_destination. by destruct (_ && _). Qed.

Lemma actionSniff_keeps action m input :
  ic_rule (snd (fst (actionSniff re action m input))) = ic_rule m.
Proof.
  destruct input as [buffers reads|packets reads]; unfold actionSniff.
  - unfold actionSniff_stream. repeat (destruct (_ : bool); [done|]).
    set (l := if bool_decide (_ = []) then _ else _). clearbody l.
    pose proof (peek_stream_keeps l buffers m [] true None reads) as H.
    destruct (PeekStream _ _ _ _ _ _ _ _) as [[[err m1] buffer] reads1]; simpl in *.
    destruct err; simpl; [done|]. by rewrite override_keeps.
  - unfold actionSniff_packet. repeat (destruct (_ : bool); [done|]).
    pose proof (sniff_buffered_keeps action packets m) as H.
    destruct (sniff_buffered _ _ _ _) as [[err|] m1]; simpl in *.
    + destruct err; simpl; [done|]. by rewrite override_keeps.
    + pose proof (sniff_reads_keeps action reads m1 packets) as H'.
      destruct (sniff_reads _ _ _ _ _) as [[[[err fatal] m2] packets2] reads2]; simpl in *.
      destruct fatal; simpl; [congruence|]. destruct err; simpl; [congruence|]. rewrite override_keeps. congruence.
Qed.

Lemma route_options_keeps m o : ic_rule (apply_route_options m o) = ic_rule m.
Proof.
  unfold apply_route_options, applyRouteOptionsOverride. cbv zeta.
  by repeat destruct (_ : bool).
Qed.

Lemma resolve_keeps m server q m' : actionResolve re m server q = Ok m' -> ic_rule m' = ic_rule m.
Proof.
  unfold actionResolve. destruct (Socks_IsDomain _); [|by intros [= <-]].
  destruct (_ && _); [done|]. by intros (l & _ & [= <-])%bind_ok.
Qed.

Lemma perform_keeps a m input m' input' :
  perform re a m input = Ok (m', input') -> ic_rule m' = ic_rule m.
Proof.
  unfold perform. set (m0 := match route_options a with Some o => _ | None => m end).
  assert (ic_rule m0 = ic_rule m) as H0.
  { subst m0. destruct (route_options a); [apply route_options_keeps|done]. }
  clearbody m0. rewrite <-H0. clear H0.
  destruct a; try (by intros [= <- <-]).
  - pose proof (actionSniff_keeps r m0 input) as H.
    destruct (actionSniff _ _ _ _) as [[[e|] m1] input1]; simpl in *; [done|]. by intros [= <- <-].
  - by intros (m1 & Hm%resolve_keeps & [= <- <-])%bind_ok.
Qed.

Lemma full_rule m m' : ic_rule m' = ic_rule m -> full m -> full m'.
Proof. unfold full. by intros ->. Qed.
End Keeps.

(** ** The selected rule *)

(** A specification of the loop over the rules.  A rule sees the metadata the
    matching rules before it left; it decides when its documented condition
    holds and its action is final. *)
Definition State : Type := InboundContext * Input.
Definition applies (rule : Rule RuleAction) (st : State) : bool := Spec env rule (ResetRuleCache (fst st)).
(** The documented final actions; a bypass is one when it names an outbound. *)
Definition terminal (a : RuleAction) : bool :=
  match a with
  | ActionRoute _ _ | ActionDNSRoute _ _ _ _ | ActionReject _ | ActionHijackDNS => true
  | ActionBypass outbound _ => negb (bool_decide (outbound = ""))
  | _ => false
  end.
Definition decides (rule : Rule RuleAction) (st : State) : bool :=
  applies rule st && match Rule_action rule with Some a => terminal a | None => false end.
Lemma final_terminal a : final_action a = terminal a.
Proof. by destruct a. Qed.
Definition step (rule : Rule RuleAction) (st : State) : Res State :=
  let '(m, input) := st in
  if applies rule st then
    match Rule_action rule with
    | Some a => perform re a (ResetRuleCache m) input
    | None => Panic "invalid memory address or nil pointer dereference"
    end
  else Ok (ResetRuleCache m, input).
Fixpoint run (rules : list (Rule RuleAction)) (st : State) : Res State :=
  match rules with
  | [] => Ok st
  | rule :: rest => st ← step rule st; run rest st
  end.
Definition undecided (rules : list (Rule RuleAction)) (st : State) : Prop :=
  forall j rule st', rules !! j = Some rule -> run (take j rules) st = Ok st' -> decides rule st' = false.

(** The decision of a list of rules, from its first rule on. *)
Definition selects (rules : list (Rule RuleAction)) (st : State)
    (sel : option (nat * Rule RuleAction)) (st' : State) : Prop :=
  match sel with
  | Some (i, rule) =>
      rules !! i = Some rule /\ undecided (take i rules) st /\
      exists st0, run (take i rules) st = Ok st0 /\ decides rule st0 = true /\ step rule st0 = Ok st'
  | None => undecided rules st /\ run rules st = Ok st'
  end.

Lemma undecided_cons rule rules st :
  undecided (rule :: rules) st <->
  decides rule st = false /\ forall st', step rule st = Ok st' -> undecided rules st'.
Proof.
  split.
  - intros H. split; [by apply (H 0%nat)|]. intros st' Hs j r st'' Hj Hr. apply (H (S j)); [done|].
    simpl. rewrite Hs. done.
  - intros [H1 H2] [|j] r st' Hj Hr; simpl in *; [by simplify_eq|].
    apply bind_ok in Hr as (st0 & Hs & Hr). by eapply H2.
Qed.

Lemma selects_cons rule rules st sel st' :
  decides rule st = false ->
  selects (rule :: rules) st (prod_map S id <$> sel) st' <->
  exists st0, step rule st = Ok st0 /\ selects rules st0 sel st'.
Proof.
  intros Hd. destruct sel as [[i r]|]; simpl.
  - rewrite undecided_cons. split.
    + intros (Hi & [_ Hu] & st1 & (st0 & Hs & Hr)%bind_ok & Hd1 & Hs1). exists st0. naive_solver.
    + intros (st0 & Hs & Hi & Hu & st1 & Hr & Hd1 & Hs1). split; [done|]. rewrite Hs.
      split; [split; [done|]; naive_solver|]. exists st1. done.
  - rewrite undecided_cons. split.
    + intros [[_ Hu] (st0 & Hs & Hr)%bind_ok]. naive_solver.
    + intros (st0 & Hs & Hu & Hr). rewrite Hs. split; [split; [done|]; naive_solver|done].
Qed.

Lemma selects_skip rule rules st i r st' :
  decides rule st = false -> selects (rule :: rules) st (Some (i, r)) st' -> exists j, i = S j.
Proof.
  intros Hd (Hi & _ & st0 & Hr & Hd0 & _). destruct i as [|i]; [|by exists i]. simpl in *. simplify_eq.
  congruence.
Qed.

Definition shift (n : nat) (sel : option (nat * Rule RuleAction)) := prod_map (Nat.add n) id <$> sel.

Lemma match_rules_cons (Hk : SniffersWriteSniffer re) n rule rules m input :
  full m ->
  match_rules env re n (rule :: rules) m input =
    (st ← step rule (m, input);
     if decides rule (m, input) then Ok (Some (n, rule), fst st, snd st)
     else match_rules env re (S n) rules (fst st) (snd st)).
Proof.
  intros Hm. cbn [match_rules]. unfold step, decides, applies. cbn [fst].
  rewrite engine_refines by by apply full_ResetCache.
  destruct (Spec env rule (ResetRuleCache m)); cbn [negb andb]; [|done].
  destruct (Rule_action rule) as [a|]; [|done].
  destruct (perform re a (ResetRuleCache m) input) as [[m1 input1]| |]; [|done|done].
  cbn. rewrite final_terminal. by destruct (terminal a).
Qed.

Lemma step_full (Hk : SniffersWriteSniffer re) rule m input st :
  full m -> step rule (m, input) = Ok st -> full (fst st).
Proof.
  intros Hm. unfold step. apply full_ResetCache in Hm.
  destruct (applies _ _); [|by intros [= <-]]. destruct (Rule_action rule) as [a|]; [|done].
  destruct st as [m' input']. intros H%perform_keeps; [|done]. by eapply full_rule.
Qed.

Lemma match_rules_selects (Hk : SniffersWriteSniffer re) rules : forall n m input sel m' input',
  full m ->
  match_rules env re n rules m input = Ok (sel, m', input') <->
  exists sel0, sel = shift n sel0 /\ selects rules (m, input) sel0 (m', input').
Proof.
  induction rules as [|rule rules IH]; intros n m input sel m' input' Hm.
  { simpl. split.
    - intros [= <- <- <-]. exists None. split; [done|]. split; [|done]. by intros j r st' Hj.
    - intros ([[i r]|] & -> & H); simpl in H; [by destruct H|]. destruct H as [_ [= -> ->]]. done. }
  rewrite match_rules_cons by done.
  destruct (decides rule (m, input)) eqn:Hd.
  - split.
    + intros ([m1 i1] & Hs & [= <- <- <-])%bind_ok. exists (Some (0%nat, rule)).
      split; [cbn; by rewrite Nat.add_0_r|]. split; [done|]. split; [by intros j r st' Hj|].
      exists (m, input). done.
    + intros (sel0 & -> & H). destruct sel0 as [[i r]|].
      * destruct H as (Hi & Hu & st0 & Hr & Hd0 & Hs). destruct i as [|i].
        -- injection Hi as ->. injection Hr as <-. rewrite Hs. cbn. by rewrite Nat.add_0_r.
        -- simpl in Hu. apply undecided_cons in Hu as [? _]. congruence.
      * destruct H as [Hu _]. apply undecided_cons in Hu as [? _]. congruence.
  - split.
    + intros ([m1 i1] & Hs & H)%bind_ok. apply IH in H as (sel0 & -> & H); [|by eapply (step_full Hk _ _ _ (_, _))].
      exists (prod_map S id <$> sel0). split.
      * destruct sel0 as [[i r]|]; [|done]. cbn. by rewrite Nat.add_succ_r.
      * apply selects_cons; [done|]. by exists (m1, i1).
    + intros (sel0 & -> & H).
      assert (exists sel1, sel0 = prod_map S id <$> sel1) as [sel1 ->].
      { destruct sel0 as [[i r]|]; [|by exists None].
        destruct (selects_skip _ _ _ _ _ _ Hd H) as [j ->]. by exists (Some (j, r)). }
      apply selects_cons in H as ([m1 i1] & Hs & H); [|done]. rewrite Hs. cbn [mbind res_bind fst snd].
      apply IH; [by eapply (step_full Hk _ _ _ (_, _))|]. exists sel1. split; [|done].
      destruct sel1 as [[i r]|]; [|done]. cbn. by rewrite Nat.add_succ_r.
Qed.

Lemma prepare_keeps m m' : prepareMatchMetadata env re m = Ok m' -> ic_rule m' = ic_rule m.
Proof.
  unfold prepareMatchMetadata. intros (m1 & H1 & [= <-])%bind_ok.
  assert (ic_rule m1 = ic_rule m) as <-.
  { transitivity (ic_rule (search_neighbor re (searchProcessInfo env re m))).
    - revert H1. generalize (search_neighbor re (searchProcessInfo env re m)). intros m0.
      unfold restore_domain. cbv zeta. repeat go_case; by intros [= <-].
    - unfold search_neighbor, searchProcessInfo. by repeat go_case. }
  by repeat destruct (_ : bool).
Qed.


(** ** The data of a stream *)

(** What is read from a connection until it is closed. *)
Definition read_data (r : StreamRead) : list Z := match r with SRead d => d | _ => [] end.
Definition reads_data (reads : list StreamRead) : list Z := flat_map read_data reads.
Definition conn_data (c : Conn) : list Z := concat (cn_cached c) ++ reads_data (cn_reads c).

Lemma peek_stream_data l buffers m buffer first last reads err m' buffer' reads' :
  PeekStream re l buffers m buffer first last reads = (err, m', buffer', reads') ->
  buffer' ++ reads_data reads' = buffer ++ reads_data reads.
Proof.
  revert m buffer first last. induction reads as [|[d|e|e] reads IH]; intros m buffer first last; simpl;
    try (by intros [= <- <- <- <-]).
  destruct (try_sniffers _ _ _ _) as [[found m1] errs]. rewrite app_assoc.
  destruct found; [by intros [= <- <- <- <-]|]. destruct (existsb _ errs); [apply IH|by intros [= <- <- <- <-]].
Qed.

Lemma sniff_stream_data action buffers m reads m' new reads' :
  actionSniff_stream re action buffers m reads = (m', new, reads') ->
  concat new ++ reads_data reads' = reads_data reads /\ (length new <= 1)%nat.
Proof.
  unfold actionSniff_stream. repeat (destruct (_ : bool); [intros [= <- <- <-]; split; [done|simpl; lia]|]).
  set (l := if bool_decide (_ = []) then _ else _). clearbody l.
  destruct (PeekStream _ _ _ _ _ _ _ _) as [[[err m1] buffer] reads1] eqn:E. intros [= <- <- <-].
  apply peek_stream_data in E. simpl in E. rewrite <-E.
  case_bool_decide; subst; simpl; [split; [done|lia]|]. rewrite app_nil_r. split; [done|lia].
Qed.

(** The rules that may read from a connection. *)
Definition sniffs (rule : Rule RuleAction) : bool :=
  match Rule_action rule with Some (ActionSniff _) => true | _ => false end.

Lemma perform_stream a m buffers reads m' input' :
  perform re a m (InConn buffers reads) = Ok (m', input') ->
  exists new reads', input' = InConn (buffers ++ new) reads' /\
    concat new ++ reads_data reads' = reads_data reads /\
    (length new <= if a is ActionSniff _ then 1 else 0)%nat.
Proof.
  unfold perform. set (m0 := match route_options a with Some o => _ | None => m end). clearbody m0.
  destruct a; try (intros [= <- <-]; exists [], reads; rewrite app_nil_r; done).
  - unfold actionSniff. destruct (actionSniff_stream _ _ _ _ _) as [[m1 new] reads1] eqn:E.
    intros [= <- <-]. apply sniff_stream_data in E. eauto.
  - intros (m1 & _ & [= <- <-])%bind_ok. exists [], reads. rewrite app_nil_r. done.
Qed.

Lemma match_rules_stream rules : forall n m buffers reads sel m' input',
  match_rules env re n rules m (InConn buffers reads) = Ok (sel, m', input') ->
  exists new reads', input' = InConn (buffers ++ new) reads' /\
    concat new ++ reads_data reads' = reads_data reads /\
    (length new <= length (List.filter sniffs rules))%nat.
Proof.
  induction rules as [|rule rules IH]; intros n m buffers reads sel m' input'; cbn [match_rules].
  { intros [= <- <- <-]. exists [], reads. rewrite app_nil_r. simpl. split; [done|]. split; [done|lia]. }
  destruct (Rule_Match env rule (ResetRuleCache m)) as [matched m1].
  assert (length (List.filter sniffs rules) <= length (List.filter sniffs (rule :: rules)))%nat as Hle
    by (simpl; destruct (sniffs rule); simpl; lia).
  destruct matched; cbn [negb].
  2: { intros (new & r & -> & Hd & Hn)%IH. exists new, r. split; [done|]. split; [done|lia]. }
  destruct (Rule_action rule) as [a|] eqn:Ha; [|done].
  assert (Hs : sniffs rule = if a is ActionSniff _ then true else false) by (unfold sniffs; rewrite Ha; by destruct a).
  intros ([m2 i2] & Hp & H)%bind_ok. apply perform_stream in Hp as (new & r & -> & Hd & Hn).
  destruct (final_action a).
  - injection H as <- <- <-. exists new, r. split; [done|]. split; [done|].
    simpl. rewrite Hs. destruct a; simpl; lia.
  - apply IH in H as (new' & r' & -> & Hd' & Hn'). exists (new ++ new'), r'. rewrite app_assoc. split; [done|].
    rewrite concat_app, <-app_assoc, Hd', Hd, length_app. split; [done|].
    simpl. rewrite Hs. destruct a; simpl; lia.
Qed.

Lemma cache_conn_data c buffers :
  conn_data (cache_conn c buffers) = concat (rev buffers) ++ conn_data c.
Proof.
  unfold cache_conn. revert c. induction buffers as [|b buffers IH]; intros c; [done|].
  simpl. rewrite IH, concat_app. unfold conn_data at 1. simpl. by rewrite app_nil_r, <-!app_assoc.
Qed.

Definition conn_of {C} (r : Routed C) : option C :=
  match r with
  | ToInbound c _ | ToDNS c _ _ | ToOutbound _ c _ => Some c
  | Failed _ | Rejected _ _ => None
  end.

(** Trackers may wrap a connection but not change what is read from it. *)
Definition transparent_trackers : Prop :=
  forall track c m, track ∈ re_trackers re -> conn_data (track c m) = conn_data c.

Lemma trackers_data (l : list (Conn -> InboundContext -> Conn)) c m :
  (forall track c (m : InboundContext), track ∈ l -> conn_data (track c m) = conn_data c) ->
  conn_data (fold_left (fun conn track => track conn m) l c) = conn_data c.
Proof.
  revert c. induction l as [|t l IH]; intros c Ht; [done|]. simpl.
  rewrite IH; [apply Ht; left|]. intros. apply Ht. by right.
Qed.

Lemma or_failed_ok {C} (x : Res (Routed C)) r :
  or_failed x = Ok r -> x = Ok r \/ exists e, x = Err e /\ r = Failed e.
Proof. destruct x; simpl; intros [= <-]; eauto. Qed.

Lemma select_inr {C} network now sel (h r : Routed C) :
  select_outbound re network now sel h = Ok (inr r) -> r = h \/ exists e a, r = Rejected e a.
Proof.
  unfold select_outbound. destruct sel as [[i rule]|]; [|by intros (? & _ & ?)%bind_ok].
  destruct (Rule_action rule) as [[]|]; try done.
  - by intros (? & _ & ?)%bind_ok.
  - case_bool_decide; [done|]. by intros (? & _ & ?)%bind_ok.
  - case_bool_decide; [done|]. destruct (RuleActionReject_Error _ _ _) as [err action].
    intros (e & _ & [= <-])%bind_ok. eauto.
  - intros [= <-]. by left.
Qed.

(** C14: no byte of a stream is lost, added or moved by routing: with at most one
    sniff rule, what an outbound, a DNS server or another inbound reads from the
    connection is what the client sent, whatever part of it was read for
    sniffing. *)
Theorem stream_preserved rules now reads m r c :
  transparent_trackers ->
  (length (List.filter sniffs rules) <= 1)%nat ->
  routeConnection env re rules now reads m = Ok r -> conn_of r = Some c ->
  conn_data c = reads_data reads.
Proof.
  intros Ht Hone H Hc. unfold routeConnection in H. destruct (negb _) in H.
  { injection H as <-. unfold inject in Hc. case_bool_decide; [done|].
    destruct (re_inbound re _) as [i|]; [|done]. destruct i.1; [|done]. simpl in Hc. by simplify_eq. }
  destruct (refused_destination _) in H; [by simplify_eq|].
  destruct (_ && _) in H; [injection H as <-; simpl in Hc; by simplify_eq|].
  apply or_failed_ok in H as [H|(e & _ & ->)]; [|done].
  apply bind_ok in H as ([[sel m1] input] & Hm & H). unfold matchRule in Hm.
  apply bind_ok in Hm as (m0 & _ & Hm). apply match_rules_stream in Hm as (new & reads' & -> & Hd & Hn).
  assert (Hdata : conn_data (cache_conn (mkConn [] reads') new) = reads_data reads).
  { rewrite cache_conn_data. unfold conn_data. simpl. rewrite <-Hd. f_equal.
    destruct new as [|b [|b' new]]; simpl in *; [done|done|lia]. }
  apply bind_ok in H as ([o|r'] & Hs & [= <-]); simpl in Hc.
  - simplify_eq. by rewrite trackers_data by apply Ht.
  - apply select_inr in Hs as [->|(e & a & ->)]; [|done]. simpl in Hc. by simplify_eq.
Qed.

(** ** The outbound of a connection *)

Lemma find_outbound_ok network tag o :
  find_outbound re network tag = Ok o -> re_Outbound re tag = Some o /\ network ∈ re_Network re o.
Proof.
  unfold find_outbound. destruct (re_Outbound re tag) as [o'|]; [|done].
  case_bool_decide; [|done]. by intros [= <-].
Qed.

Lemma default_outbound_ok network o :
  default_outbound re network = Ok o -> re_Default re = Some o /\ network ∈ re_Network re o.
Proof.
  unfold default_outbound. destruct (re_Default re) as [o'|]; [|done].
  case_bool_decide; [|done]. by intros [= <-].
Qed.

(** The outbound that the outcome of the rules names. *)
Definition named_outbound (sel : option (nat * Rule RuleAction)) (o : Member) : Prop :=
  match sel with
  | None => re_Default re = Some o
  | Some (_, rule) =>
      exists tag options, re_Outbound re tag = Some o /\
        (Rule_action rule = Some (ActionRoute tag options) \/
         Rule_action rule = Some (ActionBypass tag options) /\ tag <> "")
  end.

Lemma select_inl {C} network now sel (h : Routed C) o :
  select_outbound re network now sel h = Ok (inl o) -> named_outbound sel o /\ network ∈ re_Network re o.
Proof.
  unfold select_outbound, named_outbound. destruct sel as [[i rule]|].
  2: { intros (o' & [? ?]%default_outbound_ok & [= <-])%bind_ok. done. }
  destruct (Rule_action rule) as [[tag opts| |tag opts| |act| | | | | | | |]|]; try done.
  - intros (o' & [? ?]%find_outbound_ok & [= <-])%bind_ok. eauto 8.
  - case_bool_decide; [done|]. intros (o' & [? ?]%find_outbound_ok & [= <-])%bind_ok. eauto 9.
  - case_bool_decide; [done|]. destruct (RuleActionReject_Error _ _ _) as [err action].
    by intros (e & _ & ?)%bind_ok.
Qed.

Lemma inject_not_outbound {C} i w (c c' : C) m o m' : inject re i w c m <> ToOutbound o c' m'.
Proof. unfold inject. case_bool_decide; [done|]. destruct (re_inbound _ _); [|done]. by destruct (i _). Qed.

(** A connection is only handed to an outbound the configuration names for it
    and that carries its network: the outbound of the selected route or bypass
    rule, or the default outbound when no rule was selected.  The metadata
    reports that outbound. *)
Theorem routed_outbound_named rules now sreads preads m o m' :
  (forall c, routeConnection env re rules now sreads m = Ok (ToOutbound o c m') ->
     "tcp" ∈ re_Network re o /\ c_RouteOutbound (ic_power m') = m_Tag o /\
     exists sel m1 input, matchRule env re rules (set_Network m "tcp") (InConn [] sreads) = Ok (sel, m1, input) /\
       named_outbound sel o) /\
  (forall c, routePacketConnection env re rules now preads m = Ok (ToOutbound o c m') ->
     "udp" ∈ re_Network re o /\ c_RouteOutbound (ic_power m') = m_Tag o /\
     exists sel m1 input, matchRule env re rules (set_Network m "udp") (InPacketConn [] preads) = Ok (sel, m1, input) /\
       named_outbound sel o).
Proof.
  split; intros c H.
  - unfold routeConnection in H. destruct (negb _) in H.
    { injection H as H. by apply inject_not_outbound in H. }
    destruct (refused_destination _) in H; [done|]. destruct (_ && _) in H; [done|].
    apply or_failed_ok in H as [H|(e & _ & ?)]; [|done].
    apply bind_ok in H as ([[sel m1] input] & Hm & H). rewrite Hm.
    apply bind_ok in H as ([o'|r'] & Hs & H).
    + injection H as <- <- <-. apply select_inl in Hs as [? ?]. split; [done|]. split; [done|]. eauto 6.
    + injection H as ->. by apply select_inr in Hs as [?|(? & ? & ?)].
  - unfold routePacketConnection in H. destruct (negb _) in H.
    { injection H as H. by apply inject_not_outbound in H. }
    destruct (_ && _) in H; [done|].
    apply or_failed_ok in H as [H|(e & _ & ?)]; [|done].
    apply bind_ok in H as ([[sel m1] input] & Hm & H). rewrite Hm.
    destruct (match input with InConn _ _ => _ | InPacketConn _ _ => _ end) as [packets conn].
    apply bind_ok in H as ([o'|r'] & Hs & H).
    + injection H as <- <- <-. apply select_inl in Hs as [? ?]. split; [done|]. split; [done|]. eauto 6.
    + injection H as ->. by apply select_inr in Hs as [?|(? & ? & ?)].
Qed.

(** ** No panics *)

(** The actions of a route rule, as [NewRule] builds them. *)
Definition route_action_ok (a : option RuleAction) : bool :=
  match a with
  | Some (ActionReject r) => bool_decide (rj_Method r ∈ ["default"; "drop"; "reply"])
  | Some (ActionRoute _ _ | ActionRouteOptions _ | ActionBypass _ _ | ActionDirect _ _ | ActionHijackDNS
          | ActionSniff _ | ActionResolve _ _ _ _ _ _ _) => true
  | _ => false
  end.

(** What decoding a rule guarantees: an action is named, and the options of a
    reject action are checked. *)
Definition decoded_action (a : RuleActionOptions) : Prop :=
  a_Action a <> "" /\ exists r0, RejectActionOptions_check r0 = Ok (a_RejectOptions a).
Definition decoded_rule (r : RouteRule) : Prop :=
  match r with RouteDefault _ a | RouteLogical _ _ _ a => decoded_action a | RouteUnknown _ => True end.

Lemma reject_method r0 r :
  RejectActionOptions_check r0 = Ok r -> ro_Method r ∈ ["default"; "drop"; "reply"].
Proof.
  unfold RejectActionOptions_check. intros (r1 & H1 & H)%bind_ok.
  destruct (_ && _) in H; [done|]. injection H as ->.
  destruct (_ || _) in H1; [injection H1 as <-; simpl; set_solver|].
  destruct (_ || _) eqn:E in H1; [|done]. injection H1 as <-.
  apply orb_true_iff in E as [E|E]; apply bool_decide_eq_true in E; rewrite E; set_solver.
Qed.

Lemma decoded_action_ok ps a act :
  decoded_action a -> NewRuleAction ps a = Ok act -> route_action_ok act = true.
Proof.
  intros [Hne (r0 & Hr%reject_method)]. unfold NewRuleAction. cbv zeta.
  repeat (case_bool_decide;
    [first [done
           | by intros (? & _ & [= <-])%bind_ok
           | intros [= <-]; first [done | by simpl; rewrite bool_decide_true]]|]).
  done.
Qed.

Lemma built_rule_ok ps options check rule :
  decoded_rule options -> NewRule ps options check = Ok rule -> route_action_ok (Rule_action rule) = true.
Proof.
  intros Hd H. destruct options as [o a|mode subs inv a|type]; [| |done].
  - apply NewRule_default in H as (act & r & Ha & Hr & ->). cbn. apply route_action in Hr.
    rewrite Hr. by eapply decoded_action_ok.
  - apply NewRule_logical in H as (act & mode' & rs & Ha & -> & _). cbn. by eapply decoded_action_ok.
Qed.

Definition never_panics {A} (r : Res A) : Prop := forall p, r <> Panic p.

Lemma never_panics_bind {A B} (r : Res A) (f : A -> Res B) :
  never_panics r -> (forall a, r = Ok a -> never_panics (f a)) -> never_panics (a ← r; f a).
Proof. intros Hr Hf p. destruct r; simpl; [by apply Hf|done|by intros [= ->]; apply (Hr p)]. Qed.

(** Lookups of the DNS router return. *)
Definition lookups_return : Prop := forall m domain q, never_panics (re_Lookup re m domain q).

Lemma perform_returns a m input : lookups_return -> never_panics (perform re a m input).
Proof.
  intros Hl. unfold perform. set (m0 := match route_options a with Some o => _ | None => m end). clearbody m0.
  destruct a; try done.
  - destruct (actionSniff _ _ _ _) as [[[e|] m1] i1]; done.
  - apply never_panics_bind; [|done]. unfold actionResolve. destruct (Socks_IsDomain _); [|done].
    destruct (_ && _); [done|]. apply never_panics_bind; [apply Hl|done].
Qed.

Lemma match_rules_returns rules : forall n m input,
  lookups_return -> Forall (fun rule => route_action_ok (Rule_action rule) = true) rules ->
  never_panics (match_rules env re n rules m input).
Proof.
  intros n m input Hl Hr. revert n m input. induction Hr as [|rule rules Ha _ IH]; intros n m input; [done|].
  cbn [match_rules]. destruct (Rule_Match env rule (ResetRuleCache m)) as [[] m1]; cbn [negb]; [|apply IH].
  destruct (Rule_action rule) as [a|]; [|done]. apply never_panics_bind; [by apply perform_returns|].
  intros [m2 i2] _. by destruct (final_action a).
Qed.

Lemma match_rules_final rules : forall n m input sel m' input',
  match_rules env re n rules m input = Ok (sel, m', input') ->
  match sel with
  | Some (_, rule) => rule ∈ rules /\ exists a, Rule_action rule = Some a /\ final_action a = true
  | None => True
  end.
Proof.
  induction rules as [|rule rules IH]; intros n m input sel m' input'; cbn [match_rules]; [by intros [= <- <- <-]|].
  destruct (Rule_Match env rule (ResetRuleCache m)) as [[] m1]; cbn [negb].
  2: { intros H%IH. destruct sel as [[i r]|]; [|done]. destruct H. split; [by right|done]. }
  destruct (Rule_action rule) as [a|] eqn:Ha; [|done].
  intros ([m2 i2] & _ & H)%bind_ok. destruct (final_action a) eqn:Hf.
  - injection H as <- <- <-. split; [by left|]. eauto.
  - apply IH in H. destruct sel as [[i r]|]; [|done]. destruct H. split; [by right|done].
Qed.

Lemma select_returns {C} network now sel (h : Routed C) :
  is_Some (re_Default re) ->
  match sel with
  | Some (_, rule) => route_action_ok (Rule_action rule) = true /\
                      exists a, Rule_action rule = Some a /\ final_action a = true
  | None => True
  end ->
  never_panics (select_outbound re network now sel h).
Proof.
  intros [d Hd] Hsel. unfold select_outbound. destruct sel as [[i rule]|].
  2: { unfold default_outbound. rewrite Hd. by case_bool_decide. }
  destruct Hsel as [Hok (a & Ha & Hf)]. rewrite Ha in Hok |- *.
  assert (Hfind : forall tag, never_panics (o ← find_outbound re network tag; Ok (@inl Member (Routed C) o))).
  { intros tag. unfold find_outbound. destruct (re_Outbound re tag); [|done]. by case_bool_decide. }
  destruct a as [tag o|o|tag o|? ?|act| | | | | | | |]; try done; try apply Hfind.
  - destruct (bool_decide_reflect (tag = "")) as [->|]; [done|]. apply Hfind.
  - case_bool_decide; [done|]. simpl in Hok. apply bool_decide_eq_true in Hok.
    destruct (RuleActionReject_Error SH act now) as [err act'] eqn:E.
    apply never_panics_bind; [|done]. intros p ->. revert E. unfold RuleActionReject_Error.
    destruct (bool_decide_reflect (rj_Method act = "default")).
    { destruct (rj_NoDrop act); [done|]. cbv zeta. by destruct (flood_limit <? _). }
    destruct (bool_decide_reflect (rj_Method act = "drop")); [done|].
    destruct (bool_decide_reflect (rj_Method act = "reply")); [done|]. intros _.
    set_solver.
Qed.

(** Routing a TCP or UDP connection never panics with the rules [Initialize]
    builds from decoded options and a default outbound, if DNS lookups return:
    every outcome is an error, a rejection, or a connection that is handed over. *)
Theorem routing_returns ps options rules now sreads preads m :
  Forall decoded_rule options -> Initialize_rules ps options = Ok rules ->
  is_Some (re_Default re) -> lookups_return ->
  (exists r, routeConnection env re rules now sreads m = Ok r) /\
  (exists r, routePacketConnection env re rules now preads m = Ok r).
Proof.
  intros Hdec Hrules Hdef Hl. apply build_rules_Forall2 in Hrules.
  assert (Hok : Forall (fun rule => route_action_ok (Rule_action rule) = true) rules).
  { apply list.Forall_forall. intros rule (i & Hi)%list_elem_of_lookup.
    destruct (Forall2_lookup_r _ _ _ _ _ Hrules Hi) as (o & Ho & (u & _ & Hn)%bind_ok).
    eapply built_rule_ok; [|exact Hn]. rewrite list.Forall_forall in Hdec. by eapply Hdec, list_elem_of_lookup_2. }
  assert (Hmatch : forall m input, never_panics (matchRule env re rules m input)).
  { intros m0 input. unfold matchRule. apply never_panics_bind.
    - unfold prepareMatchMetadata. apply never_panics_bind; [|done]. unfold restore_domain. cbv zeta.
      intros p. by repeat go_case.
    - intros m1 _. by apply match_rules_returns. }
  assert (Hsel : forall C network m input sel m1 input1 (h : Routed C),
            matchRule env re rules m input = Ok (sel, m1, input1) ->
            never_panics (select_outbound re network now sel h)).
  { intros C network m0 input sel m1 input1 h H. apply select_returns; [done|].
    apply bind_ok in H as (m2 & _ & H%match_rules_final). destruct sel as [[i rule]|]; [|done].
    destruct H as [Hin H]. split; [|done]. rewrite list.Forall_forall in Hok. by apply Hok. }
  assert (Hor : forall C (x : Res (Routed C)), never_panics x -> exists r, or_failed x = Ok r).
  { intros C [r|e|p] Hx; [by exists r|by exists (Failed e)|by destruct (Hx p)]. }
  split.
  - unfold routeConnection. destruct (negb _); [eauto|]. destruct (refused_destination _); [eauto|].
    destruct (_ && _); [eauto|]. apply Hor, never_panics_bind; [apply Hmatch|].
    intros [[sel m1] input] H. apply never_panics_bind; [by eapply Hsel|]. by intros [o|r] _.
  - unfold routePacketConnection. destruct (negb _); [eauto|].
    destruct (_ && _); [eauto|]. apply Hor, never_panics_bind; [apply Hmatch|].
    intros [[sel m1] input] H.
    destruct (match input with InConn _ _ => _ | InPacketConn _ _ => _ end) as [packets conn].
    apply never_panics_bind; [by eapply Hsel|]. by intros [o|r] _.
Qed.

End Props.
