(* ===== verification/RouterFlow.v ===== *)
(** * What pre-matching guarantees

    Theorems on [RouterPreMatch]: pre-matching decides by the same rules as
    routing; a flow is only forwarded to an outbound that accepts it; a flow is
    only bypassed when nothing changed its destination. *)

From stdpp Require Import base numbers list strings gmap option.
From Stdlib Require Import ZArith Lia.
From S2P Require Import Prelude NetAddr Metadata RuleItems RuleAction RuleCore RuleSpec RuleFrame RuleBuild RuleDispatch ManagerCore.
From S2P Require Import Router RouterPreMatch RouterProps.

Local Open Scope Z_scope.

(** ** Metadata that differ in dial options *)

(** The metadata with the flag of pre-matching *)
Definition with_PreMatch (m : InboundContext) (flag : bool) : InboundContext :=
  let c := ic_match m in
  set_match m (mkMatch (c_DestinationAddresses c) (c_DNSResponse c) (c_NamedDNSResponses c)
    (c_DestinationAddressMatchFromResponse c) (c_SourceGeoIPCode c) (c_GeoIPCode c) (c_ProcessInfo c)
    (c_SourceMACAddress c) (c_SourceHostname c) (c_QueryType c) (c_QueryClientSubnet c)
    (c_QueryDNSSEC c) (c_FakeIP c) flag).

(** Equal but for the dial options (the UDP timeout is one of the equal
    fields), the fields that routing writes and pre-matching does not, and the
    flag that pre-matching sets. *)
Definition dial_eq (m m' : InboundContext) : Prop :=
  ic_base m = ic_base m' /\ ic_power m = ic_power m' /\ ic_sniffer m = ic_sniffer m' /\
  ic_match (set_PreMatch m) = ic_match (set_PreMatch m') /\ ic_rule m = ic_rule m' /\
  c_UDPTimeout (ic_cache m) = c_UDPTimeout (ic_cache m').
#[global] Instance dial_eq_equiv : Equivalence dial_eq.
Proof.
  split; [by intros m; repeat split|intros m m' (? & ? & ? & ? & ? & ?); by repeat split|].
  intros m1 m2 m3 (? & ? & ? & ? & ? & ?) (? & ? & ? & ? & ? & ?). repeat split; congruence.
Qed.
Ltac dial_fields m m' H :=
  unfold dial_eq in *; destruct m as [? ? ? ? [] ?], m' as [? ? ? ? [] ?];
  destruct H as (? & ? & ? & ? & ? & ?); cbn in *; simplify_eq; repeat split; try done; congruence.
#[global] Instance set_Destination_dial : Proper (dial_eq ==> eq ==> dial_eq) set_Destination.
Proof. intros m m' H d d' <-. dial_fields m m' H. Qed.
#[global] Instance set_UDPTimeout_dial : Proper (dial_eq ==> eq ==> dial_eq) set_UDPTimeout.
Proof. intros m m' H t t' <-. dial_fields m m' H. Qed.
#[global] Instance set_addresses_dial : Proper (dial_eq ==> eq ==> dial_eq) set_DestinationAddresses.
Proof.
  intros m m' (? & ? & ? & H & ? & ?) l l' <-. repeat split; try assumption.
  destruct m as [? ? ? ? [] ?], m' as [? ? ? ? [] ?]. cbn in *. injection H as ?????????????. by subst.
Qed.
#[global] Instance ResetRuleCache_dial : Proper (dial_eq ==> dial_eq) ResetRuleCache.
Proof. intros m m' H. dial_fields m m' H. Qed.

(** What the outbounds prefer does not depend on the flag of pre-matching; of the
    outbounds in [protocol/] only [bridge] looks at it. *)
Definition preferences_ignore_flag (env : RuleEnv) : Prop := forall outbound flag flag',
  (forall host, OutboundPreferredDomain env outbound flag host = OutboundPreferredDomain env outbound flag' host) /\
  (forall a, OutboundPreferredAddress env outbound flag a = OutboundPreferredAddress env outbound flag' a).

Section Flow.
Context {SH : SliceHelpers} {GS : GoStd} {TP : ThirdParty} {DF : DialerFactory} {SL : SocksLib}.
Context (env : RuleEnv) (re : RouterEnv).

(** Matching does not read the dial options and, with such outbounds, does not
    depend on the flag. *)
Abbreviation redial m c p := (set_cache (with_PreMatch m p) c).

Lemma item_flag it m p : preferences_ignore_flag env -> RuleItem_Match env it (with_PreMatch m p) = RuleItem_Match env it m.
Proof.
  intros Hp. destruct it as [| | | | | | | | | | | | | | | | | | | | | | | | | | | | | | | | | | | | | | |r|]; try reflexivity.
  cbn [RuleItem_Match]. unfold PreferredByItem_Match. change (domainHost (with_PreMatch m p)) with (domainHost m).
  change (Destination (with_PreMatch m p)) with (Destination m).
  change (DestinationAddresses (with_PreMatch m p)) with (DestinationAddresses m).
  assert (Hd : forall l host, existsb (fun o => OutboundPreferredDomain env o (PreMatch (with_PreMatch m p)) host) l =
                              existsb (fun o => OutboundPreferredDomain env o (PreMatch m) host) l)
    by (intros l host; apply existsb_ext_in; intros o _; apply Hp).
  assert (Ha : forall l a, existsb (fun o => OutboundPreferredAddress env o (PreMatch (with_PreMatch m p)) a) l =
                           existsb (fun o => OutboundPreferredAddress env o (PreMatch m) a) l)
    by (intros l a; apply existsb_ext_in; intros o _; apply Hp).
  rewrite Hd, Ha. do 2 (destruct (_ && _); [done|]). apply existsb_ext_in. intros a _. apply Ha.
Qed.

Lemma redial_frame : preferences_ignore_flag env ->
  frame (Action := RuleAction) env (fun m m' => exists c p, m' = redial m c p) (fun _ => True).
Proof.
  intros Hp. constructor; intros *; [intros _| | | |]; intros (c & p & ->); [|done|exists c, p; done..].
  rewrite <-(item_flag it m p Hp). symmetry. apply item_frame; by destruct m.
Qed.

Lemma Spec_redial rule : preferences_ignore_flag env ->
  forall m c p, Spec (Action := RuleAction) env rule (redial m c p) = Spec env rule m.
Proof.
  intros Hp. induction rule as [rule IH] using Rule_nested_ind. rewrite list.Forall_forall in IH.
  assert (Hany : forall l : list RuleItem, Forall (fun _ => True) l) by (intros; by apply list.Forall_true).
  assert (Hdefault : forall r, (forall sub, sub ∈ default_children r -> sub ∈ children rule) -> forall m c p,
            default_spec env (Spec env) asDefaultHeadless r (redial m c p) =
            default_spec env (Spec env) asDefaultHeadless r m).
  { intros r Hc m c p. symmetry. eapply (default_frame env _ _ (redial_frame Hp)); [done|by exists c, p| |done].
    intros item s sub m1 ? Hi Hs Hsub (c' & p' & ->). symmetry. apply IH, Hc. unfold default_children. rewrite Hi.
    apply list_elem_of_In, in_flat_map. exists s. split; by apply list_elem_of_In. }
  assert (Hlogical : forall r, (forall sub, sub ∈ l_rules r -> sub ∈ children rule) -> forall m c p,
            logical_spec (Spec env) r (redial m c p) = logical_spec (Action := RuleAction) (Spec env) r m).
  { intros r Hc m c p. symmetry. eapply (logical_frame env _ _ (redial_frame Hp)); [by exists c, p|].
    intros sub m1 ? Hsub (c' & p' & ->). symmetry. by apply IH, Hc. }
  intros m c p. destruct rule as [r|r|r|r|r mr tag race|r tags anon race]; simpl in *;
    try (by apply Hlogical); try (by apply Hdefault).
  unfold dns_spec. destruct mr; [|by apply Hdefault]. cbn [ic_match set_cache with_PreMatch set_match c_DNSResponse c_NamedDNSResponses].
  destruct (if bool_decide (tag = "") then _ else _) as [resp|]; [|done].
  change (set_Response (redial m c p) (Some resp) true) with (redial (set_Response m (Some resp) true) c p).
  by apply Hdefault.
Qed.

Lemma Spec_dial rule m m' : preferences_ignore_flag env -> dial_eq m m' ->
  Spec env rule m = Spec (Action := RuleAction) env rule m'.
Proof.
  intros Hp (H1 & H2 & H3 & H4 & H5 & _). rewrite <-(Spec_redial rule Hp m (ic_cache m') (PreMatch m')).
  f_equal. destruct m as [? ? ? ? [] ?], m' as [? ? ? ? [] ?]; cbn in *. injection H4 as ?????????????. unfold with_PreMatch, set_match, set_cache. cbn. by subst.
Qed.

(** ** Pre-matching and routing agree *)

(** The actions that pre-matching performs as routing does: it does not forget
    the resolved addresses when the destination is overridden, reads no more
    than the first packet, and stops at other actions. *)
Definition keeps_address (o : RuleActionRouteOptions) : bool := negb (Socks_IsValid (ro_OverrideAddress o)).
Definition shared_action (a : option RuleAction) : bool :=
  match a with
  | Some (ActionRoute _ o | ActionRouteOptions o) => keeps_address o
  | Some (ActionBypass tag o) => negb (bool_decide (tag = "")) && keeps_address o
  | Some (ActionReject _ | ActionHijackDNS | ActionResolve _ _ _ _ _ _ _) => true
  | _ => false
  end.

(** The verdict for the rule that routing selects. *)
Definition verdict (timeNow : Z) (packetDestination : Socksaddr)
    (selected : option (nat * Rule RuleAction)) (m : InboundContext) : Res PreMatchResult :=
  match selected with
  | None => preMatchFlow re m packetDestination ""
  | Some (_, rule) =>
      match Rule_action rule with
      | Some (ActionRoute tag _ | ActionBypass tag _) => preMatchFlow re m packetDestination tag
      | Some (ActionReject r) =>
          e ← fst (RuleActionReject_Error SH r timeNow);
          Ok (result_of (match e with Some ErrDrop => PreMatchDrop | _ => PreMatchReject end) None)
      | Some ActionHijackDNS =>
          Ok (if bool_decide (Network m = "udp") then result_of PreMatchHijackDNS None else continueResult)
      | _ => Ok continueResult
      end
  end.

(** Lookups do not depend on the dial options of the connection. *)
Definition lookups_ignore_dial : Prop := forall m m' domain q, dial_eq m m' -> re_Lookup re m domain q = re_Lookup re m' domain q.

Lemma override_dial m m' o :
  dial_eq m m' -> dial_eq (applyRouteOptionsOverride m o) (applyRouteOptionsOverride m' o).
Proof.
  intros H. unfold applyRouteOptionsOverride. cbv zeta. pose proof H as (Hb & _).
  assert (forall x x', dial_eq x x' -> dial_eq (if 0 <? ro_OverridePort o then set_Destination x
            (mkSocksaddr (Socks_Addr (Destination x)) (ro_OverridePort o) (Socks_Fqdn (Destination x))) else x)
            (if 0 <? ro_OverridePort o then set_Destination x'
            (mkSocksaddr (Socks_Addr (Destination x')) (ro_OverridePort o) (Socks_Fqdn (Destination x'))) else x')) as H2.
  { intros x x' Hx. destruct (0 <? ro_OverridePort o); [|done]. pose proof Hx as (-> & _). by rewrite Hx. }
  assert (forall x x', dial_eq x x' -> dial_eq (if 0 <? ro_UDPTimeout o then set_UDPTimeout x (ro_UDPTimeout o) else x)
            (if 0 <? ro_UDPTimeout o then set_UDPTimeout x' (ro_UDPTimeout o) else x')) as H3.
  { intros x x' Hx. destruct (0 <? ro_UDPTimeout o); [|done]. by rewrite Hx. }
  apply H3, H2. destruct (Socks_IsValid _); [|done]. rewrite Hb. by rewrite H.
Qed.

Lemma apply_options_dial m o :
  keeps_address o = true -> dial_eq (applyRouteOptionsOverride m o) (apply_route_options m o).
Proof.
  intros Hk%negb_true_iff. unfold apply_route_options. rewrite Hk. cbv zeta.
  set (m1 := if (_ || _) && _ then set_RouteOriginalDestination m _ else m).
  assert (dial_eq m m1) as H.
  { subst m1. by destruct (_ && _). }
  clearbody m1. etransitivity; [by apply override_dial|].
  unfold applyRouteOptionsOverride. rewrite Hk. cbv zeta. repeat split; try done. cbn. by destruct (0 <? ro_UDPTimeout o).
Qed.

Lemma flow_dial m m' pd tag : dial_eq m m' -> preMatchFlow re m pd tag = preMatchFlow re m' pd tag.
Proof.
  intros (H1 & _ & H3 & H4 & _ & H6). unfold preMatchFlow, flow_timeout, new_destination.
  assert (c_FakeIP (ic_match m) = c_FakeIP (ic_match m') /\ DestinationAddresses m = DestinationAddresses m') as [-> ->].
  { split; [apply (f_equal c_FakeIP) in H4|apply (f_equal c_DestinationAddresses) in H4]; exact H4. }
  by rewrite H1, H3, H6.
Qed.

Lemma resolve_dial m m' server q :
  lookups_ignore_dial -> dial_eq m m' ->
  match actionResolve re m server q, actionResolve re m' server q with
  | Ok x, Ok x' => dial_eq x x'
  | Err e, Err e' => e = e'
  | Panic p, Panic p' => p = p'
  | _, _ => False
  end.
Proof.
  intros Hl H. unfold actionResolve. pose proof H as (Hb & _). rewrite Hb.
  destruct (Socks_IsDomain _); [|done]. destruct (_ && _); [done|].
  rewrite (Hl m m' _ _ H). destruct (re_Lookup re m' _ _); simpl; [|done|done]. by rewrite H.
Qed.

Lemma prematch_agrees (Hk : SniffersWriteSniffer re) now pd pkt input rules : forall n m m',
  preferences_ignore_flag env -> lookups_ignore_dial -> Forall (fun rule => shared_action (Rule_action rule) = true) rules ->
  full m -> dial_eq m m' ->
  prematch_rules env re now pd pkt rules m =
  match match_rules env re n rules m' input with
  | Ok (selected, m1, _) => verdict now pd selected m1
  | Err _ => Ok (result_of PreMatchReject None)
  | Panic p => Panic p
  end.
Proof.
  intros n m m' Hp Hl Hs. revert n m m'. induction Hs as [|rule rules Hs _ IH]; intros n m m' Hm Hd.
  { by apply flow_dial. }
  cbn [prematch_rules match_rules].
  assert (Hd' : dial_eq (ResetRuleCache m) (ResetRuleCache m')) by by rewrite Hd.
  rewrite engine_refines by by apply full_ResetCache.
  rewrite engine_refines.
  2: { apply full_ResetCache. eapply full_rule; [|exact Hm]. by destruct Hd as (_ & _ & _ & _ & -> & _). }
  rewrite (Spec_dial rule _ _ Hp Hd'). apply full_ResetCache in Hm.
  revert Hm Hd'. generalize (ResetRuleCache m), (ResetRuleCache m'). clear m m' Hd. intros m m' Hm Hd.
  destruct (Spec env rule m'); cbn [negb]; [|by apply IH].
  destruct (Rule_action rule) as [a|] eqn:Ha; [|done].
  destruct a as [tag o|o|tag o|? ?|r| |r|server timeout strategy dc doc ttl subnet| | | | |]; try done;
    cbn [perform route_options mbind res_bind].
  - change (final_action (ActionRoute tag o)) with true. cbn [verdict]. rewrite Ha. apply flow_dial.
    rewrite (override_dial _ _ o Hd). by apply apply_options_dial.
  - change (final_action (ActionRouteOptions o)) with false. apply IH.
    + eapply full_rule; [|exact Hm]. unfold applyRouteOptionsOverride. cbv zeta. by repeat destruct (_ <? _); destruct (Socks_IsValid _).
    + rewrite (override_dial _ _ o Hd). by apply apply_options_dial.
  - cbn [shared_action] in Hs. destruct (bool_decide (tag = "")) eqn:Et; [done|]. cbn [negb andb] in Hs |- *.
    cbn [mbind res_bind verdict]. cbn [final_action]. rewrite Et. cbn [negb verdict]. rewrite Ha. apply flow_dial.
    rewrite (override_dial _ _ o Hd). by apply apply_options_dial.
  - change (final_action (ActionReject r)) with true. cbn [verdict]. by rewrite Ha.
  - change (final_action ActionHijackDNS) with true. cbn [verdict]. rewrite Ha. by destruct Hd as (-> & _).
  - change (final_action (ActionResolve server timeout strategy dc doc ttl subnet)) with false.
    pose proof (resolve_dial m m' server (mkQueryOptions server timeout strategy dc doc ttl subnet) Hl Hd) as Hr.
    destruct (actionResolve re m _ _) as [x|e|p] eqn:Ex, (actionResolve re m' _ _) as [x'|e'|p']; try done; cbn.
    + apply IH; [|done]. eapply full_rule; [by eapply resolve_keeps|done].
    + by rewrite Hr.
Qed.

(** Completing the metadata does not depend on the flag. *)
Lemma prepare_flag m : prepareMatchMetadata env re (set_PreMatch m) = set_PreMatch <$> prepareMatchMetadata env re m.
Proof.
  unfold prepareMatchMetadata.
  assert (Hs : search_neighbor re (searchProcessInfo env re (set_PreMatch m)) =
               set_PreMatch (search_neighbor re (searchProcessInfo env re m))).
  { assert (searchProcessInfo env re (set_PreMatch m) = set_PreMatch (searchProcessInfo env re m)) as ->.
    { unfold searchProcessInfo. cbn. destruct (re_processSearcher re) as [find|]; [|done].
      destruct (_ || _); [done|]. by destruct (find _ _ _). }
    generalize (searchProcessInfo env re m). intros m1. unfold search_neighbor. cbn.
    destruct (re_neighborResolver re) as [[mac hostname]|]; [|done]. by destruct (_ && _). }
  rewrite Hs. generalize (search_neighbor re (searchProcessInfo env re m)). intros m1.
  assert (restore_domain re (set_PreMatch m1) = set_PreMatch <$> restore_domain re m1) as ->.
  { unfold restore_domain. cbn. destruct (re_fakeIP re) as [[contains lookup]|].
    - destruct (_ && _); [|by repeat go_case]. destruct (lookup _) as [d|]; [|done]. by destruct (bool_decide _).
    - by repeat go_case. }
  destruct (restore_domain re m1) as [m2|e|p]; cbn; [|done..].
  change (Destination (set_PreMatch m2)) with (Destination m2).
  by destruct (Socks_IsIPv4 (Destination m2)), (Socks_IsIPv6 (Destination m2)).
Qed.

(** C15: pre-matching decides a flow by the rules as routing decides a connection:
    for rules whose actions both perform alike ([shared_action]: no sniff, no
    override of the address, no bypass without an outbound), the verdict of
    [PreMatch] is the one for the rule that [matchRule] selects for the same
    metadata, and a connection that a resolve action would fail is rejected.
    Destination CIDRs are matched and nothing is deferred, the metadata can be
    completed, lookups do not depend on the dial options or the flag of
    pre-matching, and neither do the routes that outbounds prefer (those of a
    bridge outbound do). *)
Theorem prematch_agrees_with_routing (Hk : SniffersWriteSniffer re) rules now m m0 pkt input :
  preferences_ignore_flag env -> lookups_ignore_dial ->
  Forall (fun rule => shared_action (Rule_action rule) = true) rules -> full m ->
  prepareMatchMetadata env re m = Ok m0 ->
  Router_PreMatch env re rules now m pkt =
  match matchRule env re rules m input with
  | Ok (selected, m1, _) => verdict now (Destination m) selected m1
  | Err _ => Ok (result_of PreMatchReject None)
  | Panic p => Panic p
  end.
Proof.
  intros Hp Hl Hs Hm Hm0. unfold Router_PreMatch, matchRule. cbv zeta. rewrite prepare_flag, Hm0. cbn [mbind res_bind fmap res_fmap].
  apply (prematch_agrees Hk); [done|done|done| |].
  - eapply full_rule; [|exact Hm]. by apply prepare_keeps in Hm0 as <-.
  - by repeat split.
Qed.

(** ** Forwarded flows *)

(** [Socksaddr.AddrPort] keeps the address. *)
Definition AddrPort_keeps : Prop := forall d, fst (Socks_AddrPort d) = Socks_Addr d.

(** The outbound accepts the flow, for the address it is forwarded to. *)
Definition accepted (network : string) (packetDestination : Socksaddr) (r : PreMatchResult) : Prop :=
  pm_Action r = PreMatchFlow ->
  exists o flow, pm_Outbound r = Some o /\ re_Flow re o = Some flow /\ network ∈ re_Network re o /\
    flow network (match pm_Destination r with Some (a, _) => a | None => Socks_Addr packetDestination end)
    = PreMatchFlow.

Lemma flow_accepted m pd tag r :
  AddrPort_keeps -> preMatchFlow re m pd tag = Ok r -> accepted (Network m) pd r.
Proof.
  intros Hap. unfold preMatchFlow. intros (o & _ & H)%bind_ok.
  destruct (o ≫= follow_groups re 8) as [o'|]; [|by injection H as <-].
  case_bool_decide as Hn; cbn [negb] in H; [|by injection H as <-].
  destruct (re_Flow re o') as [flow|] eqn:Hf; [|by injection H as <-].
  destruct (Z.eqb_spec (flow (Network m) (Socks_Addr (Destination m))) PreMatchFlow) as [Hfl|Hfl]; cbn [negb] in H.
  2: { injection H as <-. intros ?. done. }
  destruct (Socks_IsDomain (Destination m)).
  - destruct (negb (c_FakeIP _)); [by injection H as <-|]. destruct (negb (Addr_IsValid _)); [by injection H as <-|].
    destruct (Z.eqb_spec (flow (Network m) (new_destination m pd)) PreMatchFlow) as [Hg|Hg]; cbn [negb] in H.
    + injection H as <-. intros _. exists o', flow. done.
    + injection H as <-. intros ?. done.
  - case_bool_decide as Hd; cbn [negb] in H; injection H as <-; intros _; exists o', flow; cbn.
    + by rewrite <-Hd.
    + rewrite (surjective_pairing (Socks_AddrPort (Destination m))), Hap. done.
Qed.

Lemma continue_accepted network pd r : Ok continueResult = Ok r -> accepted network pd r.
Proof. by intros [= <-]. Qed.

Lemma sniff_network (Hk : SniffersWriteSniffer re) action m pkt m' :
  prematch_sniff re action m pkt = Some m' -> Network m' = Network m /\ ic_rule m' = ic_rule m.
Proof.
  unfold prematch_sniff.
  destruct (bool_decide (Network m = "icmp")); [by intros [= <-]|].
  destruct (_ || _); [done|]. destruct (_ || _); [by intros [= <-]|].
  destruct (_ && _); [by intros [= <-]|]. destruct (_ && _); [by intros [= <-]|].
  unfold PeekPacket. set (l := if bool_decide (_ = []) then _ else _). clearbody l.
  destruct (try_writes _ l pkt (packet_writes _ Hk) m) as [sn Hsn].
  destruct (try_sniffers _ _ _ _) as [[found m1] errs]. simpl in Hsn. subst m1.
  set (err := if found then None else join_errors errs). clearbody err. destruct err as [e|].
  - destruct (is_need_more e); [done|]. by intros [= <-].
  - intros [= <-]. unfold override_destination. by destruct (_ && _).
Qed.

Lemma override_network m o :
  Network (applyRouteOptionsOverride m o) = Network m /\ ic_rule (applyRouteOptionsOverride m o) = ic_rule m.
Proof.
  unfold applyRouteOptionsOverride. cbv zeta.
  destruct (Socks_IsValid _), (0 <? ro_OverridePort o), (0 <? ro_UDPTimeout o); done.
Qed.

Lemma resolve_network m server q m' : actionResolve re m server q = Ok m' -> Network m' = Network m.
Proof.
  unfold actionResolve. destruct (Socks_IsDomain _); [|by intros [= <-]].
  destruct (_ && _); [done|]. by intros (l & _ & [= <-])%bind_ok.
Qed.

Lemma prematch_accepted (Hk : SniffersWriteSniffer re) now pd pkt rules : forall m r,
  AddrPort_keeps -> full m -> prematch_rules env re now pd pkt rules m = Ok r -> accepted (Network m) pd r.
Proof.
  intros m r Hap. revert m. induction rules as [|rule rules IH]; intros m Hm; cbn [prematch_rules].
  { by apply flow_accepted. }
  apply full_ResetCache in Hm. change (Network m) with (Network (ResetRuleCache m)). revert Hm.
  generalize (ResetRuleCache m). clear m. intros m Hm.
  assert (Hgo : forall m', Network m' = Network m /\ ic_rule m' = ic_rule m ->
            prematch_rules env re now pd pkt rules m' = Ok r -> accepted (Network m) pd r).
  { intros m' [<- Hr]. apply IH. by eapply full_rule. }
  rewrite engine_refines by done. destruct (Spec env rule m); cbn [negb]; [|by apply Hgo].
  assert (Hflow : forall o tag, preMatchFlow re (applyRouteOptionsOverride m o) pd tag = Ok r -> accepted (Network m) pd r).
  { intros o tag H%flow_accepted; [|done]. by rewrite (proj1 (override_network m o)) in H. }
  destruct (Rule_action rule) as [[tag o|o|tag o|? ?|rj| |act|? ? ? ? ? ? ?| | | | |]|];
    try apply continue_accepted.
  - apply Hflow.
  - by apply Hgo, override_network.
  - case_bool_decide; [|apply Hflow]. destruct (_ || _); [apply continue_accepted|by intros [= <-]].
  - intros (e & _ & [= <-])%bind_ok. by destruct e as [[]|].
  - case_bool_decide; [by intros [= <-]|apply continue_accepted].
  - destruct (prematch_sniff re act m pkt) as [m'|] eqn:E; [|apply continue_accepted].
    apply Hgo. by apply (sniff_network Hk) in E.
  - destruct (actionResolve re m _ _) as [m'| |] eqn:E; [|by intros [= <-]|done].
    apply Hgo. split; [by eapply resolve_network|by eapply resolve_keeps].
Qed.

(** A flow is only forwarded past the router to an outbound that carries its
    network and that agreed to forward flows to the address they are sent to:
    the resolved or overridden address when there is one, else the address in
    the packet. *)
Theorem forwarded_flow_accepted (Hk : SniffersWriteSniffer re) rules now m pkt r :
  AddrPort_keeps -> full m -> Router_PreMatch env re rules now m pkt = Ok r ->
  accepted (Network m) (Destination m) r.
Proof.
  intros Hap Hm. unfold Router_PreMatch. cbv zeta.
  destruct (prepareMatchMetadata env re (set_PreMatch m)) as [m0| |] eqn:E; [|by intros [= <-]|done].
  intros H%prematch_accepted; [|done|done|eapply full_rule; [by eapply prepare_keeps|done]].
  replace (Network m) with (Network m0); [done|]. revert E. unfold prepareMatchMetadata.
  intros (m1 & H1 & [= <-])%bind_ok. transitivity (Network m1); [by repeat destruct (_ : bool)|].
  change (Network m) with (Network (set_PreMatch m)). revert H1. generalize (set_PreMatch m). clear. intros m.
  intros H1. transitivity (Network (search_neighbor re (searchProcessInfo env re m))).
  - revert H1. generalize (search_neighbor re (searchProcessInfo env re m)). intros m0.
    unfold restore_domain. cbv zeta. repeat go_case; by intros [= <-].
  - unfold search_neighbor, searchProcessInfo. by repeat go_case.
Qed.

End Flow.
