(* ===== verification/RouterExamples.v ===== *)
(** * Concrete connections

    A router with a few outbounds and sniffers: witnesses of the theorems, and
    what happens to the data of a connection with several sniff rules. *)

From stdpp Require Import base numbers list strings gmap option.
From Stdlib Require Import ZArith Lia.
From S2P Require Import Prelude NetAddr Metadata Demo RuleItems RuleAction RuleCore RuleSpec RuleBuild RuleDispatch ManagerCore.
From S2P Require Import RuleBuildExamples Router RouterInit RouterPreMatch RouterProps RouterFlow.

Local Open Scope Z_scope.

Module RouterExamples.

#[local] Existing Instance list_helpers.
#[local] Existing Instance Demo.std.
#[local] Existing Instance Demo.third.
#[local] Existing Instance RuleBuildExamples.dialers.

#[local] Instance socks : SocksLib := {|
  Socks_IsValid a := Addr_IsValid (Socks_Addr a) || negb (bool_decide (Socks_Fqdn a = ""));
  Socks_IsDomain a := negb (bool_decide (Socks_Fqdn a = ""));
  Socks_IsIPv4 a := Addr_Is4 (Socks_Addr a);
  IsDomainName s := negb (bool_decide (s = ""));
  Addr_IsLoopback a := bool_decide (a = Addr4 0x7f000001);
  Socks_AddrPort a := (Socks_Addr a, Socks_Port a);
  PutPacketBuffer b := mkPacket (pb_id b) [] Socksaddr_zero;
  mux_Destination := "sp.mux.sing-box.arpa";
  vmess_MuxDestination := "v1.mux.cool";
  uot_MagicAddress := "sp.v2.udp-over-tcp.arpa";
  uot_LegacyMagicAddress := "sp.udp-over-tcp.arpa"
|}.

Definition outbound (id : nat) (tag : string) : Member :=
  mkMember id tag "direct" [] true false false false true.
Definition direct := outbound 1 "direct".
Definition proxy := outbound 2 "proxy".

Definition set_protocol (m : InboundContext) (p : string) : InboundContext :=
  set_sniffer m (mkSniffer p (Domain m) (Client m) (c_SnifferNames (ic_sniffer m)) (c_SniffError (ic_sniffer m))).

(** TLS starts with byte 22, HTTP with 71; a QUIC hello needs two packets. *)
Definition demo_stream (s : StreamSniffer) (m : InboundContext) (buffers : list (list Z)) : option error * InboundContext :=
  match s, concat buffers with
  | TLSClientHello, 22 :: _ => (None, set_protocol m "tls")
  | HTTPHost, 71 :: 69 :: _ => (None, set_protocol m "http")
  | HTTPHost, [71] => (Some ErrNeedMoreData, m)
  | _, _ => (Some ErrInvalid, m)
  end.
Definition demo_packet (s : PacketSniffer) (m : InboundContext) (p : list Z) : option error * InboundContext :=
  match s, p with
  | QUICClientHello, 192 :: _ => (Some ErrNeedMoreData, m)
  | STUNMessage, 0 :: 1 :: _ => (None, set_protocol m "stun")
  | _, _ => (Some ErrInvalid, m)
  end.

(** [resolve domain] is what the DNS router answers. *)
Definition router (resolve : string -> list Addr) (fake : option ((Addr -> bool) * (Addr -> option string)))
  : RouterEnv :=
  mkRouterEnv None [] None fake (fun _ => None) (fun _ => true) (fun _ domain _ => Ok (resolve domain))
    demo_stream demo_packet (fun _ => None)
    (fun tag => if bool_decide (tag = "proxy") then Some proxy else if bool_decide (tag = "direct") then Some direct else None)
    (Some direct) (fun _ => ["tcp"; "udp"]) (fun _ => None) (fun _ => Some (fun _ _ => PreMatchFlow)) [] [].
Definition plain_router : RouterEnv := router (fun _ => []) None.

Lemma sniffers_write resolve fake : SniffersWriteSniffer (router resolve fake).
Proof.
  split; intros s m p.
  - change (re_streamSniff _) with demo_stream. exists (ic_sniffer (snd (demo_stream s m p))).
    unfold demo_stream. by destruct m; repeat go_case.
  - change (re_packetSniff _) with demo_packet. exists (ic_sniffer (snd (demo_packet s m p))).
    unfold demo_packet. by destruct m; repeat go_case.
Qed.

(** Rules that match everything. *)
Definition always (a : RuleAction) : Rule RuleAction := R_Default (empty_rule false (Some a)).
Definition no_options : RuleActionRouteOptions :=
  mkRouteOptions Socksaddr_zero 0 None None None 0 false false 0 false 0 false "" 0.
Definition to_proxy : Rule RuleAction := always (ActionRoute "proxy" no_options).
Definition sniff (names : list string) (ss : list StreamSniffer) (ps : list PacketSniffer) : Rule RuleAction :=
  always (ActionSniff (mkSniff names ss ps 0 false)).

Definition web : InboundContext := Demo.metadata (mkSocksaddr (Addr4 0x0a000001) 80 "").
Definition request : list StreamRead := [SRead [71]; SRead [69; 84]; SRead [32; 47]].

(** A sniff rule, then a route. *)
Definition rules : list (Rule RuleAction) := [sniff ["http"] [HTTPHost] []; to_proxy].
Definition found : option (nat * Rule RuleAction) * InboundContext * Input :=
  match matchRule Demo.env plain_router rules web (InConn [] request) with
  | Ok r => r
  | _ => (None, web, InConn [] [])
  end.


Definition routed : Routed Conn :=
  match routeConnection Demo.env plain_router rules 0 request web with Ok r => r | _ => Failed ErrInvalid end.
Definition routed_conn : Conn := default (mkConn [] []) (conn_of routed).

Lemma stream_preserved_witness :
  cn_cached routed_conn = [[71; 69; 84]] /\ conn_data routed_conn = [71; 69; 84; 32; 47].
Proof.
  split; [vm_compute; reflexivity|].
  apply (stream_preserved Demo.env plain_router rules 0 request web routed routed_conn).
  - intros track c m Ht. by apply elem_of_nil in Ht.
  - vm_compute. lia.
  - vm_compute. reflexivity.
  - vm_compute. reflexivity.
Defined.

Definition reported : InboundContext := match routed with ToOutbound _ _ m => m | _ => web end.
Lemma routed_outbound_named_witness :
  "tcp" ∈ re_Network plain_router proxy /\ c_RouteOutbound (ic_power reported) = "proxy".
Proof.
  destruct (routed_outbound_named Demo.env plain_router rules 0 request [] web proxy reported) as [H _].
  destruct (H routed_conn) as (H1 & H2 & _); [vm_compute; reflexivity|]. split; [exact H1|exact H2].
Defined.

(** Rules from options. *)
Definition action_options (action outbound : string) : RuleActionOptions :=
  mkRuleActionOptions action outbound RawRouteOptions_zero RawRouteOptions_zero tt "" RawRouteOptions_zero
    (mkRejectOptions "default" false) None 0 (mkResolveOptions "" 0 0 false false None None).
Definition options : list RouteRule :=
  [RouteDefault (mkRouteRuleOptions (RuleBuildExamples.common_options None (Some ["ads.example"]) None None) None)
     (action_options "reject" "");
   RouteDefault (mkRouteRuleOptions (RuleBuildExamples.common_options (Some ["tun-in"]) None None None) None)
     (action_options "route" "proxy")].
Definition built_rules : list (Rule RuleAction) :=
  match Initialize_rules false options with Ok rules => rules | _ => [] end.

Lemma routing_returns_witness :
  length built_rules = 2%nat /\
  exists r, routeConnection Demo.env plain_router built_rules 0 request web = Ok r.
Proof.
  split; [vm_compute; reflexivity|].
  apply (routing_returns Demo.env plain_router false options built_rules 0 request [] web).
  - repeat constructor; try done; by exists (mkRejectOptions "default" false).
  - reflexivity.
  - by eexists.
  - by intros m d q p.
Defined.

Lemma lookups_off_unneeded_witness :
  NoDup ["geoip"; "geosite"] /\
  forall rule it m, rule ∈ built_rules -> it ∈ rule_items rule ->
    RuleItem_Match Demo.env it (set_ProcessInfo m None) = RuleItem_Match Demo.env it m.
Proof.
  destruct (lookups_off_unneeded (fun tag (_ : unit) => Ok tag) false options [(["geoip"; "geosite"], tt)]
              built_rules ["geoip"; "geosite"] (<["geosite" := "geosite"]> (<["geoip" := "geoip"]> ∅)))
    as (H1 & _ & _ & H2); [reflexivity|].
  split; [exact H1|]. intros rule it m Hr Hi.
  apply (proj1 (H2 rule it Demo.env m Hr Hi) [] false None). vm_compute. reflexivity.
Defined.

(** With two sniff rules the data of a stream is reordered: each sniff action
    adds a buffer of its own, and the buffers are put in front of the
    connection first to last, so that the last one is read first.  The outbound
    then reads "T GE" instead of "GET ". *)
Theorem two_sniffs_reorder_stream :
  exists c m, routeConnection Demo.env plain_router
      [sniff ["tls"] [TLSClientHello] []; sniff ["http"] [HTTPHost] []; to_proxy] 0
      [SRead [71; 69]; SRead [84; 32]] web = Ok (ToOutbound proxy c m) /\
    conn_data c = [84; 32; 71; 69].
Proof. eexists _, _. split; vm_compute; reflexivity. Qed.

(** A QUIC packet that needs another one, which does not come. *)
Definition hello : list PacketRead := [PRead [192; 1] (mkSocksaddr (Addr4 0x0a000001) 443 "")].

(** A second sniff action reads the packets of the first again and returns
    them with its own, to be added once more. *)
Theorem two_sniffs_repeat_packets :
  match matchRule Demo.env plain_router
      [sniff ["quic"] [] [QUICClientHello]; sniff ["quic"; "stun"] [] [QUICClientHello; STUNMessage]; to_proxy]
      web (InPacketConn [] hello) with
  | Ok (_, _, InPacketConn packets _) =>
      map pb_Buffer packets = [[192; 1]; [192; 1]] /\ map pb_id packets = [0%nat; 0%nat]
  | _ => False
  end.
Proof. vm_compute. split; reflexivity. Qed.

(** ** Flows *)

Definition fake_address : Addr := Addr4 0xc6120001.
Definition fake_store : (Addr -> bool) * (Addr -> option string) :=
  (fun a => bool_decide (a = fake_address), fun _ => Some "a.example").
Definition flow_router : RouterEnv :=
  router (fun domain => if bool_decide (domain = "a.example") then [Addr4 0x01010101] else [Addr4 0x02020202])
    (Some fake_store).
Definition flow : InboundContext := Demo.metadata (mkSocksaddr fake_address 443 "").
Definition resolve : Rule RuleAction := always (ActionResolve "" 0 0 false false None Prefix_zero).

Lemma prematch_agrees_with_routing_witness :
  Router_PreMatch Demo.env flow_router [resolve; to_proxy] 0 flow [192] =
    Ok (mkPreMatch PreMatchFlow (Some proxy) (Some (Addr4 0x01010101, 443)) (30 * 10 ^ 9)).
Proof.
  rewrite (prematch_agrees_with_routing Demo.env flow_router (sniffers_write _ _) [resolve; to_proxy] 0 flow
             (match prepareMatchMetadata Demo.env flow_router flow with Ok m => m | _ => flow end)
             [192] (InConn [] [])).
  - vm_compute. reflexivity.
  - by split.
  - by intros m m' d q _.
  - repeat constructor.
  - done.
  - vm_compute. reflexivity.
Defined.

Lemma forwarded_flow_accepted_witness :
  accepted flow_router "udp" (mkSocksaddr fake_address 443 "")
    (mkPreMatch PreMatchFlow (Some proxy) (Some (Addr4 0x01010101, 443)) (30 * 10 ^ 9)).
Proof.
  apply (forwarded_flow_accepted Demo.env flow_router (sniffers_write _ _) [resolve; to_proxy] 0 flow [192]).
  - by intros d.
  - done.
  - vm_compute. reflexivity.
Defined.

(** When an address override follows a resolve action, pre-matching forwards
    the flow to the address that was resolved before the override: routing
    forgets the resolved addresses when the destination is overridden,
    pre-matching does not. *)
Theorem prematch_ignores_override :
  let override := mkRouteOptions (mkSocksaddr AddrNone 0 "b.example") 0 None None None 0 false false 0 false 0 false "" 0 in
  let rules := [resolve; always (ActionRouteOptions override); to_proxy] in
  match matchRule Demo.env flow_router rules flow (InConn [] []) with
  | Ok (_, m, _) => Socks_Fqdn (Destination m) = "b.example" /\ DestinationAddresses m = []
  | _ => False
  end /\
  Router_PreMatch Demo.env flow_router rules 0 flow [192] =
    Ok (mkPreMatch PreMatchFlow (Some proxy) (Some (Addr4 0x01010101, 443)) (30 * 10 ^ 9)).
Proof. split; vm_compute; [split|]; reflexivity. Qed.

End RouterExamples.
