(* ===== verification/RuleStart.v ===== *)
(** * Starting and closing rules

    [Start] and [Close] of rules and rule items ([rule_abstract.go],
    [rule_item_rule_set.go]) and the reference counts of rule-sets
    ([rule_set_local.go], [rule_set_remote.go]).

    A rule starts the items of [allItems] in order.  An item is one object that
    [allItems] and a group both point to, so the items of the groups are the
    started ones afterwards.  A rule that fails to start is only closed again,
    so of its items only the rule-sets it holds are kept. *)

From stdpp Require Import base numbers list strings gmap option.
From Stdlib Require Import ZArith Lia.
From S2P Require Import Prelude NetAddr Metadata RuleItems RuleAction RuleCore RuleBuild RuleDispatch.

Local Open Scope Z_scope.

(** ** Reference counts *)

(** The [refs] of the rule-sets, by tag *)
Abbreviation Refs := (gmap string Z).
Definition refs_of (refs : Refs) (tag : string) : Z := default 0 (refs !! tag).
Definition IncRef (tag : string) (refs : Refs) : Refs := <[tag := refs_of refs tag + 1]> refs.
Definition DecRef (tag : string) (refs : Refs) : Res unit * Refs :=
  let n := refs_of refs tag - 1 in
  (if n <? 0 then Panic "rule-set: negative refs" else Ok tt, <[tag := n]> refs).

(** [Cleanup] of the rule-sets of a router *)
Definition Cleanup {R} (refs : Refs) (s : RuleSet R) : RuleSet R :=
  if refs_of refs (rs_tag s) =? 0 then mkRuleSet (rs_tag s) [] (rs_metadata s) else s.

Section Start.
Context {SH : SliceHelpers} {GS : GoStd} {TP : ThirdParty} {Action : Type}.
(** The rule-sets of the router, the outbounds and the DNS servers: type and
    whether they support [preferred_by] *)
Context (ruleSet : string -> option (RuleSet (Rule Action))).
Context (outbound transport : string -> option (string * bool)).
Abbreviation item_t := (RuleSetItem (Rule Action)).

Definition set_setList (r : item_t) (l : list (RuleSet (Rule Action))) : item_t :=
  mkRuleSetItem (tagList r) l (ipCidrMatchSource r) (ipCidrAcceptEmpty r).

(** [(r *RuleSetItem) Close] *)
Fixpoint release (l : list (RuleSet (Rule Action))) (refs : Refs) : Res unit * Refs :=
  match l with
  | [] => (Ok tt, refs)
  | s :: rest => match DecRef (rs_tag s) refs with
                 | (Ok _, refs) => release rest refs
                 | (e, refs) => (e, refs)
                 end
  end.
Definition RuleSetItem_Close (r : item_t) (refs : Refs) : Res unit * item_t * Refs :=
  match release (setList r) refs with
  | (Ok _, refs) => (Ok tt, set_setList r [], refs)
  | (e, refs) => (e, r, refs)
  end.

(** [(r *RuleSetItem) Start] *)
Fixpoint acquire (tags : list string) (r : item_t) (refs : Refs) : Res unit * item_t * Refs :=
  match tags with
  | [] => (Ok tt, r, refs)
  | tag :: rest =>
      match ruleSet tag with
      | None =>
          let '(e, r, refs) := RuleSetItem_Close r refs in
          (match e with Panic p => Panic p | _ => Err (E_New [AStr "rule-set not found: "; AStr tag]) end, r, refs)
      | Some s => acquire rest (set_setList r (setList r ++ [s])) (IncRef (rs_tag s) refs)
      end
  end.
Definition RuleSetItem_Start (r : item_t) (refs : Refs) : Res unit * item_t * Refs :=
  let '(e, r, refs) := RuleSetItem_Close r refs in
  match e with
  | Panic p => (Panic p, r, refs)
  | _ => acquire (tagList r) r refs
  end.

(** The [Start] of the items that have one; the others start at once. *)
Definition item_Start (it : RuleItem) : Res RuleItem :=
  match it with
  | I_PreferredBy r => I_PreferredBy <$> PreferredByItem_Start outbound r
  | I_PreferredByDNS r => I_PreferredByDNS <$> PreferredByDNSItem_Start transport r
  | it => Ok it
  end.
Definition item_started (it : RuleItem) : RuleItem :=
  match item_Start it with Ok it' => it' | _ => it end.

(** [(r *abstractDefaultRule) Start] *)
Fixpoint start_items (l : list AnyItem) (set : option item_t) (refs : Refs) : Res unit * option item_t * Refs :=
  match l with
  | [] => (Ok tt, set, refs)
  | AItem it :: rest =>
      match item_Start it with
      | Ok _ => start_items rest set refs
      | Err e => (Err e, set, refs)
      | Panic p => (Panic p, set, refs)
      end
  | ARuleSet :: rest =>
      match set with
      | None => start_items rest set refs
      | Some item =>
          match RuleSetItem_Start item refs with
          | (Ok _, item, refs) => start_items rest (Some item) refs
          | (e, item, refs) => (e, Some item, refs)
          end
      end
  end.
Definition set_set {R} (r : abstractDefaultRule Action R) (set : option (RuleSetItem R)) : abstractDefaultRule Action R :=
  mkDefault (items r) (sourceAddressItems r) (sourcePortItems r) (destinationAddressItems r)
    (destinationIPCIDRItems r) (destinationPortItems r) (allItems r) set (invert r) (action r).
Definition any_started (i : AnyItem) : AnyItem :=
  match i with AItem it => AItem (item_started it) | ARuleSet => ARuleSet end.
Definition set_started {R} (r : abstractDefaultRule Action R) : abstractDefaultRule Action R :=
  mkDefault (map item_started (items r)) (map item_started (sourceAddressItems r))
    (map item_started (sourcePortItems r)) (map item_started (destinationAddressItems r))
    (map item_started (destinationIPCIDRItems r)) (map item_started (destinationPortItems r))
    (map any_started (allItems r)) (ruleSetItem r) (invert r) (action r).
Definition abstractDefaultRule_Start (r : abstractDefaultRule Action (Rule Action)) (refs : Refs)
  : Res unit * abstractDefaultRule Action (Rule Action) * Refs :=
  let '(e, set, refs) := start_items (allItems r) (ruleSetItem r) refs in
  (e, match e with Ok _ => set_started (set_set r set) | _ => set_set r set end, refs).

(** [(r *abstractDefaultRule) Close]; of the items only the rule-set is a closer. *)
Fixpoint close_items (l : list AnyItem) (set : option item_t) (refs : Refs) : Res unit * option item_t * Refs :=
  match l with
  | [] => (Ok tt, set, refs)
  | AItem _ :: rest => close_items rest set refs
  | ARuleSet :: rest =>
      match set with
      | None => close_items rest set refs
      | Some item =>
          match RuleSetItem_Close item refs with
          | (Ok _, item, refs) => close_items rest (Some item) refs
          | (e, item, refs) => (e, Some item, refs)
          end
      end
  end.
Definition abstractDefaultRule_Close (r : abstractDefaultRule Action (Rule Action)) (refs : Refs)
  : Res unit * abstractDefaultRule Action (Rule Action) * Refs :=
  let '(e, set, refs) := close_items (allItems r) (ruleSetItem r) refs in (e, set_set r set, refs).

(** A loop over rules that ends at the first error; the rules after it stay. *)
Fixpoint each_rule (f : Rule Action -> Refs -> Res unit * Rule Action * Refs) (l : list (Rule Action)) (refs : Refs)
  : Res unit * list (Rule Action) * Refs :=
  match l with
  | [] => (Ok tt, [], refs)
  | rule :: rest =>
      match f rule refs with
      | (Ok _, rule, refs) => let '(e, rest, refs) := each_rule f rest refs in (e, rule :: rest, refs)
      | (e, rule, refs) => (e, rule :: rest, refs)
      end
  end.

Definition map_default {R} (f : abstractDefaultRule Action R -> R) (x : Res unit * abstractDefaultRule Action R * Refs)
  : Res unit * R * Refs := let '(e, r, refs) := x in (e, f r, refs).
Definition set_rules (r : abstractLogicalRule Action (Rule Action)) (l : list (Rule Action))
  : abstractLogicalRule Action (Rule Action) := mkLogical l (l_mode r) (l_invert r) (l_action r).
Definition map_logical (f : abstractLogicalRule Action (Rule Action) -> Rule Action)
    (r : abstractLogicalRule Action (Rule Action)) (x : Res unit * list (Rule Action) * Refs)
  : Res unit * Rule Action * Refs := let '(e, l, refs) := x in (e, f (set_rules r l), refs).

(** The rule types share [Start] and [Close] of the abstract rules, each
    applied to the part that it embeds. *)
Fixpoint Rule_Start (rule : Rule Action) (refs : Refs) {struct rule} : Res unit * Rule Action * Refs :=
  match rule with
  | R_Default r => map_default R_Default (abstractDefaultRule_Start r refs)
  | R_DefaultHeadless r => map_default R_DefaultHeadless (abstractDefaultRule_Start r refs)
  | R_DefaultDNS r mr tag race => map_default (fun r => R_DefaultDNS r mr tag race) (abstractDefaultRule_Start r refs)
  | R_Logical r => map_logical R_Logical r (each_rule Rule_Start (l_rules r) refs)
  | R_LogicalHeadless r => map_logical R_LogicalHeadless r (each_rule Rule_Start (l_rules r) refs)
  | R_LogicalDNS r tags anonymous race =>
      map_logical (fun r => R_LogicalDNS r tags anonymous race) r (each_rule Rule_Start (l_rules r) refs)
  end.
Fixpoint Rule_Close (rule : Rule Action) (refs : Refs) {struct rule} : Res unit * Rule Action * Refs :=
  match rule with
  | R_Default r => map_default R_Default (abstractDefaultRule_Close r refs)
  | R_DefaultHeadless r => map_default R_DefaultHeadless (abstractDefaultRule_Close r refs)
  | R_DefaultDNS r mr tag race => map_default (fun r => R_DefaultDNS r mr tag race) (abstractDefaultRule_Close r refs)
  | R_Logical r => map_logical R_Logical r (each_rule Rule_Close (l_rules r) refs)
  | R_LogicalHeadless r => map_logical R_LogicalHeadless r (each_rule Rule_Close (l_rules r) refs)
  | R_LogicalDNS r tags anonymous race =>
      map_logical (fun r => R_LogicalDNS r tags anonymous race) r (each_rule Rule_Close (l_rules r) refs)
  end.

(** ** Accounting *)

(** The rule-sets that a rule holds. *)
Definition set_held (set : option item_t) : list string :=
  match set with None => [] | Some item => map rs_tag (setList item) end.
Fixpoint held (rule : Rule Action) : list string :=
  match rule with
  | R_Default r | R_DefaultHeadless r | R_DefaultDNS r _ _ _ => set_held (ruleSetItem r)
  | R_Logical r | R_LogicalHeadless r | R_LogicalDNS r _ _ _ => flat_map held (l_rules r)
  end.

Definition count (t : string) (l : list string) : Z := Z.of_nat (count_occ (fun x y => decide (x = y)) l t).
Lemma count_app t l l' : count t (l ++ l') = count t l + count t l'.
Proof. unfold count. rewrite count_occ_app. lia. Qed.
Lemma count_nonneg t l : 0 <= count t l.
Proof. unfold count. lia. Qed.
Lemma count_nil t : count t [] = 0.
Proof. done. Qed.
Lemma count_cons t s l : count t (s :: l) = (if decide (s = t) then 1 else 0) + count t l.
Proof. unfold count. cbn [count_occ]. destruct (decide (s = t)); lia. Qed.
Lemma refs_insert refs tag n t : refs_of (<[tag := n]> refs) t = if decide (tag = t) then n else refs_of refs t.
Proof.
  unfold refs_of. destruct (decide (tag = t)) as [->|Hne]; [by rewrite lookup_insert_eq|by rewrite lookup_insert_ne].
Qed.

(** An operation keeps the account of what [x] holds: counts change by what is
    acquired and released, and it does not panic. *)
Definition covers (refs : Refs) (l : list string) : Prop := forall t, count t l <= refs_of refs t.
Definition keeps {X} (h : X -> list string) (x : X) (refs : Refs) (out : Res unit * X * Refs) : Prop :=
  (forall p, out.1.1 <> Panic p) /\
  forall t, refs_of out.2 t - count t (h out.1.2) = refs_of refs t - count t (h x).

Lemma keeps_covers {X} (h : X -> list string) x refs e x' refs' l :
  keeps h x refs (e, x', refs') -> covers refs (h x ++ l) -> covers refs' (h x' ++ l).
Proof.
  intros [_ Hk] Hc t. specialize (Hk t). specialize (Hc t). cbn in Hk. rewrite count_app in *. lia.
Qed.

Lemma keeps_trans {X} (h : X -> list string) x refs e x1 refs1 out :
  keeps h x refs (e, x1, refs1) -> keeps h x1 refs1 out -> keeps h x refs out.
Proof.
  intros [_ H1] [Hp H2]. split; [done|]. intros t. rewrite H2. apply H1.
Qed.

Lemma covers_app refs l l' : covers refs (l ++ l') -> covers refs l /\ covers refs l'.
Proof.
  intros H. split; intros t; specialize (H t); rewrite count_app in H;
    [pose proof (count_nonneg t l')|pose proof (count_nonneg t l)]; lia.
Qed.

Lemma release_ok l : forall refs,
  covers refs (map rs_tag l) ->
  exists refs', release l refs = (Ok tt, refs') /\
    forall t, refs_of refs' t = refs_of refs t - count t (map rs_tag l).
Proof.
  induction l as [|s l IH]; intros refs Hc; cbn [release map]; [exists refs; split; [done|]; intros t; rewrite count_nil; lia|].
  unfold DecRef. cbv zeta. pose proof (Hc (rs_tag s)) as H. cbn [map] in H. rewrite count_cons in H.
  destruct (decide (rs_tag s = rs_tag s)); [|done]. pose proof (count_nonneg (rs_tag s) (map rs_tag l)).
  replace (refs_of refs (rs_tag s) - 1 <? 0) with false by (symmetry; apply Z.ltb_ge; lia).
  destruct (IH (<[rs_tag s := refs_of refs (rs_tag s) - 1]> refs)) as (refs' & -> & Hr).
  { intros t. rewrite refs_insert. specialize (Hc t). cbn [map] in Hc. rewrite count_cons in Hc.
    destruct (decide (rs_tag s = t)) as [<-|?]; lia. }
  exists refs'. split; [done|]. intros t. rewrite Hr, refs_insert, count_cons.
  destruct (decide (rs_tag s = t)) as [<-|?]; lia.
Qed.

Lemma item_close_ok (r : item_t) refs :
  covers refs (set_held (Some r)) ->
  exists refs', RuleSetItem_Close r refs = (Ok tt, set_setList r [], refs') /\
    keeps set_held (Some r) refs (Ok tt, Some (set_setList r []), refs').
Proof.
  intros Hc. destruct (release_ok (setList r) refs Hc) as (refs' & Hr & Ht). exists refs'.
  unfold RuleSetItem_Close. rewrite Hr. split; [done|]. split; [done|]. cbn. intros t. rewrite Ht, count_nil. lia.
Qed.

Lemma acquire_ok tags : forall (r : item_t) refs,
  covers refs (set_held (Some r)) ->
  let '(e, r', refs') := acquire tags r refs in keeps set_held (Some r) refs (e, Some r', refs').
Proof.
  induction tags as [|tag tags IH]; intros r refs Hc; cbn [acquire]; [done|].
  destruct (ruleSet tag) as [s|].
  - assert (Hk : keeps set_held (Some r) refs (Ok tt, Some (set_setList r (setList r ++ [s])), IncRef (rs_tag s) refs)).
    { split; [done|]. intros t. cbn. unfold IncRef. rewrite refs_insert, map_app, count_app. cbn [map].
      rewrite count_cons, count_nil. destruct (decide (rs_tag s = t)) as [<-|?]; lia. }
    specialize (IH (set_setList r (setList r ++ [s])) (IncRef (rs_tag s) refs)).
    destruct (acquire tags _ _) as [[e r'] refs']. eapply keeps_trans; [exact Hk|]. apply IH.
    pose proof (keeps_covers _ _ _ _ _ _ [] Hk) as Hx. rewrite !app_nil_r in Hx. by apply Hx.
  - destruct (item_close_ok r refs Hc) as (refs' & -> & [Hp Ht]). by split.
Qed.

Lemma item_start_ok (r : item_t) refs :
  covers refs (set_held (Some r)) ->
  let '(e, r', refs') := RuleSetItem_Start r refs in keeps set_held (Some r) refs (e, Some r', refs').
Proof.
  intros Hc. unfold RuleSetItem_Start. destruct (item_close_ok r refs Hc) as (refs1 & -> & Hk).
  pose proof (acquire_ok (tagList (set_setList r [])) (set_setList r []) refs1) as Ha.
  destruct (acquire _ _ _) as [[e r'] refs']. eapply keeps_trans; [exact Hk|]. apply Ha.
  pose proof (keeps_covers _ _ _ _ _ _ [] Hk) as Hx. rewrite !app_nil_r in Hx. by apply Hx.
Qed.

Lemma item_Start_no_panic it p : item_Start it <> Panic p.
Proof.
  assert (Ho : forall tags, start_outbounds outbound tags <> Panic p).
  { induction tags as [|tag tags IH]; cbn; [done|]. destruct (outbound tag) as [[? []]|]; try done.
    destruct (start_outbounds outbound tags); cbn; congruence. }
  assert (Ht : forall tags, start_transports transport tags <> Panic p).
  { induction tags as [|tag tags IH]; cbn; [done|]. destruct (transport tag) as [[? []]|]; try done.
    destruct (start_transports transport tags); cbn; congruence. }
  destruct it; try done; cbn.
  - unfold PreferredByItem_Start. specialize (Ho (pb_outboundTags r)). destruct (start_outbounds _ _); cbn; congruence.
  - unfold PreferredByDNSItem_Start. specialize (Ht (pd_transportTags r)). destruct (start_transports _ _); cbn; congruence.
Qed.

Lemma start_items_ok l : forall set refs, covers refs (set_held set) -> keeps set_held set refs (start_items l set refs).
Proof.
  induction l as [|[it|] l IH]; intros set refs Hc; cbn [start_items]; [done| |].
  - pose proof (item_Start_no_panic it) as Hp. destruct (item_Start it); [by apply IH|done|]. by destruct (Hp msg).
  - destruct set as [item|]; [|by apply IH]. pose proof (item_start_ok item refs Hc) as Hk.
    destruct (RuleSetItem_Start item refs) as [[[]  item'] refs']; try done.
    eapply keeps_trans; [exact Hk|]. apply IH.
    pose proof (keeps_covers _ _ _ _ _ _ [] Hk) as Hx. rewrite !app_nil_r in Hx. by apply Hx.
Qed.

Lemma close_items_ok l : forall set refs,
  covers refs (set_held set) ->
  keeps set_held set refs (close_items l set refs) /\ (close_items l set refs).1.1 = Ok tt /\
  (ARuleSet ∈ l -> set_held (close_items l set refs).1.2 = []) /\
  (set_held set = [] -> set_held (close_items l set refs).1.2 = []).
Proof.
  induction l as [|[it|] l IH]; intros set refs Hc; cbn [close_items].
  - split; [done|]. split; [done|]. split; [set_solver|done].
  - destruct (IH set refs Hc) as (H1 & H2 & H3 & H4). split; [done|]. split; [done|]. split; [set_solver|done].
  - destruct set as [item|].
    + destruct (item_close_ok item refs Hc) as (refs' & -> & Hk).
      destruct (IH (Some (set_setList item [])) refs') as (H1 & H2 & H3 & H4).
      { pose proof (keeps_covers _ _ _ _ _ _ [] Hk) as Hx. rewrite !app_nil_r in Hx. by apply Hx. }
      split; [by eapply keeps_trans|]. split; [done|]. split; intros _; by apply H4.
    + destruct (IH None refs Hc) as (H1 & H2 & H3 & H4). split; [done|]. split; [done|]. by split; intros _; apply H4.
Qed.

(** Operations on a list of rules. *)
Lemma each_rule_ok f l : forall refs,
  Forall (fun r => forall refs, covers refs (held r) -> keeps held r refs (f r refs)) l ->
  covers refs (flat_map held l) -> keeps (flat_map held) l refs (each_rule f l refs).
Proof.
  induction l as [|rule l IH]; intros refs Hf Hc; cbn [each_rule]; [done|].
  apply Forall_cons_iff in Hf as [Hr Hf]. cbn [flat_map] in Hc. destruct (covers_app _ _ _ Hc) as [Hc1 _].
  pose proof (Hr refs Hc1) as Hk. destruct (f rule refs) as [[e rule'] refs1].
  pose proof (keeps_covers _ _ _ _ _ _ _ Hk Hc) as [_ Hc2]%covers_app. destruct Hk as [Hp Hk]. cbn in Hp, Hk.
  destruct e as [[]|err|p]; [| |by destruct (Hp p)].
  - destruct (IH refs1 Hf Hc2) as [Hp' Hk']. destruct (each_rule f l refs1) as [[e' l'] refs2]. cbn in Hp', Hk'.
    split; [done|]. cbn. intros t. specialize (Hk t). specialize (Hk' t). rewrite !count_app. lia.
  - split; [done|]. cbn. intros t. specialize (Hk t). rewrite !count_app. lia.
Qed.

Lemma start_ok rule : forall refs, covers refs (held rule) -> keeps held rule refs (Rule_Start rule refs).
Proof.
  assert (Hd : forall (f : _ -> Rule Action) (r : abstractDefaultRule Action (Rule Action)) refs,
            (forall r, held (f r) = set_held (ruleSetItem r)) -> covers refs (set_held (ruleSetItem r)) ->
            keeps held (f r) refs (map_default f (abstractDefaultRule_Start r refs))).
  { intros f r refs Hf Hc. unfold abstractDefaultRule_Start.
    pose proof (start_items_ok (allItems r) (ruleSetItem r) refs Hc) as Hk.
    destruct (start_items _ _ _) as [[e set] refs']. destruct Hk as [Hp Hk]. split; [done|]. intros t. cbn.
    rewrite !Hf, <-Hk. cbn. by destruct e. }
  assert (Hl : forall (f : _ -> Rule Action) (r : abstractLogicalRule Action (Rule Action)) refs,
            (forall r, held (f r) = flat_map held (l_rules r)) ->
            keeps (flat_map held) (l_rules r) refs (each_rule Rule_Start (l_rules r) refs) ->
            keeps held (f r) refs (map_logical f r (each_rule Rule_Start (l_rules r) refs))).
  { intros f r refs Hf [Hp Hk]. destruct (each_rule _ _ _) as [[e l] refs']. split; [done|]. intros t. cbn.
    rewrite !Hf, <-Hk. done. }
  induction rule as [rule IH] using Rule_nested_ind. intros refs Hc.
  destruct rule as [r|r|r|r|r ? ? ?|r ? ? ?]; cbn [Rule_Start held children] in *;
    first [by apply Hd|by apply Hl; [done|]; apply each_rule_ok].
Qed.

(** The rule-set of a rule is one of its items. *)
Definition is_set (i : AnyItem) : bool := match i with ARuleSet => true | AItem _ => false end.
Fixpoint set_listed (rule : Rule Action) : bool :=
  match rule with
  | R_Default r | R_DefaultHeadless r | R_DefaultDNS r _ _ _ => is_nil (ruleSetItem r) || existsb is_set (allItems r)
  | R_Logical r | R_LogicalHeadless r | R_LogicalDNS r _ _ _ => forallb set_listed (l_rules r)
  end.

(** A rule that is closed holds nothing. *)
Definition closes (f : Rule Action -> Refs -> Res unit * Rule Action * Refs) (rule : Rule Action) : Prop :=
  forall refs, covers refs (held rule) ->
    keeps held rule refs (f rule refs) /\ (f rule refs).1.1 = Ok tt /\
    (set_listed rule = true -> held (f rule refs).1.2 = []).

Lemma each_close_ok l : forall refs,
  Forall (closes Rule_Close) l -> covers refs (flat_map held l) ->
  keeps (flat_map held) l refs (each_rule Rule_Close l refs) /\ (each_rule Rule_Close l refs).1.1 = Ok tt /\
  (forallb set_listed l = true -> flat_map held (each_rule Rule_Close l refs).1.2 = []).
Proof.
  induction l as [|rule l IH]; intros refs Hf Hc; cbn [each_rule]; [done|].
  apply Forall_cons_iff in Hf as [Hr Hf]. cbn [flat_map] in Hc. destruct (covers_app _ _ _ Hc) as [Hc1 _].
  destruct (Hr refs Hc1) as (Hk & He & Hn). destruct (Rule_Close rule refs) as [[e rule'] refs1]. cbn in He. subst e.
  pose proof (keeps_covers _ _ _ _ _ _ _ Hk Hc) as [_ Hc2]%covers_app.
  destruct (IH refs1 Hf Hc2) as (Hk' & He' & Hn'). destruct (each_rule _ l refs1) as [[e' l'] refs2]. cbn in He', Hn, Hn'.
  split; [split; [cbn; congruence|]|split; [done|]].
  - intros t. destruct Hk as [_ Hk], Hk' as [_ Hk']. specialize (Hk t). specialize (Hk' t). cbn in *. rewrite !count_app. lia.
  - cbn. intros [H1 H2]%andb_true_iff. by rewrite Hn, Hn'.
Qed.

Lemma close_ok rule : closes Rule_Close rule.
Proof.
  assert (Hd : forall (f : _ -> Rule Action) (r : abstractDefaultRule Action (Rule Action)) refs,
            (forall r, held (f r) = set_held (ruleSetItem r)) -> covers refs (set_held (ruleSetItem r)) ->
            let out := map_default f (abstractDefaultRule_Close r refs) in
            keeps held (f r) refs out /\ out.1.1 = Ok tt /\
            (is_nil (ruleSetItem r) || existsb is_set (allItems r) = true -> held out.1.2 = [])).
  { intros f r refs Hf Hc. unfold abstractDefaultRule_Close.
    destruct (close_items_ok (allItems r) (ruleSetItem r) refs Hc) as (Hk & He & Hn & Hz).
    destruct (close_items _ _ _) as [[e set] refs']. cbn in *. destruct Hk as [Hp Hk]. split; [|split; [done|]].
    - split; [done|]. intros t. cbn. rewrite !Hf, <-Hk. done.
    - rewrite Hf. cbn. intros [H|H]%orb_true_iff; [by apply Hz; destruct (ruleSetItem r)|].
      apply Hn. apply existsb_exists in H as ([] & ? & ?); [done|]. by apply list_elem_of_In. }
  assert (Hl : forall (f : _ -> Rule Action) (r : abstractLogicalRule Action (Rule Action)) refs,
            (forall r, held (f r) = flat_map held (l_rules r)) ->
            Forall (closes Rule_Close) (l_rules r) -> covers refs (flat_map held (l_rules r)) ->
            let out := map_logical f r (each_rule Rule_Close (l_rules r) refs) in
            keeps held (f r) refs out /\ out.1.1 = Ok tt /\ (forallb set_listed (l_rules r) = true -> held out.1.2 = [])).
  { intros f r refs Hf Hall Hc. destruct (each_close_ok (l_rules r) refs Hall Hc) as ([Hp Hk] & He & Hn).
    destruct (each_rule _ _ _) as [[e l] refs']. cbn in *. split; [|split; [done|]].
    - split; [done|]. intros t. cbn. rewrite !Hf, <-Hk. done.
    - rewrite Hf. done. }
  induction rule as [rule IH] using Rule_nested_ind. intros refs Hc.
  destruct rule as [r|r|r|r|r ? ? ?|r ? ? ?]; cbn [Rule_Close held children set_listed] in *;
    first [by apply Hd|by apply Hl].
Qed.

(** Starting keeps the shape of a rule. *)
Lemma start_listed rule : forall refs, set_listed (Rule_Start rule refs).1.2 = set_listed rule.
Proof.
  assert (Hsome : forall l set refs, is_nil (start_items l set refs).1.2 = is_nil set).
  { induction l as [|[it|] l IH]; intros set refs; cbn [start_items]; [done|by destruct (item_Start it)|].
    destruct set as [item|]; [|done]. destruct (RuleSetItem_Start item refs) as [[[] ?] ?]; [by rewrite IH|done..]. }
  assert (Hd : forall (r : abstractDefaultRule Action (Rule Action)) refs,
            let r' := (abstractDefaultRule_Start r refs).1.2 in
            is_nil (ruleSetItem r') || existsb is_set (allItems r') = is_nil (ruleSetItem r) || existsb is_set (allItems r)).
  { intros r refs. unfold abstractDefaultRule_Start. specialize (Hsome (allItems r) (ruleSetItem r) refs).
    destruct (start_items _ _ _) as [[e set] refs']. cbn in *.
    assert (Hm : existsb is_set (map any_started (allItems r)) = existsb is_set (allItems r)).
    { induction (allItems r) as [|[] l IH]; cbn; [done|by rewrite IH|done]. }
    destruct e; cbn; by rewrite Hsome, ?Hm. }
  assert (Hl : forall l, Forall (fun r => forall refs, set_listed (Rule_Start r refs).1.2 = set_listed r) l ->
            forall refs, forallb set_listed (each_rule Rule_Start l refs).1.2 = forallb set_listed l).
  { induction 1 as [|r l Hr _ IH]; intros refs; cbn [each_rule]; [done|]. specialize (Hr refs).
    destruct (Rule_Start r refs) as [[[] r'] refs1]; cbn in *; [|by rewrite Hr..].
    specialize (IH refs1). destruct (each_rule _ l refs1) as [[? l'] ?]. cbn in *. by rewrite Hr, IH. }
  induction rule as [rule IH] using Rule_nested_ind. intros refs.
  destruct rule as [r|r|r|r|r ? ? ?|r ? ? ?]; cbn [Rule_Start children set_listed] in *.
  1,3,5: specialize (Hd r refs); destruct (abstractDefaultRule_Start r refs) as [[? ?] ?]; exact Hd.
  all: specialize (Hl (l_rules r) IH refs); destruct (each_rule _ _ _) as [[? ?] ?]; exact Hl.
Qed.

Lemma each_start_listed l : forall refs,
  forallb set_listed l = true -> forallb set_listed (each_rule Rule_Start l refs).1.2 = true.
Proof.
  induction l as [|rule l IH]; intros refs; cbn [each_rule forallb]; [done|]. intros [H1 H2]%andb_true_iff.
  pose proof (start_listed rule refs) as Hs. rewrite H1 in Hs.
  destruct (Rule_Start rule refs) as [[[] rule'] refs1]; cbn in *; [|by rewrite Hs, H2..].
  specialize (IH refs1 H2). destruct (each_rule _ l refs1) as [[? l'] ?]. cbn in *. by rewrite Hs, IH.
Qed.

End Start.
