(* ===== verification/DnsWalk.v ===== *)
(** * Walking the DNS rules

    [walkDNSRules], [sweepArmedDNSRules], [resumeExchangeWithRules] and their
    helpers in [dns/router.go]: a query goes through the DNS rules in order;
    [evaluate] actions send it to servers without waiting, rules that match on a
    response wait for it, [race] rules are armed and committed when their
    responses arrive.

    The answers arrive while the walk goes on.  Time is a number that moves with
    every look at a future ([tick]) and with every wait; a schedule says which
    futures are done at which time.  With [tick] the identity, answers only
    arrive while the walk waits. *)

From stdpp Require Import base numbers list strings gmap option.
From Stdlib Require Import ZArith Lia.
From S2P Require Import Prelude NetAddr Metadata RuleItems RuleAction RuleCore RuleDispatch ManagerCore.

Local Open Scope Z_scope.

(** [adapter.DNSQueryOptions], without the transport *)
Record QueryOptions := mkOptions {
  qo_strategy : Z;
  qo_lookupStrategy : Z;
  qo_disableCache : bool;
  qo_disableOptimisticCache : bool;
  qo_rewriteTTL : option Z;
  qo_timeout : Z;
  qo_clientSubnet : Prefix;
  qo_removeClientSubnet : bool
}.

Definition DomainStrategyAsIS : Z := 0.

(** What rules see of a response. *)
Definition msg_of (m : DNSMessage) : Msg := mkMsg (hdr_Rcode (dm_hdr m)) (dm_Answer m) (dm_Ns m) (dm_Extra m).

(** [exchangeWithRulesResult] *)
Record exchangeWithRulesResult := mkResult {
  er_response : option DNSMessage;
  er_transport : option Member;
  er_rejectAction : option RuleActionReject;
  er_err : option error
}.
Definition result_err (e : error) : exchangeWithRulesResult := mkResult None None None (Some e).
Definition dnsRespondMissingResponseMessage : string :=
  "respond action requires an evaluated response from a preceding evaluate action".
Definition ErrDrop_error : error := E_New [AStr "drop"].
Definition canceled : error := E_New [AStr "context canceled"].

(** [dnsEvaluatedFuture], with the outcome it will have *)
Record dnsEvaluatedFuture := mkFuture {
  f_tag : string;
  f_terminal : bool;
  f_transport : Member;
  f_result : Res DNSMessage;
  f_settled : bool
}.

(** [dnsPendingExchange] *)
Record dnsPendingExchange := mkPending {
  p_transport : option Member;
  p_options : QueryOptions;
  p_future : option nat;
  p_fallback : bool
}.

(** The schedule of a query: which futures are done at a time, when a wait for
    the next answer or for one future ends ([None]: the context ends first),
    whether the context is alive. *)
Record Schedule := mkSchedule {
  ready : nat -> nat -> bool;
  next_wake : nat -> option nat;
  done_at : nat -> nat -> option nat;
  ctx_alive : nat -> bool
}.

Section Walk.
Context {SH : SliceHelpers} {GS : GoStd} {TP : ThirdParty} {DF : DialerFactory}.
Context (env : RuleEnv).
(** The transport manager, the client and the strategy of the router *)
Context (Transport : string -> option Member) (Default : option Member).
Context (Exchange : option Member -> QueryOptions -> Res DNSMessage) (defaultDomainStrategy : Z).
Context (tick : nat -> nat) (sched : Schedule) (message : DNSMessage) (allowFakeIP : bool).

(** ** Options *)

(** [applyDNSRouteOptions] *)
Definition applyDNSRouteOptions (options : QueryOptions) (o : RuleActionDNSRouteOptions) : QueryOptions :=
  let disableCache := qo_disableCache options || ad_DisableCache o in
  let disableOptimisticCache := qo_disableOptimisticCache options || ad_DisableOptimisticCache o in
  let rewriteTTL := match ad_RewriteTTL o with Some t => Some t | None => qo_rewriteTTL options end in
  let timeout := if 0 <? ad_Timeout o then ad_Timeout o else qo_timeout options in
  let '(subnet, remove) := if Prefix_IsValid (ad_ClientSubnet o) then (ad_ClientSubnet o, false)
                           else (qo_clientSubnet options, qo_removeClientSubnet options) in
  let '(subnet, remove) := if ad_RemoveClientSubnet o then (Prefix_zero, true) else (subnet, remove) in
  mkOptions (qo_strategy options) (qo_lookupStrategy options) disableCache disableOptimisticCache rewriteTTL
    timeout subnet remove.

Definition set_disableCache (o : QueryOptions) : QueryOptions :=
  mkOptions (qo_strategy o) (qo_lookupStrategy o) true (qo_disableOptimisticCache o) (qo_rewriteTTL o)
    (qo_timeout o) (qo_clientSubnet o) (qo_removeClientSubnet o).

(** [finalizeExchangeOptions] *)
Definition finalizeExchangeOptions (o : QueryOptions) : QueryOptions :=
  if qo_strategy o =? DomainStrategyAsIS
  then mkOptions defaultDomainStrategy (qo_lookupStrategy o) (qo_disableCache o) (qo_disableOptimisticCache o)
         (qo_rewriteTTL o) (qo_timeout o) (qo_clientSubnet o) (qo_removeClientSubnet o)
  else o.
Definition client_Exchange (transport : option Member) (o : QueryOptions) : Res DNSMessage :=
  Exchange transport (finalizeExchangeOptions o).

(** [resolveDNSRoute] *)
Inductive RouteStatus := Missing | Skipped | Resolved (transport : Member) (options : QueryOptions).
Definition resolveDNSRoute (server : string) (o : RuleActionDNSRouteOptions) (options : QueryOptions)
  : RouteStatus :=
  match Transport server with
  | None => Missing
  | Some transport =>
      let isFakeIP := bool_decide (m_Type transport = "fakeip") in
      if isFakeIP && negb allowFakeIP then Skipped
      else
        let options := applyDNSRouteOptions options o in
        Resolved transport (if isFakeIP then set_disableCache options else options)
  end.

(** ** Responses *)

(** [dnsRefusedResponse]; it indexes the first question. *)
Definition dnsRefusedResponse : Res DNSMessage :=
  match dm_Question message with
  | [] => Panic "index out of range [0] with length 0"
  | question :: _ =>
      Ok (mkDNSMessage (mkMsgHdr (hdr_Id (dm_hdr message)) true false false false 5) [question] [] [] [])
  end.

(** The outcome of a reject or predefined action; [None] for a reject method
    that the switch does not know. *)
Definition reject_result (action : RuleActionReject) : option (Res exchangeWithRulesResult) :=
  if bool_decide (rj_Method action = "default")
  then Some ((fun r => mkResult (Some r) None (Some action) None) <$> dnsRefusedResponse)
  else if bool_decide (rj_Method action = "drop")
  then Some (Ok (mkResult None None (Some action) (Some ErrDrop_error)))
  else None.
Definition predefined_result (action : RuleActionPredefined) : Res exchangeWithRulesResult :=
  (fun r => mkResult (Some r) None None None) <$> RuleActionPredefined_Response SH action message.

(** ** The state of a walk *)

(** [dnsArmedRule] *)
Record dnsArmedRule := mkArmed {
  a_ruleIndex : nat;
  a_rule : Rule RuleAction;
  a_futures : list nat;
  a_anonymousFuture : option nat;
  a_bindsAnonymous : bool;
  a_options : QueryOptions
}.

(** [dnsRuleWalkState], with the time and the metadata of the query; futures
    are named by their position. *)
Record dnsRuleWalkState := mkWalk {
  w_time : nat;
  w_metadata : InboundContext;
  w_ruleIndex : nat;
  w_options : QueryOptions;
  w_anonymous : option nat;
  w_named : gmap string nat;
  w_responses : gmap string (option DNSMessage);
  w_transports : gmap string Member;
  w_futures : list dnsEvaluatedFuture;
  w_armed : list dnsArmedRule;
  w_terminal : option (nat * nat)
}.

Definition set_time (s : dnsRuleWalkState) (t : nat) : dnsRuleWalkState :=
  mkWalk t (w_metadata s) (w_ruleIndex s) (w_options s) (w_anonymous s) (w_named s) (w_responses s)
    (w_transports s) (w_futures s) (w_armed s) (w_terminal s).
Definition set_metadata (s : dnsRuleWalkState) (m : InboundContext) : dnsRuleWalkState :=
  mkWalk (w_time s) m (w_ruleIndex s) (w_options s) (w_anonymous s) (w_named s) (w_responses s)
    (w_transports s) (w_futures s) (w_armed s) (w_terminal s).
Definition set_index (s : dnsRuleWalkState) (i : nat) : dnsRuleWalkState :=
  mkWalk (w_time s) (w_metadata s) i (w_options s) (w_anonymous s) (w_named s) (w_responses s)
    (w_transports s) (w_futures s) (w_armed s) (w_terminal s).
Definition set_options (s : dnsRuleWalkState) (o : QueryOptions) : dnsRuleWalkState :=
  mkWalk (w_time s) (w_metadata s) (w_ruleIndex s) o (w_anonymous s) (w_named s) (w_responses s)
    (w_transports s) (w_futures s) (w_armed s) (w_terminal s).
Definition set_anonymous (s : dnsRuleWalkState) (f : option nat) : dnsRuleWalkState :=
  mkWalk (w_time s) (w_metadata s) (w_ruleIndex s) (w_options s) f (w_named s) (w_responses s)
    (w_transports s) (w_futures s) (w_armed s) (w_terminal s).
Definition set_named (s : dnsRuleWalkState) (n : gmap string nat) : dnsRuleWalkState :=
  mkWalk (w_time s) (w_metadata s) (w_ruleIndex s) (w_options s) (w_anonymous s) n (w_responses s)
    (w_transports s) (w_futures s) (w_armed s) (w_terminal s).
Definition set_futures (s : dnsRuleWalkState) (l : list dnsEvaluatedFuture) : dnsRuleWalkState :=
  mkWalk (w_time s) (w_metadata s) (w_ruleIndex s) (w_options s) (w_anonymous s) (w_named s) (w_responses s)
    (w_transports s) l (w_armed s) (w_terminal s).
Definition set_armed (s : dnsRuleWalkState) (l : list dnsArmedRule) : dnsRuleWalkState :=
  mkWalk (w_time s) (w_metadata s) (w_ruleIndex s) (w_options s) (w_anonymous s) (w_named s) (w_responses s)
    (w_transports s) (w_futures s) l (w_terminal s).
Definition set_terminal (s : dnsRuleWalkState) (t : option (nat * nat)) : dnsRuleWalkState :=
  mkWalk (w_time s) (w_metadata s) (w_ruleIndex s) (w_options s) (w_anonymous s) (w_named s) (w_responses s)
    (w_transports s) (w_futures s) (w_armed s) t.
Definition record_response (s : dnsRuleWalkState) (tag : string) (r : option DNSMessage) (t : Member)
  : dnsRuleWalkState :=
  mkWalk (w_time s) (w_metadata s) (w_ruleIndex s) (w_options s) (w_anonymous s) (w_named s)
    (<[tag := r]> (w_responses s)) (<[tag := t]> (w_transports s)) (w_futures s) (w_armed s) (w_terminal s).

(** ** Futures *)

(** [resolved] and [view] of a future, and the anonymous response *)
Definition resolved (f : nat) (s : dnsRuleWalkState) : bool * dnsRuleWalkState :=
  let t := tick (w_time s) in (ready sched t f, set_time s t).
Definition view (f : nat) (s : dnsRuleWalkState) : option DNSMessage * dnsRuleWalkState :=
  let '(done, s) := resolved f s in
  (if done : bool then match f_result <$> w_futures s !! f with Some (Ok r) => Some r | _ => None end else None, s).
Definition anonymousResponse (s : dnsRuleWalkState) : option DNSMessage * dnsRuleWalkState :=
  match w_anonymous s with
  | None => (None, s)
  | Some f => view f s
  end.
Definition future_transport (s : dnsRuleWalkState) (f : nat) : option Member := f_transport <$> w_futures s !! f.

(** [launchDNSEvaluate]: the new future is the last one. *)
Definition launchDNSEvaluate (s : dnsRuleWalkState) (tag : string) (terminal : bool) (transport : Member)
    (options : QueryOptions) : nat * dnsRuleWalkState :=
  (length (w_futures s),
   set_futures s (w_futures s ++ [mkFuture tag terminal transport (client_Exchange (Some transport) options) false])).

(** [settleDNSFutures]: named responses that have arrived are recorded. *)
Definition settle_one (f : nat) (s : dnsRuleWalkState) : dnsRuleWalkState :=
  match w_futures s !! f with
  | None => s
  | Some future =>
      if f_settled future then s
      else
        let '(done, s) := resolved f s in
        if negb done then s
        else
          let s := set_futures s (<[f := mkFuture (f_tag future) (f_terminal future) (f_transport future)
                                           (f_result future) true]> (w_futures s)) in
          if bool_decide (f_tag future = "") then s
          else let '(r, s) := view f s in record_response s (f_tag future) r (f_transport future)
  end.
Definition settleDNSFutures (s : dnsRuleWalkState) : dnsRuleWalkState :=
  fold_left (fun s f => settle_one f s) (seq 0 (length (w_futures s))) s.

(** The futures of a list that are not done, in order. *)
Fixpoint pending_futures (l : list nat) (s : dnsRuleWalkState) : list nat * dnsRuleWalkState :=
  match l with
  | [] => ([], s)
  | f :: rest =>
      let '(done, s) := resolved f s in
      let '(fs, s) := pending_futures rest s in
      (if done : bool then fs else f :: fs, s)
  end.
(** The first of them, without a look at the rest. *)
Fixpoint first_pending (l : list nat) (s : dnsRuleWalkState) : option nat * dnsRuleWalkState :=
  match l with
  | [] => (None, s)
  | f :: rest =>
      let '(done, s) := resolved f s in
      if negb done then (Some f, s) else first_pending rest s
  end.
Definition all_ready (l : list nat) (s : dnsRuleWalkState) : bool * dnsRuleWalkState :=
  let '(f, s) := first_pending l s in (bool_decide (f = None), s).

(** The futures a rule is bound to. *)
Definition bound_named (s : dnsRuleWalkState) (rule : Rule RuleAction) : list nat :=
  omap (fun tag => w_named s !! tag) (MatchResponseTags rule).
Definition bound_anonymous (s : dnsRuleWalkState) (rule : Rule RuleAction) : list nat :=
  if MatchResponseAnonymous rule then option_list (w_anonymous s) else [].
Definition hasBindings (rule : Rule RuleAction) : bool :=
  negb (bool_decide (MatchResponseTags rule = [])) || MatchResponseAnonymous rule.

(** ** Matching *)

(** The metadata of the query while a rule is matched. *)
Definition response_metadata (m : InboundContext) (r : option DNSMessage)
    (named : gmap string (option DNSMessage)) : InboundContext :=
  let m := ResetRuleCache m in
  let c := ic_match m in
  set_match m (mkMatch (c_DestinationAddresses c) (msg_of <$> r) (fmap (M := option) msg_of <$> named) false
    (c_SourceGeoIPCode c) (c_GeoIPCode c) (c_ProcessInfo c) (c_SourceMACAddress c) (c_SourceHostname c)
    (c_QueryType c) (c_QueryClientSubnet c) (c_QueryDNSSEC c) (c_FakeIP c) (c_PreMatch c)).
Definition match_rule (rule : Rule RuleAction) (r : option DNSMessage) (s : dnsRuleWalkState)
  : bool * dnsRuleWalkState :=
  let '(matched, m) := Rule_Match env rule (response_metadata (w_metadata s) r (w_responses s)) in
  (matched, set_metadata s m).

Definition MatchResponseTag (rule : Rule RuleAction) : string :=
  match rule with R_DefaultDNS _ _ tag _ => tag | _ => "" end.

(** A response, or the error that there is none. *)
Definition respond_result (r : option DNSMessage) (transport : option Member) : exchangeWithRulesResult :=
  match r with
  | None => result_err (E_New [AStr dnsRespondMissingResponseMessage])
  | Some _ => mkResult r transport None None
  end.

(** ** Armed rules *)

(** What a sweep commits to. *)
Inductive Commit :=
  | CResult (r : Res exchangeWithRulesResult)
  | CPending (p : dnsPendingExchange).

(** An armed rule whose responses are there: [None] when it does not match or
    its action does not end the query. *)
Definition commit_armed (armed : dnsArmedRule) (s : dnsRuleWalkState) : option Commit * dnsRuleWalkState :=
  let '(r, s) := if a_bindsAnonymous armed
                 then match a_anonymousFuture armed with Some f => view f s | None => (None, s) end
                 else anonymousResponse s in
  let '(matched, s) := match_rule (a_rule armed) r s in
  if negb matched then (None, s)
  else
    match Rule_action (a_rule armed) with
    | Some ActionRespond =>
        let tag := MatchResponseTag (a_rule armed) in
        if negb (bool_decide (tag = ""))
        then (Some (CResult (Ok (respond_result (default None (w_responses s !! tag)) (w_transports s !! tag)))), s)
        else
          match a_anonymousFuture armed with
          | Some f => let '(r, s) := view f s in
                      (Some (CResult (Ok (respond_result r (future_transport s f)))), s)
          | None =>
              let '(r, s) := anonymousResponse s in
              (Some (CResult (Ok (respond_result r (w_anonymous s ≫= future_transport s)))), s)
          end
    | Some (ActionDNSRoute server _ _ o) =>
        match resolveDNSRoute server o (a_options armed) with
        | Missing | Skipped => (None, s)
        | Resolved transport options => (Some (CPending (mkPending (Some transport) options None false)), s)
        end
    | Some (ActionReject action) => (CResult <$> reject_result action, s)
    | Some (ActionPredefined action) => (Some (CResult (predefined_result action)), s)
    | _ => (None, s)
    end.

(** The loop of [sweepArmedDNSRules]; [kept] are the rules that are not ready. *)
Fixpoint sweep_armed (l kept : list dnsArmedRule) (s : dnsRuleWalkState) : option Commit * dnsRuleWalkState :=
  match l with
  | [] => (None, set_armed s kept)
  | armed :: rest =>
      let '(is_ready, s) := all_ready (a_futures armed) s in
      if negb is_ready then sweep_armed rest (kept ++ [armed]) s
      else
        let '(c, s) := commit_armed armed (set_armed s (kept ++ rest)) in
        match c with
        | Some _ => (c, s)
        | None => sweep_armed rest kept s
        end
  end.
Definition sweepArmedDNSRules (s : dnsRuleWalkState) : option Commit * dnsRuleWalkState :=
  sweep_armed (w_armed s) [] s.

(** ** The walk *)

(** [dnsWalkSuspension], or the result *)
Inductive WalkEnd :=
  | Done (r : Res exchangeWithRulesResult)
  | Await (future : nat)
  | Drain
  | Pending (p : dnsPendingExchange).

(** The step at one rule ends the walk or goes on with the next rule. *)
Definition Step : Type := option WalkEnd * dnsRuleWalkState.

(** A race rule is armed; when nothing is pending the armed rules are swept. *)
Definition arm_rule (rule : Rule RuleAction) (s : dnsRuleWalkState) : Step :=
  let '(named, s) := pending_futures (bound_named s rule) s in
  let anonymous := if MatchResponseAnonymous rule then w_anonymous s else None in
  let '(anonymous_pending, s) := pending_futures (option_list anonymous) s in
  let pending := named ++ anonymous_pending in
  let armed := mkArmed (w_ruleIndex s) rule pending anonymous (MatchResponseAnonymous rule) (w_options s) in
  let s := set_armed s (w_armed s ++ [armed]) in
  if negb (bool_decide (pending = [])) then (None, s)
  else
    let '(c, s) := sweepArmedDNSRules s in
    match c with
    | None => (None, s)
    | Some (CResult r) => (Some (Done r), s)
    | Some (CPending p) => (Some (Pending p), set_armed s [])
    end.

(** The action of a rule that matches. *)
Definition walk_action (rule : Rule RuleAction) (s : dnsRuleWalkState) : Step :=
  let drained (next : Step) : Step := if negb (bool_decide (w_armed s = [])) then (Some Drain, s) else next in
  match Rule_action rule with
  | Some (ActionDNSRouteOptions o) => (None, set_options s (applyDNSRouteOptions (w_options s) o))
  | Some (ActionEvaluate server tag speculative o) =>
      match Transport server with
      | None => (None, if bool_decide (tag = "") then set_anonymous s None else s)
      | Some transport =>
          if negb speculative && negb (bool_decide (w_armed s = [])) then (Some Drain, s)
          else
            let '(f, s) := launchDNSEvaluate s tag false transport (applyDNSRouteOptions (w_options s) o) in
            (None, if bool_decide (tag = "") then set_anonymous s (Some f)
                   else set_named s (<[tag := f]> (w_named s)))
      end
  | Some ActionRespond =>
      drained (
        let tag := MatchResponseTag rule in
        if negb (bool_decide (tag = ""))
        then (Some (Done (Ok (respond_result (default None (w_responses s !! tag)) (w_transports s !! tag)))), s)
        else
          let '(waiting, s) :=
            if hasBindings rule then (None, s) else first_pending (option_list (w_anonymous s)) s in
          match waiting with
          | Some f => (Some (Await f), s)
          | None =>
              let '(r, s) := anonymousResponse s in
              (Some (Done (Ok (respond_result r (w_anonymous s ≫= future_transport s)))), s)
          end)
  | Some (ActionDNSRoute server speculative fallback o) =>
      match resolveDNSRoute server o (w_options s) with
      | Missing | Skipped => (None, s)
      | Resolved transport options =>
          if negb (bool_decide (w_armed s = [])) then
            (Some Drain,
             if speculative && is_nil (w_terminal s) then
               let '(f, s) := launchDNSEvaluate s "" true transport options in
               set_terminal s (Some (f, w_ruleIndex s))
             else s)
          else
            match w_terminal s with
            | Some (f, index) =>
                if bool_decide (index = w_ruleIndex s)
                then (Some (Pending (mkPending (future_transport s f) (w_options s) (Some f) false)), s)
                else (Some (Pending (mkPending (Some transport) options None fallback)), s)
            | None => (Some (Pending (mkPending (Some transport) options None fallback)), s)
            end
      end
  | Some (ActionReject action) =>
      drained (match reject_result action with Some r => (Some (Done r), s) | None => (None, s) end)
  | Some (ActionPredefined action) => drained (Some (Done (predefined_result action)), s)
  | _ => (None, s)
  end.

(** One rule: bound responses are recorded and waited for, then the rule is
    matched. *)
Definition walk_match (rule : Rule RuleAction) (s : dnsRuleWalkState) : Step :=
  let '(r, s) := anonymousResponse s in
  let '(matched, s) := match_rule rule r s in
  if matched then walk_action rule s else (None, s).
Definition walk_rule (rule : Rule RuleAction) (s : dnsRuleWalkState) : Step :=
  if hasBindings rule then
    let s := settleDNSFutures s in
    if Race rule then arm_rule rule s
    else
      let '(waiting, s) := first_pending (bound_named s rule) s in
      let '(waiting, s) := match waiting with
                           | Some f => (Some f, s)
                           | None => first_pending (bound_anonymous s rule) s
                           end in
      match waiting with
      | Some f => (Some (Await f), s)
      | None => walk_match rule s
      end
  else walk_match rule s.

(** [walkDNSRules], from the current rule on *)
Fixpoint walk_rules (rest : list (Rule RuleAction)) (s : dnsRuleWalkState) : WalkEnd * dnsRuleWalkState :=
  match rest with
  | [] =>
      (if negb (bool_decide (w_armed s = [])) then Drain
       else Pending (mkPending Default (w_options s) None false), s)
  | rule :: rest =>
      match walk_rule rule s with
      | (Some e, s) => (e, s)
      | (None, s) => walk_rules rest (set_index s (S (w_ruleIndex s)))
      end
  end.
Definition walkDNSRules (rules : list (Rule RuleAction)) (s : dnsRuleWalkState) : WalkEnd * dnsRuleWalkState :=
  walk_rules (drop (w_ruleIndex s) rules) s.

(** ** Waiting *)

(** Canceled futures that are not done will fail. *)
Definition cancel_futures (keep : option nat) (s : dnsRuleWalkState) : dnsRuleWalkState :=
  set_futures s (imap (fun f future =>
    if bool_decide (Some f = keep) || ready sched (w_time s) f then future
    else mkFuture (f_tag future) (f_terminal future) (f_transport future) (Err canceled) (f_settled future))
    (w_futures s)).

Definition result_of_exchange (transport : option Member) (r : Res DNSMessage) : Res exchangeWithRulesResult :=
  match r with
  | Ok response => Ok (mkResult (Some response) transport None None)
  | Err e => Ok (mkResult None transport None (Some e))
  | Panic p => Panic p
  end.

(** [finishPendingExchange] *)
Definition finishPendingExchange (p : dnsPendingExchange) (s : dnsRuleWalkState)
  : Res exchangeWithRulesResult * dnsRuleWalkState :=
  let s := cancel_futures (p_future p) s in
  match p_future p with
  | Some f =>
      match done_at sched (w_time s) f with
      | None => (Ok (result_err canceled), s)
      | Some t =>
          (match w_futures s !! f with
           | Some future => result_of_exchange (Some (f_transport future)) (f_result future)
           | None => Panic "invalid memory address or nil pointer dereference"
           end, set_time s t)
      end
  | None => (result_of_exchange (p_transport p) (client_Exchange (p_transport p) (p_options p)), s)
  end.

(** A failed exchange: an error, or a response that is not a success. *)
Definition exchange_failed (r : exchangeWithRulesResult) : bool :=
  negb (is_nil (er_err r)) ||
  match er_response r with Some m => negb (hdr_Rcode (dm_hdr m) =? RcodeSuccess) | None => false end.

(** Whether the loop has to wait before it walks on. *)
Definition must_wait (e : option WalkEnd) (s : dnsRuleWalkState) : bool * dnsRuleWalkState :=
  match e with
  | Some (Await f) => let '(done, s) := resolved f s in (negb done, s)
  | Some Drain => (negb (bool_decide (w_armed s = [])), s)
  | _ => (false, s)
  end.

(** [resumeExchangeWithRules]; [None] when the fuel is used up. *)
Fixpoint resumeExchangeWithRules (fuel : nat) (rules : list (Rule RuleAction)) (s : dnsRuleWalkState)
    (suspension : option WalkEnd) : option (Res exchangeWithRulesResult) :=
  match fuel with
  | O => None
  | S fuel =>
      let s := settleDNSFutures s in
      let '(c, s) := sweepArmedDNSRules s in
      match c with
      | Some (CResult r) => Some r
      | Some (CPending p) => Some (fst (finishPendingExchange p s))
      | None =>
          match suspension with
          | Some (Done r) => Some r
          | Some (Pending p) =>
              let '(r, s) := finishPendingExchange p s in
              match r with
              | Ok result =>
                  if p_fallback p && ctx_alive sched (w_time s) && exchange_failed result
                  then resumeExchangeWithRules fuel rules (set_index s (S (w_ruleIndex s))) None
                  else Some (Ok result)
              | r => Some r
              end
          | _ =>
              let '(wait, s) := must_wait suspension s in
              if wait then
                match next_wake sched (w_time s) with
                | None => Some (Ok (result_err canceled))
                | Some t => resumeExchangeWithRules fuel rules (set_time s t) suspension
                end
              else
                let '(e, s) := walkDNSRules rules s in
                match e with
                | Done r => Some r
                | e => resumeExchangeWithRules fuel rules s (Some e)
                end
          end
      end
  end.

(** [exchangeWithRules] from time 0 *)
Definition start_state (m : InboundContext) (options : QueryOptions) : dnsRuleWalkState :=
  mkWalk 0 m 0 options None ∅ ∅ ∅ [] [] None.
Definition exchangeWithRules (fuel : nat) (rules : list (Rule RuleAction)) (m : InboundContext)
    (options : QueryOptions) : option (Res exchangeWithRulesResult) :=
  let '(e, s) := walkDNSRules rules (start_state m options) in
  match e with
  | Done r => Some r
  | e => resumeExchangeWithRules fuel rules s (Some e)
  end.

End Walk.

Arguments resolved : simpl never.
Arguments view : simpl never.
Arguments response_metadata : simpl never.
Arguments settle_one : simpl never.
