(* ===== verification/DnsSpec.v ===== *)
(** * The DNS rules without waiting

    A reference for [DnsWalk]: the rules are processed one after the other, and
    an [evaluate] action has its answer at once.  Rules without races give this
    result, whenever the answers arrive. *)

From stdpp Require Import base numbers list strings gmap option.
From Stdlib Require Import ZArith Lia.
From S2P Require Import Prelude NetAddr Metadata RuleItems RuleAction RuleCore RuleSpec RuleDispatch ManagerCore.
From S2P Require Import DnsWalk.

Local Open Scope Z_scope.

Section Sequential.
Context {SH : SliceHelpers} {GS : GoStd} {TP : ThirdParty} {DF : DialerFactory}.
Context (env : RuleEnv).
Context (Transport : string -> option Member) (Default : option Member).
Context (Exchange : option Member -> QueryOptions -> Res DNSMessage) (defaultDomainStrategy : Z).
Context (message : DNSMessage) (allowFakeIP : bool).

(** An evaluated answer: the server and what it said. *)
Definition Answer : Type := Member * Res DNSMessage.
Definition answer_response (a : Answer) : option DNSMessage :=
  match snd a with Ok r => Some r | _ => None end.

Abbreviation exchange := (client_Exchange Exchange defaultDomainStrategy).
Abbreviation route := (resolveDNSRoute Transport allowFakeIP).

(** The answer a pending exchange gives; [next] is what the rules after it give. *)
Definition finish (transport : option Member) (o : QueryOptions) (fallback : bool)
    (next : Res exchangeWithRulesResult) : Res exchangeWithRulesResult :=
  match result_of_exchange transport (exchange transport o) with
  | Ok result => if fallback && exchange_failed result then next else Ok result
  | r => r
  end.

Fixpoint sequential (rules : list (Rule RuleAction)) (m : InboundContext) (o : QueryOptions)
    (anonymous : option Answer) (named : gmap string Answer) : Res exchangeWithRulesResult :=
  match rules with
  | [] => finish Default o false (Ok (result_err canceled))
  | rule :: rest =>
      let next := sequential rest m o anonymous named in
      if Spec env rule (response_metadata m (anonymous ≫= answer_response) (answer_response <$> named)) then
        match Rule_action rule with
        | Some (ActionDNSRouteOptions ro) => sequential rest m (applyDNSRouteOptions o ro) anonymous named
        | Some (ActionEvaluate server tag _ ro) =>
            match Transport server with
            | None => if bool_decide (tag = "") then sequential rest m o None named else next
            | Some t =>
                let answer := (t, exchange (Some t) (applyDNSRouteOptions o ro)) in
                if bool_decide (tag = "") then sequential rest m o (Some answer) named
                else sequential rest m o anonymous (<[tag := answer]> named)
            end
        | Some ActionRespond =>
            let answer := if bool_decide (MatchResponseTag rule = "") then anonymous
                          else named !! MatchResponseTag rule in
            Ok (respond_result (answer ≫= answer_response) (fst <$> answer))
        | Some (ActionDNSRoute server _ fallback ro) =>
            match route server ro o with
            | Missing | Skipped => next
            | Resolved t o' => finish (Some t) o' fallback next
            end
        | Some (ActionReject action) => match reject_result message action with Some r => r | None => next end
        | Some (ActionPredefined action) => predefined_result message action
        | _ => next
        end
      else next
  end.

(** ** The rules the result is stated for *)

(** Matching a rule reads the responses it is bound to and no others. *)
Definition reads_bound (rule : Rule RuleAction) : Prop :=
  forall m r r' (n n' : gmap string (option DNSMessage)),
    (MatchResponseAnonymous rule = true -> r = r') ->
    (forall t, t ∈ MatchResponseTags rule -> default None (n !! t) = default None (n' !! t)) ->
    Spec env rule (response_metadata m r n) = Spec env rule (response_metadata m r' n').

(** A respond action answers with a response its rule waits for. *)
Definition respond_bound (rule : Rule RuleAction) : Prop :=
  Rule_action rule = Some ActionRespond ->
  MatchResponseTag rule <> "" /\ MatchResponseTag rule ∈ MatchResponseTags rule \/
  MatchResponseTag rule = "" /\ (MatchResponseAnonymous rule = true \/ hasBindings rule = false).

Definition eval_tags (rules : list (Rule RuleAction)) : list string :=
  flat_map (fun rule => match Rule_action rule with
                        | Some (ActionEvaluate _ tag _ _) => if bool_decide (tag = "") then [] else [tag]
                        | _ => [] end) rules.
Definition evaluates (rule : Rule RuleAction) : bool :=
  match Rule_action rule with Some (ActionEvaluate _ _ _ _) => true | _ => false end.
Definition falls_back (rule : Rule RuleAction) : bool :=
  match Rule_action rule with Some (ActionDNSRoute _ _ fallback _) => fallback | _ => false end.

(** Fallback routes come before the evaluate actions. *)
Fixpoint fallback_first (rules : list (Rule RuleAction)) : Prop :=
  match rules with
  | [] => True
  | rule :: rest =>
      (evaluates rule = true -> Forall (fun r => falls_back r = false) rest) /\ fallback_first rest
  end.

Record wellformed (rules : list (Rule RuleAction)) : Prop := {
  wf_race : Forall (fun rule => Race rule = false) rules;
  wf_bound : Forall (fun rule => reads_bound rule /\ ("" ∉ MatchResponseTags rule)) rules;
  wf_respond : Forall respond_bound rules;
  wf_tags : NoDup (eval_tags rules);
  wf_fallback : fallback_first rules
}.

Lemma wellformed_cons rule rules :
  wellformed (rule :: rules) ->
  Race rule = false /\ (reads_bound rule /\ ("" ∉ MatchResponseTags rule)) /\ respond_bound rule /\
  NoDup (eval_tags (rule :: rules)) /\
  (evaluates rule = true -> Forall (fun r => falls_back r = false) rules) /\ wellformed rules.
Proof.
  intros [H1 H2 H3 H4 [H5 H6]]. inversion H1; inversion H2; inversion H3; subst.
  repeat (split; [done|]). constructor; try done.
  unfold eval_tags in H4. simpl in H4. apply list.NoDup_app in H4. tauto.
Qed.

Lemma wellformed_drop l i : wellformed l -> wellformed (drop i l).
Proof.
  revert i. induction l as [|rule l IH]; intros [|i] H; try done. simpl. apply IH.
  by apply wellformed_cons in H as (_ & _ & _ & _ & _ & ?).
Qed.

(** ** Schedules *)

(** Answers stay; a wait ends later; every answer arrives by [T]; the query is
    not canceled. *)
Record good_schedule (sched : Schedule) (T : nat) : Prop := {
  gs_stays : forall t t' f, (t <= t')%nat -> ready sched t f = true -> ready sched t' f = true;
  gs_wakes : forall t, exists t', next_wake sched t = Some t' /\ (t < t')%nat;
  gs_all : forall f, ready sched T f = true;
  gs_alive : forall t, ctx_alive sched t = true
}.

(** ** The walk when answers arrive only while it waits *)

Context (sched : Schedule).
Abbreviation resolved := (resolved (fun t => t) sched).
Abbreviation view := (view (fun t => t) sched).
Abbreviation first_pending := (first_pending (fun t => t) sched).

Lemma set_time_same s : set_time s (w_time s) = s.
Proof. by destruct s. Qed.

Lemma resolved_atomic f s : resolved f s = (ready sched (w_time s) f, s).
Proof. unfold DnsWalk.resolved. by rewrite set_time_same. Qed.

Lemma view_atomic f s :
  view f s = (if ready sched (w_time s) f
              then match f_result <$> w_futures s !! f with Some (Ok r) => Some r | _ => None end else None, s).
Proof. unfold DnsWalk.view. by rewrite resolved_atomic. Qed.

Lemma first_pending_atomic l s :
  first_pending l s = (List.find (fun f => negb (ready sched (w_time s) f)) l, s).
Proof.
  induction l as [|f l IH]; [done|]. cbn [DnsWalk.first_pending List.find]. rewrite resolved_atomic.
  by destruct (ready _ _ f).
Qed.

(** ** The simulation *)

(** A future and an answer of the reference. *)
Definition answered (futures : list dnsEvaluatedFuture) (tag : string) (f : option nat) (a : option Answer) : Prop :=
  match f, a with
  | None, None => True
  | Some f, Some (t, r) =>
      exists future, futures !! f = Some future /\ f_tag future = tag /\ f_transport future = t /\ f_result future = r
  | _, _ => False
  end.

(** What is recorded of a future. *)
Definition recorded (s : dnsRuleWalkState) (future : dnsEvaluatedFuture) : Prop :=
  w_responses s !! f_tag future = Some (answer_response (f_transport future, f_result future)) /\
  w_transports s !! f_tag future = Some (f_transport future).

Record simulates (rules : list (Rule RuleAction)) (m : InboundContext) (s : dnsRuleWalkState)
    (o : QueryOptions) (anonymous : option Answer) (named : gmap string Answer) : Prop := {
  si_full : full (w_metadata s);
  si_metadata : forall r n, response_metadata (w_metadata s) r n = response_metadata m r n;
  si_options : w_options s = o;
  si_armed : w_armed s = [];
  si_terminal : w_terminal s = None;
  si_anonymous : answered (w_futures s) "" (w_anonymous s) anonymous;
  si_named : forall tag, answered (w_futures s) tag (w_named s !! tag) (named !! tag);
  si_unique : forall f future, w_futures s !! f = Some future -> f_tag future <> "" ->
                w_named s !! f_tag future = Some f;
  si_settled : forall f future, w_futures s !! f = Some future -> f_tag future <> "" -> f_settled future = true ->
                recorded s future;
  si_recorded : forall tag, is_Some (w_responses s !! tag) ->
                  exists f future, w_futures s !! f = Some future /\ f_tag future = tag /\ f_settled future = true;
  si_fresh : forall tag, tag ∈ eval_tags (drop (w_ruleIndex s) rules) -> w_named s !! tag = None;
  si_fallback : w_futures s = [] \/ Forall (fun r => falls_back r = false) (drop (w_ruleIndex s) rules)
}.

Section Simulation.
Context (rules : list (Rule RuleAction)) (m : InboundContext) (T : nat).
Context (Hwf : wellformed rules) (Hsched : good_schedule sched T).

(** Settling one future keeps the simulation and the rest of the state. *)
Definition same_but_settled (s s' : dnsRuleWalkState) : Prop :=
  w_time s' = w_time s /\ w_ruleIndex s' = w_ruleIndex s /\ w_named s' = w_named s /\
  w_anonymous s' = w_anonymous s /\ length (w_futures s') = length (w_futures s).

Lemma answered_settle futures f future tag f' a b :
  futures !! f = Some future ->
  answered futures tag f' a ->
  answered (<[f := mkFuture (f_tag future) (f_terminal future) (f_transport future) (f_result future) b]> futures) tag f' a.
Proof.
  intros Hf. destruct f' as [f'|], a as [[t r]|]; simpl; try done.
  intros (fut & Hfut & H1 & H2 & H3). destruct (decide (f = f')) as [<-|Hne].
  - rewrite list_lookup_insert_eq by by eapply lookup_lt_Some. simplify_eq. eauto.
  - rewrite list_lookup_insert_ne by done. eauto.
Qed.

Lemma settle_one_ok f s o anonymous named :
  simulates rules m s o anonymous named ->
  let s' := settle_one (fun t => t) sched f s in
  simulates rules m s' o anonymous named /\ same_but_settled s s' /\
  (forall f' future, w_futures s' !! f' = Some future -> f_settled future = false ->
     w_futures s !! f' = Some future) /\
  (forall future, w_futures s' !! f = Some future -> ready sched (w_time s) f = true -> f_settled future = true).
Proof.
  intros Hs. unfold settle_one. destruct (w_futures s !! f) as [future|] eqn:Hf.
  2: { simpl. split; [done|]. split; [done|]. split; [done|]. congruence. }
  destruct (f_settled future) eqn:Hset.
  { simpl. split; [done|]. split; [done|]. split; [done|]. naive_solver congruence. }
  rewrite resolved_atomic. destruct (ready sched (w_time s) f) eqn:Hr; cbn [negb].
  2: { split; [done|]. split; [done|]. split; [done|]. done. }
  set (fut' := mkFuture _ _ _ _ true).
  assert (Hlook : forall f' x, <[f := fut']> (w_futures s) !! f' = Some x ->
            (f' = f /\ x = fut') \/ (f' <> f /\ w_futures s !! f' = Some x)).
  { intros f' x. destruct (decide (f = f')) as [<-|Hne].
    - rewrite list_lookup_insert_eq by by eapply lookup_lt_Some. intros [= <-]. by left.
    - rewrite list_lookup_insert_ne by done. right. auto. }
  assert (Hin : <[f := fut']> (w_futures s) !! f = Some fut').
  { by rewrite list_lookup_insert_eq by by eapply lookup_lt_Some. }
  case_bool_decide as Htag.
  - destruct Hs. split; [|split; [|split]].
    + constructor; simpl; try done.
      * by apply answered_settle.
      * intros tag. by apply answered_settle.
      * intros f' x [[-> ->]|[Hne Hx]]%Hlook Hx'; [done|eauto].
      * intros f' x [[-> ->]|[Hne Hx]]%Hlook Hx' Hsx; [done|]. by eapply si_settled0.
      * intros tag Hsome. destruct (si_recorded0 tag Hsome) as (f' & x & Hx & Ht & Hsx). exists f', x.
        split; [|done]. rewrite list_lookup_insert_ne; [done|]. intros ->. congruence.
      * destruct si_fallback0 as [Hnil|?]; [|by right]. by rewrite Hnil in Hf.
    + unfold same_but_settled. simpl. by rewrite length_insert.
    + simpl. intros f' x [[-> ->]|[Hne Hx]]%Hlook; done.
    + simpl. intros x Hx _. rewrite Hin in Hx. by injection Hx as <-.
  - rewrite view_atomic. cbn [w_time set_futures w_futures]. rewrite Hr, Hin. cbn [fmap option_fmap option_map].
    change (match f_result fut' with Ok r => Some r | _ => None end) with (answer_response (f_transport future, f_result future)).
    destruct Hs. split; [|split; [|split]].
    + constructor; simpl; try done.
      * by apply answered_settle.
      * intros tag. by apply answered_settle.
      * intros f' x [[-> ->]|[Hne Hx]]%Hlook Hx'; [exact (si_unique0 f future Hf Htag)|eauto].
      * intros f' x [[-> ->]|[Hne Hx]]%Hlook Hx' Hsx; unfold recorded; simpl.
        { by rewrite !lookup_insert_eq. }
        rewrite !lookup_insert_ne; [by eapply si_settled0| |].
        all: intros He; pose proof (si_unique0 _ _ Hx Hx') as H1; pose proof (si_unique0 _ _ Hf Htag) as H2;
          rewrite He in H2; congruence.
      * intros tag Hsome. destruct (decide (tag = f_tag future)) as [->|Hne].
        { exists f, fut'. done. }
        rewrite lookup_insert_ne in Hsome by done.
        destruct (si_recorded0 tag Hsome) as (f' & x & Hx & Ht & Hsx). exists f', x.
        split; [|done]. rewrite list_lookup_insert_ne; [done|]. intros ->. congruence.
      * destruct si_fallback0 as [Hnil|?]; [|by right]. by rewrite Hnil in Hf.
    + unfold same_but_settled. simpl. by rewrite length_insert.
    + simpl. intros f' x [[-> ->]|[Hne Hx]]%Hlook; done.
    + simpl. intros x Hx _. rewrite Hin in Hx. by injection Hx as <-.
Qed.

Lemma settle_list_ok l : forall s o anonymous named,
  simulates rules m s o anonymous named ->
  let s' := fold_left (fun s f => settle_one (fun t => t) sched f s) l s in
  simulates rules m s' o anonymous named /\ same_but_settled s s' /\
  (forall f' future, w_futures s' !! f' = Some future -> f_settled future = false ->
     w_futures s !! f' = Some future) /\
  (forall f future, f ∈ l -> w_futures s' !! f = Some future -> ready sched (w_time s) f = true ->
     f_settled future = true).
Proof.
  induction l as [|f l IH]; intros s o anonymous named Hs; cbn [fold_left].
  { split; [done|]. split; [done|]. split; [done|]. set_solver. }
  destruct (settle_one_ok f s o anonymous named Hs) as (Hs1 & Hsame1 & Hold1 & Hset1). revert Hs1 Hsame1 Hold1 Hset1.
  generalize (settle_one (fun t => t) sched f s). intros s1 Hs1 Hsame1 Hold1 Hset1.
  destruct (IH s1 o anonymous named Hs1) as (Hs2 & Hsame2 & Hold2 & Hset2). cbv zeta.
  revert Hs2 Hsame2 Hold2 Hset2. generalize (fold_left (fun s f => settle_one (fun t => t) sched f s) l s1).
  intros s2 Hs2 Hsame2 Hold2 Hset2. unfold same_but_settled in *.
  split; [done|]. split; [intuition congruence|]. split; [naive_solver|].
  intros f' future Hin Hf Hr. destruct (f_settled future) eqn:E; [done|].
  apply elem_of_cons in Hin as [->|Hin].
  - pose proof (Hold2 _ _ Hf E) as H1. specialize (Hset1 _ H1 Hr). congruence.
  - destruct Hsame1 as [Ht _]. rewrite <-Ht in Hr. specialize (Hset2 _ _ Hin Hf Hr). congruence.
Qed.

Lemma settle_ok s o anonymous named :
  simulates rules m s o anonymous named ->
  let s' := settleDNSFutures (fun t => t) sched s in
  simulates rules m s' o anonymous named /\ same_but_settled s s' /\
  (forall f future, w_futures s' !! f = Some future -> ready sched (w_time s') f = true -> f_settled future = true).
Proof.
  intros Hs. unfold settleDNSFutures.
  destruct (settle_list_ok (seq 0 (length (w_futures s))) s o anonymous named Hs) as (H1 & H2 & _ & H3).
  split; [done|]. split; [done|]. cbv zeta in *. intros f future Hf Hr.
  destruct H2 as (Ht & _ & _ & _ & Hl). apply (H3 f future); [|done|congruence].
  apply lookup_lt_Some in Hf. apply elem_of_seq. lia.
Qed.

(** When the bound responses are there, the rule sees what the reference sees. *)
Definition synced (s : dnsRuleWalkState) (rule : Rule RuleAction) : Prop :=
  (MatchResponseAnonymous rule = true -> forall f, w_anonymous s = Some f -> ready sched (w_time s) f = true) /\
  (forall tag f future, tag ∈ MatchResponseTags rule -> w_named s !! tag = Some f ->
     w_futures s !! f = Some future -> f_settled future = true).

Lemma anonymous_view s o anonymous named :
  simulates rules m s o anonymous named ->
  (forall f, w_anonymous s = Some f -> ready sched (w_time s) f = true) ->
  anonymousResponse (fun t => t) sched s = (anonymous ≫= answer_response, s) /\
  (w_anonymous s ≫= future_transport s) = fst <$> anonymous.
Proof.
  intros [] Hr. unfold anonymousResponse, future_transport.
  destruct (w_anonymous s) as [f|]; destruct anonymous as [[t r]|]; simpl in si_anonymous0; try done.
  destruct si_anonymous0 as (future & Hf & _ & <- & <-). rewrite view_atomic, Hr by done. cbn. rewrite Hf. done.
Qed.

(** Without waiting for it, only the time decides whether it is there. *)
Lemma anonymous_view_any s : exists r, anonymousResponse (fun t => t) sched s = (r, s).
Proof. unfold anonymousResponse. destruct (w_anonymous s); [rewrite view_atomic|]; eauto. Qed.

Lemma named_view s o anonymous named rule tag :
  simulates rules m s o anonymous named -> synced s rule -> tag ∈ MatchResponseTags rule -> tag <> "" ->
  default None (w_responses s !! tag) = named !! tag ≫= answer_response /\
  (is_Some (named !! tag) -> w_transports s !! tag = fst <$> named !! tag).
Proof.
  intros [] [_ Hsync] Htag Hne. specialize (si_named0 tag).
  destruct (w_named s !! tag) as [f|] eqn:Hf; destruct (named !! tag) as [[t r]|]; simpl in si_named0; try done.
  - destruct si_named0 as (future & Hfut & Ht & <- & <-). specialize (Hsync _ _ _ Htag Hf Hfut).
    assert (f_tag future <> "") as Hne' by congruence.
    destruct (si_settled0 _ _ Hfut Hne' Hsync) as [H1 H2]. rewrite Ht in H1, H2. rewrite H1, H2. done.
  - split; [|by intros []]. destruct (w_responses s !! tag) as [r|] eqn:Hr; [|done].
    destruct (si_recorded0 tag ltac:(eauto)) as (f & future & Hfut & Ht & _).
    assert (f_tag future <> "") as Hne' by congruence.
    pose proof (si_unique0 _ _ Hfut Hne'). congruence.
Qed.

Lemma full_response x r n : full x -> full (response_metadata x r n).
Proof. intros [? ?]. done. Qed.

Lemma simulates_metadata s o anonymous named r n :
  simulates rules m s o anonymous named ->
  simulates rules m (set_metadata s (response_metadata (w_metadata s) r n)) o anonymous named.
Proof. intros []. constructor; try done. by apply full_response. Qed.

Lemma match_ok s o anonymous named rule r :
  simulates rules m s o anonymous named -> synced s rule ->
  reads_bound rule -> ("" ∉ MatchResponseTags rule) ->
  (MatchResponseAnonymous rule = true -> r = anonymous ≫= answer_response) ->
  exists s', match_rule env rule r s =
    (Spec env rule (response_metadata m (anonymous ≫= answer_response) (answer_response <$> named)), s') /\
    simulates rules m s' o anonymous named /\ synced s' rule /\
    w_ruleIndex s' = w_ruleIndex s /\ w_time s' = w_time s.
Proof.
  intros Hs Hsync Hreads Hne Hr. unfold match_rule.
  rewrite engine_refines by (apply full_response, Hs). rewrite (si_metadata _ _ _ _ _ _ Hs).
  rewrite (Hreads m r (anonymous ≫= answer_response) (w_responses s) (answer_response <$> named)); [|done|].
  - eexists. split; [done|]. split; [|done]. rewrite <-(si_metadata _ _ _ _ _ _ Hs). by apply simulates_metadata.
  - intros t Ht. rewrite lookup_fmap. destruct (named_view s o anonymous named rule t Hs Hsync Ht) as [-> _]; [congruence|].
    by destruct (named !! t).
Qed.

(** The next rule sees fewer tags and fallbacks. *)
Lemma simulates_next s o anonymous named rule rest :
  drop (w_ruleIndex s) rules = rule :: rest ->
  simulates rules m s o anonymous named -> simulates rules m (set_index s (S (w_ruleIndex s))) o anonymous named.
Proof.
  intros Hd [].
  assert (Hrest : drop (S (w_ruleIndex s)) rules = rest).
  { rewrite <-Nat.add_1_r, <-drop_drop, Hd. done. }
  constructor; try done; simpl.
  - intros tag. rewrite Hrest. intros Ht. apply si_fresh0. rewrite Hd. unfold eval_tags. simpl.
    apply elem_of_app. by right.
  - rewrite Hrest. rewrite Hd in si_fallback0. destruct si_fallback0 as [?|Hf]; [by left|]. right.
    by inversion Hf.
Qed.

(** Launching an evaluation. *)
Lemma answered_app futures tag f a x : answered futures tag f a -> answered (futures ++ [x]) tag f a.
Proof.
  destruct f as [f|], a as [[t r]|]; simpl; try done. intros (fut & Hf & ?). exists fut.
  split; [|done]. by rewrite lookup_app_l by by eapply lookup_lt_Some.
Qed.

Lemma launch_lookup s tag t res f future :
  (w_futures s ++ [mkFuture tag false t res false]) !! f = Some future ->
  w_futures s !! f = Some future \/ f = length (w_futures s) /\ future = mkFuture tag false t res false.
Proof.
  intros [H|[Hle H]]%lookup_app_Some; [by left|]. right.
  destruct (f - length (w_futures s))%nat eqn:E; simpl in H; [|by rewrite lookup_nil in H].
  injection H as <-. split; [lia|done].
Qed.

Lemma simulates_launch s o anonymous named rule rest server tag spec ro t :
  drop (w_ruleIndex s) rules = rule :: rest ->
  Rule_action rule = Some (ActionEvaluate server tag spec ro) ->
  simulates rules m s o anonymous named ->
  let answer := (t, exchange (Some t) (applyDNSRouteOptions (w_options s) ro)) in
  let '(f, s1) := launchDNSEvaluate Exchange defaultDomainStrategy s tag false t (applyDNSRouteOptions (w_options s) ro) in
  let s2 := if bool_decide (tag = "") then set_anonymous s1 (Some f) else set_named s1 (<[tag := f]> (w_named s1)) in
  simulates rules m (set_index s2 (S (w_ruleIndex s2))) o
    (if bool_decide (tag = "") then Some answer else anonymous)
    (if bool_decide (tag = "") then named else <[tag := answer]> named).
Proof.
  intros Hd Ha Hs answer. unfold launchDNSEvaluate. cbv zeta.
  set (res := exchange (Some t) _) in *. clearbody res.
  set (fut := mkFuture tag false t res false).
  pose proof (wellformed_drop rules (w_ruleIndex s) Hwf) as Hw. rewrite Hd in Hw.
  apply wellformed_cons in Hw as (_ & _ & _ & Hnd & Hfb & _).
  assert (Hrest : drop (S (w_ruleIndex s)) rules = rest).
  { rewrite <-Nat.add_1_r, <-drop_drop, Hd. done. }
  assert (Hlast : (w_futures s ++ [fut]) !! length (w_futures s) = Some fut).
  { rewrite lookup_app_r by lia. by rewrite Nat.sub_diag. }
  assert (Hev : Forall (fun r => falls_back r = false) rest).
  { apply Hfb. unfold evaluates. by rewrite Ha. }
  assert (Hfree : tag <> "" -> w_named s !! tag = None).
  { intros Hne. apply (si_fresh _ _ _ _ _ _ Hs). rewrite Hd. unfold eval_tags. simpl.
    rewrite Ha, bool_decide_false by done. left. }
  apply (simulates_next _ _ _ _ _ _ Hd) in Hs. destruct Hs. simpl in *.
  assert (Hkeep : forall f x, (w_futures s ++ [fut]) !! f = Some x -> f_settled x = true -> w_futures s !! f = Some x).
  { intros f x [?|[-> ->]]%launch_lookup Hset; done. }
  case_bool_decide as Htag; constructor; simpl; try done.
  - exists fut. done.
  - intros tag'. by apply answered_app.
  - intros f x [Hx|[-> ->]]%launch_lookup Hx'; [by apply si_unique0|done].
  - intros f x Hx Hx' Hset. by eapply si_settled0; [apply Hkeep|..].
  - intros tag' Hsome. destruct (si_recorded0 tag' Hsome) as (f & x & Hx & ?). exists f, x.
    split; [|done]. by rewrite lookup_app_l by by eapply lookup_lt_Some.
  - right. by rewrite Hrest.
  - by apply answered_app.
  - intros tag'. destruct (decide (tag = tag')) as [<-|Hne].
    + rewrite !lookup_insert_eq. exists fut. done.
    + rewrite !lookup_insert_ne by done. by apply answered_app.
  - intros f x [Hx|[-> ->]]%launch_lookup Hx'.
    + rewrite lookup_insert_ne; [by apply si_unique0|]. intros ->.
      pose proof (si_unique0 _ _ Hx Hx') as H1. rewrite Hfree in H1 by done. done.
    + by rewrite lookup_insert_eq.
  - intros f x Hx Hx' Hset. by eapply si_settled0; [apply Hkeep|..].
  - intros tag' Hsome. destruct (si_recorded0 tag' Hsome) as (f & x & Hx & ?). exists f, x.
    split; [|done]. by rewrite lookup_app_l by by eapply lookup_lt_Some.
  - intros tag' Ht'. rewrite lookup_insert_ne; [by apply si_fresh0|]. intros ->.
    unfold eval_tags in Hnd. simpl in Hnd. rewrite Ha, bool_decide_false in Hnd by done.
    apply list.NoDup_cons in Hnd as [Hn _]. apply Hn. by rewrite <-Hrest.
  - right. by rewrite Hrest.
Qed.

(** What a step at a rule may lead to; [target] is the result of the reference
    from this rule on, [next] the one from the next rule on. *)
Definition step_ok (s : dnsRuleWalkState) (rest : list (Rule RuleAction)) (o : QueryOptions)
    (anonymous : option Answer) (named : gmap string Answer) (target : Res exchangeWithRulesResult)
    (st : option WalkEnd * dnsRuleWalkState) : Prop :=
  w_ruleIndex (snd st) = w_ruleIndex s /\ w_time (snd st) = w_time s /\
  match fst st with
  | None => exists o' a' n', simulates rules m (set_index (snd st) (S (w_ruleIndex (snd st)))) o' a' n' /\
              target = sequential rest m o' a' n'
  | Some (Done r) => target = r
  | Some (Await f) => simulates rules m (snd st) o anonymous named /\ ready sched (w_time (snd st)) f = false
  | Some Drain => False
  | Some (Pending p) =>
      p_future p = None /\ simulates rules m (snd st) o anonymous named /\
      target = finish (p_transport p) (p_options p) (p_fallback p) (sequential rest m o anonymous named) /\
      (p_fallback p = true -> w_futures (snd st) = [])
  end.

Lemma walk_action_ok s o anonymous named rule rest :
  drop (w_ruleIndex s) rules = rule :: rest ->
  simulates rules m s o anonymous named -> synced s rule ->
  Spec env rule (response_metadata m (anonymous ≫= answer_response) (answer_response <$> named)) = true ->
  step_ok s rest o anonymous named (sequential (rule :: rest) m o anonymous named)
    (walk_action Transport Exchange defaultDomainStrategy (fun t => t) sched message allowFakeIP rule s).
Proof.
  intros Hd Hs Hsync Hspec. cbn [sequential]. rewrite Hspec.
  pose proof (wellformed_drop rules (w_ruleIndex s) Hwf) as Hw. rewrite Hd in Hw.
  apply wellformed_cons in Hw as (_ & [_ Hne] & Hresp & _).
  pose proof (simulates_next _ _ _ _ _ _ Hd Hs) as Hnext.
  assert (Hcont : step_ok s rest o anonymous named (sequential rest m o anonymous named) (None, s)).
  { unfold step_ok. cbn [fst snd]. eauto 8. }
  unfold walk_action. rewrite (si_armed _ _ _ _ _ _ Hs), (si_terminal _ _ _ _ _ _ Hs).
  cbn [negb bool_decide]. rewrite (bool_decide_true ([] = [])) by done. cbn [negb andb].
  rewrite (si_options _ _ _ _ _ _ Hs).
  unfold respond_bound in Hresp.
  destruct (Rule_action rule) as [[]|] eqn:Ha; try exact Hcont.
  - destruct (reject_result message r) as [res|]; [|exact Hcont]. unfold step_ok. done.
  - destruct (resolveDNSRoute _ _ _ _) as [| |t o']; try exact Hcont.
    unfold step_ok. cbn [fst snd p_future p_transport p_options p_fallback]. split; [done|]. split; [done|].
    split; [done|]. split; [done|]. split; [done|]. intros ->.
    destruct (si_fallback _ _ _ _ _ _ Hs) as [?|Hf]; [done|]. rewrite Hd in Hf. inversion Hf as [|? ? Hfr]; subst.
    unfold falls_back in Hfr. rewrite Ha in Hfr. done.
  - rewrite ?andb_false_r. destruct (Transport server) as [t|] eqn:Ht.
    + rewrite ?andb_false_r. pose proof (simulates_launch s o anonymous named rule rest server tag speculative o0 t Hd Ha Hs) as Hl.
      rewrite (si_options _ _ _ _ _ _ Hs) in Hl. cbv zeta in Hl.
      destruct (launchDNSEvaluate _ _ _ _ _ _ _) as [f s1] eqn:El.
      assert (Hidx : w_ruleIndex s1 = w_ruleIndex s /\ w_time s1 = w_time s).
      { unfold launchDNSEvaluate in El. injection El as <- <-. done. }
      unfold step_ok. cbn [fst snd]. case_bool_decide as Htag.
      * split; [apply Hidx|]. split; [apply Hidx|]. do 3 eexists. split; [exact Hl|done].
      * split; [apply Hidx|]. split; [apply Hidx|]. do 3 eexists. split; [exact Hl|done].
    + case_bool_decide as Htag; [|exact Hcont]. unfold step_ok. cbn [fst snd]. split; [done|]. split; [done|].
      exists o, None, named. split; [|done]. destruct Hnext. by constructor.
  - destruct (Hresp eq_refl) as [[Htag Hin]|[Htag Hb]].
    + rewrite bool_decide_false by done. cbn [negb]. unfold step_ok. cbn [fst snd].
      destruct (named_view s o anonymous named rule _ Hs Hsync Hin Htag) as [-> Htr].
      split; [done|]. split; [done|]. f_equal. destruct (named !! MatchResponseTag rule) as [a|] eqn:En; [|done].
      rewrite Htr by eauto. done.
    + rewrite bool_decide_true by done. cbn [negb].
      assert (Hready : forall s1, s1 = s -> (forall f, w_anonymous s = Some f -> ready sched (w_time s) f = true) ->
                step_ok s rest o anonymous named (Ok (respond_result (anonymous ≫= answer_response) (fst <$> anonymous)))
                  (let '(r, s2) := anonymousResponse (fun t => t) sched s1 in
                   (Some (Done (Ok (respond_result r (w_anonymous s2 ≫= future_transport s2)))), s2))).
      { intros s1 -> Hr. destruct (anonymous_view s o anonymous named Hs Hr) as [-> ->]. unfold step_ok. done. }
      destruct (hasBindings rule) eqn:Hbind.
      * apply Hready; [done|]. destruct Hb as [Hb|]; [|done]. by apply Hsync.
      * rewrite first_pending_atomic. destruct (List.find _ _) as [f|] eqn:Hfind.
        -- apply find_some in Hfind as [_ Hf%negb_true_iff]. unfold step_ok. done.
        -- apply Hready; [done|]. intros f Hf. rewrite Hf in Hfind. simpl in Hfind.
           by destruct (ready sched (w_time s) f).
  - unfold step_ok. cbn [fst snd]. split; [done|]. split; [done|]. eexists _, _, _. split; [|done].
    destruct Hnext. by constructor.
  - unfold step_ok. done.
Qed.

Lemma walk_match_ok s o anonymous named rule rest :
  drop (w_ruleIndex s) rules = rule :: rest ->
  simulates rules m s o anonymous named -> synced s rule ->
  step_ok s rest o anonymous named (sequential (rule :: rest) m o anonymous named)
    (walk_match env Transport Exchange defaultDomainStrategy (fun t => t) sched message allowFakeIP rule s).
Proof.
  intros Hd Hs Hsync. unfold walk_match.
  pose proof (wellformed_drop rules (w_ruleIndex s) Hwf) as Hw. rewrite Hd in Hw.
  apply wellformed_cons in Hw as (_ & [Hreads Hne] & _).
  assert (exists r, anonymousResponse (fun t => t) sched s = (r, s) /\
            (MatchResponseAnonymous rule = true -> r = anonymous ≫= answer_response)) as (r & -> & Hr).
  { destruct (MatchResponseAnonymous rule) eqn:E.
    - destruct (anonymous_view s o anonymous named Hs) as [-> _]; [by apply Hsync|]. eexists. by split.
    - destruct (anonymous_view_any s) as [r ->]. eexists. by split. }
  destruct (match_ok s o anonymous named rule r Hs Hsync Hreads Hne Hr) as (s' & -> & Hs' & Hsync' & Hi & Ht).
  destruct (Spec env rule _) eqn:Hspec.
  - rewrite <-Hi in Hd. pose proof (walk_action_ok s' o anonymous named rule rest Hd Hs' Hsync' Hspec) as H.
    unfold step_ok in *. by rewrite <-Hi, <-Ht.
  - cbn [sequential]. rewrite Hspec. unfold step_ok. cbn [fst snd]. split; [done|]. split; [done|].
    exists o, anonymous, named. split; [|done]. rewrite <-Hi in Hd. by eapply simulates_next.
Qed.

Lemma walk_rule_ok s o anonymous named rule rest :
  drop (w_ruleIndex s) rules = rule :: rest ->
  simulates rules m s o anonymous named ->
  step_ok s rest o anonymous named (sequential (rule :: rest) m o anonymous named)
    (walk_rule env Transport Exchange defaultDomainStrategy (fun t => t) sched message allowFakeIP rule s).
Proof.
  intros Hd Hs. unfold walk_rule. destruct (hasBindings rule) eqn:Hb.
  2: { apply walk_match_ok; [done|done|]. unfold hasBindings in Hb. apply orb_false_iff in Hb as [Hb1 Hb2].
       apply negb_false_iff, bool_decide_eq_true in Hb1. split; [congruence|]. rewrite Hb1. set_solver. }
  destruct (settle_ok s o anonymous named Hs) as (Hs1 & (Ht & Hi & Hn & Han & Hl) & Hset). cbv zeta in *.
  revert Hs1 Ht Hi Hn Han Hl Hset. generalize (settleDNSFutures (fun t => t) sched s). intros s1 Hs1 Ht Hi Hn Han Hl Hset.
  assert (Hgoal : forall st, step_ok s1 rest o anonymous named (sequential (rule :: rest) m o anonymous named) st ->
            step_ok s rest o anonymous named (sequential (rule :: rest) m o anonymous named) st).
  { intros st. unfold step_ok. by rewrite Ht, Hi. }
  apply Hgoal. rewrite <-Hi in Hd. clear Hgoal Hs s Ht Hi Hn Han Hl.
  pose proof (wellformed_drop rules (w_ruleIndex s1) Hwf) as Hw. rewrite Hd in Hw.
  apply wellformed_cons in Hw as (-> & _).
  assert (Hawait : forall f l, List.find (fun f => negb (ready sched (w_time s1) f)) l = Some f ->
            step_ok s1 rest o anonymous named (sequential (rule :: rest) m o anonymous named) (Some (Await f), s1)).
  { intros f l [_ Hf%negb_true_iff]%find_some. unfold step_ok. done. }
  rewrite first_pending_atomic. destruct (List.find _ (bound_named s1 rule)) as [f|] eqn:Hf1; [by eapply Hawait|].
  rewrite first_pending_atomic. destruct (List.find _ (bound_anonymous s1 rule)) as [f|] eqn:Hf2; [by eapply Hawait|].
  apply walk_match_ok; [done|done|]. split.
  - intros Hma f Hf. unfold bound_anonymous in Hf2. rewrite Hma, Hf in Hf2. simpl in Hf2.
    by destruct (ready sched (w_time s1) f).
  - intros tag f future Htag Hf Hfut. eapply Hset; [exact Hfut|].
    assert (Hin : In f (bound_named s1 rule)).
    { apply list_elem_of_In. unfold bound_named. apply list_elem_of_omap. eauto. }
    pose proof (List.find_none _ _ Hf1 f Hin) as Hr. by apply negb_false_iff in Hr.
Qed.

Lemma finish_false t o x y : finish t o false x = finish t o false y.
Proof. unfold finish. by destruct (result_of_exchange _ _). Qed.

(** A walk from the current rule on. *)
Lemma walk_rules_ok rest : forall s o anonymous named e s',
  drop (w_ruleIndex s) rules = rest -> simulates rules m s o anonymous named ->
  walk_rules env Transport Default Exchange defaultDomainStrategy (fun t => t) sched message allowFakeIP rest s = (e, s') ->
  w_time s' = w_time s /\ (w_ruleIndex s <= w_ruleIndex s')%nat /\
  match e with
  | Done r => sequential rest m o anonymous named = r
  | Await f => exists o' a' n', simulates rules m s' o' a' n' /\ ready sched (w_time s') f = false /\
                 sequential rest m o anonymous named = sequential (drop (w_ruleIndex s') rules) m o' a' n'
  | Drain => False
  | Pending p =>
      p_future p = None /\ exists o' a' n', simulates rules m s' o' a' n' /\
      sequential rest m o anonymous named =
        finish (p_transport p) (p_options p) (p_fallback p) (sequential (drop (S (w_ruleIndex s')) rules) m o' a' n') /\
      (p_fallback p = true -> w_futures s' = [] /\ (w_ruleIndex s' < length rules)%nat)
  end.
Proof.
  induction rest as [|rule rest IH]; intros s o anonymous named e s' Hd Hs; cbn [walk_rules].
  { rewrite (si_armed _ _ _ _ _ _ Hs), bool_decide_true by done. cbn [negb]. intros [= <- <-].
    split; [done|]. split; [done|]. cbn. split; [done|]. exists o, anonymous, named. split; [done|].
    rewrite (si_options _ _ _ _ _ _ Hs). split; [apply finish_false|done]. }
  pose proof (walk_rule_ok s o anonymous named rule rest Hd Hs) as Hstep.
  assert (Hlt : (w_ruleIndex s < length rules)%nat).
  { assert (length (drop (w_ruleIndex s) rules) <> 0%nat) as H by (rewrite Hd; done).
    rewrite length_drop in H. lia. }
  assert (Hrest : drop (S (w_ruleIndex s)) rules = rest).
  { rewrite <-Nat.add_1_r, <-drop_drop, Hd. done. }
  destruct (walk_rule _ _ _ _ _ _ _ _ rule s) as [[e1|] s1]; destruct Hstep as (Hi & Ht & Hstep); cbn [fst snd] in *.
  - intros [= <- <-]. split; [done|]. split; [lia|]. destruct e1 as [r|f| |p]; try done.
    + destruct Hstep as [Hs1 Hf]. exists o, anonymous, named. rewrite Hi, Hd. done.
    + destruct Hstep as (Hp & Hs1 & Htarget & Hfb). split; [done|]. exists o, anonymous, named.
      rewrite Hi, Hrest. split; [done|]. split; [done|]. intros Hf. split; [by apply Hfb|lia].
  - destruct Hstep as (o' & a' & n' & Hs1 & Htarget). intros Hw.
    assert (drop (S (w_ruleIndex s1)) rules = rest) as Hr1 by by rewrite Hi.
    destruct (IH (set_index s1 (S (w_ruleIndex s1))) o' a' n' e s' Hr1 Hs1 Hw) as (Ht' & Hi' & H). simpl in *.
    split; [congruence|]. split; [lia|]. rewrite Htarget. exact H.
Qed.

Abbreviation resume := (resumeExchangeWithRules env Transport Default Exchange defaultDomainStrategy (fun t => t) sched
                          message allowFakeIP).

(** What a suspension stands for, and how far it is from the end. *)
Definition suspended (s : dnsRuleWalkState) (o : QueryOptions) (a : option Answer) (n : gmap string Answer)
    (susp : option WalkEnd) (target : Res exchangeWithRulesResult) : Prop :=
  match susp with
  | None | Some (Await _) => target = sequential (drop (w_ruleIndex s) rules) m o a n
  | Some (Pending p) =>
      p_future p = None /\
      target = finish (p_transport p) (p_options p) (p_fallback p) (sequential (drop (S (w_ruleIndex s)) rules) m o a n) /\
      (p_fallback p = true -> w_futures s = [] /\ (w_ruleIndex s < length rules)%nat)
  | _ => False
  end.
Definition distance (s : dnsRuleWalkState) (susp : option WalkEnd) : nat :=
  2 * (T - w_time s) + 2 * (length rules - w_ruleIndex s) +
  match susp with
  | Some (Await f) => if ready sched (w_time s) f then 1 else 0
  | Some (Pending _) => 0
  | _ => 1
  end.

Lemma before_T t f : ready sched t f = false -> (t < T)%nat.
Proof.
  intros Hr. destruct (decide (t < T)%nat) as [|Hge]; [done|]. assert (T <= t)%nat as Hle by lia.
  rewrite (gs_stays _ _ Hsched T t f Hle (gs_all _ _ Hsched f)) in Hr. done.
Qed.

Lemma walk_then N s o a n target :
  (forall s susp o a n target, (distance s susp < N)%nat -> simulates rules m s o a n ->
     suspended s o a n susp target -> exists fuel, resume fuel rules s susp = Some target) ->
  (2 * (T - w_time s) + 2 * (length rules - w_ruleIndex s) + 1 <= N)%nat ->
  simulates rules m s o a n -> target = sequential (drop (w_ruleIndex s) rules) m o a n ->
  exists fuel,
    (let '(e, s) := walkDNSRules env Transport Default Exchange defaultDomainStrategy (fun t => t) sched message
                      allowFakeIP rules s in
     match e with Done r => Some r | e => resume fuel rules s (Some e) end) = Some target.
Proof.
  intros IH HN Hs ->. unfold walkDNSRules.
  destruct (walk_rules _ _ _ _ _ _ _ _ _ _ s) as [e s'] eqn:Hw.
  destruct (walk_rules_ok _ s o a n e s' eq_refl Hs Hw) as (Ht & Hi & He).
  destruct e as [r|f| |p]; [by exists 0%nat; rewrite He| | |].
  - destruct He as (o' & a' & n' & Hs' & Hr & ->). apply (IH s' (Some (Await f)) o' a' n'); [|done|done].
    unfold distance. rewrite Hr. lia.
  - done.
  - destruct He as (Hp & o' & a' & n' & Hs' & -> & Hfb). apply (IH s' (Some (Pending p)) o' a' n'); [|done|done].
    unfold distance. lia.
Qed.

Lemma resume_ok N : forall s susp o a n target,
  (distance s susp < N)%nat -> simulates rules m s o a n -> suspended s o a n susp target ->
  exists fuel, resume fuel rules s susp = Some target.
Proof.
  induction N as [|N IH]; intros s susp o a n target HN Hs Hsusp; [lia|].
  destruct (settle_ok s o a n Hs) as (Hs1 & (Ht & Hi & _ & _ & Hl) & _). cbv zeta in *.
  assert (Hstep : forall fuel, resume (S fuel) rules s susp =
            let s := settleDNSFutures (fun t => t) sched s in
            match susp with
            | Some (Done r) => Some r
            | Some (Pending p) =>
                let '(r, s) := finishPendingExchange Exchange defaultDomainStrategy sched p s in
                match r with
                | Ok result => if p_fallback p && ctx_alive sched (w_time s) && exchange_failed result
                               then resume fuel rules (set_index s (S (w_ruleIndex s))) None else Some (Ok result)
                | r => Some r
                end
            | _ =>
                let '(wait, s) := must_wait (fun t => t) sched susp s in
                if wait then
                  match next_wake sched (w_time s) with
                  | None => Some (Ok (result_err canceled))
                  | Some t => resume fuel rules (set_time s t) susp
                  end
                else
                  let '(e, s) := walkDNSRules env Transport Default Exchange defaultDomainStrategy (fun t => t) sched
                                   message allowFakeIP rules s in
                  match e with Done r => Some r | e => resume fuel rules s (Some e) end
            end).
  { intros fuel. cbn [resumeExchangeWithRules]. unfold sweepArmedDNSRules.
    pose proof (si_armed _ _ _ _ _ _ Hs1) as Harm. rewrite Harm. cbn [sweep_armed].
    assert (set_armed (settleDNSFutures (fun t => t) sched s) [] = settleDNSFutures (fun t => t) sched s) as ->;
      [|done]. revert Harm. generalize (settleDNSFutures (fun t => t) sched s). intros []; simpl. by intros ->. }
  cbv zeta in Hstep. revert Hs1 Ht Hi Hl Hstep. generalize (settleDNSFutures (fun t => t) sched s).
  intros s1 Hs1 Ht Hi Hl Hstep.
  assert (HN1 : (distance s1 susp < S N)%nat) by (unfold distance in *; by rewrite Ht, Hi).
  assert (Hsusp1 : suspended s1 o a n susp target).
  { unfold suspended in *. rewrite Hi. destruct susp as [[| | |p]|]; try done.
    destruct Hsusp as (? & ? & Hf). split; [done|]. split; [done|]. intros E. destruct (Hf E) as [Hnil ?].
    split; [|done]. rewrite Hnil in Hl. by destruct (w_futures s1). }
  clear Hs Hsusp HN Ht Hi Hl.
  assert (Hwalk : target = sequential (drop (w_ruleIndex s1) rules) m o a n ->
            (2 * (T - w_time s1) + 2 * (length rules - w_ruleIndex s1) + 1 <= N)%nat -> exists fuel,
            (let '(e, s) := walkDNSRules env Transport Default Exchange defaultDomainStrategy (fun t => t) sched message
                      allowFakeIP rules s1 in
             match e with Done r => Some r | e => resume fuel rules s (Some e) end) = Some target).
  { intros Htarget HN. by eapply (walk_then N). }
  destruct susp as [[r|f| |p]|]; try done.
  - assert (Hmw : must_wait (fun t => t) sched (Some (Await f)) s1 = (negb (ready sched (w_time s1) f), s1)).
    { unfold must_wait. by rewrite resolved_atomic. }
    destruct (ready sched (w_time s1) f) eqn:Hr.
    + destruct Hwalk as [fuel Hf]; [done|unfold distance in HN1; rewrite Hr in HN1; lia|].
      exists (S fuel). rewrite Hstep, Hmw. exact Hf.
    + destruct (gs_wakes _ _ Hsched (w_time s1)) as (t & Hn & Hlt). pose proof (before_T _ _ Hr) as HT.
      destruct (IH (set_time s1 t) (Some (Await f)) o a n target) as [fuel Hf].
      * unfold distance in *. rewrite Hr in HN1. simpl. destruct (ready sched t f); lia.
      * destruct Hs1. by constructor.
      * done.
      * exists (S fuel). rewrite Hstep, Hmw. cbn [negb]. rewrite Hn. exact Hf.
  - destruct Hsusp1 as (Hp & -> & Hfb). unfold finishPendingExchange in Hstep. rewrite Hp in Hstep.
    set (s2 := cancel_futures sched None s1) in Hstep. unfold finish.
    destruct (result_of_exchange (p_transport p) (exchange (p_transport p) (p_options p))) as [result|e|msg].
    2,3: exists 1%nat; by rewrite Hstep.
    rewrite (gs_alive _ _ Hsched), andb_true_r in Hstep.
    destruct (p_fallback p && exchange_failed result) eqn:Efb; [|by exists 1%nat; rewrite Hstep].
    apply andb_true_iff in Efb as [Efb _]. destruct (Hfb Efb) as [Hnil Hlt].
    assert (s2 = s1) as Heq.
    { unfold s2, cancel_futures. rewrite Hnil. cbn. revert Hnil. by destruct s1; simpl; intros ->. }
    rewrite Heq in Hstep. clearbody s2.
    destruct (drop (w_ruleIndex s1) rules) as [|rule rest] eqn:Hd.
    { apply (f_equal length) in Hd. rewrite length_drop in Hd. simpl in Hd. lia. }
    destruct (IH (set_index s1 (S (w_ruleIndex s1))) None o a n
                (sequential (drop (S (w_ruleIndex s1)) rules) m o a n)) as [fuel Hf].
    * unfold distance in *. simpl. lia.
    * by eapply simulates_next.
    * done.
    * exists (S fuel). rewrite Hstep. exact Hf.
  - destruct Hwalk as [fuel Hf]; [done|unfold distance in HN1; lia|].
    exists (S fuel). rewrite Hstep. cbn [must_wait]. exact Hf.
Qed.

End Simulation.

(** For well-formed rules the walk with its concurrent evaluations ends, with the
    result of asking the servers one after the other: whenever the answers
    arrive (while the walk waits), in whatever order, with or without
    [speculative]. *)
Lemma walk_sequential rules m options T :
  wellformed rules -> good_schedule sched T -> full m ->
  exists fuel, exchangeWithRules env Transport Default Exchange defaultDomainStrategy (fun t => t) sched message
                 allowFakeIP fuel rules m options
               = Some (sequential rules m options None ∅).
Proof.
  intros Hwf Hsched Hm. unfold exchangeWithRules.
  apply (walk_then rules m T Hwf Hsched
           (2 * (T - 0) + 2 * (length rules - 0) + 1) (start_state m options) options None ∅); [|done| |done].
  - intros s susp o a n target _ Hs Hsusp. eapply (resume_ok rules m T Hwf Hsched); [apply Nat.lt_succ_diag_r|done|done].
  - constructor; try done.
    + intros tag. cbn. rewrite lookup_empty. by intros [].
    + by left.
Qed.

End Sequential.
