(* ===== verification/DnsMode.v ===== *)
(** * Checking and building the DNS rules

    The second half of [dns/router.go]: which matching mode the rules need, the
    checks on rules that match on responses, and [buildRules].  In legacy mode
    address fields are matched against the response of the server a rule names;
    otherwise responses come from [evaluate] actions, anonymous or by tag. *)

From stdpp Require Import base numbers list strings gmap option.
From Stdlib Require Import ZArith Lia.
From S2P Require Import Prelude NetAddr Metadata RuleItems RuleAction RuleCore RuleBuild RuleDispatch ManagerCore.

Local Open Scope Z_scope.

(** [MessageWithLink] of the deprecation notes *)
Definition OptionLegacyDNSAddressFilter : string :=
  "Legacy Address Filter Fields in DNS rules is deprecated in sing-box 1.14.0 and will be removed in sing-box 1.16.0, checkout documentation for migration: https://sing-box.sagernet.org/migration/#migrate-address-filter-fields-to-response-matching".
Definition OptionLegacyDNSRuleStrategy : string :=
  "Legacy `strategy` DNS rule action option is deprecated in sing-box 1.14.0 and will be removed in sing-box 1.16.0, checkout documentation for migration: https://sing-box.sagernet.org/migration/#migrate-dns-rule-action-strategy-to-rule-items".

(** [dnsRuleModeFlags] *)
Record dnsRuleModeFlags := mkFlags { fl_disabled : bool; fl_needed : bool; fl_neededFromStrategy : bool }.
Definition flags_zero : dnsRuleModeFlags := mkFlags false false false.
Definition flags_merge (f other : dnsRuleModeFlags) : dnsRuleModeFlags :=
  mkFlags (fl_disabled f || fl_disabled other) (fl_needed f || fl_needed other)
    (fl_neededFromStrategy f || fl_neededFromStrategy other).

(** [dnsRuleResponseUse] *)
Record dnsRuleResponseUse := mkUse { use_needsAnonymous : bool; use_referencedTags : list string }.

Section Mode.
Context {SH : SliceHelpers} {GS : GoStd} {TP : ThirdParty} {DF : DialerFactory}.

(** ** Conditions on one rule *)

Definition defaultRuleNeedsLegacyDNSModeFromAddressFilter (rule : DNSRuleOptions) : bool :=
  dr_RuleSetIPCIDRAcceptEmpty rule ||
  negb (IsEnabled (dr_MatchResponse rule)) &&
  (dr_IPAcceptAny rule || has_elems (o_IPCIDR (dr_common rule)) || o_IPIsPrivate (dr_common rule)).

Definition hasResponseMatchFields (rule : DNSRuleOptions) : bool :=
  negb (is_nil (dr_ResponseRcode rule)) || has_elems (dr_ResponseAnswer rule) ||
  has_elems (dr_ResponseNs rule) || has_elems (dr_ResponseExtra rule).

Definition defaultRuleDisablesLegacyDNSMode (rule : DNSRuleOptions) (action : DNSRuleActionOptions) : bool :=
  IsEnabled (dr_MatchResponse rule) || hasResponseMatchFields rule ||
  bool_decide (da_Action action = "evaluate") || bool_decide (da_Action action = "respond") ||
  (0 <? o_IPVersion (dr_common rule)) || has_elems (dr_QueryType rule).

Definition dnsRuleActionDisablesLegacyDNSMode (action : DNSRuleActionOptions) : bool :=
  da_Race action ||
  (if bool_decide (da_Action action = "") || bool_decide (da_Action action = "route")
   then d_DisableOptimisticCache (da_RouteOptions action) || da_RouteSpeculative action
   else if bool_decide (da_Action action = "evaluate")
   then d_DisableOptimisticCache (da_EvaluateOptions action) || da_EvaluateSpeculative action
   else if bool_decide (da_Action action = "route-options")
   then d_DisableOptimisticCache (da_RouteOptionsOptions action)
   else false).

Definition dnsRuleActionHasStrategy (action : DNSRuleActionOptions) : bool :=
  if bool_decide (da_Action action = "") || bool_decide (da_Action action = "route")
  then negb (d_Strategy (da_RouteOptions action) =? 0)
  else if bool_decide (da_Action action = "evaluate")
  then negb (d_Strategy (da_EvaluateOptions action) =? 0)
  else if bool_decide (da_Action action = "route-options")
  then negb (d_Strategy (da_RouteOptionsOptions action) =? 0)
  else false.

(** The action options of a rule; none for an unknown type *)
Definition rule_options_action (rule : DNSRule) : option DNSRuleActionOptions :=
  match rule with
  | DNSDefault _ a | DNSLogical _ _ _ a => Some a
  | DNSUnknown _ => None
  end.
Definition dnsRuleActionType (rule : DNSRule) : string :=
  match rule_options_action rule with
  | Some a => if bool_decide (da_Action a = "") then "route" else da_Action a
  | None => ""
  end.
Definition dnsRuleActionServer (rule : DNSRule) : string :=
  match rule_options_action rule with
  | Some a => if bool_decide (dnsRuleActionType rule = "evaluate") then da_EvaluateServer a else da_RouteServer a
  | None => ""
  end.
Definition dnsRuleActionEvaluateTag (rule : DNSRule) : string :=
  match rule_options_action rule with Some a => da_EvaluateTag a | None => "" end.
Definition dnsRuleActionSpeculative (rule : DNSRule) : bool :=
  match rule_options_action rule with
  | Some a => if bool_decide (dnsRuleActionType rule = "evaluate") then da_EvaluateSpeculative a
              else da_RouteSpeculative a
  | None => false
  end.
Definition dnsRuleRace (rule : DNSRule) : bool :=
  match rule_options_action rule with Some a => da_Race a | None => false end.

(** ** The mode *)

(** The rule-sets of the router, none without a router service, and the metadata
    that override them. *)
Context (router : option (string -> option RuleSetMetadata)) (overrides : gmap string RuleSetMetadata).

(** [lookupDNSRuleSetMetadata]; a method of a nil router panics. *)
Definition lookupDNSRuleSetMetadata (tag : string) : Res RuleSetMetadata :=
  match overrides !! tag with
  | Some metadata => Ok metadata
  | None =>
      match router with
      | None => Panic "invalid memory address or nil pointer dereference"
      | Some RuleSet =>
          match RuleSet tag with
          | None => Err (E_New [AStr "rule-set not found: "; AStr tag])
          | Some metadata => Ok metadata
          end
      end
  end.

(** The loop over the rule-sets of a rule. *)
Fixpoint rule_set_flags (matchSource : bool) (tags : list string) (flags : dnsRuleModeFlags)
  : Res dnsRuleModeFlags :=
  match tags with
  | [] => Ok flags
  | tag :: rest =>
      metadata ← lookupDNSRuleSetMetadata tag;
      rule_set_flags matchSource rest
        (mkFlags (fl_disabled flags || ContainsDNSQueryTypeRule metadata)
           (fl_needed flags || negb matchSource && ContainsIPCIDRRule metadata) (fl_neededFromStrategy flags))
  end.

(** [dnsRuleModeRequirementsInDefaultRule] *)
Definition dnsRuleModeRequirementsInDefaultRule (rule : DNSRuleOptions) (action : DNSRuleActionOptions)
  : Res dnsRuleModeFlags :=
  let neededFromStrategy := dnsRuleActionHasStrategy action in
  let flags := mkFlags (defaultRuleDisablesLegacyDNSMode rule action || dnsRuleActionDisablesLegacyDNSMode action)
                 (defaultRuleNeedsLegacyDNSModeFromAddressFilter rule || neededFromStrategy) neededFromStrategy in
  if negb (has_elems (o_RuleSet (dr_common rule))) then Ok flags
  else if is_nil router then Err (E_New [AStr "router service not found"])
  else rule_set_flags (o_RuleSetIPCIDRMatchSource (dr_common rule)) (elems (o_RuleSet (dr_common rule))) flags.

(** A loop that merges the flags of rules, with the context of an error. *)
Fixpoint merge_flags (f : DNSRule -> Res dnsRuleModeFlags) (ctx : Z -> list earg) (i : Z) (rules : list DNSRule)
    (flags : dnsRuleModeFlags) : Res dnsRuleModeFlags :=
  match rules with
  | [] => Ok flags
  | rule :: rest =>
      other ← wrap_err (f rule) (ctx i); merge_flags f ctx (i + 1) rest (flags_merge flags other)
  end.

(** [dnsRuleModeRequirementsInRule] and [dnsRuleModeRequirements] *)
Fixpoint dnsRuleModeRequirementsInRule (rule : DNSRule) : Res dnsRuleModeFlags :=
  match rule with
  | DNSDefault o a => dnsRuleModeRequirementsInDefaultRule o a
  | DNSLogical mode rules inv a =>
      let strategy := dnsRuleActionHasStrategy a in
      let disabled := bool_decide (dnsRuleActionType (DNSLogical mode rules inv a) = "evaluate") ||
                      bool_decide (dnsRuleActionType (DNSLogical mode rules inv a) = "respond") ||
                      dnsRuleActionDisablesLegacyDNSMode a in
      merge_flags dnsRuleModeRequirementsInRule sub_rule 0 rules (mkFlags disabled strategy strategy)
  | DNSUnknown _ => Ok flags_zero
  end.
Definition dns_rule_ctx (i : Z) : list earg := [AStr "dns rule["; AInt i; AStr "]"].
Definition dnsRuleModeRequirements (rules : list DNSRule) : Res dnsRuleModeFlags :=
  merge_flags dnsRuleModeRequirementsInRule dns_rule_ctx 0 rules flags_zero.

(** [resolveLegacyDNSMode] *)
Definition resolveLegacyDNSMode (rules : list DNSRule) : Res (bool * dnsRuleModeFlags) :=
  flags ← dnsRuleModeRequirements rules;
  if fl_disabled flags && fl_neededFromStrategy flags then Err (E_New [AStr OptionLegacyDNSRuleStrategy])
  else if fl_disabled flags then Ok (false, flags)
  else Ok (fl_needed flags, flags).

(** ** Checks without legacy mode *)

(** The loop over the rule-sets of a rule that does not match on a response. *)
Fixpoint check_rule_sets (tags : list string) : Res unit :=
  match tags with
  | [] => Ok tt
  | tag :: rest =>
      metadata ← lookupDNSRuleSetMetadata tag;
      if ContainsIPCIDRRule metadata && negb (ContainsNonIPCIDRRule metadata)
      then Err (E_New [AStr OptionLegacyDNSAddressFilter])
      else check_rule_sets rest
  end.

(** [validateLegacyDNSModeDisabledDefaultRule] *)
Definition response_fields_error : error := E_New [AStr
  "Response Match Fields (ip_cidr, ip_is_private, ip_accept_any, response_rcode, response_answer, response_ns, response_extra) require match_response to be enabled"].
Definition validateLegacyDNSModeDisabledDefaultRule (rule : DNSRuleOptions) (action : DNSRuleActionOptions)
  : Res dnsRuleResponseUse :=
  let enabled := IsEnabled (dr_MatchResponse rule) in
  let tag := ResponseTag (dr_MatchResponse rule) in
  if (hasResponseMatchFields rule || has_elems (o_IPCIDR (dr_common rule)) || o_IPIsPrivate (dr_common rule) ||
      dr_IPAcceptAny rule) && negb enabled
  then Err response_fields_error
  else
    _ ← (if negb enabled && has_elems (o_RuleSet (dr_common rule))
         then check_rule_sets (elems (o_RuleSet (dr_common rule))) else Ok tt);
    if dr_RuleSetIPCIDRAcceptEmpty rule then Err (E_New [AStr OptionRuleSetIPCIDRAcceptEmpty])
    else
      Ok (mkUse ((enabled && bool_decide (tag = "")) ||
                 (bool_decide (da_Action action = "respond") && bool_decide (tag = "")))
            (if enabled && negb (bool_decide (tag = "")) then [tag] else [])).

(** [validateLegacyDNSModeDisabledRuleTree] *)
Fixpoint merge_uses (f : DNSRule -> Res dnsRuleResponseUse) (i : Z) (rules : list DNSRule) (use : dnsRuleResponseUse)
  : Res dnsRuleResponseUse :=
  match rules with
  | [] => Ok use
  | rule :: rest =>
      sub ← wrap_err (f rule) (sub_rule i);
      merge_uses f (i + 1) rest (mkUse (use_needsAnonymous use || use_needsAnonymous sub)
                                  (use_referencedTags use ++ use_referencedTags sub))
  end.
Fixpoint validateLegacyDNSModeDisabledRuleTree (rule : DNSRule) : Res dnsRuleResponseUse :=
  match rule with
  | DNSDefault o a => validateLegacyDNSModeDisabledDefaultRule o a
  | DNSLogical _ rules _ a =>
      use ← merge_uses validateLegacyDNSModeDisabledRuleTree 0 rules (mkUse false []);
      if bool_decide (da_Action a = "respond") then
        if negb (bool_decide (use_referencedTags use = []))
        then Err (E_New [AStr "respond on a logical rule cannot bind a `match_response` tag from its sub rules; use a non-logical rule"])
        else Ok (mkUse true (use_referencedTags use))
      else Ok use
  | DNSUnknown _ => Ok (mkUse false [])
  end.

(** The variables of the loop of [validateLegacyDNSModeDisabledRules] *)
Record Scope := mkScope {
  sc_warnings : list (list earg);
  sc_seenAnonymousEvaluate : bool;
  sc_seenRace : bool;
  sc_definedTags : list string;
  sc_referencedTags : list string;
  sc_lastAnonymousEvaluate : Z;
  sc_anonymousReadSinceLast : bool
}.
Definition scope_zero : Scope := mkScope [] false false [] [] (-1) false.

(** The tags a rule refers to have to be defined. *)
Fixpoint check_tags (i : Z) (tags : list string) (defined : list string) : Res unit :=
  match tags with
  | [] => Ok tt
  | tag :: rest =>
      if bool_decide (tag ∈ defined) then check_tags i rest defined
      else Err (E_New [AStr "dns rule["; AInt i; AStr "]: undefined evaluate tag: "; AStr tag])
  end.

(** One rule: what it uses, then what it defines. *)
Definition scope_use (i : Z) (rule : DNSRule) (use : dnsRuleResponseUse) (sc : Scope) : Res Scope :=
  let warnings := if dnsRuleActionSpeculative rule && negb (sc_seenRace sc)
                  then sc_warnings sc ++ [[AStr "dns rule["; AInt i; AStr "]: `speculative` has no effect without a preceding `race` rule"]]
                  else sc_warnings sc in
  let seenRace := sc_seenRace sc || dnsRuleRace rule in
  if use_needsAnonymous use && negb (sc_seenAnonymousEvaluate sc)
  then Err (E_New (if negb (bool_decide (sc_definedTags sc = []))
                   then [AStr "dns rule["; AInt i; AStr "]: response-based matching requires a preceding evaluate action without `tag`; use `match_response` with an evaluate tag to reference a tagged result"]
                   else [AStr "dns rule["; AInt i; AStr "]: response-based matching requires a preceding evaluate action"]))
  else
    _ ← check_tags i (use_referencedTags use) (sc_definedTags sc);
    Ok (mkScope warnings (sc_seenAnonymousEvaluate sc) seenRace (sc_definedTags sc)
          (sc_referencedTags sc ++ use_referencedTags use) (sc_lastAnonymousEvaluate sc)
          (sc_anonymousReadSinceLast sc || use_needsAnonymous use)).
Definition scope_define (i : Z) (rule : DNSRule) (sc : Scope) : Res Scope :=
  if bool_decide (dnsRuleActionType rule = "evaluate") then
    let tag := dnsRuleActionEvaluateTag rule in
    if bool_decide (tag = "") then
      let warnings := if (0 <=? sc_lastAnonymousEvaluate sc) && negb (sc_anonymousReadSinceLast sc)
                      then sc_warnings sc ++ [[AStr "dns rule["; AInt (sc_lastAnonymousEvaluate sc);
                             AStr "]: evaluated response is overwritten by dns rule["; AInt i; AStr "] before any use"]]
                      else sc_warnings sc in
      Ok (mkScope warnings true (sc_seenRace sc) (sc_definedTags sc) (sc_referencedTags sc) i false)
    else if bool_decide (tag ∈ sc_definedTags sc)
    then Err (E_New [AStr "dns rule["; AInt i; AStr "]: duplicate evaluate tag: "; AStr tag])
    else Ok (mkScope (sc_warnings sc) (sc_seenAnonymousEvaluate sc) (sc_seenRace sc) (sc_definedTags sc ++ [tag])
               (sc_referencedTags sc) (sc_lastAnonymousEvaluate sc) (sc_anonymousReadSinceLast sc))
  else Ok sc.
Fixpoint scope_rules (i : Z) (rules : list DNSRule) (sc : Scope) : Res Scope :=
  match rules with
  | [] => Ok sc
  | rule :: rest =>
      use ← wrap_err (validateLegacyDNSModeDisabledRuleTree rule) [AStr "validate dns rule["; AInt i; AStr "]"];
      sc ← scope_use i rule use sc;
      sc ← scope_define i rule sc;
      scope_rules (i + 1) rest sc
  end.

(** [validateLegacyDNSModeDisabledRules]: the warnings *)
Definition validateLegacyDNSModeDisabledRules (rules : list DNSRule) : Res (list (list earg)) :=
  sc ← scope_rules 0 rules scope_zero;
  Ok (sc_warnings sc ++
      map (fun tag => [AStr "evaluate tag is never referenced: "; AStr tag])
        (List.filter (fun tag => negb (bool_decide (tag ∈ sc_referencedTags sc))) (sc_definedTags sc))).

(** [validateEvaluateFakeIPRules]; [Transport] is the transport manager. *)
Fixpoint validateEvaluateFakeIPRules (Transport : string -> option Member) (i : Z) (rules : list DNSRule) : Res unit :=
  match rules with
  | [] => Ok tt
  | rule :: rest =>
      let server := dnsRuleActionServer rule in
      if bool_decide (dnsRuleActionType rule = "evaluate") && negb (bool_decide (server = "")) &&
         match Transport server with Some t => bool_decide (m_Type t = "fakeip") | None => false end
      then Err (E_New [AStr "dns rule["; AInt i; AStr "]: evaluate action cannot use fakeip server: "; AStr server])
      else validateEvaluateFakeIPRules Transport (i + 1) rest
  end.

(** ** Building *)

Definition parse_dns_rule (i : Z) : list earg := [AStr "parse dns rule["; AInt i; AStr "]"].
Fixpoint check_nested (i : Z) (rules : list DNSRule) : Res unit :=
  match rules with
  | [] => Ok tt
  | rule :: rest =>
      _ ← wrap_err (validateNoNestedDNSRuleActions rule false) (parse_dns_rule i); check_nested (i + 1) rest
  end.

(** [buildRules], before the rules are started: the rules and whether they are
    matched in legacy mode *)
Definition buildRules (Transport : string -> option Member) (rawRules : list DNSRule)
  : Res (list (Rule RuleAction) * bool * dnsRuleModeFlags) :=
  _ ← check_nested 0 rawRules;
  '(legacyDNSMode, modeFlags) ← resolveLegacyDNSMode rawRules;
  _ ← (if legacyDNSMode then Ok [] else validateLegacyDNSModeDisabledRules rawRules);
  _ ← validateEvaluateFakeIPRules Transport 0 rawRules;
  newRules ← build_rules (fun options => NewDNSRule legacyDNSMode options true) parse_dns_rule 0 rawRules;
  Ok (newRules, legacyDNSMode, modeFlags).

End Mode.

(** [ValidateRuleSetMetadataUpdate] of a router that is [started] in
    [legacyDNSMode], or [closing] *)
Section Update.
Context {SH : SliceHelpers} {GS : GoStd} {TP : ThirdParty} {DF : DialerFactory}.
Definition ValidateRuleSetMetadataUpdate (router : option (string -> option RuleSetMetadata)) (rawRules : list DNSRule)
    (started legacyDNSMode closing : bool) (tag : string) (metadata : RuleSetMetadata) : Res unit :=
  let overrides : gmap string RuleSetMetadata := {[ tag := metadata ]} in
  let validate := (_ ← validateLegacyDNSModeDisabledRules router overrides rawRules; Ok tt) in
  if bool_decide (length rawRules = 0%nat) then Ok tt
  else if is_nil router then Err (E_New [AStr "router service not found"])
  else if closing then Ok tt
  else
    '(candidate, flags) ← resolveLegacyDNSMode router overrides rawRules;
    if negb started then (if candidate : bool then Ok tt else validate)
    else if legacyDNSMode then
      if negb candidate && fl_disabled flags
      then _ ← validate; Err (E_New [AStr OptionLegacyDNSAddressFilter])
      else Ok tt
    else if candidate : bool then Err (E_New [AStr OptionLegacyDNSAddressFilter])
    else validate.
End Update.
