(* ===== verification/DnsScope.v ===== *)
(** * DNS rules that refer to responses are well scoped

    [validateLegacyDNSModeDisabledRules] is a type checker: every response a
    rule refers to has to be defined by an [evaluate] action of an earlier rule,
    and no tag is defined twice.  This file states the judgement by positions in
    the list of rules, and shows that the checker decides it. *)

From stdpp Require Import base numbers list strings gmap option.
From Stdlib Require Import ZArith Lia.
From S2P Require Import Prelude NetAddr Metadata RuleItems RuleAction RuleCore RuleBuild RuleDispatch ManagerCore DnsMode.

Local Open Scope Z_scope.

Section Scope.
Context {SH : SliceHelpers} {GS : GoStd} {TP : ThirdParty} {DF : DialerFactory}.
Context (router : option (string -> option RuleSetMetadata)) (overrides : gmap string RuleSetMetadata).

(** ** The judgement *)

(** The default rules at the leaves of a rule. *)
Fixpoint leaves (rule : DNSRule) : list DNSRuleOptions :=
  match rule with
  | DNSDefault o _ => [o]
  | DNSLogical _ rules _ _ => flat_map leaves rules
  | DNSUnknown _ => []
  end.

(** The responses that a leaf is matched against. *)
Definition leaf_reads_anonymous (o : DNSRuleOptions) : bool :=
  IsEnabled (dr_MatchResponse o) && bool_decide (ResponseTag (dr_MatchResponse o) = "").
Definition leaf_reads (o : DNSRuleOptions) : list string :=
  if IsEnabled (dr_MatchResponse o) && negb (bool_decide (ResponseTag (dr_MatchResponse o) = ""))
  then [ResponseTag (dr_MatchResponse o)] else [].

(** A respond action answers with the response its rule is bound to, with the
    anonymous one for a logical rule. *)
Definition responds (rule : DNSRule) : bool :=
  match rule_options_action rule with Some a => bool_decide (da_Action a = "respond") | None => false end.
Definition respond_anonymous (rule : DNSRule) : bool :=
  responds rule &&
  match rule with DNSDefault o _ => bool_decide (ResponseTag (dr_MatchResponse o) = "") | _ => true end.

Definition reads_anonymous (rule : DNSRule) : bool :=
  existsb leaf_reads_anonymous (leaves rule) || respond_anonymous rule.
Definition reads (rule : DNSRule) : list string := flat_map leaf_reads (leaves rule).

(** What a rule may not say without legacy mode. *)
Definition known_mixed (tag : string) : Prop :=
  exists metadata, lookupDNSRuleSetMetadata router overrides tag = Ok metadata /\
    ContainsIPCIDRRule metadata && negb (ContainsNonIPCIDRRule metadata) = false.
Definition clean_leaf (o : DNSRuleOptions) : Prop :=
  dr_RuleSetIPCIDRAcceptEmpty o = false /\
  (IsEnabled (dr_MatchResponse o) = false ->
     hasResponseMatchFields o = false /\ has_address_fields o = false /\
     Forall known_mixed (elems (o_RuleSet (dr_common o)))).
Definition clean (rule : DNSRule) : Prop :=
  Forall clean_leaf (leaves rule) /\
  match rule with DNSLogical _ _ _ _ => responds rule = true -> reads rule = [] | _ => True end.

Definition evaluates_as (rule : DNSRule) (tag : string) : Prop :=
  dnsRuleActionType rule = "evaluate" /\ dnsRuleActionEvaluateTag rule = tag.
Definition evaluate_tags (rules : list DNSRule) : list string :=
  flat_map (fun rule => if bool_decide (dnsRuleActionType rule = "evaluate") &&
                           negb (bool_decide (dnsRuleActionEvaluateTag rule = ""))
                        then [dnsRuleActionEvaluateTag rule] else []) rules.

(** A rule before position [i] defines [tag]. *)
Definition defined_before (rules : list DNSRule) (i : nat) (tag : string) : Prop :=
  exists j rule, (j < i)%nat /\ rules !! j = Some rule /\ evaluates_as rule tag.

Record well_scoped (rules : list DNSRule) : Prop := {
  ws_clean : Forall clean rules;
  ws_anonymous : forall i rule, rules !! i = Some rule -> reads_anonymous rule = true -> defined_before rules i "";
  ws_tags : forall i rule tag, rules !! i = Some rule -> tag ∈ reads rule -> defined_before rules i tag;
  ws_distinct : NoDup (evaluate_tags rules)
}.

(** ** One rule *)

Lemma check_rule_sets_spec tags :
  check_rule_sets router overrides tags = Ok tt <-> Forall known_mixed tags.
Proof.
  induction tags as [|tag tags IH]; simpl; [done|]. rewrite Forall_cons_iff, <-IH. unfold known_mixed.
  destruct (lookupDNSRuleSetMetadata _ _ tag) as [md|e|p]; simpl; [|naive_solver..].
  destruct (_ && _) eqn:E; [|naive_solver]. split; [done|]. intros [(? & [= <-] & ?) _]. congruence.
Qed.

Lemma validate_leaf o a use :
  validateLegacyDNSModeDisabledDefaultRule router overrides o a = Ok use <->
  clean_leaf o /\
  use = mkUse (leaf_reads_anonymous o ||
               bool_decide (da_Action a = "respond") && bool_decide (ResponseTag (dr_MatchResponse o) = ""))
          (leaf_reads o).
Proof.
  unfold validateLegacyDNSModeDisabledDefaultRule, clean_leaf, leaf_reads_anonymous, leaf_reads. cbv zeta.
  assert (Hor : hasResponseMatchFields o || has_elems (o_IPCIDR (dr_common o)) || o_IPIsPrivate (dr_common o) ||
            dr_IPAcceptAny o = hasResponseMatchFields o || has_address_fields o).
  { unfold has_address_fields. by rewrite !orb_assoc. }
  rewrite Hor. destruct (IsEnabled (dr_MatchResponse o)) eqn:En; cbn [negb andb].
  - rewrite andb_false_r. cbn [mbind res_bind]. destruct (dr_RuleSetIPCIDRAcceptEmpty o); [naive_solver|].
    split; [by intros [= <-]|by intros [_ ->]].
  - rewrite andb_true_r. destruct (hasResponseMatchFields o), (has_address_fields o); cbn [orb]; try naive_solver.
    assert (Hsets : (if has_elems (o_RuleSet (dr_common o))
                     then check_rule_sets router overrides (elems (o_RuleSet (dr_common o))) else Ok tt) = Ok tt
                    <-> Forall known_mixed (elems (o_RuleSet (dr_common o)))).
    { rewrite <-check_rule_sets_spec. unfold has_elems. by destruct (elems (o_RuleSet (dr_common o))). }
    destruct (if has_elems _ then _ else _) as [[]|e|p]; cbn [mbind res_bind]; [|naive_solver..].
    destruct (dr_RuleSetIPCIDRAcceptEmpty o); [naive_solver|].
    split; [intros [= <-]; naive_solver|by intros [_ ->]].
Qed.

Lemma check_rules_Forall {O} (check : O -> Res unit) i l :
  check_rules check i l = Ok tt <-> Forall (fun o => check o = Ok tt) l.
Proof.
  revert i. induction l as [|o l IH]; intros i; simpl; [done|]. rewrite Forall_cons_iff, <-(IH (i + 1)).
  destruct (check o) as [[]|e|p]; simpl; naive_solver.
Qed.

Lemma wrap_ok {A} (m : Res A) ctx a : wrap_err m ctx = Ok a <-> m = Ok a.
Proof. destruct m; simpl; naive_solver. Qed.

Lemma bind_spec {A B} (m : Res A) (f : A -> Res B) b :
  (a ← m; f a) = Ok b <-> exists a, m = Ok a /\ f a = Ok b.
Proof. destruct m; simpl; naive_solver. Qed.

(** A nested rule has no action of its own. *)
Definition nested_ok (rule : DNSRule) : Prop := validateNoNestedDNSRuleActions rule true = Ok tt.
Lemma nested_ok_inv rule :
  nested_ok rule ->
  responds rule = false /\
  match rule with DNSLogical _ rules _ _ => Forall nested_ok rules | _ => True end.
Proof.
  unfold nested_ok. destruct rule as [o a|mode rules inv a|type]; cbn [validateNoNestedDNSRuleActions andb];
    [| |done]; cbn [dnsRuleHasConfiguredAction];
    destruct (DNSRuleActionOptions_IsZero a) eqn:Hz; cbn [negb]; try done; intros H.
  all: assert (da_Action a = "") as Ha
    by (unfold DNSRuleActionOptions_IsZero in Hz; rewrite !andb_true_iff in Hz;
        repeat match type of Hz with _ /\ _ => destruct Hz as [Hz _] end; by apply bool_decide_eq_true in Hz).
  all: unfold responds; cbn; rewrite Ha; split; [done|]; try done.
  by apply check_rules_Forall in H.
Qed.

(** The uses of the rules below a logical rule add up. *)
Lemma merge_uses_spec f i rules use0 use :
  merge_uses f i rules use0 = Ok use <->
  exists uses, Forall2 (fun r u => f r = Ok u) rules uses /\
    use = mkUse (use_needsAnonymous use0 || existsb use_needsAnonymous uses)
            (use_referencedTags use0 ++ flat_map use_referencedTags uses).
Proof.
  revert i use0. induction rules as [|r rules IH]; intros i use0; simpl.
  - split.
    + intros [= <-]. exists []. split; [done|]. destruct use0; simpl. by rewrite orb_false_r, app_nil_r.
    + intros (uses & H & ->). apply Forall2_nil_inv_l in H as ->. destruct use0; simpl.
      by rewrite orb_false_r, app_nil_r.
  - rewrite bind_spec. setoid_rewrite wrap_ok. setoid_rewrite IH. cbn [use_needsAnonymous use_referencedTags]. split.
    + intros (u & Hu & uses & H & ->). exists (u :: uses). split; [by constructor|]. simpl.
      by rewrite orb_assoc, app_assoc.
    + intros (uses & H & ->). apply Forall2_cons_inv_l in H as (u & uses' & Hu & H & ->).
      exists u. split; [done|]. exists uses'. split; [done|]. simpl. by rewrite orb_assoc, app_assoc.
Qed.

(** What the checker says of a rule whose actions are left aside. *)
Abbreviation tree := (validateLegacyDNSModeDisabledRuleTree router overrides).
Definition reported (rule : DNSRule) : Prop :=
  forall use, tree rule = Ok use <->
    Forall clean_leaf (leaves rule) /\ use = mkUse (existsb leaf_reads_anonymous (leaves rule)) (reads rule).

Lemma reported_list rules :
  Forall reported rules -> forall uses,
  Forall2 (fun r u => tree r = Ok u) rules uses <->
  Forall clean_leaf (flat_map leaves rules) /\
  uses = map (fun r => mkUse (existsb leaf_reads_anonymous (leaves r)) (reads r)) rules.
Proof.
  induction 1 as [|r rules Hr _ IH]; intros uses; simpl.
  - split; [by intros ->%Forall2_nil_inv_l|by intros [_ ->]].
  - rewrite Forall_app. split.
    + intros (u & uses' & Hu & H & ->)%Forall2_cons_inv_l. apply IH in H as [? ->]. by apply Hr in Hu as [? ->].
    + intros [[H1 H2] ->]. constructor; [by apply Hr|by apply IH].
Qed.

Lemma merge_reported rules use :
  Forall reported rules ->
  merge_uses tree 0 rules (mkUse false []) = Ok use <->
  Forall clean_leaf (flat_map leaves rules) /\
  use = mkUse (existsb leaf_reads_anonymous (flat_map leaves rules)) (flat_map leaf_reads (flat_map leaves rules)).
Proof.
  intros Hr. rewrite merge_uses_spec. cbn [use_needsAnonymous use_referencedTags orb app].
  setoid_rewrite (reported_list rules Hr). clear Hr.
  set (report := fun r => mkUse (existsb leaf_reads_anonymous (leaves r)) (reads r)).
  assert (Hb : existsb use_needsAnonymous (map report rules) = existsb leaf_reads_anonymous (flat_map leaves rules)).
  { induction rules as [|r rules IH]; simpl; [done|]. by rewrite existsb_app, IH. }
  assert (Ht : flat_map use_referencedTags (map report rules) = flat_map leaf_reads (flat_map leaves rules)).
  { clear Hb. induction rules as [|r rules IH]; simpl; [done|]. by rewrite flat_map_app, IH. }
  rewrite <-Hb, <-Ht. naive_solver.
Qed.

Lemma nested_reported rule : nested_ok rule -> reported rule.
Proof.
  induction rule as [o a|mode rules inv a IH|type] using DNSRule_nested_ind; intros [Hr Hn]%nested_ok_inv use;
    cbn [validateLegacyDNSModeDisabledRuleTree leaves].
  - rewrite validate_leaf. unfold responds in Hr. cbn in Hr. rewrite Hr. unfold reads. cbn.
    by rewrite !orb_false_r, app_nil_r, Forall_singleton.
  - unfold responds in Hr. cbn in Hr. rewrite Hr. rewrite bind_spec.
    assert (Hall : Forall reported rules).
    { rewrite list.Forall_forall in IH, Hn |- *. auto. }
    setoid_rewrite (fun u => merge_reported rules u Hall). unfold reads. cbn [leaves]. naive_solver.
  - unfold reads. cbn. split; [by intros [= <-]|by intros [_ ->]].
Qed.

(** A rule at the top. *)
Definition top_ok (rule : DNSRule) : Prop := validateNoNestedDNSRuleActions rule false = Ok tt.
Lemma validate_top rule use :
  top_ok rule -> tree rule = Ok use <-> clean rule /\ use = mkUse (reads_anonymous rule) (reads rule).
Proof.
  intros Ht. unfold clean, reads_anonymous, respond_anonymous. destruct rule as [o a|mode rules inv a|type].
  - cbn [validateLegacyDNSModeDisabledRuleTree leaves]. rewrite validate_leaf, Forall_singleton. unfold responds, reads. cbn.
    rewrite orb_false_r, app_nil_r. naive_solver.
  - assert (Hall : Forall reported rules).
    { unfold top_ok in Ht. cbn in Ht. apply check_rules_Forall in Ht. eapply Forall_impl; [|exact Ht].
      apply nested_reported. }
    cbn [validateLegacyDNSModeDisabledRuleTree]. rewrite bind_spec.
    setoid_rewrite (fun u => merge_reported rules u Hall). unfold responds, reads. cbn [leaves rule_options_action].
    split.
    + intros (u & [Hc ->] & H). cbn [use_referencedTags] in H.
      destruct (bool_decide (da_Action a = "respond")); cbn [andb orb] in *.
      * case_bool_decide as E; [|done]. injection H as <-. rewrite orb_true_r. done.
      * injection H as <-. rewrite orb_false_r. done.
    + intros [[Hc He] ->]. eexists. split; [split; [exact Hc|reflexivity]|]. cbn [use_referencedTags].
      destruct (bool_decide (da_Action a = "respond")); cbn [andb orb] in *.
      * rewrite bool_decide_true by by apply He. cbn [negb]. by rewrite orb_true_r.
      * by rewrite orb_false_r.
  - cbn. unfold reads. cbn. split; [by intros [= <-]|by intros [_ ->]].
Qed.

(** ** The list of rules *)

(** The judgement for the rules that follow definitions. *)
Fixpoint scoped (anonymous : bool) (defined : list string) (rules : list DNSRule) : Prop :=
  match rules with
  | [] => True
  | rule :: rest =>
      clean rule /\ (reads_anonymous rule = true -> anonymous = true) /\
      (forall tag, tag ∈ reads rule -> tag ∈ defined) /\
      (forall tag, tag ∈ evaluate_tags [rule] -> tag ∉ defined) /\
      scoped (anonymous || bool_decide (evaluates_as rule "")) (defined ++ evaluate_tags [rule]) rest
  end.

Lemma check_tags_spec i tags defined : check_tags i tags defined = Ok tt <-> forall tag, tag ∈ tags -> tag ∈ defined.
Proof.
  induction tags as [|tag tags IH]; simpl; [set_solver|]. case_bool_decide as E; [rewrite IH; set_solver|].
  split; [done|]. set_solver.
Qed.

Lemma scope_use_spec i rule use sc :
  (exists sc', scope_use i rule use sc = Ok sc') <->
  (use_needsAnonymous use = true -> sc_seenAnonymousEvaluate sc = true) /\
  (forall tag, tag ∈ use_referencedTags use -> tag ∈ sc_definedTags sc).
Proof.
  unfold scope_use. cbv zeta. destruct (use_needsAnonymous use), (sc_seenAnonymousEvaluate sc); cbn [negb andb];
    try (split; [by intros [? ?]|by intros [H _]; specialize (H eq_refl)]).
  all: rewrite <-(check_tags_spec i); destruct (check_tags _ _ _) as [[]|e|p]; simpl; naive_solver.
Qed.

Lemma scope_use_same i rule use sc sc' :
  scope_use i rule use sc = Ok sc' ->
  sc_seenAnonymousEvaluate sc' = sc_seenAnonymousEvaluate sc /\ sc_definedTags sc' = sc_definedTags sc.
Proof.
  unfold scope_use. cbv zeta. destruct (_ && _); [done|]. destruct (check_tags _ _ _); simpl; [|done..].
  by intros [= <-].
Qed.

Lemma scope_define_spec i rule sc :
  (forall tag, tag ∈ evaluate_tags [rule] -> tag ∉ sc_definedTags sc) /\
  (exists sc', scope_define i rule sc = Ok sc' /\
     sc_seenAnonymousEvaluate sc' = sc_seenAnonymousEvaluate sc || bool_decide (evaluates_as rule "") /\
     sc_definedTags sc' = sc_definedTags sc ++ evaluate_tags [rule])
  \/ ~ (forall tag, tag ∈ evaluate_tags [rule] -> tag ∉ sc_definedTags sc) /\
     (forall sc', scope_define i rule sc <> Ok sc').
Proof.
  unfold scope_define, evaluate_tags, evaluates_as. cbn [flat_map]. rewrite app_nil_r.
  destruct (decide (dnsRuleActionType rule = "evaluate")) as [He|He].
  2: { rewrite !(bool_decide_false (_ /\ _)), !(bool_decide_false (dnsRuleActionType rule = _)) by tauto. cbn.
       left. split; [set_solver|]. exists sc. rewrite orb_false_r, app_nil_r. done. }
  rewrite (bool_decide_true (_ = "evaluate")) by done. cbn [andb].
  destruct (decide (dnsRuleActionEvaluateTag rule = "")) as [Ht|Ht].
  { rewrite (bool_decide_true (_ = "")), bool_decide_true by done. cbn. left. split; [set_solver|].
    eexists. split; [reflexivity|]. cbn. rewrite orb_true_r, app_nil_r. done. }
  rewrite (bool_decide_false (_ = "")), (bool_decide_false (_ /\ _)) by tauto. cbn [negb].
  case_bool_decide as Hd.
  - right. split; [set_solver|done].
  - left. split; [set_solver|]. eexists. split; [reflexivity|]. cbn. by rewrite orb_false_r.
Qed.

Lemma scope_rules_spec rules : forall i sc,
  Forall top_ok rules ->
  (exists sc', scope_rules router overrides i rules sc = Ok sc') <->
  scoped (sc_seenAnonymousEvaluate sc) (sc_definedTags sc) rules.
Proof.
  induction rules as [|rule rules IH]; intros i sc Ht; cbn [scope_rules scoped]; [naive_solver|].
  apply Forall_cons_iff in Ht as [Ht Hts]. split.
  - intros (sc' & H). apply bind_spec in H as (use & Hu%wrap_ok & H). apply validate_top in Hu as [Hc ->]; [|done].
    apply bind_spec in H as (sc1 & H1 & H). apply bind_spec in H as (sc2 & H2 & H).
    destruct (proj1 (scope_use_spec i rule _ sc) (ex_intro _ sc1 H1)) as [Ha Hr]. cbn in Ha, Hr.
    destruct (scope_use_same _ _ _ _ _ H1) as [E1 E2].
    destruct (scope_define_spec i rule sc1) as [(Hd & sc3 & H3 & E3 & E4)|[_ Hn]]; [|by apply Hn in H2].
    rewrite H2 in H3. injection H3 as <-. rewrite E1 in E3. rewrite E2 in *.
    split; [done|]. split; [done|]. split; [done|]. split; [done|].
    rewrite <-E3, <-E4. apply (IH (i + 1)); [done|]. by eexists.
  - intros (Hc & Ha & Hr & Hd & Hs).
    destruct (proj2 (scope_use_spec i rule (mkUse (reads_anonymous rule) (reads rule)) sc)) as [sc1 H1]; [done|].
    destruct (scope_use_same _ _ _ _ _ H1) as [E1 E2]. rewrite <-E2 in Hd.
    destruct (scope_define_spec i rule sc1) as [(_ & sc2 & H2 & E3 & E4)|[Hn _]]; [|done].
    rewrite <-E1, <-E2, <-E3, <-E4 in Hs. apply (IH (i + 1)) in Hs as [sc' Hs]; [|done]. exists sc'.
    apply bind_spec. exists (mkUse (reads_anonymous rule) (reads rule)). split; [by apply wrap_ok, validate_top|].
    apply bind_spec. exists sc1. split; [done|]. apply bind_spec. by exists sc2.
Qed.

(** ** Positions *)

Lemma evaluate_tags_cons rule rules : evaluate_tags (rule :: rules) = evaluate_tags [rule] ++ evaluate_tags rules.
Proof. unfold evaluate_tags. cbn [flat_map]. by rewrite app_nil_r. Qed.

Lemma evaluate_tags_one rule tag : tag ∈ evaluate_tags [rule] <-> evaluates_as rule tag /\ tag <> "".
Proof.
  unfold evaluate_tags, evaluates_as. cbn [flat_map]. rewrite app_nil_r.
  destruct (decide (dnsRuleActionType rule = "evaluate")); [rewrite bool_decide_true by done|rewrite bool_decide_false by done];
    cbn [andb]; [|set_solver].
  destruct (decide (dnsRuleActionEvaluateTag rule = "")); [rewrite bool_decide_true by done|rewrite bool_decide_false by done];
    cbn [negb]; set_solver.
Qed.

(** Every tag a leaf names is not empty. *)
Lemma reads_not_empty rule tag : tag ∈ reads rule -> tag <> "".
Proof.
  unfold reads. intros (o & _ & Ho)%list_elem_of_In%in_flat_map. unfold leaf_reads in Ho.
  destruct (_ && _) eqn:E; [|done]. apply andb_true_iff in E as [_ E]. destruct Ho as [<-|[]]. intros Hnil. rewrite Hnil in E. done.
Qed.

Lemma defined_before_cons rule rules i tag :
  defined_before (rule :: rules) (S i) tag <-> evaluates_as rule tag \/ defined_before rules i tag.
Proof.
  unfold defined_before. split.
  - intros ([|j] & r & Hj & Hr & He); simpl in Hr; [left; congruence|]. right. exists j, r. split; [lia|done].
  - intros [He|(j & r & Hj & Hr & He)]; [exists 0%nat, rule|exists (S j), r]; split; [lia|done|lia|done].
Qed.

(** The judgement with definitions before the list. *)
Lemma scoped_positions rules : forall anonymous defined,
  "" ∉ defined -> NoDup defined ->
  scoped anonymous defined rules <->
  Forall clean rules /\
  (forall i rule, rules !! i = Some rule -> reads_anonymous rule = true -> anonymous = true \/ defined_before rules i "") /\
  (forall i rule tag, rules !! i = Some rule -> tag ∈ reads rule -> tag ∈ defined \/ defined_before rules i tag) /\
  NoDup (defined ++ evaluate_tags rules).
Proof.
  induction rules as [|rule rules IH]; intros anonymous defined Hne Hnd; cbn [scoped].
  { cbn. rewrite app_nil_r. split; [|done]. intros _. split; [constructor|]. done. }
  assert (Hnone : forall tag, ~ defined_before (rule :: rules) 0 tag).
  { intros tag (j & ? & ? & _). lia. }
  rewrite (evaluate_tags_cons rule rules), Forall_cons_iff, app_assoc. split.
  - intros (Hc & Ha & Hr & Hd & Hs). apply IH in Hs as (Hcs & Has & Hrs & Hdup).
    + split; [done|]. split; [|split; [|done]].
      * intros [|i] r Hi; simpl in Hi; [injection Hi as <-; auto|]. intros Hra. rewrite defined_before_cons.
        destruct (Has i r Hi Hra) as [Hor|?]; [|auto]. apply orb_true_iff in Hor as [?|Hor]; [auto|].
        apply bool_decide_eq_true in Hor. auto.
      * intros [|i] r tag Hi; simpl in Hi; [injection Hi as <-; auto|]. intros Hra. rewrite defined_before_cons.
        destruct (Hrs i r tag Hi Hra) as [[?|Hor]%elem_of_app|?]; [auto| |auto]. apply evaluate_tags_one in Hor as [? _]. auto.
    + rewrite elem_of_app, evaluate_tags_one. naive_solver.
    + apply list.NoDup_app. split; [done|]. split; [set_solver|]. unfold evaluate_tags. cbn [flat_map]. rewrite app_nil_r.
      destruct (_ && _); [apply NoDup_singleton|constructor].
  - intros ([Hc Hcs] & Ha & Hr & Hdup). pose proof (Ha 0%nat rule eq_refl) as Ha0.
    assert (Hdup1 : NoDup (defined ++ evaluate_tags [rule])) by by apply list.NoDup_app in Hdup as (? & _ & _).
    split; [done|]. split; [intros E; destruct (Ha0 E) as [?|?%Hnone]; done|].
    split; [intros tag Ht; destruct (Hr 0%nat rule tag eq_refl Ht) as [?|?%Hnone]; done|].
    split; [apply list.NoDup_app in Hdup1 as (_ & Hx & _); intros tag H1 H2; by apply (Hx tag)|].
    apply IH; [|done|].
    { rewrite elem_of_app, evaluate_tags_one. naive_solver. }
    split; [done|]. split; [|split; [|done]].
    + intros i r Hi Hra. destruct (Ha (S i) r Hi Hra) as [->|H]; [by left|]. apply defined_before_cons in H as [H|H]; [|by right].
      left. apply orb_true_iff. right. by apply bool_decide_eq_true.
    + intros i r tag Hi Hra. destruct (Hr (S i) r tag Hi Hra) as [?|H]; [set_solver|].
      apply defined_before_cons in H as [H|H]; [|by right]. left. apply elem_of_app. right. apply evaluate_tags_one.
      split; [done|]. by eapply reads_not_empty.
Qed.

Lemma check_nested_Forall i rules : check_nested i rules = Ok tt <-> Forall top_ok rules.
Proof.
  revert i. induction rules as [|rule rules IH]; intros i; cbn [check_nested]; [done|].
  rewrite Forall_cons_iff, <-(IH (i + 1)), bind_spec. setoid_rewrite wrap_ok. unfold top_ok. split.
  - intros ([] & ? & ?). done.
  - intros [? ?]. by exists tt.
Qed.

Lemma validate_well_scoped rules :
  check_nested 0 rules = Ok tt ->
  (exists warnings, validateLegacyDNSModeDisabledRules router overrides rules = Ok warnings) <-> well_scoped rules.
Proof.
  intros Hn%check_nested_Forall. transitivity (exists sc', scope_rules router overrides 0 rules scope_zero = Ok sc').
  - unfold validateLegacyDNSModeDisabledRules. setoid_rewrite bind_spec. naive_solver.
  - rewrite (scope_rules_spec rules 0 scope_zero Hn). cbn. rewrite scoped_positions; [|set_solver|constructor]. cbn. split.
    + intros (Hc & Ha & Hr & Hd). constructor; [done| | |done].
      * intros i rule Hi Hra. by destruct (Ha i rule Hi Hra).
      * intros i rule tag Hi Ht. by destruct (Hr i rule tag Hi Ht) as [?%not_elem_of_nil|].
    + intros [Hc Ha Hr Hd]. split; [done|]. split; [intros; right; eauto|]. split; [intros; right; eauto|done].
Qed.

(** C4: the check of DNS rules that match on responses decides scoping.  Rules
    whose nested rules carry no actions ([check_nested]) pass
    [validateLegacyDNSModeDisabledRules] exactly when:
    - no rule sets [rule_set_ip_cidr_accept_empty];
    - outside [match_response] no rule has fields on responses or addresses, and
      every rule-set it refers to is known and none of them has only IP CIDRs (the
      comment in the code says that one mixed set is enough: [DnsExamples]);
    - no logical rule with a respond action reads a tagged response;
    - every response that a rule is matched against or answers with comes from an
      evaluate action of an earlier rule, anonymous or of that tag;
    - no tag is evaluated twice. *)
Theorem response_scoping_decided rules :
  check_nested 0 rules = Ok tt ->
  (exists warnings, validateLegacyDNSModeDisabledRules router overrides rules = Ok warnings) <-> well_scoped rules.
Proof. apply validate_well_scoped. Qed.

End Scope.
