(* ===== verification/DnsRouter.v ===== *)
(** * The life of the DNS router

    [Initialize], [Start], [Close] and [buildRules] of [dns/router.go], with the
    rule-sets that started rules hold.  They may run at the same time: each works on
    rules outside of the lock [rulesAccess], so that they are sequences of steps with
    rules in flight between them, one step per rule that is started or closed. *)

From stdpp Require Import base numbers list strings gmap option.
From Stdlib Require Import ZArith Lia.
From S2P Require Import Prelude NetAddr Metadata RuleItems RuleAction RuleCore RuleBuild RuleDispatch ManagerCore.
From S2P Require Import RuleStart DnsMode.

Local Open Scope Z_scope.

Section Router.
Context {SH : SliceHelpers} {GS : GoStd} {TP : ThirdParty} {DF : DialerFactory}.
Context (router : option (string -> option RuleSetMetadata)) (Transport : string -> option Member).
Context (ruleSet : string -> option (RuleSet (Rule RuleAction))).
Context (outbound transport : string -> option (string * bool)).
Abbreviation rules_t := (list (Rule RuleAction)).

(** ** Building and closing *)

(** The loop that starts the rules. *)
Fixpoint start_rules (i : Z) (l : rules_t) (refs : Refs) : Res unit * rules_t * Refs :=
  match l with
  | [] => (Ok tt, [], refs)
  | rule :: rest =>
      match Rule_Start ruleSet outbound transport rule refs with
      | (Ok _, rule, refs) => let '(e, rest, refs) := start_rules (i + 1) rest refs in (e, rule :: rest, refs)
      | (e, rule, refs) => (wrap_err e [AStr "initialize DNS rule["; AInt i; AStr "]"], rule :: rest, refs)
      end
  end.

(** ** The router *)

(** Operations under way, with the rules they have in hand: the loop of [buildRules]
    that starts rules (the rules that have started, and the others), [Start] before it
    takes the lock, and [closeRules] *)
Inductive InFlight :=
  | Starting (i : Z) (started pending : rules_t) (legacyDNSMode : bool)
  | Publishing (newRules : rules_t) (legacyDNSMode : bool)
  | Releasing (rules : rules_t).
Definition in_hand (o : InFlight) : rules_t :=
  match o with Starting _ started pending _ => started ++ pending | Publishing l _ | Releasing l => l end.

(** The fields of [Router], the counts of the rule-sets, the operations under
    way, and whether [Start] was called. *)
Record DnsRouter := mkDnsRouter {
  dr_rawRules : list DNSRule;
  dr_rules : rules_t;
  dr_legacyDNSMode : bool;
  dr_started : bool;
  dr_closing : bool;
  dr_refs : Refs;
  dr_ops : list InFlight;
  dr_called : bool
}.
Definition set_refs (s : DnsRouter) (refs : Refs) : DnsRouter :=
  mkDnsRouter (dr_rawRules s) (dr_rules s) (dr_legacyDNSMode s) (dr_started s) (dr_closing s) refs (dr_ops s) (dr_called s).
Definition set_ops (s : DnsRouter) (ops : list InFlight) : DnsRouter :=
  mkDnsRouter (dr_rawRules s) (dr_rules s) (dr_legacyDNSMode s) (dr_started s) (dr_closing s) (dr_refs s) ops (dr_called s).

(** [Initialize], up to [closeRules] *)
Definition DnsRouter_Initialize (rules : list DNSRule) (s : DnsRouter) : Res unit * DnsRouter :=
  let s := mkDnsRouter rules (dr_rules s) (dr_legacyDNSMode s) (dr_started s) (dr_closing s) (dr_refs s) (dr_ops s) (dr_called s) in
  match buildRules router ∅ Transport rules with
  | Ok (newRules, _, _) => (Ok tt, set_ops s (Releasing newRules :: dr_ops s))
  | Err e => (Err e, s)
  | Panic p => (Panic p, s)
  end.
(** [Start], until the rules are built; it is called once. *)
Definition Start_build (s : DnsRouter) : Res unit * DnsRouter :=
  let s := mkDnsRouter (dr_rawRules s) (dr_rules s) (dr_legacyDNSMode s) (dr_started s) (dr_closing s) (dr_refs s) (dr_ops s) true in
  match buildRules router ∅ Transport (dr_rawRules s) with
  | Ok (newRules, legacyDNSMode, _) => (Ok tt, set_ops s (Starting 0 [] newRules legacyDNSMode :: dr_ops s))
  | Err e => (Err e, s)
  | Panic p => (Panic p, s)
  end.
(** [Start], one rule; when it fails all rules are closed. *)
Definition Start_one (i : Z) (started : rules_t) (rule : Rule RuleAction) (pending : rules_t) (legacyDNSMode : bool) (s : DnsRouter)
  : Res unit * list InFlight * DnsRouter :=
  match Rule_Start ruleSet outbound transport rule (dr_refs s) with
  | (Ok _, rule, refs) => (Ok tt, [Starting (i + 1) (started ++ [rule]) pending legacyDNSMode], set_refs s refs)
  | (e, rule, refs) => (wrap_err e [AStr "initialize DNS rule["; AInt i; AStr "]"], [Releasing (started ++ rule :: pending)], set_refs s refs)
  end.
(** [Start], under the lock *)
Definition Start_publish (newRules : rules_t) (legacyDNSMode : bool) (s : DnsRouter) : list InFlight * DnsRouter :=
  if dr_closing s then ([Releasing newRules], s)
  else ([], mkDnsRouter (dr_rawRules s) newRules legacyDNSMode true (dr_closing s) (dr_refs s) (dr_ops s) (dr_called s)).
(** [Close], under the lock *)
Definition Close_take (s : DnsRouter) : DnsRouter :=
  if dr_closing s then s
  else mkDnsRouter (dr_rawRules s) [] (dr_legacyDNSMode s) (dr_started s) true (dr_refs s)
         (Releasing (dr_rules s) :: dr_ops s) (dr_called s).
(** [closeRules], one rule: errors are ignored, a panic is not. *)
Definition closeRules (rule : Rule RuleAction) (rest : rules_t) (s : DnsRouter) : Res unit * list InFlight * DnsRouter :=
  match Rule_Close rule (dr_refs s) with
  | (Panic p, _, refs) => (Panic p, [], set_refs s refs)
  | (_, _, refs) => (Ok tt, [Releasing rest], set_refs s refs)
  end.

(** The next step of an operation, and what is left of it *)
Definition op_step (o : InFlight) (s : DnsRouter) : Res unit * list InFlight * DnsRouter :=
  match o with
  | Starting _ started [] legacy => (Ok tt, [Publishing started legacy], s)
  | Starting i started (rule :: pending) legacy => Start_one i started rule pending legacy s
  | Publishing newRules legacy => let '(ops, s) := Start_publish newRules legacy s in (Ok tt, ops, s)
  | Releasing [] => (Ok tt, [], s)
  | Releasing (rule :: rest) => closeRules rule rest s
  end.

(** The steps of a router, with their outcome. *)
Inductive dns_step : DnsRouter -> Res unit -> DnsRouter -> Prop :=
  | step_initialize rules s e s' : DnsRouter_Initialize rules s = (e, s') -> dns_step s e s'
  | step_build s e s' : dr_called s = false -> Start_build s = (e, s') -> dns_step s e s'
  | step_close s : dns_step s (Ok tt) (Close_take s)
  | step_op s before o after e ops s' :
      dr_ops s = before ++ o :: after -> op_step o s = (e, ops, s') -> dns_step s e (set_ops s' (before ++ ops ++ after)).

Inductive dns_reachable (s0 : DnsRouter) : DnsRouter -> Prop :=
  | dns_initial : dns_reachable s0 s0
  | dns_next s e s' : dns_reachable s0 s -> dns_step s e s' -> dns_reachable s0 s'.

(** ** Accounting *)

(** Rules that were built hold nothing and list their rule-sets. *)
Lemma built_rule legacy o check rule :
  NewDNSRule legacy o check = Ok rule -> held rule = [] /\ set_listed rule = true.
Proof.
  revert check rule. induction o as [o a|mode rules inv a IH|type] using DNSRule_nested_ind; intros check rule H; [| |done].
  - apply NewDNSRule_default in H as (act & r & _ & Hr & -> & _). cbn. split.
    + revert Hr. apply (chain_preserves (fun r => set_held (ruleSetItem r) = [])); [|done]. blocks; intros; cbn in *; auto.
    + apply dns_listed in Hr as [_ Hset]. destruct (ruleSetItem r) as [item|]; [|done]. cbn. apply existsb_exists.
      exists ARuleSet. split; [|done]. apply list_elem_of_In. by apply Hset.
  - apply NewDNSRule_logical in H as (act & mode' & subs & _ & -> & _ & Hs). cbn.
    assert (Hall : Forall (fun r => held r = [] /\ set_listed r = true) subs).
    { apply list.Forall_forall. intros sub Hsub. apply list_elem_of_lookup in Hsub as (i & Hi).
      destruct (Forall2_lookup_r _ _ _ _ _ Hs Hi) as (o & Ho & _ & Hr).
      rewrite list.Forall_forall in IH. eapply IH; [|exact Hr]. by eapply list_elem_of_lookup_2. }
    clear -Hall. induction Hall as [|r l [Hh Hl] _ IH]; cbn; [done|]. by rewrite Hh, Hl.
Qed.

Lemma built_rules rawRules newRules legacy flags :
  buildRules router ∅ Transport rawRules = Ok (newRules, legacy, flags) ->
  flat_map held newRules = [] /\ forallb set_listed newRules = true.
Proof.
  unfold buildRules. intros (u & _ & H)%bind_ok. apply bind_ok in H as ([legacy' flags'] & _ & H).
  apply bind_ok in H as (w & _ & H). apply bind_ok in H as (v & _ & H).
  apply bind_ok in H as (l & Hl & [= <- <- <-]). apply build_rules_Forall2 in Hl.
  induction Hl as [|o r os rs Hr _ IH]; cbn; [done|]. apply built_rule in Hr as [Hh Hs]. by rewrite Hh, Hs.
Qed.

(** What a router holds, in its rules and in the operations under way. *)
Definition live (s : DnsRouter) : rules_t := dr_rules s ++ flat_map in_hand (dr_ops s).
(** An operation of [Start] *)
Definition starting (o : InFlight) : bool := match o with Releasing _ => false | _ => true end.

Section Invariant.
Context (s0 : DnsRouter).

(** Every count is what others hold and what the router holds; [Start] runs
    once, into a router without rules. *)
Record dns_inv (s : DnsRouter) : Prop := {
  di_account : forall t, refs_of (dr_refs s) t = refs_of (dr_refs s0) t + count t (flat_map held (live s));
  di_listed : forallb set_listed (live s) = true;
  di_once : (length (List.filter starting (dr_ops s)) <= 1)%nat;
  di_called : dr_called s = false -> List.filter starting (dr_ops s) = [] /\ dr_rules s = [];
  di_empty : List.filter starting (dr_ops s) <> [] \/ dr_closing s = true -> dr_rules s = []
}.

Context (Hnonneg : forall t, 0 <= refs_of (dr_refs s0) t).

(** Rules that were just built are taken up by an operation. *)
Lemma built_inv s newRules o : dns_inv s -> in_hand o = newRules -> flat_map held newRules = [] -> forallb set_listed newRules = true ->
  starting o = false \/ List.filter starting (dr_ops s) = [] /\ dr_rules s = [] /\ dr_called s = true -> dns_inv (set_ops s (o :: dr_ops s)).
Proof.
  intros [Ha Hl Ho Hc He] <- Hh Hs Hst. constructor; unfold live in *; cbn.
  - intros t. rewrite Ha, !flat_map_app, Hh, !count_app. cbn. done.
  - rewrite !forallb_app in *. apply andb_true_iff in Hl as [-> ->]. by rewrite Hs.
  - destruct Hst as [->|(Hn & _ & _)]; [done|]. rewrite Hn. by destruct (starting o); cbn; lia.
  - intros Hca. destruct Hst as [->|(_ & _ & Hct)]; [by apply Hc|congruence].
  - destruct Hst as [->|(_ & Hr & _)]; done.
Qed.
Lemma initialize_inv rules s e s' : dns_inv s -> DnsRouter_Initialize rules s = (e, s') -> dns_inv s'.
Proof.
  intros Hi. unfold DnsRouter_Initialize. set (s1 := mkDnsRouter rules _ _ _ _ _ _ _). assert (Hi1 : dns_inv s1) by (by destruct Hi).
  destruct (buildRules _ _ _ _) as [[[newRules legacy] flags]|err|p] eqn:Hb; intros [= <- <-]; [|done..].
  apply built_rules in Hb as [Hh Hs]. apply (built_inv s1 newRules (Releasing newRules)); try done. by left.
Qed.
Lemma start_build_inv s e s' : dns_inv s -> dr_called s = false -> Start_build s = (e, s') -> dns_inv s'.
Proof.
  intros Hi Hca. destruct (di_called s Hi Hca) as [Hn Hr]. unfold Start_build. set (s1 := mkDnsRouter _ _ _ _ _ _ _ _). assert (Hi1 : dns_inv s1) by (by destruct Hi).
  destruct (buildRules _ _ _ _) as [[[newRules legacy] flags]|err|p] eqn:Hb; intros [= <- <-]; [|done..].
  apply built_rules in Hb as [Hh Hs]. apply (built_inv s1 newRules (Starting 0 [] newRules legacy)); try done. by right.
Qed.
Lemma close_inv s : dns_inv s -> dns_inv (Close_take s).
Proof.
  intros Hi. unfold Close_take. destruct (dr_closing s) eqn:Hclosing; [done|].
  destruct Hi as [Ha Hl Ho Hc He]. constructor; unfold live in *; cbn; try done. tauto.
Qed.

(** What a step of an operation does: it does not panic, and keeps the account of the
    rules it has in hand and those of the router *)
Record op_ok (o : InFlight) (s : DnsRouter) (e : Res unit) (ops : list InFlight) (s' : DnsRouter) : Prop := {
  oo_panic : forall p, e <> Panic p;
  oo_account : forall t, refs_of (dr_refs s') t - count t (flat_map held (dr_rules s' ++ flat_map in_hand ops)) =
                         refs_of (dr_refs s) t - count t (flat_map held (dr_rules s ++ in_hand o));
  oo_listed : forallb set_listed (dr_rules s ++ in_hand o) = true -> forallb set_listed (dr_rules s' ++ flat_map in_hand ops) = true;
  oo_starting : (length (List.filter starting ops) <= length (List.filter starting [o]))%nat;
  oo_same : dr_called s' = dr_called s /\ dr_closing s' = dr_closing s;
  oo_rules : dr_rules s' = dr_rules s \/ starting o = true /\ ops = [] /\ dr_closing s = false
}.
Lemma op_step_ok o s e ops s' : covers (dr_refs s) (flat_map held (in_hand o)) -> forallb set_listed (in_hand o) = true ->
  (starting o = true -> dr_rules s = []) -> op_step o s = (e, ops, s') -> op_ok o s e ops s'.
Proof.
  intros Hc Hl Hr. destruct o as [i started [|rule pending] legacy|newRules legacy|[|rule rest]]; cbn [op_step].
  - intros [= <- <- <-]. by constructor; try done; left.
  - cbn in Hc. rewrite flat_map_app in Hc. cbn in Hc. pose proof (proj2 (covers_app _ _ _ Hc)) as Hc1. pose proof (proj1 (covers_app _ _ _ Hc1)) as Hc2.
    pose proof (start_ok ruleSet outbound transport rule (dr_refs s) Hc2) as [Hp Hk]. pose proof (start_listed ruleSet outbound transport rule (dr_refs s)) as Hs.
    unfold Start_one. destruct (Rule_Start _ _ _ rule (dr_refs s)) as [[e1 rule'] refs]. cbn in Hp, Hk, Hs.
    assert (Hacc : forall t, refs_of refs t - count t (flat_map held (dr_rules s ++ (started ++ rule' :: pending) ++ [])) =
      refs_of (dr_refs s) t - count t (flat_map held (dr_rules s ++ started ++ rule :: pending))).
    { intros t. specialize (Hk t). rewrite app_nil_r, !flat_map_app, !count_app. cbn. rewrite !count_app. lia. }
    assert (Hlist : forallb set_listed (dr_rules s ++ started ++ rule :: pending) = true -> forallb set_listed (dr_rules s ++ (started ++ rule' :: pending) ++ []) = true).
    { rewrite app_nil_r, !forallb_app. cbn. by rewrite Hs. }
    destruct e1 as [[]|err|p]; [| |by destruct (Hp p)]; intros [= <- <- <-].
    + constructor; cbn [flat_map in_hand set_refs dr_refs dr_rules]; rewrite <-?(app_assoc started [rule'] pending); try done. by left.
    + constructor; try done; [cbn; lia|by left].
  - unfold Start_publish. destruct (dr_closing s) eqn:Hcl; intros [= <- <- <-].
    + constructor; try done; [intros t; cbn; by rewrite app_nil_r|cbn; by rewrite app_nil_r|cbn; lia|by left].
    + constructor; try done; cbn; rewrite ?Hr, ?app_nil_r by done; try done; [lia|by right].
  - intros [= <- <- <-]. constructor; try done; by left.
  - cbn in Hc, Hl. apply andb_true_iff in Hl as [Hl1 Hl2]. pose proof (proj1 (covers_app _ _ _ Hc)) as Hc1. destruct (close_ok rule (dr_refs s) Hc1) as ([_ Hk] & He & Hn). specialize (Hn Hl1).
    unfold closeRules. destruct (Rule_Close rule (dr_refs s)) as [[e1 rule'] refs]. cbn in Hk, He, Hn. subst e1. intros [= <- <- <-].
    constructor; try done; [|cbn; rewrite app_nil_r, !forallb_app; cbn; by rewrite Hl1|by left].
    intros t. specialize (Hk t). rewrite Hn, count_nil in Hk. cbn. rewrite app_nil_r, !flat_map_app, !count_app. cbn. rewrite !count_app. lia.
Qed.

Lemma filter_split before l after :
  List.filter starting (before ++ l ++ after) = List.filter starting before ++ List.filter starting l ++ List.filter starting after.
Proof. by rewrite !List.filter_app. Qed.
Lemma op_covers s before o after : dns_inv s -> dr_ops s = before ++ o :: after ->
  covers (dr_refs s) (flat_map held (in_hand o)) /\ forallb set_listed (in_hand o) = true /\ (starting o = true -> dr_rules s = []).
Proof.
  intros [Ha Hl Ho Hc He] Hops. unfold live in *. rewrite Hops in *. split; [|split].
  - intros t. rewrite Ha. rewrite !flat_map_app, !count_app. cbn. rewrite !flat_map_app, !count_app. specialize (Hnonneg t).
    pose proof (count_nonneg t (flat_map held (dr_rules s))). pose proof (count_nonneg t (flat_map held (flat_map in_hand before))).
    pose proof (count_nonneg t (flat_map held (flat_map in_hand after))). lia.
  - revert Hl. rewrite !flat_map_app, !forallb_app. cbn. rewrite !forallb_app, !andb_true_iff. tauto.
  - intros Hs. apply He. left. change (before ++ o :: after) with (before ++ [o] ++ after). rewrite filter_split. cbn. rewrite Hs. by destruct (List.filter starting before).
Qed.
Lemma op_inv s before o after e ops s' : dns_inv s -> dr_ops s = before ++ o :: after -> op_step o s = (e, ops, s') ->
  dns_inv (set_ops s' (before ++ ops ++ after)) /\ (forall p, e <> Panic p).
Proof.
  intros Hi Hops Hstep. destruct (op_covers s before o after Hi Hops) as (Hcov & Hlo & Hrs). destruct (op_step_ok o s e ops s' Hcov Hlo Hrs Hstep) as [O1 O2 O3 O4 [O5 O6] O7].
  split; [|done]. destruct Hi as [Ha Hl Ho Hc He]. unfold live in *. rewrite Hops in *. change (before ++ o :: after) with (before ++ [o] ++ after) in *. rewrite filter_split in Ho, Hc, He.
  constructor; unfold live; cbn [set_ops dr_refs dr_rules dr_ops dr_called dr_closing]; rewrite ?filter_split, ?O5, ?O6.
  - intros t. specialize (Ha t). specialize (O2 t). rewrite !flat_map_app, !count_app in *. cbn in Ha. rewrite app_nil_r in Ha. lia.
  - revert Hl O3. rewrite !flat_map_app, !forallb_app, !andb_true_iff. cbn. rewrite app_nil_r. tauto.
  - rewrite !length_app in *. lia.
  - intros Hca. destruct (Hc Hca) as [Hn Hr]. apply app_eq_nil in Hn as [Hn1 [Hn2 Hn3]%app_eq_nil]. rewrite Hn1, Hn3. rewrite Hn2 in O4.
    destruct (List.filter starting ops); [|cbn in O4; lia]. split; [done|]. destruct O7 as [->|(Hst & _)]; [done|]. cbn in Hn2. by rewrite Hst in Hn2.
  - intros Hx. destruct O7 as [->|(Hst & -> & Hcl)].
    + apply He. destruct Hx as [Hx|Hx]; [left|by right]. intros Hn. apply app_eq_nil in Hn as [Hn1 [Hn2 Hn3]%app_eq_nil]. rewrite Hn2 in O4. destruct Hx. rewrite Hn1, Hn3. by destruct (List.filter starting ops); [|cbn in O4; lia].
    + destruct Hx as [Hx|Hx]; [|congruence]. exfalso. apply Hx. cbn in Ho. rewrite Hst, !length_app in Ho. cbn in Ho. cbn.
      destruct (List.filter starting before), (List.filter starting after); cbn in *; try done; lia.
Qed.
Lemma reachable_inv s : dns_inv s0 -> dns_reachable s0 s -> dns_inv s.
Proof.
  intros H0. induction 1 as [|s e s' _ IH Hstep]; [done|]. destruct Hstep.
  - by eapply initialize_inv. - by eapply start_build_inv. - by apply close_inv. - by eapply op_inv.
Qed.

End Invariant.

(** A router before its start. *)
Definition fresh_router (s : DnsRouter) : Prop :=
  dr_rules s = [] /\ dr_ops s = [] /\ dr_called s = false /\ forall t, 0 <= refs_of (dr_refs s) t.

(** C5: rule-sets are counted right however [Initialize], [Start] and [Close] of the DNS
    router interleave, where [Start] is called once and rules are started and closed
    one after the other, each in one step.  In every reachable state the count of each
    rule-set is what others hold plus one for every reference from a rule of the router
    or of an operation under way; no step of an operation panics; and once the router is
    closed and no operation is under way it has no rules and every count is back, so
    that no rule-set is kept or cleaned up by mistake. *)
Theorem rule_set_references_balanced s0 s :
  fresh_router s0 -> dns_reachable s0 s ->
  (forall t, refs_of (dr_refs s) t = refs_of (dr_refs s0) t + count t (flat_map held (live s))) /\
  (forall before o after e ops s', dr_ops s = before ++ o :: after -> op_step o s = (e, ops, s') -> forall p, e <> Panic p) /\
  (dr_closing s = true -> dr_ops s = [] ->
     dr_rules s = [] /\ forall t, refs_of (dr_refs s) t = refs_of (dr_refs s0) t).
Proof.
  intros (Hr & Ho & Hc & Hn) Hreach.
  assert (Hi : dns_inv s0 s).
  { apply reachable_inv; [done| |done]. constructor; unfold live; rewrite ?Hr, ?Ho; cbn; try done; try lia.
    intros t. rewrite count_nil. lia. }
  split; [apply (di_account s0 s Hi)|]. split.
  - intros before o after e ops s' Hops Hstep. by apply (op_inv s0 Hn s before o after e ops s' Hi Hops Hstep).
  - intros Hcl Hops. assert (Hnil : dr_rules s = []) by (apply (di_empty s0 s Hi); by right). split; [done|].
    intros t. rewrite (di_account s0 s Hi). unfold live. rewrite Hnil, Hops. cbn. rewrite count_nil. lia.
Qed.

End Router.
