(* ===== verification/DnsConfigured.v ===== *)
(** * Configured DNS rules are well formed

    The rules that [buildRules] accepts and starts, without legacy mode, satisfy
    what [DnsSpec] asks of rules: they read the responses they are bound to and
    no others.  Together with it, the outcome of a query is determined by the
    configuration and the answers of the servers, whenever the answers arrive. *)

From stdpp Require Import base numbers list strings gmap option.
From Stdlib Require Import ZArith Lia.
From S2P Require Import Prelude NetAddr Metadata RuleItems RuleAction RuleCore RuleSpec RulePreMatch RuleBuild RuleFrame.
From S2P Require Import RuleDispatch ManagerCore RuleStart DnsWalk DnsSpec DnsMode DnsScope DnsRouter.

Local Open Scope Z_scope.

(** ** Decoding [match_response] *)

(** The JSON values that matter to [DNSRuleMatchResponse.UnmarshalJSON] *)
Inductive JSONValue := JBool (b : bool) | JString (s : string) | JOther.
Definition MatchResponse_UnmarshalJSON (v : JSONValue) : Res DNSRuleMatchResponse :=
  match v with
  | JBool b => Ok (mkMatchResponse b "")
  | JString s => if bool_decide (s = "") then Err (E_New [AStr "empty match_response tag"])
                 else Ok (mkMatchResponse true s)
  | JOther => Err (E_New [AStr "invalid match_response value"])
  end.
Definition MatchResponse_MarshalJSON (m : DNSRuleMatchResponse) : JSONValue :=
  if bool_decide (mr_Tag m = "") then JBool (mr_Enabled m) else JString (mr_Tag m).

Lemma match_response_roundtrip v m :
  MatchResponse_UnmarshalJSON v = Ok m -> MatchResponse_MarshalJSON m = v.
Proof.
  destruct v as [b|s|]; cbn; [by intros [= <-]| |done]. case_bool_decide as E; [done|]. intros [= <-].
  unfold MatchResponse_MarshalJSON. cbn. by rewrite bool_decide_false.
Qed.

Section Configured.
Context {SH : SliceHelpers} {GS : GoStd} {TP : ThirdParty} {DF : DialerFactory}.
Context (env : RuleEnv).

(** A rule's options come from JSON. *)
Definition decoded (rule : DNSRule) : Prop :=
  forall o m, o ∈ leaves rule -> dr_MatchResponse o = Some m -> exists v, MatchResponse_UnmarshalJSON v = Ok m.

Lemma decoded_tag rule o : decoded rule -> o ∈ leaves rule -> ResponseTag (dr_MatchResponse o) <> "" ->
  IsEnabled (dr_MatchResponse o) = true.
Proof.
  intros Hd Ho. destruct (dr_MatchResponse o) as [m|] eqn:Hm; [|done]. destruct (Hd o m Ho Hm) as [v Hv].
  destruct v as [b|s|]; cbn in Hv; [by injection Hv as <-| |done]. case_bool_decide; [done|]. by injection Hv as <-.
Qed.

(** ** What matching reads *)

(** Items of a rule-set do not look into a response themselves. *)
Definition headless_item (it : RuleItem) : Prop :=
  match it with I_DNSResponseRCode _ | I_DNSResponseRecord _ => False | _ => True end.

(** The metadata of two matches that do not take addresses from responses, and
    of two matches with the same response. *)
Definition same_but_response (m m' : InboundContext) : Prop :=
  connection m = connection m' /\ cidr_mode m = cidr_mode m' /\
  DestinationAddressMatchFromResponse m = false /\ DestinationAddressMatchFromResponse m' = false.
Definition same_but_named (m m' : InboundContext) : Prop :=
  connection m = connection m' /\ cidr_mode m = cidr_mode m' /\ response_view m = response_view m'.

Lemma response_frame : frame (Action := RuleAction) env same_but_response headless_item.
Proof.
  constructor; unfold same_but_response.
  - intros it m m' Hp (Hc & Hm & H1 & H2). destruct m as [? ? ? ? [] []], m' as [? ? ? ? [] []].
    unfold connection, cidr_mode in *; simpl in *; simplify_eq. destruct it; try done; simpl.
  - intros m m' (_ & Hm & _). unfold cidr_mode in Hm. congruence.
  - intros item [? ? ? ? [] []] [? ? ? ? [] []] (Hc & Hm & H1 & H2). unfold connection, cidr_mode in *. simpl in *. done.
  - intros [? ? ? ? [] []] [? ? ? ? [] []] (Hc & Hm & H1 & H2). unfold connection, cidr_mode in *. simpl in *. done.
  - intros [? ? ? ? [] []] [? ? ? ? [] []] (Hc & Hm & H1 & H2). unfold connection, cidr_mode in *. simpl in *. done.
Qed.

Lemma named_frame : frame (Action := RuleAction) env same_but_named (fun _ => True).
Proof.
  constructor; unfold same_but_named.
  - intros it m m' _ (Hc & Hm & Hr). by apply item_frame.
  - intros m m' (_ & Hm & _). unfold cidr_mode in Hm. congruence.
  - intros item [? ? ? ? [] []] [? ? ? ? [] []] (Hc & Hm & Hr). unfold connection, cidr_mode, response_view in *. simpl in *. done.
  - intros [? ? ? ? [] []] [? ? ? ? [] []] (Hc & Hm & Hr). unfold connection, cidr_mode, response_view in *. simpl in *. done.
  - intros [? ? ? ? [] []] [? ? ? ? [] []] (Hc & Hm & Hr). unfold connection, cidr_mode, response_view in *. simpl in *. done.
Qed.

(** ** Bound rules *)

Definition sets_headless (r : abstractDefaultRule RuleAction (Rule RuleAction)) : Prop :=
  forall item s rule, ruleSetItem r = Some item -> s ∈ setList item -> rule ∈ rs_rules s -> headless_of headless_item rule.

(** A rule that matches on no response has no items on responses or destination
    addresses; logical rules know the bindings of their rules. *)
Inductive bound_ok : Rule RuleAction -> Prop :=
  | bound_default r enabled tag race :
      (enabled = false -> Forall (fun it => reads_response it = false) (own_items r)) -> sets_headless r ->
      (tag <> "" -> enabled = true) -> bound_ok (R_DefaultDNS r enabled tag race)
  | bound_logical r tags anonymous race :
      (forall sub, sub ∈ l_rules r -> bound_ok sub) ->
      (forall sub t, sub ∈ l_rules r -> t ∈ MatchResponseTags sub -> t ∈ tags) ->
      (forall sub, sub ∈ l_rules r -> MatchResponseAnonymous sub = true -> anonymous = true) ->
      bound_ok (R_LogicalDNS r tags anonymous race).

Lemma response_metadata_reset m r n : ResetRuleCache (response_metadata m r n) = response_metadata m r n.
Proof. by destruct m as [? ? ? ? [] []]. Qed.

Lemma response_metadata_named m r n t :
  NamedDNSResponses (response_metadata m r n) !! t = fmap (M := option) msg_of <$> (n !! t).
Proof. change (NamedDNSResponses _) with (fmap (M := option) msg_of <$> n). by rewrite lookup_fmap. Qed.

Lemma headless_weaken (P Q : RuleItem -> Prop) (rule : Rule RuleAction) :
  (forall it, P it -> Q it) -> headless_of P rule -> headless_of Q rule.
Proof.
  intros HPQ. induction 1 as [r Hp Hn|r _ IH]; constructor; [|done|done]. by eapply Forall_impl.
Qed.

(** A default rule gives the same outcome on related metadata. *)
Lemma default_related (A : InboundContext -> InboundContext -> Prop) (P : RuleItem -> Prop) r m m' :
  frame (Action := RuleAction) env A P -> (forall it, headless_item it -> P it) ->
  Forall P (own_items r) -> sets_headless r -> A m m' ->
  default_spec env (Spec env) asDefaultHeadless r m = default_spec env (Spec env) asDefaultHeadless r m'.
Proof.
  intros HA HP Hr Hsets Hm. eapply (default_frame env A P HA); [done|done| |].
  - intros item s rule m1 m1' Hi Hs Hrule Hm1. eapply (headless_frame env A P HA); [|done].
    eapply headless_weaken; [exact HP|]. by eapply Hsets.
  - intros item s b Hi Hs Hb. eapply (mergeable_headless (Action := RuleAction) P (rs_rules s)); [|done].
    intros rule Hrule. eapply headless_weaken; [exact HP|]. by eapply Hsets.
Qed.

Lemma bound_reads rule : bound_ok rule -> reads_bound env rule.
Proof.
  induction 1 as [r enabled tag race Hitems Hsets Htag|r tags anonymous race _ IH Ht Ha];
    intros m x x' n n' Hanon Htags; cbn [Spec].
  - unfold dns_spec. destruct enabled.
    + assert (Hresp : (if bool_decide (tag = "") then DNSResponse (response_metadata m x n)
                       else default None (NamedDNSResponses (response_metadata m x n) !! tag)) =
                      (if bool_decide (tag = "") then DNSResponse (response_metadata m x' n')
                       else default None (NamedDNSResponses (response_metadata m x' n') !! tag))).
      { cbn in Hanon, Htags. case_bool_decide as E.
        - cbn. by rewrite Hanon.
        - rewrite !response_metadata_named. specialize (Htags tag ltac:(by left)).
          destruct (n !! tag) as [[]|], (n' !! tag) as [[]|]; cbn in *; congruence. }
      cbv zeta. rewrite <-Hresp. destruct (if bool_decide (tag = "") then _ else _) as [resp|]; [|done].
      eapply (default_related _ _ _ _ _ named_frame); [done| |done|].
      * by apply list.Forall_forall.
      * by destruct m as [? ? ? ? [] []].
    + eapply (default_related _ _ _ _ _ response_frame); [done| |done|].
      * eapply Forall_impl; [|by apply Hitems]. by intros [].
      * by destruct m as [? ? ? ? [] []].
  - unfold logical_spec. cbv zeta. f_equal. rewrite !response_metadata_reset.
    destruct (bool_decide _); [apply forallb_ext_in|apply existsb_ext_in]; intros sub Hs.
    all: apply (IH sub Hs); [intros E; apply Hanon; cbn; by eapply Ha|].
    all: intros t Hin; apply Htags; by eapply Ht.
Qed.

(** ** Rules of rule-sets *)

Lemma headless_items nm o (r : abstractDefaultRule RuleAction (Rule RuleAction)) :
  NewDefaultHeadlessRule nm o = Ok r -> Forall headless_item (own_items r).
Proof.
  apply (chain_preserves (fun r => Forall headless_item (own_items r))); [|by constructor].
  assert (Hpush : forall p it (r : abstractDefaultRule RuleAction (Rule RuleAction)),
            headless_item it -> Forall headless_item (own_items r) -> Forall headless_item (own_items (push p it r))).
  { intros p it r' Hit. unfold own_items. rewrite !Forall_app. destruct p; simpl; rewrite ?Forall_app, ?Forall_singleton; tauto. }
  blocks; intros; try (apply Hpush; [|assumption]); try done.
  all: repeat match goal with
    | H : Ok _ = Ok _ |- _ => injection H as <-
    | H : _ <$> _ = Ok _ |- _ => apply fmap_ok in H as (? & ? & <-)
    end; done.
Qed.

Lemma headless_rule nm h (rule : Rule RuleAction) : NewHeadlessRule nm h = Ok rule -> headless_of headless_item rule.
Proof.
  revert rule. induction h as [o|mode rules inv IH|t|o] using HeadlessRule_nested_ind;
    intros rule; cbn [NewHeadlessRule]; [| |done|].
  - destruct (HeadlessOptions_IsValid o); cbn [negb]; [|done]. intros (r & Hr & <-)%fmap_ok. constructor.
    + by eapply headless_items. + by eapply headless_no_set.
  - intros (valid & _ & H)%bind_ok. destruct valid; cbn [negb] in H; [|done].
    apply bind_ok in H as (mode' & _ & H). apply bind_ok in H as (subs & Hs & [= <-]). constructor. cbn.
    intros sub Hsub. apply build_rules_Forall2 in Hs. apply list_elem_of_lookup in Hsub as (i & Hi).
    destruct (Forall2_lookup_r _ _ _ _ _ Hs Hi) as (o & Ho & Hr). rewrite list.Forall_forall in IH.
    eapply IH; [|exact Hr]. by eapply list_elem_of_lookup_2.
  - destruct (HeadlessOptions_IsValid o); cbn [negb]; [|done]. intros (r & Hr & <-)%fmap_ok. constructor.
    + by eapply headless_items. + by eapply headless_no_set.
Qed.

(** ** Rules that were built and started *)

Context (router : option (string -> option RuleSetMetadata)) (Transport : string -> option Member).
Context (ruleSet : string -> option (RuleSet (Rule RuleAction))).
Context (outbound transport : string -> option (string * bool)).
(** The rules of a rule-set were built by [NewHeadlessRule]. *)
Definition rule_sets_built : Prop :=
  forall tag s rule, ruleSet tag = Some s -> rule ∈ rs_rules s -> exists nm h, NewHeadlessRule nm h = Ok rule.

Abbreviation start := (Rule_Start ruleSet outbound transport).
Definition set_from (set : option (RuleSetItem (Rule RuleAction))) : Prop :=
  forall item s, set = Some item -> s ∈ setList item -> exists tag, ruleSet tag = Some s.

Lemma item_close_from item refs :
  set_from (Some item) -> set_from (Some (RuleSetItem_Close item refs).1.2).
Proof.
  intros Hf. unfold RuleSetItem_Close. destruct (release _ _) as [[] refs1]; cbn; [|done..].
  intros ? s [= <-]. cbn. set_solver.
Qed.

Lemma acquire_from tags : forall item refs,
  set_from (Some item) -> set_from (Some (acquire ruleSet tags item refs).1.2).
Proof.
  induction tags as [|tag tags IH]; intros item refs Hf; cbn [acquire]; [done|]. destruct (ruleSet tag) as [s|] eqn:Hs.
  - apply IH. intros ? s' [= <-]. cbn. intros [H|H%list_elem_of_singleton]%elem_of_app; [by eapply Hf|]. subst. eauto.
  - pose proof (item_close_from item refs Hf) as Hc. by destruct (RuleSetItem_Close item refs) as [[? ?] ?].
Qed.

Lemma item_start_from item refs : set_from (Some item) -> set_from (Some (RuleSetItem_Start ruleSet item refs).1.2).
Proof.
  intros Hf. unfold RuleSetItem_Start. pose proof (item_close_from item refs Hf) as Hc.
  destruct (RuleSetItem_Close item refs) as [[[] item'] refs']; cbn in *; [by apply acquire_from..|done].
Qed.

Lemma start_items_from l : forall set refs,
  set_from set -> set_from (start_items ruleSet outbound transport l set refs).1.2.
Proof.
  induction l as [|[it|] l IH]; intros set refs Hf; cbn [start_items]; [done| |].
  - destruct (item_Start _ _ it); [by apply IH|done..].
  - destruct set as [item|]; [|by apply IH]. pose proof (item_start_from item refs Hf) as Hs.
    destruct (RuleSetItem_Start _ item refs) as [[[] ?] ?]; cbn in *; [by apply IH|done..].
Qed.

Lemma started_reads it : reads_response (item_started outbound transport it) = reads_response it.
Proof.
  unfold item_started. destruct it; try done; cbn.
  - by destruct (PreferredByItem_Start _ _). - by destruct (PreferredByDNSItem_Start _ _).
Qed.

(** A default rule after its start. *)
Lemma start_default_ok r refs r' refs' :
  rule_sets_built -> set_held (ruleSetItem r) = [] ->
  abstractDefaultRule_Start ruleSet outbound transport r refs = (Ok tt, r', refs') ->
  sets_headless r' /\ action r' = action r /\
  (Forall (fun it => reads_response it = false) (own_items r) ->
   Forall (fun it => reads_response it = false) (own_items r')).
Proof.
  intros Hb Hheld. unfold abstractDefaultRule_Start.
  assert (Hf : set_from (ruleSetItem r)).
  { intros item s Hi Hs. rewrite Hi in Hheld. cbn in Hheld. apply map_eq_nil in Hheld. rewrite Hheld in Hs. set_solver. }
  pose proof (start_items_from (allItems r) _ refs Hf) as Hset.
  destruct (start_items _ _ _ _ _ refs) as [[e set] refs1]. cbn in Hset. intros [= -> <- <-]. split; [|split].
  - intros item s rule Hi Hs Hrule. cbn in Hi. destruct (Hset item s Hi Hs) as [tag Htag].
    destruct (Hb tag s rule Htag Hrule) as (nm & h & Hh). by eapply headless_rule.
  - done.
  - unfold own_items. cbn. rewrite <-!map_app. rewrite !list.Forall_forall. intros Hr it Hit.
    apply list_elem_of_fmap in Hit as (it0 & -> & Hit0). rewrite started_reads. by apply Hr.
Qed.

(** The own items of a rule that may not match on responses. *)
Lemma clean_leaf_items o (act : option RuleAction) r :
  clean_leaf router ∅ o -> IsEnabled (dr_MatchResponse o) = false ->
  NewDefaultDNSRule o act false = Ok r -> Forall (fun it => reads_response it = false) (own_items r).
Proof.
  intros [_ Hc] He Hr. destruct (Hc He) as (H1 & H2 & _). pose proof (dns_placed _ _ _ _ Hr) as Hp.
  change (hasResponseMatchFields o) with (has_response_fields o) in H1. rewrite H1 in Hp.
  pose proof (dns_no_address _ _ _ _ Hr H2) as Hno. unfold placed in Hp. unfold own_items. rewrite Hno.
  apply list.Forall_forall. intros it Hit. rewrite list.Forall_forall in Hp.
  apply negb_true_iff. apply Hp. set_solver.
Qed.

(** What is kept of a DNS rule by its start. *)
Definition same_header (rule rule' : Rule RuleAction) : Prop :=
  MatchResponseTags rule' = MatchResponseTags rule /\ MatchResponseAnonymous rule' = MatchResponseAnonymous rule /\
  Race rule' = Race rule /\ Rule_action rule' = Rule_action rule /\ MatchResponseTag rule' = MatchResponseTag rule.

Lemma each_rule_Forall2 l : forall refs l' refs',
  each_rule start l refs = (Ok tt, l', refs') ->
  Forall2 (fun r r' => exists refs refs', start r refs = (Ok tt, r', refs')) l l'.
Proof.
  induction l as [|rule l IH]; intros refs l' refs'; cbn [each_rule]; [intros [= <- _]; constructor|].
  destruct (start rule refs) as [[[[]|e|p] rule'] refs1] eqn:Hs; [|done..].
  destruct (each_rule start l refs1) as [[e l1] refs2] eqn:Hl. intros [= -> <- <-]. constructor; [eauto|by eapply IH].
Qed.

Lemma started_bound options check built refs rule refs' :
  rule_sets_built -> Forall (clean_leaf router ∅) (leaves options) -> decoded options ->
  NewDNSRule false options check = Ok built -> start built refs = (Ok tt, rule, refs') ->
  bound_ok rule /\ same_header built rule.
Proof.
  intros Hb. revert check built refs rule refs'.
  induction options as [o a|mode rules inv a IH|type] using DNSRule_nested_ind;
    intros check built refs rule refs' Hclean Hdec H Hs; [| |done].
  - pose proof (built_rule _ _ _ _ H) as [Hheld _].
    apply NewDNSRule_default in H as (act & r & _ & Hr & -> & _). cbn [Rule_Start] in Hs. cbn in Hheld.
    destruct (abstractDefaultRule_Start _ _ _ r refs) as [[e r'] refs1] eqn:Hst. cbn in Hs. injection Hs as -> <- <-.
    destruct (start_default_ok r refs r' refs1 Hb Hheld Hst) as (Hsets & Ha & Hitems).
    cbn in Hclean. rewrite Forall_singleton in Hclean. split.
    + constructor; [|done|].
      * intros He. apply Hitems. by eapply clean_leaf_items.
      * intros Ht. eapply (decoded_tag (DNSDefault o a)); [done|by left|done].
    + by split.
  - apply NewDNSRule_logical in H as (act & mode' & subs & _ & -> & _ & Hsubs). cbn [Rule_Start l_rules] in Hs.
    destruct (each_rule start subs refs) as [[e subs'] refs1] eqn:Hst. cbn in Hs. injection Hs as -> <- <-.
    apply each_rule_Forall2 in Hst. split; [|by split]. cbn in Hclean.
    assert (Hall : forall sub', sub' ∈ subs' -> exists sub, sub ∈ subs /\ bound_ok sub' /\ same_header sub sub').
    { intros sub' Hin. apply list_elem_of_lookup in Hin as (i & Hi).
      destruct (Forall2_lookup_r _ _ _ _ _ Hst Hi) as (sub & Hsub & refs2 & refs3 & Hstart).
      destruct (Forall2_lookup_r _ _ _ _ _ Hsubs Hsub) as (opt & Hopt & _ & Hnew).
      pose proof (list_elem_of_lookup_2 _ _ _ Hopt) as Hin. exists sub. split; [by eapply list_elem_of_lookup_2|].
      rewrite list.Forall_forall in IH. eapply (IH opt Hin); [| |exact Hnew|exact Hstart].
      - rewrite list.Forall_forall in Hclean |- *. intros o Ho. apply Hclean. apply list_elem_of_In, in_flat_map.
        exists opt. by split; apply list_elem_of_In.
      - intros o m Ho. apply Hdec. cbn. apply list_elem_of_In, in_flat_map. exists opt. by split; apply list_elem_of_In. }
    constructor; cbn [l_rules set_rules].
    + intros sub' Hin. by destruct (Hall sub' Hin) as (_ & _ & ? & _).
    + intros sub' t Hin Ht. destruct (Hall sub' Hin) as (sub & Hsub & _ & Htags & _). rewrite Htags in Ht.
      rewrite Uniq_law. apply list_elem_of_In, in_flat_map. exists sub. by split; apply list_elem_of_In.
    + intros sub' Hin Ha. destruct (Hall sub' Hin) as (sub & Hsub & _ & _ & Hanon & _). rewrite Hanon in Ha.
      apply existsb_exists. exists sub. split; [by apply list_elem_of_In|done].
Qed.

(** ** The list of rules *)

(** A rule of the configuration and the rule that runs. *)
Definition runs (options : DNSRule) (rule : Rule RuleAction) : Prop :=
  exists built refs refs', NewDNSRule false options true = Ok built /\ start built refs = (Ok tt, rule, refs').

Lemma start_rules_Forall2 l : forall i refs l' refs',
  start_rules ruleSet outbound transport i l refs = (Ok tt, l', refs') ->
  Forall2 (fun r r' => exists refs refs', start r refs = (Ok tt, r', refs')) l l'.
Proof.
  induction l as [|rule l IH]; intros i refs l' refs'; cbn [start_rules]; [intros [= <- _]; constructor|].
  destruct (start rule refs) as [[[[]|e|p] rule'] refs1] eqn:Hs; [|done..].
  destruct (start_rules _ _ _ (i + 1) l refs1) as [[e l1] refs2] eqn:Hl. intros [= -> <- <-]. constructor; [eauto|by eapply IH].
Qed.

(** The action of a rule that runs is that of its options. *)
Lemma runs_action options rule :
  runs options rule ->
  exists a, rule_options_action options = Some a /\ NewDNSRuleAction a = Ok (Rule_action rule) /\ Race rule = da_Race a.
Proof.
  intros (built & refs & refs' & H & Hs). destruct options as [o a|mode rules inv a|type]; [| |done]; exists a.
  - apply NewDNSRule_default in H as (act & r & Ha & Hr & -> & _). cbn [Rule_Start] in Hs. pose proof (dns_action _ _ _ _ Hr) as Hact.
    unfold abstractDefaultRule_Start in Hs. destruct (start_items _ _ _ _ _ refs) as [[e set] refs1]. cbn in Hs.
    injection Hs as -> <- <-. cbn. by rewrite Hact.
  - apply NewDNSRule_logical in H as (act & mode' & subs & Ha & -> & _ & _). cbn [Rule_Start] in Hs.
    destruct (each_rule _ _ refs) as [[e subs'] refs1]. cbn in Hs. by injection Hs as -> <- <-.
Qed.

Lemma action_evaluate a act :
  NewDNSRuleAction a = Ok act ->
  match act with
  | Some (ActionEvaluate _ tag _ _) => da_Action a = "evaluate" /\ tag = da_EvaluateTag a
  | _ => da_Action a <> "evaluate"
  end /\ (act = Some ActionRespond -> da_Action a = "respond").
Proof.
  unfold NewDNSRuleAction. cbv zeta. repeat case_bool_decide; try done; intros [= <-]; cbn; split; try done;
    intros E; rewrite E in *; done.
Qed.

Lemma runs_evaluate options rule : runs options rule -> eval_tags [rule] = evaluate_tags [options].
Proof.
  intros (a & Ha & Hact & _)%runs_action. apply action_evaluate in Hact as [He _]. unfold eval_tags, evaluate_tags.
  cbn [flat_map]. rewrite !app_nil_r. unfold dnsRuleActionType, dnsRuleActionEvaluateTag. rewrite Ha.
  destruct (Rule_action rule) as [[]|]; [..|].
  all: try (rewrite bool_decide_false; [done|]; case_bool_decide; done).
  destruct He as [He ->]. rewrite He. cbn. by case_bool_decide.
Qed.

(** A built rule is bound to what its leaves read. *)
Lemma built_reads options check built :
  decoded options -> NewDNSRule false options check = Ok built ->
  forall t, t ∈ MatchResponseTags built -> t ∈ reads options.
Proof.
  revert check built. induction options as [o a|mode rules inv a IH|type] using DNSRule_nested_ind;
    intros check built Hdec H t Ht; [| |done].
  - apply NewDNSRule_default in H as (act & r & _ & _ & -> & _). cbn in Ht. unfold reads, leaf_reads. cbn.
    case_bool_decide as E; [set_solver|]. rewrite (decoded_tag (DNSDefault o a) o Hdec); [|by left|done].
    cbn. set_solver.
  - apply NewDNSRule_logical in H as (act & mode' & subs & _ & -> & _ & Hsubs). cbn in Ht.
    rewrite Uniq_law in Ht. apply list_elem_of_In, in_flat_map in Ht as (sub & Hsub & Ht).
    apply list_elem_of_In in Hsub, Ht. apply list_elem_of_lookup in Hsub as (i & Hi).
    destruct (Forall2_lookup_r _ _ _ _ _ Hsubs Hi) as (opt & Hopt & _ & Hnew). apply list_elem_of_lookup_2 in Hopt.
    rewrite list.Forall_forall in IH. unfold reads. cbn.
    assert (Hin : t ∈ reads opt).
    { eapply (IH opt Hopt); [|exact Hnew|done]. intros o m Ho. apply Hdec. cbn. apply list_elem_of_In, in_flat_map.
      exists opt. by split; apply list_elem_of_In. }
    apply list_elem_of_In, in_flat_map in Hin as (o & Ho & Hto). apply list_elem_of_In, in_flat_map.
    exists o. split; [|done]. apply in_flat_map. exists opt. split; [by apply list_elem_of_In|done].
Qed.

Lemma runs_respond options rule :
  rule_sets_built -> clean router ∅ options -> decoded options -> runs options rule -> respond_bound rule.
Proof.
  intros Hb Hclean Hdec Hrun Hresp. destruct (runs_action _ _ Hrun) as (a & Ha & Hact & _).
  destruct Hrun as (built & refs & refs' & Hnew & Hs).
  destruct (started_bound options true built refs rule refs' Hb (proj1 Hclean) Hdec Hnew Hs) as [Hbound (Ht & _ & _ & _ & _)].
  rewrite Hresp in Hact. apply action_evaluate in Hact as [_ Hact]. specialize (Hact eq_refl).
  destruct Hbound as [r enabled tag race _ _ Htag|r tags anonymous race _ _ _]; cbn in *.
  - unfold hasBindings. cbn. destruct (decide (tag = "")) as [->|E].
    + right. split; [done|]. rewrite bool_decide_true by done. destruct enabled; [by left|by right].
    + left. split; [done|]. rewrite bool_decide_false by done. by left.
  - right. split; [done|]. destruct anonymous; [by left|]. right. unfold hasBindings. cbn.
    rewrite bool_decide_true; [done|]. rewrite Ht.
    assert (Hnil : reads options = []).
    { destruct options as [o a'|mode rules inv a'|type]; [| |done].
      - apply NewDNSRule_default in Hnew as (act & r' & _ & _ & -> & _). cbn [Rule_Start] in Hs.
        by destruct (abstractDefaultRule_Start _ _ _ _ _) as [[? ?] ?].
      - apply (proj2 Hclean). unfold responds. rewrite Ha. by apply bool_decide_eq_true. }
    destruct (MatchResponseTags built) as [|t l] eqn:E; [done|]. exfalso.
    pose proof (built_reads options true built Hdec Hnew t) as Hx. rewrite E, Hnil in Hx. set_solver.
Qed.

Lemma eval_tags_app l l' : eval_tags (l ++ l') = eval_tags l ++ eval_tags l'.
Proof. unfold eval_tags. apply flat_map_app. Qed.

(** The configuration that the result is stated for: no races, and fallback
    routes before the evaluations. *)
Definition no_race (rawRules : list DNSRule) : Prop := Forall (fun o => dnsRuleRace o = false) rawRules.

Lemma configured_wellformed rawRules built flags refs rules refs' :
  rule_sets_built -> Forall decoded rawRules -> no_race rawRules ->
  buildRules router ∅ Transport rawRules = Ok (built, false, flags) ->
  start_rules ruleSet outbound transport 0 built refs = (Ok tt, rules, refs') ->
  fallback_first rules -> wellformed env rules.
Proof.
  intros Hb Hdec Hrace Hbuild Hstart Hfb. unfold buildRules in Hbuild.
  apply bind_ok in Hbuild as ([] & Hnest & H). apply bind_ok in H as ([legacy flags'] & _ & H).
  apply bind_ok in H as (w & Hval & H). apply bind_ok in H as (u & _ & H). apply bind_ok in H as (l & Hl & [= <- -> <-]).
  assert (Hws : well_scoped router ∅ rawRules) by (apply (validate_well_scoped router ∅ rawRules Hnest); eauto).
  apply build_rules_Forall2 in Hl. apply start_rules_Forall2 in Hstart.
  assert (Hruns : Forall2 runs rawRules rules).
  { clear -Hl Hstart. revert rules Hstart. induction Hl as [|o r os rs Hr _ IH]; intros rules Hs.
    - apply Forall2_nil_inv_l in Hs as ->. constructor.
    - apply Forall2_cons_inv_l in Hs as (rule & rules' & (refs & refs' & Hs) & Hss & ->). constructor; [|by apply IH].
      by exists r, refs, refs'. }
  assert (Hevery : forall Q : Rule RuleAction -> Prop,
            (forall o rule, clean router ∅ o -> decoded o -> dnsRuleRace o = false -> runs o rule -> Q rule) -> Forall Q rules).
  { intros Q HQ. pose proof (ws_clean _ _ _ Hws) as Hc. unfold no_race in Hrace. clear -Hruns HQ Hc Hdec Hrace.
    induction Hruns as [|o rule os rs Hr _ IH]; [constructor|].
    apply Forall_cons_iff in Hc as [? ?], Hdec as [? ?], Hrace as [? ?]. constructor; [by eapply HQ|by apply IH]. }
  constructor; [| | | |done].
  - apply Hevery. intros o rule _ _ Hr (a & Ha & _ & ->)%runs_action. unfold dnsRuleRace in Hr. by rewrite Ha in Hr.
  - apply Hevery. intros o rule Hc Hd _ (b & refs1 & refs2 & Hnew & Hs).
    destruct (started_bound o true b refs1 rule refs2 Hb (proj1 Hc) Hd Hnew Hs) as [Hbound (Ht & _)].
    split; [by apply bound_reads|]. rewrite Ht. intros Hin. apply (built_reads o true b Hd Hnew) in Hin.
    by apply (reads_not_empty o "").
  - apply Hevery. intros o rule Hc Hd _ Hr. by eapply runs_respond.
  - replace (eval_tags rules) with (evaluate_tags rawRules); [apply (ws_distinct _ _ _ Hws)|].
    clear -Hruns. induction Hruns as [|o rule os rs Hr _ IH]; [done|].
    rewrite (evaluate_tags_cons o os), IH. rewrite <-(runs_evaluate _ _ Hr). by rewrite <-eval_tags_app.
Qed.

(** C3: as long as answers arrive while the walk waits, the outcome of a query does
    not depend on their order.  For decoded options that the router builds without
    legacy mode, without race rules and with fallback routes before evaluations,
    the walk over the started rules with its concurrent evaluations ends, with the
    result of asking the servers one after the other, with or without
    [speculative].  The schedule is one on which the query is not cancelled and
    every answer arrives in the end, and no answer arrives between two looks of
    one pass over a rule: [fun t => t] keeps the time still there, and
    [DnsExamples.late_answer_missed] shows what goes wrong otherwise. *)
Theorem exchange_is_sequential Default Exchange strategy message allowFakeIP sched T
    rawRules built flags refs rules refs' m options :
  rule_sets_built -> Forall decoded rawRules -> no_race rawRules ->
  buildRules router ∅ Transport rawRules = Ok (built, false, flags) ->
  start_rules ruleSet outbound transport 0 built refs = (Ok tt, rules, refs') ->
  fallback_first rules -> good_schedule sched T -> full m ->
  exists fuel, exchangeWithRules env Transport Default Exchange strategy (fun t => t) sched message allowFakeIP fuel rules m options
               = Some (sequential env Transport Default Exchange strategy message allowFakeIP rules m options None ∅).
Proof.
  intros. eapply walk_sequential; [|done|done]. by eapply configured_wellformed.
Qed.

End Configured.
