(* ===== verification/DnsWake.v ===== *)
(** * Waiting for answers

    How a walk over DNS rules sleeps and wakes up ([launchDNSEvaluate] and the
    loop of [resumeExchangeWithRules] in [dns/router.go]).  The callback of an
    exchange closes [done] and then puts a token into the channel [wake], which
    has room for one, without blocking; the walk looks at its futures and
    sleeps on [wake] when one it needs is not done.  Callbacks and the walk run
    concurrently, so each of these actions is a step. *)

From stdpp Require Import base numbers list gmap option.
From Stdlib Require Import ZArith Lia.
From S2P Require Import Prelude.

(** The walk looks at its futures, sleeps, or goes on. *)
Inductive Walker := Looking | Sleeping | Resumed.
#[export] Instance Walker_eq_dec : EqDecision Walker.
Proof. solve_decision. Defined.

(** Exchanges under way, callbacks between [close(future.done)] and their send,
    the futures that are done, the token in [wake]. *)
Record Wake := mkWake {
  k_exchanging : gset nat;
  k_sending : gset nat;
  k_done : gset nat;
  k_token : bool;
  k_walker : Walker
}.

(** [AComplete]: an exchange ends and its callback closes [done]; [ASend]: the
    callback sends, or finds the channel full; [ALook]: the walk looks at the
    futures it needs ([needs]: the awaited future, or those of the armed rules);
    [AReceive]: the walk takes the token. *)
Inductive Action := AComplete (f : nat) | ASend (f : nat) | ALook | AReceive.

Section Wake.
Context (needs : gset nat).

Definition wake_step (a : Action) (s : Wake) : option Wake :=
  match a with
  | AComplete f =>
      if bool_decide (f ∈ k_exchanging s)
      then Some (mkWake (k_exchanging s ∖ {[ f ]}) (k_sending s ∪ {[ f ]}) (k_done s ∪ {[ f ]}) (k_token s) (k_walker s))
      else None
  | ASend f =>
      if bool_decide (f ∈ k_sending s)
      then Some (mkWake (k_exchanging s) (k_sending s ∖ {[ f ]}) (k_done s) true (k_walker s))
      else None
  | ALook =>
      match k_walker s with
      | Looking =>
          Some (mkWake (k_exchanging s) (k_sending s) (k_done s) (k_token s)
                  (if bool_decide (needs ⊆ k_done s) then Resumed else Sleeping))
      | _ => None
      end
  | AReceive =>
      match k_walker s with
      | Sleeping => if k_token s then Some (mkWake (k_exchanging s) (k_sending s) (k_done s) false Looking) else None
      | _ => None
      end
  end.

(** A sleeping walk has something coming: a token, a send, or a future it needs
    that is not done; the futures it needs were launched. *)
Record awake_inv (s : Wake) : Prop := {
  ai_launched : needs ⊆ k_exchanging s ∪ k_done s;
  ai_coming : k_walker s = Sleeping -> k_token s = true \/ k_sending s <> ∅ \/ ~ needs ⊆ k_done s
}.

Lemma awake_step a s s' : awake_inv s -> wake_step a s = Some s' -> awake_inv s'.
Proof.
  intros [Hl Hc]. destruct a as [f|f| |]; cbn.
  - case_bool_decide; [|done]. intros [= <-]. constructor; cbn; [set_unfold; intros x Hx; destruct (decide (x = f)); naive_solver|].
    intros _. right. left. set_solver.
  - case_bool_decide; [|done]. intros [= <-]. constructor; cbn; [done|]. by left.
  - destruct (k_walker s); [|done..]. intros [= <-]. constructor; cbn; [done|].
    case_bool_decide; [done|]. by right; right.
  - destruct (k_walker s); [done| |done]. destruct (k_token s); [|done]. intros [= <-]. constructor; cbn; done.
Qed.

(** Every step uses something up. *)
Definition remaining (s : Wake) : nat :=
  4 * size (k_exchanging s) + 3 * size (k_sending s) + (if k_token s then 2 else 0) +
  match k_walker s with Looking => 1 | _ => 0 end.

Lemma step_decreases a s s' : wake_step a s = Some s' -> (remaining s' < remaining s)%nat.
Proof.
  unfold remaining. destruct a as [f|f| |]; cbn.
  - case_bool_decide as Hf; [|done]. intros [= <-]. cbn.
    assert (size (k_exchanging s ∖ {[f]}) < size (k_exchanging s))%nat by (apply subset_size; set_solver).
    assert (size (k_sending s ∪ {[f]}) <= size (k_sending s) + 1)%nat.
    { rewrite size_union_alt. pose proof (size_singleton (C := gset nat) f).
      assert (size ({[f]} ∖ k_sending s : gset nat) <= size ({[f]} : gset nat))%nat by (apply subseteq_size; set_solver). lia. }
    lia.
  - case_bool_decide as Hf; [|done]. intros [= <-]. cbn.
    assert (size (k_sending s ∖ {[f]}) < size (k_sending s))%nat by (apply subset_size; set_solver).
    destruct (k_token s); lia.
  - destruct (k_walker s) eqn:Hw; [|done..]. intros [= <-]. cbn. case_bool_decide; lia.
  - destruct (k_walker s) eqn:Hw; [done| |done]. destruct (k_token s); [|done]. intros [= <-]. cbn. lia.
Qed.

Lemma some_step s : awake_inv s -> k_walker s <> Resumed -> exists a s', wake_step a s = Some s'.
Proof.
  intros [Hl Hc] Hr. destruct (k_walker s) eqn:Hw; [|clear Hr|done].
  { exists ALook. cbn. rewrite Hw. eauto. }
  destruct (k_token s) eqn:Ht; [exists AReceive; cbn; rewrite Hw, Ht; eauto|].
  destruct (decide (k_sending s = ∅)) as [Hs|[f Hf]%set_choose_L].
  2: { exists (ASend f). cbn. rewrite bool_decide_true by done. eauto. }
  destruct (decide (k_exchanging s = ∅)) as [He|[f Hf]%set_choose_L].
  2: { exists (AComplete f). cbn. rewrite bool_decide_true by done. eauto. }
  destruct (Hc eq_refl) as [?|[?|Hn]]; [done|done|]. set_solver.
Qed.

(** C6: no wake-up is lost.  A walk that needs futures it has launched goes on at
    some point of every run, however the ends of the exchanges, the sends of
    their callbacks and the looks of the walk interleave: the walk never sleeps
    on while a future it needs is done and no token is on its way. *)
Theorem walk_always_resumes s :
  needs ⊆ k_exchanging s ∪ k_done s -> k_walker s = Looking ->
  inevitable wake_step (fun s => k_walker s = Resumed) s.
Proof.
  intros Hl Hw. apply (inevitable_measure wake_step awake_inv remaining); [..|constructor; [done|congruence]].
  - intros a s1 s2 Hi Hs. by eapply awake_step.
  - intros a s1 s2 _. apply step_decreases.
  - intros s1 Hi. destruct (decide (k_walker s1 = Resumed)); [by left|right]. by apply some_step.
Qed.

End Wake.

(** Two exchanges, one of them needed. *)
Lemma walk_always_resumes_witness :
  {[ 0%nat ]} ⊆ ({[ 0%nat; 1%nat ]} : gset nat) ∪ ∅ /\
  inevitable (wake_step {[ 0%nat ]}) (fun s => k_walker s = Resumed) (mkWake {[ 0%nat; 1%nat ]} ∅ ∅ false Looking).
Proof.
  split; [set_solver|]. apply walk_always_resumes; [set_solver|reflexivity].
Defined.
