(* ===== verification/DnsLegacy.v ===== *)
(** * DNS rules in legacy mode

    [matchDNS], [exchangeLegacy], [isAddressQuery] and [addressLimitResponseCheck]
    of [dns/router.go].  In legacy mode a rule is matched before the response is
    known, with its conditions on addresses left open; the client then checks the
    response of the rule's server, and a response that is rejected sends the
    query on to the next rule.

    The client is the interface [Reply]: an answer, a rejection of the checker, or
    a failure; what it promises is [client_promise], and [DnsClient] shows that the
    client keeps it. *)

From stdpp Require Import base numbers list strings gmap option.
From Stdlib Require Import ZArith Lia.
From S2P Require Import Prelude NetAddr Metadata RuleItems RuleAction RuleCore RuleSpec RulePreMatch RuleDispatch ManagerCore.
From S2P Require Import DnsWalk.

Local Open Scope Z_scope.

Definition TypeA : Z := 1.
Definition TypeAAAA : Z := 28.
Definition TypeHTTPS : Z := 65.

(** [isAddressQuery] *)
Definition isAddressQuery (message : DNSMessage) : bool :=
  existsb (fun q => (q_Qtype q =? TypeA) || (q_Qtype q =? TypeAAAA) || (q_Qtype q =? TypeHTTPS)) (dm_Question message).

(** What the client says: [errors.Is(err, ErrResponseRejected)] or not. *)
Inductive Reply := Answer (r : DNSMessage) | Rejected (e : error) | Failed (e : error).

Section Legacy.
Context {SH : SliceHelpers} {GS : GoStd} {TP : ThirdParty} {DF : DialerFactory}.
Context (env : RuleEnv).
Context (Transport : string -> option Member) (Default : option Member) (defaultDomainStrategy : Z).
(** [client.Exchange] with a response checker.  The number tells one call of a query
    from another, as the client's state changes in between. *)
Context (Exchange : nat -> option Member -> QueryOptions -> option (DNSMessage -> bool) -> Reply).
Context (message : DNSMessage).

(** ** [matchDNS] *)

Definition set_strategy (o : QueryOptions) (s : Z) : QueryOptions :=
  mkOptions s (qo_lookupStrategy o) (qo_disableCache o) (qo_disableOptimisticCache o) (qo_rewriteTTL o)
    (qo_timeout o) (qo_clientSubnet o) (qo_removeClientSubnet o).

(** The options of a route or route-options action *)
Definition legacy_options (options : QueryOptions) (isFakeIP : bool) (a : RuleActionDNSRouteOptions) : QueryOptions :=
  let o := if ad_Strategy a =? DomainStrategyAsIS then options else set_strategy options (ad_Strategy a) in
  let disableCache := isFakeIP || ad_DisableCache a || qo_disableCache o in
  let rewriteTTL := match ad_RewriteTTL a with Some t => Some t | None => qo_rewriteTTL o end in
  let timeout := if 0 <? ad_Timeout a then ad_Timeout a else qo_timeout o in
  let '(subnet, remove) := if Prefix_IsValid (ad_ClientSubnet a) then (ad_ClientSubnet a, false)
                           else (qo_clientSubnet o, qo_removeClientSubnet o) in
  let '(subnet, remove) := if ad_RemoveClientSubnet a then (Prefix_zero, true) else (subnet, remove) in
  mkOptions (qo_strategy o) (qo_lookupStrategy o) disableCache (qo_disableOptimisticCache o) rewriteTTL timeout subnet remove.

(** The metadata before a rule is matched. *)
Definition legacy_metadata (m : InboundContext) : InboundContext :=
  let m := ResetRuleCache m in
  let c := ic_match m in
  set_match m (mkMatch (c_DestinationAddresses c) (c_DNSResponse c) (c_NamedDNSResponses c) false
    (c_SourceGeoIPCode c) (c_GeoIPCode c) (c_ProcessInfo c) (c_SourceMACAddress c) (c_SourceHostname c)
    (c_QueryType c) (c_QueryClientSubnet c) (c_QueryDNSSEC c) (c_FakeIP c) (c_PreMatch c)).

(** The transport, the rule with its index, the metadata and the options *)
Record Matched := mkMatched {
  md_transport : option Member;
  md_rule : option (nat * Rule RuleAction);
  md_metadata : InboundContext;
  md_options : QueryOptions
}.

(** The loop of [matchDNS] over the rules from [index] on. *)
Fixpoint match_dns (allowFakeIP addressQuery : bool) (rest : list (Rule RuleAction)) (index : nat)
    (m : InboundContext) (options : QueryOptions) : Matched :=
  match rest with
  | [] => mkMatched Default None m options
  | rule :: rest =>
      let next := match_dns allowFakeIP addressQuery rest (S index) in
      if WithAddressLimit rule && negb addressQuery then next m options
      else
        match LegacyPreMatch env rule (legacy_metadata m) with
        | None => next m options
        | Some (false, m) => next m options
        | Some (true, m) =>
            match Rule_action rule with
            | Some (ActionDNSRoute server _ _ a) =>
                match Transport server with
                | None => next m options
                | Some transport =>
                    let isFakeIP := bool_decide (m_Type transport = "fakeip") in
                    if isFakeIP && negb allowFakeIP then next m options
                    else mkMatched (Some transport) (Some (index, rule)) m (legacy_options options isFakeIP a)
                end
            | Some (ActionDNSRouteOptions a) => next m (legacy_options options false a)
            | Some (ActionReject _) | Some (ActionPredefined _) => mkMatched None (Some (index, rule)) m options
            | _ => next m options
            end
        end
  end.
Definition matchDNS (rules : list (Rule RuleAction)) (allowFakeIP addressQuery : bool) (index : nat)
    (m : InboundContext) (options : QueryOptions) : Matched :=
  match_dns allowFakeIP addressQuery (drop index rules) index m options.

(** ** [exchangeLegacy] *)

(** [addressLimitResponseCheck] *)
Definition addressLimitResponseCheck (rule : option (nat * Rule RuleAction)) (m : InboundContext)
  : option (DNSMessage -> bool) :=
  match rule with
  | Some (_, rule) =>
      if WithAddressLimit rule
      then Some (fun r => default false (MatchAddressLimit env rule m (Some (msg_of r)))) else None
  | None => None
  end.

(** The response, the transport and the error *)
Record LegacyResult := mkLegacy {
  lr_response : option DNSMessage;
  lr_transport : option Member;
  lr_err : option error
}.

(** A rule that answers without a server. *)
Definition local_answer (rule : option (nat * Rule RuleAction)) : option (Res LegacyResult) :=
  match Rule_action ∘ snd <$> rule with
  | Some (Some (ActionReject action)) =>
      if bool_decide (rj_Method action = "default")
      then Some ((fun r => mkLegacy (Some r) None None) <$> dnsRefusedResponse message)
      else if bool_decide (rj_Method action = "drop") then Some (Ok (mkLegacy None None (Some ErrDrop_error)))
      else None
  | Some (Some (ActionPredefined action)) =>
      Some ((fun r => mkLegacy (Some r) None None) <$> RuleActionPredefined_Response SH action message)
  | _ => None
  end.

(** The outcome, with the rules whose response was rejected and the rule that
    decided, if one did *)
Record LegacyRun := mkRun { run_result : Res LegacyResult; run_rejected : list nat; run_rule : option nat }.

(** The loop, from a rule on; [None] when the fuel is used up. *)
Fixpoint exchangeLegacy (fuel : nat) (rules : list (Rule RuleAction)) (index : nat) (m : InboundContext)
    (options : QueryOptions) : option LegacyRun :=
  match fuel with
  | O => None
  | S fuel =>
      let '(mkMatched transport rule m dnsOptions) := matchDNS rules true (isAddressQuery message) index m options in
      match local_answer rule with
      | Some r => Some (mkRun r [] (fst <$> rule))
      | None =>
          let check := addressLimitResponseCheck rule m in
          match Exchange index transport (finalizeExchangeOptions defaultDomainStrategy dnsOptions) check with
          | Rejected e =>
              match check, rule with
              | Some _, Some (k, _) =>
                  '(mkRun r l d) ← exchangeLegacy fuel rules (S k) m options; Some (mkRun r (k :: l) d)
              | _, _ => Some (mkRun (Ok (mkLegacy None transport (Some e))) [] (fst <$> rule))
              end
          | Failed e => Some (mkRun (Ok (mkLegacy None transport (Some e))) [] (fst <$> rule))
          | Answer r => Some (mkRun (Ok (mkLegacy (Some r) transport None)) [] (fst <$> rule))
          end
      end
  end.

(** ** Metadata *)

Context (m0 : InboundContext).
(** The metadata of the query, but for what matching a rule leaves behind. *)
Definition same_query (m : InboundContext) : Prop :=
  legacy_metadata m = legacy_metadata m0 /\ IgnoreDestinationIPCIDRMatch m = false.

Lemma prematch_same (rule : Rule RuleAction) m b m1 :
  same_query m -> LegacyPreMatch env rule (legacy_metadata m) = Some (b, m1) -> same_query m1.
Proof.
  intros [Hm Hi]. unfold LegacyPreMatch.
  assert (Hd : forall d, same_query (set_Ignore (set_Deferred (set_Ignore (legacy_metadata m) true) d) false)).
  { intros d. split; [|by destruct m as [? ? ? ? [] []]]. rewrite <-Hm. destruct m as [? ? ? ? [] []]. cbn in *. by subst. }
  assert (Hsame : same_query (legacy_metadata m)).
  { split; [|by destruct m as [? ? ? ? [] []]]. rewrite <-Hm. by destruct m as [? ? ? ? [] []]. }
  destruct rule as [r|r|r|r|r mr tag race|r tags anonymous race]; try done.
  - unfold DefaultDNSRule_LegacyPreMatch. destruct mr; [by intros [= <- <-]|].
    destruct (default_match_frame env r (set_Ignore (legacy_metadata m) true)) as [d Hf].
    destruct (abstractDefaultRule_Match _ _ _ r _) as [b' m2]. cbn in Hf. subst. by intros [= <- <-].
  - unfold LogicalDNSRule_LegacyPreMatch.
    destruct (logical_match_frame env r (set_Ignore (legacy_metadata m) true)) as [d Hf].
    destruct (abstractLogicalRule_Match _ r _) as [b' m2]. cbn in Hf. subst. by intros [= <- <-].
Qed.

Lemma limit_same (rule : Rule RuleAction) m response :
  legacy_metadata m = legacy_metadata m0 ->
  MatchAddressLimit env rule m response = MatchAddressLimit env rule m0 response.
Proof.
  intros Hm. assert (He : address_limit_metadata m response = address_limit_metadata m0 response).
  { apply (f_equal (fun m => address_limit_metadata m response)) in Hm.
    destruct m as [? ? ? ? [] []], m0 as [? ? ? ? [] []]. exact Hm. }
  destruct rule; try done; cbn; unfold DefaultDNSRule_MatchAddressLimit, LogicalDNSRule_MatchAddressLimit; by rewrite He.
Qed.

(** ** Rules that are passed over *)

(** A rule whose action can decide the query. *)
Definition usable (rule : Rule RuleAction) : bool :=
  (isAddressQuery message || negb (WithAddressLimit rule)) &&
  match Rule_action rule with
  | Some (ActionDNSRoute server _ _ _) => negb (is_nil (Transport server))
  | Some (ActionReject _) | Some (ActionPredefined _) => true
  | _ => false
  end.
Definition hopeless (rule : Rule RuleAction) : Prop :=
  usable rule = true -> forall response, MatchAddressLimit env rule m0 response = Some false.
(** Rules for which matching before the response is sound. *)
Definition legacy_rule (rule : Rule RuleAction) : Prop := unmixed false rule = true /\ truthful rule = true.

Lemma prematch_false rule m m1 :
  legacy_rule rule -> same_query m -> LegacyPreMatch env rule (legacy_metadata m) = Some (false, m1) ->
  forall response, MatchAddressLimit env rule m0 response = Some false.
Proof.
  intros [Hu Ht] [Hm Hi] Hp response.
  assert (exists limit, MatchAddressLimit env rule (legacy_metadata m) response = Some limit) as [limit Hl].
  { destruct rule; try done; cbn; eauto. }
  destruct (prematch_confirm env rule (legacy_metadata m) response false m1 limit) as (H1 & _); [done|..|done|done|].
  1-3: by destruct m as [? ? ? ? [] []].
  rewrite H1 in Hl by done. rewrite <-(limit_same rule (legacy_metadata m)); [done|]. rewrite <-Hm. by destruct m as [? ? ? ? [] []].
Qed.

(** A rule without address limit that pre-matches holds for every response. *)
Lemma prematch_true rule m m1 :
  legacy_rule rule -> same_query m -> LegacyPreMatch env rule (legacy_metadata m) = Some (true, m1) ->
  WithAddressLimit rule = false -> forall response, MatchAddressLimit env rule m0 response = Some true.
Proof.
  intros [Hu Ht] [Hm Hi] Hp Hw response.
  assert (exists limit, MatchAddressLimit env rule (legacy_metadata m) response = Some limit) as [limit Hl].
  { destruct rule; try done; cbn; eauto. }
  destruct (prematch_confirm env rule (legacy_metadata m) response true m1 limit) as (_ & H2 & _ & H4); [done|..|done|done|].
  1-3: by destruct m as [? ? ? ? [] []].
  rewrite no_limit_no_defer in H4 by done.
  rewrite <-(limit_same rule (legacy_metadata m)); [|rewrite <-Hm; by destruct m as [? ? ? ? [] []]].
  rewrite Hl. f_equal. cbn in *. auto.
Qed.

(** What [matchDNS] finds. *)
Lemma match_dns_spec rest : forall index m options,
  Forall legacy_rule rest -> same_query m ->
  let md := match_dns true (isAddressQuery message) rest index m options in
  same_query (md_metadata md) /\
  match md_rule md with
  | None => Forall hopeless rest
  | Some (k, rule) =>
      exists before after, rest = before ++ rule :: after /\ k = (index + length before)%nat /\
        Forall hopeless before /\ usable rule = true /\
        exists m1 m2, same_query m1 /\ LegacyPreMatch env rule (legacy_metadata m1) = Some (true, m2)
  end.
Proof.
  induction rest as [|rule rest IH]; intros index m options Hl Hm; cbn [match_dns]; [by split; [|constructor]|].
  apply Forall_cons_iff in Hl as [Hr Hl]. cbv zeta.
  assert (Hnext : forall m options, same_query m -> hopeless rule ->
            let md := match_dns true (isAddressQuery message) rest (S index) m options in
            same_query (md_metadata md) /\
            match md_rule md with
            | None => Forall hopeless (rule :: rest)
            | Some (k, rule0) =>
                exists before after, rule :: rest = before ++ rule0 :: after /\ k = (index + length before)%nat /\
                  Forall hopeless before /\ usable rule0 = true /\
                  exists m1 m2, same_query m1 /\ LegacyPreMatch env rule0 (legacy_metadata m1) = Some (true, m2)
            end).
  { intros m' o' Hm' Hh. destruct (IH (S index) m' o' Hl Hm') as [Hs Hmd]. cbv zeta in *. split; [done|].
    destruct (md_rule _) as [[k rule0]|]; [|by constructor].
    destruct Hmd as (before & after & -> & -> & Hb & Hmd). exists (rule :: before), after. split; [done|].
    split; [cbn; lia|]. split; [by constructor|done]. }
  destruct (WithAddressLimit rule && negb (isAddressQuery message)) eqn:Hskip.
  { apply Hnext; [done|]. unfold hopeless, usable. apply andb_true_iff in Hskip as [-> H2].
    apply negb_true_iff in H2. by rewrite H2. }
  destruct (LegacyPreMatch env rule (legacy_metadata m)) as [[[] m1]|] eqn:Hp.
  2: { apply Hnext; [by eapply prematch_same|]. intros _. by eapply prematch_false. }
  2: { apply Hnext; [done|]. destruct Hr as [_ Ht]. by destruct rule. }
  pose proof (prematch_same rule m true m1 Hm Hp) as Hm1.
  assert (Hlim : isAddressQuery message || negb (WithAddressLimit rule) = true).
  { destruct (WithAddressLimit rule), (isAddressQuery message); done. }
  assert (Hstop : forall transport options, usable rule = true ->
            let md := mkMatched transport (Some (index, rule)) m1 options in
            same_query (md_metadata md) /\
            exists before after, rule :: rest = before ++ rule :: after /\ index = (index + length before)%nat /\
                  Forall hopeless before /\ usable rule = true /\
                  exists m1 m2, same_query m1 /\ LegacyPreMatch env rule (legacy_metadata m1) = Some (true, m2)).
  { intros transport o' Hus. split; [done|]. exists [], rest. split; [done|]. split; [cbn; lia|]. split; [constructor|].
    split; [done|]. by exists m, m1. }
  assert (Hus : usable rule = match Rule_action rule with
                              | Some (ActionDNSRoute server _ _ _) => negb (is_nil (Transport server))
                              | Some (ActionReject _) | Some (ActionPredefined _) => true
                              | _ => false
                              end) by (unfold usable; by rewrite Hlim).
  assert (Hno : usable rule = false -> hopeless rule) by (unfold hopeless; congruence).
  destruct (Rule_action rule) as [[]|]; try (by apply Hnext; auto); try (by apply Hstop).
  match type of Hus with context [Transport ?s] => destruct (Transport s) as [t|] end; [|by apply Hnext; auto].
  cbn [negb]. rewrite andb_false_r. by apply Hstop.
Qed.

(** ** The loop *)

(** Answers that the client gives without asking the server, and what it makes of a
    server's response before it passes it on *)
Context (unasked : nat -> option Member -> QueryOptions -> DNSMessage -> Prop).
Context (delivered : QueryOptions -> DNSMessage -> DNSMessage -> Prop).
(** An answer of the client was not asked for, or is made of a response that the
    checker accepted; without a checker nothing is rejected. *)
Record client_promise : Prop := {
  cp_checked : forall i t o c r, Exchange i t o (Some c) = Answer r ->
                 unasked i t o r \/ exists raw, c raw = true /\ delivered o raw r;
  cp_unchecked : forall i t o e, Exchange i t o None <> Rejected e
}.

(** A rule holds for the answer [r] of its server [t]: it has no conditions on
    addresses and holds whatever the response, or the response that the server
    sent satisfies it, or the server was not asked. *)
Definition holds_for (rule : Rule RuleAction) (t : Member) (r : DNSMessage) : Prop :=
  (WithAddressLimit rule = false /\ forall response, MatchAddressLimit env rule m0 response = Some true) \/
  WithAddressLimit rule = true /\
    ((exists i o, unasked i (Some t) o r) \/
     exists o raw, delivered o raw r /\ MatchAddressLimit env rule m0 (Some (msg_of raw)) = Some true).

(** What a run from rule [index] on has found. *)
Record legacy_sound (rules : list (Rule RuleAction)) (index : nat) (run : LegacyRun) : Prop := {
  ls_rejected : forall k, k ∈ run_rejected run -> (index <= k)%nat /\
                  exists rule, rules !! k = Some rule /\ WithAddressLimit rule = true;
  ls_from : forall d, run_rule run = Some d -> (index <= d)%nat;
  ls_order : forall k d, k ∈ run_rejected run -> run_rule run = Some d -> (k < d)%nat;
  ls_others : forall j rule, (index <= j)%nat -> rules !! j = Some rule -> j ∉ run_rejected run ->
                (forall d, run_rule run = Some d -> (j < d)%nat) -> hopeless rule;
  ls_answer : forall d rule r t, run_rule run = Some d -> rules !! d = Some rule ->
                run_result run = Ok (mkLegacy (Some r) (Some t) None) -> holds_for rule t r;
  ls_default : run_rule run = None -> forall r t e, run_result run = Ok (mkLegacy r t e) -> t = Default
}.

Lemma match_dns_default rest : forall index m options,
  let md := match_dns true (isAddressQuery message) rest index m options in
  md_rule md = None -> md_transport md = Default.
Proof.
  induction rest as [|rule rest IH]; intros index m options; cbn [match_dns]; [done|]. cbv zeta.
  destruct (_ && _); [apply IH|]. destruct (LegacyPreMatch _ _ _) as [[[] m1]|]; [|apply IH..].
  destruct (Rule_action rule) as [[]|]; try apply IH; try done.
  match goal with |- context [Transport ?s] => destruct (Transport s) as [t|] end; [|apply IH].
  destruct (_ && _); [apply IH|done].
Qed.

(** Rules before the one that was found. *)
Lemma skipped_hopeless rules index j ru before after :
  drop index rules = before ++ after -> Forall hopeless before ->
  (index <= j < index + length before)%nat -> rules !! j = Some ru -> hopeless ru.
Proof.
  intros He Hb Hj Hru. rewrite list.Forall_forall in Hb. apply Hb. apply list_elem_of_lookup. exists (j - index)%nat.
  replace (rules !! j) with (drop index rules !! (j - index)%nat) in Hru by (rewrite lookup_drop; f_equal; lia).
  rewrite He, lookup_app_l in Hru by lia. done.
Qed.

(** A run that ends here. *)
Lemma sound_stop rules index (rule : option (nat * Rule RuleAction)) r :
  match rule with
  | None => Forall hopeless (drop index rules)
  | Some (k, rule) => exists before after, drop index rules = before ++ rule :: after /\
                        k = (index + length before)%nat /\ Forall hopeless before
  end ->
  (forall k ru x t, rule = Some (k, ru) -> r = Ok (mkLegacy (Some x) (Some t) None) ->
     holds_for ru t x) ->
  (rule = None -> forall x t e, r = Ok (mkLegacy x t e) -> t = Default) ->
  legacy_sound rules index (mkRun r [] (fst <$> rule)).
Proof.
  intros Hrest Ha Hd.
  assert (Hskip := skipped_hopeless rules index).
  constructor; cbn.
  - intros k Hk. by apply not_elem_of_nil in Hk.
  - intros d. destruct rule as [[k ru]|]; [|done]. cbn. intros [= <-]. destruct Hrest as (? & ? & _ & -> & _). lia.
  - intros k d Hk. by apply not_elem_of_nil in Hk.
  - intros j ru Hj Hru _ Hlt. destruct rule as [[k rule]|]; cbn in Hlt.
    + destruct Hrest as (before & after & He & -> & Hb). specialize (Hlt _ eq_refl).
      eapply (Hskip j); [exact He|done|lia|done].
    + pose proof (lookup_lt_Some _ _ _ Hru). eapply (Hskip j ru (drop index rules) []); [by rewrite app_nil_r|done| |done].
      rewrite length_drop. lia.
  - intros d ru x t Hrule Hru Hr. destruct rule as [[k rule]|]; [|done]. cbn in Hrule. injection Hrule as <-.
    destruct Hrest as (before & after & He & -> & Hb).
    assert (Hin : drop index rules !! length before = Some rule) by (rewrite He; by apply list_lookup_middle).
    rewrite lookup_drop, Hru in Hin. injection Hin as ->. by eapply Ha.
  - intros Hnone. apply Hd. by destruct rule.
Qed.

Lemma local_no_transport rule r x t : local_answer rule = Some r -> r <> Ok (mkLegacy (Some x) (Some t) None).
Proof.
  unfold local_answer. destruct (Rule_action ∘ snd <$> rule) as [[[]|]|]; try done.
  - repeat case_bool_decide; try done; intros [= <-]; [|done]. by destruct (dnsRefusedResponse message).
  - intros [= <-]. by destruct (RuleActionPredefined_Response _ _ _).
Qed.

Lemma legacy_loop (rules : list (Rule RuleAction)) options : Forall legacy_rule rules -> client_promise ->
  forall fuel index m, (length rules - index < fuel)%nat -> same_query m ->
  exists run, exchangeLegacy fuel rules index m options = Some run /\ legacy_sound rules index run.
Proof.
  intros Hrules Hclient. induction fuel as [|fuel IH]; intros index m Hfuel Hm; [lia|]. cbn [exchangeLegacy].
  unfold matchDNS. pose proof (match_dns_default (drop index rules) index m options) as Hdef.
  destruct (match_dns_spec (drop index rules) index m options) as [Hm1 Hmd]; [by apply Forall_drop|done|].
  cbv zeta in *. destruct (match_dns _ _ _ _ _ _) as [transport rule m1 o1]. cbn in Hm1, Hmd, Hdef.
  assert (Hpos : match rule with
                 | None => Forall hopeless (drop index rules)
                 | Some (k, rule) => exists before after, drop index rules = before ++ rule :: after /\
                                       k = (index + length before)%nat /\ Forall hopeless before
                 end).
  { destruct rule as [[k ru]|]; [|done]. destruct Hmd as (b & a & H1 & H2 & H3 & _). by exists b, a. }
  destruct (local_answer rule) as [r|] eqn:Hlocal.
  { eexists. split; [reflexivity|]. apply sound_stop; [done| |].
    - intros k ru x t _ Hr. by destruct (local_no_transport rule r x t Hlocal).
    - intros ->. unfold local_answer in Hlocal. done. }
  set (check := addressLimitResponseCheck rule m1) in *.
  set (exchange := Exchange index transport (finalizeExchangeOptions defaultDomainStrategy o1) check) in *.
  assert (Hanswer : forall k ru x t, rule = Some (k, ru) -> exchange = Answer x -> 
            Ok (mkLegacy (Some x) transport None) = Ok (mkLegacy (Some x) (Some t) None) ->
            holds_for ru t x).
  { intros k ru x t -> Hx [= Ht]. destruct Hmd as (b & a & He & -> & _ & _ & m2 & m3 & Hm2 & Hp).
    assert (Hlr : legacy_rule ru).
    { assert (Hin : ru ∈ rules).
      { apply (list_elem_of_lookup_2 _ (index + length b)). rewrite <-lookup_drop, He. by apply list_lookup_middle. }
      rewrite list.Forall_forall in Hrules. by apply Hrules. }
    unfold exchange, check, addressLimitResponseCheck in Hx. destruct (WithAddressLimit ru) eqn:Hw.
    - right. split; [done|].
      apply (cp_checked Hclient) in Hx as [Hx|(raw & Hx & Hd)]; [left; rewrite Ht in Hx; eauto|right].
      eexists _, raw. split; [exact Hd|]. rewrite (limit_same ru m1) in Hx by apply Hm1.
      by destruct (MatchAddressLimit _ _ _ _) as [[]|].
    - left. split; [done|]. by eapply prematch_true. }
  assert (Hdefault : forall x e, rule = None -> forall x' t e', Ok (mkLegacy x transport e) = Ok (mkLegacy x' t e') -> t = Default).
  { intros x e Hn x' t e' [= _ <- _]. by apply Hdef. }
  destruct exchange as [x|e|e] eqn:Hex.
  - eexists. split; [reflexivity|]. apply sound_stop; [done| |by apply Hdefault].
    intros k ru x' t Hru Hr. injection Hr as -> ->. by eapply Hanswer.
  - destruct check as [c|] eqn:Hc.
    2: { exfalso. unfold exchange in Hex. by apply (cp_unchecked Hclient) in Hex. }
    destruct rule as [[k ru]|]; [|by eexists; split; [reflexivity|]; apply (sound_stop _ _ None); [| |by apply Hdefault]].
    destruct Hpos as (before & after & He & -> & Hb).
    assert (Hk : rules !! (index + length before)%nat = Some ru).
    { rewrite <-lookup_drop, He. by apply list_lookup_middle. }
    pose proof (lookup_lt_Some _ _ _ Hk) as Hlt.
    destruct (IH (S (index + length before)) m1) as (run & -> & [H1 H0 H2 H3 H4 H5]); [lia|done|].
    destruct run as [r l d]. cbn in *. eexists. split; [reflexivity|]. constructor; cbn; try done.
    + intros j [->|Hj]%elem_of_cons.
      * split; [lia|]. exists ru. split; [done|]. unfold check, addressLimitResponseCheck in Hc.
        by destruct (WithAddressLimit ru).
      * destruct (H1 j Hj) as [? ?]. split; [lia|done].
    + intros d' Hd'. specialize (H0 d' Hd'). lia.
    + intros j d' [->|Hj]%elem_of_cons Hd'; [specialize (H0 d' Hd'); lia|by eapply H2].
    + intros j ru' Hj Hru' [Hne Hnl]%not_elem_of_cons Hlt'. destruct (decide (j < index + length before)%nat).
      * eapply (skipped_hopeless _ _ j); [exact He|done|lia|done].
      * eapply (H3 j); [lia|done|done|done].
  - eexists. split; [reflexivity|]. apply sound_stop; [done| |by apply Hdefault].
    intros k ru x' t Hru Hr. done.
Qed.


End Legacy.
