(* ===== verification/DnsMessage.v ===== *)
(** * DNS messages in the client

    [extension_edns0_subnet.go] and the parts of [dns/client.go] that rewrite
    messages: the EDNS client subnet, times to live, padding, and the responses
    the program makes itself.  Records carry their header here; messages are
    values, so [Copy] is the identity. *)

From stdpp Require Import base numbers list strings gmap option.
From Stdlib Require Import ZArith Lia.
From S2P Require Import Prelude Bytes NetAddr Metadata RuleAction.

Local Open Scope Z_scope.

(** ** Records *)

(** [dns.EDNS0]: the client subnet, or another option with its code *)
Inductive EDNS0 :=
  | E_Subnet (family netmask scope : Z) (address : list Z)
  | E_Option (code : Z).
Definition EDNS0SUBNET : Z := 8.
Definition EDNS0PADDING : Z := 12.
Definition option_code (o : EDNS0) : Z :=
  match o with E_Subnet _ _ _ _ => EDNS0SUBNET | E_Option code => code end.

(** The dynamic types of [dns.RR] that the client looks at *)
Inductive RData :=
  | D_A (ip : list Z)
  | D_AAAA (ip : list Z)
  | D_HTTPS (value : list SVCBValue)
  | D_SOA (minttl : Z)
  | D_OPT (options : list EDNS0)
  | D_CNAME (target : string)
  | D_TXT (txt : list string)
  | D_MX (preference : Z) (mx : string)
  | D_Other (rdata : list Z).
(** [RR_Header] and the data *)
Record Rec := mkRec { r_name : string; r_type : Z; r_class : Z; r_ttl : Z; r_data : RData }.
Definition T_A : Z := 1.
Definition T_CNAME : Z := 5.
Definition T_TXT : Z := 16.
Definition T_MX : Z := 15.
Definition T_AAAA : Z := 28.
Definition T_OPT : Z := 41.
Definition T_HTTPS : Z := 65.
Definition ClassINET : Z := 1.

(** [dns.Msg] *)
Record CMsg := mkCMsg {
  c_hdr : MsgHdr;
  c_Question : list Question;
  c_Answer : list Rec;
  c_Ns : list Rec;
  c_Extra : list Rec
}.
Definition set_Extra (m : CMsg) (l : list Rec) : CMsg := mkCMsg (c_hdr m) (c_Question m) (c_Answer m) (c_Ns m) l.
Definition set_ttl (r : Rec) (t : Z) : Rec := mkRec (r_name r) (r_type r) (r_class r) t (r_data r).
Definition set_data (r : Rec) (d : RData) : Rec := mkRec (r_name r) (r_type r) (r_class r) (r_ttl r) d.
Definition set_Id (m : CMsg) (id : Z) : CMsg :=
  let h := c_hdr m in
  mkCMsg (mkMsgHdr id (hdr_Response h) (hdr_Authoritative h) (hdr_RecursionDesired h) (hdr_RecursionAvailable h) (hdr_Rcode h))
    (c_Question m) (c_Answer m) (c_Ns m) (c_Extra m).

(** ** The client subnet *)

(** The options of an OPT record *)
Definition rec_options (r : Rec) : option (list EDNS0) :=
  match r_data r with D_OPT options => Some options | _ => None end.
Definition subnet_option (o : EDNS0) : option Prefix :=
  match o with
  | E_Subnet _ netmask _ address =>
      Some (match AddrFromSlice address with
            | None => Prefix_zero
            | Some a => PrefixFrom (Addr_Unmap a) netmask
            end)
  | E_Option _ => None
  end.
(** The first element with a value *)
Fixpoint first_some {A B} (f : A -> option B) (l : list A) : option B :=
  match l with
  | [] => None
  | a :: rest => match f a with Some b => Some b | None => first_some f rest end
  end.
(** [clientSubnetFromMessage] *)
Definition record_subnet (r : Rec) : option Prefix := rec_options r ≫= first_some subnet_option.
Definition clientSubnetFromMessage (m : CMsg) : Prefix := default Prefix_zero (first_some record_subnet (c_Extra m)).

(** [removeClientSubnet] *)
Definition without_subnet (r : Rec) : Rec :=
  match r_data r with
  | D_OPT options => set_data r (D_OPT (List.filter (fun o => negb (option_code o =? EDNS0SUBNET)) options))
  | _ => r
  end.
Definition has_subnet (r : Rec) : bool :=
  match rec_options r with Some options => existsb (fun o => option_code o =? EDNS0SUBNET) options | None => false end.
Definition removeClientSubnet (m : CMsg) : CMsg :=
  if negb (existsb has_subnet (c_Extra m)) then m else set_Extra m (map without_subnet (c_Extra m)).

(** The position of the first subnet option *)
Fixpoint find_subnet (options : list EDNS0) : option nat :=
  match options with
  | [] => None
  | E_Subnet _ _ _ _ :: _ => Some 0%nat
  | E_Option _ :: rest => S <$> find_subnet rest
  end.
(** The loop [findExists]: the variables [optRecord] and [subnetOption] when it
    ends; [optRecord] is nil again after a record that is not an OPT. *)
Fixpoint find_exists (l : list Rec) (i : nat) (opt : option nat) : option nat * option nat :=
  match l with
  | [] => (opt, None)
  | r :: rest =>
      match rec_options r with
      | None => find_exists rest (S i) None
      | Some options =>
          match find_subnet options with
          | Some j => (Some i, Some j)
          | None => find_exists rest (S i) (Some i)
          end
      end
  end.

(** The option for a prefix; the scope of an option that exists stays. *)
Definition subnet_for (scope : Z) (p : Prefix) : EDNS0 :=
  E_Subnet (if Addr_Is4 (Prefix_Addr p) then 1 else 2) (Prefix_Bits p mod 256) scope (Addr_AsSlice (Prefix_Addr p)).
Definition put_subnet (j : option nat) (p : Prefix) (options : list EDNS0) : list EDNS0 :=
  match j with
  | None => options ++ [subnet_for 0 p]
  | Some j => <[j := subnet_for match options !! j with Some (E_Subnet _ _ scope _) => scope | _ => 0 end p]> options
  end.
Definition put_record (j : option nat) (p : Prefix) (r : Rec) : Rec :=
  match r_data r with D_OPT options => set_data r (D_OPT (put_subnet j p options)) | _ => r end.

(** [SetClientSubnet] *)
Definition SetClientSubnet (m : CMsg) (p : Prefix) : CMsg :=
  match find_exists (c_Extra m) 0 None with
  | (None, _) => set_Extra m (c_Extra m ++ [mkRec "." T_OPT 0 0 (D_OPT [subnet_for 0 p])])
  | (Some i, j) => set_Extra m (alter (put_record j p) i (c_Extra m))
  end.

(** ** Times to live *)

(** [extractNegativeTTL] *)
Definition negative_ttl (r : Rec) : option Z :=
  match r_data r with D_SOA minttl => Some (if r_ttl r <? minttl then r_ttl r else minttl) | _ => None end.
Definition extractNegativeTTL (m : CMsg) : option Z := first_some negative_ttl (c_Ns m).

(** [computeTimeToLive] *)
Definition ttl_step (timeToLive ttl : Z) : Z :=
  if (timeToLive =? 0) || (0 <? ttl) && (ttl <? timeToLive) then ttl else timeToLive.
Definition counted (m : CMsg) : list Z :=
  map r_ttl (List.filter (fun r => negb (r_type r =? T_OPT)) (c_Answer m ++ c_Ns m ++ c_Extra m)).
Definition computeTimeToLive (m : CMsg) : Z :=
  match c_Answer m, extractNegativeTTL m with
  | [], Some t => t
  | _, _ => fold_left ttl_step (counted m) 0
  end.

(** [normalizeTTL] *)
Definition normalize_record (t : Z) (r : Rec) : Rec := if r_type r =? T_OPT then r else set_ttl r t.
Definition normalizeTTL (m : CMsg) (t : Z) : CMsg :=
  mkCMsg (c_hdr m) (c_Question m) (map (normalize_record t) (c_Answer m)) (map (normalize_record t) (c_Ns m))
    (map (normalize_record t) (c_Extra m)).

(** [stripDNSPadding] *)
Definition strip_padding (r : Rec) : Rec :=
  match r_data r with
  | D_OPT options => set_data r (D_OPT (List.filter (fun o => negb (option_code o =? EDNS0PADDING)) options))
  | _ => r
  end.
Definition stripDNSPadding (m : CMsg) : CMsg := set_Extra m (map strip_padding (c_Extra m)).

(** ** Responses of the program *)

(** [FixedResponseStatus] *)
Definition FixedResponseStatus (m : CMsg) (rcode : Z) : CMsg :=
  mkCMsg (mkMsgHdr (hdr_Id (c_hdr m)) true true true true rcode) (c_Question m) [] [] [].

(** [FixedResponse] and its variants *)
Definition fixed (id : Z) (q : Question) (l : list Rec) : CMsg :=
  mkCMsg (mkMsgHdr id true true true true 0) [q] l [] [].
Definition FixedResponse (id : Z) (q : Question) (addresses : list Addr) (ttl : Z) : CMsg :=
  fixed id q (omap (fun a =>
    match a with
    | Addr4 _ => if q_Qtype q =? T_A then Some (mkRec (q_Name q) T_A ClassINET ttl (D_A (Addr_AsSlice a))) else None
    | Addr6 _ _ => if q_Qtype q =? T_AAAA then Some (mkRec (q_Name q) T_AAAA ClassINET ttl (D_AAAA (Addr_AsSlice a))) else None
    | AddrNone => None
    end) addresses).
Definition FixedResponseCNAME (id : Z) (q : Question) (record : string) (ttl : Z) : CMsg :=
  fixed id q [mkRec (q_Name q) T_CNAME ClassINET ttl (D_CNAME record)].
Definition FixedResponseTXT (id : Z) (q : Question) (records : list string) (ttl : Z) : CMsg :=
  fixed id q [mkRec (q_Name q) T_A ClassINET ttl (D_TXT records)].
Definition FixedResponseMX (id : Z) (q : Question) (records : list (Z * string)) (ttl : Z) : CMsg :=
  fixed id q (map (fun '(pref, host) => mkRec (q_Name q) T_A ClassINET ttl (D_MX pref host)) records).

(** [sortAddresses] *)
Definition DomainStrategyPreferIPv4 : Z := 1.
Definition DomainStrategyPreferIPv6 : Z := 2.
Definition DomainStrategyIPv4Only : Z := 3.
Definition DomainStrategyIPv6Only : Z := 4.
Definition sortAddresses (response4 response6 : list Addr) (strategy : Z) : list Addr :=
  if strategy =? DomainStrategyPreferIPv6 then response6 ++ response4 else response4 ++ response6.

(** ** Round trips *)

(** A prefix of an address family, not of mapped addresses *)
Definition plain_prefix (p : Prefix) : Prop :=
  0 <= Prefix_Bits p <= Addr_BitLen (Prefix_Addr p) /\
  match Prefix_Addr p with
  | AddrNone => False
  | Addr4 v => 0 <= v < 2 ^ 32
  | Addr6 v zone => 0 <= v < 2 ^ 128 /\ zone = "" /\ Addr_Is4In6 (Prefix_Addr p) = false
  end.

Lemma subnet_for_read scope p : plain_prefix p -> subnet_option (subnet_for scope p) = Some p.
Proof.
  destruct p as [[|v|v zone] bits]; unfold plain_prefix; cbn [Prefix_Addr Prefix_Bits Addr_BitLen]; intros [Hb Ha]; [done| |].
  - unfold subnet_option, subnet_for. cbn [Prefix_Addr Prefix_Bits Addr_AsSlice]. unfold AddrFromSlice.
    rewrite be_bytes_length, be_value_bytes by done. cbn [Nat.eqb]. unfold PrefixFrom. cbn.
    rewrite Z.mod_small by lia. replace (0 <=? bits) with true by (symmetry; apply Z.leb_le; lia).
    replace (bits <=? 32) with true by (symmetry; apply Z.leb_le; lia). done.
  - destruct Ha as (Hv & -> & H46). unfold subnet_option, subnet_for. cbn [Prefix_Addr Prefix_Bits Addr_AsSlice].
    unfold AddrFromSlice. rewrite be_bytes_length, be_value_bytes by done. cbn [Nat.eqb]. unfold Addr_Unmap. rewrite H46.
    unfold PrefixFrom. cbn. rewrite Z.mod_small by lia. replace (0 <=? bits) with true by (symmetry; apply Z.leb_le; lia).
    replace (bits <=? 128) with true by (symmetry; apply Z.leb_le; lia). done.
Qed.

Lemma first_some_app {A B} (f : A -> option B) l l' :
  first_some f (l ++ l') = match first_some f l with Some b => Some b | None => first_some f l' end.
Proof. induction l as [|a l IH]; cbn; [done|]. by destruct (f a). Qed.

Lemma find_subnet_none options : find_subnet options = None -> first_some subnet_option options = None.
Proof. induction options as [|[] l IH]; cbn; [done|done|]. destruct (find_subnet l); [done|auto]. Qed.

Lemma put_subnet_read p options :
  plain_prefix p -> first_some subnet_option (put_subnet (find_subnet options) p options) = Some p.
Proof.
  intros Hp. induction options as [|[f n s a|code] l IH]; cbn [find_subnet put_subnet app first_some].
  - by rewrite subnet_for_read.
  - change (first_some subnet_option (subnet_for s p :: l) = Some p). cbn [first_some]. by rewrite subnet_for_read.
  - destruct (find_subnet l) as [j|]; exact IH.
Qed.

(** Where the loop ends, and what it has passed. *)
Lemma find_exists_spec l : forall i opt,
  match find_exists l i opt with
  | (o, Some j) => exists before r after options, l = before ++ r :: after /\ o = Some (i + length before)%nat /\
                     rec_options r = Some options /\ find_subnet options = Some j /\ first_some record_subnet before = None
  | (o, None) => first_some record_subnet l = None /\
                 (o = opt \/ o = None \/
                  exists before r after options, l = before ++ r :: after /\ o = Some (i + length before)%nat /\
                    rec_options r = Some options /\ find_subnet options = None)
  end.
Proof.
  induction l as [|r l IH]; intros i opt; cbn [find_exists first_some]; [auto|].
  unfold record_subnet at 2 3. unfold record_subnet in IH |- *. destruct (rec_options r) as [options|] eqn:Hr; cbn.
  - destruct (find_subnet options) as [j|] eqn:Hf.
    + exists [], r, l, options. cbn. rewrite Nat.add_0_r. done.
    + rewrite (find_subnet_none _ Hf). specialize (IH (S i) (Some i)). destruct (find_exists l (S i) (Some i)) as [o [j|]].
      * destruct IH as (b & r' & a & os & -> & -> & H1 & H2 & H3). exists (r :: b), r', a, os. cbn. rewrite Hr. cbn.
        rewrite (find_subnet_none _ Hf). repeat split; try done. f_equal. lia.
      * destruct IH as [Hn [->|[->|(b & r' & a & os & -> & -> & H1 & H2)]]]; (split; [done|]); [|auto|].
        { right. right. exists [], r, l, options. cbn. rewrite Nat.add_0_r. done. }
        right. right. exists (r :: b), r', a, os. cbn. repeat split; try done. f_equal. lia.
  - specialize (IH (S i) None). destruct (find_exists l (S i) None) as [o [j|]].
    + destruct IH as (b & r' & a & os & -> & -> & H1 & H2 & H3). exists (r :: b), r', a, os. cbn. rewrite Hr. cbn.
      repeat split; try done. f_equal. lia.
    + destruct IH as [Hn [->|[->|(b & r' & a & os & -> & -> & H1 & H2)]]]; (split; [done|]); [auto|auto|].
      right. right. exists (r :: b), r', a, os. cbn. repeat split; try done. f_equal. lia.
Qed.

Lemma alter_middle {A} (f : A -> A) before r after : alter f (length before) (before ++ r :: after) = before ++ f r :: after.
Proof. induction before as [|x l IH]; cbn; [done|]. by rewrite IH. Qed.

Lemma put_record_read p r options :
  plain_prefix p -> rec_options r = Some options -> record_subnet (put_record (find_subnet options) p r) = Some p.
Proof.
  intros Hp Hr. unfold record_subnet, put_record, rec_options in *. destruct (r_data r); try done. injection Hr as ->. cbn.
  by apply put_subnet_read.
Qed.

Lemma first_none_split before r after :
  first_some record_subnet (before ++ r :: after) = None ->
  first_some record_subnet before = None /\ first_some record_subnet after = None.
Proof.
  rewrite first_some_app. destruct (first_some record_subnet before); [done|]. cbn. destruct (record_subnet r); [done|]. done.
Qed.

(** Records without a subnet. *)
Lemma no_subnet_option options :
  existsb (fun o => option_code o =? EDNS0SUBNET) options = false -> first_some subnet_option options = None.
Proof. induction options as [|[] l IH]; cbn; [done|done|]. intros [_ H]%orb_false_iff. auto. Qed.

Lemma removed_record r : record_subnet (without_subnet r) = None.
Proof.
  unfold record_subnet, without_subnet, rec_options. destruct (r_data r) eqn:Hd; rewrite ?Hd; try done.
  cbn [set_data r_data]. apply no_subnet_option. clear Hd. induction options as [|o l IH]; [done|]. cbn [List.filter].
  destruct (option_code o =? EDNS0SUBNET) eqn:E; cbn [negb]; [done|]. cbn. by rewrite E.
Qed.

Lemma unmarked_record r : has_subnet r = false -> record_subnet r = None.
Proof. unfold record_subnet, has_subnet. destruct (rec_options r); [|done]. apply no_subnet_option. Qed.

Lemma first_some_map {A B C} (f : B -> option C) (g : A -> B) l :
  (forall a, f (g a) = None) -> first_some f (map g l) = None.
Proof. intros H. induction l as [|a l IH]; cbn; [done|]. by rewrite H. Qed.

(** The client subnet of a message can be set, read back and removed.
    Whatever options and additional records a message has, the subnet read
    after [SetClientSubnet] is the one that was set, and after
    [removeClientSubnet] there is none. *)
Theorem client_subnet_roundtrip m p :
  plain_prefix p ->
  clientSubnetFromMessage (SetClientSubnet m p) = p /\ clientSubnetFromMessage (removeClientSubnet m) = Prefix_zero.
Proof.
  intros Hp. unfold clientSubnetFromMessage. split.
  - unfold SetClientSubnet. pose proof (find_exists_spec (c_Extra m) 0 None) as Hf.
    destruct (find_exists (c_Extra m) 0 None) as [o [j|]].
    + destruct Hf as (b & r & a & os & He & -> & Hr & Hj & Hb). cbn [set_Extra c_Extra plus Nat.add].
      rewrite He, alter_middle, first_some_app, Hb. cbn. rewrite <-Hj, (put_record_read p r os) by done. done.
    + destruct Hf as [Hn [->|[->|(b & r & a & os & He & -> & Hr & Hj)]]].
      1,2: cbn [set_Extra c_Extra]; rewrite first_some_app, Hn; unfold record_subnet, rec_options;
           cbn [first_some r_data mbind option_bind]; by rewrite subnet_for_read.
      rewrite He in *. apply first_none_split in Hn as [Hb _]. cbn [set_Extra c_Extra plus Nat.add].
      rewrite alter_middle, first_some_app, Hb. cbn. rewrite <-Hj, (put_record_read p r os) by done. done.
  - unfold removeClientSubnet. destruct (existsb has_subnet (c_Extra m)) eqn:He; cbn [negb set_Extra c_Extra].
    + by rewrite (first_some_map record_subnet without_subnet) by apply removed_record.
    + induction (c_Extra m) as [|r l IH]; [done|]. cbn in *. apply orb_false_iff in He as [E1 E2].
      rewrite unmarked_record by done. by apply IH.
Qed.

(** A query with an OPT record that has no subnet, and one more record. *)
Definition opt_query : CMsg :=
  mkCMsg (mkMsgHdr 7 false false true false 0) [mkQuestion "a.example." 1 1] [] []
    [mkRec "." T_OPT 1232 0 (D_OPT [E_Option EDNS0PADDING]); mkRec "k.example." 250 255 0 (D_Other [])].
Lemma client_subnet_roundtrip_witness :
  plain_prefix (mkPrefix (Addr4 0x0a000000) 8) /\
  clientSubnetFromMessage (SetClientSubnet opt_query (mkPrefix (Addr4 0x0a000000) 8)) = mkPrefix (Addr4 0x0a000000) 8.
Proof.
  assert (Hp : plain_prefix (mkPrefix (Addr4 0x0a000000) 8)) by (split; cbn; lia).
  split; [exact Hp|]. exact (proj1 (client_subnet_roundtrip opt_query _ Hp)).
Defined.

(** The subnet of such a query goes into a second OPT record: the loop forgets
    the first one at the record after it.  A message has at most one. *)
Theorem second_opt_record :
  length (List.filter (fun r => r_type r =? T_OPT)
            (c_Extra (SetClientSubnet opt_query (mkPrefix (Addr4 0x0a000000) 8)))) = 2%nat.
Proof. reflexivity. Qed.

(** TXT and MX responses are labelled as A records. *)
Theorem fixed_text_mislabelled id name ttl :
  map (fun r => (r_type r, r_data r)) (c_Answer (FixedResponseTXT id (mkQuestion name T_TXT 1) ["text"] ttl)) =
    [(T_A, D_TXT ["text"])] /\
  map r_type (c_Answer (FixedResponseMX id (mkQuestion name T_MX 1) [(10, "mx.example.")] ttl)) = [T_A].
Proof. done. Qed.

(** ** Times to live *)

Lemma ttl_fold l : forall t,
  0 <= t -> Forall (fun u => 0 <= u) l ->
  let r := fold_left ttl_step l t in
  (r = 0 <-> t = 0 /\ Forall (fun u => u = 0) l) /\
  (r <> 0 -> (r = t \/ r ∈ l) /\ (t <> 0 -> r <= t) /\ forall u, u ∈ l -> u <> 0 -> r <= u) /\ 0 <= r.
Proof.
  induction l as [|u l IH]; intros t Ht Hl; cbn [fold_left].
  - cbv zeta. split; [split; [intros ->; by split; [|constructor]|by intros [-> _]]|]. split; [|done].
    intros _. split; [by left|]. split; [lia|]. intros u Hu. by apply not_elem_of_nil in Hu.
  - apply Forall_cons_iff in Hl as [Hu Hl].
    assert (Hstep : ttl_step t u = if (t =? 0) || (0 <? u) && (u <? t) then u else t) by done.
    assert (Hge : 0 <= ttl_step t u) by (rewrite Hstep; destruct (_ || _); lia).
    destruct (IH (ttl_step t u) Hge Hl) as (H1 & H2 & H3). cbv zeta in *. clear IH.
    set (r := fold_left ttl_step l (ttl_step t u)) in *.
    assert (Hz : ttl_step t u = 0 <-> t = 0 /\ u = 0).
    { rewrite Hstep. destruct (t =? 0) eqn:E1, (0 <? u) eqn:E2, (u <? t) eqn:E3; cbn;
        rewrite ?Z.eqb_eq, ?Z.eqb_neq, ?Z.ltb_lt, ?Z.ltb_ge in *; lia. }
    assert (Hor : ttl_step t u = t \/ ttl_step t u = u) by (rewrite Hstep; destruct (_ || _); auto).
    assert (Hle : ttl_step t u <> 0 -> (t <> 0 -> ttl_step t u <= t) /\ (u <> 0 -> ttl_step t u <= u)).
    { rewrite Hstep. destruct (t =? 0) eqn:E1, (0 <? u) eqn:E2, (u <? t) eqn:E3; cbn;
        rewrite ?Z.eqb_eq, ?Z.eqb_neq, ?Z.ltb_lt, ?Z.ltb_ge in *; lia. }
    split; [|split; [|done]].
    + rewrite H1, Hz, Forall_cons_iff. tauto.
    + intros Hr. destruct (H2 Hr) as (Hin & Hrt & Hru). split; [|split].
      * destruct Hin as [->|Hin]; [destruct Hor as [->| ->]; [by left|right; by left]|right; by right].
      * intros Ht0. assert (ttl_step t u <> 0) by tauto. destruct (Hle ltac:(done)) as [? _]. specialize (Hrt ltac:(done)). lia.
      * intros u' [->|Hin']%elem_of_cons Hu'; [|by apply Hru]. assert (ttl_step t u <> 0) by tauto.
        destruct (Hle ltac:(done)) as [_ ?]. specialize (Hrt ltac:(done)). lia.
Qed.

(** The time to live of a response is the least one of its records that is
    not zero.  For a response with answers the time [computeTimeToLive] gives is
    zero only when every record outside OPT has time zero, and otherwise it is
    the time of some record and not above any other positive one: caching
    the response for it keeps no record with a positive time beyond it. *)
Theorem response_ttl_least m :
  c_Answer m <> [] -> Forall (fun u => 0 <= u) (counted m) ->
  let t := computeTimeToLive m in
  (t = 0 <-> Forall (fun u => u = 0) (counted m)) /\
  (t <> 0 -> t ∈ counted m /\ forall u, u ∈ counted m -> u <> 0 -> t <= u).
Proof.
  intros Ha Hc. unfold computeTimeToLive. destruct (c_Answer m) eqn:E; [done|].
  destruct (ttl_fold (counted m) 0 ltac:(lia) Hc) as (H1 & H2 & _). cbv zeta in *. split; [tauto|].
  intros Hr. destruct (H2 Hr) as ([?|?] & _ & ?); [done|done].
Qed.

Definition ttl_response : CMsg :=
  mkCMsg (mkMsgHdr 7 true false true true 0) [mkQuestion "a.example." 1 1]
    [mkRec "a.example." T_CNAME 1 300 (D_CNAME "b.example."); mkRec "b.example." T_A 1 60 (D_A [10; 0; 0; 1])] []
    [mkRec "." T_OPT 1232 0 (D_OPT [])].
Lemma response_ttl_least_witness :
  computeTimeToLive ttl_response = 60 /\
  (computeTimeToLive ttl_response <> 0 -> computeTimeToLive ttl_response ∈ counted ttl_response).
Proof.
  split; [reflexivity|]. intros Hn.
  refine (proj1 (proj2 (response_ttl_least ttl_response _ _) Hn)); [done|].
  repeat constructor; cbn; lia.
Defined.
