(* ===== verification/DnsClient.v ===== *)
(** * The DNS client and its cache

    [dns/client.go]: [beginExchange], [finishExchange], [Exchange], the memory
    cache, optimistic answers with their refresh, and the store of rejected
    responses.  Calls run one after the other here; [DnsLock] has the lock that lets
    one of several equal queries go ahead.  The persistent store and the log are
    left out.

    The LRU cache is an interface: an entry that was just added is found, any
    other may be evicted.  Times are nanoseconds. *)

From stdpp Require Import base numbers list strings gmap option.
From Stdlib Require Import ZArith Lia.
From S2P Require Import Prelude NetAddr Metadata RuleAction ManagerCore DnsWalk DnsLegacy DnsMessage.

Local Open Scope Z_scope.

(** [dnsCacheKey] *)
Record dnsCacheKey := mkKey {
  k_question : Question;
  k_transportTag : string;
  k_clientSubnet : Prefix;
  k_environment : Z
}.

#[export] Instance Question_eq_dec : EqDecision Question.
Proof. solve_decision. Defined.
#[export] Instance dnsCacheKey_eq_dec : EqDecision dnsCacheKey.
Proof. solve_decision. Defined.

(** The cache: a message with the time it expires *)
Class ResponseCache := {
  Cache : Type;
  cache_get : Cache -> dnsCacheKey -> option (CMsg * Z);
  cache_add : Cache -> dnsCacheKey -> CMsg -> Z -> Cache;
  cache_remove : Cache -> dnsCacheKey -> Cache;
  cache_get_add c k v e : cache_get (cache_add c k v e) k = Some (v, e);
  cache_get_other c k k' v e : k <> k' -> cache_get (cache_add c k v e) k' = cache_get c k' \/ cache_get (cache_add c k v e) k' = None;
  cache_get_removed c k : cache_get (cache_remove c k) k = None
}.

(** The fields of [Client] that do not change *)
Record ClientConfig := mkClientConfig {
  cc_disableCache : bool;
  cc_disableExpire : bool;
  cc_optimisticTimeout : Z;
  cc_clientSubnet : Prefix;
  cc_rdrc : bool
}.

(** What a transport answers: a message, [RcodeError], or another error *)
Inductive TransportReply := TMessage (m : CMsg) | TRcode (rcode : Z) | TError (e : error).
(** What the client answers *)
Inductive ClientReply := CAnswer (m : CMsg) | CRejected (cached : bool) | CFailed (e : error).

(** [miekg/dns]: the EDNS version, payload size and DO bit of a message; and
    [SetEdns0] *)
Class MiekgDNS := {
  IsEdns0 : CMsg -> option (Z * Z * bool);
  SetEdns0 : CMsg -> Z -> bool -> CMsg
}.

Section Client.
Context {RC : ResponseCache} {MD : MiekgDNS}.
Context (cfg : ClientConfig).

(** A query that was answered from a stale entry and is to be refreshed *)
Record Refresh := mkRefresh {
  rf_key : dnsCacheKey;
  rf_message : CMsg;
  rf_options : QueryOptions;
  rf_checker : option (CMsg -> bool)
}.
(** The cache, the rejected queries (transport, name, type), the refreshes under
    way *)
Record ClientState := mkClient {
  cl_cache : Cache;
  cl_rdrc : list (string * string * Z);
  cl_refresh : list Refresh
}.
Definition set_cache (s : ClientState) (c : Cache) : ClientState := mkClient c (cl_rdrc s) (cl_refresh s).

(** ** Keys *)

(** [newCacheKey]; [environment] is the hash of the transport's environment. *)
Definition newCacheKey (tag : string) (environment : Z) (question : Question) (message : CMsg) (options : QueryOptions)
  : dnsCacheKey :=
  let subnet :=
    if qo_removeClientSubnet options then Prefix_zero
    else if Prefix_IsValid (qo_clientSubnet options) then qo_clientSubnet options
    else if Prefix_IsValid (cc_clientSubnet cfg) then cc_clientSubnet cfg
    else clientSubnetFromMessage message in
  mkKey question tag subnet environment.
(** [finishCacheKey]: the key at the end of the exchange *)
Definition finishCacheKey (environment : Z) (key : dnsCacheKey) : dnsCacheKey * bool :=
  if (environment =? k_environment key) || (k_environment key =? 0)
  then (mkKey (k_question key) (k_transportTag key) (k_clientSubnet key) environment, true) else (key, false).

(** ** The memory cache *)

Definition second : Z := 1000000000.

(** [storeCache] *)
Definition storeCache (now : Z) (key : dnsCacheKey) (message : CMsg) (timeToLive : Z) (c : Cache) : Cache :=
  if timeToLive =? 0 then c else cache_add c key message (now + second * timeToLive).

(** [loadResponse]: the response, its time to live, and whether it is stale *)
Definition loadResponse (now : Z) (key : dnsCacheKey) (c : Cache) : option (CMsg * Z * bool) * Cache :=
  match cache_get c key with
  | None => (None, c)
  | Some (response, expireAt) =>
      if cc_disableExpire cfg then (Some (response, 0, false), c)
      else if expireAt <? now then
        if (0 <? cc_optimisticTimeout cfg) && (now <? expireAt + cc_optimisticTimeout cfg)
        then (Some (normalizeTTL response 1, 0, true), c)
        else (None, cache_remove c key)
      else
        let nowTTL := Z.max ((expireAt - now) / second) 0 in
        (Some (normalizeTTL response nowTTL, nowTTL, false), c)
  end.

(** ** Responses *)

(** [applyResponseOptions]: the response and its time to live *)
Definition keeps_hint (strategy : Z) (v : SVCBValue) : bool :=
  match v with
  | SVCBIPv6Hint _ => negb (strategy =? DomainStrategyIPv4Only)
  | SVCBIPv4Hint _ => strategy =? DomainStrategyIPv4Only
  | SVCBOther _ => true
  end.
Definition filter_hints (strategy : Z) (r : Rec) : Rec :=
  match r_data r with D_HTTPS value => set_data r (D_HTTPS (List.filter (keeps_hint strategy) value)) | _ => r end.
Definition applyResponseOptions (question : Question) (response : CMsg) (options : QueryOptions) : CMsg * Z :=
  let strategy := qo_strategy options in
  let response :=
    if (q_Qtype question =? T_HTTPS) && ((strategy =? DomainStrategyIPv4Only) || (strategy =? DomainStrategyIPv6Only))
    then mkCMsg (c_hdr response) (c_Question response) (map (filter_hints strategy) (c_Answer response)) (c_Ns response) (c_Extra response)
    else response in
  let timeToLive := match qo_rewriteTTL options with Some t => t | None => computeTimeToLive response end in
  (normalizeTTL response timeToLive, timeToLive).

(** A response that is not a success and not a missing name *)
Definition failure (r : CMsg) : bool := negb (hdr_Rcode (c_hdr r) =? 0) && negb (hdr_Rcode (c_hdr r) =? 3).
Definition rejects (checker : option (CMsg -> bool)) (r : CMsg) : bool :=
  match checker with None => false | Some check => failure r || negb (check r) end.

(** [prepareExchangeMessage] *)
Definition prepareExchangeMessage (message : CMsg) (options : QueryOptions) : CMsg :=
  if qo_removeClientSubnet options then removeClientSubnet message
  else
    let subnet := if Prefix_IsValid (qo_clientSubnet options) then qo_clientSubnet options else cc_clientSubnet cfg in
    if Prefix_IsValid subnet then SetClientSubnet message subnet else message.

(** [exchangeToTransport] *)
Definition exchangeToTransport (transport : CMsg -> TransportReply) (message : CMsg) : CMsg + error :=
  match transport message with
  | TMessage r => inl (stripDNSPadding r)
  | TRcode rcode => inl (FixedResponseStatus message rcode)
  | TError e => inr e
  end.

(** ** [Exchange] *)

(** The answers that need no transport *)
Definition isSimpleRequest (m : CMsg) : bool :=
  (length (c_Question m) =? 1)%nat && bool_decide (length (c_Ns m) = 0%nat) &&
  match c_Extra m with
  | [] => true
  | [r] => (r_type r =? T_OPT) && (0 <? r_class r) && (r_ttl r =? 0) &&
           match r_data r with D_OPT options => forallb (fun o => option_code o =? EDNS0SUBNET) options | _ => false end
  | _ => false
  end.
Definition strategy_rejects (question : Question) (options : QueryOptions) : bool :=
  (q_Qtype question =? T_A) && (qo_strategy options =? DomainStrategyIPv6Only) ||
  (q_Qtype question =? T_AAAA) && (qo_strategy options =? DomainStrategyIPv4Only).

(** [exchangeOperation] *)
Record Operation := mkOperation {
  op_message : CMsg;
  op_question : Question;
  op_options : QueryOptions;
  op_checker : option (CMsg -> bool);
  op_disableCache : bool;
  op_key : dnsCacheKey
}.

(** [backgroundRefreshDNS]: one refresh of a key at a time *)
Definition backgroundRefreshDNS (r : Refresh) (s : ClientState) : ClientState :=
  if existsb (fun x => bool_decide (rf_key x = rf_key r)) (cl_refresh s)
  then s else mkClient (cl_cache s) (cl_rdrc s) (cl_refresh s ++ [r]).

(** [beginExchange] up to the lock: an answer, or the question, the message to
    send and whether the cache is left out *)
Definition begin_query (message : CMsg) (options : QueryOptions) : ClientReply + (Question * CMsg * bool) :=
  match c_Question message with
  | [] => inl (CAnswer (FixedResponseStatus message 1))
  | question :: _ =>
      if strategy_rejects question options then inl (CAnswer (FixedResponseStatus message 0))
      else inr (question, prepareExchangeMessage message options,
                negb (isSimpleRequest message) || cc_disableCache cfg || qo_disableCache options)
  end.
(** The cache, when it is in use *)
Definition begin_cached (now : Z) (op : Operation) (s : ClientState) : option CMsg * ClientState :=
  if op_disableCache op then (None, s)
  else
    let '(found, c) := loadResponse now (op_key op) (cl_cache s) in
    let s := set_cache s c in
    match found with
    | Some (response, _, true) =>
        if qo_disableOptimisticCache (op_options op) then (None, s)
        else (Some (set_Id response (hdr_Id (c_hdr (op_message op)))),
              backgroundRefreshDNS (mkRefresh (op_key op) (op_message op) (op_options op) (op_checker op)) s)
    | Some (response, _, false) => (Some (set_Id response (hdr_Id (c_hdr (op_message op)))), s)
    | None => (None, s)
    end.
(** [beginExchange] from the lock on; [loop] is the transport that is already
    asking, if any. *)
Definition begin_load (now : Z) (tag : string) (loop : option string) (op : Operation) (s : ClientState)
  : (ClientReply + Operation) * ClientState :=
  let question := op_question op in
  match begin_cached now op s with
  | (Some response, s) => (inl (CAnswer response), s)
  | (None, s) =>
      if bool_decide (loop = Some tag)
      then (inl (CFailed (E_New [AStr "DNS query loopback in transport["; AStr tag; AStr "]"])), s)
      else if negb (op_disableCache op) && negb (is_nil (op_checker op)) && cc_rdrc cfg &&
              bool_decide ((tag, q_Name question, q_Qtype question) ∈ cl_rdrc s)
      then (inl (CRejected true), s)
      else (inr op, s)
  end.
(** [beginExchange], when no equal query is under way *)
Definition beginExchange (now : Z) (tag : string) (environment : Z) (loop : option string) (message : CMsg)
    (options : QueryOptions) (checker : option (CMsg -> bool)) (s : ClientState)
  : (ClientReply + Operation) * ClientState :=
  match begin_query message options with
  | inl reply => (inl reply, s)
  | inr (question, message, disableCache) =>
      begin_load now tag loop
        (mkOperation message question options checker disableCache (newCacheKey tag environment question message options)) s
  end.

(** The OPT record of a response when the request asked for less. *)
Definition fit_edns (request response : CMsg) : CMsg :=
  match IsEdns0 response with
  | None => response
  | Some (version, size, do_) =>
      let stripped := set_Extra response (List.filter (fun r => negb (r_type r =? T_OPT)) (c_Extra response)) in
      match IsEdns0 request with
      | None => stripped
      | Some (version', _, _) => if version' <? version then SetEdns0 stripped size do_ else response
      end
  end.

(** [finishExchange] *)
Definition finishExchange (now : Z) (tag : string) (environment : Z) (op : Operation) (response : CMsg) (s : ClientState)
  : ClientReply * ClientState :=
  let disableCache := op_disableCache op || failure response in
  if rejects (op_checker op) response then
    (CRejected false,
     if negb disableCache && cc_rdrc cfg
     then mkClient (cl_cache s) (cl_rdrc s ++ [(tag, q_Name (op_question op), q_Qtype (op_question op))]) (cl_refresh s)
     else s)
  else
    let '(response, timeToLive) := applyResponseOptions (op_question op) response (op_options op) in
    let '(key, storable) := finishCacheKey environment (op_key op) in
    let s := if negb disableCache && storable then set_cache s (storeCache now key response timeToLive (cl_cache s)) else s in
    (CAnswer (fit_edns (op_message op) (set_Id response (hdr_Id (c_hdr (op_message op))))), s).

(** [Exchange]; the environment may change while the transport is asked. *)
Definition Client_Exchange (now later : Z) (tag : string) (environment environment' : Z) (loop : option string)
    (transport : CMsg -> TransportReply) (message : CMsg) (options : QueryOptions) (checker : option (CMsg -> bool))
    (s : ClientState) : ClientReply * ClientState :=
  match beginExchange now tag environment loop message options checker s with
  | (inl reply, s) => (reply, s)
  | (inr op, s) =>
      match exchangeToTransport transport (op_message op) with
      | inr e => (CFailed e, s)
      | inl response => finishExchange later tag environment' op response s
      end
  end.

(** The refresh of a stale entry, run to its end *)
Definition run_refresh (now : Z) (environment : Z) (transport : CMsg -> TransportReply) (r : Refresh) (s : ClientState)
  : ClientState :=
  match exchangeToTransport transport (rf_message r) with
  | inr _ => s
  | inl response =>
      if rejects (rf_checker r) response then
        if cc_rdrc cfg
        then mkClient (cl_cache s)
               (cl_rdrc s ++ [(k_transportTag (rf_key r), q_Name (k_question (rf_key r)), q_Qtype (k_question (rf_key r)))])
               (cl_refresh s)
        else s
      else if is_nil (rf_checker r) && failure response then s
      else
        let '(key, storable) := finishCacheKey environment (rf_key r) in
        if negb storable then s
        else
          let '(response, timeToLive) := applyResponseOptions (k_question (rf_key r)) response (rf_options r) in
          set_cache s (storeCache now key response timeToLive (cl_cache s))
  end.

(** ** Answers from the cache *)

(** A query that the cache may answer. *)
Definition cacheable (message : CMsg) (q : Question) (options : QueryOptions) : Prop :=
  c_Question message = [q] /\ isSimpleRequest message = true /\ strategy_rejects q options = false /\
  cc_disableCache cfg = false /\ qo_disableCache options = false.
Definition key_of (tag : string) (environment : Z) (message : CMsg) (q : Question) (options : QueryOptions) : dnsCacheKey :=
  newCacheKey tag environment q (prepareExchangeMessage message options) options.

Lemma begin_found now tag environment loop message q options checker s response ttl c :
  cacheable message q options ->
  loadResponse now (key_of tag environment message q options) (cl_cache s) = (Some (response, ttl, false), c) ->
  beginExchange now tag environment loop message options checker s =
    (inl (CAnswer (set_Id response (hdr_Id (c_hdr (prepareExchangeMessage message options))))), set_cache s c).
Proof.
  intros (Hq & Hs & Hr & Hd & Ho) Hl. unfold beginExchange, begin_query. rewrite Hq, Hr, Hs, Hd, Ho. cbn [negb orb].
  unfold begin_load, begin_cached. cbn [op_disableCache op_key op_message op_options op_checker op_question].
  unfold key_of in Hl. by rewrite Hl.
Qed.

Lemma begin_missed now tag environment loop message q options s c :
  cacheable message q options -> loop <> Some tag ->
  loadResponse now (key_of tag environment message q options) (cl_cache s) = (None, c) ->
  beginExchange now tag environment loop message options None s =
    (inr (mkOperation (prepareExchangeMessage message options) q options None false (key_of tag environment message q options)),
     set_cache s c).
Proof.
  intros (Hq & Hs & Hr & Hd & Ho) Hloop Hl. unfold beginExchange, begin_query. rewrite Hq, Hr, Hs, Hd, Ho. cbn [negb orb].
  unfold begin_load, begin_cached. cbn [op_disableCache op_key op_message op_options op_checker op_question].
  unfold key_of in Hl. rewrite Hl. rewrite bool_decide_false by done. done.
Qed.

Lemma prepare_Id message options : hdr_Id (c_hdr (prepareExchangeMessage message options)) = hdr_Id (c_hdr message).
Proof.
  unfold prepareExchangeMessage, removeClientSubnet, SetClientSubnet. destruct (qo_removeClientSubnet options).
  - by destruct (negb _).
  - cbv zeta. generalize (if Prefix_IsValid (qo_clientSubnet options) then qo_clientSubnet options else cc_clientSubnet cfg).
    intros p. destruct (Prefix_IsValid p); [|done]. by destruct (find_exists _ _ _) as [[] ?].
Qed.

Lemma ttl_left ttl later t : 0 <= ttl -> later <= t <= later + second * ttl ->
  0 <= (later + second * ttl - t) / second <= ttl.
Proof.
  intros Ht [H1 H2]. split; [apply Z.div_pos; [lia|done]|]. apply Z.div_le_upper_bound; [done|]. lia.
Qed.

(** C8: the cache gives back what was stored, for as long as it may.  After a
    cacheable query was answered by its transport with a positive time to live,
    an equal query within that time is answered without the transport: with the
    same response under the new id, every record outside OPT with the whole
    seconds that are left of it.  After that time, without optimistic answers, the
    transport is asked again.  Entries expire, the answer was no failure, the
    transport's environment is the same at both ends of the first exchange, and
    the second query has the key of the first. *)
Theorem cached_answer now later tag environment loop transport message q options s r response ttl :
  cc_disableExpire cfg = false -> cacheable message q options -> loop <> Some tag ->
  (loadResponse now (key_of tag environment message q options) (cl_cache s)).1 = None ->
  exchangeToTransport transport (prepareExchangeMessage message options) = inl r -> failure r = false ->
  applyResponseOptions q r options = (response, ttl) -> 0 < ttl ->
  let '(reply, s1) := Client_Exchange now later tag environment environment loop transport message options None s in
  reply = CAnswer (fit_edns (prepareExchangeMessage message options) (set_Id response (hdr_Id (c_hdr message)))) /\
  forall t message' options' checker transport' loop' environment'',
    cacheable message' q options' ->
    key_of tag environment message' q options' = key_of tag environment message q options ->
    (later <= t <= later + second * ttl ->
       let left := (later + second * ttl - t) / second in
         0 <= left <= ttl /\
         (Client_Exchange t t tag environment environment'' loop' transport' message' options' checker s1).1 =
           CAnswer (set_Id (normalizeTTL response left) (hdr_Id (c_hdr message')))) /\
    (later + second * ttl < t -> cc_optimisticTimeout cfg = 0 -> loop' <> Some tag ->
       exists op s2, beginExchange t tag environment loop' message' options' None s1 = (inr op, s2)).
Proof.
  intros Hexp Hc Hloop Hmiss Hex Hf Happ Httl. unfold Client_Exchange.
  destruct (loadResponse now _ (cl_cache s)) as [found c] eqn:Hl. cbn in Hmiss. subst found.
  rewrite (begin_missed now tag environment loop message q options s c) by done. cbn [op_message]. rewrite Hex.
  unfold finishExchange. cbn [op_disableCache op_checker op_question op_options op_key op_message rejects orb].
  rewrite Hf, Happ. unfold finishCacheKey. rewrite Z.eqb_refl. cbn [orb negb andb]. rewrite prepare_Id.
  split; [done|].
  intros t message' options' checker transport' loop' environment'' Hc' Hkey.
  set (s1 := set_cache _ (storeCache _ _ _ _ _)).
  assert (Hget : cache_get (cl_cache s1) (key_of tag environment message' q options') =
                 Some (response, later + second * ttl)).
  { unfold s1. cbn. unfold storeCache. replace (ttl =? 0) with false by (symmetry; apply Z.eqb_neq; lia).
    rewrite Hkey. unfold key_of, newCacheKey. apply cache_get_add. }
  split.
  - intros Ht. cbv zeta.
    pose proof (ttl_left ttl later t ltac:(lia) Ht) as Hleft. split; [done|].
    erewrite begin_found; [rewrite prepare_Id; reflexivity|done|]. unfold loadResponse. rewrite Hget, Hexp.
    replace (later + second * ttl <? t) with false by (symmetry; apply Z.ltb_ge; lia). cbv zeta.
    rewrite Z.max_l by lia. reflexivity.
  - intros Ht Ho Hl'. eexists _, _. eapply begin_missed; [done|done|]. unfold loadResponse. rewrite Hget, Hexp, Ho.
    replace (later + second * ttl <? t) with true by (symmetry; apply Z.ltb_lt; lia). reflexivity.
Qed.

(** ** The client behind the router in legacy mode *)

(** A message as the rules see it; [rdata_of] packs the data of a record that the
    rules do not look into. *)
Context (rdata_of : RData -> list Z).
Definition RR_of (r : Rec) : RR :=
  match r_data r with
  | D_A ip => RR_A (r_name r) ip
  | D_AAAA ip => RR_AAAA (r_name r) ip
  | D_HTTPS value => RR_HTTPS (r_name r) value
  | d => RR_Other (r_name r) (r_type r) (rdata_of d)
  end.
Definition message_of (m : CMsg) : DNSMessage :=
  mkDNSMessage (c_hdr m) (c_Question m) (map RR_of (c_Answer m)) (map RR_of (c_Ns m)) (map RR_of (c_Extra m)).

(** What a call of [Exchange] meets: the times and the environment before and after
    the transport is asked, the transport that is already asking, the transport,
    and the state of the client *)
Record Moment := mkMoment {
  mo_now : Z;
  mo_later : Z;
  mo_environment : Z;
  mo_environment' : Z;
  mo_loop : option string;
  mo_transport : CMsg -> TransportReply;
  mo_state : ClientState
}.
Context (message : CMsg) (moment : nat -> option Member -> Moment).
Definition ErrResponseRejected : error := E_New [AStr "response rejected"].
Definition tag_of (t : option Member) : string := default EmptyString (m_Tag <$> t).

Definition legacy_client (i : nat) (t : option Member) (o : QueryOptions) (check : option (DNSMessage -> bool)) : Reply :=
  let w := moment i t in
  match (Client_Exchange (mo_now w) (mo_later w) (tag_of t) (mo_environment w) (mo_environment' w) (mo_loop w)
           (mo_transport w) message o ((fun c m => c (message_of m)) <$> check) (mo_state w)).1 with
  | CAnswer m => Answer (message_of m)
  | CRejected _ => Rejected ErrResponseRejected
  | CFailed e => Failed e
  end.

(** Answers without a server: a message without a question, a query that the
    strategy rules out, and an entry of the cache *)
Definition from_cache (i : nat) (t : option Member) (o : QueryOptions) (q : Question) (m : CMsg) : Prop :=
  let w := moment i t in
  exists response ttl stale,
    (loadResponse (mo_now w) (key_of (tag_of t) (mo_environment w) message q o) (cl_cache (mo_state w))).1 =
      Some (response, ttl, stale) /\
    m = set_Id response (hdr_Id (c_hdr message)).
Definition client_unasked (i : nat) (t : option Member) (o : QueryOptions) (r : DNSMessage) : Prop :=
  exists m, r = message_of m /\
    match c_Question message with
    | [] => m = FixedResponseStatus message 1
    | q :: _ => if strategy_rejects q o then m = FixedResponseStatus message 0 else from_cache i t o q m
    end.
(** A response with the options of the query applied, under the id of the query *)
Definition client_delivered (o : QueryOptions) (raw r : DNSMessage) : Prop :=
  exists q m, raw = message_of m /\
    r = message_of (fit_edns (prepareExchangeMessage message o)
          (set_Id (applyResponseOptions q m o).1 (hdr_Id (c_hdr message)))).

Lemma begin_query_answer o r : begin_query message o = inl r ->
  exists m, r = CAnswer m /\
    match c_Question message with
    | [] => m = FixedResponseStatus message 1
    | q :: _ => strategy_rejects q o = true /\ m = FixedResponseStatus message 0
    end.
Proof.
  unfold begin_query. destruct (c_Question message) as [|q rest]; [intros [= <-]; by eexists|].
  destruct (strategy_rejects q o); [|done]. intros [= <-]. by eexists.
Qed.

Lemma begin_cached_answer now op s m : (begin_cached now op s).1 = Some m ->
  exists response ttl stale, (loadResponse now (op_key op) (cl_cache s)).1 = Some (response, ttl, stale) /\
    m = set_Id response (hdr_Id (c_hdr (op_message op))).
Proof.
  unfold begin_cached. destruct (op_disableCache op); [done|].
  destruct (loadResponse now (op_key op) (cl_cache s)) as [[[[response ttl] []]|] c]; cbn; [|intros [= <-]; eauto|done].
  destruct (qo_disableOptimisticCache _); [done|]. intros [= <-]. eauto 6.
Qed.

Lemma begin_load_cases now tag loop op s :
  (exists m, (begin_cached now op s).1 = Some m /\ (begin_load now tag loop op s).1 = inl (CAnswer m)) \/
  (exists e, (begin_load now tag loop op s).1 = inl (CFailed e)) \/
  ((begin_load now tag loop op s).1 = inl (CRejected true) /\ op_checker op <> None) \/
  (begin_load now tag loop op s).1 = inr op.
Proof.
  unfold begin_load. destruct (begin_cached now op s) as [[m|] s']; [left; by exists m|]. right.
  case_bool_decide; [left; eauto|]. right. destruct (_ && bool_decide _) eqn:E; [left|by right].
  split; [done|]. destruct (op_checker op); [done|]. by rewrite andb_false_r in E.
Qed.

Lemma finish_answer now tag environment op response s m :
  (finishExchange now tag environment op response s).1 = CAnswer m ->
  rejects (op_checker op) response = false /\
  m = fit_edns (op_message op) (set_Id (applyResponseOptions (op_question op) response (op_options op)).1
        (hdr_Id (c_hdr (op_message op)))).
Proof.
  unfold finishExchange. destruct (rejects _ _); [done|]. destruct (applyResponseOptions _ _ _) as [r' ttl].
  destruct (finishCacheKey _ _) as [key storable]. cbn. by intros [= <-].
Qed.
Lemma finish_unchecked now tag environment op response s b :
  op_checker op = None -> (finishExchange now tag environment op response s).1 <> CRejected b.
Proof.
  intros Hc. unfold finishExchange. rewrite Hc. cbn [rejects]. destruct (applyResponseOptions _ _ _) as [r' ttl].
  by destruct (finishCacheKey _ _) as [key storable].
Qed.

(** The four ways a call ends. *)
Lemma Client_Exchange_cases i t o check :
  let w := moment i t in
  let checker := (fun c m => c (message_of m)) <$> check in
  let reply := (Client_Exchange (mo_now w) (mo_later w) (tag_of t) (mo_environment w) (mo_environment' w)
                  (mo_loop w) (mo_transport w) message o checker (mo_state w)).1 in
  (exists m, reply = CAnswer m /\ client_unasked i t o (message_of m)) \/ (exists e, reply = CFailed e) \/
  (exists b, reply = CRejected b /\ check <> None) \/
  (exists q response, rejects checker response = false /\
     reply = CAnswer (fit_edns (prepareExchangeMessage message o)
               (set_Id (applyResponseOptions q response o).1 (hdr_Id (c_hdr message))))).
Proof.
  cbv zeta. unfold Client_Exchange, beginExchange. set (checker := _ <$> check).
  destruct (begin_query message o) as [r|[[q msg] disable]] eqn:Hb.
  { left. destruct (begin_query_answer o r Hb) as (m & -> & Hm). exists m. split; [done|]. exists m. split; [done|].
    destruct (c_Question message); [done|]. by destruct Hm as [-> ->]. }
  assert (Hq : exists rest, c_Question message = q :: rest /\ strategy_rejects q o = false /\
                 msg = prepareExchangeMessage message o).
  { unfold begin_query in Hb. destruct (c_Question message) as [|q' rest]; [done|].
    destruct (strategy_rejects q' o) eqn:E; [done|]. injection Hb as -> <- _. by exists rest. }
  destruct Hq as (rest & Hq & Hs & ->).
  set (op := mkOperation _ _ _ _ _ _).
  destruct (begin_load_cases (mo_now (moment i t)) (tag_of t) (mo_loop (moment i t)) op (mo_state (moment i t)))
    as [(m & Hm & H)|[[e H]|[[H Hc]|H]]];
    destruct (begin_load _ _ _ _ _) as [res s]; cbn in H; subst res.
  - left. exists m. split; [done|]. exists m. split; [done|]. rewrite Hq, Hs.
    apply begin_cached_answer in Hm as (response & ttl & stale & Hl & ->). exists response, ttl, stale.
    split; [exact Hl|]. cbn. by rewrite prepare_Id.
  - right. left. by exists e.
  - right. right. left. exists true. split; [done|]. by destruct check.
  - right. cbn [op_message op]. destruct (exchangeToTransport _ _) as [response|e]; [|left; by exists e]. right.
    destruct (finishExchange _ _ _ _ _ _) as [reply s'] eqn:Hf. destruct reply as [m|b|e]; cbn.
    + right. apply (f_equal fst), finish_answer in Hf as [Hr ->]. exists q, response. split; [done|]. cbn. by rewrite prepare_Id.
    + left. exists b. split; [done|]. intros ->. by apply (f_equal fst), finish_unchecked in Hf.
    + exfalso. unfold finishExchange in Hf. destruct (rejects _ _); [done|]. destruct (applyResponseOptions _ _ _).
      by destruct (finishCacheKey _ _).
Qed.

(** [dns/client.go] keeps what legacy mode relies on. *)
Theorem Client_keeps_promise : client_promise legacy_client client_unasked client_delivered.
Proof.
  constructor.
  - intros i t o c r H. unfold legacy_client in H.
    destruct (Client_Exchange_cases i t o (Some c)) as [(m & E & Hu)|[[e E]|[(b & E & _)|(q & response & Hr & E)]]]; rewrite E in H.
    + injection H as <-. by left.
    + done.
    + done.
    + injection H as <-. right. exists (message_of response). split; [|by eexists q, response].
      cbn in Hr. apply orb_false_iff in Hr as [_ Hr]. by apply negb_false_iff.
  - intros i t o e H. unfold legacy_client in H.
    destruct (Client_Exchange_cases i t o None) as [(m & E & Hu)|[[e' E]|[(b & E & Hn)|(q & response & Hr & E)]]]; rewrite E in H; done.
Qed.

End Client.

(** ** A concrete client *)

(** The cache as a list of entries *)
#[local] Instance entries_cache : ResponseCache.
Proof.
  refine {| Cache := list (dnsCacheKey * (CMsg * Z));
            cache_get c k := snd <$> List.find (fun e => bool_decide (fst e = k)) c;
            cache_add c k v e := (k, (v, e)) :: c;
            cache_remove c k := List.filter (fun e => negb (bool_decide (fst e = k))) c |}.
  - intros c k v e. cbn. by rewrite bool_decide_true.
  - intros c k k' v e Hne. cbn. left. by rewrite bool_decide_false.
  - intros c k. induction c as [|[k' v] c IH]; [done|]. cbn. case_bool_decide as E; cbn; [done|].
    rewrite bool_decide_false by done. exact IH.
Defined.
#[local] Instance no_edns : MiekgDNS := {| IsEdns0 _ := None; SetEdns0 m _ _ := m |}.

Definition client_config : ClientConfig := mkClientConfig false false 0 Prefix_zero false.
Definition client_options (strategy : Z) : QueryOptions := mkOptions strategy 0 false false None 0 Prefix_zero false.
Definition https_question : Question := mkQuestion "a.example." T_HTTPS 1.
Definition https_query (id : Z) : CMsg := mkCMsg (mkMsgHdr id false false true false 0) [https_question] [] [] [].
Definition https_answer : CMsg :=
  mkCMsg (mkMsgHdr 1 true false true true 0) [https_question]
    [mkRec "a.example." T_HTTPS 1 60 (D_HTTPS [SVCBIPv4Hint [[10; 0; 0; 1]]; SVCBIPv6Hint []])] [] [].
Definition https_server (m : CMsg) : TransportReply := TMessage https_answer.
Definition no_entries : ClientState := mkClient [] [] [].

(** Query 7 is answered by the server; query 8, two and a half seconds later and
    with a server that is down, from the cache; query 9 at 61 seconds asks again. *)
Definition first_query : ClientReply * ClientState :=
  Client_Exchange client_config 0 0 "dns" 0 0 None https_server (https_query 7) (client_options 0) None no_entries.
Definition server_down (m : CMsg) : TransportReply := TError (E_New [AStr "down"]).

Lemma cached_answer_witness :
  first_query.1 = CAnswer (set_Id https_answer 7) /\
  (Client_Exchange client_config 2500000000 2500000000 "dns" 0 0 None server_down (https_query 8) (client_options 0) None
     first_query.2).1 = CAnswer (set_Id (normalizeTTL https_answer 57) 8) /\
  exists op s2, beginExchange client_config (61 * second) "dns" 0 None (https_query 9) (client_options 0) None first_query.2 =
    (inr op, s2).
Proof.
  pose proof (cached_answer client_config 0 0 "dns" 0 None https_server (https_query 7) https_question (client_options 0)
                no_entries https_answer https_answer 60 eq_refl) as H.
  assert (Hc : forall id, cacheable client_config (https_query id) https_question (client_options 0)) by (repeat split).
  specialize (H (Hc 7) ltac:(discriminate) eq_refl eq_refl eq_refl eq_refl ltac:(lia)).
  unfold first_query. destruct (Client_Exchange _ _ _ _ _ _ _ _ (https_query 7) _ _ _) as [reply s1]. destruct H as [-> H].
  split; [reflexivity|]. split.
  - destruct (H 2500000000 (https_query 8) (client_options 0) None server_down None 0 (Hc 8) eq_refl) as [Hin _].
    exact (proj2 (Hin ltac:(unfold second; lia))).
  - destruct (H (61 * second) (https_query 9) (client_options 0) None server_down None 0 (Hc 9) eq_refl) as [_ Hout].
    apply Hout; [unfold second; lia|reflexivity|discriminate].
Defined.

(** The hints of the answer to an HTTPS query. *)
Definition hints_of (r : ClientReply) : list SVCBValue :=
  match r with
  | CAnswer m => flat_map (fun r => match r_data r with D_HTTPS v => v | _ => [] end) (c_Answer m)
  | _ => []
  end.
(** A query with one strategy after a query with another. *)
Definition second_hints (first next : Z) : list SVCBValue :=
  let s := (Client_Exchange client_config 0 0 "dns" 0 0 None https_server (https_query 7) (client_options first) None no_entries).2 in
  hints_of (Client_Exchange client_config second second "dns" 0 0 None https_server (https_query 8) (client_options next) None s).1.

(** The strategy of a query is not part of the cache key, although the hints
    of HTTPS answers depend on it.  An answer cached for an IPv4-only query has
    lost its IPv6 hints for later queries with any strategy, and one cached
    without a strategy gives IPv6 hints to later IPv4-only queries. *)
Theorem cached_hints_ignore_strategy :
  second_hints DomainStrategyIPv6Only DomainStrategyIPv6Only = [SVCBIPv6Hint []] /\
  second_hints DomainStrategyIPv4Only DomainStrategyIPv6Only = [SVCBIPv4Hint [[10; 0; 0; 1]]] /\
  second_hints 0 DomainStrategyIPv4Only = [SVCBIPv4Hint [[10; 0; 0; 1]]; SVCBIPv6Hint []].
Proof. repeat split; by vm_compute. Qed.
