(* ===== verification/DnsExamples.v ===== *)
(** * Concrete DNS rules

    Witnesses of the theorems on DNS rules, and queries whose outcome differs
    from asking the servers one after the other. *)

From stdpp Require Import base numbers list strings gmap option.
From Stdlib Require Import ZArith Lia.
From S2P Require Import Prelude NetAddr Metadata Demo RuleItems RuleAction RuleCore RuleSpec RuleBuild RuleDispatch.
From S2P Require Import RulePreMatch RuleBuildExamples ManagerCore RuleStart DnsWalk DnsSpec DnsMode DnsScope DnsRouter DnsConfigured.
From S2P Require Import DnsLegacy DnsMessage DnsClient.

Local Open Scope Z_scope.

Module DnsExamples.

#[local] Existing Instance list_helpers.
#[local] Existing Instance Demo.std.
#[local] Existing Instance Demo.third.
#[local] Existing Instance RuleBuildExamples.dialers.

(** Three servers. *)
Definition server (id : nat) (tag : string) : Member := mkMember id tag "udp" [] false false false false false.
Definition remote : Member := server 0 "remote".
Definition local : Member := server 1 "local".
Definition backup : Member := server 2 "backup".
Definition servers (tag : string) : option Member :=
  List.find (fun m => bool_decide (m_Tag m = tag)) [remote; local; backup].

(** A query, and the answers: the remote server knows an address in 10.0.0.0/8. *)
Definition question : DNSMessage :=
  mkDNSMessage (mkMsgHdr 7 false false true false 0) [mkQuestion "a.example." 1 1] [] [] [].
Definition answer (rcode : Z) (ip : list Z) : DNSMessage :=
  mkDNSMessage (mkMsgHdr 7 true false true true rcode) [mkQuestion "a.example." 1 1] [RR_A "a.example." ip] [] [].
Definition exchange_with (transport : option Member) (o : QueryOptions) : Res DNSMessage :=
  if bool_decide (m_Tag <$> transport = Some "remote") then Ok (answer 0 [10; 1; 2; 3])
  else if bool_decide (m_Tag <$> transport = Some "local") then Ok (answer 0 [10; 0; 0; 9])
  else if bool_decide (m_Tag <$> transport = Some "backup") then Ok (answer 3 [])
  else Err (E_New [AStr "no server"]).
Definition options0 : QueryOptions := mkOptions 0 0 false false None 0 Prefix_zero false.

(** Actions: [evaluate] with a tag, [route], with [fallback] or [race]. *)
Definition evaluate_as (s tag : string) : DNSRuleActionOptions :=
  mkDNSRuleActionOptions "evaluate" false "" false false AbstractDNSRouteOptions_zero s tag false
    AbstractDNSRouteOptions_zero AbstractDNSRouteOptions_zero RuleBuildExamples.reject_zero None [] [] [].
Definition route_to (s : string) (fallback race : bool) : DNSRuleActionOptions :=
  mkDNSRuleActionOptions "route" race s false fallback AbstractDNSRouteOptions_zero "" "" false
    AbstractDNSRouteOptions_zero AbstractDNSRouteOptions_zero RuleBuildExamples.reject_zero None [] [] [].
Definition any_query : DNSRuleOptions := RuleBuildExamples.dns_options None None.

(** Ask the remote server; when its answer is private ask the local one, else
    the backup. *)
Definition split_rules (fallback race : bool) : list DNSRule :=
  [DNSDefault any_query (evaluate_as "remote" "r");
   DNSDefault (RuleBuildExamples.response_options "r") (route_to "local" fallback race);
   DNSDefault any_query (route_to "backup" false false)].

Definition no_sets (tag : string) : option (RuleSet (Rule RuleAction)) := None.
Definition no_tags (tag : string) : option (string * bool) := None.
Definition run_rules (raw : list DNSRule) : list (Rule RuleAction) :=
  match buildRules (Some (fun _ => None)) ∅ servers raw with
  | Ok (built, _, _) => (start_rules no_sets no_tags no_tags 0 built ∅).1.2
  | _ => []
  end.

(** Every answer takes [n] looks or waits. *)
Definition after (n : nat) : Schedule :=
  mkSchedule (fun t _ => Nat.leb n t) (fun t => Some (S t)) (fun t _ => Some (Nat.max t n)) (fun _ => true).
Lemma after_good n : good_schedule (after n) n.
Proof.
  constructor; cbn; try done.
  - intros t t' _ Ht Hr. apply Nat.leb_le in Hr. apply Nat.leb_le. lia.
  - intros t. exists (S t). split; [done|lia].
  - intros _. apply Nat.leb_refl.
Qed.

(** The server that answered. *)
Definition answered_by (r : Res exchangeWithRulesResult) : option string :=
  match r with Ok r => m_Tag <$> er_transport r | _ => None end.
Definition run (tick : nat -> nat) (sched : Schedule) (rules : list (Rule RuleAction)) : option string :=
  exchangeWithRules Demo.env servers (Some backup) exchange_with 0 tick sched question true 20 rules
    (Demo.query "a.example") options0 ≫= answered_by.
Definition in_sequence (rules : list (Rule RuleAction)) : option string :=
  answered_by (sequential Demo.env servers (Some backup) exchange_with 0 question true rules
    (Demo.query "a.example") options0 None ∅).

Definition split_built : list (Rule RuleAction) :=
  match buildRules (Some (fun _ => None)) ∅ servers (split_rules false false) with
  | Ok (built, _, _) => built
  | _ => []
  end.
Definition split_flags : dnsRuleModeFlags :=
  match buildRules (Some (fun _ => None)) ∅ servers (split_rules false false) with
  | Ok (_, _, flags) => flags
  | _ => flags_zero
  end.

Lemma split_decoded fallback race : Forall decoded (split_rules fallback race).
Proof.
  repeat constructor; intros o m Ho; apply list_elem_of_singleton in Ho as ->; cbn; try done.
  intros [= <-]. by exists (JString "r").
Qed.
Lemma split_no_race fallback : no_race (split_rules fallback false).
Proof. by repeat constructor. Qed.
Lemma no_sets_built : rule_sets_built no_sets.
Proof. done. Qed.
(** [fallback_first], evaluated *)
Fixpoint fallbacks_first (rules : list (Rule RuleAction)) : bool :=
  match rules with
  | [] => true
  | rule :: rest =>
      (negb (evaluates rule) || forallb (fun r => negb (falls_back r)) rest) && fallbacks_first rest
  end.
Lemma fallbacks_first_ok rules : fallbacks_first rules = true -> fallback_first rules.
Proof.
  induction rules as [|rule rules IH]; cbn; [done|]. intros [H1 H2]%andb_true_iff. split; [|auto].
  intros He. rewrite He in H1. cbn [negb orb] in H1. apply list.Forall_forall. intros r Hr. rewrite (forallb_forall _ rules) in H1.
  apply negb_true_iff, H1. by apply list_elem_of_In.
Qed.
Lemma split_fallback_first : fallback_first (run_rules (split_rules false false)).
Proof. apply fallbacks_first_ok. by vm_compute. Qed.

Lemma exchange_is_sequential_witness :
  in_sequence (run_rules (split_rules false false)) = Some "local" /\
  exists fuel, exchangeWithRules Demo.env servers (Some backup) exchange_with 0 (fun t => t) (after 5) question true fuel
                 (run_rules (split_rules false false)) (Demo.query "a.example") options0
               = Some (sequential Demo.env servers (Some backup) exchange_with 0 question true
                         (run_rules (split_rules false false)) (Demo.query "a.example") options0 None ∅).
Proof.
  split; [by vm_compute|].
  apply (exchange_is_sequential Demo.env (Some (fun _ => None)) servers no_sets no_tags no_tags (Some backup) exchange_with 0
           question true (after 5) 5 (split_rules false false) split_built split_flags ∅
           (run_rules (split_rules false false))
           (start_rules no_sets no_tags no_tags 0 split_built ∅).2).
  - exact no_sets_built.
  - apply split_decoded.
  - apply split_no_race.
  - reflexivity.
  - reflexivity.
  - exact split_fallback_first.
  - apply after_good.
  - split; reflexivity.
Defined.

Lemma response_scoping_decided_witness :
  check_nested 0 (split_rules false false) = Ok tt /\
  ((exists warnings, validateLegacyDNSModeDisabledRules (Some (fun _ => None)) ∅ (split_rules false false) = Ok warnings)
   <-> well_scoped (Some (fun _ => None)) ∅ (split_rules false false)).
Proof.
  split; [reflexivity|]. apply response_scoping_decided. reflexivity.
Defined.

(** Two rule-sets, one of them with IP CIDRs only. *)
Definition two_sets (tag : string) : option RuleSetMetadata :=
  if bool_decide (tag = "mixed") then Some (mkRuleSetMetadata false false true false true)
  else if bool_decide (tag = "addresses") then Some (mkRuleSetMetadata false false true false false) else None.
Definition sets_rule (tags : list string) : list DNSRule :=
  [DNSDefault (mkDNSRuleOptions (RuleBuildExamples.common_options None None None (Some tags)) None None false None None
                 false None None None None false) (route_to "local" false false)].
Definition sets_accepted (tags : list string) : bool :=
  match validateLegacyDNSModeDisabledRules (Some two_sets) ∅ (sets_rule tags) with Ok _ => true | _ => false end.
(** A rule that refers to a mixed rule-set is rejected for a second one that has
    only IP CIDRs. *)
Theorem one_pure_set_rejects :
  sets_accepted ["mixed"] = true /\ sets_accepted ["mixed"; "addresses"] = false.
Proof. split; by vm_compute. Qed.

(** An answer can be missed.  A rule records the named answers that have
    arrived and then looks whether the one it is bound to is there; an answer
    that arrives in between is there but not recorded, and the rule is matched
    without it: the query goes to the backup although the answer of the remote
    server says otherwise. *)
Theorem late_answer_missed :
  let rules := run_rules (split_rules false false) in
  in_sequence rules = Some "local" /\
  run S (after 1) rules = Some "local" /\
  run S (after 2) rules = Some "backup" /\
  run S (after 3) rules = Some "local".
Proof. repeat split; by vm_compute. Qed.

(** A fallback route between an evaluation and the rule that uses it. *)
Definition fallback_rules : list DNSRule :=
  [DNSDefault any_query (evaluate_as "remote" "r");
   DNSDefault any_query (route_to "backup" true false);
   DNSDefault (RuleBuildExamples.response_options "r") (route_to "local" false false);
   DNSDefault any_query (route_to "backup" false false)].

(** A fallback route cancels the evaluations that later rules use: the backup
    fails, the walk goes on, and the rule on the remote answer is matched
    without it. *)
Theorem fallback_cancels_evaluation :
  let rules := run_rules fallback_rules in
  in_sequence rules = Some "local" /\
  run (fun t => t) (after 0) rules = Some "local" /\
  run (fun t => t) (after 5) rules = Some "backup".
Proof. repeat split; by vm_compute. Qed.

(** The local server fails. *)
Definition failing_exchange (transport : option Member) (o : QueryOptions) : Res DNSMessage :=
  if bool_decide (m_Tag <$> transport = Some "local") then Ok (answer 2 []) else exchange_with transport o.

(** The fallback of a race rule is ignored: the failed answer is final. *)
Theorem race_ignores_fallback :
  let outcome race := exchangeWithRules Demo.env servers (Some backup) failing_exchange 0 (fun t => t) (after 5) question true 20
                   (run_rules (split_rules true race)) (Demo.query "a.example") options0 ≫= answered_by in
  outcome false = Some "backup" /\ outcome true = Some "local".
Proof. split; by vm_compute. Qed.

(** ** A router that is closed while it starts *)

(** A rule-set with one domain; a rule that refers to it. *)
Definition domain_set : RuleSet (Rule RuleAction) :=
  mkRuleSet "set"
    match NewHeadlessRule true (H_Default (RuleBuildExamples.headless_options (Some ["a.example"]) None)) with
    | Ok rule => [rule]
    | _ => []
    end (mkRuleSetMetadata false false false false true).
Definition one_set (tag : string) : option (RuleSet (Rule RuleAction)) :=
  if bool_decide (tag = "set") then Some domain_set else None.
Definition set_router : option (string -> option RuleSetMetadata) :=
  Some (fun tag => rs_metadata <$> one_set tag).
Definition set_rule : list DNSRule :=
  [DNSDefault (mkDNSRuleOptions (RuleBuildExamples.common_options None None None (Some ["set"])) None None false None None
                 false None None None None false) (route_to "local" false false)].

(** The next step of operation [i] *)
Definition op_at (i : nat) (s : DnsRouter) : DnsRouter :=
  match dr_ops s !! i with
  | Some o => let '(_, ops, s') := op_step one_set no_tags no_tags o s in set_ops s' (take i (dr_ops s) ++ ops ++ drop (S i) (dr_ops s))
  | None => s
  end.
Lemma op_at_reachable s0 s i : dns_reachable set_router servers one_set no_tags no_tags s0 s -> dns_reachable set_router servers one_set no_tags no_tags s0 (op_at i s).
Proof.
  intros H. unfold op_at. destruct (dr_ops s !! i) as [o|] eqn:Ho; [|done]. destruct (op_step one_set no_tags no_tags o s) as [[e ops] s'] eqn:E.
  eapply dns_next; [exact H|]. eapply step_op; [|exact E]. symmetry. by apply take_drop_middle.
Qed.
(** The rule-set is held once by others.  The rules are initialized; [Start] builds and
    starts the rule, [Close] runs, [Start] finds the router closing, and all operations
    release what they hold. *)
Definition life0 : DnsRouter := mkDnsRouter [] [] false false false {[ "set" := 1 ]} [] false.
Definition life1 : DnsRouter := (DnsRouter_Initialize set_router servers set_rule life0).2.
Definition life2 : DnsRouter := (Start_build set_router servers (op_at 0 life1)).2.
Definition life3 : DnsRouter := op_at 0 life2.
Definition life4 : DnsRouter := op_at 1 (op_at 1 (op_at 1 (op_at 1 (Close_take life3)))).
Definition life5 : DnsRouter := op_at 0 (op_at 0 life4).
Example life_example : dr_ops life5 = [] /\ dr_called life5 = true /\ dr_closing life5 = true /\ dr_started life5 = false.
Proof. vm_compute. done. Qed.
Lemma life_reachable : dns_reachable set_router servers one_set no_tags no_tags life0 life5.
Proof.
  apply op_at_reachable, op_at_reachable, op_at_reachable, op_at_reachable, op_at_reachable, op_at_reachable.
  apply dns_next with (s := life3) (e := Ok tt); [|apply step_close]. apply op_at_reachable.
  apply dns_next with (s := op_at 0 life1) (e := Ok tt); [|apply step_build; reflexivity]. apply op_at_reachable.
  apply dns_next with (s := life0) (e := Ok tt); [apply dns_initial|]. by apply (step_initialize _ _ _ _ _ set_rule).
Qed.

Lemma rule_set_references_balanced_witness :
  refs_of (dr_refs life3) "set" = 2 /\ dr_rules life5 = [] /\ refs_of (dr_refs life5) "set" = 1.
Proof.
  split; [by vm_compute|].
  destruct (rule_set_references_balanced set_router servers one_set no_tags no_tags life0 life5) as (_ & _ & H).
  - split; [reflexivity|]. split; [reflexivity|]. split; [reflexivity|]. intros t. cbn.
    unfold refs_of. destruct (decide (t = "set")) as [->|Hne]; [by vm_compute|].
    cbn. rewrite lookup_singleton_ne by done. cbn. lia.
  - exact life_reachable.
  - destruct (H eq_refl eq_refl) as [Hr Hc]. split; [exact Hr|]. rewrite Hc. by vm_compute.
Defined.

(** ** Legacy mode *)

Definition address_rule (domain ipcidr : Slice string) (a : DNSRuleActionOptions) : DNSRule :=
  DNSDefault (mkDNSRuleOptions (RuleBuildExamples.common_options None domain ipcidr None) None None false None None
                false None None None None false) a.
(** The backup for private answers, else the remote server. *)
Definition legacy_raw (fallback : bool) : list DNSRule :=
  [address_rule None (Some ["10.0.0.0/8"]) (route_to "backup" fallback false);
   address_rule (Some ["a.example"]) None (route_to "remote" false false)].
Definition legacy_mode (raw : list DNSRule) : option bool :=
  match buildRules (Some (fun _ => None)) ∅ servers raw with Ok (_, legacy, _) => Some legacy | _ => None end.

(** A client that keeps a cache, which is empty, and the servers behind it. *)
#[local] Existing Instances entries_cache no_edns.
Definition client_question : CMsg := mkCMsg (dm_hdr question) (dm_Question question) [] [] [].
Definition record_of (rr : RR) : list Rec :=
  match rr with RR_A n ip => [mkRec n T_A ClassINET 60 (D_A ip)] | _ => [] end.
Definition server_reply (t : option Member) (m : CMsg) : TransportReply :=
  match exchange_with t options0 with
  | Ok r => TMessage (mkCMsg (dm_hdr r) (dm_Question r) (flat_map record_of (dm_Answer r)) [] [])
  | Err e => TError e
  | Panic p => TError (E_New [AStr p])
  end.
Definition no_rdata (d : RData) : list Z := [].
Definition fresh (i : nat) (t : option Member) : Moment := mkMoment 0 0 0 0 None (server_reply t) no_entries.
Definition checked_client : nat -> option Member -> QueryOptions -> option (DNSMessage -> bool) -> Reply :=
  legacy_client client_config no_rdata client_question fresh.
Definition legacy_run (raw : list DNSRule) : option LegacyRun :=
  exchangeLegacy Demo.env servers (Some backup) 0 checked_client question 5 (run_rules raw) 0 (Demo.query "a.example") options0.
Definition legacy_answer (run : option LegacyRun) : option (option string) :=
  match run with Some (mkRun (Ok r) _ _) => Some (m_Tag <$> lr_transport r) | _ => None end.

Definition all_legacy (rules : list (Rule RuleAction)) : bool :=
  forallb (fun r => unmixed false r && truthful r) rules.
Lemma all_legacy_ok rules : all_legacy rules = true -> Forall legacy_rule rules.
Proof.
  unfold all_legacy. rewrite forallb_forall. intros H. apply list.Forall_forall. intros r Hr.
  apply list_elem_of_In, H, andb_true_iff in Hr. done.
Qed.


(** Reject private addresses, ask the remote server for the rest. *)
Definition reject_private : DNSRule :=
  address_rule None (Some ["10.0.0.0/8"])
    (mkDNSRuleActionOptions "reject" false "" false false AbstractDNSRouteOptions_zero "" "" false
       AbstractDNSRouteOptions_zero AbstractDNSRouteOptions_zero (mkRejectOptions "default" false) None [] [] []).
Definition reject_raw : list DNSRule :=
  [reject_private; address_rule (Some ["a.example"]) None (route_to "remote" false false)].
Definition refused (run : option LegacyRun) : bool :=
  match run with Some (mkRun (Ok (mkLegacy (Some r) None None)) _ _) => hdr_Rcode (dm_hdr r) =? 5 | _ => false end.

(** A legacy rule that rejects private addresses rejects everything.  The
    configuration is accepted and runs in legacy mode; whatever the servers
    would answer, the query is refused and no address is looked at. *)
Theorem legacy_reject_unchecked client :
  legacy_mode reject_raw = Some true /\
  refused (exchangeLegacy Demo.env servers (Some backup) 0 client question 5 (run_rules reject_raw) 0
             (Demo.query "a.example") options0) = true.
Proof. split; by vm_compute. Qed.

(** A fallback route, with and without another rule that needs legacy mode. *)
Definition fallback_raw (ipcidr : Slice string) : list DNSRule :=
  [address_rule (Some ["a.example"]) None (route_to "backup" true false);
   address_rule (Some ["b.example"]) ipcidr (route_to "local" false false);
   address_rule (Some ["a.example"]) None (route_to "remote" false false)].

(** In legacy mode a fallback route does not fall back: the failure of the
    backup is final. *)
Theorem legacy_ignores_fallback :
  legacy_mode (fallback_raw None) = Some false /\
  run (fun t => t) (after 0) (run_rules (fallback_raw None)) = Some "remote" /\
  legacy_mode (fallback_raw (Some ["10.0.0.0/8"])) = Some true /\
  legacy_answer (legacy_run (fallback_raw (Some ["10.0.0.0/8"]))) = Some (Some "backup").
Proof. repeat split; by vm_compute. Qed.

(** Turn the cache off, then two servers. *)
Definition uncached_raw (first : Slice string) : list DNSRule :=
  [address_rule (Some ["a.example"]) None
     (mkDNSRuleActionOptions "route-options" false "" false false AbstractDNSRouteOptions_zero "" "" false
        AbstractDNSRouteOptions_zero (mkDNSRouteOptions 0 0 true false None None false)
        RuleBuildExamples.reject_zero None [] [] []);
   address_rule None first (route_to "backup" false false);
   address_rule (Some ["a.example"]) None (route_to "remote" false false)].
(** Whether the remote server was asked without the cache. *)
Definition asked_uncached (first : Slice string) : option (option error) :=
  match exchangeLegacy Demo.env servers (Some backup) 0
          (fun i t o c => match checked_client i t o c with
                        | Answer r => if qo_disableCache o then Answer r else Failed (E_New [AStr "from the cache"])
                        | reply => reply end)
          question 5 (run_rules (uncached_raw first)) 0 (Demo.query "a.example") options0 with
  | Some (mkRun (Ok r) _ _) => Some (lr_err r)
  | _ => None
  end.

(** After a rejected response the options that earlier rules set are lost. *)
Theorem retry_drops_options :
  asked_uncached (Some ["10.0.0.0/8"]) = Some (Some (E_New [AStr "from the cache"])).
Proof. by vm_compute. Qed.

End DnsExamples.
