(* ===== verification/DnsLock.v ===== *)
(** * Equal queries of the DNS client

    [cacheLock] of [dns/client.go]: of several queries with the same key one goes
    ahead, the others wait for a channel that it closes, and then look into the
    cache.  [beginExchange], [Exchange], [ExchangeAsync] and [release] as steps of
    concurrent calls.

    A step is what happens between two operations on shared state: the map of
    locks, a channel, the cache.  A channel is a number; the map of locks is a
    list of keys with their channels. *)

From stdpp Require Import base numbers list strings gmap option.
From Stdlib Require Import ZArith Lia.
From S2P Require Import Prelude NetAddr Metadata RuleAction ManagerCore DnsWalk DnsMessage DnsClient.

Local Open Scope Z_scope.

Section Lock.
Context {RC : ResponseCache} {MD : MiekgDNS}.
Context (cfg : ClientConfig).

(** ** Calls *)

(** The arguments of a call of [Exchange], or of [ExchangeAsync] *)
Record Call := mkCall {
  ca_tag : string;
  ca_loop : option string;
  ca_message : CMsg;
  ca_options : QueryOptions;
  ca_checker : option (CMsg -> bool)
}.

(** A lock that a call holds: its key and channel *)
Abbreviation Held := (dnsCacheKey * nat)%type.

(** Where a call is: before [beginExchange] ([allowWait] or not), waiting for a
    channel, past the lock, with the transport, with its reply and the lock still to
    release ([Delete], then [close]), and done *)
Inductive Phase :=
  | Started (allowWait : bool)
  | Waiting (cond : nat)
  | Loading (op : Operation) (held : option Held)
  | Asking (op : Operation) (held : option Held)
  | Finishing (reply : ClientReply) (held : option Held)
  | Closing (reply : ClientReply) (cond : nat)
  | Finished (reply : ClientReply).

(** The client, its locks, the channels that are closed, the next channel, and
    whether a closed channel was closed *)
Record Shared := mkShared {
  sh_client : ClientState;
  sh_lock : list Held;
  sh_closed : list nat;
  sh_next : nat;
  sh_panicked : bool
}.
Definition set_client (sh : Shared) (s : ClientState) : Shared :=
  mkShared s (sh_lock sh) (sh_closed sh) (sh_next sh) (sh_panicked sh).

(** [compatible.Map] *)
Definition lock_Load (l : list Held) (key : dnsCacheKey) : option nat :=
  snd <$> List.find (fun e => bool_decide (e.1 = key)) l.
Definition lock_Delete (l : list Held) (key : dnsCacheKey) : list Held :=
  filter (fun e => e.1 <> key) l.

(** What moves a call: it goes on, at a time and in an environment; its context
    ends; the transport replies *)
Inductive Event :=
  | Go (now environment : Z)
  | Cancel
  | Reply (r : TransportReply) (now environment : Z).

Definition ctx_done : error := E_New [AStr "context canceled"].

(** The operation of a call *)
Definition operation (call : Call) (environment : Z) (question : Question) (message : CMsg) (disableCache : bool)
  : Operation :=
  mkOperation message question (ca_options call) (ca_checker call) disableCache
    (newCacheKey cfg (ca_tag call) environment question message (ca_options call)).

(** [beginExchange] up to [LoadOrStore]; [ExchangeAsync] does not wait and calls
    [Exchange] instead *)
Definition start (call : Call) (allowWait : bool) (environment : Z) (sh : Shared) : Phase * Shared :=
  match begin_query cfg (ca_message call) (ca_options call) with
  | inl reply => (Finishing reply None, sh)
  | inr (question, message, disableCache) =>
      let op := operation call environment question message disableCache in
      if disableCache then (Loading op None, sh)
      else
        match lock_Load (sh_lock sh) (op_key op) with
        | Some cond => (if allowWait then Waiting cond else Started true, sh)
        | None =>
            let held := (op_key op, sh_next sh) in
            (Loading op (Some held),
             mkShared (sh_client sh) (held :: sh_lock sh) (sh_closed sh) (S (sh_next sh)) (sh_panicked sh))
        end
  end.

(** A call that waited computes its key again. *)
Definition woken (call : Call) (environment : Z) : Phase :=
  match begin_query cfg (ca_message call) (ca_options call) with
  | inl reply => Finishing reply None
  | inr (question, message, disableCache) => Loading (operation call environment question message disableCache) None
  end.

(** The reply of the transport *)
Definition finish_reply (call : Call) (op : Operation) (r : TransportReply) (now environment : Z) (s : ClientState)
  : ClientReply * ClientState :=
  match exchangeToTransport (fun _ => r) (op_message op) with
  | inr e => (CFailed e, s)
  | inl response => finishExchange cfg now (ca_tag call) environment op response s
  end.

(** [close] *)
Definition close_cond (c : nat) (sh : Shared) : Shared :=
  mkShared (sh_client sh) (sh_lock sh) (c :: sh_closed sh) (sh_next sh)
    (sh_panicked sh || bool_decide (c ∈ sh_closed sh)).

(** One step of a call; [deadline] says whether its context may end. *)
Definition call_step (deadline : bool) (call : Call) (e : Event) (p : Phase) (sh : Shared) : option (Phase * Shared) :=
  match p, e with
  | Started allowWait, Go _ environment => Some (start call allowWait environment sh)
  | Waiting cond, Go _ environment =>
      if bool_decide (cond ∈ sh_closed sh) then Some (woken call environment, sh) else None
  | Waiting _, Cancel => if deadline then Some (Finishing (CFailed ctx_done) None, sh) else None
  | Loading op held, Go now _ =>
      let '(r, s) := begin_load cfg now (ca_tag call) (ca_loop call) op (sh_client sh) in
      Some (match r with inl reply => Finishing reply held | inr op => Asking op held end, set_client sh s)
  | Asking op held, Reply r now environment =>
      let '(reply, s) := finish_reply call op r now environment (sh_client sh) in
      Some (Finishing reply held, set_client sh s)
  | Finishing reply None, Go _ _ => Some (Finished reply, sh)
  | Finishing reply (Some (key, cond)), Go _ _ =>
      Some (Closing reply cond,
            mkShared (sh_client sh) (lock_Delete (sh_lock sh) key) (sh_closed sh) (sh_next sh) (sh_panicked sh))
  | Closing reply cond, Go _ _ => Some (Finished reply, close_cond cond sh)
  | _, _ => None
  end.

(** ** Several calls *)

Record System := mkSystem { sy_calls : list (Call * Phase); sy_shared : Shared }.

Context (deadline : nat -> bool).

Definition sys_step (a : nat * Event) (s : System) : option System :=
  '(call, p) ← sy_calls s !! a.1;
  '(p, sh) ← call_step (deadline a.1) call a.2 p (sy_shared s);
  Some (mkSystem (<[a.1 := (call, p)]> (sy_calls s)) sh).

Inductive reachable_calls (s0 : System) : System -> Prop :=
  | calls_initial : reachable_calls s0 s0
  | calls_step a s s' : reachable_calls s0 s -> sys_step a s = Some s' -> reachable_calls s0 s'.

(** No call has begun, and no lock is held. *)
Definition fresh_calls (s : System) : Prop :=
  Forall (fun c => exists w, c.2 = Started w) (sy_calls s) /\
  sh_lock (sy_shared s) = [] /\ sh_closed (sy_shared s) = [] /\ sh_panicked (sy_shared s) = false.

(** The lock of a call, and the channel it will close *)
Definition held_lock (p : Phase) : option Held :=
  match p with Loading _ h | Asking _ h | Finishing _ h => h | _ => None end.
Definition owned (p : Phase) : option nat :=
  match p with Closing _ c => Some c | _ => snd <$> held_lock p end.
Definition is_finished (p : Phase) : bool := match p with Finished _ => true | _ => false end.

(** ** The invariant *)

Abbreviation locks calls := (omap (fun c : Call * Phase => held_lock c.2) calls).
Abbreviation channels calls := (omap (fun c : Call * Phase => owned c.2) calls).

(** The map holds exactly the locks of the calls, one per key; every channel has
    one call that will close it, or is closed; no call waits for another one. *)
Record lock_inv (s : System) : Prop := {
  li_locks : sh_lock (sy_shared s) ≡ₚ locks (sy_calls s);
  li_keys : NoDup (sh_lock (sy_shared s)).*1;
  li_channels : NoDup (channels (sy_calls s) ++ sh_closed (sy_shared s));
  li_fresh : Forall (fun c => c < sh_next (sy_shared s))%nat (channels (sy_calls s) ++ sh_closed (sy_shared s));
  li_waiting : forall call c, (call, Waiting c) ∈ sy_calls s ->
                 c ∈ channels (sy_calls s) ++ sh_closed (sy_shared s);
  li_panic : sh_panicked (sy_shared s) = false
}.

Lemma sys_step_inv a s s' : sys_step a s = Some s' ->
  exists l1 l2 call p p', sy_calls s = l1 ++ (call, p) :: l2 /\ sy_calls s' = l1 ++ (call, p') :: l2 /\
    a.1 = length l1 /\ call_step (deadline a.1) call a.2 p (sy_shared s) = Some (p', sy_shared s').
Proof.
  unfold sys_step. intros H. apply bind_Some in H as ([call p] & Hl & H). apply bind_Some in H as ([p' sh] & Hs & [= <-]).
  cbn. apply list_elem_of_split_length in Hl as (l1 & l2 & Hc & Hn). exists l1, l2, call, p, p'.
  rewrite Hn, Hc, insert_app_r_alt, Nat.sub_diag by lia. by rewrite <-Hn.
Qed.

Lemma lock_Load_elem l key c : lock_Load l key = Some c -> (key, c) ∈ l.
Proof.
  unfold lock_Load. rewrite fmap_Some. intros ([k c'] & Hf & ->). apply find_some in Hf as [Hin Hk].
  apply bool_decide_eq_true in Hk. cbn in Hk. subst k. by apply list_elem_of_In.
Qed.
Lemma lock_Load_none l key : lock_Load l key = None -> key ∉ l.*1.
Proof.
  unfold lock_Load. rewrite fmap_None. intros Hf (e & -> & He)%list_elem_of_fmap.
  apply list_elem_of_In in He. apply (find_none _ _ Hf) in He. by rewrite bool_decide_true in He.
Qed.

Lemma locks_channels (calls : list (Call * Phase)) k c : (k, c) ∈ locks calls -> c ∈ channels calls.
Proof.
  rewrite !list_elem_of_omap. intros ([call p] & Hin & Hp). exists (call, p). split; [done|]. cbn in *.
  destruct p; cbn in *; try done; by rewrite Hp.
Qed.

(** A call that keeps its lock, or has none, and waits only for a known channel. *)
Lemma inv_same l1 l2 call p p' sh s : lock_inv (mkSystem (l1 ++ (call, p) :: l2) sh) ->
  held_lock p' = held_lock p -> owned p' = owned p ->
  (forall c, p' = Waiting c -> c ∈ (sh_lock sh).*2) ->
  lock_inv (mkSystem (l1 ++ (call, p') :: l2) (set_client sh s)).
Proof.
  intros [H1 H2 H3 H4 H5 H6] Hh Ho Hw. cbn in *.
  assert (El : locks (l1 ++ (call, p') :: l2) = locks (l1 ++ (call, p) :: l2)) by (rewrite !omap_app; cbn; by rewrite Hh).
  assert (Ec : channels (l1 ++ (call, p') :: l2) = channels (l1 ++ (call, p) :: l2)) by (rewrite !omap_app; cbn; by rewrite Ho).
  constructor; cbn; rewrite ?El, ?Ec; try done.
  intros ca c Hin. apply elem_of_app in Hin as [Hin|[Heq|Hin]%elem_of_cons].
  - apply (H5 ca). apply elem_of_app. by left.
  - injection Heq as -> <-. apply elem_of_app. left. specialize (Hw c eq_refl). apply list_elem_of_fmap in Hw as ([k c'] & -> & Hin).
    apply (locks_channels _ k). by rewrite <-H1.
  - apply (H5 ca). apply elem_of_app. right. by apply elem_of_cons; right.
Qed.

Lemma inv_acquire l1 l2 call p op key sh : lock_inv (mkSystem (l1 ++ (call, p) :: l2) sh) ->
  held_lock p = None -> owned p = None -> lock_Load (sh_lock sh) key = None ->
  lock_inv (mkSystem (l1 ++ (call, Loading op (Some (key, sh_next sh))) :: l2)
    (mkShared (sh_client sh) ((key, sh_next sh) :: sh_lock sh) (sh_closed sh) (S (sh_next sh)) (sh_panicked sh))).
Proof.
  intros [H1 H2 H3 H4 H5 H6] Hh Ho Hk. cbn [sy_calls sy_shared] in *.
  rewrite omap_app in H1. rewrite omap_app in H3. rewrite omap_app in H4. cbn in H1, H3, H4.
  rewrite ?Hh, ?Ho in *. cbn in H1, H3, H4.
  set (n := sh_next sh) in *.
  assert (Hp : channels (l1 ++ (call, Loading op (Some (key, n))) :: l2) ++ sh_closed sh ≡ₚ
               n :: (channels l1 ++ channels l2) ++ sh_closed sh).
  { rewrite omap_app. cbn. by rewrite <-Permutation_middle. }
  assert (Hn : n ∉ (channels l1 ++ channels l2) ++ sh_closed sh).
  { intros Hin. rewrite list.Forall_forall in H4. specialize (H4 n Hin). lia. }
  constructor; cbn.
  - rewrite omap_app. cbn. rewrite H1. by rewrite Permutation_middle.
  - constructor; [by apply lock_Load_none|done].
  - rewrite Hp. by constructor.
  - rewrite Hp. constructor; [lia|]. eapply Forall_impl; [|exact H4]. cbn. lia.
  - intros ca c Hin. rewrite Hp. apply elem_of_cons. right.
    assert (Hc : (ca, Waiting c) ∈ l1 ++ (call, p) :: l2).
    { apply elem_of_app in Hin as [Hin|[Heq|Hin]%elem_of_cons]; [|done|]; apply elem_of_app; [by left|].
      right. by apply elem_of_cons; right. }
    apply H5 in Hc. rewrite omap_app in Hc. cbn in Hc. by rewrite Ho in Hc.
  - done.
Qed.

Lemma lock_Delete_perm l l' key c : l ≡ₚ (key, c) :: l' -> NoDup l.*1 -> lock_Delete l key ≡ₚ l'.
Proof.
  intros Hp Hn. unfold lock_Delete. rewrite Hp, filter_cons_False by (cbn; naive_solver).
  rewrite Hp in Hn. cbn in Hn. apply list.NoDup_cons in Hn as [Hk _]. clear Hp.
  induction l' as [|[k c'] l' IH]; [done|]. cbn in Hk. apply not_elem_of_cons in Hk as [Hne Hk].
  rewrite filter_cons_True by (cbn; congruence). constructor. by apply IH.
Qed.

Lemma inv_delete l1 l2 call reply key c sh :
  lock_inv (mkSystem (l1 ++ (call, Finishing reply (Some (key, c))) :: l2) sh) ->
  lock_inv (mkSystem (l1 ++ (call, Closing reply c) :: l2)
    (mkShared (sh_client sh) (lock_Delete (sh_lock sh) key) (sh_closed sh) (sh_next sh) (sh_panicked sh))).
Proof.
  intros [H1 H2 H3 H4 H5 H6]. cbn [sy_calls sy_shared] in *.
  assert (Ec : channels (l1 ++ (call, Closing reply c) :: l2) =
               channels (l1 ++ (call, Finishing reply (Some (key, c))) :: l2)) by (by rewrite !omap_app).
  assert (Hd : lock_Delete (sh_lock sh) key ≡ₚ locks l1 ++ locks l2).
  { apply (lock_Delete_perm _ _ key c); [|done]. rewrite H1, omap_app. cbn. by rewrite Permutation_middle. }
  constructor; cbn [sy_calls sy_shared sh_lock sh_closed sh_next sh_panicked]; rewrite ?Ec; try done.
  - by rewrite Hd, omap_app.
  - eapply sublist_NoDup; [exact H2|]. apply fmap_sublist, sublist_filter.
  - intros ca c' Hin. apply (H5 ca). apply elem_of_app in Hin as [Hin|[Heq|Hin]%elem_of_cons]; [|done|];
      apply elem_of_app; [by left|]. right. by apply elem_of_cons; right.
Qed.

Lemma inv_close l1 l2 call reply c sh : lock_inv (mkSystem (l1 ++ (call, Closing reply c) :: l2) sh) ->
  lock_inv (mkSystem (l1 ++ (call, Finished reply) :: l2) (close_cond c sh)).
Proof.
  intros [H1 H2 H3 H4 H5 H6]. cbn [sy_calls sy_shared] in *.
  assert (Hp : channels (l1 ++ (call, Finished reply) :: l2) ++ c :: sh_closed sh ≡ₚ
               channels (l1 ++ (call, Closing reply c) :: l2) ++ sh_closed sh).
  { rewrite !omap_app. cbn. rewrite <-!app_assoc, <-Permutation_middle. cbn. by rewrite <-!Permutation_middle. }
  constructor; cbn [sy_calls sy_shared close_cond sh_lock sh_closed sh_next sh_panicked]; rewrite ?Hp; try done.
  - rewrite H1, !omap_app. done.
  - intros ca c' Hin. rewrite Hp. apply (H5 ca). apply elem_of_app in Hin as [Hin|[Heq|Hin]%elem_of_cons]; [|done|];
      apply elem_of_app; [by left|]. right. by apply elem_of_cons; right.
  - rewrite H6. cbn. rewrite bool_decide_false; [done|]. intros Hin.
    apply list.NoDup_app in H3 as (_ & H3 & _). apply (H3 c); [|done]. rewrite omap_app. cbn.
    apply elem_of_app. right. by apply elem_of_cons; left.
Qed.

Lemma set_client_same sh : set_client sh (sh_client sh) = sh.
Proof. by destruct sh. Qed.

Lemma start_inv l1 l2 call w environment sh p' sh' : lock_inv (mkSystem (l1 ++ (call, Started w) :: l2) sh) ->
  start call w environment sh = (p', sh') -> lock_inv (mkSystem (l1 ++ (call, p') :: l2) sh').
Proof.
  intros Hi. unfold start. destruct (begin_query _ _ _) as [reply|[[q m] d]].
  { intros [= <- <-]. rewrite <-(set_client_same sh). by eapply inv_same. }
  cbv zeta. destruct d; [intros [= <- <-]; rewrite <-(set_client_same sh); by eapply inv_same|].
  destruct (lock_Load _ _) as [c|] eqn:Hl.
  - intros [= <- <-]. rewrite <-(set_client_same sh). eapply inv_same; [done|by destruct w..|].
    intros c' Hc. apply lock_Load_elem in Hl. destruct w; [|done]. injection Hc as <-.
    apply list_elem_of_fmap. by eexists (_, _).
  - intros [= <- <-]. by eapply inv_acquire.
Qed.

Lemma step_inv a s s' : lock_inv s -> sys_step a s = Some s' -> lock_inv s'.
Proof.
  intros Hi Hs. apply sys_step_inv in Hs as (l1 & l2 & call & p & p' & Ec & Ec' & _ & Hs).
  destruct s as [calls sh], s' as [calls' sh']. cbn in Ec, Ec', Hs. subst calls calls'.
  destruct p as [w|c|op h|op h|reply [[key c]|]|reply c|reply], a as [i [now environment| |r now environment]]; try done;
    cbn [call_step fst snd] in Hs.
  - injection Hs as Hs. by eapply start_inv.
  - case_bool_decide; [|done]. injection Hs as <- <-. rewrite <-(set_client_same sh).
    eapply inv_same; [done|unfold woken; by destruct (begin_query _ _ _) as [?|[[? ?] ?]]..|].
    intros c'. unfold woken. by destruct (begin_query _ _ _) as [?|[[? ?] ?]].
  - destruct (deadline i); [|done]. injection Hs as <- <-. rewrite <-(set_client_same sh). by eapply inv_same.
  - destruct (begin_load _ _ _ _ _ _) as [r s]. injection Hs as <- <-.
    eapply inv_same; [done|by destruct r..].
  - destruct (finish_reply _ _ _ _ _ _) as [reply s]. injection Hs as <- <-. by eapply inv_same.
  - injection Hs as <- <-. by apply inv_delete.
  - injection Hs as <- <-. rewrite <-(set_client_same sh). by eapply inv_same.
  - injection Hs as <- <-. by apply inv_close.
Qed.

Lemma fresh_inv s : fresh_calls s -> lock_inv s.
Proof.
  intros (Hc & Hl & Hcl & Hp). rewrite list.Forall_forall in Hc.
  assert (Hnone : forall B (f : Call * Phase -> option B), (forall call w, f (call, Started w) = None) ->
            omap f (sy_calls s) = []).
  { intros B f Hf. induction (sy_calls s) as [|[call p] l IH]; [done|]. cbn.
    destruct (Hc (call, p)) as [w Hw]; [by apply elem_of_cons; left|]. cbn in Hw. subst p. rewrite Hf. apply IH.
    intros x Hx. apply Hc. by apply elem_of_cons; right. }
  constructor; rewrite ?Hl, ?Hcl, ?Hnone by done; try constructor; try done.
  intros call c Hin. destruct (Hc _ Hin) as [w Hw]. done.
Qed.

(** Every step brings its call nearer to its end. *)
Definition phase_rank (p : Phase) : nat :=
  match p with
  | Started false => 7 | Started true => 6 | Waiting _ => 5 | Loading _ _ => 4 | Asking _ _ => 3
  | Finishing _ _ => 2 | Closing _ _ => 1 | Finished _ => 0
  end.
Definition calls_left (s : System) : nat := sum_list ((fun c : Call * Phase => phase_rank c.2) <$> sy_calls s).

Lemma rank_decreases d call e p sh p' sh' : call_step d call e p sh = Some (p', sh') -> (phase_rank p' < phase_rank p)%nat.
Proof.
  destruct p as [w|c|op h|op h|reply [[key c]|]|reply c|reply], e; try done; cbn [call_step].
  - intros [= Hs]. revert Hs. unfold start. destruct (begin_query _ _ _) as [?|[[q m] [|]]].
    + intros [= <- <-]. destruct w; cbn; lia.
    + intros [= <- <-]. destruct w; cbn; lia.
    + cbv zeta. destruct (lock_Load _ _); intros [= <- <-]; destruct w; cbn; lia.
  - case_bool_decide; [|done]. intros [= <- <-]. unfold woken. destruct (begin_query _ _ _) as [?|[[? ?] ?]]; cbn; lia.
  - destruct d; [|done]. intros [= <- <-]. cbn. lia.
  - destruct (begin_load _ _ _ _ _ _) as [[] ?]; intros [= <- <-]; cbn; lia.
  - destruct (finish_reply _ _ _ _ _ _). intros [= <- <-]. cbn. lia.
  - intros [= <- <-]. cbn. lia.
  - intros [= <- <-]. cbn. lia.
  - intros [= <- <-]. cbn. lia.
Qed.

Lemma left_decreases a s s' : sys_step a s = Some s' -> (calls_left s' < calls_left s)%nat.
Proof.
  intros (l1 & l2 & call & p & p' & Ec & Ec' & _ & Hs)%sys_step_inv. unfold calls_left. rewrite Ec, Ec', !fmap_app, !fmap_cons.
  rewrite !sum_list_with_app || rewrite !sum_list_app. cbn. apply rank_decreases in Hs. lia.
Qed.

(** A call that does not wait can go on. *)
Lemma call_goes s i call p : sy_calls s !! i = Some (call, p) -> is_finished p = false ->
  (forall c, p = Waiting c -> c ∈ sh_closed (sy_shared s)) -> exists a s', sys_step a s = Some s'.
Proof.
  intros Hl Hf Hw.
  assert (Hgo : exists e p' sh', call_step (deadline i) call e p (sy_shared s) = Some (p', sh')).
  { destruct p as [w|c|op h|op h|reply [[key c]|]|reply c|reply]; try done.
    - exists (Go 0 0). cbn. destruct (start _ _ _ _). eauto.
    - exists (Go 0 0). cbn. rewrite bool_decide_true by auto. eauto.
    - exists (Go 0 0). cbn. destruct (begin_load _ _ _ _ _ _) as [? ?]. eauto.
    - exists (Reply (TRcode 0) 0 0). cbn [call_step]. destruct (finish_reply _ _ _ _ _ _). eauto.
    - exists (Go 0 0). cbn. eauto.
    - exists (Go 0 0). cbn. eauto.
    - exists (Go 0 0). cbn. eauto. }
  destruct Hgo as (e & p' & sh' & He). exists (i, e). unfold sys_step. cbn. rewrite Hl. cbn. rewrite He. cbn. eauto.
Qed.

Lemma some_call_goes s : lock_inv s ->
  Forall (fun c => is_finished c.2 = true) (sy_calls s) \/ exists a s', sys_step a s = Some s'.
Proof.
  intros Hi. destruct (decide (Forall (fun c => is_finished c.2 = true) (sy_calls s))) as [|Hn]; [by left|right].
  apply not_Forall_Exists in Hn; [|intros; apply _]. apply list.Exists_exists in Hn as ([call p] & Hin & Hf). cbn in Hf.
  apply not_true_is_false in Hf. destruct (list_elem_of_lookup_1 _ _ Hin) as [i Hl].
  destruct p as [w|c|op h|op h|reply h|reply c|reply]; try (by eapply call_goes).
  destruct (decide (c ∈ sh_closed (sy_shared s))) as [Hc|Hc].
  { eapply call_goes; [done|done|]. by intros ? [= <-]. }
  pose proof (li_waiting s Hi call c Hin) as Hlive. apply elem_of_app in Hlive as [Hlive|]; [|done].
  apply list_elem_of_omap in Hlive as ([call' p'] & Hin' & Ho). cbn in Ho.
  destruct (list_elem_of_lookup_1 _ _ Hin') as [j Hj]. eapply (call_goes s j); [done|by destruct p'|].
  intros c' ->. done.
Qed.

Lemma holder_unique (calls : list (Call * Phase)) i j ci cj pi pj k c c' : NoDup (locks calls).*1 ->
  calls !! i = Some (ci, pi) -> calls !! j = Some (cj, pj) ->
  held_lock pi = Some (k, c) -> held_lock pj = Some (k, c') -> i = j.
Proof.
  revert i j. induction calls as [|[call p] calls IH]; [done|]. intros i j Hn Hi Hj Hpi Hpj.
  assert (Hlater : forall x cx px cx', calls !! x = Some (cx, px) -> held_lock px = Some (k, cx') ->
            held_lock p = Some (k, c) \/ held_lock p = Some (k, c') -> False).
  { intros x cx px cx' Hx Hpx Hp. cbn in Hn.
    assert (Hin : k ∈ (locks calls).*1).
    { apply list_elem_of_fmap. exists (k, cx'). split; [done|]. apply list_elem_of_omap. exists (cx, px).
      split; [by eapply list_elem_of_lookup_2|done]. }
    destruct Hp as [Hp|Hp]; rewrite Hp in Hn; cbn in Hn; by apply list.NoDup_cons in Hn as [Hn _]. }
  destruct i as [|i], j as [|j]; cbn in Hi, Hj; [done|..].
  - injection Hi as -> ->. exfalso. eapply (Hlater j); eauto.
  - injection Hj as -> ->. exfalso. eapply (Hlater i); eauto.
  - f_equal. apply IH; try done. cbn in Hn. destruct (held_lock p) as [[]|]; [|done]. cbn in Hn.
    by apply list.NoDup_cons in Hn as [_ Hn].
Qed.

Lemma reachable_lock_inv s0 s : fresh_calls s0 -> reachable_calls s0 s -> lock_inv s.
Proof. intros Hf. induction 1; [by apply fresh_inv|]. by eapply step_inv. Qed.

(** C9: equal queries wait for one another without getting lost.  However
    concurrent calls of [Exchange] and [ExchangeAsync] interleave, at most one
    call holds the lock of a key, no channel is closed twice, a call that has
    ended has released its lock on every path, and, as long as transports reply,
    every run comes to the end of all calls: a waiting call is always woken, also
    when no context ends. *)
Theorem equal_queries_joined s0 s : fresh_calls s0 -> reachable_calls s0 s ->
  sh_panicked (sy_shared s) = false /\
  (forall i j ci cj pi pj k c c', sy_calls s !! i = Some (ci, pi) -> sy_calls s !! j = Some (cj, pj) ->
     held_lock pi = Some (k, c) -> held_lock pj = Some (k, c') -> i = j) /\
  (Forall (fun c => is_finished c.2 = true) (sy_calls s) -> sh_lock (sy_shared s) = []) /\
  inevitable sys_step (fun s => Forall (fun c => is_finished c.2 = true) (sy_calls s)) s.
Proof.
  intros Hf Hr. pose proof (reachable_lock_inv s0 s Hf Hr) as Hi. split; [by apply Hi|]. split; [|split].
  - intros *. apply holder_unique. rewrite <-(li_locks s Hi). by apply Hi.
  - intros Hall. apply Permutation_nil_r. rewrite (li_locks s Hi). apply reflexive_eq.
    induction (sy_calls s) as [|[call p] l IH]; [done|]. apply Forall_cons_iff in Hall as [Hp Hall]. cbn in *.
    destruct p; try done. by apply IH.
  - apply (inevitable_measure sys_step lock_inv calls_left); [..|done].
    + intros a s1 s2. apply step_inv.
    + intros a s1 s2 _. apply left_decreases.
    + apply some_call_goes.
Qed.

End Lock.

(** ** Two equal queries *)

#[local] Existing Instances entries_cache no_edns.

Definition https_call (id : Z) : Call := mkCall "dns" None (https_query id) (client_options 0) None.
Definition two_calls : System :=
  mkSystem [(https_call 7, Started false); (https_call 8, Started true)] (mkShared no_entries [] [] 0 false).
Definition no_deadline (i : nat) : bool := false.
Fixpoint run_calls (events : list (nat * Event)) (s : System) : option System :=
  match events with [] => Some s | a :: rest => s ← sys_step client_config no_deadline a s; run_calls rest s end.

(** The second call waits for the first and is answered from the cache. *)
Lemma second_call_waits :
  (fun s => (fun c => is_finished c.2) <$> sy_calls s) <$>
    run_calls [(0, Go 0 0); (1, Go 0 0); (0, Go 0 0); (0, Reply (TMessage https_answer) 0 0); (0, Go 0 0); (0, Go 0 0);
               (1, Go 1 0); (1, Go 1 0); (1, Go 1 0)]%nat two_calls = Some [true; true] /\
  run_calls [(0, Go 0 0); (1, Go 0 0); (0, Go 0 0); (1, Go 0 0)]%nat two_calls = None.
Proof. split; vm_compute; reflexivity. Qed.

Lemma run_calls_reachable events s s' : run_calls events s = Some s' -> reachable_calls client_config no_deadline s s'.
Proof.
  revert s'. induction events as [|a events IH] using rev_ind; [intros s' [= <-]; constructor|].
  assert (Happ : forall l s1, run_calls (l ++ [a]) s1 = run_calls l s1 ≫= sys_step client_config no_deadline a).
  { induction l as [|b l IHl]; intros s1; cbn.
    - by destruct (sys_step _ _ a s1).
    - destruct (sys_step _ _ b s1); [apply IHl|done]. }
  intros s'. rewrite Happ. intros (s1 & H1 & H2)%bind_Some. econstructor; [by apply IH|done].
Qed.

Definition second_waits : System := default two_calls (run_calls [(0, Go 0 0); (1, Go 0 0)]%nat two_calls).

Lemma equal_queries_joined_witness :
  fresh_calls two_calls /\ sh_panicked (sy_shared second_waits) = false /\
  inevitable (sys_step client_config no_deadline) (fun s => Forall (fun c => is_finished c.2 = true) (sy_calls s)) second_waits.
Proof.
  assert (Hf : fresh_calls two_calls) by (split; [repeat constructor; cbn; eauto|done]). split; [done|].
  assert (Hr : reachable_calls client_config no_deadline two_calls second_waits).
  { unfold second_waits. destruct (run_calls _ two_calls) as [s|] eqn:Hs; [by eapply run_calls_reachable|constructor]. }
  destruct (equal_queries_joined client_config no_deadline two_calls second_waits Hf Hr) as (H1 & _ & _ & H4). by split.
Defined.
