(* ===== verification/Varbin.v ===== *)
(** * Byte streams

    The readers of the binary file formats: [io.ReadFull], [binary.Read],
    [binary.ReadUvarint] of the standard library over a stream of bytes, loops
    whose length comes from the stream, and the helpers of sing's [varbin].

    A reader takes the bytes that are left and gives a value with the bytes left
    after it.  Two notions carry the proofs: [reads f w a], the reader inverts
    what was written, and [well_behaved f], it never panics and does not give
    bytes back.  *)

From stdpp Require Import base numbers list strings option.
From Stdlib Require Import ZArith Lia.
From S2P Require Import Prelude Bytes.

Local Open Scope Z_scope.

(** ** Readers *)

Definition Reader (A : Type) : Type := bytes -> Res (A * bytes).

#[global] Instance reader_ret : MRet Reader := fun A a bs => Ok (a, bs).
#[global] Instance reader_bind : MBind Reader := fun A B f m bs =>
  match m bs with
  | Ok (a, bs) => f a bs
  | Err e => Err e
  | Panic s => Panic s
  end.
Definition fail {A} (e : error) : Reader A := fun _ => Err e.
(** [E.Cause] on the error of a reader *)
Definition cause {A} (m : Reader A) (msg : list earg) : Reader A := fun bs => wrap_err (m bs) msg.

(** [io.EOF], [io.ErrUnexpectedEOF] and the overflow error of [binary] *)
Definition io_EOF : error := E_New [AStr "EOF"].
Definition io_ErrUnexpectedEOF : error := E_New [AStr "unexpected EOF"].
Definition errOverflow : error := E_New [AStr "binary: varint overflows a 64-bit integer"].

(** How a stream ends: [io.EOF], or the error of the reader below. *)
Class Stream := { stream_eof : bool; stream_error : error }.
Definition stream_end {ST : Stream} : error := if stream_eof then io_EOF else stream_error.
Definition unexpected_end {ST : Stream} : error := if stream_eof then io_ErrUnexpectedEOF else stream_error.

Section Readers.
Context {ST : Stream}.

(** [ReadByte] *)
Definition ReadByte : Reader Z := fun bs =>
  match bs with [] => Err stream_end | b :: bs => Ok (b, bs) end.

(** [io.ReadFull] of [n] bytes *)
Definition ReadFull (n : nat) : Reader bytes := fun bs =>
  if (n <=? length bs)%nat then Ok (take n bs, drop n bs)
  else Err (match bs with [] => stream_end | _ => unexpected_end end).

(** [binary.Read] of an unsigned integer of [n] bytes, and of a bool *)
Definition binary_Read (n : nat) : Reader Z := b ← ReadFull n; mret (be_value b).
Definition binary_Read_bool : Reader bool := v ← binary_Read 1; mret (negb (v =? 0)).

(** [binary.ReadUvarint], from byte [i] on; [x] is the value so far. *)
Fixpoint uvarint_loop (k : nat) (i : Z) (x : Z) : Reader Z :=
  match k with
  | O => fail errOverflow
  | S k => fun bs =>
      match bs with
      | [] => Err (if 0 <? i then unexpected_end else stream_end)
      | b :: bs =>
          if b <? 0x80 then
            if (i =? 9) && (1 <? b) then Err errOverflow
            else Ok (Z.lor x (Z.shiftl b (7 * i)), bs)
          else uvarint_loop k (i + 1) (Z.lor x (Z.shiftl (Z.land b 0x7f) (7 * i))) bs
      end
  end.
Definition ReadUvarint : Reader Z := uvarint_loop 10 0 0.

(** [binary.AppendUvarint]; nine septets and a bit are 64 bits. *)
Fixpoint append_uvarint (fuel : nat) (x : Z) : bytes :=
  match fuel with
  | O => []
  | S fuel => if x <? 0x80 then [x] else Z.lor (Z.land x 0x7f) 0x80 :: append_uvarint fuel (Z.shiftr x 7)
  end.
Definition AppendUvarint (x : Z) : bytes := append_uvarint 10 x.

(** [for i := range n]: the results in order.  Fuel: one iteration per byte
    left and one more. *)
Fixpoint times_loop {A} (fuel : nat) (n i : Z) (f : Z -> Reader A) : Reader (list A) :=
  if n <=? i then mret []
  else
    match fuel with
    | O => fun _ => Panic "fuel"
    | S fuel => a ← f i; l ← times_loop fuel n (i + 1) f; mret (a :: l)
    end.
Definition read_times {A} (n : Z) (f : Z -> Reader A) : Reader (list A) := fun bs => times_loop (S (length bs)) n 0 f bs.

End Readers.

(** [append] to a nil slice *)
Definition slice_of {A} (l : list A) : Slice A := match l with [] => None | _ => Some l end.

(** sing's [varbin]: [WriteUvarint] writes the encoding of the standard library,
    [ReadSlice] reads a length and that many elements of a width. *)
Class Varbin := {
  WriteUvarint : Z -> bytes;
  ReadSlice : Stream -> nat -> Reader (Slice Z);
  WriteUvarint_law v : in_width 64 v -> WriteUvarint v = AppendUvarint v;
  ReadSlice_law ST n l : (0 < n)%nat -> len l < 2 ^ 64 -> Forall (in_width (8 * Z.of_nat n)) l ->
    exists s, elems s = l /\
      forall rest, ReadSlice ST n (AppendUvarint (len l) ++ concat (map (be_bytes n) l) ++ rest) = Ok (s, rest);
  ReadSlice_returns ST n bs : match ReadSlice ST n bs with
                              | Ok (_, bs') => (length bs' < length bs)%nat
                              | Err _ => True
                              | Panic _ => False
                              end
}.

(** ** Round trips *)

(** A reader that gives back [a] from the bytes [w], whatever follows. *)
Definition reads {A} (f : Reader A) (w : bytes) (a : A) : Prop := forall rest, f (w ++ rest) = Ok (a, rest).

Lemma reads_ret {A} (a : A) : reads (mret a) [] a.
Proof. done. Qed.
Lemma reads_bind {A B} (m : Reader A) (f : A -> Reader B) w1 w2 a b :
  reads m w1 a -> reads (f a) w2 b -> reads (m ≫= f) (w1 ++ w2) b.
Proof. intros H1 H2 rest. unfold mbind, reader_bind. by rewrite <-app_assoc, H1, H2. Qed.
(** A reader that reads and then computes. *)
Lemma reads_fmap {A B} (m : Reader A) (g : A -> B) w a : reads m w a -> reads (x ← m; mret (g x)) w (g a).
Proof. intros H rest. unfold mbind, reader_bind. by rewrite H. Qed.
Lemma reads_cause {A} (m : Reader A) msg w a : reads m w a -> reads (cause m msg) w a.
Proof. intros H rest. unfold cause. by rewrite H. Qed.

Section RoundTrips.
Context {ST : Stream}.

Lemma reads_byte b : reads ReadByte [b] b.
Proof. done. Qed.
Lemma reads_full w n : length w = n -> reads (ReadFull n) w w.
Proof.
  intros <- rest. unfold ReadFull. rewrite length_app. replace (_ <=? _)%nat with true by (symmetry; apply Nat.leb_le; lia).
  by rewrite take_app_length, drop_app_length.
Qed.
Lemma reads_binary n v : 0 <= v < 256 ^ Z.of_nat n -> reads (binary_Read n) (be_bytes n v) v.
Proof.
  intros Hv. unfold binary_Read. rewrite <-(be_value_bytes n v) at 2 by done.
  apply (reads_fmap _ be_value), reads_full, be_bytes_length.
Qed.
Lemma reads_u8 v : in_width 8 v -> reads (binary_Read 1) [v] v.
Proof.
  intros Hv. unfold in_width in Hv. pose proof (reads_binary 1 v ltac:(lia)) as H. cbn in H.
  by rewrite Z.mod_small in H by lia.
Qed.
Lemma reads_bool (b : bool) : reads binary_Read_bool [if b then 1 else 0] b.
Proof.
  unfold binary_Read_bool. destruct b; [apply (reads_fmap _ (fun v => negb (v =? 0)) [1] 1)|
    apply (reads_fmap _ (fun v => negb (v =? 0)) [0] 0)]; apply reads_u8; unfold in_width; lia.
Qed.

(** Disjoint bits *)
Lemma lor_shiftl x b n : 0 <= n -> 0 <= x < 2 ^ n -> Z.lor x (Z.shiftl b n) = x + b * 2 ^ n.
Proof.
  intros Hn Hx. rewrite <-Z.shiftl_mul_pow2 by done.
  assert (Hd : Z.land x (Z.shiftl b n) = 0).
  { apply Z.bits_inj'. intros k Hk. rewrite Z.land_spec, Z.bits_0. destruct (Z_lt_le_dec k n).
    - by rewrite Z.shiftl_spec_low, andb_false_r.
    - rewrite <-(Z.mod_small x (2 ^ n)) by done. by rewrite Z.mod_pow2_bits_high by lia. }
  by rewrite <-Z.lxor_lor, Z.add_nocarry_lxor.
Qed.

(** Reading a group of septets gives the value shifted into place. *)
Lemma uvarint_loop_append k i x v rest : 0 <= i -> 0 <= x < 2 ^ (7 * i) -> 0 <= v -> (0 < i -> 0 < v) -> v * 2 ^ (7 * i) < 2 ^ 64 ->
  i + Z.of_nat k = 10 -> uvarint_loop k i x (append_uvarint k v ++ rest) = Ok (x + v * 2 ^ (7 * i), rest).
Proof.
  revert i x v. induction k as [|k IH]; intros i x v Hi Hx Hv Hpos Hlt Hk.
  { exfalso. assert (i = 10) by lia. subst i. change (2 ^ (7 * 10)) with (2 ^ 64 * 64) in *. nia. }
  cbn [append_uvarint uvarint_loop]. destruct (Z.ltb_spec v 0x80) as [Hs|Hs]; cbn [app].
  - replace (v <? 0x80) with true by (symmetry; by apply Z.ltb_lt).
    replace ((i =? 9) && (1 <? v)) with false.
    2: { destruct (Z.eqb_spec i 9) as [->|]; [|done]. symmetry. apply Z.ltb_ge. change (2 ^ (7 * 9)) with (2 ^ 63) in Hlt. lia. }
    by rewrite lor_shiftl by lia.
  - assert (Hb : Z.lor (Z.land v 127) 128 = v mod 128 + 128).
    { change 127 with (Z.ones 7). rewrite Z.land_ones by lia. change 128 with (Z.shiftl 1 7).
      rewrite lor_shiftl; [done|lia|]. change (Z.shiftl 1 7) with (2 ^ 7). apply Z.mod_pos_bound. lia. }
    pose proof (Z.mod_pos_bound v 128 ltac:(lia)) as Hm. rewrite Hb.
    replace (v mod 128 + 128 <? 128) with false by (symmetry; apply Z.ltb_ge; lia).
    assert (Hl : Z.land (v mod 128 + 128) 127 = v mod 128).
    { change 127 with (Z.ones 7). rewrite Z.land_ones by lia. change (2 ^ 7) with 128.
      rewrite Z.add_mod, Z.mod_same, Z.add_0_r, !Z.mod_mod by lia. done. }
    rewrite Hl, lor_shiftl by lia. rewrite Z.shiftr_div_pow2 by lia. change (2 ^ 7) with 128.
    pose proof (Z.div_mod v 128 ltac:(lia)) as Hdm. assert (Hp : 2 ^ (7 * (i + 1)) = 128 * 2 ^ (7 * i)).
    { replace (7 * (i + 1)) with (7 + 7 * i) by lia. rewrite Z.pow_add_r by lia. done. }
    assert (0 < 2 ^ (7 * i)) by (apply Z.pow_pos_nonneg; lia).
    rewrite IH; [|lia|rewrite Hp; nia|apply Z.div_pos; lia|intros _; apply Z.div_str_pos; lia|rewrite Hp; nia|lia].
    f_equal. f_equal. rewrite Hp. nia.
Qed.

Lemma reads_uvarint v : in_width 64 v -> reads ReadUvarint (AppendUvarint v) v.
Proof.
  intros Hv rest. unfold in_width in Hv. unfold ReadUvarint, AppendUvarint.
  rewrite uvarint_loop_append by lia. f_equal. f_equal. lia.
Qed.

Lemma AppendUvarint_length v : (0 < length (AppendUvarint v))%nat.
Proof. unfold AppendUvarint. cbn [append_uvarint]. destruct (_ <? _); cbn [length]; lia. Qed.

(** A loop reads the elements that were written one after the other. *)
Lemma times_loop_reads {A B} (w : A -> bytes) (g : A -> B) (f : Z -> Reader B) l : forall fuel i rest,
  (forall j a, l !! j = Some a -> reads (f (i + Z.of_nat j)) (w a) (g a)) -> (length l < fuel)%nat ->
  times_loop fuel (i + len l) i f (concat (map w l) ++ rest) = Ok (map g l, rest).
Proof.
  induction l as [|a l IH]; intros fuel i rest Hl Hfuel; unfold len in *; cbn [length].
  - destruct fuel; cbn; replace (_ <=? i) with true by (symmetry; apply Z.leb_le; lia); done.
  - destruct fuel as [|fuel]; [cbn in Hfuel; lia|]. cbn [times_loop].
    replace (_ <=? i) with false by (symmetry; apply Z.leb_gt; lia).
    cbn [map concat]. rewrite <-app_assoc. unfold mbind, reader_bind.
    pose proof (Hl 0%nat a eq_refl) as H0. rewrite Z.add_0_r in H0. rewrite H0.
    replace (i + Z.of_nat (S (length l))) with (i + 1 + Z.of_nat (length l)) by lia.
    rewrite IH; [done| |cbn in Hfuel; lia]. intros j b Hj. specialize (Hl (S j) b Hj).
    by replace (i + 1 + Z.of_nat j) with (i + Z.of_nat (S j)) by lia.
Qed.
Lemma concat_length_le {A} (w : A -> bytes) l : Forall (fun a => 0 < length (w a))%nat l ->
  (length l <= length (concat (map w l)))%nat.
Proof. induction 1; cbn; [lia|]. rewrite length_app. lia. Qed.
Lemma reads_times {A B} (w : A -> bytes) (g : A -> B) (f : Z -> Reader B) l :
  (forall i a, a ∈ l -> reads (f i) (w a) (g a)) -> Forall (fun a => 0 < length (w a))%nat l ->
  reads (read_times (len l) f) (concat (map w l)) (map g l).
Proof.
  intros Hl Hw rest. unfold read_times. rewrite <-(Z.add_0_l (len l)). apply times_loop_reads.
  - intros j a Hj. apply Hl. by eapply list_elem_of_lookup_2.
  - rewrite length_app. pose proof (concat_length_le w l Hw). lia.
Qed.

End RoundTrips.

(** ** Readers return *)

(** A reader that ends with a value or an error on every input, and gives no bytes
    back; [strict]: it takes at least one byte. *)
Definition well_behaved {A} (strict : bool) (f : Reader A) : Prop :=
  forall bs, match f bs with
             | Ok (_, bs') => if strict then (length bs' < length bs)%nat else (length bs' <= length bs)%nat
             | Err _ => True
             | Panic _ => False
             end.

Lemma wb_weaken {A} (f : Reader A) b : well_behaved true f -> well_behaved b f.
Proof. intros H bs. specialize (H bs). destruct (f bs) as [[a bs']|e|s]; [|done..]. destruct b; [done|]. lia. Qed.
Lemma wb_ret {A} (a : A) : well_behaved false (mret a).
Proof. intros bs. cbn. lia. Qed.
Lemma wb_fail {A} e b : well_behaved b (fail e : Reader A).
Proof. done. Qed.
Lemma wb_bind {A B} (m : Reader A) (f : A -> Reader B) b1 b2 :
  well_behaved b1 m -> (forall a, well_behaved b2 (f a)) -> well_behaved (b1 || b2) (m ≫= f).
Proof.
  intros Hm Hf bs. unfold mbind, reader_bind. specialize (Hm bs). destruct (m bs) as [[a bs']|e|s]; [|done..].
  specialize (Hf a bs'). destruct (f a bs') as [[b bs'']|e|s]; [|done..]. destruct b1, b2; cbn; lia.
Qed.
Lemma wb_strict {A B} (m : Reader A) (f : A -> Reader B) :
  well_behaved true m -> (forall a, well_behaved false (f a)) -> well_behaved true (m ≫= f).
Proof. intros Hm Hf. exact (wb_bind m f true false Hm Hf). Qed.
Lemma wb_cause {A} (m : Reader A) msg b : well_behaved b m -> well_behaved b (cause m msg).
Proof. intros H bs. unfold cause. specialize (H bs). by destruct (m bs) as [[]|e|s]. Qed.

Create HintDb readers.
#[export] Hint Resolve wb_ret wb_fail wb_strict wb_cause : readers.

Section Returns.
Context {ST : Stream}.

Lemma wb_byte : well_behaved true ReadByte.
Proof. intros [|b bs]; cbn; [done|lia]. Qed.
Lemma wb_full n : well_behaved false (ReadFull n).
Proof.
  intros bs. unfold ReadFull. destruct (Nat.leb_spec n (length bs)); [|done]. rewrite length_drop. lia.
Qed.
Lemma wb_binary n : (0 < n)%nat -> well_behaved true (binary_Read n).
Proof.
  intros Hn bs. unfold binary_Read, mbind, reader_bind, ReadFull. destruct (Nat.leb_spec n (length bs)); [|done]. cbn.
  rewrite length_drop. lia.
Qed.
Lemma wb_bool : well_behaved true binary_Read_bool.
Proof. apply wb_strict; [by apply wb_binary; lia|]. intros a. apply wb_ret. Qed.
Lemma wb_uvarint_loop k : forall i x, well_behaved true (uvarint_loop k i x).
Proof.
  induction k as [|k IH]; intros i x; [apply wb_fail|].
  intros [|b bs]; cbn [uvarint_loop]; [done|]. destruct (b <? 128); [destruct (_ && _); cbn; [done|lia]|].
  specialize (IH (i + 1) (Z.lor x (Z.shiftl (Z.land b 127) (7 * i))) bs). destruct (uvarint_loop _ _ _ _) as [[]|e|s]; [|done|done].
  cbn [length]. lia.
Qed.
Lemma wb_uvarint : well_behaved true ReadUvarint.
Proof. apply wb_uvarint_loop. Qed.
Lemma wb_times {A} n (f : Z -> Reader A) : (forall i, well_behaved true (f i)) -> well_behaved false (read_times n f).
Proof.
  intros Hf bs. unfold read_times. assert (Hlen : (length bs < S (length bs))%nat) by lia. revert Hlen.
  generalize (S (length bs)) as fuel, 0 as i. intros fuel. revert bs.
  induction fuel as [|fuel IH]; intros bs i Hlen; [lia|]. cbn [times_loop]. destruct (n <=? i); [cbn; lia|].
  unfold mbind, reader_bind. specialize (Hf i bs) as Hb. destruct (f i bs) as [[a bs']|e|s]; [|done..]. cbn in Hb.
  specialize (IH bs' (i + 1) ltac:(lia)). destruct (times_loop _ _ _ _ _) as [[l bs'']|e|s]; [|done..]. cbn. lia.
Qed.
Lemma wb_slice {VB : Varbin} n : well_behaved true (ReadSlice ST n).
Proof. intros bs. pose proof (ReadSlice_returns ST n bs) as H. by destruct (ReadSlice ST n bs) as [[]|e|s]. Qed.

End Returns.

#[export] Hint Resolve wb_byte wb_full wb_bool wb_uvarint wb_times wb_slice : readers.
#[export] Hint Extern 1 (well_behaved true (binary_Read _)) => apply wb_binary; lia : readers.
