(* ===== verification/Srs.v ===== *)
(** * Binary rule-set files

    [common/srs]: the file format of compiled rule-sets.  A file is a magic
    number, a version and a compressed stream of rules; a default rule is a
    sequence of items, each with a type byte, ended by the invert flag.

    Domain matchers and IP sets are written by packages outside the tree, or
    read from their memory layout; both are interfaces here
    ([RuleSetFormat]).  Writing never fails on its own: the writer is a buffer. *)

From stdpp Require Import base numbers list strings gmap option.
From Stdlib Require Import ZArith Lia.
From S2P Require Import Prelude Bytes NetAddr Metadata RuleItems RuleCore RuleBuild Varbin.

Local Open Scope Z_scope.

(** An address that survives [AsSlice] and [AddrFromIP]: without a zone, and not
    an IPv4 address in an IPv6 one *)
Definition plain_addr (a : Addr) : Prop :=
  match a with
  | AddrNone => False
  | Addr4 v => in_width 32 v
  | Addr6 v zone => in_width 128 v /\ zone = "" /\ Addr_Is4In6 a = false
  end.

(** What the format needs of other packages: [domain.Matcher] and
    [domain.AdGuardMatcher] with their own encoding, the ranges of a
    [netipx.IPSet], [badoption.Prefixable], [badjson.TypedMap], and [zlib] *)
Class RuleSetFormat {TP : ThirdParty} := {
  Matcher_Write : Matcher -> bytes;
  ReadMatcher : Stream -> Reader Matcher;
  Matcher_Dump : Matcher -> Slice string * Slice string;
  AdGuard_Write : AdGuardMatcher -> bytes;
  ReadAdGuardMatcher : Stream -> Reader AdGuardMatcher;
  AdGuard_Dump : AdGuardMatcher -> Slice string;
  IPSet_rr : IPSet -> list (Addr * Addr);
  IPSet_cast : list (Addr * Addr) -> IPSet;
  IPSet_Prefixes : IPSet -> list Prefix;
  Prefixable_of : Prefix -> Prefixable;
  TypedMap_Put : Entries Z -> Z -> list (option Prefixable) -> Entries Z;
  zlib_Compress : bytes -> bytes;
  zlib_NewReader : bytes -> Res (bytes * Stream);

  ReadMatcher_law ST m : reads (ReadMatcher ST) (Matcher_Write m) m;
  ReadMatcher_returns ST : well_behaved false (ReadMatcher ST);
  ReadAdGuard_law ST m : reads (ReadAdGuardMatcher ST) (AdGuard_Write m) m;
  ReadAdGuard_returns ST : well_behaved false (ReadAdGuardMatcher ST);
  IPSet_cast_law s : IPSet_cast (IPSet_rr s) = s;
  Prefixable_law p d : Prefixable_Build (Some (Prefixable_of p)) d = p;
  AddrFromIP_law a : plain_addr a -> AddrFromIP (Addr_AsSlice a) = a;
  TypedMap_Put_law m k v : k ∉ m.*1 -> TypedMap_Put m k v = m ++ [(k, v)];
  zlib_law bs : zlib_NewReader (zlib_Compress bs) = Ok (bs, {| stream_eof := true; stream_error := io_EOF |});
  zlib_returns bs : match zlib_NewReader bs with Panic _ => False | _ => True end
}.

(** ** Constants *)

Definition MagicBytes : bytes := [0x53; 0x52; 0x53].
Definition RuleSetVersion1 : Z := 1.
Definition RuleSetVersion2 : Z := 2.
Definition RuleSetVersion3 : Z := 3.
Definition RuleSetVersion4 : Z := 4.
Definition RuleSetVersion5 : Z := 5.
Definition RuleSetVersionCurrent : Z := RuleSetVersion5.
Definition maxLogicalRuleDepth : nat := 100.

Definition ruleItemQueryType : Z := 0.
Definition ruleItemNetwork : Z := 1.
Definition ruleItemDomain : Z := 2.
Definition ruleItemDomainKeyword : Z := 3.
Definition ruleItemDomainRegex : Z := 4.
Definition ruleItemSourceIPCIDR : Z := 5.
Definition ruleItemIPCIDR : Z := 6.
Definition ruleItemSourcePort : Z := 7.
Definition ruleItemSourcePortRange : Z := 8.
Definition ruleItemPort : Z := 9.
Definition ruleItemPortRange : Z := 10.
Definition ruleItemProcessName : Z := 11.
Definition ruleItemProcessPath : Z := 12.
Definition ruleItemPackageName : Z := 13.
Definition ruleItemWIFISSID : Z := 14.
Definition ruleItemWIFIBSSID : Z := 15.
Definition ruleItemAdGuardDomain : Z := 16.
Definition ruleItemProcessPathRegex : Z := 17.
Definition ruleItemNetworkType : Z := 18.
Definition ruleItemNetworkIsExpensive : Z := 19.
Definition ruleItemNetworkIsConstrained : Z := 20.
Definition ruleItemNetworkInterfaceAddress : Z := 21.
Definition ruleItemDefaultInterfaceAddress : Z := 22.
Definition ruleItemPackageNameRegex : Z := 23.
Definition ruleItemFinal : Z := 0xff.

Section Srs.
Context {SH : SliceHelpers} {GS : GoStd} {TP : ThirdParty} {VB : Varbin} {RF : RuleSetFormat}.

(** ** Reading addresses and strings *)

Section Reading.
Context {ST : Stream}.

(** [readIPSetAddr]; the prefixes of [ip_cidr.go] begin the same way. *)
Definition readIPSetAddr : Reader Addr :=
  addrLen ← ReadUvarint;
  if negb (addrLen =? 4) && negb (addrLen =? 16) then fail ErrInvalid
  else addrBytes ← ReadFull (Z.to_nat addrLen); mret (AddrFromIP addrBytes).

(** [readIPSet] *)
Definition readIPSet : Reader IPSet :=
  version ← ReadByte;
  if negb (version =? 1) then fail ErrInvalid
  else
    length ← binary_Read 8;
    rr ← read_times length (fun _ => from ← readIPSetAddr; to ← readIPSetAddr; mret (from, to));
    mret (IPSet_cast rr).

(** [readPrefix] *)
Definition readPrefix : Reader Prefix :=
  addrLen ← ReadUvarint;
  if negb (addrLen =? 4) && negb (addrLen =? 16) then fail ErrInvalid
  else
    addrBytes ← ReadFull (Z.to_nat addrLen);
    prefixBits ← ReadByte;
    mret (PrefixFrom (AddrFromIP addrBytes) prefixBits).

(** [readRuleItemString] *)
Definition readRuleItemString : Reader (Slice string) :=
  length ← ReadUvarint;
  result ← read_times length (fun _ => value ← ReadSlice ST 1; mret (bytes_string (elems value)));
  mret (slice_of result).

(** The loops over prefixes *)
Definition read_prefixes : Reader (list (option Prefixable)) :=
  prefixCount ← ReadUvarint;
  read_times prefixCount (fun _ => prefix ← readPrefix; mret (Some (Prefixable_of prefix))).
Definition read_interfaces : Reader (Entries Z) :=
  size ← ReadUvarint;
  entries ← read_times size (fun _ => key ← binary_Read 1; value ← read_prefixes; mret (key, value));
  mret (fold_left (fun m '(key, value) => TypedMap_Put m key value) entries []).

(** ** Rules *)

(** The items of a default rule: a field with the value read for it *)
Inductive ItemValue :=
  | V_Strings (itemType : Z) (l : Slice string)
  | V_Uint16 (itemType : Z) (l : Slice Z)
  | V_NetworkType (l : Slice Z)
  | V_Domain (m : Matcher)
  | V_AdGuard (m : AdGuardMatcher)
  | V_IPSet (itemType : Z) (s : IPSet)
  | V_Flag (itemType : Z)
  | V_NetworkInterfaceAddress (m : Entries Z)
  | V_DefaultInterfaceAddress (l : Slice (option Prefixable)).

(** The types of items that hold strings, 16-bit numbers, addresses and nothing *)
Definition string_items : list Z :=
  [ruleItemNetwork; ruleItemDomainKeyword; ruleItemDomainRegex; ruleItemSourcePortRange; ruleItemPortRange;
   ruleItemProcessName; ruleItemProcessPath; ruleItemProcessPathRegex; ruleItemPackageName;
   ruleItemPackageNameRegex; ruleItemWIFISSID; ruleItemWIFIBSSID].
Definition uint16_items : list Z := [ruleItemQueryType; ruleItemSourcePort; ruleItemPort].
Definition address_items : list Z := [ruleItemSourceIPCIDR; ruleItemIPCIDR].
Definition flag_items : list Z := [ruleItemNetworkIsExpensive; ruleItemNetworkIsConstrained].

(** The switch of [readDefaultRule], on every type but the final one *)
Definition read_value (itemType lastItemType : Z) : Reader ItemValue :=
  if bool_decide (itemType ∈ string_items) then l ← readRuleItemString; mret (V_Strings itemType l)
  else if bool_decide (itemType ∈ uint16_items) then l ← ReadSlice ST 2; mret (V_Uint16 itemType l)
  else if bool_decide (itemType ∈ address_items) then s ← readIPSet; mret (V_IPSet itemType s)
  else if bool_decide (itemType ∈ flag_items) then mret (V_Flag itemType)
  else if itemType =? ruleItemDomain then m ← ReadMatcher ST; mret (V_Domain m)
  else if itemType =? ruleItemAdGuardDomain then m ← ReadAdGuardMatcher ST; mret (V_AdGuard m)
  else if itemType =? ruleItemNetworkType then l ← ReadSlice ST 1; mret (V_NetworkType l)
  else if itemType =? ruleItemNetworkInterfaceAddress then m ← read_interfaces; mret (V_NetworkInterfaceAddress m)
  else if itemType =? ruleItemDefaultInterfaceAddress
  then l ← read_prefixes; mret (V_DefaultInterfaceAddress (slice_of l))
  else fail (E_New [AStr "unknown rule item type: "; AInt itemType; AStr ", last type: "; AInt lastItemType]).

(** The loop: the items up to the final one, and the invert flag.  Fuel: an item
    takes a byte. *)
Fixpoint read_items (fuel : nat) (lastItemType : Z) : Reader (list ItemValue * bool) :=
  match fuel with
  | O => fun _ => Panic "fuel"
  | S fuel =>
      itemType ← binary_Read 1;
      if itemType =? ruleItemFinal then invert ← binary_Read_bool; mret ([], invert)
      else
        v ← read_value itemType lastItemType;
        '(l, invert) ← read_items fuel itemType;
        mret (v :: l, invert)
  end.

(** The last value that a field was given *)
Fixpoint last_of {A} (f : ItemValue -> option A) (l : list ItemValue) : option A :=
  match l with
  | [] => None
  | v :: l => match last_of f l with Some a => Some a | None => f v end
  end.
Definition strings_of (t : Z) (v : ItemValue) : option (Slice string) :=
  match v with V_Strings t' l => if t =? t' then Some l else None | _ => None end.
Definition numbers_of (t : Z) (v : ItemValue) : option (Slice Z) :=
  match v with V_Uint16 t' l => if t =? t' then Some l else None | _ => None end.
Definition set_of (t : Z) (v : ItemValue) : option IPSet :=
  match v with V_IPSet t' s => if t =? t' then Some s else None | _ => None end.
Definition flag_of (t : Z) (v : ItemValue) : option unit :=
  match v with V_Flag t' => if t =? t' then Some tt else None | _ => None end.
Definition matcher_of (v : ItemValue) : option Matcher := match v with V_Domain m => Some m | _ => None end.
Definition adguard_of (v : ItemValue) : option AdGuardMatcher := match v with V_AdGuard m => Some m | _ => None end.
Definition types_of (v : ItemValue) : option (Slice Z) := match v with V_NetworkType l => Some l | _ => None end.
Definition interfaces_of (v : ItemValue) : option (Entries Z) :=
  match v with V_NetworkInterfaceAddress m => Some m | _ => None end.
Definition addresses_of (v : ItemValue) : option (Slice (option Prefixable)) :=
  match v with V_DefaultInterfaceAddress l => Some l | _ => None end.

(** The rule that the items assign: [rule.X = value] for each in order.  With
    [recover] the fields of the source form are filled from the compiled ones. *)
Definition rule_of_items (recover : bool) (l : list ItemValue) (inv : bool) : HeadlessOptions :=
  let strings t := default None (last_of (strings_of t) l) in
  let numbers t := default None (last_of (numbers_of t) l) in
  let set t := last_of (set_of t) l in
  let cidrs t := match set t with Some s => if recover then Some (Map (IPSet_Prefixes s) Prefix_String) else None | None => None end in
  let flag t := match last_of (flag_of t) l with Some _ => true | None => false end in
  let matcher := last_of matcher_of l in
  let adguard := last_of adguard_of l in
  let dump := match matcher with Some m => if recover then Matcher_Dump m else (None, None) | None => (None, None) end in
  mkHeadlessOptions
    ((fun raw => Map (elems raw) (fun it => it)) <$> last_of (numbers_of ruleItemQueryType) l)
    (strings ruleItemNetwork) (fst dump) (snd dump)
    (strings ruleItemDomainKeyword) (strings ruleItemDomainRegex)
    (cidrs ruleItemSourceIPCIDR) (cidrs ruleItemIPCIDR)
    (numbers ruleItemSourcePort) (strings ruleItemSourcePortRange)
    (numbers ruleItemPort) (strings ruleItemPortRange)
    (strings ruleItemProcessName) (strings ruleItemProcessPath) (strings ruleItemProcessPathRegex)
    (strings ruleItemPackageName) (strings ruleItemPackageNameRegex)
    (default None (last_of types_of l))
    (flag ruleItemNetworkIsExpensive) (flag ruleItemNetworkIsConstrained)
    (strings ruleItemWIFISSID) (strings ruleItemWIFIBSSID)
    (last_of interfaces_of l) (default None (last_of addresses_of l)) inv
    matcher (set ruleItemSourceIPCIDR) (set ruleItemIPCIDR)
    (match adguard with Some m => if recover then AdGuard_Dump m else None | None => None end) adguard.

(** [readDefaultRule] *)
Definition readDefaultRule (recover : bool) : Reader HeadlessOptions := fun bs =>
  ('(l, invert) ← read_items (S (length bs)) 0; mret (rule_of_items recover l invert)) bs.

(** [readLogicalRule]; [readRule] of the sub-rules is an argument. *)
Definition readLogicalRule (readRule : Reader HeadlessRule) : Reader HeadlessRule :=
  mode ← ReadByte;
  if negb (mode =? 0) && negb (mode =? 1) then fail (E_New [AStr "unknown logical mode: "; AInt mode])
  else
    length ← ReadUvarint;
    rules ← read_times length (fun i => cause readRule [AStr "read logical rule ["; AInt i; AStr "]"]);
    invert ← binary_Read_bool;
    mret (H_Logical (if mode =? 0 then "and" else "or") rules invert).

(** [readRule]; [levels] is what is left of the depth: one more than
    [maxLogicalRuleDepth - depth]. *)
Fixpoint readRule (recover : bool) (levels : nat) : Reader HeadlessRule :=
  match levels with
  | O => fail (E_New [AStr "logical rule nested too deep"])
  | S levels =>
      ruleType ← binary_Read 1;
      if ruleType =? 0 then rule ← readDefaultRule recover; mret (H_Default rule)
      else if ruleType =? 1 then readLogicalRule (readRule recover levels)
      else fail (E_New [AStr "unknown rule type: "; AInt ruleType])
  end.

End Reading.

(** [Read]: the version and the rules *)
Definition file_stream : Stream := {| stream_eof := true; stream_error := io_EOF |}.
Definition Read (file : bytes) (recover : bool) : Res (Z * list HeadlessRule) :=
  '(magicBytes, file) ← ReadFull (ST := file_stream) 3 file;
  if negb (bool_decide (magicBytes = MagicBytes)) then Err (E_New [AStr "invalid sing-box rule-set file"])
  else
    '(version, file) ← binary_Read (ST := file_stream) 1 file;
    if RuleSetVersionCurrent <? version then Err (E_New [AStr "unsupported version: "; AInt version])
    else
      '(content, ST) ← zlib_NewReader file;
      '(length, content) ← ReadUvarint (ST := ST) content;
      '(rules, _) ← read_times length (fun i =>
         cause (readRule (ST := ST) recover (S maxLogicalRuleDepth)) [AStr "read rule["; AInt i; AStr "]"]) content;
      Ok (version, rules).

(** ** Writing *)

Definition writeRuleItemString (itemType : Z) (value : list string) : bytes :=
  itemType :: WriteUvarint (len value) ++
  concat (map (fun s => WriteUvarint (len (string_bytes s)) ++ string_bytes s) value).
Definition writeRuleItemUint8 (itemType : Z) (value : list Z) : bytes :=
  itemType :: WriteUvarint (len value) ++ value.
Definition writeRuleItemUint16 (itemType : Z) (value : list Z) : bytes :=
  itemType :: WriteUvarint (len value) ++ concat (map (be_bytes 2) value).

(** [writeIPSet] and [writePrefix] *)
Definition write_addr (a : Addr) : bytes := WriteUvarint (len (Addr_AsSlice a)) ++ Addr_AsSlice a.
Definition writeIPSet (set : IPSet) : bytes :=
  1 :: be_bytes 8 (len (IPSet_rr set)) ++ concat (map (fun '(from, to) => write_addr from ++ write_addr to) (IPSet_rr set)).
Definition writePrefix (prefix : Prefix) : bytes := write_addr (Prefix_Addr prefix) ++ [u8 (Prefix_Bits prefix)].

(** [writeRuleItemCIDR]; it builds the set as [NewIPCIDRItem] does. *)
Definition build_set (value : list string) : Res IPSet :=
  builder ← add_prefixes 0 IPSetBuilder_zero value; IPSetBuilder_IPSet builder.
Definition writeRuleItemCIDR (itemType : Z) (value : list string) : Res bytes :=
  ipSet ← build_set value; Ok (itemType :: writeIPSet ipSet).

(** The prefixes of an item, after its type *)
Definition write_prefixes (l : list (option Prefixable)) : bytes :=
  WriteUvarint (len l) ++ concat (map (fun p => writePrefix (Prefixable_Build p Prefix_zero)) l).
Definition write_interfaces (m : Entries Z) : bytes :=
  WriteUvarint (len m) ++ concat (map (fun '(key, value) => key :: write_prefixes value) m).

(** [if len(rule.X) > 0 { ... }] *)
Definition when_elems {A} (s : Slice A) (f : list A -> Res bytes) : Res bytes :=
  if has_elems s then f (elems s) else Ok [].
(** An item that needs a version *)
Definition since (generateVersion version : Z) (name : string) (w : bytes) : Res bytes :=
  if generateVersion <? version then Err (E_New [AStr name]) else Ok w.
Fixpoint concat_res (l : list (Res bytes)) : Res bytes :=
  match l with [] => Ok [] | m :: l => w ← m; rest ← concat_res l; Ok (w ++ rest) end.

(** [writeDefaultRule]: the items in the order of the source *)
Definition write_items (rule : HeadlessOptions) (generateVersion : Z) : list (Res bytes) := [
  when_elems (h_QueryType rule) (fun l => Ok (writeRuleItemUint16 ruleItemQueryType (Map l (fun it => it))));
  when_elems (h_Network rule) (fun l => Ok (writeRuleItemString ruleItemNetwork l));
  (if has_elems (h_Domain rule) || has_elems (h_DomainSuffix rule)
   then Ok (ruleItemDomain :: Matcher_Write (NewMatcher (elems (h_Domain rule)) (elems (h_DomainSuffix rule))
                                               (generateVersion =? RuleSetVersion1)))
   else Ok []);
  when_elems (h_DomainKeyword rule) (fun l => Ok (writeRuleItemString ruleItemDomainKeyword l));
  when_elems (h_DomainRegex rule) (fun l => Ok (writeRuleItemString ruleItemDomainRegex l));
  when_elems (h_SourceIPCIDR rule) (fun l => caused "source_ip_cidr" (writeRuleItemCIDR ruleItemSourceIPCIDR l));
  when_elems (h_IPCIDR rule) (fun l => caused "ipcidr" (writeRuleItemCIDR ruleItemIPCIDR l));
  when_elems (h_SourcePort rule) (fun l => Ok (writeRuleItemUint16 ruleItemSourcePort l));
  when_elems (h_SourcePortRange rule) (fun l => Ok (writeRuleItemString ruleItemSourcePortRange l));
  when_elems (h_Port rule) (fun l => Ok (writeRuleItemUint16 ruleItemPort l));
  when_elems (h_PortRange rule) (fun l => Ok (writeRuleItemString ruleItemPortRange l));
  when_elems (h_ProcessName rule) (fun l => Ok (writeRuleItemString ruleItemProcessName l));
  when_elems (h_ProcessPath rule) (fun l => Ok (writeRuleItemString ruleItemProcessPath l));
  when_elems (h_ProcessPathRegex rule) (fun l => Ok (writeRuleItemString ruleItemProcessPathRegex l));
  when_elems (h_PackageName rule) (fun l => Ok (writeRuleItemString ruleItemPackageName l));
  when_elems (h_PackageNameRegex rule) (fun l =>
    since generateVersion RuleSetVersion5 "`package_name_regex` rule item is only supported in version 5 or later"
      (writeRuleItemString ruleItemPackageNameRegex l));
  when_elems (h_NetworkType rule) (fun l =>
    since generateVersion RuleSetVersion3 "`network_type` rule item is only supported in version 3 or later"
      (writeRuleItemUint8 ruleItemNetworkType l));
  (if h_NetworkIsExpensive rule
   then since generateVersion RuleSetVersion3 "`network_is_expensive` rule item is only supported in version 3 or later"
          [ruleItemNetworkIsExpensive]
   else Ok []);
  (if h_NetworkIsConstrained rule
   then since generateVersion RuleSetVersion3 "`network_is_constrained` rule item is only supported in version 3 or later"
          [ruleItemNetworkIsConstrained]
   else Ok []);
  when_elems (h_NetworkInterfaceAddress rule) (fun m =>
    since generateVersion RuleSetVersion4 "`network_interface_address` rule item is only supported in version 4 or later"
      (ruleItemNetworkInterfaceAddress :: write_interfaces m));
  when_elems (h_DefaultInterfaceAddress rule) (fun l =>
    since generateVersion RuleSetVersion4 "`default_interface_address` rule item is only supported in version 4 or later"
      (ruleItemDefaultInterfaceAddress :: write_prefixes l));
  when_elems (h_WIFISSID rule) (fun l => Ok (writeRuleItemString ruleItemWIFISSID l));
  when_elems (h_WIFIBSSID rule) (fun l => Ok (writeRuleItemString ruleItemWIFIBSSID l));
  when_elems (h_AdGuardDomain rule) (fun l =>
    since generateVersion RuleSetVersion2 "AdGuard rule items is only supported in version 2 or later"
      (ruleItemAdGuardDomain :: AdGuard_Write (NewAdGuardMatcher l)))
].
Definition write_bool (b : bool) : Z := if b then 1 else 0.
Definition writeDefaultRule (rule : HeadlessOptions) (generateVersion : Z) : Res bytes :=
  items ← concat_res (write_items rule generateVersion);
  Ok (0 :: items ++ [ruleItemFinal; write_bool (h_Invert rule)]).

(** [writeLogicalRule], of the sub-rules as written, and [writeRule] *)
Definition write_mode (mode : string) : Res Z :=
  if bool_decide (mode = "and") then Ok 0
  else if bool_decide (mode = "or") then Ok 1
  else Panic ("unknown logical mode: " +:+ mode).
Definition writeLogicalRule (mode : string) (rules : list (Res bytes)) (invert : bool) : Res bytes :=
  m ← write_mode mode;
  content ← concat_res rules;
  Ok (1 :: m :: WriteUvarint (len rules) ++ content ++ [write_bool invert]).
Fixpoint writeRule (generateVersion : Z) (rule : HeadlessRule) : Res bytes :=
  match rule with
  | H_Default o => writeDefaultRule o generateVersion
  | H_Logical mode rules invert => writeLogicalRule mode (map (writeRule generateVersion) rules) invert
  | H_Unknown type => Panic ("unknown rule type: " +:+ type)
  | H_Untyped _ => Panic "unknown rule type: "
  end.

(** [Write] *)
Definition Write (rules : list HeadlessRule) (generateVersion : Z) : Res bytes :=
  content ← concat_res (map (writeRule generateVersion) rules);
  Ok (MagicBytes ++ [generateVersion] ++ zlib_Compress (WriteUvarint (len rules) ++ content)).

(** ** Reading returns *)

Section Returns.
Context {ST : Stream}.

Lemma wb_addr : well_behaved true readIPSetAddr.
Proof.
  apply wb_strict; [apply wb_uvarint|]. intros n. destruct (_ && _); [apply wb_fail|].
  apply (wb_bind _ _ false false); [apply wb_full|]. intros. apply wb_ret.
Qed.
Lemma wb_ipset : well_behaved true readIPSet.
Proof.
  apply wb_strict; [apply wb_byte|]. intros v. destruct (negb _); [apply wb_fail|].
  apply wb_weaken, wb_strict; [by apply wb_binary; lia|]. intros n.
  apply (wb_bind _ _ false false); [|intros; apply wb_ret]. apply wb_times. intros _.
  apply wb_strict; [apply wb_addr|]. intros a. apply wb_weaken, wb_strict; [apply wb_addr|]. intros. apply wb_ret.
Qed.
Lemma wb_prefix : well_behaved true readPrefix.
Proof.
  apply wb_strict; [apply wb_uvarint|]. intros n. destruct (_ && _); [apply wb_fail|].
  apply (wb_bind _ _ false false); [apply wb_full|]. intros b. apply wb_weaken, wb_strict; [apply wb_byte|]. intros. apply wb_ret.
Qed.
Lemma wb_strings : well_behaved true readRuleItemString.
Proof.
  apply wb_strict; [apply wb_uvarint|]. intros n. apply (wb_bind _ _ false false); [|intros; apply wb_ret].
  apply wb_times. intros _. apply wb_strict; [apply wb_slice|]. intros. apply wb_ret.
Qed.
Lemma wb_prefixes : well_behaved true read_prefixes.
Proof.
  apply wb_strict; [apply wb_uvarint|]. intros n. apply wb_times. intros _.
  apply wb_strict; [apply wb_prefix|]. intros. apply wb_ret.
Qed.
Lemma wb_interfaces : well_behaved true read_interfaces.
Proof.
  apply wb_strict; [apply wb_uvarint|]. intros n. apply (wb_bind _ _ false false); [|intros; apply wb_ret].
  apply wb_times. intros _. apply wb_strict; [by apply wb_binary; lia|]. intros k.
  apply wb_weaken, wb_strict; [apply wb_prefixes|]. intros. apply wb_ret.
Qed.

Lemma wb_value t last : well_behaved false (read_value t last).
Proof.
  unfold read_value. repeat match goal with |- well_behaved _ (if ?c then _ else _) => destruct c end;
    first [apply wb_fail|apply wb_ret|apply (wb_bind _ _ false false); [|intros; apply wb_ret]].
  all: first [apply ReadMatcher_returns|apply ReadAdGuard_returns|apply wb_weaken].
  all: first [apply wb_strings|apply wb_slice|apply wb_ipset|apply wb_interfaces|apply wb_prefixes].
Qed.

Lemma wb_items fuel last bs : (length bs < fuel)%nat ->
  match read_items fuel last bs with
  | Ok (_, bs') => (length bs' < length bs)%nat | Err _ => True | Panic _ => False
  end.
Proof.
  revert last bs. induction fuel as [|fuel IH]; intros last bs Hlen; [lia|]. cbn [read_items].
  unfold mbind at 1, reader_bind at 1. pose proof (wb_binary 1 ltac:(lia) bs) as Hb.
  destruct (binary_Read 1 bs) as [[t bs1]|e|s]; [|done..]. destruct (t =? ruleItemFinal).
  - pose proof (wb_strict binary_Read_bool (fun i => mret ([] : list ItemValue, i)) wb_bool (fun a => wb_ret _) bs1) as H.
    destruct ((binary_Read_bool ≫= _) bs1) as [[? ?]|e|s]; [|done..]. lia.
  - unfold mbind at 1, reader_bind at 1. pose proof (wb_value t last bs1) as Hv.
    destruct (read_value t last bs1) as [[v bs2]|e|s]; [|done..].
    unfold mbind, reader_bind. specialize (IH t bs2 ltac:(lia)). destruct (read_items _ _ _) as [[[l i] bs3]|e|s]; [|done..].
    cbn. lia.
Qed.
Lemma wb_default recover : well_behaved true (readDefaultRule recover).
Proof.
  intros bs. unfold readDefaultRule, mbind, reader_bind. pose proof (wb_items (S (length bs)) 0 bs ltac:(lia)) as H.
  destruct (read_items _ _ _) as [[[l i] bs']|e|s]; [|done..]. cbn. lia.
Qed.
Lemma wb_rule recover levels : well_behaved true (readRule recover levels).
Proof.
  induction levels as [|levels IH]; cbn [readRule]; [apply wb_fail|].
  apply wb_strict; [by apply wb_binary; lia|]. intros t. destruct (t =? 0).
  { apply wb_weaken, wb_strict; [apply wb_default|]. intros. apply wb_ret. }
  destruct (t =? 1); [|apply wb_fail]. unfold readLogicalRule.
  apply wb_weaken, wb_strict; [apply wb_byte|]. intros mode. destruct (_ && _); [apply wb_fail|].
  apply wb_weaken, wb_strict; [apply wb_uvarint|]. intros n.
  apply (wb_bind _ _ false false); [apply wb_times; intros i; by apply wb_cause|]. intros rules.
  apply wb_weaken, wb_strict; [apply wb_bool|]. intros. apply wb_ret.
Qed.
End Returns.

(** Reading a rule-set file ends with a rule-set or an error, whatever the
    bytes are: huge lengths run into the end of the stream, and nesting is cut at
    a depth of one hundred. *)
Theorem rule_set_read_returns file recover : match Read file recover with Panic _ => False | _ => True end.
Proof.
  unfold Read.
  pose proof (wb_full (ST := file_stream) 3 file) as H1. destruct (ReadFull 3 file) as [[magic f1]|e|s]; [|done..]; rewrite ok_bind.
  case_bool_decide; [|done]. cbn [negb]. pose proof (wb_binary (ST := file_stream) 1 ltac:(lia) f1) as H2.
  destruct (binary_Read 1 f1) as [[version f2]|e|s]; [|done..]; rewrite ok_bind. destruct (_ <? _); [done|].
  pose proof (zlib_returns f2) as H3. destruct (zlib_NewReader f2) as [[content ST]|e|s]; [|done..]; rewrite ok_bind.
  pose proof (wb_uvarint content) as H4. destruct (ReadUvarint content) as [[n c2]|e|s]; [|done..]; rewrite ok_bind.
  match goal with |- context [read_times n ?f c2] => pose proof (wb_times n f) as H5 end.
  specialize (H5 ltac:(intros i; apply wb_cause, wb_rule) c2).
  destruct (read_times _ _ _) as [[rules c3]|e|s]; done.
Qed.

End Srs.
