(* ===== verification/SrsRoundtrip.v ===== *)
(** * Rule-set files are read back as written

    What [Read] returns for a file of [Write]: the rules in compiled form, with
    matchers and IP sets in place of domains and addresses. *)

From stdpp Require Import base numbers list strings gmap option.
From Stdlib Require Import ZArith Lia.
From S2P Require Import Prelude Bytes NetAddr Metadata RuleItems RuleCore RuleBuild Varbin Srs.

Local Open Scope Z_scope.

Section Roundtrip.
Context {SH : SliceHelpers} {GS : GoStd} {TP : ThirdParty} {VB : Varbin} {RF : RuleSetFormat}.

(** ** Compiled rules *)

(** A list that is written when it has elements, and nil otherwise *)
Definition kept {A} (s : Slice A) : Slice A := if has_elems s then s else None.
Definition kept_set (s : Slice string) : option IPSet :=
  if has_elems s then match build_set (elems s) with Ok set => Some set | _ => None end else None.
Definition kept_prefixes (l : list (option Prefixable)) : list (option Prefixable) :=
  map (fun p => Some (Prefixable_of (Prefixable_Build p Prefix_zero))) l.
Definition kept_interfaces (m : Entries Z) : Entries Z := map (fun '(k, v) => (k, kept_prefixes v)) m.
Definition kept_matcher (version : Z) (o : HeadlessOptions) : option Matcher :=
  if has_elems (h_Domain o) || has_elems (h_DomainSuffix o)
  then Some (NewMatcher (elems (h_Domain o)) (elems (h_DomainSuffix o)) (version =? RuleSetVersion1)) else None.
Definition kept_adguard (o : HeadlessOptions) : option AdGuardMatcher :=
  if has_elems (h_AdGuardDomain o) then Some (NewAdGuardMatcher (elems (h_AdGuardDomain o))) else None.

(** A default rule as it is read back; without [recover] the fields of the source
    form are nil. *)
Definition compiled_options (version : Z) (o : HeadlessOptions) : HeadlessOptions :=
  mkHeadlessOptions
    (kept (h_QueryType o)) (kept (h_Network o)) None None (kept (h_DomainKeyword o)) (kept (h_DomainRegex o)) None None
    (kept (h_SourcePort o)) (kept (h_SourcePortRange o)) (kept (h_Port o)) (kept (h_PortRange o))
    (kept (h_ProcessName o)) (kept (h_ProcessPath o)) (kept (h_ProcessPathRegex o))
    (kept (h_PackageName o)) (kept (h_PackageNameRegex o)) (kept (h_NetworkType o))
    (h_NetworkIsExpensive o) (h_NetworkIsConstrained o) (kept (h_WIFISSID o)) (kept (h_WIFIBSSID o))
    (kept_interfaces <$> kept (h_NetworkInterfaceAddress o))
    (kept_prefixes <$> kept (h_DefaultInterfaceAddress o)) (h_Invert o)
    (kept_matcher version o) (kept_set (h_SourceIPCIDR o)) (kept_set (h_IPCIDR o))
    None (kept_adguard o).
Fixpoint compiled (version : Z) (rule : HeadlessRule) : HeadlessRule :=
  match rule with
  | H_Default o => H_Default (compiled_options version o)
  | H_Logical mode rules invert => H_Logical mode (map (compiled version) rules) invert
  | H_Unknown _ | H_Untyped _ => rule
  end.

(** ** Rules that fit the format *)

(** Lengths are 64-bit, numbers have their width, addresses have no zone and are
    not IPv4 addresses in IPv6 ones, and interface types occur once. *)
Definition fits {A} (ok : A -> Prop) (s : Slice A) : Prop := len (elems s) < 2 ^ 64 /\ Forall ok (elems s).
Definition string_fits (s : string) : Prop := len (string_bytes s) < 2 ^ 64.
Definition set_fits (s : Slice string) : Prop :=
  forall set, build_set (elems s) = Ok set ->
    len (IPSet_rr set) < 2 ^ 64 /\ Forall (fun '(from, to) => plain_addr from /\ plain_addr to) (IPSet_rr set).
Definition prefix_fits (p : option Prefixable) : Prop :=
  let prefix := Prefixable_Build p Prefix_zero in
  plain_addr (Prefix_Addr prefix) /\ 0 <= Prefix_Bits prefix <= Addr_BitLen (Prefix_Addr prefix).
Definition string_fields (o : HeadlessOptions) : list (Slice string) :=
  [h_Network o; h_DomainKeyword o; h_DomainRegex o; h_SourcePortRange o; h_PortRange o; h_ProcessName o;
   h_ProcessPath o; h_ProcessPathRegex o; h_PackageName o; h_PackageNameRegex o; h_WIFISSID o; h_WIFIBSSID o].
Record options_fit (o : HeadlessOptions) : Prop := {
  of_strings : Forall (fits string_fits) (string_fields o);
  of_numbers : Forall (fits (in_width 16)) [h_QueryType o; h_SourcePort o; h_Port o];
  of_types : fits (in_width 8) (h_NetworkType o);
  of_sets : Forall set_fits [h_SourceIPCIDR o; h_IPCIDR o];
  of_interfaces : fits (fun e => in_width 8 e.1 /\ len e.2 < 2 ^ 64 /\ Forall prefix_fits e.2)
                    (h_NetworkInterfaceAddress o : Slice (Z * list (option Prefixable)));
  of_keys : NoDup (elems (h_NetworkInterfaceAddress o : Slice (Z * list (option Prefixable)))).*1;
  of_addresses : fits prefix_fits (h_DefaultInterfaceAddress o)
}.
(** Rules within [levels] of nesting *)
Fixpoint rule_fits (levels : nat) (rule : HeadlessRule) : Prop :=
  match levels, rule with
  | S _, H_Default o => options_fit o
  | S levels, H_Logical _ rules _ => len rules < 2 ^ 64 /\ foldr (fun r P => rule_fits levels r /\ P) True rules
  | _, _ => False
  end.

(** ** Values *)

Section Values.
Context {ST : Stream}.

Lemma WriteUvarint_len {A} (l : list A) : len l < 2 ^ 64 -> WriteUvarint (len l) = AppendUvarint (len l).
Proof. intros H. apply WriteUvarint_law. unfold in_width, len in *. lia. Qed.
Lemma reads_len {A} (l : list A) : len l < 2 ^ 64 -> reads ReadUvarint (WriteUvarint (len l)) (len l).
Proof. intros H. rewrite WriteUvarint_len by done. apply reads_uvarint. unfold in_width, len in *. lia. Qed.

Lemma concat_be1 l : Forall is_byte l -> concat (map (be_bytes 1) l) = l.
Proof.
  induction 1 as [|b l Hb Hl IH]; [done|]. cbn [map concat]. rewrite IH. unfold is_byte, in_width in Hb.
  cbn [be_bytes app]. by rewrite Z.mod_small by lia.
Qed.
Lemma reads_slice n l : (0 < n)%nat -> len l < 2 ^ 64 -> Forall (in_width (8 * Z.of_nat n)) l ->
  exists s, elems s = l /\ reads (ReadSlice ST n) (WriteUvarint (len l) ++ concat (map (be_bytes n) l)) s.
Proof.
  intros Hn Hl Hw. destruct (ReadSlice_law ST n l Hn Hl Hw) as (s & Hs & Hr). exists s. split; [done|].
  intros rest. rewrite WriteUvarint_len by done. by rewrite <-app_assoc.
Qed.
Lemma elems_kept {A} (s : Slice A) l : elems s = l -> l <> [] -> s = Some l.
Proof. destruct s; cbn; intros ->; done. Qed.

Lemma reads_string s : string_fits s ->
  reads (value ← ReadSlice ST 1; mret (bytes_string (elems value))) (WriteUvarint (len (string_bytes s)) ++ string_bytes s) s.
Proof.
  intros Hs. destruct (reads_slice 1 (string_bytes s)) as (v & Hv & Hr); [lia|done|apply string_bytes_bytes|].
  rewrite concat_be1 in Hr by apply string_bytes_bytes.
  apply (reads_fmap _ (fun v => bytes_string (elems v))) in Hr. by rewrite Hv, bytes_string_bytes in Hr.
Qed.
Lemma WriteUvarint_nonempty {A} (l : list A) w : len l < 2 ^ 64 -> (0 < length (WriteUvarint (len l) ++ w))%nat.
Proof. intros H. rewrite WriteUvarint_len, length_app by done. pose proof (AppendUvarint_length (len l)). lia. Qed.

Lemma reads_strings l : len l < 2 ^ 64 -> Forall string_fits l -> l <> [] ->
  reads readRuleItemString
    (WriteUvarint (len l) ++ concat (map (fun s => WriteUvarint (len (string_bytes s)) ++ string_bytes s) l)) (Some l).
Proof.
  intros Hl Hs Hne. apply (reads_bind _ _ _ _ (len l)); [by apply reads_len|].
  replace (Some l) with (slice_of l) by (by destruct l). apply (reads_fmap _ slice_of).
  rewrite <-(map_id l) at 3. apply reads_times.
  - intros i s Hi. apply reads_string. rewrite list.Forall_forall in Hs. by apply Hs.
  - eapply Forall_impl; [|exact Hs]. intros s H. by apply WriteUvarint_nonempty.
Qed.

(** Addresses *)
Lemma slice_length a : plain_addr a -> len (Addr_AsSlice a) = 4 \/ len (Addr_AsSlice a) = 16.
Proof. destruct a; [done|left|right]; unfold len; cbn [Addr_AsSlice]; by rewrite be_bytes_length. Qed.
Lemma reads_addr_bytes {B} (f : bytes -> Reader B) a w b : plain_addr a -> reads (f (Addr_AsSlice a)) w b ->
  reads (addrLen ← ReadUvarint;
         if negb (addrLen =? 4) && negb (addrLen =? 16) then fail ErrInvalid
         else addrBytes ← ReadFull (Z.to_nat addrLen); f addrBytes)
    (write_addr a ++ w) b.
Proof.
  intros Ha Hf. unfold write_addr. rewrite <-app_assoc.
  assert (Hlen := slice_length a Ha). apply (reads_bind _ _ _ _ (len (Addr_AsSlice a))).
  { apply reads_len. destruct Hlen as [-> | ->]; lia. }
  replace (negb _ && negb _) with false by (by destruct Hlen as [-> | ->]).
  apply (reads_bind _ _ _ _ (Addr_AsSlice a)); [|done]. apply reads_full. unfold len. lia.
Qed.
Lemma reads_addr a : plain_addr a -> reads readIPSetAddr (write_addr a) a.
Proof.
  intros Ha. rewrite <-(app_nil_r (write_addr a)). apply reads_addr_bytes; [done|].
  rewrite <-(AddrFromIP_law a Ha) at 2. apply reads_ret.
Qed.
Lemma write_addr_nonempty a w : plain_addr a -> (0 < length (write_addr a ++ w))%nat.
Proof.
  intros Ha. unfold write_addr. rewrite <-app_assoc. apply WriteUvarint_nonempty.
  destruct (slice_length a Ha) as [-> | ->]; lia.
Qed.

Lemma reads_ipset set : len (IPSet_rr set) < 2 ^ 64 ->
  Forall (fun '(from, to) => plain_addr from /\ plain_addr to) (IPSet_rr set) -> reads readIPSet (writeIPSet set) set.
Proof.
  intros Hl Hs. unfold writeIPSet. change (1 :: ?w) with ([1] ++ w).
  apply (reads_bind _ _ _ _ 1); [apply reads_byte|]. cbn [Z.eqb negb].
  apply (reads_bind _ _ _ _ (len (IPSet_rr set))).
  { apply reads_binary. unfold len in *. change (256 ^ Z.of_nat 8) with (2 ^ 64). lia. }
  rewrite <-(IPSet_cast_law set) at 3. apply (reads_fmap _ IPSet_cast).
  rewrite <-(map_id (IPSet_rr set)) at 3. apply reads_times.
  - intros i [from to] Hi. rewrite list.Forall_forall in Hs. destruct (Hs (from, to) Hi) as [Hf Ht].
    apply (reads_bind _ _ _ _ from); [by apply reads_addr|]. apply (reads_fmap _ (fun to => (from, to))). by apply reads_addr.
  - eapply Forall_impl; [|exact Hs]. intros [from to] [Hf _]. by apply write_addr_nonempty.
Qed.

Lemma reads_prefix p : prefix_fits p ->
  reads (prefix ← readPrefix; mret (Some (Prefixable_of prefix))) (writePrefix (Prefixable_Build p Prefix_zero))
    (Some (Prefixable_of (Prefixable_Build p Prefix_zero))).
Proof.
  intros [Ha Hb]. set (prefix := Prefixable_Build p Prefix_zero) in *.
  apply (reads_fmap _ (fun prefix => Some (Prefixable_of prefix))). unfold writePrefix.
  assert (Hbits : Addr_BitLen (Prefix_Addr prefix) <= 128) by (destruct (Prefix_Addr prefix); cbn; lia).
  apply reads_addr_bytes; [done|]. rewrite AddrFromIP_law by done.
  assert (Hp : PrefixFrom (Prefix_Addr prefix) (u8 (Prefix_Bits prefix)) = prefix).
  { rewrite wrap_small by (unfold in_width; lia). unfold PrefixFrom. destruct prefix as [a bits]. cbn in *.
    destruct a as [|v|v z]; [done|..]; cbn in *.
    - by replace ((0 <=? bits) && (bits <=? 32)) with true by (symmetry; apply andb_true_intro; split; apply Z.leb_le; lia).
    - destruct Ha as (_ & -> & _).
      by replace ((0 <=? bits) && (bits <=? 128)) with true by (symmetry; apply andb_true_intro; split; apply Z.leb_le; lia). }
  rewrite <-Hp at 2. apply (reads_fmap _ (fun b => PrefixFrom (Prefix_Addr prefix) b)). apply reads_byte.
Qed.
Lemma reads_prefixes l : len l < 2 ^ 64 -> Forall prefix_fits l -> reads read_prefixes (write_prefixes l) (kept_prefixes l).
Proof.
  intros Hl Hp. apply (reads_bind _ _ _ _ (len l)); [by apply reads_len|]. apply reads_times.
  - intros i p Hi. apply reads_prefix. rewrite list.Forall_forall in Hp. by apply Hp.
  - eapply Forall_impl; [|exact Hp]. intros p [Ha _]. by apply write_addr_nonempty.
Qed.

Lemma fold_put (l : Entries Z) : forall m, NoDup (m ++ l).*1 ->
  fold_left (fun m '(key, value) => TypedMap_Put m key value) l m = m ++ l.
Proof.
  induction l as [|[k v] l IH]; intros m Hn; [by rewrite app_nil_r|]. cbn [fold_left]. rewrite TypedMap_Put_law.
  - rewrite IH; [by rewrite <-app_assoc|]. by rewrite <-app_assoc.
  - rewrite fmap_app in Hn. apply list.NoDup_app in Hn as (_ & Hn & _). intros Hk. apply (Hn k Hk). cbn.
    apply elem_of_cons. by left.
Qed.
Lemma reads_interfaces (m : Entries Z) : len m < 2 ^ 64 -> NoDup m.*1 ->
  Forall (fun e : Z * _ => in_width 8 e.1 /\ len e.2 < 2 ^ 64 /\ Forall prefix_fits e.2) m ->
  reads read_interfaces (write_interfaces m) (kept_interfaces m).
Proof.
  intros Hl Hn Hm. unfold write_interfaces. apply (reads_bind _ _ _ _ (len m)); [by apply reads_len|].
  assert (Hk : (kept_interfaces m).*1 = m.*1).
  { unfold kept_interfaces. clear. induction m as [|[k v] m IH]; [done|]. cbn in *. by f_equal. }
  pose proof (fold_put (kept_interfaces m) [] ltac:(cbn; by rewrite Hk)) as Hf. cbn in Hf.
  rewrite <-Hf. apply (reads_fmap _ (fun l : Entries Z => fold_left (fun m '(key, value) => TypedMap_Put m key value) l [])).
  apply reads_times; rewrite list.Forall_forall in Hm.
  - intros i [k v] Hi. destruct (Hm (k, v) Hi) as (Hw & Hv & Hp). cbn in *. change (k :: ?w) with ([k] ++ w).
    apply (reads_bind _ _ _ _ k); [by apply reads_u8|]. apply (reads_fmap _ (fun v => (k, v))). by apply reads_prefixes.
  - apply list.Forall_forall. intros [k v] _. cbn. lia.
Qed.

(** ** Items *)

(** Items with the bytes they are read from *)
Inductive encoded : list ItemValue -> bytes -> Prop :=
  | encoded_nil : encoded [] []
  | encoded_cons t v w vs ws :
      in_width 8 t -> t <> ruleItemFinal -> (forall last, reads (read_value t last) w v) -> encoded vs ws ->
      encoded (v :: vs) (t :: w ++ ws).

Lemma encoded_app vs1 w1 vs2 w2 : encoded vs1 w1 -> encoded vs2 w2 -> encoded (vs1 ++ vs2) (w1 ++ w2).
Proof. induction 1 as [|t v w vs ws Ht Hf Hv He IH]; intros H2; [done|]. cbn. rewrite <-app_assoc. constructor; auto. Qed.
Lemma encoded_one t v w : in_width 8 t -> t <> ruleItemFinal -> (forall last, reads (read_value t last) w v) ->
  encoded [v] (t :: w).
Proof. intros. rewrite <-(app_nil_r w). by apply encoded_cons; [..|constructor]. Qed.
Lemma encoded_length vs w : encoded vs w -> (length vs <= length w)%nat.
Proof. induction 1; cbn; [lia|]. rewrite length_app. lia. Qed.

Lemma read_encoded vs ws inv : encoded vs ws -> forall fuel last rest, (length vs < fuel)%nat ->
  read_items fuel last (ws ++ [ruleItemFinal; write_bool inv] ++ rest) = Ok ((vs, inv), rest).
Proof.
  induction 1 as [|t v w vs ws Ht Hf Hv He IH]; intros fuel last rest Hfuel; (destruct fuel as [|fuel]; [cbn in Hfuel; lia|]);
    cbn [read_items app].
  - pose proof (reads_u8 ruleItemFinal ltac:(done) ([write_bool inv] ++ rest)) as H1. cbn [app] in H1.
    unfold mbind, reader_bind at 1. rewrite H1, Z.eqb_refl. unfold mbind, reader_bind.
    pose proof (reads_bool inv rest) as H2. cbn [app] in H2. unfold write_bool. by rewrite H2.
  - pose proof (reads_u8 t Ht ((w ++ ws) ++ [ruleItemFinal; write_bool inv] ++ rest)) as H1. cbn [app] in H1.
    unfold mbind, reader_bind at 1. rewrite H1. replace (t =? ruleItemFinal) with false by (symmetry; by apply Z.eqb_neq).
    unfold mbind, reader_bind. rewrite <-app_assoc, Hv. cbn in Hfuel.
    pose proof (IH fuel t rest ltac:(lia)) as Hr. cbn [app] in Hr. by rewrite Hr.
Qed.

Lemma reads_default recover vs ws inv : encoded vs ws ->
  reads (readDefaultRule recover) (ws ++ [ruleItemFinal; write_bool inv]) (rule_of_items recover vs inv).
Proof.
  intros He rest. unfold readDefaultRule, mbind, reader_bind. rewrite <-app_assoc.
  rewrite (read_encoded vs ws inv He); [done|]. rewrite length_app. apply encoded_length in He. lia.
Qed.

(** The reader of an item type *)
Lemma type_ok t l : t ∈ l -> forallb (fun t => (0 <=? t) && (t <? 255)) l = true -> in_width 8 t /\ t <> ruleItemFinal.
Proof.
  intros Ht Hl. rewrite forallb_Forall' in Hl. rewrite list.Forall_forall in Hl. specialize (Hl t Ht).
  apply andb_true_iff in Hl as [H1 H2]. unfold in_width, ruleItemFinal. split; lia.
Qed.
Lemma type_in t l (P : Z -> Prop) : t ∈ l -> Forall P l -> P t.
Proof. rewrite list.Forall_forall. auto. Qed.

Lemma strings_encoded t l : t ∈ string_items -> len l < 2 ^ 64 -> Forall string_fits l -> l <> [] ->
  encoded [V_Strings t (Some l)] (writeRuleItemString t l).
Proof.
  intros Ht Hl Hs Hne. destruct (type_ok t _ Ht eq_refl). apply encoded_one; [done..|]. intros last. unfold read_value.
  rewrite bool_decide_true by done. apply (reads_fmap _ (V_Strings t)). by apply reads_strings.
Qed.
Lemma uint16_encoded t l : t ∈ uint16_items -> len l < 2 ^ 64 -> Forall (in_width 16) l -> l <> [] ->
  encoded [V_Uint16 t (Some l)] (writeRuleItemUint16 t l).
Proof.
  intros Ht Hl Hw Hne. destruct (type_ok t _ Ht eq_refl). apply encoded_one; [done..|]. intros last.
  assert (Hr : read_value t last = (l ← ReadSlice ST 2; mret (V_Uint16 t l))) by
    (apply (type_in t _ (fun t => read_value t last = _) Ht); by repeat constructor).
  rewrite Hr. destruct (reads_slice 2 l) as (s & Hs & Hread); [lia|done|done|]. rewrite (elems_kept s l Hs Hne) in Hread.
  by apply (reads_fmap _ (V_Uint16 t)).
Qed.
Lemma ipset_encoded t set : t ∈ address_items -> len (IPSet_rr set) < 2 ^ 64 ->
  Forall (fun '(from, to) => plain_addr from /\ plain_addr to) (IPSet_rr set) ->
  encoded [V_IPSet t set] (t :: writeIPSet set).
Proof.
  intros Ht Hl Hs. destruct (type_ok t _ Ht eq_refl). apply encoded_one; [done..|]. intros last.
  assert (Hr : read_value t last = (s ← readIPSet; mret (V_IPSet t s))) by
    (apply (type_in t _ (fun t => read_value t last = _) Ht); by repeat constructor).
  rewrite Hr. apply (reads_fmap _ (V_IPSet t)). by apply reads_ipset.
Qed.
Lemma flag_encoded t : t ∈ flag_items -> encoded [V_Flag t] [t].
Proof.
  intros Ht. destruct (type_ok t _ Ht eq_refl). apply encoded_one; [done..|]. intros last.
  assert (Hr : read_value t last = mret (V_Flag t)) by
    (apply (type_in t _ (fun t => read_value t last = _) Ht); by repeat constructor).
  rewrite Hr. apply reads_ret.
Qed.
Lemma domain_encoded m : encoded [V_Domain m] (ruleItemDomain :: Matcher_Write m).
Proof. apply encoded_one; [done..|]. intros last. apply (reads_fmap _ V_Domain), ReadMatcher_law. Qed.
Lemma adguard_encoded m : encoded [V_AdGuard m] (ruleItemAdGuardDomain :: AdGuard_Write m).
Proof. apply encoded_one; [done..|]. intros last. apply (reads_fmap _ V_AdGuard), ReadAdGuard_law. Qed.
Lemma types_encoded l : len l < 2 ^ 64 -> Forall (in_width 8) l -> l <> [] ->
  encoded [V_NetworkType (Some l)] (writeRuleItemUint8 ruleItemNetworkType l).
Proof.
  intros Hl Hw Hne. apply encoded_one; [done..|]. intros last. destruct (reads_slice 1 l) as (s & Hs & Hread); [lia|done|done|].
  rewrite concat_be1, (elems_kept s l Hs Hne) in Hread by done. by apply (reads_fmap _ V_NetworkType).
Qed.
Lemma interfaces_encoded (m : Entries Z) : len m < 2 ^ 64 -> NoDup m.*1 ->
  Forall (fun e : Z * _ => in_width 8 e.1 /\ len e.2 < 2 ^ 64 /\ Forall prefix_fits e.2) m ->
  encoded [V_NetworkInterfaceAddress (kept_interfaces m)] (ruleItemNetworkInterfaceAddress :: write_interfaces m).
Proof.
  intros. apply encoded_one; [done..|]. intros last. apply (reads_fmap _ V_NetworkInterfaceAddress). by apply reads_interfaces.
Qed.
Lemma addresses_encoded l : len l < 2 ^ 64 -> Forall prefix_fits l -> l <> [] ->
  encoded [V_DefaultInterfaceAddress (Some (kept_prefixes l))] (ruleItemDefaultInterfaceAddress :: write_prefixes l).
Proof.
  intros Hl Hp Hne. apply encoded_one; [done..|]. intros last.
  replace (Some (kept_prefixes l)) with (slice_of (kept_prefixes l)) by (by destruct l).
  apply (reads_fmap _ (fun l => V_DefaultInterfaceAddress (slice_of l))). by apply reads_prefixes.
Qed.

(** ** Default rules *)

Definition item_if {A} (s : Slice A) (f : list A -> list ItemValue) : list ItemValue :=
  if has_elems s then f (elems s) else [].
Definition strings_item (t : Z) (s : Slice string) : list ItemValue := item_if s (fun l => [V_Strings t (Some l)]).
Definition numbers_item (t : Z) (s : Slice Z) : list ItemValue := item_if s (fun l => [V_Uint16 t (Some l)]).
Definition set_item (t : Z) (s : Slice string) : list ItemValue :=
  item_if s (fun l => match build_set l with Ok set => [V_IPSet t set] | _ => [] end).
(** The items of a rule, one list for each block of the writer *)
Definition items_of (o : HeadlessOptions) (version : Z) : list (list ItemValue) := [
  numbers_item ruleItemQueryType (h_QueryType o);
  strings_item ruleItemNetwork (h_Network o);
  match kept_matcher version o with Some m => [V_Domain m] | None => [] end;
  strings_item ruleItemDomainKeyword (h_DomainKeyword o);
  strings_item ruleItemDomainRegex (h_DomainRegex o);
  set_item ruleItemSourceIPCIDR (h_SourceIPCIDR o);
  set_item ruleItemIPCIDR (h_IPCIDR o);
  numbers_item ruleItemSourcePort (h_SourcePort o);
  strings_item ruleItemSourcePortRange (h_SourcePortRange o);
  numbers_item ruleItemPort (h_Port o);
  strings_item ruleItemPortRange (h_PortRange o);
  strings_item ruleItemProcessName (h_ProcessName o);
  strings_item ruleItemProcessPath (h_ProcessPath o);
  strings_item ruleItemProcessPathRegex (h_ProcessPathRegex o);
  strings_item ruleItemPackageName (h_PackageName o);
  strings_item ruleItemPackageNameRegex (h_PackageNameRegex o);
  item_if (h_NetworkType o) (fun l => [V_NetworkType (Some l)]);
  (if h_NetworkIsExpensive o then [V_Flag ruleItemNetworkIsExpensive] else []);
  (if h_NetworkIsConstrained o then [V_Flag ruleItemNetworkIsConstrained] else []);
  item_if (h_NetworkInterfaceAddress o) (fun m => [V_NetworkInterfaceAddress (kept_interfaces m)]);
  item_if (h_DefaultInterfaceAddress o) (fun l => [V_DefaultInterfaceAddress (Some (kept_prefixes l))]);
  strings_item ruleItemWIFISSID (h_WIFISSID o);
  strings_item ruleItemWIFIBSSID (h_WIFIBSSID o);
  match kept_adguard o with Some m => [V_AdGuard m] | None => [] end
].

Definition block_ok (b : Res bytes) (vs : list ItemValue) : Prop := forall w, b = Ok w -> encoded vs w.

Lemma when_ok {A} (s : Slice A) f g : (elems s <> [] -> block_ok (f (elems s)) (g (elems s))) ->
  block_ok (when_elems s f) (item_if s g).
Proof.
  intros H w. unfold when_elems, item_if. destruct s as [[|a l]|]; cbn; [by intros [= <-]; constructor|by apply H|].
  intros [= <-]. constructor.
Qed.
Lemma since_ok version v name w vs : encoded vs w -> block_ok (since version v name w) vs.
Proof. intros H w'. unfold since. destruct (_ <? _); [done|]. by intros [= <-]. Qed.
Lemma strings_block t s : t ∈ string_items -> fits string_fits s ->
  block_ok (when_elems s (fun l => Ok (writeRuleItemString t l))) (strings_item t s).
Proof. intros Ht [Hl Hs]. apply when_ok. intros Hne w [= <-]. by apply strings_encoded. Qed.
Lemma numbers_block t s : t ∈ uint16_items -> fits (in_width 16) s ->
  block_ok (when_elems s (fun l => Ok (writeRuleItemUint16 t l))) (numbers_item t s).
Proof. intros Ht [Hl Hs]. apply when_ok. intros Hne w [= <-]. by apply uint16_encoded. Qed.
Lemma set_block t ctx s : t ∈ address_items -> set_fits s ->
  block_ok (when_elems s (fun l => caused ctx (writeRuleItemCIDR t l))) (set_item t s).
Proof.
  intros Ht Hf. apply when_ok. intros Hne w. unfold writeRuleItemCIDR, caused.
  destruct (build_set (elems s)) as [set|e|m] eqn:Hb; [|done..]. intros [= <-]. destruct (Hf set Hb) as [H1 H2].
  by apply ipset_encoded.
Qed.

Lemma blocks_ok o version : options_fit o -> Forall2 block_ok (write_items o version) (items_of o version).
Proof.
  intros [Hs Hn [Ht1 Ht2] Hsets [Hi1 Hi2] Hk [Ha1 Ha2]]. unfold string_fields in Hs.
  repeat match goal with H : Forall _ (_ :: _) |- _ => apply Forall_cons_iff in H as [? ?] end.
  unfold write_items, items_of. repeat apply Forall2_cons_2; try apply Forall2_nil_2;
    first [ apply strings_block; [set_solver|done] | apply numbers_block; [set_solver|done] | apply set_block; [set_solver|done]
          | idtac ].
  - apply when_ok. intros Hne w. rewrite Map_law, map_id. intros [= <-].
    match goal with H : fits _ (h_QueryType o) |- _ => destruct H end. by apply uint16_encoded; [set_solver|..].
  - intros w. unfold kept_matcher. destruct (_ || _); intros [= <-]; [apply domain_encoded|constructor].
  - apply when_ok. intros Hne. apply since_ok.
    match goal with H : fits _ (h_PackageNameRegex o) |- _ => destruct H end. by apply strings_encoded; [set_solver|..].
  - apply when_ok. intros Hne. by apply since_ok, types_encoded.
  - destruct (h_NetworkIsExpensive o); [|intros w [= <-]; constructor]. apply since_ok, flag_encoded. set_solver.
  - destruct (h_NetworkIsConstrained o); [|intros w [= <-]; constructor]. apply since_ok, flag_encoded. set_solver.
  - apply when_ok. intros Hne. by apply since_ok, interfaces_encoded.
  - apply when_ok. intros Hne. by apply since_ok, addresses_encoded.
  - unfold kept_adguard, when_elems. destruct (has_elems _); [|intros w [= <-]; constructor]. apply since_ok, adguard_encoded.
Qed.

Lemma concat_ok blocks items w : Forall2 block_ok blocks items -> concat_res blocks = Ok w -> encoded (concat items) w.
Proof.
  intros H. revert w. induction H as [|b vs blocks items Hb H IH]; intros w; cbn; [intros [= <-]; constructor|].
  destruct b as [w1|e|m]; cbn; [|done..]. destruct (concat_res blocks) as [w2|e|m]; cbn; [|done..]. intros [= <-].
  apply encoded_app; auto.
Qed.

(** The last value of a field *)
Lemma last_of_app {A} (f : ItemValue -> option A) l1 l2 :
  last_of f (l1 ++ l2) = match last_of f l2 with Some a => Some a | None => last_of f l1 end.
Proof. induction l1 as [|v l1 IH]; cbn; [by destruct (last_of f l2)|]. rewrite IH. by destruct (last_of f l2). Qed.
Lemma last_of_none {A} (f : ItemValue -> option A) bs : Forall (fun b => last_of f b = None) bs -> last_of f (concat bs) = None.
Proof. induction 1 as [|b bs Hb H IH]; cbn; [done|]. by rewrite last_of_app, IH. Qed.
Lemma last_of_at {A} (f : ItemValue -> option A) n bs b : bs !! n = Some b ->
  Forall (fun b => last_of f b = None) (take n bs ++ drop (S n) bs) -> last_of f (concat bs) = last_of f b.
Proof.
  intros Hb Ho. rewrite <-(take_drop_middle bs n b Hb) at 1. apply Forall_app in Ho as [H1 H2].
  rewrite concat_app. cbn [concat]. rewrite !last_of_app, (last_of_none _ _ H1), (last_of_none _ _ H2).
  by destruct (last_of f b).
Qed.
Lemma last_if {A B} (f : ItemValue -> option B) (s : Slice A) (v : list A -> ItemValue) :
  last_of f (item_if s (fun l => [v l])) = if has_elems s then f (v (elems s)) else None.
Proof. unfold item_if. by destruct (has_elems s). Qed.
Lemma last_if_none {A B} (f : ItemValue -> option B) (s : Slice A) g : (forall l, last_of f (g l) = None) ->
  last_of f (item_if s g) = None.
Proof. intros H. unfold item_if. by destruct (has_elems s). Qed.
Lemma last_set_none {B} (f : ItemValue -> option B) t s : (forall set, f (V_IPSet t set) = None) -> last_of f (set_item t s) = None.
Proof. intros H. apply last_if_none. intros l. destruct (build_set l); cbn; [apply H|done..]. Qed.
Lemma kept_if {A} (s : Slice A) : (if has_elems s then Some (elems s) else None) = kept s.
Proof. unfold kept. by destruct s as [[|]|]. Qed.

(** A field that a block does not assign *)
Ltac other_field :=
  first [ reflexivity | by apply last_if_none | by apply last_set_none
        | unfold kept_matcher; by destruct (_ || _) | unfold kept_adguard; by destruct (has_elems _)
        | by destruct (h_NetworkIsExpensive _) | by destruct (h_NetworkIsConstrained _) ].
Ltac field_at o version n :=
  rewrite (last_of_at _ n (items_of o version) _ eq_refl)
    by (cbn [take drop app items_of]; repeat (apply Forall_cons_2; [other_field|]); apply Forall_nil_2).

Lemma last_strings t s : default None (last_of (strings_of t) (strings_item t s)) = kept s.
Proof. unfold strings_item. rewrite last_if, <-kept_if. cbn. rewrite Z.eqb_refl. by destruct (has_elems s). Qed.
Lemma last_numbers t s : last_of (numbers_of t) (numbers_item t s) = if has_elems s then Some (Some (elems s)) else None.
Proof. unfold numbers_item. rewrite last_if. cbn. by rewrite Z.eqb_refl. Qed.
Lemma last_set t s : last_of (set_of t) (set_item t s) = kept_set s.
Proof.
  unfold set_item, item_if, kept_set. destruct (has_elems s); [|done]. destruct (build_set (elems s)); cbn; [|done..].
  by rewrite Z.eqb_refl.
Qed.

Lemma items_compiled o version :
  rule_of_items false (concat (items_of o version)) (h_Invert o) = compiled_options version o.
Proof.
  unfold rule_of_items, compiled_options. cbv zeta beta.
  assert (Hnumbers : forall t (s : Slice Z), default None (last_of (numbers_of t) (numbers_item t s)) = kept s).
  { intros t s. rewrite last_numbers, <-kept_if. by destruct (has_elems s). }
  f_equal.
  - field_at o version 0%nat. rewrite last_numbers, <-kept_if. destruct (has_elems _); [|done]. cbn. by rewrite Map_law, map_id.
  - field_at o version 1%nat. apply last_strings.
  - by destruct (last_of matcher_of _).
  - by destruct (last_of matcher_of _).
  - field_at o version 3%nat. apply last_strings.
  - field_at o version 4%nat. apply last_strings.
  - by destruct (last_of (set_of _) _).
  - by destruct (last_of (set_of _) _).
  - field_at o version 7%nat. apply Hnumbers.
  - field_at o version 8%nat. apply last_strings.
  - field_at o version 9%nat. apply Hnumbers.
  - field_at o version 10%nat. apply last_strings.
  - field_at o version 11%nat. apply last_strings.
  - field_at o version 12%nat. apply last_strings.
  - field_at o version 13%nat. apply last_strings.
  - field_at o version 14%nat. apply last_strings.
  - field_at o version 15%nat. apply last_strings.
  - field_at o version 16%nat. rewrite last_if, <-kept_if. by destruct (has_elems _).
  - field_at o version 17%nat. by destruct (h_NetworkIsExpensive o).
  - field_at o version 18%nat. by destruct (h_NetworkIsConstrained o).
  - field_at o version 21%nat. apply last_strings.
  - field_at o version 22%nat. apply last_strings.
  - field_at o version 19%nat. rewrite last_if, <-kept_if. by destruct (has_elems _).
  - field_at o version 20%nat. rewrite last_if, <-kept_if. by destruct (has_elems _).
  - field_at o version 2%nat. by destruct (kept_matcher version o).
  - field_at o version 5%nat. apply last_set.
  - field_at o version 6%nat. apply last_set.
  - by destruct (last_of adguard_of _).
  - field_at o version 23%nat. by destruct (kept_adguard o).
Qed.

(** ** Rules *)

Lemma reads_default_rule o version w : options_fit o -> writeDefaultRule o version = Ok w ->
  exists w', w = 0 :: w' /\ reads (readDefaultRule false) w' (compiled_options version o).
Proof.
  intros Ho. unfold writeDefaultRule. destruct (concat_res (write_items o version)) as [items|e|m] eqn:Hi; [|done..].
  rewrite ok_bind. intros [= <-]. eexists. split; [done|]. rewrite <-items_compiled.
  apply reads_default. by eapply concat_ok; [apply blocks_ok|].
Qed.

(** A loop over what was written *)
Lemma reads_written {A B} (write : A -> Res bytes) (g : A -> B) (f : Z -> Reader B) l w :
  concat_res (map write l) = Ok w ->
  (forall i a wa, a ∈ l -> write a = Ok wa -> reads (f i) wa (g a) /\ (0 < length wa)%nat) ->
  reads (read_times (len l) f) w (map g l).
Proof.
  intros Hw Hf. set (enc a := match write a with Ok wa => wa | _ => [] end).
  assert (Forall (fun a => write a = Ok (enc a)) l /\ w = concat (map enc l)) as [Hall ->].
  { clear Hf. revert w Hw. induction l as [|a l IH]; intros w; cbn [map concat_res]; [by intros [= <-]|].
    destruct (write a) as [w1|e|m] eqn:Ha; [|done..]. rewrite ok_bind. destruct (concat_res (map write l)) as [w2|e|m]; [|done..].
    rewrite ok_bind. intros [= <-]. destruct (IH w2 eq_refl) as [H1 ->]. assert (Hea : enc a = w1) by (unfold enc; by rewrite Ha).
    cbn [map concat]. rewrite Hea. split; [|done]. constructor; [|done]. by rewrite Hea. }
  rewrite list.Forall_forall in Hall. apply reads_times.
  - intros i a Ha. by apply Hf; [|apply Hall].
  - apply list.Forall_forall. intros a Ha. by apply (Hf 0 a); [|apply Hall].
Qed.

Lemma fits_all levels rules : foldr (fun r P => rule_fits levels r /\ P) True rules -> forall r, r ∈ rules -> rule_fits levels r.
Proof. induction rules as [|r rules IH]; cbn; [set_solver|]. intros [Hr Hrs] r' [->|H]%elem_of_cons; auto. Qed.

Lemma reads_rule version levels : forall rule w, rule_fits levels rule -> writeRule version rule = Ok w ->
  reads (readRule false levels) w (compiled version rule) /\ (0 < length w)%nat.
Proof.
  induction levels as [|levels IH]; intros rule w; [by destruct rule|]. destruct rule as [o|mode rules invert|type|o]; [..|done|done].
  - intros Ho Hw. destruct (reads_default_rule o version w Ho Hw) as (w' & -> & Hr). split; [|cbn; lia].
    change (0 :: w') with ([0] ++ w'). cbn [readRule compiled]. apply (reads_bind _ _ _ _ 0); [by apply reads_u8|].
    cbn [Z.eqb]. by apply (reads_fmap _ H_Default).
  - intros [Hlen Hall] Hw. pose proof (fits_all _ _ Hall) as Hfit. cbn [writeRule] in Hw.
    unfold writeLogicalRule in Hw. replace (len (map _ rules)) with (len rules) in Hw by (unfold len; by rewrite length_map).
    destruct (write_mode mode) as [m|e|s] eqn:Hm; [|done..]. rewrite ok_bind in Hw.
    destruct (concat_res (map (writeRule version) rules)) as [content|e|s] eqn:Hc; [|done..]. rewrite ok_bind in Hw.
    injection Hw as <-. split; [|cbn; lia]. change (1 :: ?m :: ?w) with ([1] ++ [m] ++ w). cbn [readRule compiled].
    apply (reads_bind _ _ _ _ 1); [by apply reads_u8|]. cbn [Z.eqb Pos.eqb]. unfold readLogicalRule.
    apply (reads_bind _ _ _ _ m); [apply reads_byte|].
    assert (negb (m =? 0) && negb (m =? 1) = false /\ mode = if m =? 0 then "and" else "or") as [-> Hmode].
    { revert Hm. unfold write_mode. repeat case_bool_decide; intros [= <-]; done. }
    apply (reads_bind _ _ _ _ (len rules)); [by apply reads_len|].
    apply (reads_bind _ _ _ _ (map (compiled version) rules)).
    + apply (reads_written (writeRule version)); [done|]. intros i r wr Hr Hwr.
      destruct (IH r wr (Hfit r Hr) Hwr). by split; [apply reads_cause|].
    + rewrite Hmode at 1. apply (reads_fmap _ (H_Logical _ (map (compiled version) rules))), reads_bool.
Qed.
End Values.

(** A rule-set file is read back as the rules it was written from, in compiled
    form: every field with elements is kept, domains become a domain matcher,
    addresses an IP set and AdGuard rules their matcher.  Lengths have to be below
    2^64, numbers in their width, addresses without zones and not IPv4 in IPv6, and
    logical rules nested at most one hundred deep. *)
Theorem rule_set_roundtrip rules version file :
  RuleSetVersion1 <= version <= RuleSetVersionCurrent -> len rules < 2 ^ 64 ->
  Forall (rule_fits (S maxLogicalRuleDepth)) rules ->
  Write rules version = Ok file -> Read file false = Ok (version, map (compiled version) rules).
Proof.
  intros Hv Hlen Hfit. unfold Write. destruct (concat_res (map (writeRule version) rules)) as [content|e|s] eqn:Hc; [|done..].
  rewrite ok_bind. intros [= <-]. unfold Read, RuleSetVersion1, RuleSetVersionCurrent, RuleSetVersion5 in *.
  match goal with |- context [ReadFull 3 (_ :: _ :: _ :: ?w)] =>
    rewrite (reads_full (ST := file_stream) MagicBytes 3 eq_refl w : ReadFull 3 (_ :: _ :: _ :: w) = _) end.
  rewrite ok_bind, bool_decide_true by done. cbn [negb].
  pose proof (reads_u8 (ST := file_stream) version ltac:(unfold in_width; lia)) as H1.
  unfold reads in H1. cbn [app] in H1. rewrite H1, ok_bind.
  replace (5 <? version) with false by (symmetry; apply Z.ltb_ge; lia). rewrite zlib_law, ok_bind.
  rewrite (reads_len (ST := {| stream_eof := true; stream_error := io_EOF |}) rules Hlen), ok_bind.
  rewrite <-(app_nil_r content). erewrite (reads_written (writeRule version) (compiled version)); [by rewrite ok_bind|done|].
  intros i r w Hr Hw. rewrite list.Forall_forall in Hfit. destruct (reads_rule (ST := file_stream) version _ r w (Hfit r Hr) Hw).
  by split; [apply reads_cause|].
Qed.
End Roundtrip.
