(* ===== verification/SrsMatch.v ===== *)
(** * Compiled rules match as their source

    Building a rule from its compiled form gives the rule that the source
    builds, up to the texts that describe it: both match the same connections,
    alone and inside a rule-set that a rule refers to. *)

From stdpp Require Import base numbers list strings gmap option.
From Stdlib Require Import ZArith Lia.
From S2P Require Import Prelude Bytes NetAddr Metadata RuleItems RuleCore RuleBuild Varbin Srs SrsRoundtrip.

Local Open Scope Z_scope.

Section Matching.
Context {SH : SliceHelpers} {GS : GoStd} {TP : ThirdParty} {Action : Type}.
Implicit Types r d : abstractDefaultRule Action (Rule Action).

(** ** Rules without their descriptions *)

Definition plain_item (it : RuleItem) : RuleItem :=
  match it with
  | I_Domain d => I_Domain (mkDomainItem (di_matcher d) "")
  | I_IPCIDR i => I_IPCIDR (mkIPCIDRItem (ic_ipSet i) (ic_isSource i) "")
  | it => it
  end.
Definition plain_any (it : AnyItem) : AnyItem := match it with AItem it => AItem (plain_item it) | it => it end.
Definition plain_rule r : abstractDefaultRule Action (Rule Action) :=
  mkDefault (map plain_item (items r)) (map plain_item (sourceAddressItems r)) (map plain_item (sourcePortItems r))
    (map plain_item (destinationAddressItems r)) (map plain_item (destinationIPCIDRItems r))
    (map plain_item (destinationPortItems r)) (map plain_any (allItems r)) (ruleSetItem r) (invert r) (action r).

Lemma plain_push p it r : plain_rule (push p it r) = push p (plain_item it) (plain_rule r).
Proof. unfold plain_rule, push. cbn. rewrite map_app. by destruct p; cbn; rewrite ?map_app. Qed.

Section Env.
Context (env : RuleEnv).

Lemma plain_match it m : RuleItem_Match env (plain_item it) m = RuleItem_Match env it m.
Proof. by destruct it. Qed.
Lemma plain_any_match l m : matchAnyItem env (map plain_item l) m = matchAnyItem env l m.
Proof.
  unfold matchAnyItem. rewrite !Any_law. induction l as [|it l IH]; [done|]. cbn [map existsb]. by rewrite IH, plain_match.
Qed.
Lemma plain_groups r m : evaluateGroups env (plain_rule r) m = evaluateGroups env r m.
Proof.
  unfold evaluateGroups, destinationIPCIDRMatchesSource, destinationIPCIDRMatchesDestination. cbn [plain_rule sourceAddressItems
    destinationIPCIDRItems sourcePortItems destinationAddressItems destinationPortItems]. by rewrite !plain_any_match, !length_map.
Qed.
Lemma plain_items r m : matchItems env (plain_rule r) m = matchItems env r m.
Proof.
  unfold matchItems. cbn [plain_rule items]. induction (items r) as [|it l IH]; [done|]. cbn [map forallb]. by rewrite IH, plain_match.
Qed.
Lemma plain_merge r m : evaluateForMerge env (plain_rule r) m = evaluateForMerge env r m.
Proof. unfold evaluateForMerge. rewrite plain_groups. destruct (evaluateGroups env r m). by rewrite plain_items. Qed.
Lemma plain_default f g r m : abstractDefaultRule_Match env f g (plain_rule r) m = abstractDefaultRule_Match env f g r m.
Proof.
  unfold abstractDefaultRule_Match, matchInner. cbn [plain_rule allItems]. rewrite length_map, plain_groups.
  destruct (evaluateGroups env r m). by rewrite plain_items.
Qed.
End Env.

(** ** Equivalent rules *)

(** Rules that match alike and merge alike into the groups of an outer rule. *)
Definition equivalent (x y : Rule Action) : Prop :=
  (forall env m, Rule_Match env x m = Rule_Match env y m) /\
  match asDefaultHeadless x, asDefaultHeadless y with
  | Some r, Some d => plain_rule r = plain_rule d
  | None, None => True
  | _, _ => False
  end.

Lemma default_equivalent r d : plain_rule r = plain_rule d -> equivalent (R_DefaultHeadless r) (R_DefaultHeadless d).
Proof. intros H. split; [|done]. intros env m. cbn [Rule_Match]. by rewrite <-plain_default, H, plain_default. Qed.

Lemma and_loop_equivalent env l l' m : Forall2 equivalent l l' -> forall g,
  and_loop (Rule_Match env) l m g = and_loop (Rule_Match env) l' m g.
Proof.
  induction 1 as [|x y l l' [Hx _] H IH]; intros g; [done|]. cbn [and_loop]. rewrite Hx.
  destruct (Rule_Match env y _) as [hit nested]. by destruct hit; cbn.
Qed.
Lemma or_loop_equivalent env l l' m : Forall2 equivalent l l' -> forall b g,
  or_loop (Rule_Match env) l m b g = or_loop (Rule_Match env) l' m b g.
Proof.
  induction 1 as [|x y l l' [Hx _] H IH]; intros b g; [done|]. cbn [or_loop]. rewrite Hx.
  destruct (Rule_Match env y _) as [hit nested]. destruct hit; [|done]. by destruct (_ =? 0).
Qed.
Lemma logical_equivalent l l' mode inv act : Forall2 equivalent l l' ->
  equivalent (R_LogicalHeadless (mkLogical l mode inv act)) (R_LogicalHeadless (mkLogical l' mode inv act)).
Proof.
  intros H. split; [|done]. intros env m. cbn [Rule_Match]. unfold abstractLogicalRule_Match. cbn [l_mode l_rules l_invert].
  by rewrite (and_loop_equivalent env l l' m H), (or_loop_equivalent env l l' m H).
Qed.

(** ** Equivalent rule-sets *)

Definition same_set (s s' : RuleSet (Rule Action)) : Prop :=
  rs_tag s = rs_tag s' /\ rs_metadata s = rs_metadata s' /\ Forall2 equivalent (rs_rules s) (rs_rules s').

Section Sets.
Context (env : RuleEnv).

Lemma matchAny_equivalent l l' m : Forall2 equivalent l l' -> forall b g,
  matchAny_loop (Rule_Match env) l m b g = matchAny_loop (Rule_Match env) l' m b g.
Proof.
  induction 1 as [|x y l l' [Hx _] H IH]; intros b g; [done|]. cbn [matchAny_loop]. rewrite Hx.
  destruct (Rule_Match env y _) as [hit nested]. destruct hit; [|done]. by destruct (_ =? 0).
Qed.
Lemma set_match_equivalent s s' m : same_set s s' ->
  RuleSet_Match (Rule_Match env) s m = RuleSet_Match (Rule_Match env) s' m.
Proof. intros (_ & _ & H). by apply matchAny_equivalent. Qed.
Lemma mergeable_equivalent s s' : same_set s s' ->
  match mergeableRule asDefaultHeadless s, mergeableRule asDefaultHeadless s' with
  | Some r, Some d => plain_rule r = plain_rule d
  | None, None => True
  | _, _ => False
  end.
Proof.
  intros (_ & _ & H). unfold mergeableRule, mergeableRuleIn. destruct H as [|x y l l' [_ Hx] H]; [done|].
  destruct H; [|done]. destruct (asDefaultHeadless x) as [r|], (asDefaultHeadless y) as [d|]; [|done..].
  assert (Hi : invert r = invert d /\ ruleSetItem r = ruleSetItem d) by (by injection Hx).
  destruct Hi as [-> ->]. by destruct (_ || _).
Qed.

Lemma outer_loop_equivalent it it' g od l l' m : Forall2 same_set l l' ->
  (forall m, nestedMetadata it m = nestedMetadata it' m) -> forall b gs,
  outer_loop env (Rule_Match env) asDefaultHeadless it g od l m b gs =
  outer_loop env (Rule_Match env) asDefaultHeadless it' g od l' m b gs.
Proof.
  intros H Hn. induction H as [|s s' l l' Hs H IH]; intros b gs; [done|]. cbn [outer_loop].
  pose proof (mergeable_equivalent s s' Hs) as Hm. rewrite (set_match_equivalent s s' _ Hs), <-Hn.
  destruct (mergeableRule _ s) as [r|], (mergeableRule _ s') as [d|]; [|done..|].
  - rewrite <-(plain_merge env r), Hm, plain_merge. destruct (evaluateForMerge env d _) as [[bg bm] nested].
    destruct (bm && _); [|done]. by destruct (_ =? 0).
  - destruct od; [|done]. destruct (RuleSet_Match _ s' _) as [hit nested]. destruct hit; [|done]. by destruct (_ =? 0).
Qed.

(** A rule-set item over other sets *)
Definition with_sets (it : RuleSetItem (Rule Action)) (l : list (RuleSet (Rule Action))) : RuleSetItem (Rule Action) :=
  mkRuleSetItem (tagList it) l (ipCidrMatchSource it) (ipCidrAcceptEmpty it).
Lemma item_equivalent it l l' m g : Forall2 same_set l l' ->
  matchWithOuterGroups env (Rule_Match env) asDefaultHeadless (with_sets it l) m g =
  matchWithOuterGroups env (Rule_Match env) asDefaultHeadless (with_sets it l') m g.
Proof. intros H. by apply outer_loop_equivalent. Qed.
End Sets.

(** ** Building *)

(** A block that builds from the compiled form what another builds from the source *)
Definition follows (b b' : Block (Action := Action)) : Prop :=
  forall r d r', plain_rule r = plain_rule d -> b r = Ok r' -> exists d', b' d = Ok d' /\ plain_rule r' = plain_rule d'.

Lemma follows_id : follows (fun r => Ok r) (fun r => Ok r).
Proof. intros r d r' H [= <-]. by exists d. Qed.
Lemma follows_push p it it' : plain_item it = plain_item it' -> follows (fun r => Ok (push p it r)) (fun r => Ok (push p it' r)).
Proof. intros Hit r d r' H [= <-]. eexists. split; [done|]. by rewrite !plain_push, Hit, H. Qed.
Lemma follows_chain bs bs' : Forall2 follows bs bs' -> follows (chain bs) (chain bs').
Proof.
  induction 1 as [|b b' bs bs' Hb H IH]; [apply follows_id|]. intros r d r' Hr. cbn [chain].
  destruct (b r) as [r1|e|s] eqn:E; [|done..]. rewrite ok_bind. intros Hc. destruct (Hb r d r1 Hr E) as (d1 & -> & H1).
  rewrite ok_bind. by apply (IH r1).
Qed.
Lemma elems_kept_list {A} (s : Slice A) : elems (kept s) = elems s.
Proof. by destruct s as [[|]|]. Qed.
Lemma has_kept {A} (s : Slice A) : has_elems (kept s) = has_elems s.
Proof. by destruct s as [[|]|]. Qed.
Lemma follows_list {A} (s s' : Slice A) p mk mk' : has_elems s' = has_elems s ->
  (has_elems s = true -> forall it, mk (elems s) = Ok it -> exists it', mk' (elems s') = Ok it' /\ plain_item it = plain_item it') ->
  follows (on_list s p mk) (on_list s' p mk').
Proof.
  intros He Hmk r d r' Hr. unfold on_list. rewrite He. destruct (has_elems s); [|intros [= <-]; by exists d].
  destruct (mk (elems s)) as [it|e|m]; [|done..]. rewrite ok_bind. intros H'.
  destruct (Hmk eq_refl it eq_refl) as (it' & -> & Hit). rewrite ok_bind. by apply (follows_push p it it' Hit r d r').
Qed.
Lemma follows_kept {A} (s : Slice A) p mk : follows (on_list s p mk) (on_list (kept s) p mk).
Proof. apply follows_list; [apply has_kept|]. intros _ it Hit. rewrite elems_kept_list. by exists it. Qed.
Lemma follows_flag b p it : follows (on_flag b p it) (on_flag b p it).
Proof. unfold on_flag. destruct b; [by apply follows_push|apply follows_id]. Qed.
Lemma follows_when b k k' : follows k k' -> follows (when b k) (when b k').
Proof. intros H. unfold when. destruct b; [done|apply follows_id]. Qed.

Context {VB : Varbin} {RF : RuleSetFormat}.
Context (version : Z) (Hversion : version <> RuleSetVersion1).

(** ** The source form *)

(** Options as a rule-set in source form gives them: no list is present and
    empty, and the fields of the compiled form are nil. *)
Definition compact {A} (s : Slice A) : Prop := is_nil s = negb (has_elems s).
Record source_form (o : HeadlessOptions) : Prop := {
  sf_strings : Forall compact [h_Network o; h_Domain o; h_DomainSuffix o; h_DomainKeyword o; h_DomainRegex o;
    h_SourceIPCIDR o; h_IPCIDR o; h_SourcePortRange o; h_PortRange o; h_ProcessName o; h_ProcessPath o; h_ProcessPathRegex o;
    h_PackageName o; h_PackageNameRegex o; h_WIFISSID o; h_WIFIBSSID o; h_AdGuardDomain o];
  sf_numbers : Forall compact [h_QueryType o; h_SourcePort o; h_Port o; h_NetworkType o];
  sf_interfaces : compact (h_NetworkInterfaceAddress o);
  sf_addresses : compact (h_DefaultInterfaceAddress o);
  sf_matcher : h_DomainMatcher o = None;
  sf_sets : h_SourceIPSet o = None /\ h_IPSet o = None;
  sf_adguard : h_AdGuardDomainMatcher o = None
}.
Fixpoint source_rule (rule : HeadlessRule) : Prop :=
  match rule with
  | H_Default o => source_form o
  | H_Logical _ rules _ => foldr (fun (o : HeadlessRule) P => source_rule o /\ P) True rules
  | H_Unknown _ => True
  | H_Untyped _ => False
  end.

(** ** Default rules *)

Lemma build_kept (l : list (option Prefixable)) : build_prefixes (kept_prefixes l) = build_prefixes l.
Proof. unfold build_prefixes, kept_prefixes. rewrite map_map. apply map_ext. intros p. apply Prefixable_law. Qed.
Lemma interfaces_kept (m : Entries Z) : NewNetworkInterfaceAddressItem (kept_interfaces m) = NewNetworkInterfaceAddressItem m.
Proof.
  unfold NewNetworkInterfaceAddressItem, kept_interfaces. f_equal.
  - generalize (∅ : gmap Z (list Prefix)). induction m as [|[k v] m IH]; intros g; [done|]. cbn [map fold_left fst snd].
    by rewrite build_kept.
  - do 3 f_equal. rewrite map_map. apply map_ext. intros [k v]. cbn [fst snd]. by rewrite build_kept.
Qed.

Lemma domain_follows o :
  h_DomainMatcher o = None ->
  follows (if has_elems (h_Domain o) || has_elems (h_DomainSuffix o) then domain_block (h_Domain o) (h_DomainSuffix o)
           else match h_DomainMatcher o with
                | Some matcher => on_flag true PDestinationAddress (I_Domain (NewRawDomainItem matcher))
                | None => fun rule => Ok rule
                end)
    (match kept_matcher version o with
     | Some matcher => on_flag true PDestinationAddress (I_Domain (NewRawDomainItem matcher))
     | None => fun rule => Ok rule
     end).
Proof.
  intros Hm. unfold kept_matcher, domain_block. rewrite Hm. destruct (_ || _); [|apply follows_id].
  replace (version =? RuleSetVersion1) with false by (symmetry; by apply Z.eqb_neq).
  intros r d r' Hr. unfold NewDomainItem. do 2 (case_bool_decide; [done|]). rewrite ok_bind. intros [= <-].
  eexists. split; [done|]. by rewrite !plain_push, Hr.
Qed.
Lemma set_follows s set p isSource ctx :
  set = None ->
  follows (if has_elems s then on_list s p (fun l => I_IPCIDR <$> caused ctx (NewIPCIDRItem isSource l))
           else match set with
                | Some s => on_flag true p (I_IPCIDR (NewRawIPCIDRItem isSource s))
                | None => fun rule => Ok rule
                end)
    (match kept_set s with
     | Some s => on_flag true p (I_IPCIDR (NewRawIPCIDRItem isSource s))
     | None => fun rule => Ok rule
     end).
Proof.
  intros ->. unfold kept_set, on_list. destruct (has_elems s); [|apply follows_id].
  unfold NewIPCIDRItem, build_set, caused. destruct (add_prefixes 0 IPSetBuilder_zero (elems s)) as [b|e|m]; [|done..].
  rewrite !ok_bind. destruct (IPSetBuilder_IPSet b) as [ips|e|m]; [|done..]. rewrite ok_bind.
  by apply follows_push.
Qed.

Lemma blocks_follow nm o : source_form o ->
  Forall2 follows
    (headless_domain_blocks o ++ headless_address_blocks o ++ headless_process_blocks o ++ headless_network_blocks nm o)
    (let o := compiled_options version o in
     headless_domain_blocks o ++ headless_address_blocks o ++ headless_process_blocks o ++ headless_network_blocks nm o).
Proof.
  intros [_ _ _ _ Hm [Hs1 Hs2] Ha]. cbv zeta.
  unfold headless_domain_blocks, headless_address_blocks, headless_process_blocks, headless_network_blocks.
  cbn [app compiled_options h_QueryType h_Network h_Domain h_DomainSuffix h_DomainKeyword h_DomainRegex h_SourceIPCIDR h_IPCIDR
       h_SourcePort h_SourcePortRange h_Port h_PortRange h_ProcessName h_ProcessPath h_ProcessPathRegex h_PackageName
       h_PackageNameRegex h_NetworkType h_NetworkIsExpensive h_NetworkIsConstrained h_WIFISSID h_WIFIBSSID
       h_NetworkInterfaceAddress h_DefaultInterfaceAddress h_DomainMatcher h_SourceIPSet h_IPSet h_AdGuardDomain
       h_AdGuardDomainMatcher has_elems orb].
  repeat apply Forall2_cons_2; try apply Forall2_nil_2;
    first [apply follows_kept|by apply domain_follows|by apply set_follows|idtac].
  - apply follows_when, follows_chain.
    repeat apply Forall2_cons_2; try apply Forall2_nil_2; first [apply follows_kept|apply follows_flag|idtac].
    + apply follows_list; [by destruct (h_NetworkInterfaceAddress o) as [[|]|]|]. intros _ it [= <-].
      eexists. split; [done|]. do 2 f_equal. rewrite <-interfaces_kept. f_equal.
      by destruct (h_NetworkInterfaceAddress o) as [[|]|].
    + apply follows_list; [by destruct (h_DefaultInterfaceAddress o) as [[|]|]|]. intros _ it [= <-].
      eexists. split; [done|]. do 2 f_equal. unfold NewDefaultInterfaceAddressItem. f_equal. rewrite <-build_kept.
      f_equal. by destruct (h_DefaultInterfaceAddress o) as [[|]|].
  - unfold kept_adguard, on_list. rewrite Ha. destruct (has_elems (h_AdGuardDomain o)); [|apply follows_id]. by apply follows_push.
Qed.

Lemma default_follows nm o r : source_form o -> NewDefaultHeadlessRule nm o = Ok r ->
  exists d, NewDefaultHeadlessRule nm (compiled_options version o) = Ok d /\ plain_rule r = plain_rule d.
Proof.
  intros Ho Hr. by apply (follows_chain _ _ (blocks_follow nm o Ho) (empty_rule (h_Invert o) None) (empty_rule (h_Invert o) None)).
Qed.

(** ** Validity and metadata *)

Lemma chain_each (bs : list (Block (Action := Action))) r r' n b :
  chain bs r = Ok r' -> bs !! n = Some b -> exists x y, b x = Ok y.
Proof.
  revert r n. induction bs as [|b' bs IH]; intros r n; [done|]. cbn [chain].
  destruct (b' r) as [r1|e|m] eqn:E; [|done..]. rewrite ok_bind. intros Hc. destruct n as [|n]; cbn; [|by apply (IH r1)].
  intros [= <-]. by exists r, r1.
Qed.
Lemma set_built s set p isSource ctx x y :
  (if has_elems s then on_list s p (fun l => I_IPCIDR <$> caused ctx (NewIPCIDRItem isSource l))
   else match set with
        | Some s => on_flag (Action := Action) true p (I_IPCIDR (NewRawIPCIDRItem isSource s))
        | None => fun rule => Ok rule
        end) x = Ok y -> is_nil (kept_set s) = negb (has_elems s).
Proof.
  unfold kept_set, on_list. destruct (has_elems s); [|done]. unfold NewIPCIDRItem, build_set, caused.
  destruct (add_prefixes 0 IPSetBuilder_zero (elems s)) as [b|e|m]; [|done..]. rewrite !ok_bind.
  by destruct (IPSetBuilder_IPSet b) as [ips|e|m].
Qed.
Lemma sets_built nm o r : NewDefaultHeadlessRule (Action := Action) nm o = Ok r ->
  is_nil (kept_set (h_SourceIPCIDR o)) = negb (has_elems (h_SourceIPCIDR o)) /\
  is_nil (kept_set (h_IPCIDR o)) = negb (has_elems (h_IPCIDR o)).
Proof.
  intros H. unfold NewDefaultHeadlessRule in H.
  destruct (chain_each _ _ _ 5 _ H eq_refl) as (x1 & y1 & H1). destruct (chain_each _ _ _ 6 _ H eq_refl) as (x2 & y2 & H2).
  split; eapply set_built; eassumption.
Qed.

Lemma compact_kept {A} (s : Slice A) : compact s -> is_nil (kept s) = is_nil s.
Proof. unfold compact. by destruct s as [[|]|]. Qed.
Lemma compact_fmap {A B} (f : list A -> list B) (s : Slice A) : compact s -> is_nil (f <$> kept s) = is_nil s.
Proof. unfold compact. by destruct s as [[|]|]. Qed.
Lemma is_nil_kept_matcher o : compact (h_Domain o) -> compact (h_DomainSuffix o) ->
  is_nil (kept_matcher version o) = is_nil (h_Domain o) && is_nil (h_DomainSuffix o).
Proof. unfold compact, kept_matcher. intros -> ->. by destruct (has_elems _), (has_elems _). Qed.
Lemma is_nil_kept_adguard o : compact (h_AdGuardDomain o) -> is_nil (kept_adguard o) = is_nil (h_AdGuardDomain o).
Proof. unfold compact, kept_adguard. intros ->. by destruct (has_elems _). Qed.

Lemma zero_compiled nm o r : source_form o -> NewDefaultHeadlessRule (Action := Action) nm o = Ok r ->
  headless_zero_but_ip (compiled_options version o) = headless_zero_but_ip o /\
  is_nil (h_IPSet (compiled_options version o)) = is_nil (h_IPCIDR o).
Proof.
  intros [Hs Hn Hi Hd Hm [Hs1 Hs2] Ha] [Hb1 Hb2]%sets_built.
  repeat match goal with H : Forall _ (_ :: _) |- _ => apply Forall_cons_iff in H as [? ?] end.
  assert (Hi' : is_nil (h_NetworkInterfaceAddress (compiled_options version o)) = is_nil (h_NetworkInterfaceAddress o))
    by exact (compact_fmap kept_interfaces (h_NetworkInterfaceAddress o) Hi).
  unfold compiled_options in Hi'. cbn [h_NetworkInterfaceAddress] in Hi'.
  unfold headless_zero_but_ip, compiled_options.
  cbn [h_QueryType h_Network h_Domain h_DomainSuffix h_DomainKeyword h_DomainRegex h_SourceIPCIDR h_IPCIDR
       h_SourcePort h_SourcePortRange h_Port h_PortRange h_ProcessName h_ProcessPath h_ProcessPathRegex h_PackageName
       h_PackageNameRegex h_NetworkType h_NetworkIsExpensive h_NetworkIsConstrained h_WIFISSID h_WIFIBSSID
       h_NetworkInterfaceAddress h_DefaultInterfaceAddress h_DomainMatcher h_SourceIPSet h_IPSet h_AdGuardDomain
       h_AdGuardDomainMatcher].
  rewrite Hi', Hm, Hs1, Ha, Hb1, Hb2, !compact_kept, !compact_fmap, is_nil_kept_matcher, is_nil_kept_adguard by done.
  replace (negb (has_elems (h_SourceIPCIDR o))) with (is_nil (h_SourceIPCIDR o)) by done.
  replace (negb (has_elems (h_IPCIDR o))) with (is_nil (h_IPCIDR o)) by done.
  split; [|done]. apply eq_true_iff_eq. rewrite !andb_true_iff. cbn [is_nil].
  intuition.
Qed.
Lemma valid_compiled nm o r : source_form o -> NewDefaultHeadlessRule (Action := Action) nm o = Ok r ->
  HeadlessOptions_IsValid (compiled_options version o) = HeadlessOptions_IsValid o.
Proof.
  intros Ho Hr. destruct (zero_compiled nm o r Ho Hr) as [Hz Hi]. unfold HeadlessOptions_IsValid. rewrite Hz, Hi.
  destruct (sf_sets o Ho) as [_ ->]. cbn. by rewrite !andb_true_r.
Qed.

(** The questions that the metadata of a rule-set answers *)
Definition metadata_conds : list (HeadlessOptions -> bool) :=
  [isProcessHeadlessRule; isWIFIHeadlessRule; isIPCIDRHeadlessRule; isDNSQueryTypeHeadlessRule; isNonIPCIDRHeadlessRule].
Lemma conds_compiled nm o r : source_form o -> NewDefaultHeadlessRule (Action := Action) nm o = Ok r ->
  Forall (fun cond : HeadlessOptions -> bool => cond (compiled_options version o) = cond o) metadata_conds.
Proof.
  intros Ho Hr. destruct (zero_compiled nm o r Ho Hr) as [Hz Hi]. destruct (sets_built nm o r Hr) as [_ Hb].
  destruct (sf_sets o Ho) as [_ Hs]. unfold metadata_conds. repeat apply Forall_cons_2; [..|apply Forall_nil_2].
  - unfold isProcessHeadlessRule, compiled_options. cbn. by rewrite !has_kept.
  - unfold isWIFIHeadlessRule, compiled_options. cbn. by rewrite !has_kept.
  - unfold isIPCIDRHeadlessRule. rewrite Hs. cbn [compiled_options h_IPCIDR h_IPSet has_elems is_nil negb orb].
    by rewrite Hb, negb_involutive, orb_false_r.
  - apply has_kept.
  - unfold isNonIPCIDRHeadlessRule. by rewrite Hz.
Qed.

(** ** Rules *)

Lemma headless_induction (P : HeadlessRule -> Prop) :
  (forall o, P (H_Default o)) -> (forall mode rules inv, Forall P rules -> P (H_Logical mode rules inv)) ->
  (forall type, P (H_Unknown type)) -> (forall o, P (H_Untyped o)) -> forall rule, P rule.
Proof.
  intros Hd Hl Hu Ht. fix IH 1. intros [o|mode rules inv|type|o]; [apply Hd| |apply Hu|apply Ht]. apply Hl.
  induction rules as [|rule rules IHl]; constructor; [apply IH|exact IHl].
Qed.

(** What building a rule from its compiled form gives *)
Definition builds_alike (nm : bool) (rule : HeadlessRule) : Prop := forall r : Rule Action, NewHeadlessRule nm rule = Ok r ->
  HeadlessRule_IsValid (compiled version rule) = HeadlessRule_IsValid rule /\
  Forall (fun cond => HasHeadlessRule_in cond (compiled version rule) = HasHeadlessRule_in cond rule) metadata_conds /\
  exists d : Rule Action, NewHeadlessRule nm (compiled version rule) = Ok d /\ equivalent r d.

Lemma build_alike nm ctx rules : Forall (builds_alike nm) rules -> forall i rs,
  build_rules (NewHeadlessRule (Action := Action) nm) ctx i rules = Ok rs ->
  all_res HeadlessRule_IsValid (map (compiled version) rules) = all_res HeadlessRule_IsValid rules /\
  Forall (fun cond => HasHeadlessRule (map (compiled version) rules) cond = HasHeadlessRule rules cond) metadata_conds /\
  exists ds, build_rules (NewHeadlessRule nm) ctx i (map (compiled version) rules) = Ok ds /\ Forall2 equivalent rs ds.
Proof.
  induction 1 as [|rule rules Hr H IH]; intros i rs; cbn [map build_rules].
  { intros [= <-]. split_and!; [done| |by exists []]. by apply list.Forall_forall. }
  unfold wrap_err at 1. destruct (NewHeadlessRule nm rule) as [r|e|m] eqn:Er; [|done..]. rewrite ok_bind.
  destruct (build_rules _ ctx (i + 1) rules) as [rs'|e|m] eqn:Ers; [|done..]. rewrite ok_bind. intros [= <-].
  destruct (Hr r Er) as (Hv & Hc & d & Hd & Hrd). destruct (IH (i + 1) rs' Ers) as (Hvs & Hcs & ds & Hds & Hrds). split_and!.
  - cbn [all_res]. by rewrite Hv, Hvs.
  - rewrite list.Forall_forall in *. intros cond Hin. unfold HasHeadlessRule. cbn [map existsb]. rewrite Hc by done. f_equal. by apply Hcs.
  - exists (d :: ds). split; [|by constructor]. rewrite Hd. unfold wrap_err at 1. by rewrite ok_bind, Hds, ok_bind.
Qed.

Lemma source_all rules : foldr (fun (o : HeadlessRule) P => source_rule o /\ P) True rules -> Forall source_rule rules.
Proof. induction rules as [|o rules IH]; cbn; [constructor|]. intros [H1 H2]. constructor; auto. Qed.

Lemma rule_alike nm rule : source_rule rule -> builds_alike nm rule.
Proof.
  induction rule as [o|mode rules inv IH|type|o] using headless_induction; [..|done|done]; intros Hs r.
  - cbn [NewHeadlessRule]. destruct (HeadlessOptions_IsValid o) eqn:Hvalid; [|done]. cbn [negb].
    destruct (NewDefaultHeadlessRule nm o) as [r0|e|m] eqn:Hr; [|done..]. intros [= <-].
    pose proof (valid_compiled nm o r0 Hs Hr) as Hv. split_and!.
    + cbn. by rewrite Hv.
    + exact (conds_compiled nm o r0 Hs Hr).
    + destruct (default_follows nm o r0 Hs Hr) as (d & Hd & Hp). exists (R_DefaultHeadless d). cbn [NewHeadlessRule compiled].
      rewrite Hv, Hvalid, Hd. split; [done|]. by apply default_equivalent.
  - apply source_all in Hs. assert (Hall : Forall (builds_alike nm) rules).
    { rewrite list.Forall_forall in *. intros x Hx. by apply IH, Hs. }
    cbn [NewHeadlessRule]. destruct (HeadlessRule_IsValid (H_Logical mode rules inv)) as [v|e|m] eqn:Hvalid; [|done..].
    rewrite ok_bind. destruct v; [|done]. cbn [negb]. destruct (logical_mode mode) as [mode'|e|m] eqn:Hm; [|done..].
    rewrite ok_bind. destruct (build_rules _ sub_rule 0 rules) as [rs|e|m] eqn:Hrs; [|done..]. rewrite ok_bind. intros [= <-].
    destruct (build_alike nm sub_rule rules Hall 0 rs Hrs) as (Hv & Hc & ds & Hds & Heq).
    assert (Hv' : HeadlessRule_IsValid (compiled version (H_Logical mode rules inv)) = HeadlessRule_IsValid (H_Logical mode rules inv)).
    { cbn [compiled HeadlessRule_IsValid]. destruct rules as [|x rules]; [done|]. exact Hv. }
    split_and!; [congruence|exact Hc|]. eexists. cbn [compiled NewHeadlessRule]. cbn [compiled] in Hv'.
    rewrite Hv', Hvalid, ok_bind. cbn [negb]. rewrite Hm, ok_bind, Hds, ok_bind. split; [done|]. by apply logical_equivalent.
Qed.

(** A rule-set reloaded from the compiled rules *)
Lemma reload_alike {W} nm validate (callbacks : list (RuleSet (Rule Action) -> W -> W)) s rules w s1 w1 :
  Forall source_rule rules -> reloadRules nm validate callbacks s rules w = Ok (s1, w1) ->
  exists s2 w2, reloadRules nm validate callbacks s (map (compiled version) rules) w = Ok (s2, w2) /\ same_set s1 s2.
Proof.
  intros Hs. unfold reloadRules. destruct (build_rules _ _ 0 rules) as [rs|e|m] eqn:Hrs; [|done..]. rewrite ok_bind.
  assert (Hall : Forall (builds_alike nm) rules) by (eapply Forall_impl; [|exact Hs]; intros; by apply rule_alike).
  destruct (build_alike nm _ rules Hall 0 rs Hrs) as (_ & Hc & ds & -> & Heq). rewrite ok_bind.
  unfold metadata_conds in Hc. repeat match goal with H : Forall _ (_ :: _) |- _ => apply Forall_cons_iff in H as [? ?] end.
  assert (Hmeta : buildRuleSetMetadata (map (compiled version) rules) = buildRuleSetMetadata rules)
    by (unfold buildRuleSetMetadata; congruence).
  rewrite Hmeta. destruct (validate _ _) as [u|e|m]; [|done..]. rewrite !ok_bind. intros [= <- <-].
  eexists _, _. split; [done|]. by split_and!.
Qed.
End Matching.
