(* ===== verification/Geosite.v ===== *)
(** * Geosite databases

    [common/geosite]: lists of domains by code in one file, and the headless
    rules that [libcore/geosite.go] makes of them.  A file is a table of codes with
    the place and the number of their items, and the items after it; the reader
    keeps the table and seeks to the items of a code. *)

From stdpp Require Import base numbers list strings gmap option sorting.
From Stdlib Require Import ZArith Lia.
From S2P Require Import Prelude Bytes NetAddr Metadata RuleItems RuleCore RuleBuild Varbin Srs SrsRoundtrip.

Local Open Scope Z_scope.

Definition MaxInt32 : Z := 2147483647.

(** ** Items *)

Definition RuleTypeDomain : Z := 0.
Definition RuleTypeDomainSuffix : Z := 1.
Definition RuleTypeDomainKeyword : Z := 2.
Definition RuleTypeDomainRegex : Z := 3.

Record Item := mkItem { it_Type : Z; it_Value : string }.

(** The fields of [option.DefaultRule] that [Compile] and [Merge] fill *)
Record DomainRule := mkDomainRule {
  dr_Domain : Slice string;
  dr_DomainSuffix : Slice string;
  dr_DomainKeyword : Slice string;
  dr_DomainRegex : Slice string
}.

(** [make([]string, 0, n)] when [n > 0], and [append] *)
Definition make_if (n : Z) : Slice string := if 0 <? n then Some [] else None.
Definition append_to (s : Slice string) (l : list string) : Slice string :=
  match l with [] => s | _ => Some (elems s ++ l) end.

(** [Compile]: the two loops over the items *)
Definition count_item (n : Z * Z * Z * Z) (item : Item) : Z * Z * Z * Z :=
  let '(d, s, k, r) := n in
  if it_Type item =? RuleTypeDomain then (d + 1, s, k, r)
  else if it_Type item =? RuleTypeDomainSuffix then (d, s + 1, k, r)
  else if it_Type item =? RuleTypeDomainKeyword then (d, s, k + 1, r)
  else if it_Type item =? RuleTypeDomainRegex then (d, s, k, r + 1)
  else n.
Definition count_items (code : list Item) : Z * Z * Z * Z := fold_left count_item code (0, 0, 0, 0).
Definition add_item (rule : DomainRule) (item : Item) : DomainRule :=
  let '(mkDomainRule d s k r) := rule in
  let v := [it_Value item] in
  if it_Type item =? RuleTypeDomain then mkDomainRule (append_to d v) s k r
  else if it_Type item =? RuleTypeDomainSuffix then mkDomainRule d (append_to s v) k r
  else if it_Type item =? RuleTypeDomainKeyword then mkDomainRule d s (append_to k v) r
  else if it_Type item =? RuleTypeDomainRegex then mkDomainRule d s k (append_to r v)
  else rule.
Definition Compile (code : list Item) : DomainRule :=
  let '(d, s, k, r) := count_items code in
  fold_left add_item code (mkDomainRule (make_if d) (make_if s) (make_if k) (make_if r)).

(** [Merge] *)
Definition sum_lens (f : DomainRule -> Slice string) (rules : list DomainRule) : Z :=
  fold_left (fun n rule => n + len (elems (f rule))) rules 0.
Definition Merge (rules : list DomainRule) : DomainRule :=
  fold_left (fun rule subRule =>
      mkDomainRule (append_to (dr_Domain rule) (elems (dr_Domain subRule)))
        (append_to (dr_DomainSuffix rule) (elems (dr_DomainSuffix subRule)))
        (append_to (dr_DomainKeyword rule) (elems (dr_DomainKeyword subRule)))
        (append_to (dr_DomainRegex rule) (elems (dr_DomainRegex subRule))))
    rules
    (mkDomainRule (make_if (sum_lens dr_Domain rules)) (make_if (sum_lens dr_DomainSuffix rules))
       (make_if (sum_lens dr_DomainKeyword rules)) (make_if (sum_lens dr_DomainRegex rules))).

(** ** Writing *)

Section Geosite.
Context {SH : SliceHelpers} {GS : GoStd} {TP : ThirdParty} {VB : Varbin} {RF : RuleSetFormat}.

Definition writeString (value : string) : bytes := WriteUvarint (len (string_bytes value)) ++ string_bytes value.
Definition write_item (item : Item) : bytes := it_Type item :: writeString (it_Value item).

Abbreviation Domains := (gmap string (list Item)).
Definition items_at (domains : Domains) (code : string) : list Item := default [] (domains !! code).

(** The content and the place of the items of each code *)
Definition write_content (domains : Domains) (keys : list string) : bytes * gmap string Z :=
  fold_left (fun '(content, index) code =>
      (content ++ concat (map write_item (items_at domains code)), <[code := len content]> index))
    keys ([], ∅).
Definition sorted_keys (domains : Domains) : list string := merge_sort String.le (map_to_list domains).*1.

(** [Write] *)
Definition Geosite_Write (domains : Domains) : bytes :=
  let keys := sorted_keys domains in
  let '(content, index) := write_content domains keys in
  [0] ++ WriteUvarint (len keys) ++
  concat (map (fun code => writeString code ++ WriteUvarint (default 0 (index !! code)) ++
                           WriteUvarint (len (items_at domains code))) keys) ++
  content.

(** ** Reading *)

Definition readString {ST : Stream} : Reader string :=
  length ← ReadUvarint;
  result ← read_times length (fun _ => ReadByte);
  mret (bytes_string result).

(** A [Reader]: the file, where the metadata ends, and the table *)
Record GeositeReader := mkGeositeReader {
  gr_file : bytes;
  metadataIndex : Z;
  domainIndex : gmap string Z;
  domainLength : gmap string Z
}.

(** An entry of the table *)
Definition read_entry {ST : Stream} : Reader (string * Z * Z) :=
  code ← readString;
  codeIndex ← ReadUvarint;
  codeLength ← ReadUvarint;
  if (MaxInt32 <? codeIndex) || (MaxInt32 <? codeLength)
  then fail (E_New [AStr "invalid metadata entry: "; AStr code])
  else mret (code, codeIndex, codeLength).
Definition read_metadata {ST : Stream} : Reader (list (string * Z * Z)) :=
  version ← ReadByte;
  if negb (version =? 0) then fail (E_New [AStr "unknown version"])
  else entryLength ← ReadUvarint; read_times entryLength (fun _ => read_entry).

(** [readMetadata]: what was taken from the file is the place of the first item. *)
Definition readMetadata (file : bytes) : Res GeositeReader :=
  '(entries, rest) ← read_metadata (ST := file_stream) file;
  Ok (mkGeositeReader file (len file - len rest)
        (fold_left (fun m '(code, index, _) => <[code := index]> m) entries ∅)
        (fold_left (fun m '(code, _, length) => <[code := length]> m) entries ∅)).

(** [NewReader]; the codes come in the order of the map. *)
Definition NewReader (file : bytes) : Res (GeositeReader * list string) :=
  reader ← readMetadata file; Ok (reader, (map_to_list (domainIndex reader)).*1).

(** [(r *Reader) Read]; seeking beyond the end leaves nothing to read. *)
Definition read_item {ST : Stream} : Reader Item :=
  typeByte ← ReadByte; value ← readString; mret (mkItem typeByte value).
Definition Reader_Read (r : GeositeReader) (code : string) : Res (Slice Item) :=
  match domainIndex r !! code with
  | None => Err (E_New [AStr "code "; AStr code; AStr " not exists!"])
  | Some index =>
      '(itemList, _) ← read_times (default 0 (domainLength r !! code)) (fun _ => read_item (ST := file_stream))
                        (drop (Z.to_nat (metadataIndex r + index)) (gr_file r));
      Ok (slice_of itemList)
  end.

(** ** Rules of a code *)

(** [(g *geosite) Rules] of [libcore/geosite.go]; an error made with [%w] wraps as
    [E.Cause] does. *)
Definition domain_options (rule : DomainRule) : HeadlessOptions :=
  mkHeadlessOptions None None (dr_Domain rule) (dr_DomainSuffix rule) (dr_DomainKeyword rule) (dr_DomainRegex rule)
    None None None None None None None None None None None None false false None None None None false None None None None None.
Definition geosite_Rules (reader : GeositeReader) (code : string) : Res (list HeadlessRule) :=
  sourceSet ← wrap_err (Reader_Read reader code) [AStr "failed to read geosite code "; AStr code; AStr " :"];
  Ok [H_Default (domain_options (Compile (elems sourceSet)))].

(** [GetGeoSiteHeadlessRules]; [open] is the content of geosite.db, or the
    error of opening it. *)
Definition GetGeoSiteHeadlessRules (open : Res bytes) (name : string) : Res (list HeadlessRule) :=
  file ← open; '(reader, _) ← NewReader file; geosite_Rules reader name.

(** ** What [Compile] and [Merge] compute *)

(** The values of a type, in order *)
Definition values (t : Z) (code : list Item) : list string :=
  map it_Value (List.filter (fun item => it_Type item =? t) code).

Lemma append_make l : append_to (make_if (len l)) l = slice_of l.
Proof. destruct l; [done|]. unfold make_if, len. cbn [length]. by destruct (Z.ltb_spec 0 (Z.of_nat (S (length l)))); [|lia]. Qed.
Lemma append_append s a b : append_to (append_to s a) b = append_to s (a ++ b).
Proof. destruct a as [|x a]; [done|]. destruct b as [|y b]; cbn; [by rewrite app_nil_r|]. by rewrite <-app_assoc. Qed.
Lemma len_cons {A} (a : A) l : len (a :: l) = len l + 1.
Proof. unfold len. cbn [length]. lia. Qed.
Lemma values_cons t item code :
  values t (item :: code) = (if it_Type item =? t then [it_Value item] else []) ++ values t code.
Proof. unfold values. cbn. by destruct (_ =? t). Qed.

Lemma add_items code d s k r :
  fold_left add_item code (mkDomainRule d s k r) =
  mkDomainRule (append_to d (values RuleTypeDomain code)) (append_to s (values RuleTypeDomainSuffix code))
    (append_to k (values RuleTypeDomainKeyword code)) (append_to r (values RuleTypeDomainRegex code)).
Proof.
  revert d s k r. induction code as [|item code IH]; intros d s k r; [done|]. cbn [fold_left]. rewrite !values_cons, <-!append_append.
  unfold add_item. destruct (Z.eqb_spec (it_Type item) RuleTypeDomain) as [->|]; [by rewrite IH|].
  destruct (Z.eqb_spec (it_Type item) RuleTypeDomainSuffix) as [->|]; [by rewrite IH|].
  destruct (Z.eqb_spec (it_Type item) RuleTypeDomainKeyword) as [->|]; [by rewrite IH|].
  destruct (Z.eqb_spec (it_Type item) RuleTypeDomainRegex) as [|]; by rewrite IH.
Qed.
Lemma count_items_values code : count_items code =
  (len (values RuleTypeDomain code), len (values RuleTypeDomainSuffix code), len (values RuleTypeDomainKeyword code),
   len (values RuleTypeDomainRegex code)).
Proof.
  unfold count_items. assert (H : forall d s k r, fold_left count_item code (d, s, k, r) =
    (d + len (values RuleTypeDomain code), s + len (values RuleTypeDomainSuffix code),
     k + len (values RuleTypeDomainKeyword code), r + len (values RuleTypeDomainRegex code))); [|exact (H 0 0 0 0)].
  induction code as [|item code IH]; intros d s k r; [cbn; unfold len; cbn; by rewrite !Z.add_0_r|]. cbn [fold_left].
  rewrite !values_cons. unfold count_item at 2.
  destruct (Z.eqb_spec (it_Type item) RuleTypeDomain) as [->|];
    [|destruct (Z.eqb_spec (it_Type item) RuleTypeDomainSuffix) as [->|];
      [|destruct (Z.eqb_spec (it_Type item) RuleTypeDomainKeyword) as [->|];
        [|destruct (Z.eqb_spec (it_Type item) RuleTypeDomainRegex) as [|]]]];
    rewrite IH; cbn [Z.eqb Pos.eqb app RuleTypeDomain RuleTypeDomainSuffix RuleTypeDomainKeyword RuleTypeDomainRegex];
    rewrite ?len_cons; (apply (f_equal2 pair); [apply (f_equal2 pair); [apply (f_equal2 pair)|]|]); lia.
Qed.

Lemma Compile_values code : Compile code =
  mkDomainRule (slice_of (values RuleTypeDomain code)) (slice_of (values RuleTypeDomainSuffix code))
    (slice_of (values RuleTypeDomainKeyword code)) (slice_of (values RuleTypeDomainRegex code)).
Proof. unfold Compile. by rewrite count_items_values, add_items, !append_make. Qed.

(** Merging takes the values of each field together. *)
Definition all_elems (f : DomainRule -> Slice string) (rules : list DomainRule) : list string := concat (map (fun r => elems (f r)) rules).
Lemma sum_lens_all f rules : sum_lens f rules = len (all_elems f rules).
Proof.
  unfold sum_lens, all_elems. assert (H : forall n, fold_left (fun n rule => n + len (elems (f rule))) rules n =
    n + len (concat (map (fun r => elems (f r)) rules))); [|exact (H 0)].
  induction rules as [|r rules IH]; intros n; cbn [fold_left map concat]; [unfold len; cbn; lia|].
  rewrite IH. unfold len. rewrite length_app. lia.
Qed.
Lemma Merge_elems rules : Merge rules =
  mkDomainRule (slice_of (all_elems dr_Domain rules)) (slice_of (all_elems dr_DomainSuffix rules))
    (slice_of (all_elems dr_DomainKeyword rules)) (slice_of (all_elems dr_DomainRegex rules)).
Proof.
  unfold Merge. rewrite !sum_lens_all, <-!append_make.
  generalize (make_if (len (all_elems dr_Domain rules))) (make_if (len (all_elems dr_DomainSuffix rules)))
    (make_if (len (all_elems dr_DomainKeyword rules))) (make_if (len (all_elems dr_DomainRegex rules))).
  unfold all_elems. induction rules as [|r rules IH]; intros d s k x; [done|]. cbn [fold_left map concat]. rewrite IH.
  cbn [dr_Domain dr_DomainSuffix dr_DomainKeyword dr_DomainRegex]. by rewrite !append_append.
Qed.
Lemma elems_slice_of {A} (l : list A) : elems (slice_of l) = l.
Proof. by destruct l. Qed.

(** Compiling lists of items one by one and merging is compiling them together. *)
Theorem compile_merge codes : Merge (map Compile codes) = Compile (concat codes).
Proof.
  rewrite Merge_elems, Compile_values. unfold all_elems. rewrite !map_map.
  assert (H : forall t f, (forall c, elems (f (Compile c)) = values t c) ->
    concat (map (fun c => elems (f (Compile c))) codes) = values t (concat codes)).
  { intros t f Hf. induction codes as [|c codes IH]; [done|]. cbn [map concat]. rewrite IH, Hf. unfold values.
    by rewrite List.filter_app, map_app. }
  rewrite (H RuleTypeDomain dr_Domain), (H RuleTypeDomainSuffix dr_DomainSuffix), (H RuleTypeDomainKeyword dr_DomainKeyword),
    (H RuleTypeDomainRegex dr_DomainRegex); [done|..]; intros c; rewrite Compile_values; apply elems_slice_of.
Qed.

(** ** Reading back what was written *)

Definition item_fits (item : Item) : Prop := is_byte (it_Type item) /\ string_fits (it_Value item).
Record domains_fit (domains : Domains) : Prop := {
  df_codes : forall code items, domains !! code = Some items ->
    string_fits code /\ len items <= MaxInt32 /\ Forall item_fits items;
  df_size : len (sorted_keys domains) < 2 ^ 64;
  df_content : len (write_content domains (sorted_keys domains)).1 <= MaxInt32
}.

Section Reads.
Context {ST : Stream}.

Lemma concat_singletons (l : bytes) : concat (map (fun b => [b]) l) = l.
Proof. induction l as [|b l IH]; [done|]. cbn. by rewrite IH. Qed.
Lemma reads_geo_string s : string_fits s -> reads readString (writeString s) s.
Proof.
  intros Hs. unfold readString, writeString. eapply reads_bind; [by apply reads_len|].
  rewrite <-(bytes_string_bytes s) at 3. apply (reads_fmap _ bytes_string).
  rewrite <-(concat_singletons (string_bytes s)) at 2. rewrite <-(map_id (string_bytes s)) at 3.
  apply (reads_times (fun b : Z => [b]) (fun b : Z => b)); [intros; apply reads_byte|]. apply list.Forall_forall. cbn. lia.
Qed.
Lemma reads_geo_item item : item_fits item -> reads read_item (write_item item) item.
Proof.
  intros [_ Hv]. destruct item as [t v]. unfold read_item, write_item. cbn [it_Type it_Value] in *. change (t :: ?w) with ([t] ++ w).
  apply (reads_bind _ _ _ _ t); [apply reads_byte|]. apply (reads_fmap _ (mkItem t)). by apply reads_geo_string.
Qed.
Lemma reads_items l : Forall item_fits l -> reads (read_times (len l) (fun _ => read_item)) (concat (map write_item l)) l.
Proof.
  intros Hl. rewrite <-(map_id l) at 3. apply reads_times; rewrite list.Forall_forall in *.
  - intros i item Hi. by apply reads_geo_item, Hl.
  - intros item _. cbn. lia.
Qed.

Lemma small_uvarint v : 0 <= v <= MaxInt32 -> reads ReadUvarint (WriteUvarint v) v.
Proof. intros Hv. unfold MaxInt32 in Hv. rewrite WriteUvarint_law by (unfold in_width; lia). apply reads_uvarint. unfold in_width. lia. Qed.
Lemma reads_entry code index n : string_fits code -> 0 <= index <= MaxInt32 -> 0 <= n <= MaxInt32 ->
  reads read_entry (writeString code ++ WriteUvarint index ++ WriteUvarint n) (code, index, n).
Proof.
  intros Hc Hi Hn. apply (reads_bind _ _ _ _ code); [by apply reads_geo_string|].
  apply (reads_bind _ _ _ _ index); [by apply small_uvarint|].
  rewrite <-(app_nil_r (WriteUvarint n)). apply (reads_bind _ _ _ _ n); [by apply small_uvarint|].
  replace (_ || _) with false; [apply reads_ret|]. symmetry. apply orb_false_iff. split; apply Z.ltb_ge; lia.
Qed.
End Reads.

(** Where the items of a code are *)
Lemma write_content_at domains keys : NoDup keys -> forall code, code ∈ keys ->
  exists off, (write_content domains keys).2 !! code = Some off /\ 0 <= off <= len (write_content domains keys).1 /\
    exists rest, drop (Z.to_nat off) (write_content domains keys).1 = concat (map write_item (items_at domains code)) ++ rest.
Proof.
  induction keys as [|k keys IH] using rev_ind; intros Hn code Hc; [set_solver|].
  apply list.NoDup_app in Hn as (Hn & Hk & _). unfold write_content. rewrite fold_left_app.
  fold (write_content domains keys). specialize (IH Hn). destruct (write_content domains keys) as [content index] eqn:E.
  cbn [fold_left fst snd] in *. destruct (decide (code = k)) as [->|Hne].
  - exists (len content). split_and!; [by simplify_map_eq| | |].
    + unfold len. lia.
    + unfold len. rewrite length_app. lia.
    + exists []. unfold len. by rewrite Nat2Z.id, drop_app_length, app_nil_r.
  - destruct (IH code) as (off & Hi & Ho & rest & Hr); [set_solver|]. exists off. unfold len in *. split_and!.
    + by rewrite lookup_insert_ne.
    + lia.
    + rewrite length_app. lia.
    + eexists. rewrite drop_app_le by lia. by rewrite Hr, <-app_assoc.
Qed.

Lemma sorted_keys_spec domains : NoDup (sorted_keys domains) /\ forall code, code ∈ sorted_keys domains <-> is_Some (domains !! code).
Proof.
  unfold sorted_keys. split.
  - rewrite merge_sort_Permutation. apply NoDup_fst_map_to_list.
  - intros code. rewrite merge_sort_Permutation, list_elem_of_fmap. split.
    + intros ([k v] & -> & H). apply elem_of_map_to_list in H. by exists v.
    + intros [v H]. exists (code, v). split; [done|]. by apply elem_of_map_to_list.
Qed.
Lemma table_lookup {V} (entry : string -> string * Z * Z) (put : gmap string V -> string * Z * Z -> gmap string V) (f : string -> V) keys :
  (forall m code, put m (entry code) = <[code := f code]> m) -> forall m c,
  fold_left put (map entry keys) m !! c = if bool_decide (c ∈ keys) then Some (f c) else m !! c.
Proof.
  intros Hput. induction keys as [|k keys IH]; intros m c; [done|]. cbn [map fold_left]. rewrite IH, Hput.
  destruct (decide (c = k)) as [->|Hne].
  - rewrite lookup_insert_eq, (bool_decide_true (k ∈ k :: keys)) by set_solver. by case_bool_decide.
  - rewrite lookup_insert_ne by done. repeat case_bool_decide; set_solver.
Qed.

(** The file of [Write], opened *)
Lemma open_written domains : domains_fit domains ->
  exists reader, readMetadata (Geosite_Write domains) = Ok reader /\
    (forall code, is_Some (domainIndex reader !! code) <-> is_Some (domains !! code)) /\
    (forall code items, domains !! code = Some items -> Reader_Read reader code = Ok (slice_of items)).
Proof.
  intros Hfit. destruct (sorted_keys_spec domains) as [Hnd Hin]. unfold Geosite_Write.
  pose proof (write_content_at domains (sorted_keys domains) Hnd) as Hat. pose proof (df_content domains Hfit) as Hcontent.
  destruct (write_content domains (sorted_keys domains)) as [content index]. cbn [fst snd] in *.
  set (entry code := (code, default 0 (index !! code), len (items_at domains code))).
  set (wr := fun code => writeString code ++ WriteUvarint (default 0 (index !! code)) ++ WriteUvarint (len (items_at domains code))).
  assert (Hmeta : reads (read_metadata (ST := file_stream))
                    ([0] ++ WriteUvarint (len (sorted_keys domains)) ++ concat (map wr (sorted_keys domains)))
                    (map entry (sorted_keys domains))).
  { apply (reads_bind _ _ _ _ 0); [apply reads_byte|]. cbn [Z.eqb negb].
    apply (reads_bind _ _ _ _ (len (sorted_keys domains))); [apply reads_len, Hfit|].
    apply reads_times; [|apply list.Forall_forall; intros code Hc; unfold wr, writeString].
    - intros i code Hc. destruct (Hat code Hc) as (off & Ho & Hb & _). apply Hin in Hc as [items Hitems].
      destruct (df_codes domains Hfit code items Hitems) as (Hs & Hl & _). unfold wr, entry, items_at. rewrite Ho, Hitems. cbn [default from_option id].
      apply reads_entry; [done| |unfold len; unfold len in Hl]; lia.
    - rewrite <-app_assoc. apply WriteUvarint_nonempty. apply Hin in Hc as [items Hitems]. by apply (df_codes domains Hfit code items). }
  unfold readMetadata. specialize (Hmeta content). rewrite <-!app_assoc in Hmeta. rewrite Hmeta, ok_bind.
  eexists. split; [done|]. cbn [domainIndex]. split.
  - intros code. rewrite (table_lookup entry _ (fun code => default 0 (index !! code))) by done. rewrite lookup_empty.
    rewrite <-Hin. case_bool_decide; [by split|]. split; [by intros []|done].
  - intros code items Hitems. assert (Hc : code ∈ sorted_keys domains) by (apply Hin; by exists items).
    destruct (Hat code Hc) as (off & Ho & Hb & rest & Hdrop). unfold Reader_Read. cbn [domainIndex domainLength metadataIndex gr_file].
    rewrite (table_lookup entry _ (fun code => default 0 (index !! code))) by done.
    rewrite (table_lookup entry _ (fun code => len (items_at domains code))) by done.
    rewrite bool_decide_true, Ho by done. cbn [default from_option id].
    set (head := [0] ++ WriteUvarint (len (sorted_keys domains)) ++ concat (map wr (sorted_keys domains))).
    assert (Hfile : 0 :: WriteUvarint (len (sorted_keys domains)) ++ concat (map wr (sorted_keys domains)) ++ content = head ++ content)
      by (unfold head; by rewrite <-!app_assoc).
    cbn [app]. rewrite Hfile. replace (Z.to_nat _) with (length head + Z.to_nat off)%nat
      by (unfold len; rewrite length_app; lia).
    rewrite drop_app_add, Hdrop. unfold items_at. rewrite Hitems. cbn [default from_option id].
    rewrite (reads_items (ST := file_stream) items); [done|]. by apply (df_codes domains Hfit code items).
Qed.

(** C21: A geosite database that was written from a map of codes is opened again with
    the codes of the map, and each code gives its rule: the domains, suffixes,
    keywords and regular expressions of its items in their order.  A code that is
    not in the map is an error. *)
Theorem geosite_roundtrip domains : domains_fit domains ->
  exists reader codes, NewReader (Geosite_Write domains) = Ok (reader, codes) /\
    (forall code, code ∈ codes <-> is_Some (domains !! code)) /\
    forall code, match domains !! code with
                 | Some items => geosite_Rules reader code =
                     Ok [H_Default (domain_options (mkDomainRule
                       (slice_of (values RuleTypeDomain items)) (slice_of (values RuleTypeDomainSuffix items))
                       (slice_of (values RuleTypeDomainKeyword items)) (slice_of (values RuleTypeDomainRegex items))))]
                 | None => exists e, geosite_Rules reader code = Err e
                 end.
Proof.
  intros Hfit. destruct (open_written domains Hfit) as (reader & Hr & Hcodes & Hitems). exists reader. eexists.
  unfold NewReader. rewrite Hr, ok_bind. split; [done|]. split.
  - intros code. rewrite list_elem_of_fmap, <-Hcodes. split.
    + intros ([k v] & -> & H). apply elem_of_map_to_list in H. by exists v.
    + intros [v H]. exists (code, v). split; [done|]. by apply elem_of_map_to_list.
  - intros code. unfold geosite_Rules. destruct (domains !! code) as [items|] eqn:Hcode.
    + rewrite (Hitems code items Hcode). unfold wrap_err. rewrite ok_bind, Compile_values. do 3 f_equal. by destruct items.
    + unfold Reader_Read. destruct (domainIndex reader !! code) as [i|] eqn:Hi; [|by eexists].
      exfalso. assert (Hs : is_Some (domains !! code)) by (apply Hcodes; by exists i). rewrite Hcode in Hs. by destruct Hs.
Qed.
End Geosite.
