(* ===== verification/RuleSets.v ===== *)
(** * Rule-sets

    [LocalRuleSet], [RemoteRuleSet] and [RuleSetUpdater] of [route/rule]: how
    the rules of a rule-set are loaded from inline options, geo databases, files
    and the network, what is saved of a download, and when downloads are
    repeated; [SavedBinary] of [adapter] and the rule-set bucket of the cache
    file.  References are counted in RuleStart.

    Files, HTTP and the database are outside: a call gets their results as
    arguments.  A time is its nanoseconds since the zero time. *)

From stdpp Require Import base numbers list strings gmap option.
From Stdlib Require Import ZArith Lia.
From S2P Require Import Prelude Bytes NetAddr Metadata RuleItems RuleCore RuleBuild RuleStart Varbin Srs SrsRoundtrip SrsMatch Geosite.

Local Open Scope Z_scope.

(** ** Times *)

Definition Second : Z := 1000000000.
Definition Hour : Z := 3600 * Second.
(** Seconds from the zero time to the Unix epoch *)
Definition unix_epoch : Z := 62135596800.
Definition Time_IsZero (t : Z) : bool := t =? 0.
Definition Time_Unix (t : Z) : Z := t / Second - unix_epoch.
Definition time_Unix (sec : Z) : Z := (sec + unix_epoch) * Second.
(** [int64] from its two's complement *)
Definition int64 (v : Z) : Z := if v <? 2 ^ 63 then v else v - 2 ^ 64.

(** ** Saved rule-sets *)

Record SavedBinary := mkSaved {
  sv_Content : bytes;
  sv_LastUpdated : Z;
  sv_LastEtag : string;
  sv_URLHash : bytes
}.

Section Saved.
Context {VB : Varbin}.

(** [(s *SavedBinary) MarshalBinary] *)
Definition write_bytes (b : bytes) : bytes := WriteUvarint (len b) ++ b.
Definition MarshalBinary (s : SavedBinary) : bytes :=
  [2] ++ write_bytes (sv_Content s) ++ be_bytes 8 (wrap 64 (Time_Unix (sv_LastUpdated s))) ++
  write_bytes (string_bytes (sv_LastEtag s)) ++ write_bytes (sv_URLHash s).

(** A length, checked against what is left, and that many bytes *)
Definition read_bytes (name : string) : Reader bytes :=
  length ← ReadUvarint (ST := file_stream);
  ((fun bs => if len bs <? length then Err (E_New [AStr name; AInt length])
              else ReadFull (ST := file_stream) (Z.to_nat length) bs) : Reader bytes).
(** [(s *SavedBinary) UnmarshalBinary] *)
Definition UnmarshalBinary (data : bytes) : Res SavedBinary :=
  (version ← binary_Read (ST := file_stream) 1;
   content ← read_bytes "invalid content length: ";
   lastUpdated ← binary_Read (ST := file_stream) 8;
   etagBytes ← read_bytes "invalid etag length: ";
   urlHash ← ((if version <? 2 then mret [] else read_bytes "invalid url hash length: ") : Reader bytes);
   mret (mkSaved content (time_Unix (int64 lastUpdated)) (bytes_string etagBytes) urlHash)) data ≫= fun '(s, _) => Ok s.

(** [LoadRuleSet] and [SaveRuleSet] on the bucket of rule-sets; [batch] is the
    outcome of the transaction. *)
Abbreviation Bucket := (gmap string bytes).
Definition LoadRuleSet (bucket : Bucket) (tag : string) : option SavedBinary :=
  match bucket !! tag with
  | None | Some [] => None
  | Some setBinary => match UnmarshalBinary setBinary with Ok s => Some s | _ => None end
  end.
Definition SaveRuleSet (batch : Res unit) (bucket : Bucket) (tag : string) (set : SavedBinary) : Res unit * Bucket :=
  match batch with
  | Ok _ => (Ok tt, <[tag := MarshalBinary set]> bucket)
  | e => (e, bucket)
  end.
End Saved.

(** ** Loading *)

Section RuleSets.
Context {SH : SliceHelpers} {GS : GoStd} {TP : ThirdParty} {VB : Varbin} {RF : RuleSetFormat} {Action W : Type}.
Abbreviation Set_ := (RuleSet (Rule Action)).
(** The JSON decoder of rule-sets in source form; whether there is a network
    manager; the validator of the DNS router *)
Context (unmarshal : bytes -> Res (Z * list HeadlessRule)).
Context (networkManager : bool) (validate : string -> RuleSetMetadata -> Res unit).

Definition RuleSetFormatSource : string := "source".
Definition RuleSetFormatBinary : string := "binary".

(** [PlainRuleSetCompat.Upgrade] *)
Definition Upgrade (ruleSet : Z * list HeadlessRule) : Res (list HeadlessRule) :=
  let '(version, rules) := ruleSet in
  if (RuleSetVersion1 <=? version) && (version <=? RuleSetVersion5) then Ok rules
  else Err (E_New [AStr "unknown rule-set version: "; AInt version]).
Definition unknown_format {A} (format : string) : Res A := Err (E_New [AStr "unknown rule-set format: "; AStr format]).

(** *** Local rule-sets *)

Record LocalRuleSet := mkLocal {
  lo_set : Set_;
  lo_fileFormat : string;
  lo_watcher : option string
}.
Definition lo_with (s : LocalRuleSet) (set : Set_) : LocalRuleSet := mkLocal set (lo_fileFormat s) (lo_watcher s).

(** [(s *LocalRuleSet) reloadFile]; [content] is what reading or opening the
    path gives. *)
Definition reloadFile (callbacks : list (Set_ -> W -> W)) (s : LocalRuleSet) (content : Res bytes) (w : W)
  : Res (LocalRuleSet * W) :=
  ruleSet ← (if bool_decide (lo_fileFormat s = RuleSetFormatSource) || bool_decide (lo_fileFormat s = "")
             then content ← content; unmarshal content
             else if bool_decide (lo_fileFormat s = RuleSetFormatBinary)
             then content ← content; Read content false
             else unknown_format (lo_fileFormat s));
  plainRuleSet ← Upgrade ruleSet;
  '(set, w) ← reloadRules networkManager validate callbacks (lo_set s) plainRuleSet w;
  Ok (lo_with s set, w).

(** The callback of the watcher: an error is only logged. *)
Definition watcher_callback (callbacks : list (Set_ -> W -> W)) (s : LocalRuleSet) (content : Res bytes) (w : W)
  : LocalRuleSet * W :=
  match reloadFile callbacks s content w with Ok (s, w) => (s, w) | _ => (s, w) end.

(** [(g *geoip) Rules]: the networks of the database in order, each with its
    country, and the error at the end *)
Definition geoip_Rules (networks : list (Res (string * string))) (networks_Err : option error) (countryCode : string)
  : Res (list HeadlessRule) :=
  let fix loop networks (countryMap : gmap string (list string)) :=
    match networks with
    | [] => Ok countryMap
    | Ok (ipNet, country) :: rest => loop rest (<[country := default [] (countryMap !! country) ++ [ipNet]]> countryMap)
    | Err e :: _ => Err (E_Cause e [AStr "failed to get network"])
    | Panic p :: _ => Panic p
    end in
  countryMap ← loop networks ∅;
  match networks_Err with
  | Some e => Err (E_Cause e [AStr "failed to iterate networks"])
  | None =>
      let ipNets := default [] (countryMap !! strings_ToLower countryCode) in
      if len ipNets =? 0 then Err (E_New [AStr "no networks found for country code: "; AStr countryCode])
      else Ok [H_Default (mkHeadlessOptions None None None None None None None (Some ipNets) None None None None None None None
                 None None None false false None None None None false None None None None None)]
  end.

(** What a local rule-set is made of *)
Record LocalOptions := mkLocalOptions {
  ro_Inline : bool;
  ro_Rules : list HeadlessRule;
  ro_Format : string;
  ro_Path : string
}.
(** The world of a constructor: the geo databases by code, file paths, files, and
    whether a watcher can be made *)
Record LocalEnv := mkLocalEnv {
  GetGeoIP : string -> Res (list HeadlessRule);
  GetGeoSite : string -> Res (list HeadlessRule);
  full_path : string -> string -> string;
  file_content : string -> Res bytes;
  NewWatcher : string -> Res unit
}.
Definition str_drop (n : nat) (s : string) : string := String.substring n (String.length s - n) s.

(** [NewLocalRuleSet]; [full_path] replaces the tag and makes the path absolute. *)
Definition NewLocalRuleSet (env : LocalEnv) (tag : string) (options : LocalOptions) (w : W) : Res (LocalRuleSet * W) :=
  let empty := mkRuleSet tag [] (mkRuleSetMetadata false false false false false) in
  let ruleSet := mkLocal empty (ro_Format options) None in
  let of_rules rules :=
    '(set, w) ← reloadRules networkManager validate [] empty rules w; Ok (lo_with ruleSet set, w) in
  if ro_Inline options then
    if len (ro_Rules options) =? 0 then Err (E_New [AStr "empty inline rule-set"])
    else of_rules (ro_Rules options)
  else if String.prefix "geoip:" (ro_Path options)
  then rules ← GetGeoIP env (str_drop 6 (ro_Path options)); of_rules rules
  else if String.prefix "geosite:" (ro_Path options)
  then rules ← GetGeoSite env (str_drop 8 (ro_Path options)); of_rules rules
  else
    let filePath := full_path env (ro_Path options) tag in
    '(ruleSet, w) ← reloadFile [] ruleSet (file_content env filePath) w;
    _ ← NewWatcher env filePath;
    Ok (mkLocal (lo_set ruleSet) (lo_fileFormat ruleSet) (Some filePath), w).

(** [Close] *)
Definition drop_rules (s : Set_) : Set_ := mkRuleSet (rs_tag s) [] (rs_metadata s).
Definition LocalRuleSet_Close (s : LocalRuleSet) : LocalRuleSet := lo_with s (drop_rules (lo_set s)).

(** [ExtractIPSet] *)
Definition ExtractIPSet (s : Set_) : Res (list IPSet) :=
  foldr (fun rule acc => l ← extractIPSetFromRule rule; rest ← acc; Ok (l ++ rest)) (Ok []) (rs_rules s).

(** *** Remote rule-sets *)

Record RemoteRuleSet := mkRemote {
  re_set : Set_;
  re_url : string;
  re_urlHash : bytes;
  re_initialPath : string;
  re_format : string;
  re_updateInterval : Z;
  re_lastUpdated : Z;
  re_lastEtag : string
}.
Definition set_re_set (s : RemoteRuleSet) (set : Set_) : RemoteRuleSet :=
  mkRemote set (re_url s) (re_urlHash s) (re_initialPath s) (re_format s) (re_updateInterval s) (re_lastUpdated s) (re_lastEtag s).
Definition set_re_last (s : RemoteRuleSet) (lastUpdated : Z) (lastEtag : string) : RemoteRuleSet :=
  mkRemote (re_set s) (re_url s) (re_urlHash s) (re_initialPath s) (re_format s) (re_updateInterval s) lastUpdated lastEtag.

(** [NewRemoteRuleSet]; [hash] is SHA-256, [replace_tag] replaces the tag in a
    URL, [full_path] also makes a path absolute. *)
Definition NewRemoteRuleSet (hash : string -> bytes) (replace_tag full_path : string -> string -> string) (tag : string)
    (format URL InitialPath : string) (UpdateInterval : Z) : RemoteRuleSet :=
  let url := replace_tag URL tag in
  mkRemote (mkRuleSet tag [] (mkRuleSetMetadata false false false false false)) url (hash url)
    (if bool_decide (InitialPath = "") then "" else full_path InitialPath tag) format
    (if 0 <? UpdateInterval then UpdateInterval else 24 * Hour) 0 "".

(** A rule-set, the bucket of the cache file when there is one, and the world of
    the update callbacks *)
Record Remote := mkState { st_set : RemoteRuleSet; st_bucket : option (gmap string bytes); st_world : W }.
Definition st_tag (st : Remote) : string := rs_tag (re_set (st_set st)).

(** [(s *RemoteRuleSet) loadBytes] *)
Definition loadBytes (callbacks : list (Set_ -> W -> W)) (st : Remote) (content : bytes) : Res Remote :=
  let s := st_set st in
  ruleSet ← (if bool_decide (re_format s = RuleSetFormatSource) then unmarshal content
             else if bool_decide (re_format s = RuleSetFormatBinary) then Read content false
             else unknown_format (re_format s));
  plainRuleSet ← Upgrade ruleSet;
  '(set, w) ← reloadRules networkManager validate callbacks (re_set s) plainRuleSet (st_world st);
  Ok (mkState (set_re_set s set) (st_bucket st) w).

(** An HTTP response, and what a fetch meets: the request that is made, the
    answer, the time and the transaction of the cache file *)
Record HTTPResponse := mkResponse { rp_StatusCode : Z; rp_Status : string; rp_Body : Res bytes; rp_Etag : string }.
Record FetchEnv := mkFetchEnv {
  NewRequest : string -> Res unit;
  http_Do : string -> option string -> Res HTTPResponse;
  Now : Z;
  batch_outcome : Res unit
}.
Definition StatusOK : Z := 200.
Definition StatusNotModified : Z := 304.

(** Saving when there is a cache file; a failure is only logged. *)
Definition save (env : FetchEnv) (st : Remote) (set : SavedBinary) : Remote :=
  match st_bucket st with
  | None => st
  | Some b => mkState (st_set st) (Some (SaveRuleSet (batch_outcome env) b (st_tag st) set).2) (st_world st)
  end.
Definition with_last (st : Remote) (lastUpdated : Z) (lastEtag : string) : Remote :=
  mkState (set_re_last (st_set st) lastUpdated lastEtag) (st_bucket st) (st_world st).

(** [(s *RemoteRuleSet) fetch]: the result and the state afterwards *)
Definition not_modified (env : FetchEnv) (st : Remote) : Remote :=
  let st := with_last st (Now env) (re_lastEtag (st_set st)) in
  match st_bucket st ≫= fun b => LoadRuleSet b (st_tag st) with
  | None => st
  | Some saved => save env st (mkSaved (sv_Content saved) (Now env) (sv_LastEtag saved) (re_urlHash (st_set st)))
  end.
Definition modified (env : FetchEnv) (st : Remote) (content : bytes) (eTagHeader : string) : Remote :=
  let lastEtag := if bool_decide (eTagHeader = "") then re_lastEtag (st_set st) else eTagHeader in
  save env (with_last st (Now env) lastEtag) (mkSaved content (Now env) lastEtag (re_urlHash (st_set st))).
Definition fetch (env : FetchEnv) (callbacks : list (Set_ -> W -> W)) (st : Remote) : Res unit * Remote :=
  let s := st_set st in
  let outcome : Res Remote :=
    _ ← NewRequest env (re_url s);
    response ← http_Do env (re_url s) (if bool_decide (re_lastEtag s = "") then None else Some (re_lastEtag s));
    if rp_StatusCode response =? StatusNotModified then Ok (not_modified env st)
    else if negb (rp_StatusCode response =? StatusOK)
    then Err (E_New [AStr "unexpected status: "; AStr (rp_Status response)])
    else
      content ← rp_Body response;
      st ← loadBytes callbacks st content;
      Ok (modified env st content (rp_Etag response)) in
  match outcome with Ok st => (Ok tt, st) | Err e => (Err e, st) | Panic p => (Panic p, st) end.

(** [(s *RemoteRuleSet) updateOnce] *)
Definition updateOnce (env : FetchEnv) (callbacks : list (Set_ -> W -> W)) (refs : Refs) (st : Remote) : Remote :=
  match fetch env callbacks st with
  | (Ok _, st) =>
      if refs_of refs (st_tag st) =? 0
      then mkState (set_re_set (st_set st) (drop_rules (re_set (st_set st)))) (st_bucket st) (st_world st)
      else st
  | (_, st) => st
  end.

(** [(s *RemoteRuleSet) resolveTransport]; an HTTP client in the options that is
    not empty, the detour of older versions, the default transport *)
Definition resolveTransport {T Options : Type} (client : option Options) (DownloadDetour : string)
    (ResolveTransport : Options + string -> Res T) (DefaultTransport : option T) : Res T :=
  match client with
  | Some c =>
      if bool_decide (DownloadDetour = "") then ResolveTransport (inl c)
      else Err (E_New [AStr "http_client is conflict with deprecated download_detour field"])
  | None =>
      if bool_decide (DownloadDetour = "")
      then match DefaultTransport with
           | Some t => Ok t
           | None => Err (E_New [AStr "default http client transport is not initialized"])
           end
      else ResolveTransport (inr DownloadDetour)
  end.

(** [(s *RemoteRuleSet) StartContext]: the cache file, then the initial file, then
    the network *)
Definition restore (callbacks : list (Set_ -> W -> W)) (st : Remote) : Res Remote :=
  match st_bucket st ≫= fun b => LoadRuleSet b (st_tag st) with
  | None => Ok st
  | Some saved =>
      if (0 <? len (sv_URLHash saved)) && negb (bool_decide (sv_URLHash saved = re_urlHash (st_set st))) then Ok st
      else
        match loadBytes callbacks st (sv_Content saved) with
        | Ok st => Ok (with_last st (sv_LastUpdated saved) (sv_LastEtag saved))
        | Err _ => Ok st
        | Panic p => Panic p
        end
  end.
Definition load_initial (callbacks : list (Set_ -> W -> W)) (ReadFile : string -> Res bytes) (st : Remote) : Res (Remote * bool) :=
  if Time_IsZero (re_lastUpdated (st_set st)) && negb (bool_decide (re_initialPath (st_set st) = "")) then
    match content ← ReadFile (re_initialPath (st_set st)); loadBytes callbacks st content with
    | Ok st => Ok (st, true)
    | Err _ => Ok (st, false)
    | Panic p => Panic p
    end
  else Ok (st, false).
Definition StartContext (env : FetchEnv) (callbacks : list (Set_ -> W -> W)) (transport : Res unit) (ReadFile : string -> Res bytes)
    (st : Remote) : Res unit * Remote :=
  match _ ← wrap_err transport [AStr "create rule-set http client"]; st ← restore callbacks st; load_initial callbacks ReadFile st with
  | Err e => (Err e, st)
  | Panic p => (Panic p, st)
  | Ok (st, loadedFromInitialPath) =>
      if Time_IsZero (re_lastUpdated (st_set st)) && negb loadedFromInitialPath then
        let '(e, st) := fetch env callbacks st in
        (wrap_err e [AStr "initial rule-set: "; AStr (st_tag st)], st)
      else (Ok tt, st)
  end.

(** [Close]: the rules are dropped. *)
Definition RemoteRuleSet_Close (s : RemoteRuleSet) : RemoteRuleSet := set_re_set s (drop_rules (re_set s)).

(** ** Updates *)

(** A round of [loopUpdate] at the time [now]: the sets that are due are updated
    one after the other over the same cache file. *)
Record Tracked := mkTracked { tr_set : RemoteRuleSet; tr_next : Z }.
Definition first_updates (sets : list RemoteRuleSet) : list Tracked :=
  map (fun s => mkTracked s (re_lastUpdated s + re_updateInterval s)) sets.
Fixpoint update_round (env : RemoteRuleSet -> FetchEnv) (callbacks : string -> list (Set_ -> W -> W)) (refs : Refs) (now : Z)
    (l : list Tracked) (bucket : option (gmap string bytes)) (w : W) : list Tracked * option (gmap string bytes) * W :=
  match l with
  | [] => ([], bucket, w)
  | t :: rest =>
      let s := tr_set t in
      if now <? tr_next t then
        let '(rest, bucket, w) := update_round env callbacks refs now rest bucket w in (t :: rest, bucket, w)
      else
        let st := updateOnce (env s) (callbacks (rs_tag (re_set s))) refs (mkState s bucket w) in
        let '(rest, bucket, w) := update_round env callbacks refs now rest (st_bucket st) (st_world st) in
        (mkTracked (st_set st) (now + re_updateInterval (st_set st)) :: rest, bucket, w)
  end.

(** [waitUntilNext] at the time [now] *)
Definition waitUntilNext (nextUpdates : list Z) (now : Z) : Res Z :=
  match nextUpdates with
  | [] => Panic "index out of range"
  | next :: rest => Ok (Z.max 0 (fold_left (fun next u => if u <? next then u else next) rest next - now))
  end.

(** [NewRuleSetUpdater] keeps the remote rule-sets; without any there is no updater. *)
Definition NewRuleSetUpdater (ruleSets : list (LocalRuleSet + RemoteRuleSet)) : option (list RemoteRuleSet) :=
  match omap (fun s => match s with inr r => Some r | inl _ => None end) ruleSets with [] => None | l => Some l end.

(** ** Properties *)

(** *** Saved rule-sets *)

Record saved_fits (s : SavedBinary) : Prop := {
  sv_content_fits : len (sv_Content s) < 2 ^ 64;
  sv_etag_fits : string_fits (sv_LastEtag s);
  sv_hash_fits : len (sv_URLHash s) < 2 ^ 64;
  sv_time_fits : - 2 ^ 63 <= Time_Unix (sv_LastUpdated s) < 2 ^ 63
}.
Lemma reads_write_bytes name b : len b < 2 ^ 64 -> reads (read_bytes name) (write_bytes b) b.
Proof.
  intros Hb. apply (reads_bind _ _ _ _ (len b)); [by apply reads_len|]. intros rest.
  replace (len (b ++ rest) <? len b) with false by (symmetry; apply Z.ltb_ge; unfold len; rewrite length_app; lia).
  apply reads_full. unfold len. lia.
Qed.
Lemma int64_wrap v : - 2 ^ 63 <= v < 2 ^ 63 -> int64 (wrap 64 v) = v.
Proof.
  intros Hv. unfold int64, wrap. destruct (Z_lt_le_dec v 0) as [Hn|Hp].
  - replace (v mod 2 ^ 64) with (v + 2 ^ 64) by (apply (Z.mod_unique _ _ (-1)); lia).
    destruct (Z.ltb_spec (v + 2 ^ 64) (2 ^ 63)); lia.
  - rewrite Z.mod_small by lia. destruct (Z.ltb_spec v (2 ^ 63)); lia.
Qed.
(** The saved time is cut to seconds. *)
Definition cut_saved (s : SavedBinary) : SavedBinary :=
  mkSaved (sv_Content s) (sv_LastUpdated s / Second * Second) (sv_LastEtag s) (sv_URLHash s).
Lemma saved_roundtrip s : saved_fits s -> UnmarshalBinary (MarshalBinary s) = Ok (cut_saved s).
Proof.
  intros [Hc He Hh Ht]. unfold UnmarshalBinary, MarshalBinary.
  match goal with |- ?m _ ≫= _ = _ => assert (H : reads m (MarshalBinary s) (cut_saved s)) end.
  { apply (reads_bind _ _ _ _ 2); [by apply reads_u8|]. apply (reads_bind _ _ _ _ (sv_Content s)); [by apply reads_write_bytes|].
    apply (reads_bind _ _ _ _ (wrap 64 (Time_Unix (sv_LastUpdated s)))).
    { apply reads_binary. unfold wrap. apply Z.mod_pos_bound. lia. }
    apply (reads_bind _ _ _ _ (string_bytes (sv_LastEtag s))); [by apply reads_write_bytes|]. cbn [Z.ltb Z.compare Pos.compare Pos.compare_cont].
    rewrite bytes_string_bytes, int64_wrap by done.
    replace (time_Unix (Time_Unix (sv_LastUpdated s))) with (sv_LastUpdated s / Second * Second)
      by (unfold time_Unix, Time_Unix; f_equal; lia).
    by apply (reads_fmap _ (fun h => mkSaved _ _ _ h)), reads_write_bytes. }
  specialize (H []). rewrite app_nil_r in H. unfold MarshalBinary in H. by rewrite H, ok_bind.
Qed.
Lemma load_saved bucket tag s : saved_fits s -> LoadRuleSet (<[tag := MarshalBinary s]> bucket) tag = Some (cut_saved s).
Proof. intros Hs. unfold LoadRuleSet. rewrite lookup_insert_eq. rewrite saved_roundtrip by done. by unfold MarshalBinary. Qed.

(** *** Contents that load *)

(** The set that a content gives *)
Definition loaded (format tag : string) (content : bytes) : Res Set_ :=
  ruleSet ← (if bool_decide (format = RuleSetFormatSource) then unmarshal content
             else if bool_decide (format = RuleSetFormatBinary) then Read content false else unknown_format format);
  plainRuleSet ← Upgrade ruleSet;
  '(set, _) ← reloadRules networkManager validate [] (mkRuleSet tag [] (mkRuleSetMetadata false false false false false)) plainRuleSet tt;
  Ok set.

Lemma reloadRules_set {W'} (callbacks : list (Set_ -> W' -> W')) s rules w :
  reloadRules networkManager validate callbacks s rules w =
  '(set, _) ← reloadRules networkManager validate [] (mkRuleSet (rs_tag s) [] (mkRuleSetMetadata false false false false false)) rules tt;
  Ok (set, fold_left (fun w callback => callback set w) callbacks w).
Proof.
  unfold reloadRules. destruct (build_rules _ _ _ rules) as [rs|e|p]; [|done..]. rewrite !ok_bind. cbn [rs_tag].
  by destruct (validate _ _).
Qed.
Lemma loadBytes_loaded callbacks st content : loadBytes callbacks st content =
  set ← loaded (re_format (st_set st)) (st_tag st) content;
  Ok (mkState (set_re_set (st_set st) set) (st_bucket st) (fold_left (fun w callback => callback set w) callbacks (st_world st))).
Proof.
  unfold loadBytes, loaded, st_tag. destruct (if bool_decide _ then _ else _) as [rs|e|p]; [|done..]. rewrite !ok_bind.
  destruct (Upgrade rs) as [rules|e|p]; [|done..]. rewrite !ok_bind, reloadRules_set.
  by destruct (reloadRules _ _ _ _ _ tt) as [[set w]|e|p].
Qed.
Lemma loaded_tag format tag content set : loaded format tag content = Ok set -> rs_tag set = tag.
Proof.
  unfold loaded. destruct (if bool_decide _ then _ else _) as [rs|e|p]; [|done..]. rewrite !ok_bind.
  destruct (Upgrade rs) as [rules|e|p]; [|done..]. rewrite ok_bind. unfold reloadRules.
  destruct (build_rules _ _ _ rules) as [rs'|e|p]; [|done..]. rewrite !ok_bind. destruct (validate _ _); [|done..]. by intros [= <-].
Qed.

(** *** Restarts *)

(** The state after a download *)
Lemma fetch_downloaded env callbacks st response content set :
  NewRequest env (re_url (st_set st)) = Ok tt ->
  http_Do env (re_url (st_set st)) (if bool_decide (re_lastEtag (st_set st) = "") then None else Some (re_lastEtag (st_set st))) = Ok response ->
  rp_StatusCode response = StatusOK -> rp_Body response = Ok content ->
  loaded (re_format (st_set st)) (st_tag st) content = Ok set ->
  fetch env callbacks st =
    (Ok tt, modified env (mkState (set_re_set (st_set st) set) (st_bucket st)
                            (fold_left (fun w callback => callback set w) callbacks (st_world st))) content (rp_Etag response)).
Proof.
  intros Hr Hd Hs Hb Hl. unfold fetch. by rewrite Hr, ok_bind, Hd, ok_bind, Hs, Hb, ok_bind, loadBytes_loaded, Hl, !ok_bind.
Qed.
Lemma restored callbacks st0 bucket saved set :
  st_bucket st0 = Some bucket -> LoadRuleSet bucket (st_tag st0) = Some saved -> sv_URLHash saved = re_urlHash (st_set st0) ->
  loaded (re_format (st_set st0)) (st_tag st0) (sv_Content saved) = Ok set ->
  restore callbacks st0 = Ok (with_last (mkState (set_re_set (st_set st0) set) (st_bucket st0)
                            (fold_left (fun w callback => callback set w) callbacks (st_world st0))) (sv_LastUpdated saved) (sv_LastEtag saved)).
Proof.
  intros Hb Hl Hh Hs. unfold restore. rewrite Hb. cbn [mbind option_bind]. rewrite Hl, bool_decide_true, andb_false_r by done.
  by rewrite loadBytes_loaded, Hs, ok_bind, Hb.
Qed.

(** C12: A rule-set that was downloaded and saved is there again after a restart,
    without the network: when the download loads and saving it succeeds, a rule-set
    of the same tag, URL and format whose HTTP transport resolves starts with the
    rules and metadata of the download, its entity tag, and its time in seconds,
    whatever the network would answer.  The clock shows any time from one second
    after the zero time (year 1) up to 2^63 seconds; content, entity tags and URL
    hash have lengths below 2^64. *)
Theorem rule_set_restored env env' callbacks callbacks' st st0 bucket response content set ReadFile :
  (* the download *)
  st_bucket st = Some bucket -> NewRequest env (re_url (st_set st)) = Ok tt ->
  http_Do env (re_url (st_set st)) (if bool_decide (re_lastEtag (st_set st) = "") then None else Some (re_lastEtag (st_set st))) = Ok response ->
  rp_StatusCode response = StatusOK -> rp_Body response = Ok content ->
  loaded (re_format (st_set st)) (st_tag st) content = Ok set ->
  batch_outcome env = Ok tt -> Second <= Now env < 2 ^ 63 * Second ->
  len content < 2 ^ 64 -> string_fits (re_lastEtag (st_set st)) -> string_fits (rp_Etag response) -> len (re_urlHash (st_set st)) < 2 ^ 64 ->
  (* the restart *)
  st_bucket st0 = st_bucket (fetch env callbacks st).2 -> st_tag st0 = st_tag st ->
  re_urlHash (st_set st0) = re_urlHash (st_set st) -> re_format (st_set st0) = re_format (st_set st) ->
  exists st1, StartContext env' callbacks' (Ok tt) ReadFile st0 = (Ok tt, st1) /\
    re_set (st_set st1) = set /\ re_lastEtag (st_set st1) = re_lastEtag (st_set (fetch env callbacks st).2) /\
    re_lastUpdated (st_set st1) = Now env / Second * Second.
Proof.
  intros Hb Hr Hd Hs Hbody Hl Hbatch Hnow Hc He1 He2 Hh Hb0 Ht0 Hh0 Hf0.
  rewrite (fetch_downloaded env callbacks st response content set) in * by done. cbn [snd] in *.
  unfold modified, save, with_last, st_tag in *. cbn [st_bucket st_set st_world re_set set_re_set set_re_last re_urlHash re_lastEtag re_lastUpdated] in *.
  rewrite Hb in Hb0. rewrite Hb, Hbatch in *. cbn [SaveRuleSet snd st_bucket st_set re_lastEtag set_re_last] in *.
  rewrite (loaded_tag _ _ _ _ Hl) in Hb0.
  set (etag := if bool_decide (rp_Etag response = "") then re_lastEtag (st_set st) else rp_Etag response) in *.
  set (saved := mkSaved content (Now env) etag (re_urlHash (st_set st))) in *.
  assert (Hfit : saved_fits saved).
  { split; cbn [saved sv_Content sv_LastEtag sv_URLHash sv_LastUpdated]; [done|unfold etag; by destruct (bool_decide (rp_Etag response = ""))|done|].
    unfold Time_Unix, unix_epoch, Second in *. pose proof (Z.div_pos (Now env) 1000000000).
    pose proof (Z.div_lt_upper_bound (Now env) 1000000000 (2 ^ 63)). lia. }
  pose proof (load_saved bucket (rs_tag (re_set (st_set st0))) saved Hfit) as Hload. rewrite <-Ht0 in *. unfold StartContext. cbn [wrap_err]. rewrite ok_bind.
  rewrite (restored callbacks' st0 _ (cut_saved saved) set Hb0 Hload); [|done|unfold st_tag; by rewrite Hf0].
  rewrite ok_bind. unfold load_initial. cbn [with_last st_set re_lastUpdated set_re_last cut_saved sv_LastUpdated saved].
  assert (Hz : Time_IsZero (Now env / Second * Second) = false).
  { unfold Time_IsZero. apply Z.eqb_neq. pose proof (Z.div_le_lower_bound (Now env) Second 1). unfold Second in *. lia. }
  rewrite Hz. cbn [andb st_set with_last re_lastUpdated set_re_last]. rewrite Hz. cbn [andb].
  eexists. split; [done|]. by cbn.
Qed.

(** *** Starts *)

(** What is offered to a rule-set that starts: the saved content of its URL, the
    initial file, the answer to its request *)
Inductive offered (env : FetchEnv) (ReadFile : string -> Res bytes) (st : Remote) : bytes -> Prop :=
  | offered_cache bucket saved :
      st_bucket st = Some bucket -> LoadRuleSet bucket (st_tag st) = Some saved ->
      len (sv_URLHash saved) = 0 \/ sv_URLHash saved = re_urlHash (st_set st) ->
      offered env ReadFile st (sv_Content saved)
  | offered_file content :
      re_initialPath (st_set st) <> "" -> ReadFile (re_initialPath (st_set st)) = Ok content -> offered env ReadFile st content
  | offered_answer response content :
      NewRequest env (re_url (st_set st)) = Ok tt -> http_Do env (re_url (st_set st)) None = Ok response ->
      rp_StatusCode response = StatusOK -> rp_Body response = Ok content -> offered env ReadFile st content.

Abbreviation loads st := (loaded (re_format (st_set st)) (st_tag st)).

(** The request without an entity tag is answered "not modified". *)
Definition first_unmodified (env : FetchEnv) (st : Remote) : Prop :=
  NewRequest env (re_url (st_set st)) = Ok tt /\
  exists response, http_Do env (re_url (st_set st)) None = Ok response /\ rp_StatusCode response = StatusNotModified.
(** A panic of the file system, the HTTP client or the decoders *)
Definition calls_panic (env : FetchEnv) (ReadFile : string -> Res bytes) (st : Remote) (p : string) : Prop :=
  (exists content, loads st content = Panic p) \/ ReadFile (re_initialPath (st_set st)) = Panic p \/
  NewRequest env (re_url (st_set st)) = Panic p \/ http_Do env (re_url (st_set st)) None = Panic p \/
  exists response, http_Do env (re_url (st_set st)) None = Ok response /\ rp_Body response = Panic p.

Lemma restore_cases env ReadFile callbacks st :
  match restore callbacks st with
  | Ok st1 => st1 = st /\ (forall bucket saved, st_bucket st = Some bucket -> LoadRuleSet bucket (st_tag st) = Some saved ->
                len (sv_URLHash saved) = 0 \/ sv_URLHash saved = re_urlHash (st_set st) -> exists e, loads st (sv_Content saved) = Err e) \/
      exists bucket saved, offered env ReadFile st (sv_Content saved) /\ st_bucket st = Some bucket /\
        LoadRuleSet bucket (st_tag st) = Some saved /\
        loads st (sv_Content saved) = Ok (re_set (st_set st1)) /\ re_lastUpdated (st_set st1) = sv_LastUpdated saved
  | Err _ => False
  | Panic p => calls_panic env ReadFile st p
  end.
Proof.
  unfold restore. destruct (st_bucket st) as [bucket|] eqn:Hb; cbn [mbind option_bind]; [|by left].
  destruct (LoadRuleSet bucket (st_tag st)) as [saved|] eqn:Hl; [|left; split; [done|]; intros; simplify_eq].
  destruct ((0 <? len (sv_URLHash saved)) && _) eqn:Hh.
  { left. split; [done|]. intros b s [= <-] Hs. rewrite Hl in Hs. injection Hs as <-. apply andb_true_iff in Hh as [H1 H2].
    apply Z.ltb_lt in H1. apply negb_true_iff, bool_decide_eq_false in H2. by intros [|]; [lia|]. }
  assert (Hhash : len (sv_URLHash saved) = 0 \/ sv_URLHash saved = re_urlHash (st_set st)).
  { apply andb_false_iff in Hh as [H|H]; [left; apply Z.ltb_ge in H; unfold len in *; lia|right].
    by apply negb_false_iff, bool_decide_eq_true in H. }
  rewrite loadBytes_loaded. destruct (loads st (sv_Content saved)) as [set|e|p] eqn:E; [|left|by left; exists (sv_Content saved)].
  - right. exists bucket, saved. split_and!; [|done..]. by eapply offered_cache.
  - split; [done|]. intros b s [= <-] Hs _. rewrite Hl in Hs. injection Hs as <-. by exists e.
Qed.
Lemma initial_cases env ReadFile callbacks st : re_lastUpdated (st_set st) = 0 ->
  match load_initial callbacks ReadFile st with
  | Ok (st1, true) => exists content, offered env ReadFile st content /\ loads st content = Ok (re_set (st_set st1))
  | Ok (st1, false) => st1 = st /\ forall content, re_initialPath (st_set st) <> "" ->
      ReadFile (re_initialPath (st_set st)) = Ok content -> exists e, loads st content = Err e
  | Err _ => False
  | Panic p => calls_panic env ReadFile st p
  end.
Proof.
  intros Hz. unfold load_initial. rewrite Hz. cbn [Time_IsZero Z.eqb andb]. case_bool_decide as Hp; cbn [negb]; [done|].
  destruct (ReadFile _) as [content|e|p] eqn:Hf; [|by split|by right; left].
  rewrite ok_bind, loadBytes_loaded.
  destruct (loads st content) as [set|e|p] eqn:E; [|split; [done|]; intros c _ [= <-]; by exists e|by left; exists content].
  rewrite ok_bind. exists content. split; [by apply offered_file|done].
Qed.
Lemma fetch_cases env ReadFile callbacks st : re_lastEtag (st_set st) = "" ->
  match fetch env callbacks st with
  | (Ok _, st1) => (exists content, offered env ReadFile st content /\ loads st content = Ok (re_set (st_set st1))) \/
      (first_unmodified env st /\ re_set (st_set st1) = re_set (st_set st))
  | (Err _, st1) => st1 = st /\ ~ first_unmodified env st /\
      forall response content, NewRequest env (re_url (st_set st)) = Ok tt ->
      http_Do env (re_url (st_set st)) None = Ok response -> rp_StatusCode response = StatusOK -> rp_Body response = Ok content ->
      exists e, loads st content = Err e
  | (Panic p, _) => calls_panic env ReadFile st p
  end.
Proof.
  intros He. unfold fetch, first_unmodified, calls_panic. rewrite He, bool_decide_true by done.
  destruct (NewRequest env _) as [[]|e|p] eqn:Hr; [|by split_and!; [|intros [? ?]|]|by right; right; left].
  rewrite ok_bind. destruct (http_Do env _ None) as [response|e|p] eqn:Hd;
    [|by split_and!; [|intros (? & ? & ? & ?)|]|by right; right; right; left].
  rewrite ok_bind. destruct (Z.eqb_spec (rp_StatusCode response) StatusNotModified) as [Hn|Hn].
  { right. split; [split; [done|by exists response]|]. unfold not_modified, save.
    destruct (_ ≫= _); [|done]. by destruct (st_bucket _). }
  assert (Hm : ~ (Ok tt = @Ok unit tt /\ exists r, Ok response = @Ok HTTPResponse r /\ rp_StatusCode r = StatusNotModified))
    by (by intros (_ & ? & [= <-] & ?)).
  destruct (Z.eqb_spec (rp_StatusCode response) StatusOK); [|split_and!; [done..|]; intros ? ? _ [= <-]; done]. cbn [negb].
  destruct (rp_Body response) as [content|e'|p] eqn:Hb;
    [|split_and!; [done..|]; intros ? ? _ [= <-] _; by rewrite Hb|by right; right; right; right; exists response].
  rewrite ok_bind, loadBytes_loaded. destruct (loads st content) as [set|e'|p] eqn:E; [| |by left; exists content].
  - rewrite !ok_bind. left. exists content. split; [by eapply offered_answer|]. unfold modified, save. cbn [st_bucket with_last].
    by destruct (st_bucket st).
  - split_and!; [done..|]. intros ? ? _ [= <-] _. rewrite Hb. intros [= <-]. by exists e'.
Qed.

(** C11: The outcomes of the first start of a remote rule-set, where a saved time is
    never the zero time.
    A start succeeds only when its HTTP transport resolves; then it holds the rules of
    a content that was offered to it and loads (the content saved for its URL, its
    initial file, or the answer of the server), or nothing that was offered loads and
    the server answered "not modified" to a request without an entity tag, and the
    rule-set keeps the rules it had.  A start that fails leaves the rule-set as it was,
    and its transport did not resolve, or nothing that was offered loads and the
    server did not answer "not modified".  It panics only when one of its calls does. *)
Theorem rule_set_start_outcome env ReadFile callbacks transport st :
  re_lastUpdated (st_set st) = 0 -> re_lastEtag (st_set st) = "" ->
  (forall bucket saved, st_bucket st = Some bucket -> LoadRuleSet bucket (st_tag st) = Some saved -> sv_LastUpdated saved <> 0) ->
  let nothing_loads := forall content, offered env ReadFile st content -> exists e, loads st content = Err e in
  match StartContext env callbacks transport ReadFile st with
  | (Ok _, st1) => transport = Ok tt /\
      ((exists content, offered env ReadFile st content /\ loads st content = Ok (re_set (st_set st1))) \/
       (nothing_loads /\ first_unmodified env st /\ re_set (st_set st1) = re_set (st_set st)))
  | (Err _, st1) => st1 = st /\ ((exists e, transport = Err e) \/ (nothing_loads /\ ~ first_unmodified env st))
  | (Panic p, _) => transport = Panic p \/ calls_panic env ReadFile st p
  end.
Proof.
  intros Hz He Hsaved. cbv zeta. unfold StartContext.
  destruct transport as [[]|e|p]; cbn [wrap_err]; [rewrite ok_bind|by split; [|left; exists e]|by left].
  pose proof (restore_cases env ReadFile callbacks st) as Hr. destruct (restore callbacks st) as [st1|e|p]; [|done|by right]. rewrite ok_bind.
  destruct Hr as [[-> Hcache]|(bucket & saved & Ho & Hb & Hl & Hs & Ht)].
  2: { unfold load_initial. rewrite Ht. unfold Time_IsZero at 1. specialize (Hsaved _ _ Hb Hl). apply Z.eqb_neq in Hsaved. rewrite Hsaved.
       cbn [andb]. rewrite Ht. unfold Time_IsZero. rewrite Hsaved. cbn [andb]. split; [done|]. left. by exists (sv_Content saved). }
  pose proof (initial_cases env ReadFile callbacks st Hz) as Hi.
  destruct (load_initial callbacks ReadFile st) as [[st1 []]|e|p]; [| |done|by right].
  { destruct Hi as (content & Ho & Hs). rewrite andb_false_r. split; [done|]. left. by exists content. }
  destruct Hi as [-> Hfile]. rewrite Hz. cbn [Time_IsZero Z.eqb negb andb].
  pose proof (fetch_cases env ReadFile callbacks st He) as Hf. destruct (fetch env callbacks st) as [[[]|e|p] st1]; cbn [wrap_err]; [| |by right].
  - split; [done|]. destruct Hf as [Hf|[Hf Hset]]; [by left|right]. split_and!; [|done..].
    intros content [b s H1 H2 H3|c H1 H2|r c H1 H2 H3 H4]; [eauto..|]. destruct Hf as (_ & r' & H & Hn). rewrite H2 in H.
    injection H as <-. by rewrite H3 in Hn.
  - destruct Hf as (-> & Hn & Hanswer). split; [done|]. right. split; [|done].
    intros content [b s H1 H2 H3|c H1 H2|r c H1 H2 H3 H4]; eauto.
Qed.

(** *** Binary files *)

Lemma equivalent_refl (x : Rule Action) : equivalent x x.
Proof. split; [done|]. by destruct (asDefaultHeadless x). Qed.
Lemma same_sets_refl (l : list Set_) : Forall2 same_set l l.
Proof.
  apply Forall2_same_length_lookup_2; [done|]. intros i x y Hx Hy. rewrite Hx in Hy. injection Hy as <-. split_and!; [done..|].
  apply Forall2_same_length_lookup_2; [done|]. intros j a b Ha Hb. rewrite Ha in Hb. injection Hb as <-. apply equivalent_refl.
Qed.

(** C10: A rule-set in a binary file of version 2 to 5 is the rule-set in source form
    that it was compiled from: a local rule-set that loads the file has the metadata
    that the source gives, and in every rule that refers to it, beside other
    rule-sets and with any outer conditions, it matches the same connections and
    leaves the same metadata.  The source rules load; they are nested at most one
    hundred deep, their numbers and lengths fit the fields of the format, none of
    their prefixes is an IPv4 prefix in IPv6 form ([rule_fits]); their lists are
    absent rather than empty, as a decoder leaves them, and they hold no prebuilt
    matcher or IP set ([source_rule]). *)
Theorem binary_rule_set_equivalent version rules file s w s1 w1 callbacks :
  RuleSetVersion1 < version <= RuleSetVersionCurrent -> len rules < 2 ^ 64 ->
  Forall (rule_fits (S maxLogicalRuleDepth)) rules -> Forall source_rule rules ->
  Write rules version = Ok file -> lo_fileFormat s = RuleSetFormatBinary ->
  reloadRules networkManager validate callbacks (lo_set s) rules w = Ok (s1, w1) ->
  exists s2 w2, reloadFile callbacks s (Ok file) w = Ok (s2, w2) /\ rs_metadata (lo_set s2) = rs_metadata s1 /\
    forall env it pre post m groups,
      matchWithOuterGroups env (Rule_Match env) asDefaultHeadless (with_sets it (pre ++ s1 :: post)) m groups =
      matchWithOuterGroups env (Rule_Match env) asDefaultHeadless (with_sets it (pre ++ lo_set s2 :: post)) m groups.
Proof.
  intros Hv Hlen Hfit Hsource Hw Hformat Hs. unfold RuleSetVersion1, RuleSetVersionCurrent, RuleSetVersion5 in *.
  destruct (reload_alike version ltac:(unfold RuleSetVersion1; lia) networkManager validate callbacks (lo_set s) rules w s1 w1 Hsource Hs)
    as (s2 & w2 & Hr & Hsame).
  exists (lo_with s s2), w2. unfold reloadFile. rewrite Hformat. cbn [bool_decide]. rewrite !bool_decide_false by done.
  rewrite bool_decide_true by done. cbn [orb]. rewrite ok_bind.
  rewrite (rule_set_roundtrip rules version file) by (unfold RuleSetVersion1, RuleSetVersionCurrent, RuleSetVersion5; done || lia).
  rewrite ok_bind. unfold Upgrade, RuleSetVersion1, RuleSetVersion5.
  replace ((1 <=? version) && (version <=? 5)) with true by (symmetry; apply andb_true_iff; split; apply Z.leb_le; lia).
  rewrite ok_bind, Hr, ok_bind. split_and!; [done|by destruct Hsame as (_ & -> & _)|].
  intros env it pre post m groups. apply item_equivalent. cbn [lo_with lo_set].
  apply Forall2_app; [apply same_sets_refl|]. constructor; [done|apply same_sets_refl].
Qed.

(** *** The updater *)

Lemma updateOnce_interval env callbacks refs st :
  re_updateInterval (st_set (updateOnce env callbacks refs st)) = re_updateInterval (st_set st).
Proof.
  assert (Hf : re_updateInterval (st_set (fetch env callbacks st).2) = re_updateInterval (st_set st)).
  { unfold fetch. destruct (NewRequest env _) as [u|e|p]; [|done..]. rewrite ok_bind.
    destruct (http_Do env _ _) as [r|e|p]; [|done..]. rewrite ok_bind. destruct (_ =? StatusNotModified).
    { cbn [snd]. unfold not_modified, save. destruct (_ ≫= _); [|done]. by destruct (st_bucket _). }
    destruct (negb _); [done|]. destruct (rp_Body r) as [c|e|p]; [|done..]. rewrite ok_bind, loadBytes_loaded.
    destruct (loaded _ _ c) as [set|e|p]; [|done..]. rewrite !ok_bind. cbn [snd]. unfold modified, save. by destruct (st_bucket _). }
  unfold updateOnce. destruct (fetch env callbacks st) as [[u|e|p] st1]; cbn [snd] in Hf; [|done..]. by destruct (_ =? 0).
Qed.

Lemma update_round_next env callbacks refs now l : forall bucket w,
  Forall2 (fun t t' => re_updateInterval (tr_set t') = re_updateInterval (tr_set t) /\
                       if now <? tr_next t then t' = t else tr_next t' = now + re_updateInterval (tr_set t))
    l (update_round env callbacks refs now l bucket w).1.1.
Proof.
  induction l as [|t l IH]; intros bucket w; [constructor|]. cbn [update_round]. destruct (now <? tr_next t) eqn:Hd.
  - specialize (IH bucket w). destruct (update_round _ _ _ _ l _ _) as [[l' b'] w']. cbn in *. constructor; [|done]. by rewrite Hd.
  - set (st := updateOnce _ _ _ _). specialize (IH (st_bucket st) (st_world st)).
    destruct (update_round _ _ _ _ l _ _) as [[l' b'] w']. cbn in *. constructor; [|done]. rewrite Hd. cbn [tr_set tr_next].
    unfold st. by rewrite updateOnce_interval.
Qed.

Lemma fold_min l next : let m := fold_left (fun next u => if u <? next then u else next) l next in
  m ∈ next :: l /\ Forall (fun u => m <= u) (next :: l).
Proof.
  revert next. induction l as [|u l IH]; intros next; cbn [fold_left]; [split; [by left|by repeat constructor]|].
  destruct (Z.ltb_spec u next) as [Hu|Hu].
  - destruct (IH u) as [H1 H2]. split; [set_solver|]. constructor; [|done]. apply Forall_cons_iff in H2 as [H2 _]. lia.
  - destruct (IH next) as [H1 H2]. split; [set_solver|]. apply Forall_cons_iff in H2 as [H2 H3]. by repeat constructor; [|lia|].
Qed.

(** After a round of updates the updater sleeps, and not too long: every rule-set
    that was due is next due one interval from now, the others as before, and the
    time to wait is positive and ends when the first of them is due. *)
Theorem updater_waits env callbacks refs now l bucket w l' bucket' w' :
  l <> [] -> Forall (fun t => 0 < re_updateInterval (tr_set t)) l ->
  update_round env callbacks refs now l bucket w = (l', bucket', w') ->
  Forall2 (fun t t' => if now <? tr_next t then t' = t else tr_next t' = now + re_updateInterval (tr_set t)) l l' /\
  exists wait, waitUntilNext (map tr_next l') now = Ok wait /\ 0 < wait /\
    now + wait ∈ map tr_next l' /\ Forall (fun t => now + wait <= tr_next t) l'.
Proof.
  intros Hne Hpos Hr. pose proof (update_round_next env callbacks refs now l bucket w) as H. rewrite Hr in H. cbn [fst] in H. split.
  { eapply Forall2_impl; [|exact H]. cbn. intros t t' Ht. apply Ht. }
  assert (Hl : Forall (fun t => now < tr_next t) l').
  { clear Hr Hne. induction H as [|t t' l l' [_ Ht] H IH]; [constructor|]. apply Forall_cons_iff in Hpos as [Hp Hpos]. constructor; [|auto].
    destruct (Z.ltb_spec now (tr_next t)); [by subst|lia]. }
  destruct l' as [|t l']; [apply Forall2_length in H; by destruct l|]. cbn [map waitUntilNext].
  destruct (fold_min (map tr_next l') (tr_next t)) as [Hin Hmin]. set (m := fold_left _ _ _) in *.
  assert (Hm : now < m).
  { change (tr_next t :: map tr_next l') with (map tr_next (t :: l')) in Hin. apply list_elem_of_fmap in Hin as (x & -> & Hx).
    rewrite list.Forall_forall in Hl. by apply Hl. }
  eexists. split; [done|]. replace (Z.max 0 (m - now)) with (m - now) by lia. replace (now + (m - now)) with m by lia.
  split_and!; [lia|done|]. change (tr_next t :: map tr_next l') with (map tr_next (t :: l')) in Hmin. apply list.Forall_forall.
  intros x Hx. rewrite list.Forall_forall in Hmin. apply (Hmin (tr_next x)), list_elem_of_fmap. by exists x.
Qed.
(** The interval of a rule-set is positive. *)
Lemma new_interval hash replace_tag full_path tag format URL InitialPath UpdateInterval :
  0 < re_updateInterval (NewRemoteRuleSet hash replace_tag full_path tag format URL InitialPath UpdateInterval).
Proof. cbn. destruct (Z.ltb_spec 0 UpdateInterval); [done|]. unfold Hour, Second. lia. Qed.
End RuleSets.
