(* ===== verification/RuleSetExamples.v ===== *)
(** * Rule-set files, evaluated

    An instance of the interfaces of the file format, and concrete files: the
    theorems on rule-sets applied to them.  A domain matcher is the lists it was
    made of, an IP set a list of ranges; both are written as numbers in a
    self-delimiting code, and nothing is compressed. *)

From stdpp Require Import base numbers list strings gmap option countable.
From Stdlib Require Import ZArith Lia.
From S2P Require Import Prelude Bytes NetAddr Metadata Demo RuleItems RuleCore RuleBuild RuleStart Varbin Srs SrsRoundtrip SrsMatch Geosite RuleSets.

Local Open Scope Z_scope.

Module SrsDemo.

(** ** A code for countable types *)

Fixpoint pos_bytes (p : positive) : bytes :=
  match p with xH => [2] | xO p => 0 :: pos_bytes p | xI p => 1 :: pos_bytes p end.
Fixpoint read_pos (bs : bytes) : Res (positive * bytes) :=
  match bs with
  | [] => Err io_EOF
  | b :: bs =>
      if b =? 2 then Ok (xH, bs)
      else '(p, bs) ← read_pos bs; Ok (if b =? 0 then xO p else xI p, bs)
  end.
Definition write_any `{Countable A} (a : A) : bytes := pos_bytes (encode a).
Definition read_any `{Countable A} : Reader A := fun bs =>
  '(p, bs) ← read_pos bs; match decode p with Some a => Ok (a, bs) | None => Err ErrInvalid end.

Lemma read_pos_bytes p rest : read_pos (pos_bytes p ++ rest) = Ok (p, rest).
Proof. induction p as [p IH|p IH|]; cbn; by rewrite ?IH. Qed.
Lemma reads_any `{Countable A} (a : A) : reads read_any (write_any a) a.
Proof. intros rest. unfold read_any, write_any. by rewrite read_pos_bytes, ok_bind, decode_encode. Qed.
Lemma wb_any `{Countable A} : well_behaved false (read_any (A := A)).
Proof.
  intros bs. unfold read_any. assert (Hp : match read_pos bs with
    | Ok (_, bs') => (length bs' <= length bs)%nat | Err _ => True | Panic _ => False end).
  { induction bs as [|b bs IH]; [done|]. cbn [read_pos length]. destruct (b =? 2); [lia|].
    destruct (read_pos bs) as [[p bs']|e|s]; [|done..]. rewrite ok_bind. lia. }
  destruct (read_pos bs) as [[p bs']|e|s]; [|done..]. rewrite ok_bind. by destruct (decode p).
Qed.

(** ** Instances *)

(** A length, then the elements *)
Definition read_slice (ST : Stream) (n : nat) : Reader (Slice Z) :=
  match n with
  | O => fail ErrInvalid
  | S _ => length ← ReadUvarint; l ← read_times length (fun _ => binary_Read n); mret (slice_of l)
  end.
Lemma read_slice_law ST n l : (0 < n)%nat -> len l < 2 ^ 64 -> Forall (in_width (8 * Z.of_nat n)) l ->
  exists s, elems s = l /\ forall rest, read_slice ST n (AppendUvarint (len l) ++ concat (map (be_bytes n) l) ++ rest) = Ok (s, rest).
Proof.
  intros Hn Hl Hw. exists (slice_of l). split; [by destruct l|]. intros rest. rewrite app_assoc. destruct n as [|n]; [lia|].
  apply (reads_bind _ _ _ _ (len l)).
  { apply reads_uvarint. unfold in_width, len in *. lia. }
  apply (reads_fmap _ slice_of). rewrite <-(map_id l) at 3. apply (reads_times (be_bytes (S n)) (fun z => z)); rewrite list.Forall_forall in *.
  - intros i a Ha. apply reads_binary. specialize (Hw a Ha). unfold in_width in Hw.
    rewrite <-(Z.pow_mul_r 2 8) by lia. done.
  - intros a _. rewrite be_bytes_length. lia.
Qed.
Lemma read_slice_returns ST n bs : match read_slice ST n bs with
  | Ok (_, bs') => (length bs' < length bs)%nat | Err _ => True | Panic _ => False end.
Proof.
  revert bs. destruct n as [|n]; [done|]. change (well_behaved true (read_slice ST (S n))). apply wb_strict; [apply wb_uvarint|].
  intros k. apply (wb_bind _ _ false false); [|intros; apply wb_ret]. apply wb_times. intros _. apply wb_binary. lia.
Qed.
Definition varbin : Varbin := {|
  WriteUvarint := AppendUvarint;
  ReadSlice := read_slice;
  WriteUvarint_law v _ := eq_refl;
  ReadSlice_law := read_slice_law;
  ReadSlice_returns := read_slice_returns
|}.

(** Ranges of addresses *)
Definition range (p : Prefix) : Addr * Addr :=
  match Prefix_Addr p with
  | Addr4 v => (Addr4 v, Addr4 (Z.lor v (2 ^ (32 - Prefix_Bits p) - 1)))
  | a => (a, a)
  end.
Definition in_range (a : Addr) (r : Addr * Addr) : bool :=
  (Addr_BitLen a =? Addr_BitLen r.1) && (Addr_bits r.1 <=? Addr_bits a) && (Addr_bits a <=? Addr_bits r.2).
Definition from_ip (l : list Z) : Addr :=
  match AddrFromSlice l with Some a => Addr_Unmap a | None => AddrNone end.

Definition third : ThirdParty := {|
  Socks_IsIP a := Addr_IsValid (Socks_Addr a);
  Socks_IsIPv6 a := match Socks_Addr a with Addr6 _ _ => true | _ => false end;
  AddrFromIP := from_ip;
  IsPublicAddr a := negb (Prefix_Contains Demo.net10 a);
  IPSet := list (Addr * Addr);
  IPSetBuilder := list (Addr * Addr);
  IPSetBuilder_zero := [];
  AddPrefix b p := b ++ [range p];
  AddAddr b a := b ++ [(a, a)];
  IPSetBuilder_IPSet b := Ok b;
  IPSet_Contains s a := existsb (in_range a) s;
  Matcher := list string * list string;
  NewMatcher domains suffixes _ := (domains, suffixes);
  Matcher_Match mt s := bool_decide (s ∈ mt.1) || existsb (fun suffix => Demo.demo_suffix suffix s) mt.2;
  AdGuardMatcher := list string;
  NewAdGuardMatcher l := l;
  AdGuard_Match l s := bool_decide (s ∈ l);
  dns_CanonicalName s := s;
  dns_IsDuplicate a b := bool_decide (a = b);
  RR_String _ := "rr";
  RcodeToString _ := "rcode";
  TypeToString _ := None;
  Prefixable := Prefix;
  Prefixable_Build p d := default d p;
  F_ToString _ := "number"
|}.

Lemma from_ip_law a : plain_addr a -> from_ip (Addr_AsSlice a) = a.
Proof.
  destruct a as [|v|v z]; [done|..]; unfold plain_addr, in_width, from_ip, AddrFromSlice; cbn [Addr_AsSlice]; rewrite be_bytes_length;
    cbn [Nat.eqb].
  - intros Hv. rewrite be_value_bytes by (cbn; lia). done.
  - intros (Hv & -> & H4). rewrite be_value_bytes by (cbn; lia). unfold Addr_Unmap. by rewrite H4.
Qed.
Definition put (m : Entries (TP := third) Z) (k : Z) (v : list (option Prefix)) : Entries (TP := third) Z :=
  List.filter (fun e => negb (e.1 =? k)) m ++ [(k, v)].
Lemma put_law m k v : k ∉ m.*1 -> put m k v = m ++ [(k, v)].
Proof.
  intros Hk. unfold put. f_equal. induction m as [|[k' v'] m IH]; [done|]. cbn in *. apply not_elem_of_cons in Hk as [H1 H2].
  destruct (Z.eqb_spec k' k) as [->|]; [done|]. cbn. by rewrite IH.
Qed.

Definition format : RuleSetFormat (TP := third) := {|
  Matcher_Write := write_any (A := list string * list string) : @Matcher third -> bytes;
  ReadMatcher _ := read_any (A := list string * list string);
  Matcher_Dump m := (Some m.1, Some m.2);
  AdGuard_Write := write_any (A := list string) : @AdGuardMatcher third -> bytes;
  ReadAdGuardMatcher _ := read_any (A := list string);
  AdGuard_Dump m := Some m;
  IPSet_rr s := s : list (Addr * Addr);
  IPSet_cast l := l : @IPSet third;
  IPSet_Prefixes s := map (fun r : Addr * Addr => mkPrefix r.1 (Addr_BitLen r.1)) s;
  Prefixable_of p := p : @Prefixable third;
  TypedMap_Put := put;
  zlib_Compress bs := bs;
  zlib_NewReader bs := Ok (bs, {| stream_eof := true; stream_error := io_EOF |});
  ReadMatcher_law _ := reads_any (A := list string * list string);
  ReadMatcher_returns _ := wb_any (A := list string * list string);
  ReadAdGuard_law _ := reads_any (A := list string);
  ReadAdGuard_returns _ := wb_any (A := list string);
  IPSet_cast_law s := eq_refl;
  Prefixable_law p d := eq_refl;
  AddrFromIP_law := from_ip_law;
  TypedMap_Put_law := put_law;
  zlib_law bs := eq_refl;
  zlib_returns bs := I
|}.

End SrsDemo.

Section Concrete.
#[local] Existing Instance list_helpers.
#[local] Existing Instance SrsDemo.varbin.
#[local] Existing Instance Demo.std.
#[local] Existing Instance SrsDemo.third.
#[local] Existing Instance SrsDemo.format.

(** ** A rule-set *)

Definition demo_options (domains cidrs : Slice string) (ports : Slice Z) : HeadlessOptions :=
  mkHeadlessOptions None None domains None None None None cidrs None None ports None None None None None None None
    false false None None None None false None None None None None.
Definition demo_rules : list HeadlessRule := [
  H_Default (demo_options (Some ["a.example"]) (Some ["10.0.0.0/8"]) None);
  H_Logical "or" [H_Default (demo_options None None (Some [443])); H_Default (demo_options (Some ["b.example"]) None None)] false
].
Definition demo_file : bytes := match Write demo_rules 2 with Ok file => file | _ => [] end.
Definition demo_valid (tag : string) (m : RuleSetMetadata) : Res unit := Ok tt.
Definition no_metadata : RuleSetMetadata := mkRuleSetMetadata false false false false false.
Definition demo_set : RuleSet (Rule unit) := mkRuleSet "tag" [] no_metadata.
Definition demo_reloaded : RuleSet (Rule unit) :=
  match reloadRules true demo_valid [] demo_set demo_rules tt with Ok (s, _) => s | _ => demo_set end.

Lemma demo_options_fit domains cidrs ports :
  bool_decide (cidrs = None) || bool_decide (cidrs = Some ["10.0.0.0/8"]) = true ->
  fits (in_width 16) ports -> options_fit (demo_options domains cidrs ports).
Proof.
  intros Hc Hp. split; unfold string_fields; cbn [demo_options h_Network h_DomainKeyword h_DomainRegex h_SourcePortRange h_PortRange
    h_ProcessName h_ProcessPath h_ProcessPathRegex h_PackageName h_PackageNameRegex h_WIFISSID h_WIFIBSSID h_QueryType h_SourcePort h_Port
    h_NetworkType h_SourceIPCIDR h_IPCIDR h_NetworkInterfaceAddress h_DefaultInterfaceAddress];
    try by repeat first [done|constructor].
  apply Forall_cons_2; [by intros set [= <-]|]. apply Forall_cons_2; [|constructor].
  apply orb_true_iff in Hc as [Hc|Hc]; apply bool_decide_eq_true in Hc as ->; intros set [= <-]; split; try done.
  all: by repeat constructor.
Qed.
Lemma demo_options_source domains cidrs ports : compact domains -> compact cidrs -> compact ports ->
  source_form (demo_options domains cidrs ports).
Proof. intros Hd Hc Hp. split; cbn; try done; by repeat constructor. Qed.
Lemma demo_fits : Forall (rule_fits (S maxLogicalRuleDepth)) demo_rules.
Proof.
  unfold maxLogicalRuleDepth, demo_rules. repeat apply Forall_cons_2; [..|apply Forall_nil_2]; cbn [rule_fits foldr]; split_and?; try done;
    apply demo_options_fit; try done; by split; [|repeat constructor].
Qed.
Lemma demo_source : Forall source_rule demo_rules.
Proof.
  unfold demo_rules. repeat apply Forall_cons_2; [..|apply Forall_nil_2]; cbn [source_rule foldr]; split_and?; try done;
    by apply demo_options_source.
Qed.

Lemma demo_reload : reloadRules true demo_valid [] demo_set demo_rules tt = Ok (demo_reloaded, tt).
Proof.
  assert (H : is_ok (reloadRules true demo_valid [] demo_set demo_rules tt) = true) by (vm_compute; reflexivity).
  unfold demo_reloaded. by destruct (reloadRules _ _ _ _ _ _) as [[s []]|e|p].
Qed.

(** The rule-set from its binary file *)
Lemma binary_rule_set_equivalent_witness :
  exists s2 w2, reloadFile (fun _ => Err ErrInvalid) true demo_valid [] (mkLocal demo_set RuleSetFormatBinary None) (Ok demo_file) tt =
      Ok (s2, w2) /\ rs_metadata (lo_set s2) = rs_metadata demo_reloaded /\
    forall env it pre post m groups,
      matchWithOuterGroups env (Rule_Match env) asDefaultHeadless (with_sets it (pre ++ demo_reloaded :: post)) m groups =
      matchWithOuterGroups env (Rule_Match env) asDefaultHeadless (with_sets it (pre ++ lo_set s2 :: post)) m groups.
Proof.
  apply (binary_rule_set_equivalent (fun _ => Err ErrInvalid) true demo_valid 2 demo_rules demo_file
           (mkLocal demo_set RuleSetFormatBinary None) tt demo_reloaded tt []).
  - done.
  - done.
  - apply demo_fits.
  - apply demo_source.
  - vm_compute. reflexivity.
  - done.
  - exact demo_reload.
Defined.

(** ** A remote rule-set *)

Definition demo_response : HTTPResponse := mkResponse StatusOK "200 OK" (Ok demo_file) "tag1".
(** Half a second after a second of July 2025 *)
Definition demo_time : Z := time_Unix 1752000000.
Definition demo_env : FetchEnv := mkFetchEnv (fun _ => Ok tt) (fun _ _ => Ok demo_response) (demo_time + 500000000) (Ok tt).
Definition offline : FetchEnv := mkFetchEnv (fun _ => Ok tt) (fun _ _ => Err ErrClosed) (demo_time + Hour) (Ok tt).
Definition no_json (content : bytes) : Res (Z * list HeadlessRule) := Err ErrInvalid.
Definition no_file (path : string) : Res bytes := Err ErrInvalid.
Definition demo_remote (bucket : gmap string bytes) : Remote (Action := unit) (W := unit) :=
  mkState (NewRemoteRuleSet (fun _ => [1; 2; 3]) (fun u _ => u) (fun p _ => p) "tag" RuleSetFormatBinary "https://example" "" 0)
    (Some bucket) tt.
Definition demo_fetched : Remote := (fetch no_json true demo_valid demo_env [] (demo_remote ∅)).2.
Definition demo_loaded : RuleSet (Rule unit) :=
  match loaded no_json true demo_valid RuleSetFormatBinary "tag" demo_file with Ok set => set | _ => demo_set end.

(** Downloaded, and started again without a network *)
Lemma rule_set_restored_witness : exists st1,
  StartContext no_json true demo_valid offline [] (Ok tt) no_file (demo_remote (default ∅ (st_bucket demo_fetched))) = (Ok tt, st1) /\
  re_set (st_set st1) = demo_loaded /\ re_lastEtag (st_set st1) = re_lastEtag (st_set demo_fetched) /\
  re_lastUpdated (st_set st1) = demo_time.
Proof.
  apply (rule_set_restored no_json true demo_valid demo_env offline [] [] (demo_remote ∅)
           (demo_remote (default ∅ (st_bucket demo_fetched))) ∅ demo_response demo_file demo_loaded no_file);
    done.
Defined.

(** A start without anything *)
Lemma rule_set_start_outcome_witness :
  match StartContext no_json true demo_valid offline [] (Ok tt) no_file (demo_remote ∅) with
  | (Err _, st1) => st1 = demo_remote ∅ /\ (forall content, offered offline no_file (demo_remote ∅) content ->
      exists e, loaded (Action := unit) no_json true demo_valid RuleSetFormatBinary "tag" content = Err e)
  | _ => False
  end.
Proof.
  pose proof (rule_set_start_outcome no_json true demo_valid offline no_file [] (Ok tt) (demo_remote ∅) eq_refl eq_refl) as H.
  assert (Hs : forall bucket saved, st_bucket (demo_remote ∅) = Some bucket ->
            LoadRuleSet bucket (st_tag (demo_remote ∅)) = Some saved -> sv_LastUpdated saved <> 0).
  { intros bucket saved [= <-]. unfold LoadRuleSet. by rewrite lookup_empty. }
  specialize (H Hs).
  assert (Hfail : exists e, (StartContext no_json true demo_valid offline [] (Ok tt) no_file (demo_remote ∅)).1 = Err e)
    by (eexists; vm_compute; reflexivity).
  destruct Hfail as [e Hfail]. destruct (StartContext _ _ _ _ _ _ _ _) as [r st1]. cbn in Hfail. subst r.
  destruct H as [H1 [[e' [=]]|[H2 _]]]. split; [exact H1|exact H2].
Defined.

(** Two rule-sets, one of them due *)
Definition demo_tracked : list (Tracked (Action := unit)) :=
  [mkTracked (st_set (demo_remote ∅)) (4 * Second); mkTracked (st_set (demo_remote ∅)) (10 * Second)].
Definition demo_round := update_round (W := unit) no_json true demo_valid (fun _ => offline) (fun _ => []) ∅ (9 * Second) demo_tracked None tt.
Lemma updater_waits_witness :
  Forall2 (fun t t' => if 9 * Second <? tr_next t then t' = t else tr_next t' = 9 * Second + re_updateInterval (tr_set t))
    demo_tracked demo_round.1.1 /\
  exists wait, waitUntilNext (map tr_next demo_round.1.1) (9 * Second) = Ok wait /\ 0 < wait /\
    9 * Second + wait ∈ map tr_next demo_round.1.1 /\ Forall (fun t => 9 * Second + wait <= tr_next t) demo_round.1.1.
Proof.
  apply (updater_waits no_json true demo_valid (fun _ => offline) (fun _ => []) ∅ (9 * Second) demo_tracked None tt _ demo_round.1.2 demo_round.2).
  - done.
  - by repeat constructor.
  - unfold demo_round. by destruct (update_round _ _ _ _ _ _ _ _ _ _) as [[? ?] ?].
Defined.

(** ** A geosite database *)

Definition demo_domains : gmap string (list Item) := {[ "test" := [mkItem RuleTypeDomain "example.org"; mkItem RuleTypeDomainSuffix ".net"] ]}.
Lemma geosite_roundtrip_witness : exists reader codes, NewReader (Geosite_Write demo_domains) = Ok (reader, codes) /\
    (forall code, code ∈ codes <-> is_Some (demo_domains !! code)) /\
    forall code, match demo_domains !! code with
                 | Some items => geosite_Rules reader code =
                     Ok [H_Default (domain_options (mkDomainRule
                       (slice_of (values RuleTypeDomain items)) (slice_of (values RuleTypeDomainSuffix items))
                       (slice_of (values RuleTypeDomainKeyword items)) (slice_of (values RuleTypeDomainRegex items))))]
                 | None => exists e, geosite_Rules reader code = Err e
                 end.
Proof.
  apply (geosite_roundtrip demo_domains). split.
  - intros code items H. unfold demo_domains in H. apply lookup_singleton_Some in H as [<- <-]. split_and!; [done..|]. by repeat constructor.
  - vm_compute. reflexivity.
  - vm_compute. discriminate.
Defined.

(** ** Edges *)

(** A server that answers "not modified" to the first request: the start succeeds
    without any rules. *)
Definition stubborn : FetchEnv := mkFetchEnv (fun _ => Ok tt) (fun _ _ => Ok (mkResponse StatusNotModified "304" (Ok []) "")) (5 * Second) (Ok tt).
Example not_modified_first :
  let '(e, st) := StartContext no_json true demo_valid stubborn [] (Ok tt) no_file (demo_remote ∅) in
  is_ok e && (length (rs_rules (re_set (st_set st))) =? 0)%nat = true.
Proof. vm_compute. reflexivity. Qed.

(** Rules nested [n] deep are written; more than one hundred levels are not read. *)
Fixpoint nested (n : nat) : HeadlessRule :=
  match n with O => H_Default (demo_options (Some ["a.example"]) None None) | S n => H_Logical "and" [nested n] false end.
Example deep_rules_unreadable :
  match Write [nested 100] 2, Write [nested 101] 2 with
  | Ok f1, Ok f2 => is_ok (Read f1 false) && negb (is_ok (Read f2 false))
  | _, _ => false
  end = true.
Proof. vm_compute. reflexivity. Qed.

(** An IPv4 prefix in IPv6 form is read back as an invalid one. *)
Example mapped_prefix_lost :
  let prefix := mkPrefix (Addr6 0xffff0a000000 "") 104 in
  match readPrefix (ST := file_stream) (writePrefix prefix) with
  | Ok (p, []) => Prefix_IsValid prefix && negb (Prefix_IsValid p)
  | _ => false
  end = true.
Proof. vm_compute. reflexivity. Qed.
End Concrete.
