(* ===== verification/Ja3.v ===== *)
(** * TLS client hellos

    [common/ja3]: the parser that the QUIC sniffer runs on a client hello.  Every
    read of the source is a checked [index] or [slice], so that a read out of
    range is a panic here as well. *)

From stdpp Require Import base numbers list strings option.
From Stdlib Require Import ZArith Lia.
From S2P Require Import Prelude Bytes.

Local Open Scope Z_scope.

(** ** Constants *)

Definition recordLayerHeaderLen : Z := 5.
Definition handshakeHeaderLen : Z := 6.
Definition randomDataLen : Z := 32.
Definition sessionIDHeaderLen : Z := 1.
Definition cipherSuiteHeaderLen : Z := 2.
Definition compressMethodHeaderLen : Z := 1.
Definition extensionsHeaderLen : Z := 2.
Definition extensionHeaderLen : Z := 4.
Definition sniExtensionHeaderLen : Z := 5.
Definition ecExtensionHeaderLen : Z := 2.
Definition ecpfExtensionHeaderLen : Z := 1.
Definition versionExtensionHeaderLen : Z := 1.
Definition signatureAlgorithmsExtensionHeaderLen : Z := 2.
Definition contentType : Z := 22.
Definition handshakeType : Z := 1.
Definition sniExtensionType : Z := 0.
Definition sniNameDNSHostnameType : Z := 0.
Definition ecExtensionType : Z := 10.
Definition ecpfExtensionType : Z := 11.
Definition versionExtensionType : Z := 43.
Definition signatureAlgorithmsExtensionType : Z := 13.
Definition tlsVersionBitmask : Z := 0xFFFC.
Definition tls13 : Z := 0x0304.
Definition GreaseBitmask : Z := 0x0F0F.

(** [ParseError] *)
Definition LengthErr (check : Z) : error := E_New [AStr "length check failed"; AInt check].
Definition VersionErr (check : Z) : error := E_New [AStr "version check failed"; AInt check].
Definition ContentTypeErr : error := E_New [AStr "content type not matching"].
Definition HandshakeTypeErr : error := E_New [AStr "handshake type not matching"].
Definition SNITypeErr : error := E_New [AStr "SNI type not supported"].

(** ** Client hellos *)

Record ClientHello := mkClientHello {
  ch_Version : Z;
  ch_CipherSuites : list Z;
  ch_Extensions : list Z;
  ch_EllipticCurves : list Z;
  ch_EllipticCurvePF : list Z;
  ch_Versions : list Z;
  ch_SignatureAlgorithms : list Z;
  ch_ServerName : string
}.

(** [uint16(b[i])<<8 | uint16(b[i+1])] *)
Definition u16_at (b : bytes) (i : Z) : Res Z :=
  x ← index b i; y ← index b (i + 1); Ok (Z.lor (Z.shiftl x 8) y).
(** [n] numbers from [i] on *)
Fixpoint u16_list (b : bytes) (i : Z) (n : nat) : Res (list Z) :=
  match n with
  | O => Ok []
  | S n => x ← u16_at b i; l ← u16_list b (i + 2) n; Ok (x :: l)
  end.
(** [for i := 0; i < n; i += 2 { append(Uint16(s[i:])) }]; the loop runs [(n + 1) / 2]
    times. *)
Fixpoint strided (s : bytes) (i : Z) (k : nat) : Res (list Z) :=
  match k with
  | O => Ok []
  | S k => t ← slice s i (len s); x ← u16_at t 0; l ← strided s (i + 2) k; Ok (x :: l)
  end.

(** The variables of [parseExtensions] *)
Record ExtState := mkExtState {
  x_sni : bytes;
  x_extensions : list Z;
  x_ellipticCurves : list Z;
  x_ellipticCurvePF : list Z;
  x_versions : list Z;
  x_signatureAlgorithms : list Z
}.
Definition ext_zero : ExtState := mkExtState [] [] [] [] [] [].

Definition set_sni (s : ExtState) (v : bytes) : ExtState :=
  mkExtState v (x_extensions s) (x_ellipticCurves s) (x_ellipticCurvePF s) (x_versions s) (x_signatureAlgorithms s).
Definition add_extension (s : ExtState) (v : Z) : ExtState :=
  mkExtState (x_sni s) (x_extensions s ++ [v]) (x_ellipticCurves s) (x_ellipticCurvePF s) (x_versions s) (x_signatureAlgorithms s).
Definition set_curves (s : ExtState) (v : list Z) : ExtState :=
  mkExtState (x_sni s) (x_extensions s) v (x_ellipticCurvePF s) (x_versions s) (x_signatureAlgorithms s).
Definition set_formats (s : ExtState) (v : list Z) : ExtState :=
  mkExtState (x_sni s) (x_extensions s) (x_ellipticCurves s) v (x_versions s) (x_signatureAlgorithms s).
Definition add_versions (s : ExtState) (v : list Z) : ExtState :=
  mkExtState (x_sni s) (x_extensions s) (x_ellipticCurves s) (x_ellipticCurvePF s) (x_versions s ++ v) (x_signatureAlgorithms s).
Definition add_algorithms (s : ExtState) (v : list Z) : ExtState :=
  mkExtState (x_sni s) (x_extensions s) (x_ellipticCurves s) (x_ellipticCurvePF s) (x_versions s) (x_signatureAlgorithms s ++ v).

(** The [switch exType] *)
Definition parse_extension (exType : Z) (sex : bytes) (s : ExtState) : Res ExtState :=
  if exType =? sniExtensionType then
    if len sex <? sniExtensionHeaderLen then Err (LengthErr 13)
    else
      sniType ← index sex 2;
      sniLen ← u16_at sex 3;
      sex ← slice sex sniExtensionHeaderLen (len sex);
      if negb (len sex =? sniLen) then Err (LengthErr 14)
      else if sniType =? sniNameDNSHostnameType then Ok (set_sni s sex) else Err SNITypeErr
  else if exType =? ecExtensionType then
    if len sex <? ecExtensionHeaderLen then Err (LengthErr 15)
    else
      ecsLen ← u16_at sex 0;
      sex ← slice sex ecExtensionHeaderLen (len sex);
      if negb (len sex =? ecsLen) then Err (LengthErr 16)
      else l ← u16_list sex 0 (Z.to_nat (ecsLen / 2)); Ok (set_curves s l)
  else if exType =? ecpfExtensionType then
    if len sex <? ecpfExtensionHeaderLen then Err (LengthErr 17)
    else
      numPF ← index sex 0;
      sex ← slice sex ecpfExtensionHeaderLen (len sex);
      if negb (len sex =? numPF) then Err (LengthErr 18) else Ok (set_formats s sex)
  else if exType =? versionExtensionType then
    if len sex <? versionExtensionHeaderLen then Err (LengthErr 19)
    else
      versionsLen ← index sex 0;
      sex ← slice sex 1 (len sex);
      l ← strided sex 0 (Z.to_nat ((versionsLen + 1) / 2));
      Ok (add_versions s l)
  else if exType =? signatureAlgorithmsExtensionType then
    if len sex <? signatureAlgorithmsExtensionHeaderLen then Err (LengthErr 20)
    else
      ssaLen ← u16_at sex 0;
      sex ← slice sex 2 (len sex);
      l ← strided sex 0 (Z.to_nat ((ssaLen + 1) / 2));
      Ok (add_algorithms s l)
  else Ok s.

(** The loop of [parseExtensions]; [4+exLen] is a [uint16].  Fuel: an extension
    takes four bytes. *)
Fixpoint parse_extensions (fuel : nat) (exs : bytes) (s : ExtState) : Res ExtState :=
  if len exs =? 0 then Ok s
  else
    match fuel with
    | O => Panic "fuel"
    | S fuel =>
        if len exs <? extensionHeaderLen then Err (LengthErr 11)
        else
          exType ← u16_at exs 0;
          exLen ← u16_at exs 2;
          if len exs <? extensionHeaderLen + exLen then Err (LengthErr 12)
          else
            sex ← slice exs extensionHeaderLen (extensionHeaderLen + exLen);
            s ← parse_extension exType sex (add_extension s exType);
            exs ← slice exs (wrap 16 (4 + exLen)) (len exs);
            parse_extensions fuel exs s
    end.
Definition parseExtensions (version : Z) (cipherSuites : list Z) (exs : bytes) : Res ClientHello :=
  if len exs =? 0 then Ok (mkClientHello version cipherSuites [] [] [] [] [] "")
  else if len exs <? extensionsHeaderLen then Err (LengthErr 9)
  else
    exsLen ← u16_at exs 0;
    exs ← slice exs extensionsHeaderLen (len exs);
    if len exs <? exsLen then Err (LengthErr 10)
    else
      s ← parse_extensions (length exs) exs ext_zero;
      Ok (mkClientHello version cipherSuites (x_extensions s) (x_ellipticCurves s) (x_ellipticCurvePF s) (x_versions s)
            (x_signatureAlgorithms s) (bytes_string (x_sni s))).

(** [parseHandshake] *)
Definition supported_version (v : Z) : bool := (Z.land v tlsVersionBitmask =? 0x0300) || (v =? tls13).
Definition parse_ciphers (version : Z) (cs : bytes) : Res ClientHello :=
  if len cs <? cipherSuiteHeaderLen then Err (LengthErr 6)
  else
    csLen ← u16_at cs 0;
    if len cs <? cipherSuiteHeaderLen + csLen + compressMethodHeaderLen then Err (LengthErr 7)
    else
      cipherSuites ← u16_list cs 2 (Z.to_nat (csLen / 2));
      compressMethodLen ← index cs (cipherSuiteHeaderLen + csLen);
      let exsStart := cipherSuiteHeaderLen + csLen + compressMethodHeaderLen + compressMethodLen in
      if len cs <? exsStart then Err (LengthErr 8)
      else exs ← slice cs exsStart (len cs); parseExtensions version cipherSuites exs.
Definition parseHandshake (hs : bytes) : Res ClientHello :=
  let fixed := handshakeHeaderLen + randomDataLen + sessionIDHeaderLen in
  if len hs <? fixed then Err (LengthErr 3)
  else
    handshType ← index hs 0;
    if negb (handshType =? handshakeType) then Err HandshakeTypeErr
    else
      b1 ← index hs 1; b2 ← index hs 2; b3 ← index hs 3;
      let handshakeLen := Z.lor (Z.lor (Z.shiftl b1 16) (Z.shiftl b2 8)) b3 in
      rest ← slice hs 4 (len hs);
      if negb (len rest =? handshakeLen) then Err (LengthErr 4)
      else
        tlsVersion ← u16_at hs 4;
        if negb (supported_version tlsVersion) then Err (VersionErr 2)
        else
          sessionIDLen ← index hs 38;
          if len hs <? fixed + sessionIDLen then Err (LengthErr 5)
          else cs ← slice hs (fixed + sessionIDLen) (len hs); parse_ciphers tlsVersion cs.

(** [parseSegment], which [Compute] calls *)
Definition ja3_Compute (segment : bytes) : Res ClientHello :=
  if len segment <? recordLayerHeaderLen then Err (LengthErr 1)
  else
    contType ← index segment 0;
    if negb (contType =? contentType) then Err ContentTypeErr
    else
      tlsRecordVersion ← u16_at segment 1;
      if negb (supported_version tlsRecordVersion) then Err (VersionErr 1)
      else
        segmentLen ← u16_at segment 3;
        rest ← slice segment recordLayerHeaderLen (len segment);
        if len rest <? segmentLen then Err (LengthErr 2)
        else hs ← slice segment recordLayerHeaderLen (recordLayerHeaderLen + segmentLen); parseHandshake hs.

(** ** Reads in range *)

Definition returns {A} (m : Res A) : Prop := match m with Panic _ => False | _ => True end.

Lemma index_ok b i : Forall is_byte b -> 0 <= i < len b -> exists x, index b i = Ok x /\ is_byte x.
Proof.
  intros Hb Hi. unfold index, len in *. destruct (Z.ltb_spec i 0); [lia|].
  destruct (lookup_lt_is_Some_2 b (Z.to_nat i) ltac:(lia)) as [x Hx]. rewrite Hx. exists x. split; [done|].
  by eapply Forall_lookup_1.
Qed.
Lemma lor_byte x y : is_byte y -> Z.lor (Z.shiftl x 8) y = x * 256 + y.
Proof.
  unfold is_byte, in_width. intros Hy.
  assert (Hd : Z.land (Z.shiftl x 8) y = 0).
  { apply Z.bits_inj'. intros k Hk. rewrite Z.land_spec, Z.bits_0. destruct (Z_lt_le_dec k 8).
    - by rewrite Z.shiftl_spec_low.
    - rewrite <-(Z.mod_small y (2 ^ 8)) by done. by rewrite Z.mod_pow2_bits_high, andb_false_r by lia. }
  rewrite <-Z.lxor_lor, <-Z.add_nocarry_lxor by done. rewrite Z.shiftl_mul_pow2 by lia. done.
Qed.
Lemma u16_join x y : is_byte x -> is_byte y -> Z.lor (Z.shiftl x 8) y = x * 256 + y.
Proof. intros _. apply lor_byte. Qed.
Lemma u16_at_ok b i : Forall is_byte b -> 0 <= i -> i + 2 <= len b -> exists v, u16_at b i = Ok v /\ 0 <= v < 65536.
Proof.
  intros Hb Hi Hl. unfold u16_at. destruct (index_ok b i Hb ltac:(lia)) as (x & -> & Hx). rewrite ok_bind.
  destruct (index_ok b (i + 1) Hb ltac:(lia)) as (y & -> & Hy). rewrite ok_bind. eexists. split; [done|].
  rewrite u16_join by done. unfold is_byte, in_width in *. lia.
Qed.
Lemma u16_list_ok b n : Forall is_byte b -> forall i, 0 <= i -> i + 2 * Z.of_nat n <= len b -> exists l, u16_list b i n = Ok l.
Proof.
  intros Hb. induction n as [|n IH]; intros i Hi Hl; cbn [u16_list]; [by eexists|].
  destruct (u16_at_ok b i Hb) as (v & -> & _); [lia..|]. rewrite ok_bind. destruct (IH (i + 2)) as [l ->]; [lia..|]. rewrite ok_bind. by eexists.
Qed.
Lemma slice_tail b i : 0 <= i <= len b -> slice b i (len b) = Ok (drop (Z.to_nat i) b).
Proof. intros Hi. rewrite slice_ok by lia. by rewrite take_ge by (rewrite length_drop; unfold len; lia). Qed.
Lemma drop_bytes n b : Forall is_byte b -> Forall is_byte (drop n b).
Proof. apply Forall_drop. Qed.
Lemma len_drop i (b : bytes) : 0 <= i <= len b -> len (drop (Z.to_nat i) b) = len b - i.
Proof. intros Hi. unfold len in *. rewrite length_drop. lia. Qed.
Lemma strided_ok s k : Forall is_byte s -> forall i, 0 <= i -> i + 2 * Z.of_nat k <= len s -> exists l, strided s i k = Ok l.
Proof.
  intros Hb. induction k as [|k IH]; intros i Hi Hl; cbn [strided]; [by eexists|].
  rewrite slice_tail, ok_bind by lia. destruct (u16_at_ok (drop (Z.to_nat i) s) 0) as (v & -> & _); [by apply drop_bytes|lia|rewrite len_drop; lia|].
  rewrite ok_bind. destruct (IH (i + 2)) as [l ->]; [lia..|]. rewrite ok_bind. by eexists.
Qed.

(** ** Panics *)

(** An extension whose inner length goes beyond its end *)
Definition overlong (exType : Z) (sex : bytes) : Prop :=
  (exType = versionExtensionType /\ exists n rest, sex = n :: rest /\ len rest < 2 * ((n + 1) / 2)) \/
  (exType = signatureAlgorithmsExtensionType /\ exists a b rest, sex = a :: b :: rest /\ len rest < 2 * ((a * 256 + b + 1) / 2)).

Lemma parse_extension_returns exType sex s : Forall is_byte sex -> returns (parse_extension exType sex s) \/ overlong exType sex.
Proof.
  intros Hb. unfold parse_extension. destruct (Z.eqb_spec exType sniExtensionType).
  { left. destruct (Z.ltb_spec (len sex) sniExtensionHeaderLen) as [|Hl]; [done|]. unfold sniExtensionHeaderLen in *.
    destruct (index_ok sex 2) as (x & -> & _); [done|lia|]. destruct (u16_at_ok sex 3) as (v & -> & _); [done|lia..|].
    rewrite !ok_bind, slice_tail, ok_bind by lia. destruct (negb _); [done|]. by destruct (_ =? _). }
  destruct (Z.eqb_spec exType ecExtensionType).
  { left. destruct (Z.ltb_spec (len sex) ecExtensionHeaderLen) as [|Hl]; [done|]. unfold ecExtensionHeaderLen in *.
    destruct (u16_at_ok sex 0) as (v & -> & Hv); [done|lia..|]. rewrite ok_bind, slice_tail, ok_bind by lia.
    destruct (Z.eqb_spec (len (drop (Z.to_nat 2) sex)) v) as [He|]; [|done]. cbn [negb].
    destruct (u16_list_ok (drop (Z.to_nat 2) sex) (Z.to_nat (v / 2))) with (i := 0) as [l ->]; [by apply drop_bytes|lia| |done].
    pose proof (Z.mul_div_le v 2). lia. }
  destruct (Z.eqb_spec exType ecpfExtensionType).
  { left. destruct (Z.ltb_spec (len sex) ecpfExtensionHeaderLen) as [|Hl]; [done|]. unfold ecpfExtensionHeaderLen in *.
    destruct (index_ok sex 0) as (x & -> & _); [done|lia|]. rewrite ok_bind, slice_tail, ok_bind by lia. by destruct (negb _). }
  destruct (Z.eqb_spec exType versionExtensionType).
  { destruct (Z.ltb_spec (len sex) versionExtensionHeaderLen) as [|Hl]; [by left|]. unfold versionExtensionHeaderLen in *.
    destruct sex as [|k rest]; [unfold len in Hl; cbn in Hl; lia|]. destruct (Z_lt_le_dec (len rest) (2 * ((k + 1) / 2))) as [Ho|Ho].
    { right. left. split; [done|]. by exists k, rest. }
    left. change (index (k :: rest) 0) with (Ok k). rewrite ok_bind, slice_tail, ok_bind by lia.
    change (drop (Z.to_nat 1) (k :: rest)) with rest.
    apply Forall_cons_iff in Hb as [Hk Hb]. unfold is_byte, in_width in Hk. pose proof (Z.div_pos (k + 1) 2).
    destruct (strided_ok rest (Z.to_nat ((k + 1) / 2)) Hb 0) as [l ->]; [lia..|done]. }
  destruct (Z.eqb_spec exType signatureAlgorithmsExtensionType); [|by left].
  destruct (Z.ltb_spec (len sex) signatureAlgorithmsExtensionHeaderLen) as [|Hl]; [by left|]. unfold signatureAlgorithmsExtensionHeaderLen in *.
  destruct sex as [|a [|b rest]]; [unfold len in Hl; cbn in Hl; lia..|].
  destruct (Z_lt_le_dec (len rest) (2 * ((a * 256 + b + 1) / 2))) as [Ho|Ho].
  { right. right. split; [done|]. by exists a, b, rest. }
  apply Forall_cons_iff in Hb as [Ha Hb]. apply Forall_cons_iff in Hb as [Hb' Hb].
  left. change (u16_at (a :: b :: rest) 0) with (Ok (Z.lor (Z.shiftl a 8) b)). rewrite ok_bind, u16_join by done.
  rewrite slice_tail, ok_bind by lia. change (drop (Z.to_nat 2) (a :: b :: rest)) with rest.
  unfold is_byte, in_width in *. pose proof (Z.div_pos (a * 256 + b + 1) 2).
  destruct (strided_ok rest (Z.to_nat ((a * 256 + b + 1) / 2)) Hb 0) as [l ->]; [lia..|done].
Qed.

(** One of the extensions is such an extension; the walk starts at the first one and
    goes from the end of one to the next. *)
Inductive overlong_in : bytes -> Prop :=
  | overlong_here t1 t2 l1 l2 sex post : len sex = l1 * 256 + l2 -> overlong (t1 * 256 + t2) sex ->
      overlong_in ([t1; t2; l1; l2] ++ sex ++ post)
  | overlong_next t1 t2 l1 l2 sex post : len sex = l1 * 256 + l2 -> overlong_in post ->
      overlong_in ([t1; t2; l1; l2] ++ sex ++ post).
(** The extensions behind their length; the cipher suites, the compression methods
    and the extensions; the handshake: 38 bytes up to the random data, the session
    and the rest; the record with its handshake *)
Definition overlong_extensions (b : bytes) : Prop := exists e1 e2 exs, b = [e1; e2] ++ exs /\ overlong_in exs.
Definition overlong_ciphers (b : bytes) : Prop := exists c1 c2 ciphers methods exs,
  b = [c1; c2] ++ ciphers ++ [len methods] ++ methods ++ exs /\ len ciphers = c1 * 256 + c2 /\ overlong_extensions exs.
Definition overlong_message (b : bytes) : Prop := exists header session rest,
  b = header ++ [len session] ++ session ++ rest /\ len header = 38 /\ overlong_ciphers rest.
Definition has_overlong (b : bytes) : Prop := exists v1 v2 n1 n2 hs rest,
  b = [contentType; v1; v2; n1; n2] ++ hs ++ rest /\ len hs = n1 * 256 + n2 /\ overlong_message hs.

(** A list around a byte, and around the bytes it counts *)
Lemma index_rest b i x : 0 <= i -> index b i = Ok x -> drop (Z.to_nat i) b = [x] ++ drop (Z.to_nat (i + 1)) b.
Proof.
  intros Hi H. unfold index in H. destruct (Z.ltb_spec i 0); [lia|]. destruct (b !! Z.to_nat i) as [y|] eqn:E; [|done]. injection H as ->.
  replace (Z.to_nat (i + 1)) with (S (Z.to_nat i)) by lia. by apply drop_S.
Qed.
Lemma drop_split (b : bytes) i n : 0 <= i -> 0 <= n -> i + n <= len b -> exists l,
  drop (Z.to_nat i) b = l ++ drop (Z.to_nat (i + n)) b /\ len l = n.
Proof.
  intros Hi Hn Hl. exists (take (Z.to_nat n) (drop (Z.to_nat i) b)). unfold len in *. rewrite length_take, length_drop. split; [|lia].
  replace (Z.to_nat (i + n)) with (Z.to_nat i + Z.to_nat n)%nat by lia. by rewrite <-drop_drop, take_drop.
Qed.
Lemma u16_split b v : Forall is_byte b -> u16_at b 0 = Ok v -> exists x y, b = [x; y] ++ drop (Z.to_nat 2) b /\ v = x * 256 + y.
Proof.
  intros Hb H. destruct b as [|x [|y b]]; [done..|]. exists x, y. split; [done|]. cbn in H. injection H as <-.
  apply Forall_cons_iff in Hb as [Hx Hb]. apply Forall_cons_iff in Hb as [Hy _]. by apply u16_join.
Qed.

Lemma parse_extensions_returns fuel : forall exs s, Forall is_byte exs -> (length exs <= fuel)%nat -> len exs < 65536 ->
  returns (parse_extensions fuel exs s) \/ overlong_in exs.
Proof.
  induction fuel as [|fuel IH]; intros exs s Hb Hf Hl.
  { destruct exs; [by left|cbn in Hf; lia]. }
  cbn [parse_extensions]. destruct (Z.eqb_spec (len exs) 0); [by left|].
  destruct (Z.ltb_spec (len exs) extensionHeaderLen) as [|H4]; [by left|]. unfold extensionHeaderLen in *.
  destruct exs as [|t1 [|t2 [|l1 [|l2 rest]]]]; [unfold len in H4; cbn in H4; lia..|].
  apply Forall_cons_iff in Hb as [Ht1 Hb]. apply Forall_cons_iff in Hb as [Ht2 Hb]. apply Forall_cons_iff in Hb as [Hl1 Hb].
  apply Forall_cons_iff in Hb as [Hl2 Hb].
  change (u16_at (t1 :: t2 :: l1 :: l2 :: rest) 0) with (Ok (Z.lor (Z.shiftl t1 8) t2)).
  change (u16_at (t1 :: t2 :: l1 :: l2 :: rest) 2) with (Ok (Z.lor (Z.shiftl l1 8) l2)). rewrite !ok_bind, !u16_join by done.
  assert (Hrest : len (t1 :: t2 :: l1 :: l2 :: rest) = 4 + len rest) by (unfold len; cbn [length]; lia). rewrite Hrest in Hl |- *.
  destruct (Z.ltb_spec (4 + len rest) (4 + (l1 * 256 + l2))) as [|Hlen]; [by left|]. unfold is_byte, in_width in Hl1, Hl2.
  rewrite (slice_ok _ 4), ok_bind by (rewrite ?Hrest; lia). replace (4 + (l1 * 256 + l2) - 4) with (l1 * 256 + l2) by lia.
  change (drop (Z.to_nat 4) (t1 :: t2 :: l1 :: l2 :: rest)) with rest. set (sex := take (Z.to_nat (l1 * 256 + l2)) rest).
  assert (Hsex : len sex = l1 * 256 + l2) by (unfold sex, len in *; rewrite length_take; lia).
  assert (Hcut : t1 :: t2 :: l1 :: l2 :: rest = [t1; t2; l1; l2] ++ sex ++ drop (Z.to_nat (l1 * 256 + l2)) rest).
  { cbn [app]. unfold sex. by rewrite take_drop. }
  destruct (parse_extension_returns (t1 * 256 + t2) sex (add_extension s (t1 * 256 + t2))) as [Hr|Ho]; [by apply Forall_take| |].
  2: { right. rewrite Hcut. by constructor. }
  destruct (parse_extension _ sex _) as [s'|e|p]; [|by left|done]. rewrite ok_bind. unfold wrap. rewrite Z.mod_small by lia.
  rewrite <-Hrest, slice_tail, ok_bind by (rewrite Hrest; lia).
  assert (Hd : drop (Z.to_nat (4 + (l1 * 256 + l2))) (t1 :: t2 :: l1 :: l2 :: rest) = drop (Z.to_nat (l1 * 256 + l2)) rest).
  { replace (Z.to_nat (4 + (l1 * 256 + l2))) with (4 + Z.to_nat (l1 * 256 + l2))%nat by lia. done. }
  rewrite Hd. destruct (IH (drop (Z.to_nat (l1 * 256 + l2)) rest) s') as [Hr'|Ho].
  - by apply drop_bytes.
  - cbn [length] in Hf. rewrite length_drop. lia.
  - unfold len in *. rewrite length_drop. lia.
  - by left.
  - right. rewrite Hcut. by apply overlong_next.
Qed.

Lemma parseExtensions_returns v cs exs : Forall is_byte exs -> len exs < 65536 -> returns (parseExtensions v cs exs) \/ overlong_extensions exs.
Proof.
  intros Hb Hl. unfold parseExtensions. destruct (len exs =? 0); [by left|].
  destruct (Z.ltb_spec (len exs) extensionsHeaderLen) as [|H2]; [by left|]. unfold extensionsHeaderLen in *.
  destruct (u16_at_ok exs 0) as (n & Hn & _); [done|lia..|]. rewrite Hn, ok_bind, slice_tail, ok_bind by lia.
  destruct (_ <? n); [by left|]. destruct (parse_extensions_returns (length (drop (Z.to_nat 2) exs)) (drop (Z.to_nat 2) exs) ext_zero) as [H|H].
  - by apply drop_bytes.
  - done.
  - rewrite len_drop; lia.
  - left. by destruct (parse_extensions _ _ _).
  - right. destruct (u16_split exs n Hb Hn) as (x & y & He & _). by exists x, y, (drop (Z.to_nat 2) exs).
Qed.
Lemma parse_ciphers_returns v cs : Forall is_byte cs -> len cs < 65536 -> returns (parse_ciphers v cs) \/ overlong_ciphers cs.
Proof.
  intros Hb Hl. unfold parse_ciphers. destruct (Z.ltb_spec (len cs) cipherSuiteHeaderLen) as [|H2]; [by left|].
  unfold cipherSuiteHeaderLen, compressMethodHeaderLen in *. destruct (u16_at_ok cs 0) as (n & En & Hn); [done|lia..|]. rewrite En, ok_bind.
  destruct (Z.ltb_spec (len cs) (2 + n + 1)) as [|H3]; [by left|]. pose proof (Z.mul_div_le n 2). pose proof (Z.div_pos n 2).
  destruct (u16_list_ok cs (Z.to_nat (n / 2)) Hb 2) as [l ->]; [lia..|]. rewrite ok_bind.
  destruct (index_ok cs (2 + n)) as (m & Em & Hm); [done|lia|]. rewrite Em, ok_bind. unfold is_byte, in_width in Hm.
  destruct (Z.ltb_spec (len cs) (2 + n + 1 + m)) as [|H4]; [by left|]. rewrite slice_tail, ok_bind by lia.
  destruct (parseExtensions_returns v l (drop (Z.to_nat (2 + n + 1 + m)) cs)) as [H'|H'].
  - by apply drop_bytes.
  - rewrite len_drop; lia.
  - by left.
  - right. destruct (u16_split cs n Hb En) as (x & y & Hcs & Hxy). destruct (drop_split cs 2 n) as (ciphers & Hc & Hcl); [lia..|].
    destruct (drop_split cs (2 + n + 1) m) as (methods & Hme & Hml); [lia..|]. exists x, y, ciphers, methods, (drop (Z.to_nat (2 + n + 1 + m)) cs).
    split; [|split; [lia|done]]. rewrite Hml, <-Hme. rewrite Hcs at 1. rewrite Hc. do 2 f_equal.
    apply index_rest; [lia|done].
Qed.
Lemma parseHandshake_returns hs : Forall is_byte hs -> len hs < 65536 -> returns (parseHandshake hs) \/ overlong_message hs.
Proof.
  intros Hb Hl. unfold parseHandshake, handshakeHeaderLen, randomDataLen, sessionIDHeaderLen. change (6 + 32 + 1) with 39.
  destruct (Z.ltb_spec (len hs) 39) as [|H39]; [by left|]. destruct (index_ok hs 0) as (t & -> & _); [done|lia|]. rewrite ok_bind.
  destruct (negb _); [by left|]. destruct (index_ok hs 1) as (b1 & -> & _); [done|lia|]. destruct (index_ok hs 2) as (b2 & -> & _); [done|lia|].
  destruct (index_ok hs 3) as (b3 & -> & _); [done|lia|]. rewrite !ok_bind, slice_tail, ok_bind by lia. destruct (negb _); [by left|].
  destruct (u16_at_ok hs 4) as (v & -> & _); [done|lia..|]. rewrite ok_bind. destruct (negb _); [by left|].
  destruct (index_ok hs 38) as (n & En & Hn); [done|lia|]. rewrite En, ok_bind. unfold is_byte, in_width in Hn.
  destruct (Z.ltb_spec (len hs) (39 + n)) as [|H5]; [by left|]. rewrite slice_tail, ok_bind by lia.
  destruct (parse_ciphers_returns v (drop (Z.to_nat (39 + n)) hs)) as [H'|H'].
  - by apply drop_bytes.
  - rewrite len_drop; lia.
  - by left.
  - right. destruct (drop_split hs 39 n) as (session & Hs & Hsl); [lia..|].
    exists (take (Z.to_nat 38) hs), session, (drop (Z.to_nat (39 + n)) hs). rewrite Hsl, <-Hs.
    split; [change 39 with (38 + 1); by rewrite <-(index_rest hs 38 n), take_drop by done|]. split; [unfold len in *; rewrite length_take; lia|done].
Qed.

(** Parsing a client hello reads out of range only in an extension whose inner
    length goes beyond its end: supported_versions and signature_algorithms, whose
    lengths are not checked. *)
Lemma ja3_panics_overlong segment : Forall is_byte segment -> returns (ja3_Compute segment) \/ has_overlong segment.
Proof.
  intros Hb. unfold ja3_Compute. destruct (Z.ltb_spec (len segment) recordLayerHeaderLen) as [|H5]; [by left|]. unfold recordLayerHeaderLen in *.
  destruct segment as [|t [|v1 [|v2 [|n1 [|n2 r]]]]]; [unfold len in H5; cbn in H5; lia..|]. set (segment := t :: v1 :: v2 :: n1 :: n2 :: r) in *.
  assert (Hl : len segment = 5 + len r) by (unfold segment, len; cbn [length]; lia).
  change (index segment 0) with (Ok t). change (u16_at segment 1) with (Ok (Z.lor (Z.shiftl v1 8) v2)).
  change (u16_at segment 3) with (Ok (Z.lor (Z.shiftl n1 8) n2)). rewrite !ok_bind.
  assert (Hr : is_byte n1 /\ is_byte n2 /\ Forall is_byte r) by (do 3 apply Forall_inv_tail in Hb; by apply Forall_cons_iff in Hb as [? [? ?]%Forall_cons_iff]).
  destruct Hr as (Hn1 & Hn2 & Hr). rewrite (u16_join n1) by done. unfold is_byte, in_width in Hn1, Hn2. set (n := n1 * 256 + n2) in *.
  destruct (Z.eqb_spec t contentType) as [->|]; [|by left]. cbn [negb]. destruct (negb _); [by left|].
  rewrite slice_tail, ok_bind by lia. change (drop (Z.to_nat 5) segment) with r. destruct (Z.ltb_spec (len r) n) as [|H6]; [by left|].
  rewrite slice_ok, ok_bind by lia. change (drop (Z.to_nat 5) segment) with r. replace (5 + n - 5) with n by lia.
  assert (Hlen : len (take (Z.to_nat n) r) = n) by (unfold len in *; rewrite length_take; lia).
  destruct (parseHandshake_returns (take (Z.to_nat n) r)) as [H'|H']; [by apply Forall_take|lia|by left|].
  right. exists v1, v2, n1, n2, (take (Z.to_nat n) r), (drop (Z.to_nat n) r). by rewrite take_drop.
Qed.

(** ** Client hellos that are parsed *)

Inductive Extension :=
  | X_ServerName (name : string)
  | X_Groups (l : list Z)
  | X_PointFormats (l : list Z)
  | X_Versions (l : list Z)
  | X_Algorithms (l : list Z)
  | X_Other (type : Z) (data : bytes).
Definition u16s (l : list Z) : bytes := concat (map (be_bytes 2) l).
Definition ext_type (x : Extension) : Z :=
  match x with
  | X_ServerName _ => sniExtensionType | X_Groups _ => ecExtensionType | X_PointFormats _ => ecpfExtensionType
  | X_Versions _ => versionExtensionType | X_Algorithms _ => signatureAlgorithmsExtensionType | X_Other t _ => t
  end.
Definition ext_data (x : Extension) : bytes :=
  match x with
  | X_ServerName name =>
      be_bytes 2 (len (string_bytes name) + 3) ++ [sniNameDNSHostnameType] ++ be_bytes 2 (len (string_bytes name)) ++ string_bytes name
  | X_Groups l => be_bytes 2 (2 * len l) ++ u16s l
  | X_PointFormats l => [len l] ++ l
  | X_Versions l => [2 * len l] ++ u16s l
  | X_Algorithms l => be_bytes 2 (2 * len l) ++ u16s l
  | X_Other _ data => data
  end.
Definition ext_bytes (x : Extension) : bytes := be_bytes 2 (ext_type x) ++ be_bytes 2 (len (ext_data x)) ++ ext_data x.
Definition known_types : list Z :=
  [sniExtensionType; ecExtensionType; ecpfExtensionType; versionExtensionType; signatureAlgorithmsExtensionType].
Definition ext_fits (x : Extension) : Prop :=
  match x with
  | X_ServerName _ => True
  | X_Groups l | X_Algorithms l => Forall (in_width 16) l
  | X_PointFormats l => True
  | X_Versions l => Forall (in_width 16) l
  | X_Other t _ => in_width 16 t /\ t ∉ known_types
  end /\ len (ext_data x) < 65536.
Definition apply_ext (s : ExtState) (x : Extension) : ExtState :=
  let s := add_extension s (ext_type x) in
  match x with
  | X_ServerName name => set_sni s (string_bytes name)
  | X_Groups l => set_curves s l
  | X_PointFormats l => set_formats s l
  | X_Versions l => add_versions s l
  | X_Algorithms l => add_algorithms s l
  | X_Other _ _ => s
  end.

Lemma be2 v : in_width 16 v -> exists x y, be_bytes 2 v = [x; y] /\ is_byte x /\ is_byte y /\ x * 256 + y = v.
Proof.
  intros Hv. exists (v / 256 mod 256), (v mod 256). unfold in_width in Hv. change (2 ^ 16) with 65536 in Hv.
  pose proof (Z.mod_pos_bound v 256). pose proof (Z.mod_pos_bound (v / 256) 256). unfold is_byte, in_width. change (2 ^ 8) with 256.
  split_and!; [done|lia..|]. rewrite (Z.mod_small (v / 256)); [pose proof (Z.div_mod v 256); lia|].
  split; [apply Z.div_pos; lia|apply Z.div_lt_upper_bound; lia].
Qed.
Lemma len_app {A} (a b : list A) : len (a ++ b) = len a + len b.
Proof. unfold len. rewrite length_app. lia. Qed.
Lemma drop_len (a b : bytes) : drop (Z.to_nat (len a)) (a ++ b) = b.
Proof. unfold len. by rewrite Nat2Z.id, drop_app_length. Qed.
Lemma index_app pre x post : index (pre ++ x :: post) (len pre) = Ok x.
Proof.
  unfold index, len. destruct (Z.ltb_spec (Z.of_nat (length pre)) 0); [lia|]. rewrite Nat2Z.id.
  by rewrite lookup_app_r, Nat.sub_diag by done.
Qed.
Lemma u16_at_app pre v post : in_width 16 v -> u16_at (pre ++ be_bytes 2 v ++ post) (len pre) = Ok v.
Proof.
  intros Hv. destruct (be2 v Hv) as (x & y & -> & Hx & Hy & <-). unfold u16_at. cbn [app]. rewrite index_app, ok_bind.
  replace (pre ++ x :: y :: post) with ((pre ++ [x]) ++ y :: post) by (by rewrite <-app_assoc).
  replace (len pre + 1) with (len (pre ++ [x])) by (unfold len; rewrite length_app; cbn; lia). rewrite index_app, ok_bind.
  by rewrite u16_join.
Qed.
Lemma u16_list_app l : Forall (in_width 16) l -> forall pre post, u16_list (pre ++ u16s l ++ post) (len pre) (length l) = Ok l.
Proof.
  induction 1 as [|v l Hv Hl IH]; intros pre post; [done|]. cbn [u16_list length]. unfold u16s. cbn [map concat].
  rewrite <-app_assoc, u16_at_app, ok_bind by done. specialize (IH (pre ++ be_bytes 2 v) post). rewrite <-app_assoc in IH.
  replace (len (pre ++ be_bytes 2 v)) with (len pre + 2) in IH by (unfold len; rewrite length_app, be_bytes_length; lia).
  fold (u16s l). by rewrite IH, ok_bind.
Qed.
Lemma strided_app l : Forall (in_width 16) l -> forall pre post, strided (pre ++ u16s l ++ post) (len pre) (length l) = Ok l.
Proof.
  induction 1 as [|v l Hv Hl IH]; intros pre post; [done|]. cbn [strided length]. unfold u16s. cbn [map concat]. rewrite <-app_assoc.
  rewrite slice_tail, drop_len, ok_bind by (rewrite len_app; unfold len; lia).
  pose proof (u16_at_app [] v (concat (map (be_bytes 2) l) ++ post) Hv) as H0. cbn [app] in H0. change (len []) with 0 in H0. rewrite H0, ok_bind.
  specialize (IH (pre ++ be_bytes 2 v) post). rewrite <-app_assoc in IH.
  replace (len (pre ++ be_bytes 2 v)) with (len pre + 2) in IH by (unfold len; rewrite length_app, be_bytes_length; lia).
  fold (u16s l). by rewrite IH, ok_bind.
Qed.
Lemma len_u16s l : len (u16s l) = 2 * len l.
Proof.
  unfold u16s, len. induction l as [|v l IH]; [done|]. cbn [map concat length]. rewrite length_app, be_bytes_length. lia.
Qed.
Lemma slice_after a b : slice (a ++ b) (len a) (len (a ++ b)) = Ok b.
Proof. rewrite slice_tail by (rewrite len_app; unfold len; lia). by rewrite drop_len. Qed.
Lemma half_double n : 0 <= n -> Z.to_nat (2 * n / 2) = Z.to_nat n /\ Z.to_nat ((2 * n + 1) / 2) = Z.to_nat n.
Proof.
  intros Hn. split; f_equal; [by rewrite Z.mul_comm, Z.div_mul|]. symmetry. apply (Z.div_unique _ _ _ 1); lia.
Qed.

(** A vector with a length of two bytes *)
Lemma u16_vector l : len (be_bytes 2 (2 * len l) ++ u16s l) < 65536 ->
  let sex := be_bytes 2 (2 * len l) ++ u16s l in
  (len sex <? 2) = false /\ u16_at sex 0 = Ok (2 * len l) /\ slice sex 2 (len sex) = Ok (u16s l).
Proof.
  rewrite len_app, len_u16s. unfold len at 1. rewrite be_bytes_length. intros Hl. cbv zeta. assert (0 <= len l) by (unfold len; lia).
  destruct (be2 (2 * len l)) as (x1 & y1 & -> & Hx1 & Hy1 & Hv); [unfold in_width; lia|]. cbn [app]. set (sex := x1 :: y1 :: u16s l).
  assert (Hlen : len sex = 2 + 2 * len l) by (rewrite <-len_u16s; unfold sex, len; cbn [length]; lia). split_and!.
  - apply Z.ltb_ge. lia.
  - change (u16_at sex 0) with (Ok (Z.lor (Z.shiftl x1 8) y1)). by rewrite u16_join, Hv.
  - by rewrite slice_tail by lia.
Qed.
Lemma u16_list_all l : Forall (in_width 16) l -> u16_list (u16s l) 0 (Z.to_nat (len l)) = Ok l.
Proof. intros Hl. pose proof (u16_list_app l Hl [] []) as H. rewrite app_nil_r in H. unfold len at 1. by rewrite Nat2Z.id. Qed.
Lemma strided_all l : Forall (in_width 16) l -> strided (u16s l) 0 (Z.to_nat (len l)) = Ok l.
Proof. intros Hl. pose proof (strided_app l Hl [] []) as H. rewrite app_nil_r in H. unfold len at 1. by rewrite Nat2Z.id. Qed.

Lemma parse_extension_data x s : ext_fits x -> parse_extension (ext_type x) (ext_data x) (add_extension s (ext_type x)) = Ok (apply_ext s x).
Proof.
  intros [Hx Hl]. unfold parse_extension. destruct x as [name|l|l|l|l|t data]; cbn [ext_type ext_data] in *.
  - cbn [Z.eqb sniExtensionType]. set (n := string_bytes name) in *. assert (0 <= len n) by (unfold len; lia).
    assert (len n + 5 < 65536) by (rewrite !len_app in Hl; unfold len in Hl |- *; rewrite !be_bytes_length in Hl; cbn in Hl; lia). clear Hl.
    destruct (be2 (len n + 3)) as (x1 & y1 & -> & _); [unfold in_width; lia|].
    destruct (be2 (len n)) as (x2 & y2 & -> & Hx2 & Hy2 & Hv); [unfold in_width; lia|]. cbn [app].
    set (sex := x1 :: y1 :: sniNameDNSHostnameType :: x2 :: y2 :: n).
    assert (Hlen : len sex = 5 + len n) by (unfold sex, len; cbn [length]; lia). unfold sniExtensionHeaderLen.
    destruct (Z.ltb_spec (len sex) 5); [lia|]. change (index sex 2) with (Ok sniNameDNSHostnameType).
    change (u16_at sex 3) with (Ok (Z.lor (Z.shiftl x2 8) y2)). rewrite !ok_bind, u16_join, Hv by done.
    rewrite slice_tail, ok_bind by lia. change (drop (Z.to_nat 5) sex) with n. by rewrite Z.eqb_refl.
  - cbn [Z.eqb ecExtensionType sniExtensionType]. unfold ecExtensionHeaderLen. destruct (u16_vector l Hl) as (-> & -> & ->). rewrite !ok_bind, len_u16s, Z.eqb_refl.
    cbn [negb]. destruct (half_double (len l)) as [-> _]; [unfold len; lia|]. by rewrite u16_list_all.
  - cbn [Z.eqb Pos.eqb ecpfExtensionType ecExtensionType sniExtensionType]. set (sex := [len l] ++ l).
    assert (Hlen : len sex = 1 + len l) by (unfold sex; by rewrite len_app). unfold ecpfExtensionHeaderLen.
    destruct (Z.ltb_spec (len sex) 1); [unfold len in *; lia|]. change (index sex 0) with (Ok (len l)). rewrite ok_bind.
    rewrite slice_tail, ok_bind by (unfold len in *; lia). change (drop (Z.to_nat 1) sex) with l. by rewrite Z.eqb_refl.
  - cbn [Z.eqb Pos.eqb versionExtensionType ecpfExtensionType ecExtensionType sniExtensionType]. set (sex := [2 * len l] ++ u16s l).
    assert (Hlen : len sex = 1 + 2 * len l) by (unfold sex; by rewrite len_app, len_u16s). unfold versionExtensionHeaderLen.
    assert (0 <= len l) by (unfold len; lia). destruct (Z.ltb_spec (len sex) 1); [lia|]. change (index sex 0) with (Ok (2 * len l)). rewrite ok_bind.
    rewrite slice_tail, ok_bind by lia. change (drop (Z.to_nat 1) sex) with (u16s l).
    destruct (half_double (len l)) as [_ ->]; [done|]. by rewrite strided_all.
  - cbn [Z.eqb Pos.eqb signatureAlgorithmsExtensionType versionExtensionType ecpfExtensionType ecExtensionType sniExtensionType].
    unfold signatureAlgorithmsExtensionHeaderLen. destruct (u16_vector l Hl) as (-> & -> & ->). rewrite !ok_bind. destruct (half_double (len l)) as [_ ->]; [unfold len; lia|]. by rewrite strided_all.
  - destruct Hx as [_ Ht]. unfold known_types in Ht. rewrite !not_elem_of_cons in Ht. destruct Ht as (H1 & H2 & H3 & H4 & H5 & _).
    by rewrite !(proj2 (Z.eqb_neq _ _)) by done.
Qed.

Lemma ext_type_width x : ext_fits x -> in_width 16 (ext_type x).
Proof. intros [Hx _]. destruct x; try done. apply Hx. Qed.
Lemma len_ext_bytes x : len (ext_bytes x) = 4 + len (ext_data x).
Proof. unfold ext_bytes. rewrite !len_app. unfold len at 1 2. rewrite !be_bytes_length. lia. Qed.
Definition exts_bytes (xs : list Extension) : bytes := concat (map ext_bytes xs).

Lemma parse_exts xs : Forall ext_fits xs -> forall fuel s, (length xs <= fuel)%nat -> len (exts_bytes xs) < 65536 ->
  parse_extensions fuel (exts_bytes xs) s = Ok (fold_left apply_ext xs s).
Proof.
  induction 1 as [|x xs Hx Hxs IH]; intros fuel s Hf Hl; [by destruct fuel|]. destruct fuel as [|fuel]; [cbn in Hf; lia|].
  unfold exts_bytes in *. cbn [map concat fold_left] in *. rewrite len_app, len_ext_bytes in Hl.
  assert (0 <= len (concat (map ext_bytes xs))) by (unfold len; lia). assert (0 <= len (ext_data x)) by (unfold len; lia).
  cbn [parse_extensions]. set (tail := concat (map ext_bytes xs)) in *. set (exs := ext_bytes x ++ tail).
  assert (Hlen : len exs = 4 + len (ext_data x) + len tail) by (unfold exs; by rewrite len_app, len_ext_bytes).
  destruct (Z.eqb_spec (len exs) 0); [lia|]. unfold extensionHeaderLen. destruct (Z.ltb_spec (len exs) 4); [lia|].
  destruct (be2 (ext_type x) (ext_type_width x Hx)) as (t1 & t2 & Ht & Ht1 & Ht2 & Htv).
  destruct (be2 (len (ext_data x))) as (l1 & l2 & Hl' & Hl1 & Hl2 & Hlv); [unfold in_width; lia|].
  assert (He : exs = t1 :: t2 :: l1 :: l2 :: ext_data x ++ tail) by (unfold exs, ext_bytes; by rewrite Ht, Hl').
  replace (u16_at exs 0) with (Ok (Z.lor (Z.shiftl t1 8) t2)) by (by rewrite He).
  replace (u16_at exs 2) with (Ok (Z.lor (Z.shiftl l1 8) l2)) by (by rewrite He). rewrite !ok_bind, !u16_join, Htv, Hlv by done.
  destruct (Z.ltb_spec (len exs) (4 + len (ext_data x))); [lia|]. rewrite (slice_ok _ 4), ok_bind by lia.
  replace (take _ (drop (Z.to_nat 4) exs)) with (ext_data x).
  2: { rewrite He. change (drop (Z.to_nat 4) _) with (ext_data x ++ tail). replace (Z.to_nat _) with (length (ext_data x)) by (unfold len; lia).
       by rewrite take_app_length. }
  rewrite parse_extension_data, ok_bind by done. unfold wrap. rewrite Z.mod_small by lia.
  replace (slice exs (4 + len (ext_data x)) (len exs)) with (Ok tail).
  2: { unfold exs. rewrite <-len_ext_bytes. symmetry. apply slice_after. }
  rewrite ok_bind. apply IH; [cbn in Hf; lia|lia].
Qed.

(** A client hello and its record *)
Record Hello := mkHello {
  hl_version : Z;
  hl_random : bytes;
  hl_session : bytes;
  hl_ciphers : list Z;
  hl_compression : bytes;
  hl_extensions : list Extension
}.
Definition hello_exts (h : Hello) : bytes :=
  match hl_extensions h with [] => [] | xs => be_bytes 2 (len (exts_bytes xs)) ++ exts_bytes xs end.
Definition hello_ciphers (h : Hello) : bytes :=
  be_bytes 2 (2 * len (hl_ciphers h)) ++ u16s (hl_ciphers h) ++ [len (hl_compression h)] ++ hl_compression h ++ hello_exts h.
Definition hello_body (h : Hello) : bytes :=
  be_bytes 2 (hl_version h) ++ hl_random h ++ [len (hl_session h)] ++ hl_session h ++ hello_ciphers h.
Definition hello_handshake (h : Hello) : bytes := [handshakeType] ++ be_bytes 3 (len (hello_body h)) ++ hello_body h.
Definition hello_record (h : Hello) : bytes :=
  [contentType; 3; 3] ++ be_bytes 2 (len (hello_handshake h)) ++ hello_handshake h.
Record hello_fits (h : Hello) : Prop := {
  hf_version : in_width 16 (hl_version h) /\ supported_version (hl_version h) = true;
  hf_random : len (hl_random h) = randomDataLen;
  hf_ciphers : Forall (in_width 16) (hl_ciphers h);
  hf_extensions : Forall ext_fits (hl_extensions h);
  hf_length : len (hello_handshake h) < 65536
}.
(** What the parser gives *)
Definition hello_parsed (h : Hello) : ClientHello :=
  let s := fold_left apply_ext (hl_extensions h) ext_zero in
  mkClientHello (hl_version h) (hl_ciphers h) (x_extensions s) (x_ellipticCurves s) (x_ellipticCurvePF s) (x_versions s)
    (x_signatureAlgorithms s) (bytes_string (x_sni s)).

Lemma len_be n v : len (be_bytes n v) = Z.of_nat n.
Proof. unfold len. by rewrite be_bytes_length. Qed.
Lemma len_one {A} (x : A) : len [x] = 1.
Proof. done. Qed.
Lemma len_nonneg {A} (l : list A) : 0 <= len l.
Proof. unfold len. lia. Qed.
Lemma exts_count xs : (length xs <= length (exts_bytes xs))%nat.
Proof.
  unfold exts_bytes. induction xs as [|x xs IH]; [done|]. cbn [map concat length]. rewrite length_app.
  pose proof (len_ext_bytes x) as Hx. pose proof (len_nonneg (ext_data x)). unfold len in *. lia.
Qed.
Lemma parse_hello_exts h v cs : Forall ext_fits (hl_extensions h) -> len (hello_exts h) < 65536 ->
  parseExtensions v cs (hello_exts h) =
  let s := fold_left apply_ext (hl_extensions h) ext_zero in
  Ok (mkClientHello v cs (x_extensions s) (x_ellipticCurves s) (x_ellipticCurvePF s) (x_versions s)
        (x_signatureAlgorithms s) (bytes_string (x_sni s))).
Proof.
  intros Hx Hl. unfold parseExtensions, hello_exts in *. destruct (hl_extensions h) as [|x xs] eqn:E; [done|]. rewrite <-E in *.
  set (b := exts_bytes (hl_extensions h)) in *. rewrite len_app, len_be in *. pose proof (len_nonneg b).
  destruct (Z.eqb_spec (Z.of_nat 2 + len b) 0); [lia|]. unfold extensionsHeaderLen. destruct (Z.ltb_spec (Z.of_nat 2 + len b) 2); [lia|].
  pose proof (u16_at_app [] (len b) b ltac:(unfold in_width; lia)) as Ha. cbn [app] in Ha. change (len []) with 0 in Ha. rewrite Ha, ok_bind.
  replace (Z.of_nat 2 + len b) with (len (be_bytes 2 (len b) ++ b)) by (by rewrite len_app, len_be).
  pose proof (slice_after (be_bytes 2 (len b)) b) as Hb. rewrite len_be in Hb. change (Z.of_nat 2) with 2 in Hb. rewrite Hb, ok_bind.
  destruct (Z.ltb_spec (len b) (len b)); [lia|]. unfold b. rewrite parse_exts; [done|done|apply exts_count|fold b; lia].
Qed.
Lemma len_hello_ciphers h : len (hello_ciphers h) = 3 + 2 * len (hl_ciphers h) + len (hl_compression h) + len (hello_exts h).
Proof. unfold hello_ciphers. rewrite !len_app, len_u16s, len_be, len_one. lia. Qed.

(** Where the fields of a client hello are *)
Lemma hello_ciphers_fields h : len (hello_ciphers h) < 65536 -> let n := 2 * len (hl_ciphers h) in
  u16_at (hello_ciphers h) 0 = Ok n /\ index (hello_ciphers h) (2 + n) = Ok (len (hl_compression h)) /\
  slice (hello_ciphers h) (2 + n + 1 + len (hl_compression h)) (len (hello_ciphers h)) = Ok (hello_exts h).
Proof.
  intros Hl n. pose proof (len_hello_ciphers h) as Hlen. pose proof (len_nonneg (hl_ciphers h)). pose proof (len_nonneg (hl_compression h)).
  pose proof (len_nonneg (hello_exts h)). split; [apply (u16_at_app [] n); unfold in_width; lia|]. split.
  - replace (2 + n) with (len (be_bytes 2 n ++ u16s (hl_ciphers h))) by (rewrite len_app, len_be, len_u16s; lia).
    unfold hello_ciphers. rewrite app_assoc. apply index_app.
  - unfold hello_ciphers. rewrite !app_assoc.
    replace (2 + n + 1 + len (hl_compression h)) with (len (((be_bytes 2 n ++ u16s (hl_ciphers h)) ++ [len (hl_compression h)]) ++ hl_compression h))
      by (rewrite !len_app, len_be, len_u16s, len_one; lia).
    apply slice_after.
Qed.
Lemma parse_hello_ciphers h : Forall (in_width 16) (hl_ciphers h) -> Forall ext_fits (hl_extensions h) -> len (hello_ciphers h) < 65536 ->
  parse_ciphers (hl_version h) (hello_ciphers h) = Ok (hello_parsed h).
Proof.
  intros Hc Hx Hl. pose proof (len_hello_ciphers h) as Hlen. pose proof (len_nonneg (hl_ciphers h)). pose proof (len_nonneg (hl_compression h)).
  pose proof (len_nonneg (hello_exts h)). unfold parse_ciphers, cipherSuiteHeaderLen, compressMethodHeaderLen.
  destruct (hello_ciphers_fields h Hl) as (Ha & Hb & He). set (n := 2 * len (hl_ciphers h)) in *. destruct (Z.ltb_spec (len (hello_ciphers h)) 2); [lia|].
  rewrite Ha, ok_bind. destruct (Z.ltb_spec (len (hello_ciphers h)) (2 + n + 1)); [lia|].
  destruct (half_double (len (hl_ciphers h))) as [Hn _]; [lia|]. replace (Z.to_nat (n / 2)) with (length (hl_ciphers h)) by (unfold n; rewrite Hn; unfold len; lia).
  assert (Hd : u16_list (hello_ciphers h) 2 (length (hl_ciphers h)) = Ok (hl_ciphers h)) by (by apply (u16_list_app (hl_ciphers h) Hc (be_bytes 2 n))).
  rewrite Hd, ok_bind, Hb, ok_bind. destruct (Z.ltb_spec (len (hello_ciphers h)) (2 + n + 1 + len (hl_compression h))); [lia|].
  rewrite He, ok_bind. apply parse_hello_exts; [done|lia].
Qed.

Lemma be3 v : 0 <= v < 2 ^ 24 -> exists a b c, be_bytes 3 v = [a; b; c] /\ Z.lor (Z.lor (Z.shiftl a 16) (Z.shiftl b 8)) c = v.
Proof.
  intros Hv. exists (v / 256 / 256 mod 256), (v / 256 mod 256), (v mod 256). split; [done|].
  replace (Z.shiftl (v / 256 / 256 mod 256) 16) with (Z.shiftl (Z.shiftl (v / 256 / 256 mod 256) 8) 8) by (by rewrite Z.shiftl_shiftl).
  rewrite <-Z.shiftl_lor, !lor_byte by (unfold is_byte, in_width; apply Z.mod_pos_bound; lia).
  rewrite (Z.mod_small (v / 256 / 256) 256).
  - pose proof (Z.div_mod v 256). pose proof (Z.div_mod (v / 256) 256). lia.
  - rewrite Z.div_div by lia. split; [apply Z.div_pos; lia|apply Z.div_lt_upper_bound; lia].
Qed.

Record handshake_fields (h : Hello) : Prop := {
  hs_len : len (hello_handshake h) = 39 + len (hl_session h) + len (hello_ciphers h);
  hs_type : index (hello_handshake h) 0 = Ok handshakeType;
  hs_size : exists a b c, index (hello_handshake h) 1 = Ok a /\ index (hello_handshake h) 2 = Ok b /\ index (hello_handshake h) 3 = Ok c /\
    Z.lor (Z.lor (Z.shiftl a 16) (Z.shiftl b 8)) c = len (hello_handshake h) - 4;
  hs_version : u16_at (hello_handshake h) 4 = Ok (hl_version h);
  hs_session : index (hello_handshake h) 38 = Ok (len (hl_session h));
  hs_ciphers : slice (hello_handshake h) (39 + len (hl_session h)) (len (hello_handshake h)) = Ok (hello_ciphers h)
}.
Lemma hello_handshake_fields h : hello_fits h -> handshake_fields h.
Proof.
  intros [[Hv Hs] Hr Hc Hx Hl]. unfold randomDataLen in Hr. pose proof (len_nonneg (hl_session h)). pose proof (len_nonneg (hello_ciphers h)).
  assert (Hbody : len (hello_body h) = 35 + len (hl_session h) + len (hello_ciphers h))
    by (unfold hello_body; rewrite !len_app, len_be, len_one; lia).
  assert (Hlen : len (hello_handshake h) = 4 + len (hello_body h)) by (unfold hello_handshake; rewrite !len_app, len_be, len_one; lia).
  destruct (be3 (len (hello_body h))) as (a & b & c & Hbe & Hval); [lia|].
  assert (He : hello_handshake h = handshakeType :: a :: b :: c :: hello_body h) by (unfold hello_handshake; by rewrite Hbe).
  set (pre := [handshakeType; a; b; c] ++ be_bytes 2 (hl_version h) ++ hl_random h).
  assert (Hpre : len pre = 38) by (unfold pre; rewrite !len_app, len_be; change (len [handshakeType; a; b; c]) with 4; lia).
  assert (He' : hello_handshake h = pre ++ len (hl_session h) :: hl_session h ++ hello_ciphers h)
    by (rewrite He; unfold pre, hello_body; cbn [app]; by rewrite <-app_assoc).
  constructor; [lia|by rewrite He|exists a, b, c; rewrite Hlen; split_and!; [by rewrite He..|lia]|rewrite He; by apply (u16_at_app [handshakeType; a; b; c])
    |rewrite He', <-Hpre; apply index_app|].
  rewrite He'. replace (pre ++ len (hl_session h) :: hl_session h ++ hello_ciphers h) with
    ((pre ++ [len (hl_session h)] ++ hl_session h) ++ hello_ciphers h) by (by rewrite <-!app_assoc).
  replace (39 + len (hl_session h)) with (len (pre ++ [len (hl_session h)] ++ hl_session h)) by (rewrite !len_app, Hpre, len_one; lia).
  apply slice_after.
Qed.

Lemma parse_hello_handshake h : hello_fits h -> parseHandshake (hello_handshake h) = Ok (hello_parsed h).
Proof.
  intros Hh. destruct (hello_handshake_fields h Hh) as [Hlen Hty (a & b & c & Ha & Hb & Hc' & Hval) Hver Hsess Hslice]. destruct Hh as [[Hv Hs] Hr Hc Hx Hl].
  pose proof (len_nonneg (hl_session h)). pose proof (len_nonneg (hello_ciphers h)).
  unfold parseHandshake, handshakeHeaderLen, randomDataLen, sessionIDHeaderLen. change (6 + 32 + 1) with 39.
  destruct (Z.ltb_spec (len (hello_handshake h)) 39); [lia|]. rewrite Hty, Ha, Hb, Hc', !ok_bind, Z.eqb_refl. cbn [negb].
  rewrite slice_tail, ok_bind, len_drop, Hval, Z.eqb_refl by lia. cbn [negb]. rewrite Hver, ok_bind, Hs. cbn [negb]. rewrite Hsess, ok_bind.
  destruct (Z.ltb_spec (len (hello_handshake h)) (39 + len (hl_session h))); [lia|]. rewrite Hslice, ok_bind. apply parse_hello_ciphers; [done..|lia].
Qed.

(** The record of a client hello is parsed as the client hello. *)
Lemma ja3_parses_record h rest : hello_fits h -> ja3_Compute (hello_record h ++ rest) = Ok (hello_parsed h).
Proof.
  intros Hh. pose proof (hf_length h Hh) as Hl. unfold ja3_Compute, recordLayerHeaderLen. set (n := len (hello_handshake h)) in *.
  pose proof (len_nonneg (hello_handshake h)). fold n in H. destruct (be2 n) as (x & y & Hbe & Hx & Hy & Hv); [unfold in_width; lia|].
  assert (He : hello_record h ++ rest = [contentType; 3; 3; x; y] ++ hello_handshake h ++ rest)
    by (unfold hello_record; fold n; by rewrite Hbe, <-!app_assoc). rewrite He.
  set (seg := [contentType; 3; 3; x; y] ++ hello_handshake h ++ rest).
  assert (Hlen : len seg = 5 + n + len rest) by (unfold seg; rewrite !len_app; fold n; change (len [_; _; _; _; _]) with 5; lia).
  pose proof (len_nonneg rest). destruct (Z.ltb_spec (len seg) 5); [lia|]. change (index seg 0) with (Ok contentType). rewrite ok_bind, Z.eqb_refl.
  cbn [negb]. change (u16_at seg 1) with (Ok (Z.lor (Z.shiftl 3 8) 3)). rewrite ok_bind. change (negb _) with false.
  change (u16_at seg 3) with (Ok (Z.lor (Z.shiftl x 8) y)). rewrite ok_bind, u16_join, Hv by done. rewrite slice_tail, ok_bind, len_drop by lia.
  destruct (Z.ltb_spec (len seg - 5) n); [lia|]. rewrite slice_ok, ok_bind by lia.
  replace (5 + n - 5) with n by lia. change (drop (Z.to_nat 5) seg) with (hello_handshake h ++ rest).
  replace (take (Z.to_nat n) (hello_handshake h ++ rest)) with (hello_handshake h);
    [by apply parse_hello_handshake|]. unfold n, len. by rewrite Nat2Z.id, take_app_length.
Qed.
