(* ===== verification/Quic.v ===== *)
(** * The QUIC sniffer

    [common/sniff/quic.go] and [common/sniff/internal/qtls]: the client hello in
    the Initial packets of a connection.  The packet is unprotected and decrypted,
    the crypto frames are collected over several packets and put together in the
    order of their offsets, and the client hello gives the domain and a guess of
    the client.

    Hashes and ciphers are outside ([QuicCrypto]).  Putting the fragments together
    is a loop that need not end; it runs on fuel, and [None] stands for a call that
    is still running.  [int] has 64 bits. *)

From stdpp Require Import base numbers list strings gmap option.
From Stdlib Require Import ZArith Lia.
From S2P Require Import Prelude Bytes NetAddr Metadata Varbin Srs Router Ja3.

Local Open Scope Z_scope.

(** HKDF and AES-GCM; a decrypted text is shorter than its cipher text by the tag,
    and what [Seal] encrypts [Open] decrypts. *)
Class QuicCrypto := {
  hkdf_Extract : bytes -> bytes -> bytes;
  hkdf_Expand : bytes -> bytes -> Z -> bytes;
  aes_Encrypt : bytes -> bytes -> bytes;
  gcm_Open : bytes -> bytes -> bytes -> bytes -> Res bytes;
  gcm_Seal : bytes -> bytes -> bytes -> bytes -> bytes;
  gcm_Open_Seal key nonce p ad : Forall is_byte p -> gcm_Open key nonce (gcm_Seal key nonce p ad) ad = Ok p;
  gcm_Seal_length key nonce p ad : len (gcm_Seal key nonce p ad) = len p + 16;
  gcm_Open_bytes key nonce c ad p : gcm_Open key nonce c ad = Ok p -> Forall is_byte p;
  aes_Encrypt_length key b : len (aes_Encrypt key b) = 16;
  gcm_Open_length key nonce c ad p : gcm_Open key nonce c ad = Ok p -> len p + 16 = len c;
  gcm_Open_returns key nonce c ad : returns (gcm_Open key nonce c ad)
}.

(** [E.Cause1] *)
Definition E_Cause1 (cause err : error) : error := E_Cause cause [AErr err].

(** ** qtls *)

Definition VersionDraft29 : Z := 0xff00001d.
Definition Version1 : Z := 0x1.
Definition Version2 : Z := 0x6b3343cf.
Definition SaltOld : bytes :=
  [0xaf; 0xbf; 0xec; 0x28; 0x99; 0x93; 0xd2; 0x4c; 0x9e; 0x97; 0x86; 0xf1; 0x9c; 0x61; 0x11; 0xe0; 0x43; 0x90; 0xa8; 0x99].
Definition SaltV1 : bytes :=
  [0x38; 0x76; 0x2c; 0xf7; 0xf5; 0x59; 0x34; 0xb3; 0x4d; 0x17; 0x9a; 0xe6; 0xa4; 0xc8; 0x0c; 0xad; 0xcc; 0xbb; 0x7f; 0x0a].
Definition SaltV2 : bytes :=
  [0x0d; 0xed; 0xe3; 0xde; 0xf7; 0x00; 0xa6; 0xdb; 0x81; 0x93; 0x81; 0xbe; 0x6e; 0x26; 0x9d; 0xcb; 0xf9; 0xbd; 0x2e; 0xd9].

(** [qtls.ReadUvarint]: the two highest bits of the first byte give the length. *)
Fixpoint uvarint_bytes (n : nat) (v : Z) : Reader Z :=
  match n with O => mret v | S n => b ← ReadByte (ST := file_stream); uvarint_bytes n (v * 256 + b) end.
Definition quic_ReadUvarint : Reader Z :=
  firstByte ← ReadByte (ST := file_stream);
  uvarint_bytes (Nat.pow 2 (Z.to_nat (Z.shiftr (Z.land firstByte 0xc0) 6)) - 1) (Z.land firstByte 0x3f).

Section Quic.
Context {QC : QuicCrypto}.

(** [HKDFExpandLabel] *)
Definition HKDFExpandLabel (secret context : bytes) (label : string) (length : Z) : bytes :=
  hkdf_Expand secret
    (be_bytes 2 (u16 length) ++ [u8 (6 + len (string_bytes label))] ++ string_bytes "tls13 " ++ string_bytes label ++
     [u8 (len context)] ++ context) length.

(** [xorNonceAEAD]: the nonce is xored into the last eight bytes of the mask. *)
Definition xor_bytes (a b : bytes) : bytes := zip_with Z.lxor a b.
Definition aead_Open (key iv nonce ciphertext ad : bytes) : Res bytes :=
  gcm_Open key (take 4 iv ++ xor_bytes (drop 4 iv) nonce) ciphertext ad.

(** ** The packet *)

(** [io.CopyN(io.Discard, reader, n)] *)
Definition skip (n : Z) : Reader unit := fun bs =>
  if n <=? len bs then Ok (tt, drop (Z.to_nat n) bs) else Err io_EOF.

(** The long header of an Initial packet *)
Record Header := mkHeader {
  q_version : Z;
  q_destConnID : bytes;
  q_hdrLen : Z;
  q_packetLen : Z;
  q_pnBytes : bytes
}.
Definition read_header (packet : bytes) : Res Header :=
  '(typeByte, r) ← ReadByte (ST := file_stream) packet;
  if Z.land typeByte 0x40 =? 0 then Err (E_New [AStr "bad type byte"])
  else
    '(versionNumber, r) ← binary_Read (ST := file_stream) 4 r;
    if negb (versionNumber =? VersionDraft29) && negb (versionNumber =? Version1) && negb (versionNumber =? Version2)
    then Err (E_New [AStr "bad version"])
    else
      let packetType := Z.shiftr (Z.land typeByte 0x30) 4 in
      if (packetType =? 0) && (versionNumber =? Version2) || (packetType =? 2) && negb (versionNumber =? Version2) || (2 <? packetType)
      then Err (E_New [AStr "bad packet type"])
      else
        '(destConnIDLen, r) ← ReadByte (ST := file_stream) r;
        if (destConnIDLen =? 0) || (20 <? destConnIDLen) then Err (E_New [AStr "bad destination connection id length"])
        else
          '(destConnID, r) ← ReadFull (ST := file_stream) (Z.to_nat destConnIDLen) r;
          '(srcConnIDLen, r) ← ReadByte (ST := file_stream) r;
          '(_, r) ← skip srcConnIDLen r;
          '(tokenLen, r) ← quic_ReadUvarint r;
          '(_, r) ← skip tokenLen r;
          '(packetLen, r) ← quic_ReadUvarint r;
          let hdrLen := len packet - len r in
          if len packet <? hdrLen + packetLen then Err ErrInvalid
          else
            '(_, r) ← skip 4 r;
            '(pnBytes, _) ← ReadFull (ST := file_stream) 16 r;
            Ok (mkHeader versionNumber destConnID hdrLen packetLen pnBytes).

(** The secret of the client *)
Definition client_secret (h : Header) : bytes :=
  let salt := if q_version h =? Version1 then SaltV1 else if q_version h =? Version2 then SaltV2 else SaltOld in
  HKDFExpandLabel (hkdf_Extract (q_destConnID h) salt) [] "client in" 32.

(** Header protection: the packet with its first byte and packet number in clear,
    the length of the packet number and its value.  The source xors four bytes and
    copies back those behind the packet number. *)
Definition unprotect (packet : bytes) (h : Header) : Res (bytes * Z * Z) :=
  let label := if q_version h =? Version2 then "quicv2 hp" else "quic hp" in
  let mask := aes_Encrypt (HKDFExpandLabel (client_secret h) [] label 16) (q_pnBytes h) in
  first ← index packet 0;
  mask0 ← index mask 0;
  let first := Z.lxor first (Z.land mask0 0xf) in
  middle ← slice packet 1 (q_hdrLen h);
  number ← slice packet (q_hdrLen h) (q_hdrLen h + 4);
  maskBytes ← slice mask 1 5;
  let packetNumberLength := Z.land first 0x3 + 1 in
  if q_packetLen h + q_hdrLen h <? q_hdrLen h + packetNumberLength then Err ErrInvalid
  else
    let number := take (Z.to_nat packetNumberLength) (xor_bytes number maskBytes) in
    rest ← slice packet (q_hdrLen h + packetNumberLength) (len packet);
    Ok ([first] ++ middle ++ number ++ rest, packetNumberLength, be_value number).

(** The decrypted frames, and the bytes behind them in the same array *)
Definition decrypt (packet : bytes) (h : Header) : Res (bytes * bytes) :=
  '(newPacket, packetNumberLength, packetNumber) ← unprotect packet h;
  let extHdrLen := q_hdrLen h + packetNumberLength in
  data ← slice newPacket extHdrLen (q_packetLen h + q_hdrLen h);
  let secret := client_secret h in
  let key := HKDFExpandLabel secret [] (if q_version h =? Version2 then "quicv2 key" else "quic key") 16 in
  let iv := HKDFExpandLabel secret [] (if q_version h =? Version2 then "quicv2 iv" else "quic iv") 12 in
  decrypted ← aead_Open key iv (be_bytes 8 packetNumber) data (take (Z.to_nat extHdrLen) newPacket);
  Ok (decrypted, drop (Z.to_nat (extHdrLen + len decrypted)) newPacket).

(** ** Frames *)

Record qCryptoFragment := mkFragment { f_offset : Z; f_length : Z; f_payload : bytes }.

Definition frameTypePadding : Z := 0x00.
Definition frameTypePing : Z := 0x01.
Definition frameTypeAck : Z := 0x02.
Definition frameTypeAck2 : Z := 0x03.
Definition frameTypeCrypto : Z := 0x06.
Definition frameTypeConnectionClose : Z := 0x1c.

Fixpoint skip_uvarints (n : nat) : Reader unit :=
  match n with O => mret tt | S n => _ ← quic_ReadUvarint; skip_uvarints n end.
(** An ACK frame behind its type *)
Definition read_ack (frameType : Z) : Reader unit :=
  _ ← quic_ReadUvarint;
  _ ← quic_ReadUvarint;
  ackRangeCount ← quic_ReadUvarint;
  _ ← quic_ReadUvarint;
  _ ← read_times ackRangeCount (fun _ => _ ← quic_ReadUvarint; quic_ReadUvarint);
  if frameType =? 0x03 then skip_uvarints 3 else mret tt.
(** [Seek(n, io.SeekCurrent)]: a place beyond the end is allowed. *)
Definition seek (n : Z) : Reader unit := fun bs => Ok (tt, drop (Z.to_nat n) bs).
(** A CONNECTION_CLOSE frame behind its type *)
Definition read_close : Reader unit := _ ← quic_ReadUvarint; _ ← quic_ReadUvarint; length ← quic_ReadUvarint; seek length.

(** A CRYPTO frame behind its type: the payload is a slice of the array, which goes
    on with [tail] behind the decrypted text. *)
Definition read_place : Reader (Z * Z) := offset ← quic_ReadUvarint; length ← quic_ReadUvarint; mret (offset, length).
Definition read_crypto (tail : bytes) : Reader qCryptoFragment :=
  '(offset, length) ← read_place;
  (fun bs =>
     payload ← slice (bs ++ tail) 0 length;
     Ok (mkFragment offset length payload, drop (Z.to_nat length) bs)) : Reader qCryptoFragment.

(** The loop over the frames: their types and the fragments.  Fuel: a frame takes a
    byte. *)
Fixpoint read_frames (fuel : nat) (tail bs : bytes) : Res (list Z * list qCryptoFragment) :=
  match bs with
  | [] => Ok ([], [])
  | frameType :: bs =>
      match fuel with
      | O => Panic "fuel"
      | S fuel =>
          '(frame, bs) ←
            (if (frameType =? frameTypePadding) || (frameType =? frameTypePing) then Ok (None, bs)
             else if (frameType =? frameTypeAck) || (frameType =? frameTypeAck2)
             then '(_, bs) ← read_ack frameType bs; Ok (None, bs)
             else if frameType =? frameTypeCrypto
             then '(fragment, bs) ← read_crypto tail bs; Ok (Some fragment, bs)
             else if frameType =? frameTypeConnectionClose
             then '(_, bs) ← read_close bs; Ok (None, bs)
             else Err ErrInvalid);
          '(types, fragments) ← read_frames fuel tail bs;
          Ok (frameType :: types, match frame with Some f => f :: fragments | None => fragments end)
      end
  end.

(** ** The client hello *)

(** The loop [find]: the payload of the first fragment at [index], then on from its
    end *)
Fixpoint find_loop (fuel : nat) (fragments : list qCryptoFragment) (index : Z) : option bytes :=
  match fuel with
  | O => None
  | S fuel =>
      match List.find (fun f => f_offset f =? index) fragments with
      | None => Some []
      | Some f => app (f_payload f) <$> find_loop fuel fragments (wrap 64 (f_offset f + f_length f))
      end
  end.
Definition frame_len (fragments : list qCryptoFragment) : Z :=
  fold_left (fun n f => wrap 64 (n + f_length f)) fragments 0.
(** The buffer: a record header and the fragments *)
Definition assemble (fuel : nat) (fragments : list qCryptoFragment) : option bytes :=
  app ([0x16; 3; 3] ++ be_bytes 2 (u16 (frame_len fragments))) <$> find_loop fuel fragments 0.

(** ** The client *)

Definition isZero (l : list Z) : bool := forallb (fun v => v =? 0) l.
Definition count (l : list Z) (value : Z) : Z := len (List.filter (fun v => v =? value) l).
Definition x25519Kyber768Draft00 : Z := 0x11EC.
Definition extensionRenegotiationInfo : Z := 0xFF01.
Definition isQUICGo (fingerprint : ClientHello) : bool :=
  bool_decide (x25519Kyber768Draft00 ∈ ch_EllipticCurves fingerprint) ||
  bool_decide (extensionRenegotiationInfo ∈ ch_Extensions fingerprint).
Definition is_grease (v : option Z) : bool := match v with Some v => Z.land v GreaseBitmask =? 0x0A0A | None => false end.
Definition TLS_AES_256_GCM_SHA384 : Z := 0x1302.
Definition X25519 : Z := 29.
Definition ECDSAWithP256AndSHA256 : Z := 0x0403.
(** The two marks of Safari *)
Definition is_safari (h : ClientHello) : bool :=
  (len (ch_Versions h) =? 2) && is_grease (head (ch_Versions h)) && (len (ch_EllipticCurves h) =? 5) && is_grease (head (ch_EllipticCurves h)) ||
  bool_decide (ch_CipherSuites h = [TLS_AES_256_GCM_SHA384]) && bool_decide (ch_EllipticCurves h = [X25519]) &&
  bool_decide (ch_SignatureAlgorithms h = [ECDSAWithP256AndSHA256]).
(** The loop [for metadata.Client == ""], which runs once *)
Definition detect_client (types : list Z) (fingerprint : ClientHello) : Res string :=
  if len types =? 1 then Ok "firefox"
  else
    first ← index types 0;
    if (first =? frameTypeCrypto) && isZero (drop 1 types) && is_safari fingerprint then Ok "safari"
    else
      last ← index types (len types - 1);
      if (last =? frameTypeCrypto) && isZero (take (length types - 1) types) then Ok "quic-go"
      else if (1 <? count types frameTypeCrypto) || (0 <? count types frameTypePing)
      then Ok (if isQUICGo fingerprint then "quic-go" else "chromium")
      else Ok "unknown".

(** ** The sniffer *)

(** The metadata and its [SniffContext] *)
Record Sniff := mkSniff { sn_metadata : InboundContext; sn_context : option (list qCryptoFragment) }.
Definition set_sniffed (m : InboundContext) (protocol domain client : string) : InboundContext :=
  let s := ic_sniffer m in set_sniffer m (mkSniffer protocol domain client (c_SnifferNames s) (c_SniffError s)).
Definition set_Protocol (m : InboundContext) (protocol : string) : InboundContext :=
  set_sniffed m protocol (c_Domain (ic_sniffer m)) (c_Client (ic_sniffer m)).

(** From the fragments of this packet and of earlier ones on *)
Definition sniff_hello (fuel : nat) (types : list Z) (fragments : list qCryptoFragment) (s : Sniff) : option (Res unit * Sniff) :=
  let fragments := fragments ++ default [] (sn_context s) in
  (fun buffer =>
     let m := set_Protocol (sn_metadata s) "quic" in
     match ja3_Compute buffer with
     | Err err => (Err (E_Cause1 ErrNeedMoreData err), mkSniff m (Some fragments))
     | Panic p => (Panic p, mkSniff m None)
     | Ok fingerprint =>
         let m := set_sniffed m "quic" (ch_ServerName fingerprint) (c_Client (ic_sniffer m)) in
         if bool_decide (c_Client (ic_sniffer m) = "") then
           match detect_client types fingerprint with
           | Ok client => (Ok tt, mkSniff (set_sniffed m "quic" (ch_ServerName fingerprint) client) None)
           | Err e => (Err e, mkSniff m None)
           | Panic p => (Panic p, mkSniff m None)
           end
         else (Ok tt, mkSniff m None)
     end) <$> assemble fuel fragments.

(** [QUICClientHello] up to the end of the frames *)
Definition read_packet (packet : bytes) : Res (list Z * list qCryptoFragment) :=
  h ← read_header packet; '(decrypted, tail) ← decrypt packet h; read_frames (length decrypted) tail decrypted.
(** [QUICClientHello] *)
Definition QUICClientHello (fuel : nat) (s : Sniff) (packet : bytes) : option (Res unit * Sniff) :=
  match read_packet packet with
  | Err e => Some (Err e, s)
  | Panic p => Some (Panic p, s)
  | Ok (types, fragments) => sniff_hello fuel types fragments s
  end.

End Quic.
