(* ===== verification/QuicFragments.v ===== *)
(** * Putting the crypto fragments together

    The loop [find] of [QUICClientHello] walks from offset to offset.  On the
    pieces of one byte string, in any order, it gives the string; with some pieces
    missing it gives a part from the start.  On fragments that are not empty it
    ends; an empty fragment at the current offset is found again and again. *)

From stdpp Require Import base numbers list strings option.
From Stdlib Require Import ZArith Lia.
From S2P Require Import Prelude Bytes Varbin Srs Router Ja3 Quic.

Local Open Scope Z_scope.

(** The fragments of the consecutive pieces of a string *)
Fixpoint cut (off : Z) (ds : list bytes) : list qCryptoFragment :=
  match ds with
  | [] => []
  | d :: ds => mkFragment off (len d) d :: cut (off + len d) ds
  end.
Definition nonempty (d : bytes) : Prop := 0 < len d.

Lemma len_concat_cons d (ds : list bytes) : len (concat (d :: ds)) = len d + len (concat ds).
Proof. cbn [concat]. by rewrite len_app. Qed.
Lemma cut_offsets ds : forall off f, Forall nonempty ds -> f ∈ cut off ds -> off <= f_offset f < off + len (concat ds).
Proof.
  induction ds as [|d ds IH]; intros off f Hne Hf; cbn [cut] in Hf; [by apply not_elem_of_nil in Hf|].
  apply Forall_cons_iff in Hne as [Hd Hne]. unfold nonempty in Hd. rewrite len_concat_cons. pose proof (len_nonneg (concat ds)).
  apply elem_of_cons in Hf as [->|Hf]; [cbn; lia|]. specialize (IH _ _ Hne Hf). lia.
Qed.
Lemma cut_app pre : forall off post, cut off (pre ++ post) = cut off pre ++ cut (off + len (concat pre)) post.
Proof.
  induction pre as [|d pre IH]; intros off post; cbn [cut app]; [by rewrite Z.add_0_r|].
  rewrite IH, len_concat_cons. by rewrite Z.add_assoc.
Qed.
(** The piece at an offset is the only one there. *)
Lemma cut_at pre d post f : Forall nonempty (pre ++ d :: post) -> f ∈ cut 0 (pre ++ d :: post) ->
  f_offset f = len (concat pre) -> f = mkFragment (len (concat pre)) (len d) d.
Proof.
  intros Hne Hf Ho. apply Forall_app in Hne as [Hpre Hne]. apply Forall_cons_iff in Hne as [Hd Hpost].
  rewrite cut_app in Hf. apply elem_of_app in Hf as [Hf|Hf]; [pose proof (cut_offsets _ _ _ Hpre Hf); lia|].
  cbn [cut] in Hf. apply elem_of_cons in Hf as [->|Hf]; [by rewrite Z.add_0_l|].
  pose proof (cut_offsets _ _ _ Hpost Hf). unfold nonempty in Hd. lia.
Qed.
Lemma cut_end ds f : Forall nonempty ds -> f ∈ cut 0 ds -> f_offset f <> len (concat ds).
Proof. intros Hne Hf. pose proof (cut_offsets _ _ _ Hne Hf). lia. Qed.

Lemma find_spec {A} (p : A -> bool) l :
  match List.find p l with Some x => x ∈ l /\ p x = true | None => Forall (fun x => p x = false) l end.
Proof.
  destruct (List.find p l) as [x|] eqn:E.
  - apply find_some in E as [Hx Hp]. split; [by apply list_elem_of_In|done].
  - apply list.Forall_forall. intros x Hx. apply (find_none p l E). by apply list_elem_of_In.
Qed.

(** A part of the pieces: the walk gives a part of the string from its start, and
    stops where a piece is missing. *)
Lemma find_loop_part fragments ds : Forall nonempty ds -> len (concat ds) < 2 ^ 64 -> (forall f, f ∈ fragments -> f ∈ cut 0 ds) ->
  forall post pre fuel, ds = pre ++ post -> (length post < fuel)%nat ->
  exists k, find_loop fuel fragments (len (concat pre)) = Some (concat (take k post)) /\ (k <= length post)%nat /\
    Forall (fun f => f ∈ fragments) (cut (len (concat pre)) (take k post)) /\
    (forall d, post !! k = Some d -> mkFragment (len (concat (pre ++ take k post))) (len d) d ∉ fragments).
Proof.
  intros Hne Hlen Hsub post. induction post as [|d post IH]; intros pre fuel Hds Hfuel; (destruct fuel as [|fuel]; [cbn in Hfuel; lia|]);
    cbn [find_loop]; pose proof (find_spec (fun f => f_offset f =? len (concat pre)) fragments) as Hfind; destruct (List.find _ _) as [f|].
  - destruct Hfind as [Hf Ho]. apply Z.eqb_eq in Ho. rewrite app_nil_r in Hds. subst ds. by destruct (cut_end pre f Hne (Hsub f Hf)).
  - exists 0%nat. by repeat split.
  - destruct Hfind as [Hf Ho]. apply Z.eqb_eq in Ho. assert (Hf' : f = mkFragment (len (concat pre)) (len d) d)
      by (apply (cut_at pre d post); [by rewrite <-Hds|rewrite <-Hds; by apply Hsub|done]).
    destruct (IH (pre ++ [d]) fuel) as (k & Hk & Hle & Hall & Hstop); [by rewrite <-app_assoc|cbn in Hfuel; lia|].
    assert (Hpre : len (concat (pre ++ [d])) = len (concat pre) + len d) by (rewrite concat_app, len_app; cbn [concat]; by rewrite app_nil_r).
    exists (S k). subst f. cbn [f_payload f_offset f_length]. unfold wrap. rewrite Z.mod_small.
    2: { rewrite Hds, concat_app, len_app, len_concat_cons in Hlen. pose proof (len_nonneg (concat pre)). pose proof (len_nonneg d).
         pose proof (len_nonneg (concat post)). lia. }
    rewrite <-Hpre, Hk. split; [done|]. split; [cbn; lia|]. cbn [take cut]. rewrite <-Hpre. split; [by constructor|].
    intros d' Hd'. specialize (Hstop d' Hd'). by rewrite <-app_assoc in Hstop.
  - exists 0%nat. split; [done|]. split; [lia|]. split; [constructor|]. intros d' [= <-] Hin.
    cbn [take] in Hin. rewrite app_nil_r in Hin. rewrite list.Forall_forall in Hfind. specialize (Hfind _ Hin). cbn in Hfind. lia.
Qed.

Lemma frame_len_sum fragments : forall n, 0 <= n -> Forall (fun f => 0 <= f_length f) fragments ->
  n + foldr Z.add 0 (map f_length fragments) < 2 ^ 64 ->
  fold_left (fun n f => wrap 64 (n + f_length f)) fragments n = n + foldr Z.add 0 (map f_length fragments).
Proof.
  induction fragments as [|f fs IH]; intros n Hn Hl Hs; cbn [fold_left map foldr] in *; [lia|].
  apply Forall_cons_iff in Hl as [Hf Hl].
  assert (0 <= foldr Z.add 0 (map f_length fs)) by (clear IH Hs; induction Hl; cbn; lia).
  unfold wrap at 2. rewrite Z.mod_small by lia. rewrite IH by (done || lia). lia.
Qed.
Lemma sum_perm l1 l2 : l1 ≡ₚ l2 -> foldr Z.add 0 l1 = foldr Z.add 0 l2.
Proof. induction 1; cbn; lia. Qed.
#[local] Instance sum_proper : Proper ((≡ₚ) ==> eq) (foldr Z.add 0) := sum_perm.
Lemma sum_submseteq l1 l2 : Forall (fun z => 0 <= z) l2 -> l1 ⊆+ l2 -> foldr Z.add 0 l1 <= foldr Z.add 0 l2.
Proof.
  intros Hz Hs. apply submseteq_Permutation in Hs as [k Hk]. rewrite (sum_perm _ _ Hk). rewrite foldr_app.
  rewrite Hk, Forall_app in Hz. destruct Hz as [_ Hz]. clear Hk. induction l1 as [|z l1 IH]; cbn; [|lia].
  induction Hz; cbn; lia.
Qed.
Lemma cut_sum ds : forall off, foldr Z.add 0 (map f_length (cut off ds)) = len (concat ds).
Proof. induction ds as [|d ds IH]; intros off; cbn [cut map foldr f_length]; [done|]. by rewrite IH, len_concat_cons. Qed.
Lemma cut_lengths ds : forall off, Forall (fun f => 0 <= f_length f) (cut off ds).
Proof. induction ds as [|d ds IH]; intros off; cbn [cut]; [done|]. constructor; [apply len_nonneg|done]. Qed.

(** All the pieces, in any order *)
Lemma find_loop_all fragments ds fuel : Forall nonempty ds -> len (concat ds) < 2 ^ 64 -> fragments ≡ₚ cut 0 ds -> (length ds < fuel)%nat ->
  find_loop fuel fragments 0 = Some (concat ds).
Proof.
  intros Hne Hlen Hp Hf. destruct (find_loop_part fragments ds) with (post := ds) (pre := @nil bytes) (fuel := fuel) as (k & Hk & Hle & _ & Hstop); [done..| |done|done|].
  - intros f. by rewrite Hp.
  - change (len (concat [])) with 0 in Hk. rewrite Hk. f_equal. f_equal. apply take_ge. destruct (ds !! k) as [d|] eqn:E; [|by apply lookup_ge_None].
    exfalso. apply (Hstop d eq_refl). rewrite Hp. rewrite <-(take_drop_middle ds k d E) at 2. rewrite cut_app. apply elem_of_app. right. cbn [cut app]. left.
Qed.

(** Not all the pieces: the bytes found end before the string, and are at most as
    many as the frames announce. *)
Lemma find_loop_missing fragments ds rest fuel : Forall nonempty ds -> len (concat ds) < 2 ^ 64 -> rest <> [] -> fragments ++ rest ≡ₚ cut 0 ds ->
  (length ds < fuel)%nat ->
  exists found more, find_loop fuel fragments 0 = Some found /\ found ++ more = concat ds /\
    len found <= frame_len fragments < len (concat ds).
Proof.
  intros Hne Hlen Hrest Hp Hf.
  destruct (find_loop_part fragments ds) with (post := ds) (pre := @nil bytes) (fuel := fuel) as (k & Hk & Hle & Hall & _); [done..| |done|done|].
  { intros f Hin. rewrite <-Hp. apply elem_of_app. by left. }
  change (len (concat [])) with 0 in *. exists (concat (take k ds)), (concat (drop k ds)). split; [done|].
  split; [by rewrite <-concat_app, take_drop|].
  pose proof (cut_lengths ds 0) as Hz. rewrite <-Hp, Forall_app in Hz. destruct Hz as [Hz1 Hz2].
  assert (Hsum : foldr Z.add 0 (map f_length fragments) + foldr Z.add 0 (map f_length rest) = len (concat ds)).
  { rewrite <-(cut_sum ds 0). change (map f_length ?l) with (f_length <$> l). rewrite <-Hp, fmap_app. change (f_length <$> ?l) with (map f_length l).
    rewrite foldr_app. generalize (foldr Z.add 0 (map f_length rest)). clear. induction fragments as [|f fs IH]; intros n; cbn; [lia|].
    specialize (IH n). lia. }
  assert (Hpos : 0 < foldr Z.add 0 (map f_length rest)).
  { destruct rest as [|f rest]; [done|]. apply Forall_cons_iff in Hz2 as [Hf0 Hz2].
    assert (0 < f_length f).
    { assert (Hin : f ∈ cut 0 ds) by (rewrite <-Hp; apply elem_of_app; right; left). clear -Hin Hne. revert Hin. generalize 0 at 1.
      induction Hne as [|d ds Hd Hne IH]; intros off Hin; cbn [cut] in Hin; [by apply not_elem_of_nil in Hin|]. apply elem_of_cons in Hin as [->|Hin]; [done|by eapply IH]. }
    cbn. assert (0 <= foldr Z.add 0 (map f_length rest)) by (clear -Hz2; induction Hz2; cbn; lia). lia. }
  unfold frame_len. rewrite frame_len_sum by (done || lia). rewrite Z.add_0_l. split; [|lia].
  rewrite <-(cut_sum (take k ds) 0). apply sum_submseteq; [by apply Forall_map|].
  change (map f_length ?l) with (f_length <$> l). apply fmap_submseteq, NoDup_submseteq; [|by apply list.Forall_forall].
  assert (Hnt : Forall nonempty (take k ds)) by (by apply Forall_take). clear -Hnt. revert Hnt. generalize 0 at 1. generalize (take k ds).
  induction l as [|d l IH]; intros off Hne; cbn [cut]; [constructor|]. apply Forall_cons_iff in Hne as [Hd Hne]. constructor; [|by apply IH].
  intros Hin. pose proof (cut_offsets _ _ _ Hne Hin) as Ho. cbn in Ho. unfold nonempty in Hd. lia.
Qed.

(** ** Termination *)

(** A fragment as the parser makes it: 62-bit numbers, and a payload of the length *)
Record fragment_ok (f : qCryptoFragment) : Prop := {
  fo_offset : in_width 62 (f_offset f);
  fo_length : in_width 62 (f_length f);
  fo_payload : len (f_payload f) = f_length f;
  fo_bytes : Forall is_byte (f_payload f)
}.

Lemma find_loop_more fragments fuel : forall index b, find_loop fuel fragments index = Some b ->
  forall fuel', (fuel <= fuel')%nat -> find_loop fuel' fragments index = Some b.
Proof.
  induction fuel as [|fuel IH]; intros index b Hb fuel' Hf; [done|]. destruct fuel' as [|fuel']; [lia|]. cbn [find_loop] in *.
  destruct (List.find _ _) as [f|]; [|done]. destruct (find_loop fuel fragments _) as [b'|] eqn:E; [|done]. by rewrite (IH _ _ E) by lia.
Qed.

(** The first fragment at the offset is empty: it is found for ever. *)
Lemma find_loop_stuck fragments index f : in_width 64 index ->
  List.find (fun f => f_offset f =? index) fragments = Some f -> f_length f = 0 -> forall fuel, find_loop fuel fragments index = None.
Proof.
  intros Hi Hf Hl fuel. induction fuel as [|fuel IH]; [done|]. cbn [find_loop]. rewrite Hf.
  pose proof (find_spec (fun f => f_offset f =? index) fragments) as Hs. rewrite Hf in Hs. destruct Hs as [_ Ho]. apply Z.eqb_eq in Ho.
  unfold wrap. rewrite Ho, Hl, Z.add_0_r, Z.mod_small by exact Hi. by rewrite IH.
Qed.

Definition ahead (index : Z) (fragments : list qCryptoFragment) : nat := length (List.filter (fun f => index <=? f_offset f) fragments).
Lemma ahead_le i j fragments : i <= j -> (ahead j fragments <= ahead i fragments)%nat.
Proof.
  intros Hij. unfold ahead. induction fragments as [|f fs IH]; [done|]. cbn [List.filter].
  destruct (Z.leb_spec i (f_offset f)), (Z.leb_spec j (f_offset f)); cbn [length]; lia.
Qed.
Lemma ahead_lt i j fragments f : f ∈ fragments -> f_offset f = i -> i < j -> (ahead j fragments < ahead i fragments)%nat.
Proof.
  intros Hf Ho Hij. unfold ahead. induction fragments as [|g fs IH]; [by apply not_elem_of_nil in Hf|]. cbn [List.filter].
  apply elem_of_cons in Hf as [<-|Hf].
  - pose proof (ahead_le i j fs). unfold ahead in *. destruct (Z.leb_spec i (f_offset f)), (Z.leb_spec j (f_offset f)); cbn [length]; lia.
  - specialize (IH Hf). destruct (Z.leb_spec i (f_offset g)), (Z.leb_spec j (f_offset g)); cbn [length]; lia.
Qed.
Lemma ahead_length i fragments : (ahead i fragments <= length fragments)%nat.
Proof. unfold ahead. induction fragments as [|f fs IH]; [done|]. cbn [List.filter]. destruct (_ <=? _); cbn [length]; lia. Qed.

(** The walk ends within one step per fragment, or it reaches an empty fragment and
    never ends. *)
Lemma find_loop_ends fragments : Forall fragment_ok fragments -> forall fuel index, in_width 64 index -> (ahead index fragments < fuel)%nat ->
  (exists b, find_loop fuel fragments index = Some b) \/
  (exists f, f ∈ fragments /\ f_length f = 0) /\ forall fuel, find_loop fuel fragments index = None.
Proof.
  intros Hok fuel. induction fuel as [|fuel IH]; intros index Hi Hf; [lia|]. cbn [find_loop].
  pose proof (find_spec (fun f => f_offset f =? index) fragments) as Hs. destruct (List.find _ _) as [f|] eqn:E; [|by left; eexists].
  destruct Hs as [Hin Ho]. apply Z.eqb_eq in Ho. destruct (Z.eq_dec (f_length f) 0) as [Hz|Hz].
  { right. split; [by exists f|]. by apply (find_loop_stuck _ _ f). }
  rewrite list.Forall_forall in Hok. destruct (Hok f Hin) as [Ho' Hl' _ _]. unfold in_width in *.
  set (next := f_offset f + f_length f). assert (Hw : wrap 64 next = next) by (unfold wrap; apply Z.mod_small; unfold next; lia). rewrite Hw.
  destruct (IH next) as [[b ->]|[He Hn]]; [unfold next; lia| |by left; eexists|].
  - pose proof (ahead_lt index next fragments f Hin Ho). unfold next in *. lia.
  - right. split; [done|]. intros fuel'. destruct fuel' as [|fuel']; [done|]. cbn [find_loop]. rewrite E. fold next. by rewrite Hw, Hn.
Qed.

Lemma find_loop_bytes fragments : Forall fragment_ok fragments -> forall fuel index b, find_loop fuel fragments index = Some b -> Forall is_byte b.
Proof.
  intros Hok fuel. induction fuel as [|fuel IH]; intros index b Hb; [done|]. cbn [find_loop] in Hb.
  pose proof (find_spec (fun f => f_offset f =? index) fragments) as Hs. destruct (List.find _ _) as [f|]; [|by injection Hb as <-].
  destruct (find_loop fuel fragments _) as [b'|] eqn:E; [|done]. injection Hb as <-. apply Forall_app. split; [|by eapply IH].
  rewrite list.Forall_forall in Hok. apply (fo_bytes f), Hok, Hs.
Qed.
