(* ===== verification/QuicPacket.v ===== *)
(** * Initial packets

    The packets a client sends, as the QUIC specifications define them: variable
    length integers, frames, and Initial packets with header protection.  The
    sniffer reads each of them back. *)

From stdpp Require Import base numbers list strings option.
From Stdlib Require Import ZArith Lia.
From S2P Require Import Prelude Bytes Varbin Srs Ja3 Quic QuicFragments.

Local Open Scope Z_scope.

(** ** Integers *)

(** An integer in [2 ^ k] bytes: the two highest bits hold [k]. *)
Definition qvar (k : nat) (v : Z) : bytes := be_bytes (2 ^ k) (Z.of_nat k * (64 * 256 ^ (Z.of_nat (2 ^ k) - 1)) + v).
Definition qvar_size (v : Z) : nat := if v <? 2 ^ 6 then 0 else if v <? 2 ^ 14 then 1 else if v <? 2 ^ 30 then 2 else 3.
Definition qvarint (v : Z) : bytes := qvar (qvar_size v) v.

Lemma be_bytes_front n : forall v, be_bytes (S n) v = (v / 256 ^ Z.of_nat n) mod 256 :: be_bytes n v.
Proof.
  induction n as [|n IH]; intros v; [cbn; by rewrite Z.div_1_r|].
  replace (be_bytes (S (S n)) v) with (be_bytes (S n) (v / 256) ++ [v mod 256]) by done. rewrite IH.
  replace (be_bytes (S n) v) with (be_bytes n (v / 256) ++ [v mod 256]) by done. cbn [app]. f_equal.
  rewrite Z.div_div by lia. by rewrite Nat2Z.inj_succ, Z.pow_succ_r by lia.
Qed.
Lemma uvarint_bytes_be n : forall acc v rest, 0 <= v -> uvarint_bytes n acc (be_bytes n v ++ rest) = Ok (acc * 256 ^ Z.of_nat n + v mod 256 ^ Z.of_nat n, rest).
Proof.
  induction n as [|n IH]; intros acc v rest Hv.
  - cbn [uvarint_bytes be_bytes]. change (256 ^ Z.of_nat 0) with 1. rewrite Z.mod_1_r. unfold mret, reader_ret. cbn [app]. do 2 f_equal. lia.
  - rewrite be_bytes_front. cbn [uvarint_bytes app]. unfold mbind, reader_bind. cbn [ReadByte]. rewrite IH by done. do 2 f_equal.
    rewrite Nat2Z.inj_succ, Z.pow_succ_r by lia. set (p := 256 ^ Z.of_nat n). assert (0 < p) by (apply Z.pow_pos_nonneg; lia).
    rewrite (Z.mul_comm 256 p), (Z.rem_mul_r v p 256) by lia. lia.
Qed.
Lemma uvarint_head k b : 0 <= k < 4 -> 0 <= b < 64 ->
  Z.shiftr (Z.land (k * 64 + b) 0xc0) 6 = k /\ Z.land (k * 64 + b) 0x3f = b.
Proof.
  intros Hk Hb. split.
  - rewrite Z.shiftr_land. change (Z.shiftr 192 6) with (Z.ones 2). rewrite Z.land_ones, Z.shiftr_div_pow2 by lia.
    change (2 ^ 6) with 64. rewrite Z.div_add_l, (Z.div_small b) by lia. rewrite Z.add_0_r. by apply Z.mod_small.
  - change 63 with (Z.ones 6). rewrite Z.land_ones by lia. change (2 ^ 6) with 64. rewrite Z.add_comm, Z.mod_add by lia. by apply Z.mod_small.
Qed.
Lemma reads_qvar k v : (k <= 3)%nat -> 0 <= v < 64 * 256 ^ (Z.of_nat (2 ^ k) - 1) -> reads quic_ReadUvarint (qvar k v) v.
Proof.
  intros Hk Hv rest. unfold qvar, quic_ReadUvarint.
  assert (Hm : exists m, (2 ^ k)%nat = S m) by (exists (2 ^ k - 1)%nat; pose proof (Nat.pow_nonzero 2 k); lia).
  destruct Hm as [m Hm]. rewrite Hm in *. replace (Z.of_nat (S m) - 1) with (Z.of_nat m) in * by lia.
  set (p := 256 ^ Z.of_nat m) in *. assert (0 < p) by (apply Z.pow_pos_nonneg; lia).
  rewrite be_bytes_front. fold p. cbn [app]. unfold mbind, reader_bind. cbn [ReadByte].
  replace ((Z.of_nat k * (64 * p) + v) / p) with (Z.of_nat k * 64 + v / p).
  2: { rewrite Z.mul_assoc, Z.div_add_l by lia. done. }
  assert (Hd : 0 <= v / p < 64) by (split; [apply Z.div_pos; lia|apply Z.div_lt_upper_bound; lia]).
  rewrite (Z.mod_small _ 256) by lia. destruct (uvarint_head (Z.of_nat k) (v / p)) as [-> ->]; [lia..|].
  rewrite Nat2Z.id, Hm. replace (S m - 1)%nat with m by lia. rewrite uvarint_bytes_be by lia. do 2 f_equal. fold p.
  rewrite (Z.add_comm _ v), (Z.mul_assoc _ 64 p), Z.mod_add by lia. pose proof (Z.div_mod v p). lia.
Qed.
Lemma reads_qvarint v : in_width 62 v -> reads quic_ReadUvarint (qvarint v) v.
Proof.
  intros Hv. unfold in_width in Hv. unfold qvarint, qvar_size. apply reads_qvar.
  - repeat destruct (_ <? _); lia.
  - destruct (Z.ltb_spec v (2 ^ 6)); [cbn; lia|]. destruct (Z.ltb_spec v (2 ^ 14)); [cbn; lia|]. destruct (Z.ltb_spec v (2 ^ 30)); cbn; lia.
Qed.
Lemma qvarint_bytes v : Forall is_byte (qvarint v).
Proof. apply be_bytes_bytes. Qed.
Lemma qvarint_length v : (0 < length (qvarint v))%nat.
Proof. unfold qvarint, qvar. rewrite be_bytes_length. pose proof (Nat.pow_nonzero 2 (qvar_size v)). lia. Qed.

(** ** Frames *)

Inductive Frame :=
  | F_Padding
  | F_Ping
  | F_Ack (largest delay first : Z) (ranges : list (Z * Z)) (ecn : option (Z * Z * Z))
  | F_Crypto (offset : Z) (data : bytes).

Definition frame_type (f : Frame) : Z :=
  match f with
  | F_Padding => frameTypePadding
  | F_Ping => frameTypePing
  | F_Ack _ _ _ _ None => frameTypeAck
  | F_Ack _ _ _ _ (Some _) => frameTypeAck2
  | F_Crypto _ _ => frameTypeCrypto
  end.
Definition range_bytes (r : Z * Z) : bytes := qvarint r.1 ++ qvarint r.2.
Definition ecn_bytes (e : option (Z * Z * Z)) : bytes :=
  match e with None => [] | Some (a, b, c) => qvarint a ++ qvarint b ++ qvarint c end.
Definition frame_body (f : Frame) : bytes :=
  match f with
  | F_Padding | F_Ping => []
  | F_Ack largest delay first ranges ecn =>
      qvarint largest ++ qvarint delay ++ qvarint (len ranges) ++ qvarint first ++ concat (map range_bytes ranges) ++ ecn_bytes ecn
  | F_Crypto offset data => qvarint offset ++ qvarint (len data) ++ data
  end.
Definition frame_bytes (f : Frame) : bytes := frame_type f :: frame_body f.
Definition frames_bytes (l : list Frame) : bytes := concat (map frame_bytes l).
(** The numbers are varints. *)
Definition frame_fits (f : Frame) : Prop :=
  match f with
  | F_Padding | F_Ping => True
  | F_Ack largest delay first ranges ecn =>
      Forall (in_width 62) [largest; delay; len ranges; first] /\ Forall (fun r => in_width 62 r.1 /\ in_width 62 r.2) ranges /\
      match ecn with Some (a, b, c) => Forall (in_width 62) [a; b; c] | None => True end
  | F_Crypto offset data => in_width 62 offset /\ in_width 62 (len data) /\ Forall is_byte data
  end.
Definition frame_crypto (f : Frame) : list qCryptoFragment :=
  match f with F_Crypto offset data => [mkFragment offset (len data) data] | _ => [] end.
Definition frames_crypto (l : list Frame) : list qCryptoFragment := concat (map frame_crypto l).

Lemma frame_bytes_bytes f : frame_fits f -> Forall is_byte (frame_bytes f).
Proof.
  intros Hf. constructor; [destruct f as [| |? ? ? ? []|]; done|]. destruct f as [| |la de fi ranges ecn|offset data]; cbn [frame_body]; [constructor..| |].
  - rewrite !Forall_app. repeat split; try apply qvarint_bytes.
    + induction ranges as [|r l IH]; cbn [map concat]; [constructor|]. unfold range_bytes at 1. rewrite !Forall_app. repeat split; try apply qvarint_bytes.
      apply IH. destruct Hf as (H1 & H2 & H3). apply Forall_cons_iff in H2 as [_ H2]. repeat split; [|done..].
      clear -H1. rewrite !Forall_cons_iff in *. unfold in_width, len in *. cbn [length] in *. split_and!; lia || apply H1 || constructor.
    + destruct ecn as [[[a b] c]|]; [|constructor]. cbn [ecn_bytes]. rewrite !Forall_app. repeat split; apply qvarint_bytes.
  - rewrite !Forall_app. repeat split; try apply qvarint_bytes. apply Hf.
Qed.

Lemma reads_ack largest delay first ranges ecn : frame_fits (F_Ack largest delay first ranges ecn) ->
  reads (read_ack (frame_type (F_Ack largest delay first ranges ecn))) (frame_body (F_Ack largest delay first ranges ecn)) tt.
Proof.
  intros (H1 & H2 & H3). rewrite !Forall_cons_iff in H1. destruct H1 as (Hla & Hde & Hle & Hfi & _). cbn [frame_body]. unfold read_ack.
  repeat (eapply reads_bind; [by apply reads_qvarint|]). eapply reads_bind.
  - apply (reads_times range_bytes snd).
    + intros _ r Hr. rewrite list.Forall_forall in H2. destruct (H2 r Hr). unfold range_bytes. eapply reads_bind; by apply reads_qvarint.
    + apply list.Forall_forall. intros r _. unfold range_bytes. rewrite length_app. pose proof (qvarint_length r.1). lia.
  - destruct ecn as [[[a b] c]|]; [|done]. rewrite !Forall_cons_iff in H3. destruct H3 as (Ha & Hb & Hc & _).
    cbn [frame_type frameTypeAck2 Z.eqb Pos.eqb skip_uvarints ecn_bytes]. do 2 (eapply reads_bind; [by apply reads_qvarint|]).
    rewrite <-(app_nil_r (qvarint c)). eapply reads_bind; [by apply reads_qvarint|]. apply reads_ret.
Qed.
Lemma read_crypto_body tail offset data rest : frame_fits (F_Crypto offset data) ->
  read_crypto tail (frame_body (F_Crypto offset data) ++ rest) = Ok (mkFragment offset (len data) data, rest).
Proof.
  intros (Ho & Hl & _). unfold read_crypto, read_place. cbn [frame_body]. unfold mbind at 1, reader_bind at 1. unfold mbind at 1, reader_bind at 1.
  rewrite <-!app_assoc, (reads_qvarint offset Ho). unfold mbind at 1, reader_bind at 1. rewrite (reads_qvarint (len data) Hl).
  unfold mret, reader_ret. pose proof (len_nonneg data). rewrite slice_ok, ok_bind by (rewrite ?len_app; pose proof (len_nonneg rest); pose proof (len_nonneg tail); lia).
  assert (Hn : Z.to_nat (len data) = length data) by (unfold len; lia). rewrite Z.sub_0_r, Hn. change (Z.to_nat 0) with 0%nat.
  by rewrite drop_0, <-app_assoc, take_app_length, drop_app_length.
Qed.

(** The frames of a packet are read back. *)
Lemma read_frames_bytes tail l : Forall frame_fits l -> forall fuel, (length l <= fuel)%nat ->
  read_frames fuel tail (frames_bytes l) = Ok (map frame_type l, frames_crypto l).
Proof.
  induction 1 as [|f l Hf Hl IH]; intros fuel Hfuel; [by destruct fuel|]. destruct fuel as [|fuel]; [cbn in Hfuel; lia|].
  change (frames_bytes (f :: l)) with (frame_type f :: frame_body f ++ frames_bytes l). cbn [read_frames].
  assert (Hrest : read_frames fuel tail (frames_bytes l) = Ok (map frame_type l, frames_crypto l)) by (apply IH; cbn in Hfuel; lia).
  destruct f as [| |la de fi ranges ecn|offset data].
  - cbn [frame_type frameTypePadding Z.eqb orb frame_body app]. by rewrite ok_bind, Hrest, ok_bind.
  - cbn [frame_type frameTypePing frameTypePadding Z.eqb Pos.eqb orb frame_body app]. by rewrite ok_bind, Hrest, ok_bind.
  - pose proof (reads_ack la de fi ranges ecn Hf (frames_bytes l)) as Hack.
    destruct ecn; cbn [frame_type frameTypeAck frameTypeAck2 frameTypePing frameTypePadding Z.eqb Pos.eqb orb] in *; by rewrite Hack, !ok_bind, Hrest, ok_bind.
  - cbn [frame_type frameTypeCrypto frameTypeAck frameTypeAck2 frameTypePing frameTypePadding Z.eqb Pos.eqb orb].
    by rewrite read_crypto_body, !ok_bind, Hrest, ok_bind by done.
Qed.
Lemma frames_count l : (length l <= length (frames_bytes l))%nat.
Proof. unfold frames_bytes. induction l as [|f l IH]; [done|]. cbn [map concat length]. rewrite length_app. cbn [frame_bytes length]. lia. Qed.

(** ** Packets *)

Section Packets.
Context {QC : QuicCrypto}.

(** An Initial packet; [in_rest] are the packets behind it in the datagram. *)
Record Initial := mkInitial {
  in_version : Z;
  in_destConnID : bytes;
  in_srcConnID : bytes;
  in_token : bytes;
  in_number : bytes;
  in_frames : list Frame;
  in_rest : bytes
}.
Definition in_payload (p : Initial) : bytes := frames_bytes (in_frames p).
Definition in_first (p : Initial) : Z := 0xc0 + (if in_version p =? Version2 then 0x10 else 0) + (len (in_number p) - 1).
Definition in_packetLen (p : Initial) : Z := len (in_number p) + (len (in_payload p) + 16).
(** The header between the first byte and the packet number *)
Definition in_middle (p : Initial) : bytes :=
  be_bytes 4 (in_version p) ++ [len (in_destConnID p)] ++ in_destConnID p ++ [len (in_srcConnID p)] ++ in_srcConnID p ++
  qvarint (len (in_token p)) ++ in_token p ++ qvarint (in_packetLen p).
Definition in_header (p : Initial) : Header :=
  mkHeader (in_version p) (in_destConnID p) (1 + len (in_middle p)) (in_packetLen p) [].
Definition in_label (p : Initial) (v1 v2 : string) : string := if in_version p =? Version2 then v2 else v1.
Definition in_key (p : Initial) (v1 v2 : string) (n : Z) : bytes :=
  HKDFExpandLabel (client_secret (in_header p)) [] (in_label p v1 v2) n.
Definition in_sealed (p : Initial) : bytes :=
  let iv := in_key p "quic iv" "quicv2 iv" 12 in
  gcm_Seal (in_key p "quic key" "quicv2 key" 16) (take 4 iv ++ xor_bytes (drop 4 iv) (be_bytes 8 (be_value (in_number p))))
    (in_payload p) (in_first p :: in_middle p ++ in_number p).
(** The mask of the header protection, from a sample of the encrypted payload *)
Definition in_sample (p : Initial) : bytes := take 16 (drop (4 - length (in_number p)) (in_sealed p)).
Definition in_mask (p : Initial) : bytes := aes_Encrypt (in_key p "quic hp" "quicv2 hp" 16) (in_sample p).
Definition initial_packet (p : Initial) : bytes :=
  Z.lxor (in_first p) (Z.land (default 0 (head (in_mask p))) 0xf) :: in_middle p ++ xor_bytes (in_number p) (drop 1 (in_mask p)) ++ in_sealed p ++ in_rest p.
Record initial_ok (p : Initial) : Prop := {
  io_version : in_version p = VersionDraft29 \/ in_version p = Version1 \/ in_version p = Version2;
  io_dest : 1 <= len (in_destConnID p) <= 20;
  io_src : len (in_srcConnID p) < 256;
  io_number : 1 <= len (in_number p) <= 4;
  io_token : in_width 62 (len (in_token p));
  io_frames : Forall frame_fits (in_frames p);
  io_length : 4 <= len (in_number p) + len (in_payload p) /\ in_width 62 (in_packetLen p)
}.

Lemma xor_bytes_twice : forall a m, (length a <= length m)%nat -> xor_bytes (xor_bytes a m) m = a.
Proof.
  induction a as [|x a IH]; intros [|y m] Hm; cbn in *; [done|done|lia|]. f_equal; [|apply IH; lia].
  by rewrite Z.lxor_assoc, Z.lxor_nilpotent, Z.lxor_0_r.
Qed.
Lemma xor_bytes_length a m : (length a <= length m)%nat -> length (xor_bytes a m) = length a.
Proof. intros. unfold xor_bytes. rewrite length_zip_with. lia. Qed.
Lemma in_sealed_length p : len (in_sealed p) = len (in_payload p) + 16.
Proof. apply gcm_Seal_length. Qed.
Lemma in_mask_length p : length (in_mask p) = 16%nat.
Proof. pose proof (aes_Encrypt_length (in_key p "quic hp" "quicv2 hp" 16) (in_sample p)). unfold in_mask, len in *. lia. Qed.

Lemma in_xored_length p : initial_ok p -> length (xor_bytes (in_number p) (drop 1 (in_mask p))) = length (in_number p).
Proof. intros Hp. apply xor_bytes_length. rewrite length_drop, in_mask_length. pose proof (io_number p Hp). unfold len in *. lia. Qed.

Lemma reads_skip w : reads (skip (len w)) w tt.
Proof.
  intros rest. unfold skip. rewrite len_app. pose proof (len_nonneg rest). destruct (Z.leb_spec (len w) (len w + len rest)); [|lia].
  replace (Z.to_nat (len w)) with (length w) by (unfold len; lia). by rewrite drop_app_length.
Qed.
(** The bits of the first byte that are not protected *)
Lemma land_protected a m c : Z.land 0xf c = 0 -> Z.land (Z.lxor a (Z.land m 0xf)) c = Z.land a c.
Proof.
  intros Hc. apply Z.bits_inj'. intros i Hi. rewrite !Z.land_spec, Z.lxor_spec, Z.land_spec.
  pose proof (f_equal (fun z => Z.testbit z i) Hc) as Hb. cbn beta in Hb. rewrite Z.land_spec, Z.bits_0 in Hb.
  destruct (Z.testbit c i); [|by rewrite !andb_false_r]. rewrite andb_true_r in Hb. by rewrite Hb, andb_false_r, xorb_false_r.
Qed.
Lemma in_first_bits p : initial_ok p -> Z.land (in_first p) 0x40 = 0x40 /\
  Z.shiftr (Z.land (in_first p) 0x30) 4 = (if in_version p =? Version2 then 1 else 0) /\ Z.land (in_first p) 0x3 + 1 = len (in_number p).
Proof.
  intros Hp. pose proof (io_number p Hp) as Hn. unfold in_first.
  assert (Hc : len (in_number p) = 1 \/ len (in_number p) = 2 \/ len (in_number p) = 3 \/ len (in_number p) = 4) by lia.
  destruct Hc as [ ->|[ ->|[ ->| ->]]]; by destruct (_ =? _).
Qed.
Lemma initial_version p : initial_ok p ->
  negb (in_version p =? VersionDraft29) && negb (in_version p =? Version1) && negb (in_version p =? Version2) = false /\
  0 <= in_version p < 256 ^ Z.of_nat 4.
Proof. intros Hp. by destruct (io_version p Hp) as [ ->|[ ->| ->]]. Qed.

Lemma read_initial_header p : initial_ok p ->
  read_header (initial_packet p) = Ok (mkHeader (in_version p) (in_destConnID p) (1 + len (in_middle p)) (in_packetLen p) (in_sample p)).
Proof.
  intros Hp. unfold read_header, initial_packet. set (b0 := Z.lxor _ _). set (body := xor_bytes _ _ ++ _).
  pose proof (in_xored_length p Hp) as Hx.
  assert (Hbody : body = take (length (in_number p)) body ++ in_sealed p ++ in_rest p) by (unfold body; by rewrite take_app_length').
  assert (Hlbody : len body = in_packetLen p + len (in_rest p)).
  { unfold body, in_packetLen. rewrite !len_app, in_sealed_length. unfold len in *. lia. }
  set (packet := b0 :: in_middle p ++ body). assert (Hpacket : len packet = 1 + len (in_middle p) + len body).
  { unfold packet. change (b0 :: ?l) with ([b0] ++ l). rewrite !len_app, len_one. lia. }
  change (ReadByte packet) with (Ok (b0, in_middle p ++ body)). rewrite ok_bind. destruct (in_first_bits p Hp) as (H40 & H30 & _). 
  assert (Hb40 : Z.land b0 0x40 = 0x40) by (unfold b0; by rewrite land_protected).
  assert (Hb30 : Z.shiftr (Z.land b0 0x30) 4 = if in_version p =? Version2 then 1 else 0) by (unfold b0; by rewrite land_protected).
  rewrite Hb40, Hb30.
  change (64 =? 0) with false. cbn iota. unfold in_middle at 1. rewrite <-!app_assoc.
  destruct (initial_version p Hp) as [Hver Hvr]. rewrite (reads_binary (ST := file_stream) 4 (in_version p) Hvr), ok_bind, Hver. cbn iota.
  replace (((if in_version p =? Version2 then 1 else 0) =? 0) && (in_version p =? Version2) || ((if in_version p =? Version2 then 1 else 0) =? 2) && negb (in_version p =? Version2)
    || (2 <? (if in_version p =? Version2 then 1 else 0))) with false by (by destruct (in_version p =? Version2)).
  cbn [app ReadByte]. rewrite ok_bind. pose proof (io_dest p Hp) as Hd.
  destruct (Z.eqb_spec (len (in_destConnID p)) 0), (Z.ltb_spec 20 (len (in_destConnID p))); [lia..|]. cbn [orb].
  rewrite (reads_full (ST := file_stream) (in_destConnID p)), ok_bind by (unfold len; lia). cbn [app ReadByte]. rewrite ok_bind.
  rewrite (reads_skip (in_srcConnID p)), ok_bind, (reads_qvarint _ (io_token p Hp)), ok_bind, (reads_skip (in_token p)), ok_bind.
  destruct (io_length p Hp) as [H4 Hpl]. rewrite (reads_qvarint _ Hpl), ok_bind.
  rewrite Hpacket. replace (1 + len (in_middle p) + len body - len body) with (1 + len (in_middle p)) by lia.
  pose proof (len_nonneg (in_rest p)). destruct (Z.ltb_spec (1 + len (in_middle p) + len body) (1 + len (in_middle p) + in_packetLen p)); [lia|].
  unfold skip. unfold in_packetLen in Hlbody. pose proof (len_nonneg (in_payload p)). destruct (Z.leb_spec 4 (len body)); [|lia].
  rewrite ok_bind. replace (drop (Z.to_nat 4) body) with (in_sample p ++ drop 16 (drop (4 - length (in_number p)) (in_sealed p)) ++ in_rest p).
  { rewrite (reads_full (ST := file_stream)), ok_bind; [done|]. unfold in_sample. rewrite length_take, length_drop. pose proof (in_sealed_length p). unfold len in *. lia. }
  unfold in_sample. rewrite app_assoc, take_drop. pose proof (io_number p Hp) as Hn. rewrite Hbody. change (Z.to_nat 4) with 4%nat.
  rewrite drop_app, length_take, Nat.min_l by (unfold len in *; lia). rewrite (drop_ge (take _ _)) by (rewrite length_take; unfold len in *; lia). cbn [app].
  rewrite drop_app. replace (4 - length (in_number p) - length (in_sealed p))%nat with 0%nat; [by rewrite drop_0|].
  pose proof (in_sealed_length p). unfold len in *. lia.
Qed.

Definition in_read (p : Initial) : Header :=
  mkHeader (in_version p) (in_destConnID p) (1 + len (in_middle p)) (in_packetLen p) (in_sample p).

Lemma slice_mid (a b c : bytes) : slice (a ++ b ++ c) (len a) (len a + len b) = Ok b.
Proof.
  pose proof (len_nonneg a). pose proof (len_nonneg b). pose proof (len_nonneg c). rewrite slice_ok by (rewrite ?len_app; lia).
  unfold len. rewrite Nat2Z.id, drop_app_length. replace (Z.to_nat _) with (length b) by lia. by rewrite take_app_length.
Qed.
(** Four bytes are unmasked, those behind the packet number are taken back. *)
Lemma unmask a m rest : (length a <= 4)%nat -> (4 <= length m)%nat ->
  take (length a) (xor_bytes (take 4 (xor_bytes a m ++ rest)) (take 4 m)) = a.
Proof.
  intros Ha Hm. assert (Hx : length (xor_bytes a m) = length a) by (apply xor_bytes_length; lia).
  unfold xor_bytes at 1. rewrite zip_with_take, !take_take, Nat.min_l, take_app_length', zip_with_take_r' by lia.
  apply xor_bytes_twice. lia.
Qed.

Lemma unprotect_initial p : initial_ok p ->
  unprotect (initial_packet p) (in_read p) =
  Ok ([in_first p] ++ in_middle p ++ in_number p ++ in_sealed p ++ in_rest p, len (in_number p), be_value (in_number p)).
Proof.
  intros Hp. pose proof (in_xored_length p Hp) as Hx. pose proof (io_number p Hp) as Hn. pose proof (in_mask_length p) as Hm.
  pose proof (in_sealed_length p) as Hs. destruct (io_length p Hp) as [H4 _]. unfold unprotect.
  change (aes_Encrypt _ (q_pnBytes (in_read p))) with (in_mask p). change (q_hdrLen (in_read p)) with (1 + len (in_middle p)).
  change (q_packetLen (in_read p)) with (in_packetLen p). unfold initial_packet.
  destruct (in_mask p) as [|m0 mask] eqn:Em; [done|]. cbn [list.head from_option id default] in *. change (drop 1 (m0 :: mask)) with mask in *. cbn [length] in Hm.
  set (b0 := Z.lxor (in_first p) (Z.land m0 0xf)). set (xored := xor_bytes (in_number p) mask) in *. set (tail := in_sealed p ++ in_rest p).
  set (packet := b0 :: in_middle p ++ xored ++ tail). change (index packet 0) with (Ok b0). change (index (m0 :: mask) 0) with (Ok m0). rewrite !ok_bind.
  assert (Hb0 : Z.lxor b0 (Z.land m0 0xf) = in_first p) by (unfold b0; by rewrite Z.lxor_assoc, Z.lxor_nilpotent, Z.lxor_0_r). rewrite Hb0.
  destruct (in_first_bits p Hp) as (_ & _ & ->). pose proof (len_nonneg (in_middle p)). pose proof (len_nonneg (in_rest p)).
  assert (Hl1 : len xored = len (in_number p)) by (unfold len; lia). assert (Hl2 : 4 <= len xored + len tail) by (unfold tail; rewrite len_app; lia).
  assert (Hpacket : len packet = 1 + len (in_middle p) + len xored + len tail).
  { unfold packet. change (b0 :: ?l) with ([b0] ++ l). rewrite !len_app, len_one. lia. }
  replace (slice packet 1 (1 + len (in_middle p))) with (Ok (in_middle p)) by (symmetry; apply (slice_mid [b0])). rewrite ok_bind.
  rewrite (slice_ok packet (1 + len (in_middle p)) (1 + len (in_middle p) + 4)) by lia. rewrite ok_bind.
  replace (slice (m0 :: mask) 1 5) with (Ok (take 4 mask)).
  2: { rewrite slice_ok; [done|lia|]. change (m0 :: mask) with ([m0] ++ mask). rewrite len_app, len_one. unfold len. lia. }
  rewrite ok_bind. unfold in_packetLen. pose proof (len_nonneg (in_payload p)).
  destruct (Z.ltb_spec (len (in_number p) + (len (in_payload p) + 16) + (1 + len (in_middle p))) (1 + len (in_middle p) + len (in_number p))); [lia|].
  replace (Z.to_nat (1 + len (in_middle p) + 4 - (1 + len (in_middle p)))) with 4%nat by lia.
  replace (drop (Z.to_nat (1 + len (in_middle p))) packet) with (xored ++ tail).
  2: { unfold packet. replace (Z.to_nat _) with (S (length (in_middle p))) by (unfold len; lia). cbn [drop]. by rewrite drop_app_length. }
  replace (Z.to_nat (len (in_number p))) with (length (in_number p)) by (unfold len; lia). replace (take (length (in_number p)) _) with (in_number p) by (symmetry; apply unmask; unfold len in *; lia).
  replace (slice packet _ (len packet)) with (Ok tail); [by rewrite ok_bind|]. rewrite <-Hl1.
  replace packet with ((b0 :: in_middle p ++ xored) ++ tail) by (unfold packet; cbn [app]; by rewrite <-app_assoc). symmetry.
  replace (1 + len (in_middle p) + len xored) with (len (b0 :: in_middle p ++ xored)); [apply slice_after|].
  change (b0 :: ?l) with ([b0] ++ l). rewrite !len_app, len_one. lia.
Qed.

Lemma decrypt_initial p : initial_ok p ->
  decrypt (initial_packet p) (in_read p) = Ok (in_payload p, drop (length (in_payload p)) (in_sealed p) ++ in_rest p).
Proof.
  intros Hp. unfold decrypt. rewrite unprotect_initial, ok_bind by done. change (q_hdrLen (in_read p)) with (1 + len (in_middle p)).
  change (q_packetLen (in_read p)) with (in_packetLen p). set (ad := [in_first p] ++ in_middle p ++ in_number p).
  assert (Had : 1 + len (in_middle p) + len (in_number p) = len ad) by (unfold ad; rewrite !len_app, len_one; lia). rewrite Had.
  replace ([in_first p] ++ in_middle p ++ in_number p ++ in_sealed p ++ in_rest p) with (ad ++ in_sealed p ++ in_rest p) by (unfold ad; by rewrite <-!app_assoc).
  replace (in_packetLen p + (1 + len (in_middle p))) with (len ad + len (in_sealed p)) by (rewrite in_sealed_length, <-Had; unfold in_packetLen; lia).
  rewrite slice_mid, ok_bind. replace (Z.to_nat (len ad)) with (length ad) by (unfold len; lia). rewrite take_app_length.
  replace (aead_Open _ _ _ _ _) with (Ok (in_payload p)).
  2: { symmetry. apply gcm_Open_Seal. unfold in_payload, frames_bytes. apply Forall_concat, Forall_map. eapply Forall_impl; [|exact (io_frames p Hp)]. apply frame_bytes_bytes. }
  rewrite ok_bind. do 2 f_equal. replace (Z.to_nat (len ad + len (in_payload p))) with (length ad + length (in_payload p))%nat by (unfold len; lia).
  rewrite <-drop_drop, drop_app_length, drop_app. pose proof (in_sealed_length p) as Hs. unfold len in Hs.
  replace (length (in_payload p) - length (in_sealed p))%nat with 0%nat by lia. done.
Qed.

End Packets.
