(* ===== verification/QuicReturns.v ===== *)
(** * The QUIC sniffer on any packet

    Reading the header, removing the header protection, decrypting and reading the
    frames never reads out of range, with one exception: a crypto frame whose length
    goes beyond the array of the packet. *)

From stdpp Require Import base numbers list strings option.
From Stdlib Require Import ZArith Lia.
From S2P Require Import Prelude Bytes NetAddr Metadata Varbin Srs Router Ja3 Quic QuicFragments.

Local Open Scope Z_scope.

(** ** Readers leave a suffix *)

Definition drops {A} (f : Reader A) : Prop := forall bs a bs', f bs = Ok (a, bs') -> exists k, bs' = drop k bs.

Lemma drops_ret {A} (a : A) : drops (mret a).
Proof. intros bs b bs' [= <- <-]. by exists 0%nat. Qed.
Lemma drops_bind {A B} (m : Reader A) (f : A -> Reader B) : drops m -> (forall a, drops (f a)) -> drops (m ≫= f).
Proof.
  intros Hm Hf bs b bs' H. unfold mbind, reader_bind in H. destruct (m bs) as [[a bs1]|e|p] eqn:E; [|done..].
  destruct (Hm _ _ _ E) as [k ->]. destruct (Hf _ _ _ _ H) as [j ->]. exists (k + j)%nat. by rewrite drop_drop.
Qed.
Lemma drops_byte : drops (ReadByte (ST := file_stream)).
Proof. intros [|b bs] a bs' H; [done|]. injection H as <- <-. by exists 1%nat. Qed.
Lemma drops_uvarint_bytes n : forall v, drops (uvarint_bytes n v).
Proof. induction n as [|n IH]; intros v; cbn [uvarint_bytes]; [apply drops_ret|]. apply drops_bind; [apply drops_byte|done]. Qed.
Lemma drops_uvarint : drops quic_ReadUvarint.
Proof. apply drops_bind; [apply drops_byte|]. intros b. apply drops_uvarint_bytes. Qed.
Lemma drops_times {A} (f : Z -> Reader A) n : (forall i, drops (f i)) -> drops (read_times n f).
Proof.
  intros Hf bs. unfold read_times. generalize (S (length bs)) as fuel, 0 as i. intros fuel. revert bs.
  induction fuel as [|fuel IH]; intros bs i a bs' H; cbn [times_loop] in H; destruct (n <=? i); try done; [by apply drops_ret in H|by apply drops_ret in H|].
  unfold mbind, reader_bind in H. destruct (f i bs) as [[x bs1]|e|p] eqn:E; [|done..]. destruct (Hf _ _ _ _ E) as [k ->].
  destruct (times_loop fuel n (i + 1) f (drop k bs)) as [[l bs2]|e|p] eqn:E'; [|done..]. injection H as <- <-.
  destruct (IH _ _ _ _ E') as [j ->]. exists (k + j)%nat. by rewrite drop_drop.
Qed.
Lemma drops_skip_uvarints n : drops (skip_uvarints n).
Proof. induction n as [|n IH]; [apply drops_ret|]. apply drops_bind; [apply drops_uvarint|done]. Qed.
Lemma drops_seek n : drops (seek n).
Proof. intros bs a bs' [= <- <-]. by exists (Z.to_nat n). Qed.

Create HintDb drops.
#[export] Hint Resolve drops_ret drops_bind drops_byte drops_uvarint drops_times drops_skip_uvarints drops_seek : drops.

Lemma drops_ack t : drops (read_ack t).
Proof. unfold read_ack. repeat (apply drops_bind; [auto with drops|intros ?]). destruct (_ =? _); auto with drops. Qed.
Lemma drops_close : drops read_close.
Proof. unfold read_close. auto 6 with drops. Qed.

(** ** Readers return *)

Lemma wb_uvarint_bytes n : forall v, well_behaved false (uvarint_bytes n v).
Proof.
  induction n as [|n IH]; intros v; cbn [uvarint_bytes]; [apply wb_ret|].
  apply (wb_weaken _ false), wb_strict; [apply wb_byte|done].
Qed.
Lemma wb_quic_uvarint : well_behaved true quic_ReadUvarint.
Proof. apply wb_strict; [apply wb_byte|]. intros b. apply wb_uvarint_bytes. Qed.
#[export] Hint Resolve wb_quic_uvarint : readers.
Lemma wb_skip_uvarints n : well_behaved false (skip_uvarints n).
Proof. induction n as [|n IH]; [apply wb_ret|]. apply (wb_weaken _ false), wb_strict; [apply wb_quic_uvarint|done]. Qed.
Lemma wb_seek n : well_behaved false (seek n).
Proof. intros bs. cbn. rewrite length_drop. lia. Qed.
Lemma wb_ack t : well_behaved false (read_ack t).
Proof.
  unfold read_ack. do 4 (apply (wb_weaken _ false), wb_strict; [apply wb_quic_uvarint|intros ?]).
  apply (wb_bind _ _ false false).
  - apply wb_times. intros i. apply wb_strict; [apply wb_quic_uvarint|]. intros ?. apply wb_weaken, wb_quic_uvarint.
  - intros _. destruct (_ =? _); [apply wb_skip_uvarints|apply wb_ret].
Qed.
Lemma wb_close : well_behaved false read_close.
Proof. unfold read_close. do 3 (apply (wb_weaken _ false), wb_strict; [apply wb_quic_uvarint|intros ?]). apply wb_seek. Qed.

(** An integer has 62 bits. *)
Lemma uvarint_bytes_range n : forall v bs x bs', Forall is_byte bs -> 0 <= v -> uvarint_bytes n v bs = Ok (x, bs') -> 0 <= x < (v + 1) * 256 ^ Z.of_nat n.
Proof.
  induction n as [|n IH]; intros v bs x bs' Hb Hv H; cbn [uvarint_bytes] in H; [injection H as <- _; change (256 ^ Z.of_nat 0) with 1; lia|].
  unfold mbind, reader_bind in H. destruct bs as [|b bs]; [done|]. cbn [ReadByte] in H. apply Forall_cons_iff in Hb as [Hx Hb]. unfold is_byte, in_width in Hx.
  specialize (IH (v * 256 + b) bs x bs' Hb ltac:(lia) H). rewrite Nat2Z.inj_succ, Z.pow_succ_r by lia.
  set (P := 256 ^ Z.of_nat n) in *.
  assert (0 < P) by (apply Z.pow_pos_nonneg; lia). assert ((v * 256 + b + 1) * P <= (v + 1) * 256 * P) by (apply Z.mul_le_mono_nonneg_r; lia). lia.
Qed.
Lemma quic_uvarint_range bs x bs' : Forall is_byte bs -> quic_ReadUvarint bs = Ok (x, bs') -> in_width 62 x.
Proof.
  intros Hb H. unfold quic_ReadUvarint, mbind, reader_bind in H. destruct bs as [|b bs]; [done|]. cbn [ReadByte] in H.
  apply Forall_cons_iff in Hb as [Hx Hb]. unfold is_byte, in_width in *. change 63 with (Z.ones 6) in H. rewrite Z.land_ones in H by lia.
  pose proof (Z.mod_pos_bound b (2 ^ 6) ltac:(lia)) as Hm. apply uvarint_bytes_range in H; [|done|lia].
  rewrite Z.shiftr_land in H. change (Z.shiftr 192 6) with (Z.ones 2) in H. rewrite Z.land_ones in H by lia.
  pose proof (Z.mod_pos_bound (Z.shiftr b 6) (2 ^ 2) ltac:(lia)) as Hk. set (k := Z.shiftr b 6 mod 2 ^ 2) in *.
  assert (Hc : k = 0 \/ k = 1 \/ k = 2 \/ k = 3) by lia. clearbody k. revert Hm H. generalize (b mod 2 ^ 6) as m. intros m Hm H.
  destruct Hc as [ ->|[ ->|[ ->| ->]]]; [change (256 ^ _) with 1 in H|change (256 ^ _) with 256 in H|change (256 ^ _) with (256 ^ 3) in H|change (256 ^ _) with (256 ^ 7) in H]; lia.
Qed.

(** ** Frames *)

(** Where the frame of a type ends: padding and pings are their type, the others end
    behind their fields. *)
Definition frame_ends (tail : bytes) (frameType : Z) (body rest : bytes) : Prop :=
  (frameType = frameTypePadding \/ frameType = frameTypePing) /\ rest = body \/
  (frameType = frameTypeAck \/ frameType = frameTypeAck2) /\ read_ack frameType body = Ok (tt, rest) \/
  frameType = frameTypeCrypto /\ (exists offset length data, read_place body = Ok ((offset, length), data) /\
    length <= len data + len tail /\ rest = drop (Z.to_nat length) data) \/
  frameType = frameTypeConnectionClose /\ read_close body = Ok (tt, rest).
(** One of the frames is a crypto frame that says more bytes than the array has behind
    it; the walk starts at the first frame and goes from the end of one to the next. *)
Inductive overruns (tail : bytes) : bytes -> Prop :=
  | overruns_here body offset length rest : read_place body = Ok ((offset, length), rest) -> len rest + len tail < length ->
      overruns tail (frameTypeCrypto :: body)
  | overruns_next frameType body rest : frame_ends tail frameType body rest -> overruns tail rest -> overruns tail (frameType :: body).

Lemma read_place_spec bs : Forall is_byte bs ->
  match read_place bs with Ok ((o, l), rest) => in_width 62 o /\ in_width 62 l /\ exists k, rest = drop k bs | Err _ => True | Panic _ => False end.
Proof.
  intros Hb. unfold read_place, mbind, reader_bind. pose proof (wb_quic_uvarint bs) as H1. destruct (quic_ReadUvarint bs) as [[o bs1]|e|p] eqn:E1; [|done..].
  destruct (drops_uvarint _ _ _ E1) as [k ->]. assert (Hb1 : Forall is_byte (drop k bs)) by (by apply Forall_drop).
  pose proof (wb_quic_uvarint (drop k bs)) as H2. destruct (quic_ReadUvarint (drop k bs)) as [[l bs2]|e|p] eqn:E2; [|done..].
  destruct (drops_uvarint _ _ _ E2) as [j ->]. cbn. split; [exact (quic_uvarint_range _ _ _ Hb E1)|]. split; [exact (quic_uvarint_range _ _ _ Hb1 E2)|].
  exists (k + j)%nat. by rewrite drop_drop.
Qed.
Lemma read_crypto_spec tail bs : Forall is_byte bs -> Forall is_byte tail ->
  match read_crypto tail bs with
  | Ok (f, bs') => fragment_ok f /\ frame_ends tail frameTypeCrypto bs bs' /\ exists k, bs' = drop k bs
  | Err _ => True
  | Panic _ => exists offset length rest, read_place bs = Ok ((offset, length), rest) /\ len rest + len tail < length
  end.
Proof.
  intros Hb Ht. unfold read_crypto, mbind, reader_bind. pose proof (read_place_spec bs Hb) as Hp. destruct (read_place bs) as [[[o l] rest]|e|p] eqn:Ep; [|done..].
  destruct Hp as (Ho & Hl & k & ->). unfold in_width in Hl. destruct (Z_lt_le_dec (len (drop k bs) + len tail) l) as [Hlt|Hle].
  - unfold slice. rewrite (proj2 (Z.leb_gt l _)) by (rewrite len_app; lia). rewrite andb_false_r. cbn. by exists o, l, (drop k bs).
  - rewrite slice_ok by (rewrite ?len_app; lia). cbn. split.
    + constructor; cbn [f_offset f_length f_payload]; [done|done| |].
      * rewrite drop_0, Z.sub_0_r. unfold len in *. rewrite length_take, length_app. lia.
      * apply Forall_take, Forall_drop, Forall_app. split; [by apply Forall_drop|done].
    + split; [|exists (k + Z.to_nat l)%nat; by rewrite drop_drop]. right; right; left. split; [done|]. by exists o, l, (drop k bs).
Qed.

Lemma read_frames_spec tail : Forall is_byte tail -> forall fuel bs, (length bs <= fuel)%nat -> Forall is_byte bs ->
  match read_frames fuel tail bs with
  | Ok (types, fragments) => Forall fragment_ok fragments /\ (length fragments <= length bs)%nat /\ (types = [] -> fragments = [])
  | Err _ => True
  | Panic _ => overruns tail bs
  end.
Proof.
  intros Ht fuel. induction fuel as [|fuel IH]; intros bs Hf Hb; (destruct bs as [|t bs]; [cbn; done|]); [cbn in Hf; lia|]. cbn [read_frames].
  apply Forall_cons_iff in Hb as [_ Hb]. set (frame := if _ || _ then _ else _).
  assert (Hframe : match frame with
                   | Ok (o, bs') => (forall f, o = Some f -> fragment_ok f) /\ frame_ends tail t bs bs' /\ exists k, bs' = drop k bs
                   | Err _ => True
                   | Panic _ => overruns tail (t :: bs)
                   end).
  { unfold frame, frame_ends. destruct (Z.eqb_spec t frameTypePadding), (Z.eqb_spec t frameTypePing); cbn [orb]; [split; [done|split; [by left; auto|by exists 0%nat]]..|].
    destruct ((t =? frameTypeAck) || (t =? frameTypeAck2)) eqn:Eack.
    { pose proof (wb_ack t bs) as Hw. pose proof (drops_ack t bs) as Hd. destruct (read_ack t bs) as [[[] bs']|e|p]; [|done..]. cbn.
      assert (Ht' : t = frameTypeAck \/ t = frameTypeAck2) by lia. split; [done|]. split; [by right; left|by eapply Hd]. }
    destruct (Z.eqb_spec t frameTypeCrypto) as [->|_].
    { pose proof (read_crypto_spec tail bs Hb Ht) as Hc. destruct (read_crypto tail bs) as [[f bs']|e|p]; [|done|].
      - cbn. destruct Hc as [Hc Hk]. split; [by intros g [= <-]|done].
      - destruct Hc as (o & l & rest & Hr & Hlt). by apply (overruns_here tail bs o l rest). }
    destruct (Z.eqb_spec t frameTypeConnectionClose) as [Hclose|_]; [|done]. pose proof (wb_close bs) as Hw. pose proof (drops_close bs) as Hd.
    destruct (read_close bs) as [[[] bs']|e|p]; [|done..]. cbn. split; [done|]. split; [by do 3 right|by eapply Hd]. }
  destruct frame as [[o bs']|e|p]; [|done..]. destruct Hframe as (Ho & Hends & [k ->]). rewrite ok_bind.
  assert (Hlen : (length (drop k bs) <= length bs)%nat) by (rewrite length_drop; lia).
  specialize (IH (drop k bs) ltac:(cbn in Hf; lia) ltac:(by apply Forall_drop)). destruct (read_frames fuel tail (drop k bs)) as [[types fragments]|e|p]; [|done|].
  - rewrite ok_bind. destruct IH as (IH1 & IH2 & _). destruct o as [f|]; cbn [length]; (split; [|split; [lia|done]]); [|done]. constructor; [by apply Ho|done].
  - by apply (overruns_next tail t bs (drop k bs)).
Qed.

(** Such a frame is read out of range. *)
Lemma crypto_overruns tail bs offset length rest : read_place bs = Ok ((offset, length), rest) -> len rest + len tail < length ->
  exists p, read_crypto tail bs = Panic p.
Proof.
  intros Hp Hl. unfold read_crypto, mbind, reader_bind. rewrite Hp. unfold slice. rewrite (proj2 (Z.leb_gt length _)) by (rewrite len_app; lia).
  rewrite andb_false_r. by eexists.
Qed.
Lemma crypto_read tail bs offset length rest : Forall is_byte bs -> read_place bs = Ok ((offset, length), rest) -> length <= len rest + len tail ->
  exists f, read_crypto tail bs = Ok (f, drop (Z.to_nat length) rest).
Proof.
  intros Hb Hp Hl. pose proof (read_place_spec bs Hb) as Hs. rewrite Hp in Hs. destruct Hs as (_ & [Hn _] & _).
  unfold read_crypto, mbind, reader_bind. rewrite Hp, slice_ok by (rewrite ?len_app; lia). by eexists.
Qed.
Lemma frame_ends_bytes tail t body rest : Forall is_byte body -> frame_ends tail t body rest -> Forall is_byte rest.
Proof.
  intros Hb [[_ ->]|[[_ H]|[[_ (o & l & data & Hp & _ & ->)]|[_ H]]]].
  - done.
  - destruct (drops_ack t _ _ _ H) as [k ->]. by apply Forall_drop.
  - pose proof (read_place_spec body Hb) as Hs. rewrite Hp in Hs. destruct Hs as (_ & _ & k & ->). by apply Forall_drop, Forall_drop.
  - destruct (drops_close _ _ _ H) as [k ->]. by apply Forall_drop.
Qed.
Lemma read_frames_overruns tail bs : overruns tail bs -> forall fuel, Forall is_byte bs -> exists p, read_frames fuel tail bs = Panic p.
Proof.
  induction 1 as [body o l rest Hp Hl|t body rest Hends _ IH]; intros [|fuel] Hb; cbn [read_frames]; [by eexists| |by eexists|];
    apply Forall_cons_iff in Hb as [_ Hb].
  - destruct (crypto_overruns tail body o l rest Hp Hl) as [p Hc]. cbn [Z.eqb frameTypeCrypto frameTypePadding frameTypePing frameTypeAck frameTypeAck2 Pos.eqb orb].
    rewrite Hc. by eexists.
  - assert (Hrest : Forall is_byte rest) by (by eapply frame_ends_bytes).
    destruct (IH fuel Hrest) as [p HIH].
    destruct Hends as [[[ ->| ->] ->]|[[[ ->| ->] Ha]|[[-> (o & l & data & Hp & Hl & ->)]|[-> Hc]]]]; cbn -[read_frames read_ack read_crypto read_close];
      rewrite ?Ha, ?Hc; try destruct (crypto_read tail body o l data Hb Hp Hl) as [f ->]; rewrite ?ok_bind; try rewrite HIH; by eexists.
Qed.

(** ** The header and the protection *)

Section Packet.
Context {QC : QuicCrypto}.

Record header_ok (packet : bytes) (h : Header) : Prop := {
  ho_hdrLen : 1 <= q_hdrLen h;
  ho_packetLen : 0 <= q_packetLen h;
  ho_packet : q_hdrLen h + q_packetLen h <= len packet;
  ho_sample : q_hdrLen h + 20 <= len packet
}.

Lemma wb_skip n : 0 <= n -> well_behaved false (skip n).
Proof. intros Hn bs. unfold skip. destruct (n <=? len bs); [|done]. rewrite length_drop. lia. Qed.
Lemma drops_skip n : drops (skip n).
Proof. intros bs a bs' H. unfold skip in H. destruct (n <=? len bs); [|done]. injection H as _ <-. by eexists. Qed.
Lemma drops_full n : drops (ReadFull (ST := file_stream) n).
Proof. intros bs a bs' H. unfold ReadFull in H. destruct (n <=? length bs)%nat; [|done]. injection H as _ <-. by eexists. Qed.

(** A result that is an error or has a property *)
Definition good {A} (Q : A -> Prop) (m : Res A) : Prop := match m with Ok x => Q x | Err _ => True | Panic _ => False end.
Lemma good_bind {A B} (m : Res A) (f : A -> Res B) P Q : good P m -> (forall a, P a -> good Q (f a)) -> good Q (m ≫= f).
Proof. intros Hm Hf. destruct m; [|done..]. by apply Hf. Qed.
Lemma good_read {A} (R : Reader A) bs : well_behaved false R -> drops R -> Forall is_byte bs ->
  good (fun r => R bs = Ok r /\ Forall is_byte r.2 /\ (length r.2 <= length bs)%nat) (R bs).
Proof.
  intros Hw Hd Hb. specialize (Hw bs). specialize (Hd bs). destruct (R bs) as [[a bs']|e|p]; [|done..]. cbn. split; [done|]. split; [|done].
  destruct (Hd _ _ eq_refl) as [k ->]. by apply Forall_drop.
Qed.
Lemma byte_read bs b bs' : Forall is_byte bs -> ReadByte (ST := file_stream) bs = Ok (b, bs') -> 0 <= b.
Proof. intros Hb H. destruct bs as [|x bs]; [done|]. injection H as <- _. apply Forall_cons_iff in Hb as [Hx _]. apply Hx. Qed.

Lemma wb_byte' : well_behaved false (ReadByte (ST := file_stream)).
Proof. apply wb_weaken, wb_byte. Qed.
Lemma wb_uvarint' : well_behaved false quic_ReadUvarint.
Proof. apply wb_weaken, wb_quic_uvarint. Qed.
Lemma wb_version : well_behaved false (binary_Read (ST := file_stream) 4).
Proof. apply wb_weaken, wb_binary. lia. Qed.
Lemma drops_version : drops (binary_Read (ST := file_stream) 4).
Proof. apply drops_bind; [apply drops_full|auto with drops]. Qed.

Ltac read_next a r H := eapply good_bind;
  [apply good_read; [auto using wb_byte', wb_uvarint', wb_version, wb_full, wb_skip|auto using drops_byte, drops_uvarint, drops_version, drops_full, drops_skip|assumption]|
   intros [a r] (H & ? & ?); cbn [snd] in *].

Lemma read_header_spec packet : Forall is_byte packet -> good (header_ok packet) (read_header packet).
Proof.
  intros Hb. unfold read_header. destruct packet as [|b0 r0]; [done|]. set (packet := b0 :: r0). change (ReadByte packet) with (Ok (b0, r0)).
  rewrite ok_bind. assert (Hlen : len packet = 1 + len r0) by (unfold packet, len; cbn [length]; lia). apply Forall_cons_iff in Hb as [_ Hb].
  clearbody packet. destruct (_ =? 0); [done|]. read_next v r1 Hr1. destruct (_ && _); [done|]. destruct (_ || _); [done|].
  read_next dl r2 Hr2. destruct (_ || _); [done|]. read_next d r3 Hr3. read_next sl r4 Hr4. apply byte_read in Hr4 as Hsl; [|done].
  read_next u r5 Hr5. read_next tkl r6 Hr6. apply quic_uvarint_range in Hr6 as Htl; [|done]. destruct Htl as [Htl _].
  read_next u' r7 Hr7. read_next pl r8 Hr8. apply quic_uvarint_range in Hr8 as Hpl; [|done]. destruct Hpl as [Hpl _].
  destruct (Z.ltb_spec (len packet) (len packet - len r8 + pl)) as [|Hfit]; [done|].
  read_next u'' r9 Hr9; [by apply wb_skip|].
  read_next pn r10 Hr10. cbn. unfold skip in Hr9. destruct (Z.leb_spec 4 (len r8)); [|done]. injection Hr9 as _ <-.
  unfold ReadFull in Hr10. destruct (Nat.leb_spec 16 (length (drop (Z.to_nat 4) r8))) as [Hlen16|]; [|done].
  rewrite length_drop in Hlen16. constructor; cbn [q_hdrLen q_packetLen]; unfold len in *; lia.
Qed.

Lemma unprotect_spec packet h : header_ok packet h ->
  good (fun '(newPacket, n, _) => 1 <= n <= 4 /\ n <= q_packetLen h /\ len newPacket = len packet /\
          drop (Z.to_nat (q_hdrLen h + n)) newPacket = drop (Z.to_nat (q_hdrLen h + n)) packet) (unprotect packet h).
Proof.
  intros [H1 H2 H3 H4]. unfold unprotect. set (mask := aes_Encrypt _ _). pose proof (aes_Encrypt_length (HKDFExpandLabel (client_secret h) [] (if q_version h =? Version2 then "quicv2 hp" else "quic hp") 16) (q_pnBytes h)) as Hm.
  fold mask in Hm. destruct packet as [|b0 packet']; [unfold len in *; cbn in *; lia|]. set (packet := b0 :: packet') in *. change (index packet 0) with (Ok b0). rewrite ok_bind.
  destruct mask as [|m0 mask']; [done|]. change (index (m0 :: mask') 0) with (Ok m0). rewrite ok_bind. set (first := Z.lxor _ _).
  assert (Hn : 0 <= Z.land first 3 < 4) by (change 3 with (Z.ones 2); rewrite Z.land_ones by lia; apply Z.mod_pos_bound; lia).
  set (n := Z.land first 3 + 1) in *. rewrite (slice_ok packet 1 (q_hdrLen h)), ok_bind by lia.
  rewrite (slice_ok packet (q_hdrLen h) (q_hdrLen h + 4)), ok_bind by lia. rewrite (slice_ok (m0 :: mask') 1 5), ok_bind by lia.
  destruct (Z.ltb_spec (q_packetLen h + q_hdrLen h) (q_hdrLen h + n)); [done|]. rewrite slice_tail, ok_bind by lia. cbn [good]. split; [lia|]. split; [lia|].
  match goal with |- context [[first] ++ ?a ++ ?b ++ ?c] => set (mid := a); set (num := b); set (rest := c) end.
  assert (Hmid : len mid = q_hdrLen h - 1).
  { unfold mid, len. rewrite length_take, length_drop. unfold len in *. lia. }
  assert (Hnum : len num = n).
  { unfold num, len, xor_bytes. rewrite length_take, length_zip_with, !length_take, !length_drop. unfold len in *. lia. }
  assert (Hrest : len rest = len packet - (q_hdrLen h + n)) by (unfold rest; rewrite len_drop; lia).
  split; [rewrite !len_app, len_one; lia|]. rewrite !app_assoc.
  replace (Z.to_nat (q_hdrLen h + n)) with (length (([first] ++ mid) ++ num)); [by rewrite drop_app_length|].
  rewrite !length_app. unfold len in *. cbn [length]. lia.
Qed.

Lemma decrypt_spec packet h : Forall is_byte packet -> header_ok packet h ->
  good (fun '(decrypted, tail) => Forall is_byte decrypted /\ Forall is_byte tail /\ (length decrypted <= length packet)%nat) (decrypt packet h).
Proof.
  intros Hb Hh. unfold decrypt. eapply good_bind; [by apply unprotect_spec|]. destruct Hh as [H1 H2 H3 H4]. intros [[newPacket n] number] (Hn & Hnp & Hlen & Hdrop).
  rewrite slice_ok, ok_bind by lia. unfold aead_Open.
  match goal with |- context [gcm_Open ?k ?nonce ?c ?ad] =>
    pose proof (gcm_Open_returns k nonce c ad) as Hr; pose proof (gcm_Open_length k nonce c ad) as Hl; pose proof (gcm_Open_bytes k nonce c ad) as Hd;
    destruct (gcm_Open k nonce c ad) as [d|e|p] end; [|done..].
  rewrite ok_bind. cbn [good]. split; [by apply Hd|]. specialize (Hl d eq_refl). split.
  - replace (Z.to_nat (q_hdrLen h + n + len d)) with (Z.to_nat (q_hdrLen h + n) + Z.to_nat (len d))%nat by (unfold len; lia).
    rewrite <-drop_drop, Hdrop. by apply Forall_drop, Forall_drop.
  - unfold len in *. rewrite length_take, length_drop in Hl. lia.
Qed.

(** Reading a packet: the fragments are well formed, and a panic is an overrun. *)
Definition packet_overruns (packet : bytes) : Prop :=
  exists h decrypted tail, read_header packet = Ok h /\ decrypt packet h = Ok (decrypted, tail) /\ overruns tail decrypted.
Lemma read_packet_spec packet : Forall is_byte packet ->
  match read_packet packet with
  | Ok (types, fragments) => Forall fragment_ok fragments /\ (length fragments <= length packet)%nat /\ (types = [] -> fragments = [])
  | Err _ => True
  | Panic _ => packet_overruns packet
  end.
Proof.
  intros Hb. unfold read_packet. pose proof (read_header_spec packet Hb) as Hh. destruct (read_header packet) as [h|e|p] eqn:Eh; [|done..]. rewrite ok_bind.
  pose proof (decrypt_spec packet h Hb Hh) as Hd. destruct (decrypt packet h) as [[d tail]|e|p] eqn:Ed; [|done..]. rewrite ok_bind. destruct Hd as (Hd1 & Hd2 & Hd3).
  pose proof (read_frames_spec tail Hd2 (length d) d ltac:(lia) Hd1) as Hf. destruct (read_frames (length d) tail d) as [[types fragments]|e|p]; [|done|].
  - destruct Hf as (Hf1 & Hf2 & Hf3). split; [done|]. split; [lia|done].
  - by exists h, d, tail.
Qed.

Lemma packet_overruns_panics packet : packet_overruns packet -> Forall is_byte packet -> exists p, read_packet packet = Panic p.
Proof.
  intros (h & decrypted & tail & Hh & Hd & Ho) Hb. unfold read_packet. rewrite Hh, ok_bind, Hd, ok_bind.
  pose proof (read_header_spec packet Hb) as Hs. rewrite Hh in Hs. pose proof (decrypt_spec packet h Hb Hs) as Hds. rewrite Hd in Hds.
  by apply read_frames_overruns, Hds.
Qed.

End Packet.
