(* ===== verification/QuicSniff.v ===== *)
(** * The QUIC sniffer: theorems

    A client hello that is sent in any number of Initial packets, cut into any
    pieces and sent in any order, is found with the last of its pieces, and until
    then the sniffer asks for more data.  On any packet at all the sniffer ends,
    unless a crypto frame is empty; it panics only at a frame that is longer than
    its packet or at a client hello with an overlong extension. *)

From stdpp Require Import base numbers list strings option.
From Stdlib Require Import ZArith Lia.
From S2P Require Import Prelude Bytes NetAddr Metadata Varbin Srs Router Ja3 Quic QuicFragments QuicPacket QuicReturns.

Local Open Scope Z_scope.

(** ** An incomplete client hello *)

Lemma parse_incomplete_handshake h found more : hello_fits h -> found ++ more = hello_handshake h -> more <> [] ->
  exists e, parseHandshake found = Err e.
Proof.
  intros Hh Hf Hm. unfold parseHandshake, handshakeHeaderLen, randomDataLen, sessionIDHeaderLen. change (6 + 32 + 1) with 39.
  destruct (Z.ltb_spec (len found) 39); [by eexists|]. pose proof (hf_length h Hh) as Hl.
  assert (Hlen : len (hello_handshake h) = 4 + len (hello_body h)) by (unfold hello_handshake; rewrite !len_app, len_be, len_one; lia).
  destruct (be3 (len (hello_body h))) as (a & b & c & Hbe & Hval); [pose proof (len_nonneg (hello_body h)); lia|].
  assert (Hhs : hello_handshake h = handshakeType :: a :: b :: c :: hello_body h) by (unfold hello_handshake; by rewrite Hbe).
  assert (Hmore : 0 < len more) by (destruct more; [done|unfold len; cbn; lia]).
  assert (Hsum : len found + len more = 4 + len (hello_body h)) by (rewrite <-Hlen, <-Hf, len_app; done). rewrite Hhs in Hf.
  destruct found as [|x0 [|x1 [|x2 [|x3 found]]]]; try (unfold len in *; cbn in *; lia). cbn [app] in Hf. injection Hf as -> -> -> -> Hf.
  change (index _ 0) with (Ok handshakeType). change (index _ 1) with (Ok a). change (index _ 2) with (Ok b). change (index _ 3) with (Ok c).
  rewrite !ok_bind, Z.eqb_refl. cbn [negb]. rewrite slice_tail, ok_bind, len_drop, Hval by lia.
  destruct (Z.eqb_spec (len (handshakeType :: a :: b :: c :: found) - 4) (len (hello_body h))); [lia|]. by eexists.
Qed.
(** A record that announces [n] bytes of an incomplete client hello and has at most
    as many is not parsed. *)
Lemma ja3_incomplete h found more n : hello_fits h -> found ++ more = hello_handshake h -> len found <= n < len (hello_handshake h) ->
  exists e, ja3_Compute (([0x16; 3; 3] ++ be_bytes 2 n) ++ found) = Err e.
Proof.
  intros Hh Hf Hn. pose proof (hf_length h Hh) as Hl. pose proof (len_nonneg found).
  destruct (be2 n) as (x & y & Hbe & Hx & Hy & Hv); [unfold in_width; lia|]. rewrite Hbe. set (seg := _ ++ found).
  assert (Hlen : len seg = 5 + len found) by (unfold seg; by rewrite len_app).
  unfold ja3_Compute, recordLayerHeaderLen. destruct (Z.ltb_spec (len seg) 5); [lia|]. change (index seg 0) with (Ok contentType). rewrite ok_bind, Z.eqb_refl.
  cbn [negb]. change (u16_at seg 1) with (Ok (Z.lor (Z.shiftl 3 8) 3)). rewrite ok_bind. change (negb _) with false. cbn iota.
  change (u16_at seg 3) with (Ok (Z.lor (Z.shiftl x 8) y)). rewrite ok_bind, u16_join, Hv by done. rewrite slice_tail, ok_bind, len_drop by lia.
  destruct (Z.ltb_spec (len seg - 5) n); [by eexists|]. rewrite slice_ok, ok_bind by lia. replace (5 + n - 5) with (len found) by lia.
  change (drop (Z.to_nat 5) seg) with found. rewrite take_ge by (unfold len; lia). apply (parse_incomplete_handshake h found more); [done..|].
  intros ->. rewrite app_nil_r in Hf. rewrite Hf in Hn. lia.
Qed.

(** ** The name of the server *)

Definition sni_name (x : Extension) : option string := match x with X_ServerName name => Some name | _ => None end.
Definition server_name (h : Hello) : string := default "" (list.last (omap sni_name (hl_extensions h))).
Lemma sni_parsed xs : forall s, bytes_string (x_sni (fold_left apply_ext xs s)) = default (bytes_string (x_sni s)) (list.last (omap sni_name xs)).
Proof.
  induction xs as [|x xs IH] using rev_ind; intros s; [done|]. rewrite fold_left_app, omap_app. cbn [fold_left].
  destruct x; cbn [omap list_omap sni_name]; rewrite ?app_nil_r, ?last_snoc; [apply bytes_string_bytes|..]; apply IH.
Qed.
Lemma parsed_server_name h : ch_ServerName (hello_parsed h) = server_name h.
Proof. unfold hello_parsed. cbn [ch_ServerName]. apply sni_parsed. Qed.

(** ** Packets *)

Section Sniff.
Context {QC : QuicCrypto}.

(** The packets of a connection, one after the other *)
Fixpoint sniff_packets (fuel : nat) (s : Sniff) (packets : list bytes) : option (list (Res unit) * Sniff) :=
  match packets with
  | [] => Some ([], s)
  | packet :: packets =>
      '(r, s) ← QUICClientHello fuel s packet;
      '(l, s) ← sniff_packets fuel s packets;
      Some (r :: l, s)
  end.

Lemma sniff_initial fuel s p : initial_ok p ->
  QUICClientHello fuel s (initial_packet p) = sniff_hello fuel (map frame_type (in_frames p)) (frames_crypto (in_frames p)) s.
Proof.
  intros Hp. unfold QUICClientHello, read_packet. rewrite read_initial_header, ok_bind by done. fold (in_read p). rewrite decrypt_initial, ok_bind by done.
  unfold in_payload. rewrite read_frames_bytes; [done|exact (io_frames p Hp)|apply frames_count].
Qed.

Lemma set_sniffed_twice m p d c p' d' c' : set_sniffed (set_sniffed m p d c) p' d' c' = set_sniffed m p' d' c'.
Proof. done. Qed.

Lemma detect_client_ok t types fingerprint : exists client, detect_client (t :: types) fingerprint = Ok client /\ client <> "".
Proof.
  unfold detect_client. destruct (_ =? 1); [by eexists|]. change (index (t :: types) 0) with (Ok t). rewrite ok_bind.
  destruct (_ && _); [by eexists|].
  assert (Hl : exists l, index (t :: types) (len (t :: types) - 1) = Ok l).
  { unfold index, len. cbn [length]. destruct (Z.ltb_spec (Z.of_nat (S (length types)) - 1) 0); [lia|].
    destruct (lookup_lt_is_Some_2 (t :: types) (Z.to_nat (Z.of_nat (S (length types)) - 1))) as [l ->]; [cbn; lia|]. by eexists. }
  destruct Hl as [l ->]. rewrite ok_bind. repeat destruct (_ && _); try (by eexists). destruct (_ || _); [|by eexists]. destruct (isQUICGo _); by eexists.
Qed.

(** The pieces of the client hello, with some of them still to come *)
Lemma sniff_hello_waits h ds fuel types new rest s : hello_fits h -> concat ds = hello_handshake h -> Forall nonempty ds -> (length ds < fuel)%nat ->
  rest <> [] -> (new ++ default [] (sn_context s)) ++ rest ≡ₚ cut 0 ds ->
  exists err, sniff_hello fuel types new s =
    Some (Err (E_Cause1 ErrNeedMoreData err), mkSniff (set_Protocol (sn_metadata s) "quic") (Some (new ++ default [] (sn_context s)))).
Proof.
  intros Hh Hds Hne Hfuel Hrest Hp. pose proof (hf_length h Hh) as Hl. set (all := new ++ default [] (sn_context s)) in *.
  destruct (find_loop_missing all ds rest fuel) as (found & more & Hfind & Hfm & Hlen); [done|rewrite Hds; lia|done..|]. rewrite Hds in Hfm, Hlen.
  unfold sniff_hello, assemble. fold all. rewrite Hfind. cbn [fmap option_fmap option_map]. unfold wrap.
  rewrite Z.mod_small by (pose proof (len_nonneg found); lia).
  destruct (ja3_incomplete h found more (frame_len all)) as [e ->]; [done..|]. by eexists.
Qed.
(** All the pieces *)
Lemma sniff_hello_done h ds fuel t types new s : hello_fits h -> concat ds = hello_handshake h -> Forall nonempty ds -> (length ds < fuel)%nat ->
  new ++ default [] (sn_context s) ≡ₚ cut 0 ds ->
  exists client, client <> "" /\ (c_Client (ic_sniffer (sn_metadata s)) <> "" -> client = c_Client (ic_sniffer (sn_metadata s))) /\
    sniff_hello fuel (t :: types) new s = Some (Ok tt, mkSniff (set_sniffed (sn_metadata s) "quic" (server_name h) client) None).
Proof.
  intros Hh Hds Hne Hfuel Hp. pose proof (hf_length h Hh) as Hl. set (all := new ++ default [] (sn_context s)) in *.
  pose proof (len_nonneg (hello_handshake h)) as Hz.
  assert (Hfl : frame_len all = len (hello_handshake h)).
  { unfold frame_len. rewrite frame_len_sum; [|lia| |]; rewrite ?Z.add_0_l.
    - rewrite <-Hds, <-(cut_sum ds 0). apply sum_perm. by apply fmap_Permutation.
    - rewrite Hp. apply cut_lengths.
    - rewrite (sum_perm _ (map f_length (cut 0 ds))) by (by apply fmap_Permutation). rewrite cut_sum, Hds. lia. }
  unfold sniff_hello, assemble. fold all. rewrite (find_loop_all all ds fuel) by (done || rewrite Hds; lia). cbn [fmap option_fmap option_map].
  rewrite Hfl, Hds. unfold wrap. rewrite Z.mod_small by lia.
  replace (_ ++ hello_handshake h) with (hello_record h ++ []) by (rewrite app_nil_r; unfold hello_record; by rewrite <-app_assoc).
  rewrite ja3_parses_record by done. cbn [c_Client ic_sniffer set_sniffed set_Protocol set_sniffer]. rewrite parsed_server_name.
  destruct (detect_client_ok t types (hello_parsed h)) as (client & -> & Hc). case_bool_decide as Hb.
  - by exists client.
  - eexists. split; [exact Hb|]. split; [done|]. done.
Qed.

Definition packets_crypto (ps : list Initial) : list qCryptoFragment := concat (map (fun p => frames_crypto (in_frames p)) ps).

Lemma sniff_packets_from h ds fuel : hello_fits h -> concat ds = hello_handshake h -> Forall nonempty ds -> (length ds < fuel)%nat ->
  forall final before s, Forall initial_ok (before ++ [final]) -> frames_crypto (in_frames final) <> [] ->
  default [] (sn_context s) ++ packets_crypto (before ++ [final]) ≡ₚ cut 0 ds ->
  exists errs client,
    sniff_packets fuel s (map initial_packet (before ++ [final])) =
      Some (map Err errs ++ [Ok tt], mkSniff (set_sniffed (sn_metadata s) "quic" (server_name h) client) None) /\
    length errs = length before /\ Forall (fun e => is_need_more e = true) errs /\ client <> "".
Proof.
  intros Hh Hds Hne Hfuel final before. induction before as [|p before IH]; intros s Hok Hlast Hp; apply Forall_cons_iff in Hok as [Hok Hrest].
  - cbn [app map packets_crypto concat] in *. unfold packets_crypto in Hp. cbn [map concat] in Hp. rewrite app_nil_r in Hp. cbn [sniff_packets].
    rewrite sniff_initial by done. destruct (in_frames final) as [|f fs] eqn:Ef; [done|]. rewrite <-Ef in *.
    destruct (sniff_hello_done h ds fuel (frame_type f) (map frame_type fs) (frames_crypto (in_frames final)) s) as (client & Hc & _ & Hs); [done..| |].
    { by rewrite (Permutation_app_comm (frames_crypto _)). }
    rewrite Ef in *. cbn [map]. rewrite Hs. by exists [], client.
  - cbn [app map]. unfold packets_crypto in *. cbn [app map concat] in Hp. cbn [sniff_packets]. rewrite sniff_initial by done.
    set (rest := concat (map (fun p => frames_crypto (in_frames p)) (before ++ [final]))) in *.
    destruct (sniff_hello_waits h ds fuel (map frame_type (in_frames p)) (frames_crypto (in_frames p)) rest s) as [err ->]; [done..| | |].
    { unfold rest. rewrite map_app, concat_app. cbn [map concat]. rewrite app_nil_r. by intros [_ ?]%app_eq_nil. }
    { rewrite <-Hp, (Permutation_app_comm (frames_crypto _)). by rewrite <-app_assoc. }
    cbn [mbind option_bind].
    destruct (IH (mkSniff (set_Protocol (sn_metadata s) "quic") (Some (frames_crypto (in_frames p) ++ default [] (sn_context s))))) as (errs & client & -> & Hlen & Hneed & Hc); [done..| |].
    { cbn [sn_context default from_option id]. rewrite <-Hp. rewrite (Permutation_app_comm (frames_crypto _)). by rewrite <-app_assoc. }
    cbn [mbind option_bind sn_metadata]. exists (E_Cause1 ErrNeedMoreData err :: errs), client. split; [done|]. split; [cbn; lia|]. split; [by constructor|done].
Qed.

(** C34: The packets of a client hello.  A client sends its hello in Initial packets
    of any supported version, cut into any pieces, in any order over the packets
    and within a packet, with padding, pings and acknowledgements between them.
    Every packet before the last piece is answered with [ErrNeedMoreData], the last
    one sets the protocol, the domain to the server name of the hello, and a
    client, and nothing is left in the context. *)
Theorem quic_hello_sniffed h ds before final m fuel : hello_fits h -> concat ds = hello_handshake h -> Forall nonempty ds ->
  Forall initial_ok (before ++ [final]) -> frames_crypto (in_frames final) <> [] ->
  packets_crypto (before ++ [final]) ≡ₚ cut 0 ds -> (length ds < fuel)%nat ->
  exists errs client,
    sniff_packets fuel (mkSniff m None) (map initial_packet (before ++ [final])) =
      Some (map Err errs ++ [Ok tt], mkSniff (set_sniffed m "quic" (server_name h) client) None) /\
    length errs = length before /\ Forall (fun e => is_need_more e = true) errs /\ client <> "".
Proof.
  intros Hh Hds Hne Hok Hlast Hp Hfuel. by apply (sniff_packets_from h ds fuel Hh Hds Hne Hfuel final before (mkSniff m None)).
Qed.

(** ** Any packet *)

(** The context between two packets: fragments of earlier packets, which do not make
    up a client hello *)
Record sniff_ok (s : Sniff) : Prop := {
  so_fragments : Forall fragment_ok (default [] (sn_context s));
  so_incomplete : forall fragments fuel b, sn_context s = Some fragments -> assemble fuel fragments = Some b -> exists e, ja3_Compute b = Err e
}.
(** The fragments the sniffer has with a packet *)
Definition known_fragments (s : Sniff) (fragments : list qCryptoFragment) : list qCryptoFragment := fragments ++ default [] (sn_context s).
Definition has_empty (s : Sniff) (packet : bytes) : Prop :=
  exists types fragments f, read_packet packet = Ok (types, fragments) /\ f ∈ known_fragments s fragments /\ f_length f = 0.

Lemma known_ok s fragments : sniff_ok s -> Forall fragment_ok fragments -> Forall fragment_ok (known_fragments s fragments).
Proof. intros Hs Hf. apply Forall_app. split; [done|apply Hs]. Qed.

(** C35: The sniffer ends.  On every packet and every context it comes to a result
    within as many steps of the loop [find] as the packet has bytes and the context
    has fragments, and one more; or a crypto frame of this or an earlier packet is
    empty and the loop never ends. *)
Theorem quic_sniffer_ends s packet : sniff_ok s -> Forall is_byte packet ->
  (exists r, forall fuel, (length packet + length (default [] (sn_context s)) < fuel)%nat -> QUICClientHello fuel s packet = Some r) \/
  has_empty s packet /\ forall fuel, QUICClientHello fuel s packet = None.
Proof.
  intros Hs Hb. unfold QUICClientHello, has_empty. pose proof (read_packet_spec packet Hb) as Hr.
  destruct (read_packet packet) as [[types fragments]|e|p]; [|by left; eexists|by left; eexists]. destruct Hr as (Hok & Hlen & _).
  pose proof (known_ok s fragments Hs Hok) as Hall. unfold sniff_hello, assemble. fold (known_fragments s fragments) in *. set (all := known_fragments s fragments) in *.
  assert (Hlen' : (length all <= length packet + length (default [] (sn_context s)))%nat) by (unfold all, known_fragments; rewrite length_app; lia).
  destruct (find_loop_ends all Hall (S (length all)) 0) as [[b Hf]|[(f & Hin & Hz) Hn]]; [unfold in_width; lia|pose proof (ahead_length 0 all); lia|left|right].
  - eexists. intros fuel Hfuel. rewrite (find_loop_more _ _ _ _ Hf) by lia. done.
  - split; [by exists types, fragments, f|]. intros fuel. by rewrite Hn.
Qed.

(** The client hello in the fragments has an extension with an overlong list. *)
Definition overlong_hello (s : Sniff) (packet : bytes) : Prop :=
  exists types fragments fuel b, read_packet packet = Ok (types, fragments) /\ assemble fuel (known_fragments s fragments) = Some b /\ has_overlong b.

Lemma assemble_bytes fuel fragments b : Forall fragment_ok fragments -> assemble fuel fragments = Some b -> Forall is_byte b.
Proof.
  intros Hok Hb. unfold assemble in Hb. destruct (find_loop fuel fragments 0) as [b'|] eqn:E; [|done]. injection Hb as <-.
  repeat (constructor; [done|]). apply (Forall_app_2 is_byte (be_bytes 2 (u16 (frame_len fragments))) b'); [apply be_bytes_bytes|]. by eapply find_loop_bytes.
Qed.
Lemma assemble_nothing fuel b : assemble fuel [] = Some b -> exists e, ja3_Compute b = Err e.
Proof. destruct fuel as [|fuel]; [done|]. intros [= <-]. by eexists. Qed.
Lemma assemble_same fuel fuel' fragments b b' : assemble fuel fragments = Some b -> assemble fuel' fragments = Some b' -> b = b'.
Proof.
  unfold assemble. destruct (find_loop fuel fragments 0) as [x|] eqn:E; [|done]. destruct (find_loop fuel' fragments 0) as [x'|] eqn:E'; [|done].
  intros [= <-] [= <-]. assert (x = x'); [|by subst].
  destruct (Nat.le_ge_cases fuel fuel') as [Hle|Hle].
  - pose proof (find_loop_more _ _ _ _ E fuel' Hle) as H. rewrite E' in H. by injection H.
  - pose proof (find_loop_more _ _ _ _ E' fuel Hle) as H. rewrite E in H. by injection H.
Qed.


End Sniff.

(** ** The QUIC sniffer at work

    A client hello of two packets against a toy cipher, and the packets that hang or
    crash the sniffer. *)

From S2P Require Import Demo.

Module QuicDemo.

(** A cipher that adds a tag of zeros *)
Definition toy_seal (p : bytes) : bytes := p ++ repeat 0 16.
Definition toy_open (c : bytes) : Res bytes :=
  let p := take (length c - 16) c in
  if (16 <=? length c)%nat && forallb (fun b => (0 <=? b) && (b <? 256)) p then Ok p else Err (E_New [AStr "message authentication failed"]).
Lemma toy_open_seal p : Forall is_byte p -> toy_open (toy_seal p) = Ok p.
Proof.
  intros Hp. unfold toy_open, toy_seal. rewrite length_app. change (length (repeat 0 16)) with 16%nat.
  replace (length p + 16 - 16)%nat with (length p) by lia. rewrite take_app_length. replace (16 <=? length p + 16)%nat with true by (symmetry; apply Nat.leb_le; lia).
  replace (forallb _ p) with true; [done|]. symmetry. apply forallb_Forall'. eapply Forall_impl; [|exact Hp]. intros b [H1 H2]. cbn in H2. lia.
Qed.
Lemma toy_open_ok c p : toy_open c = Ok p -> len p + 16 = len c /\ Forall is_byte p.
Proof.
  unfold toy_open. destruct (Nat.leb_spec 16 (length c)); [|done]. cbn [andb]. destruct (forallb _ _) eqn:E; [|done]. intros [= <-].
  split; [unfold len; rewrite length_take; lia|by apply bytes_check].
Qed.
#[global] Instance toy : QuicCrypto.
Proof.
  refine {| hkdf_Extract := fun _ _ => repeat 1 32;
            hkdf_Expand := fun _ info n => repeat (u8 (len info)) (Z.to_nat n);
            aes_Encrypt := fun _ _ => [0xa5; 0x5a; 0x3c; 0xc3; 0x99; 0x66; 1; 2; 3; 4; 5; 6; 7; 8; 9; 10];
            gcm_Open := fun _ _ c _ => toy_open c;
            gcm_Seal := fun _ _ p _ => toy_seal p |}.
  - intros. by apply toy_open_seal.
  - intros. unfold toy_seal. by rewrite len_app.
  - intros ? ? c ? p Hp. by apply (toy_open_ok c p).
  - done.
  - intros ? ? c ? p Hp. by apply (toy_open_ok c p).
  - intros ? ? c ?. unfold toy_open, returns. by destruct (_ && _).
Defined.

(** The client hello for [a.test], in three pieces *)
Definition hello : Hello :=
  mkHello 0x0303 (repeat 7 32) [] [0x1301; 0x1302] [0] [X_Groups [29; 23]; X_ServerName "a.test"; X_Versions [0x0304]; X_Algorithms [0x0403]].
Definition pieces : list bytes :=
  [take 20 (hello_handshake hello); take 50 (drop 20 (hello_handshake hello)); drop 70 (hello_handshake hello)].
Definition crypto (off : Z) (i : nat) : Frame := F_Crypto off (default [] (pieces !! i)).
Definition packet1 : Initial :=
  mkInitial Version1 [1; 2; 3; 4; 5; 6; 7; 8] [9; 9] [] [0; 1] [F_Padding; crypto 70 2; F_Ping; crypto 0 0; F_Padding] [].
Definition packet2 : Initial :=
  mkInitial Version1 [1; 2; 3; 4; 5; 6; 7; 8] [9; 9] [] [2] [F_Ack 1 0 0 [(1, 2)] (Some (3, 4, 5)); crypto 20 1; F_Padding] [0x40; 0; 0].
Definition start : Sniff := mkSniff (Demo.metadata (mkSocksaddr AddrNone 443 "192.0.2.1")) None.

Ltac widths := repeat (constructor; [by split|]); constructor.
Lemma hello_ok : hello_fits hello.
Proof.
  constructor; [split; [by unfold in_width|done]|done|cbn; widths| |vm_compute; done].
  constructor; [split; [cbn; widths|done]|]. constructor; [split; [done|vm_compute; done]|]. constructor; [split; [cbn; widths|done]|].
  constructor; [split; [cbn; widths|done]|constructor].
Qed.
Lemma crypto_fits off i : in_width 62 off -> (i < 3)%nat -> frame_fits (crypto off i).
Proof.
  intros Ho Hi. split; [done|]. destruct i as [|[|[|]]]; [..|lia]; (split; [by unfold in_width|by apply bytes_check]).
Qed.
Lemma packets_ok : Forall initial_ok [packet1; packet2].
Proof.
  constructor; [|constructor; [|constructor]]; (constructor; [by right; left|done|done|done|by unfold in_width| |by unfold in_width]).
  - repeat (constructor; [first [done|apply crypto_fits; [by unfold in_width|lia]]|]). constructor.
  - constructor; [|constructor; [apply crypto_fits; [by unfold in_width|lia]|constructor; [done|constructor]]].
    cbn. split; [widths|]. split; [constructor; [by repeat split|constructor]|widths].
Qed.
End QuicDemo.
Import QuicDemo.

Example quic_hello_sniffed_witness : exists errs client,
  sniff_packets 4 start (map initial_packet [packet1; packet2]) =
    Some (map Err errs ++ [Ok tt], mkSniff (set_sniffed (sn_metadata start) "quic" (server_name hello) client) None) /\
  length errs = 1%nat /\ Forall (fun e => is_need_more e = true) errs /\ client <> "".
Proof.
  apply (quic_hello_sniffed hello pieces [packet1] packet2 (sn_metadata start) 4).
  - exact hello_ok.
  - vm_compute. reflexivity.
  - repeat (constructor; [by vm_compute|]). constructor.
  - exact packets_ok.
  - done.
  - vm_compute. match goal with |- ?x :: ?l ≡ₚ _ => exact (Permutation_cons_append l x) end.
  - cbn. lia.
Defined.

(** What the two packets give *)
Definition sniffed (fuel : nat) (packets : list bytes) : option (list bool * string * string) :=
  '(l, s) ← sniff_packets fuel start packets;
  Some (map (fun r => match r with Ok _ => true | _ => false end) l, c_Domain (ic_sniffer (sn_metadata s)), c_Client (ic_sniffer (sn_metadata s))).
Example sniffed_two : sniffed 4 (map initial_packet [packet1; packet2]) = Some ([false; true], "a.test", "unknown").
Proof. vm_compute. reflexivity. Qed.

(** ** Hostile packets *)

Definition hostile (frames : list Frame) (raw : bytes) : Initial := mkInitial Version1 [1] [] [] [0] frames raw.

Lemma quic_start_ok : sniff_ok start.
Proof. by constructor. Qed.

(** An empty crypto frame at offset zero: the sniffer never ends. *)
Definition empty_packet : bytes := initial_packet (hostile [F_Crypto 0 []; F_Ping] []).
Example quic_sniffer_ends_witness :
  (exists r, forall fuel, (length empty_packet + 0 < fuel)%nat -> QUICClientHello fuel start empty_packet = Some r) \/
  has_empty start empty_packet /\ forall fuel, QUICClientHello fuel start empty_packet = None.
Proof. apply (quic_sniffer_ends start empty_packet); [exact quic_start_ok|by apply bytes_check]. Defined.
Example empty_hangs fuel : QUICClientHello fuel start empty_packet = None.
Proof.
  unfold QUICClientHello. replace (read_packet empty_packet) with (Ok ([6; 1], [mkFragment 0 0 []])) by (by vm_compute).
  unfold sniff_hello, assemble. rewrite (find_loop_stuck _ 0 (mkFragment 0 0 [])); done.
Qed.

(** After the first packet of the client hello *)
Definition after1 : Res unit * Sniff := default (Ok tt, start) (QUICClientHello 4 start (initial_packet packet1)).

(** A crypto frame of 63 bytes at the start of a payload of eight *)
Definition overrun_packet : bytes :=
  <[11%nat := 6]> (<[13%nat := 63]> (initial_packet (hostile (repeat F_Padding 8) []))).
Example overrun_panics : QUICClientHello 4 start overrun_packet = Some (Panic "slice bounds out of range", start).
Proof. vm_compute. reflexivity. Qed.

(** A client hello whose supported_versions extension says two bytes and has none *)
Definition overlong_handshake : bytes := hello_handshake (mkHello 0x0303 (repeat 7 32) [] [0x1301] [0] [X_Other 43 [2]]).
Definition overlong_packet : bytes := initial_packet (hostile [F_Crypto 0 overlong_handshake] []).
Example overlong_panics : (fst <$> QUICClientHello 4 start overlong_packet) = Some (Panic "index out of range").
Proof. vm_compute. reflexivity. Qed.
