(* ===== verification/FakeIP.v ===== *)
(** * Fake addresses

    [dns/transport/fakeip] and the interfaces of [adapter/fakeip.go]: a store hands
    out addresses of a range for domain names and finds the name of an address
    again.  The names are kept behind an interface ([FakeIPStorage]) with what the
    store relies on ([StorageOk]); the storage in memory is here, the one in the
    cache file in [FakeIPCache].

    The store is shown to be a queue: a range of [n] usable addresses holds the
    last [n] domains, in the order of their first query. *)

From stdpp Require Import base numbers list strings gmap option countable.
From Stdlib Require Import ZArith Lia.
From S2P Require Import Prelude Bytes NetAddr Metadata RuleAction DnsMessage.

Local Open Scope Z_scope.

#[global] Instance Addr_countable : Countable Addr.
Proof.
  refine (inj_countable' (fun a => match a with AddrNone => inl () | Addr4 v => inr (inl v) | Addr6 v z => inr (inr (v, z)) end)
            (fun x => match x with inl () => AddrNone | inr (inl v) => Addr4 v | inr (inr (v, z)) => Addr6 v z end) _).
  by intros [].
Defined.

(** [Addr.Next]; the zero address has no successor that is valid. *)
Definition Addr_Next (a : Addr) : Addr :=
  match a with
  | AddrNone => AddrNone
  | Addr4 v => if v =? 2 ^ 32 - 1 then AddrNone else Addr4 (v + 1)
  | Addr6 v z => if v =? 2 ^ 128 - 1 then AddrNone else Addr6 (v + 1) z
  end.
(** [Addr.As16] as a number; it panics on the zero address. *)
Definition Addr_As16 (a : Addr) : Z :=
  match a with AddrNone => 0 | Addr4 v => Z.lor (Z.shiftl 0xffff 32) v | Addr6 v _ => v end.

(** [broadcastAddress] *)
Definition broadcastAddress (prefix : Prefix) : Addr :=
  let addr := Prefix_Addr prefix in
  let bits := Prefix_Bits prefix + (if Addr_Is4 addr then 96 else 0) in
  let raw := fold_left (fun raw i => Z.lor raw (Z.shiftl 1 (127 - i))) (seqZ bits (128 - bits)) (Addr_As16 addr) in
  if Addr_Is4 addr then Addr4 (Z.land raw 0xffffffff) else Addr6 raw "".

(** ** The interface of the storage *)

Record FakeIPMetadata := mkFakeIPMetadata {
  Inet4Range : Prefix;
  Inet6Range : Prefix;
  Inet4Current : Addr;
  Inet6Current : Addr
}.

Class FakeIPStorage (St : Type) := {
  storage_Metadata : St -> option FakeIPMetadata * St;
  storage_SaveMetadata : FakeIPMetadata -> St -> Res unit * St;
  storage_SaveMetadataAsync : FakeIPMetadata -> St -> St;
  storage_Store : Addr -> string -> St -> Res unit * St;
  storage_Load : Addr -> St -> option string;
  storage_LoadDomain : string -> bool -> St -> option Addr;
  storage_Reset : St -> Res unit * St
}.

(** ** The store *)

Section Store.
Context {St : Type} {FS : FakeIPStorage St}.

Record Store := mkStore {
  inet4Range : Prefix;
  inet6Range : Prefix;
  inet4Last : Addr;
  inet6Last : Addr;
  storage : option St;
  inet4Current : Addr;
  inet6Current : Addr
}.
Definition NewStore (inet4 inet6 : Prefix) : Store :=
  mkStore inet4 inet6 (if Prefix_IsValid inet4 then broadcastAddress inet4 else AddrNone)
    (if Prefix_IsValid inet6 then broadcastAddress inet6 else AddrNone) None AddrNone AddrNone.
Definition set_currents (s : Store) (st : St) (c4 c6 : Addr) : Store :=
  mkStore (inet4Range s) (inet6Range s) (inet4Last s) (inet6Last s) (Some st) c4 c6.
(** The address before the first one of a range *)
Definition first_current (range : Prefix) (current : Addr) : Addr :=
  if Prefix_IsValid range then Addr_Next (Prefix_Addr range) else current.

(** [Store.Start]; [cacheFile] is the storage of the cache file when it stores fake
    addresses, and a new storage in memory otherwise. *)
Definition Store_Start (s : Store) (cacheFile : St) : Store :=
  let '(metadata, st) := storage_Metadata cacheFile in
  let reset := set_currents s (storage_Reset st).2 (first_current (inet4Range s) (inet4Current s)) (first_current (inet6Range s) (inet6Current s)) in
  match metadata with
  | Some m =>
      if bool_decide (Inet4Range m = inet4Range s) && bool_decide (Inet6Range m = inet6Range s)
      then set_currents s st (Inet4Current m) (Inet6Current m) else reset
  | None => reset
  end.
Definition store_metadata (s : Store) : FakeIPMetadata :=
  mkFakeIPMetadata (inet4Range s) (inet6Range s) (inet4Current s) (inet6Current s).
(** [Store.Contains] *)
Definition Store_Contains (s : Store) (address : Addr) : bool :=
  Prefix_Contains (inet4Range s) address || Prefix_Contains (inet6Range s) address.
(** [Store.Close] *)
Definition Store_Close (s : Store) : Res unit * Store :=
  match storage s with
  | None => (Ok tt, s)
  | Some st => let '(r, st) := storage_SaveMetadata (store_metadata s) st in (r, set_currents s st (inet4Current s) (inet6Current s))
  end.

(** The address after [current] *)
Definition next_address (range : Prefix) (last current : Addr) : Addr :=
  let nextAddress := Addr_Next current in
  if bool_decide (nextAddress = last) || negb (Prefix_Contains range nextAddress)
  then Addr_Next (Addr_Next (Prefix_Addr range)) else nextAddress.
(** What [Store.Create] does under the lock *)
Definition create_locked (s : Store) (st : St) (domain : string) (isIPv6 : bool) : Res Addr * Store :=
  match storage_LoadDomain domain isIPv6 st with
  | Some address => (Ok address, s)
  | None =>
      let current := if isIPv6 then inet6Current s else inet4Current s in
      if negb (Addr_IsValid current)
      then (Err (E_New [AStr (if isIPv6 then "missing IPv6 fakeip address range" else "missing IPv4 fakeip address range")]), s)
      else
        let address := if isIPv6 then next_address (inet6Range s) (inet6Last s) current else next_address (inet4Range s) (inet4Last s) current in
        let s := if isIPv6 then set_currents s st (inet4Current s) address else set_currents s st address (inet6Current s) in
        (* an error of the storage is logged *)
        let st := (storage_Store address domain st).2 in
        let st := storage_SaveMetadataAsync (store_metadata s) st in
        (Ok address, set_currents s st (inet4Current s) (inet6Current s))
  end.
(** [Store.Create]; the storage is nil before [Start]. *)
Definition Store_Create (s : Store) (domain : string) (isIPv6 : bool) : Res Addr * Store :=
  match storage s with
  | None => (Panic "nil pointer", s)
  | Some st =>
      match storage_LoadDomain domain isIPv6 st with
      | Some address => (Ok address, s)
      | None => create_locked s st domain isIPv6
      end
  end.
(** [Store.Lookup] *)
Definition Store_Lookup (s : Store) (address : Addr) : Res (option string) :=
  match storage s with None => Panic "nil pointer" | Some st => Ok (storage_Load address st) end.
(** [Store.Reset] *)
Definition Store_Reset (s : Store) : Res unit * Store :=
  match storage s with
  | None => (Panic "nil pointer", s)
  | Some st => let '(r, st) := storage_Reset st in (r, set_currents s st (inet4Current s) (inet6Current s))
  end.

End Store.
Arguments Store : clear implicits.

(** ** The storage in memory *)

Record MemoryStorage := mkMemoryStorage {
  addressCache : gmap Addr string;
  domainCache4 : gmap string Addr;
  domainCache6 : gmap string Addr
}.
Definition NewMemoryStorage : MemoryStorage := mkMemoryStorage ∅ ∅ ∅.
Definition Memory_FakeIPStore (address : Addr) (domain : string) (s : MemoryStorage) : MemoryStorage :=
  let s :=
    match addressCache s !! address with
    | Some oldDomain =>
        if Addr_Is4 address then mkMemoryStorage (addressCache s) (delete oldDomain (domainCache4 s)) (domainCache6 s)
        else mkMemoryStorage (addressCache s) (domainCache4 s) (delete oldDomain (domainCache6 s))
    | None => s
    end in
  if Addr_Is4 address then mkMemoryStorage (<[address := domain]> (addressCache s)) (<[domain := address]> (domainCache4 s)) (domainCache6 s)
  else mkMemoryStorage (<[address := domain]> (addressCache s)) (domainCache4 s) (<[domain := address]> (domainCache6 s)).
Definition Memory_FakeIPLoad (address : Addr) (s : MemoryStorage) : option string := addressCache s !! address.
Definition Memory_FakeIPLoadDomain (domain : string) (isIPv6 : bool) (s : MemoryStorage) : option Addr :=
  if negb isIPv6 then domainCache4 s !! domain else domainCache6 s !! domain.
#[global] Instance Memory_storage : FakeIPStorage MemoryStorage := {|
  storage_Metadata s := (None, s);
  storage_SaveMetadata _ s := (Ok tt, s);
  storage_SaveMetadataAsync _ s := s;
  storage_Store address domain s := (Ok tt, Memory_FakeIPStore address domain s);
  storage_Load := Memory_FakeIPLoad;
  storage_LoadDomain := Memory_FakeIPLoadDomain;
  storage_Reset _ := (Ok tt, NewMemoryStorage)
|}.

(** ** The DNS transport *)

Definition DefaultDNSTTL : Z := 600.
(** [dns.FqdnToDomain] on a name of miekg/dns; [IsFqdn] is its function. *)
Definition FqdnToDomain (IsFqdn : string -> bool) (fqdn : string) : string :=
  if IsFqdn fqdn then str_take (str_len fqdn - 1) fqdn else fqdn.
Section Transport.
Context {St : Type} {FS : FakeIPStorage St}.

Record Transport := mkTransport { tr_store : Store St; inet4Enabled : bool; inet6Enabled : bool }.
(** [NewTransport]; the options are the two ranges, the zero prefix for none. *)
Definition NewTransport (inet4 inet6 : Prefix) : Res Transport :=
  if negb (Prefix_IsValid inet4) && negb (Prefix_IsValid inet6)
  then Err (E_New [AStr "at least one of inet4_range or inet6_range must be set"])
  else Ok (mkTransport (NewStore inet4 inet6) (Prefix_IsValid inet4) (Prefix_IsValid inet6)).
(** [Transport.Exchange] *)
Definition Transport_Exchange (IsFqdn : string -> bool) (t : Transport) (message : CMsg) : Res CMsg * Transport :=
  match c_Question message with
  | [] => (Panic "index out of range", t)
  | question :: _ =>
      let qtype := q_Qtype question in
      if negb (qtype =? T_A) && negb (qtype =? T_AAAA) then (Err (E_New [AStr "only IP queries are supported by fakeip"]), t)
      else if (qtype =? T_A) && negb (inet4Enabled t) || (qtype =? T_AAAA) && negb (inet6Enabled t)
      then (Ok (FixedResponseStatus message RcodeSuccess), t)
      else
        let '(r, s) := Store_Create (tr_store t) (FqdnToDomain IsFqdn (q_Name question)) (qtype =? T_AAAA) in
        (address ← r; Ok (FixedResponse (hdr_Id (c_hdr message)) question [address] DefaultDNSTTL), mkTransport s (inet4Enabled t) (inet6Enabled t))
  end.
End Transport.

(** ** Ranges *)

(** The addresses of a family *)
Definition mk_addr (isIPv6 : bool) (v : Z) : Addr := if isIPv6 then Addr6 v "" else Addr4 v.
Definition width_of (isIPv6 : bool) : Z := if isIPv6 then 128 else 32.
Definition Addr_Is6 (a : Addr) : bool := match a with Addr6 _ _ => true | _ => false end.

(** A range as the options give it, with room for an address between the third and
    the last one *)
Record range_ok (isIPv6 : bool) (range : Prefix) : Prop := {
  rk_addr : Prefix_Addr range = mk_addr isIPv6 (Addr_bits (Prefix_Addr range));
  rk_width : in_width (width_of isIPv6) (Addr_bits (Prefix_Addr range));
  rk_bits : 0 <= Prefix_Bits range <= width_of isIPv6;
  rk_room : Addr_bits (Prefix_Addr range) + 2 < Z.lor (Addr_bits (Prefix_Addr range)) (Z.ones (width_of isIPv6 - Prefix_Bits range))
}.
Definition range_base (range : Prefix) : Z := Addr_bits (Prefix_Addr range).
Definition range_last (isIPv6 : bool) (range : Prefix) : Z :=
  Z.lor (range_base range) (Z.ones (width_of isIPv6 - Prefix_Bits range)).
(** How many addresses are handed out *)
Definition range_size (isIPv6 : bool) (range : Prefix) : Z := range_last isIPv6 range - range_base range - 2.

Lemma ones_split k : Z.lor (Z.shiftl 1 (Z.of_nat k)) (Z.ones (Z.of_nat k)) = Z.ones (Z.of_nat (S k)).
Proof.
  apply Z.bits_inj'. intros i Hi. rewrite Z.lor_spec, Z.shiftl_1_l, Z.pow2_bits_eqb, !Z.testbit_ones by lia.
  destruct (Z.eqb_spec (Z.of_nat k) i), (Z.leb_spec 0 i), (Z.ltb_spec i (Z.of_nat k)), (Z.ltb_spec i (Z.of_nat (S k))); cbn; lia.
Qed.
(** The loop sets all the bits behind the prefix. *)
Lemma set_bits k : forall raw,
  fold_left (fun raw j => Z.lor raw (Z.shiftl 1 (127 - j))) (seqZ (128 - Z.of_nat k) (Z.of_nat k)) raw = Z.lor raw (Z.ones (Z.of_nat k)).
Proof.
  induction k as [|k IH]; intros raw; [cbn; by rewrite Z.lor_0_r|]. rewrite seqZ_cons by lia. cbn [fold_left].
  replace (Z.succ (128 - Z.of_nat (S k))) with (128 - Z.of_nat k) by lia. replace (Z.pred (Z.of_nat (S k))) with (Z.of_nat k) by lia.
  rewrite IH, <-Z.lor_assoc. replace (127 - (128 - Z.of_nat (S k))) with (Z.of_nat k) by lia. by rewrite ones_split.
Qed.
Lemma in_width_land w v : 0 <= w -> in_width w v -> Z.land v (Z.ones w) = v.
Proof. intros Hw Hv. rewrite Z.land_ones by done. by apply Z.mod_small. Qed.

Lemma broadcast_last isIPv6 range : range_ok isIPv6 range -> broadcastAddress range = mk_addr isIPv6 (range_last isIPv6 range).
Proof.
  intros [Ha Hw Hb _]. unfold broadcastAddress, range_last, range_base. rewrite Ha. cbn [Addr_bits]. set (b := Addr_bits (Prefix_Addr range)) in *.
  destruct isIPv6; cbn [mk_addr Addr_Is4 Addr_As16 Addr_bits width_of] in *.
  - replace (128 - (Prefix_Bits range + 0)) with (Z.of_nat (Z.to_nat (128 - Prefix_Bits range))) by lia.
    replace (Prefix_Bits range + 0) with (128 - Z.of_nat (Z.to_nat (128 - Prefix_Bits range))) by lia. rewrite set_bits. by rewrite Z2Nat.id by lia.
  - replace (128 - (Prefix_Bits range + 96)) with (Z.of_nat (Z.to_nat (32 - Prefix_Bits range))) by lia.
    replace (Prefix_Bits range + 96) with (128 - Z.of_nat (Z.to_nat (32 - Prefix_Bits range))) by lia. rewrite set_bits, Z2Nat.id by lia. f_equal.
    change 0xffffffff with (Z.ones 32). rewrite !Z.land_lor_distr_l. change (Z.land (Z.shiftl 0xffff 32) (Z.ones 32)) with 0. rewrite Z.lor_0_l, in_width_land by (done || lia).
    f_equal. rewrite Z.land_ones by lia. apply Z.mod_small. rewrite Z.ones_equiv. split; [pose proof (Z.pow_pos_nonneg 2 (32 - Prefix_Bits range)); lia|].
    pose proof (Z.pow_le_mono_r 2 (32 - Prefix_Bits range) 32). lia.
Qed.

Lemma range_last_bound isIPv6 range : range_ok isIPv6 range -> range_last isIPv6 range < 2 ^ width_of isIPv6.
Proof.
  intros [_ Hw Hb _]. unfold range_last, range_base. set (b := Addr_bits _) in *. set (n := width_of isIPv6 - Prefix_Bits range).
  assert (0 <= n <= width_of isIPv6) by lia. assert (Hwp : 0 < width_of isIPv6) by (by destruct isIPv6).
  destruct (Z.eq_dec (Z.lor b (Z.ones n)) 0) as [->|Hnz]; [apply Z.pow_pos_nonneg; lia|].
  assert (Hpos : 0 < Z.lor b (Z.ones n)).
  { assert (0 <= Z.lor b (Z.ones n)); [|lia]. apply Z.lor_nonneg. split; [apply Hw|]. rewrite Z.ones_equiv. pose proof (Z.pow_pos_nonneg 2 n). lia. }
  apply Z.log2_lt_pow2; [done|]. rewrite Z.log2_lor; [|apply Hw|rewrite Z.ones_equiv; pose proof (Z.pow_pos_nonneg 2 n); lia].
  apply Z.max_lub_lt.
  - destruct (Z.eq_dec b 0) as [->|]; [by cbn|]. apply Z.log2_lt_pow2; [unfold in_width in Hw; lia|apply Hw].
  - rewrite Z.ones_equiv. destruct (Z.eq_dec n 0) as [->|]; [by cbn|]. rewrite Z.log2_pred_pow2 by lia. lia.
Qed.
(** The addresses up to the last one are in the range. *)
Lemma range_contains isIPv6 range v : range_ok isIPv6 range -> range_base range <= v <= range_last isIPv6 range ->
  Prefix_Contains range (mk_addr isIPv6 v) = true.
Proof.
  intros Hr Hv. pose proof Hr as [Ha Hw Hb _]. unfold Prefix_Contains, Prefix_IsValid, range_last, range_base in *. rewrite Ha.
  set (b := Addr_bits (Prefix_Addr range)) in *. rewrite (proj2 (Z.leb_le 0 _)) by lia.
  replace (Addr_BitLen (mk_addr isIPv6 b)) with (width_of isIPv6) by (by destruct isIPv6). replace (Addr_BitLen (mk_addr isIPv6 v)) with (width_of isIPv6) by (by destruct isIPv6).
  replace (Addr_bits (mk_addr isIPv6 b)) with b by (by destruct isIPv6). replace (Addr_bits (mk_addr isIPv6 v)) with v by (by destruct isIPv6).
  replace (Addr_hasZone (mk_addr isIPv6 v)) with false by (by destruct isIPv6). rewrite Z.eqb_refl. replace (0 <? width_of isIPv6) with true by (by destruct isIPv6).
  cbn [andb negb]. set (n := width_of isIPv6 - Prefix_Bits range) in *. assert (Hn : 0 <= n) by lia. rewrite Z.shiftr_lxor.
  assert (Hl : Z.shiftr (Z.lor b (Z.ones n)) n = Z.shiftr b n).
  { rewrite Z.shiftr_lor. rewrite (Z.shiftr_div_pow2 (Z.ones n)) by done. rewrite Z.ones_equiv, (Z.div_small (Z.pred (2 ^ n))), Z.lor_0_r; [done|].
    pose proof (Z.pow_pos_nonneg 2 n). lia. }
  rewrite !Z.shiftr_div_pow2 in * by done. assert (Hp : 0 < 2 ^ n) by (apply Z.pow_pos_nonneg; lia).
  pose proof (Z.div_le_mono b v (2 ^ n) Hp ltac:(lia)). pose proof (Z.div_le_mono v (Z.lor b (Z.ones n)) (2 ^ n) Hp ltac:(lia)).
  replace (v / 2 ^ n) with (b / 2 ^ n) by lia. by rewrite Z.lxor_nilpotent.
Qed.
Lemma next_mk isIPv6 v : 0 <= v < 2 ^ width_of isIPv6 - 1 -> Addr_Next (mk_addr isIPv6 v) = mk_addr isIPv6 (v + 1).
Proof. intros Hv. destruct isIPv6; cbn [mk_addr Addr_Next width_of] in *; by rewrite (proj2 (Z.eqb_neq _ _)) by lia. Qed.
Lemma mk_addr_inj isIPv6 v w : mk_addr isIPv6 v = mk_addr isIPv6 w -> v = w.
Proof. destruct isIPv6; cbn; by intros [=]. Qed.

(** The addresses go round: position [p] is the address [base + 1 + p]. *)
Definition slot (isIPv6 : bool) (range : Prefix) (p : Z) : Addr := mk_addr isIPv6 (range_base range + 1 + p).
Lemma next_slot isIPv6 range p : range_ok isIPv6 range -> 0 <= p <= range_size isIPv6 range ->
  next_address range (broadcastAddress range) (slot isIPv6 range p) = slot isIPv6 range (p mod range_size isIPv6 range + 1).
Proof.
  intros Hr Hp. pose proof (range_last_bound isIPv6 range Hr) as Hlast. pose proof Hr as [Ha Hw _ Hroom]. unfold in_width in Hw.
  fold (range_base range) in *. fold (range_last isIPv6 range) in Hroom. unfold range_size in *. set (L := range_last isIPv6 range) in *. set (b := range_base range) in *.
  unfold next_address, slot. rewrite (broadcast_last isIPv6) by done. fold b L. rewrite next_mk by lia. destruct (Z.eq_dec p (L - b - 2)) as [->|Hne].
  - rewrite bool_decide_eq_true_2 by (f_equal; lia). cbn [orb]. rewrite Z.mod_same by lia. rewrite Ha. fold b. rewrite !next_mk by lia. f_equal.
  - rewrite bool_decide_eq_false_2 by (intros He%mk_addr_inj; lia). rewrite range_contains by (done || fold b L; lia). cbn [orb negb].
    rewrite Z.mod_small by lia. f_equal. lia.
Qed.
