(* ===== verification/FakeIPQueue.v ===== *)
(** * The fake address store as a queue

    What the store relies on in a storage, the queue it promises, and that it keeps
    the promise on every sequence of operations. *)

From stdpp Require Import base numbers list strings gmap option.
From Stdlib Require Import ZArith Lia.
From S2P Require Import Prelude Bytes NetAddr FakeIP.

Local Open Scope Z_scope.

(** ** What a storage promises *)

(** [storage_key] are the domains and [storage_addr] the addresses it can keep. *)
Class StorageOk (St : Type) {FS : FakeIPStorage St} := {
  storage_sane : St -> Prop;
  storage_key : string -> Prop;
  storage_addr : Addr -> Prop;
  store_sane a d st : storage_sane st -> storage_sane (storage_Store a d st).2;
  async_sane m st : storage_sane st -> storage_sane (storage_SaveMetadataAsync m st);
  reset_sane st : storage_sane st -> storage_sane (storage_Reset st).2;
  async_load a m st : storage_Load a (storage_SaveMetadataAsync m st) = storage_Load a st;
  async_load_domain d v m st : storage_LoadDomain d v (storage_SaveMetadataAsync m st) = storage_LoadDomain d v st;
  store_load a d st a' : storage_sane st -> storage_key d -> storage_addr a -> storage_addr a' -> (storage_Store a d st).1 = Ok tt ->
    storage_Load a' (storage_Store a d st).2 = if bool_decide (a' = a) then Some d else storage_Load a' st;
  store_load_domain a d st d' v : storage_sane st -> storage_key d -> storage_key d' -> storage_addr a -> (storage_Store a d st).1 = Ok tt ->
    storage_LoadDomain d' v (storage_Store a d st).2 =
      if bool_decide (v = Addr_Is6 a)
      then if bool_decide (d' = d) then Some a else if bool_decide (storage_Load a st = Some d') then None else storage_LoadDomain d' v st
      else storage_LoadDomain d' v st;
  reset_load a st : storage_sane st -> storage_Load a (storage_Reset st).2 = match (storage_Reset st).1 with Ok _ => None | _ => storage_Load a st end;
  reset_load_domain d v st : storage_sane st ->
    storage_LoadDomain d v (storage_Reset st).2 = match (storage_Reset st).1 with Ok _ => None | _ => storage_LoadDomain d v st end;
  reset_returns st : match (storage_Reset st).1 with Panic _ => False | _ => True end
}.

(** ** What the store promises *)

Abbreviation Names := (list (string * Addr)).
(** The answer of a query: a known domain keeps its address; a new one gets an
    address that is not in use, and when all are in use that of the oldest domain,
    which is forgotten. *)
Inductive queue_create (usable : Addr -> Prop) (size : Z) : Names -> string -> Addr -> Names -> Prop :=
  | queue_known q d a : (d, a) ∈ q -> queue_create usable size q d a q
  | queue_fresh q d a : d ∉ q.*1 -> usable a -> a ∉ q.*2 -> len q < size -> queue_create usable size q d a ((d, a) :: q)
  | queue_full q d d0 a : d ∉ (q ++ [(d0, a)]).*1 -> len (q ++ [(d0, a)]) = size -> queue_create usable size (q ++ [(d0, a)]) d a ((d, a) :: q).

(** The queues of the two families; none when there is no range. *)
Record Promise := mkPromise { names4 : option Names; names6 : option Names }.
Definition names_of (p : Promise) (isIPv6 : bool) : option Names := if isIPv6 then names6 p else names4 p.
Definition set_names (p : Promise) (isIPv6 : bool) (q : Names) : Promise :=
  if isIPv6 then mkPromise (names4 p) (Some q) else mkPromise (Some q) (names6 p).
Definition forget (p : Promise) : Promise := mkPromise ((fun _ => []) <$> names4 p) ((fun _ => []) <$> names6 p).
(** An address strictly between the second and the last one of the range *)
Definition usable (isIPv6 : bool) (range : Prefix) (a : Addr) : Prop :=
  Prefix_Contains range a = true /\ a <> Prefix_Addr range /\ a <> Addr_Next (Prefix_Addr range) /\ a <> broadcastAddress range.

Inductive Op := OpCreate (domain : string) (isIPv6 : bool) | OpLookup (address : Addr) | OpReset.
Inductive Out := OutAddr (r : Res Addr) | OutName (r : Res (option string)) | OutDone (r : Res unit).

Section Promises.
Context (range : bool -> Prefix).

Inductive promise_step : Promise -> Op -> Out -> Promise -> Prop :=
  | promise_create p d isIPv6 q a q' : names_of p isIPv6 = Some q ->
      queue_create (usable isIPv6 (range isIPv6)) (range_size isIPv6 (range isIPv6)) q d a q' ->
      promise_step p (OpCreate d isIPv6) (OutAddr (Ok a)) (set_names p isIPv6 q')
  | promise_no_range p d isIPv6 e : names_of p isIPv6 = None -> promise_step p (OpCreate d isIPv6) (OutAddr (Err e)) p
  | promise_lookup p a r : (forall d, r = Some d <-> exists q, names_of p (Addr_Is6 a) = Some q /\ (d, a) ∈ q) ->
      promise_step p (OpLookup a) (OutName (Ok r)) p
  | promise_reset p : promise_step p OpReset (OutDone (Ok tt)) (forget p)
  | promise_reset_failed p e : promise_step p OpReset (OutDone (Err e)) p.
Inductive promise_run : Promise -> list Op -> list Out -> Promise -> Prop :=
  | promise_done p : promise_run p [] [] p
  | promise_next p op out p1 ops outs p2 : promise_step p op out p1 -> promise_run p1 ops outs p2 -> promise_run p (op :: ops) (out :: outs) p2.
End Promises.

Section Refinement.
Context {St : Type} {FS : FakeIPStorage St} {SO : StorageOk St}.

Definition run_op (s : Store St) (op : Op) : Out * Store St :=
  match op with
  | OpCreate d isIPv6 => let '(r, s) := Store_Create s d isIPv6 in (OutAddr r, s)
  | OpLookup a => (OutName (Store_Lookup s a), s)
  | OpReset => let '(r, s) := Store_Reset s in (OutDone r, s)
  end.
Fixpoint run_ops (s : Store St) (ops : list Op) : list Out * Store St :=
  match ops with
  | [] => ([], s)
  | op :: ops => let '(o, s) := run_op s op in let '(os, s) := run_ops s ops in (o :: os, s)
  end.

(** ** Positions *)

(** The positions of the last [n] addresses, the newest at [p] *)
Definition ring (size p : Z) (n : nat) : list Z := map (fun i => (p - 1 - i) mod size + 1) (seqZ 0 (Z.of_nat n)).

Lemma ring_length size p n : length (ring size p n) = n.
Proof. unfold ring. rewrite length_map, length_seqZ. lia. Qed.
Lemma ring_next size p n : 0 < size -> ring size (p mod size + 1) (S n) = (p mod size + 1) :: ring size p n.
Proof.
  intros Hs. unfold ring. rewrite seqZ_cons by lia. cbn [map]. f_equal.
  - rewrite Z.sub_0_r. replace (p mod size + 1 - 1) with (p mod size) by lia. by rewrite Z.mod_mod by lia.
  - rewrite <-(fmap_add_seqZ 1 0). change (fmap ?f ?l) with (map f l). rewrite map_map. replace (Z.pred (Z.of_nat (S n))) with (Z.of_nat n) by lia.
    apply map_ext. intros i. f_equal. replace (p mod size + 1 - 1 - (1 + i)) with (p mod size - (1 + i)) by lia.
    rewrite Zminus_mod_idemp_l. f_equal. lia.
Qed.
Lemma ring_lookup size p n i : (i < n)%nat -> ring size p n !! i = Some ((p - 1 - Z.of_nat i) mod size + 1).
Proof. intros Hi. unfold ring. rewrite list_lookup_fmap. rewrite lookup_seqZ_lt by lia. cbn. do 3 f_equal. Qed.
Lemma ring_elem size p n x : x ∈ ring size p n -> exists i, (i < n)%nat /\ x = (p - 1 - Z.of_nat i) mod size + 1.
Proof.
  intros [i Hi]%list_elem_of_lookup. assert (Hlt : (i < n)%nat) by (apply lookup_lt_Some in Hi; by rewrite ring_length in Hi).
  rewrite ring_lookup in Hi by done. injection Hi as <-. by exists i.
Qed.
Lemma ring_bound size p n x : 0 < size -> x ∈ ring size p n -> 1 <= x <= size.
Proof. intros Hs (i & _ & ->)%ring_elem. pose proof (Z.mod_pos_bound (p - 1 - Z.of_nat i) size Hs). lia. Qed.
(** The next position is free as long as the ring has room, and the oldest one
    when it is full. *)
Lemma ring_free size p n : 0 < size -> Z.of_nat n < size -> (p mod size + 1) ∉ ring size p n.
Proof.
  intros Hs Hn (i & Hi & He)%ring_elem. assert (Hm : (p - (p - 1 - Z.of_nat i)) mod size = 0).
  { rewrite Zminus_mod. replace (p mod size) with ((p - 1 - Z.of_nat i) mod size) by lia. rewrite Z.sub_diag. by apply Z.mod_0_l; lia. }
  replace (p - (p - 1 - Z.of_nat i)) with (1 + Z.of_nat i) in Hm by lia. rewrite Z.mod_small in Hm by lia. lia.
Qed.
Lemma ring_full size p n : 0 < size -> Z.of_nat (S n) = size -> ring size p (S n) = ring size p n ++ [p mod size + 1].
Proof.
  intros Hs Hn. unfold ring. rewrite seqZ_S. rewrite map_app. cbn [map]. do 3 f_equal.
  rewrite Z.add_0_l. replace (p - 1 - Z.of_nat n) with (p - size * 1) by lia. rewrite <-Zminus_mod_idemp_r, Z.mul_comm, Z.mod_mul by lia. by rewrite Z.sub_0_r.
Qed.
(** ** The simulation *)

(** What the storage holds for a family *)
Record holds (isIPv6 : bool) (st : St) (q : Names) : Prop := {
  hd_domain d a : storage_key d -> storage_LoadDomain d isIPv6 st = Some a <-> (d, a) ∈ q;
  hd_load d a : storage_addr a -> Addr_Is6 a = isIPv6 -> storage_Load a st = Some d <-> (d, a) ∈ q;
  hd_keys : Forall storage_key q.*1
}.
Definition slots (isIPv6 : bool) (range : Prefix) (q : Names) (p : Z) : Prop :=
  0 <= p <= range_size isIPv6 range /\ len q <= range_size isIPv6 range /\
  q.*2 = map (slot isIPv6 range) (ring (range_size isIPv6 range) p (length q)).
Definition storable (isIPv6 : bool) (range : Prefix) : Prop :=
  range_ok isIPv6 range /\ forall p, 1 <= p <= range_size isIPv6 range -> storage_addr (slot isIPv6 range p).
Definition family (isIPv6 : bool) (range : Prefix) (last current : Addr) (st : St) (q : option Names) : Prop :=
  match q with
  | None => current = AddrNone /\ holds isIPv6 st []
  | Some q => storable isIPv6 range /\ last = broadcastAddress range /\ holds isIPv6 st q /\
              exists p, current = slot isIPv6 range p /\ slots isIPv6 range q p
  end.

Lemma slot_inj isIPv6 range p p' : slot isIPv6 range p = slot isIPv6 range p' -> p = p'.
Proof. intros H%mk_addr_inj. lia. Qed.
Lemma slot_family isIPv6 range p : Addr_Is6 (slot isIPv6 range p) = isIPv6.
Proof. by destruct isIPv6. Qed.
Lemma size_pos isIPv6 range : range_ok isIPv6 range -> 0 < range_size isIPv6 range.
Proof. intros [_ _ _ Hr]. unfold range_size, range_last, range_base. lia. Qed.
Lemma slot_usable isIPv6 range p : range_ok isIPv6 range -> 1 <= p <= range_size isIPv6 range -> usable isIPv6 range (slot isIPv6 range p).
Proof.
  intros Hr Hp. pose proof (range_last_bound isIPv6 range Hr). unfold range_size in Hp. pose proof Hr as [Ha Hw _ _]. unfold in_width in Hw.
  fold (range_base range) in *. unfold usable, slot. split; [apply range_contains; [done|lia]|]. rewrite (broadcast_last isIPv6) by done. rewrite Ha. fold (range_base range).
  rewrite next_mk by lia. repeat split; intros He%mk_addr_inj; lia.
Qed.

(** One new domain *)
Lemma slots_fresh isIPv6 range q p d : range_ok isIPv6 range -> slots isIPv6 range q p -> len q < range_size isIPv6 range ->
  let p' := p mod range_size isIPv6 range + 1 in slot isIPv6 range p' ∉ q.*2 /\ slots isIPv6 range ((d, slot isIPv6 range p') :: q) p'.
Proof.
  intros Hr (Hp & Hl & Hq) Hlt p'. pose proof (size_pos isIPv6 range Hr) as Hs. pose proof (Z.mod_pos_bound p _ Hs). split.
  - rewrite Hq. intros (x & Hx & Hin)%list_elem_of_fmap. apply slot_inj in Hx as <-. by apply ring_free in Hin.
  - split; [unfold p'; lia|]. split; [unfold len in *; cbn [length]; lia|]. cbn [fmap list_fmap snd length]. unfold p'. rewrite ring_next by done. cbn [map]. f_equal. exact Hq.
Qed.
Lemma slots_full isIPv6 range q p d : range_ok isIPv6 range -> slots isIPv6 range q p -> len q = range_size isIPv6 range ->
  let p' := p mod range_size isIPv6 range + 1 in
  exists q0 d0, q = q0 ++ [(d0, slot isIPv6 range p')] /\ slot isIPv6 range p' ∉ q0.*2 /\ slots isIPv6 range ((d, slot isIPv6 range p') :: q0) p'.
Proof.
  intros Hr (Hp & Hl & Hq) Heq p'. pose proof (size_pos isIPv6 range Hr) as Hs. pose proof (Z.mod_pos_bound p _ Hs).
  destruct q as [|[d0 a0] q0 _] using rev_ind; [unfold len in Heq; cbn in Heq; lia|]. exists q0, d0.
  rewrite length_app, Nat.add_1_r in Hq. unfold len in *. rewrite length_app, Nat.add_1_r in *. rewrite ring_full, map_app, fmap_app in Hq by lia. change ([(d0, a0)].*2) with [a0] in Hq. cbn [map] in Hq.
  apply app_inj_tail in Hq as [Hq Ha]. cbn in Ha. subst a0. change (map snd q0) with (q0.*2) in Hq. split; [done|]. split.
  - rewrite Hq. intros (x & Hx & Hin)%list_elem_of_fmap. apply slot_inj in Hx as <-. apply ring_free in Hin; [done|done|lia].
  - split; [unfold p'; lia|]. split; [unfold len; cbn [length]; lia|]. cbn [fmap list_fmap snd length]. unfold p'. rewrite ring_next by done. cbn [map]. f_equal. exact Hq.
Qed.

(** The storage after a new domain: [q0] is the queue without the address. *)
Lemma holds_new isIPv6 st q q0 d a m : storage_sane st -> storage_key d -> storage_addr a -> Addr_Is6 a = isIPv6 -> holds isIPv6 st q ->
  d ∉ q.*1 -> a ∉ q0.*2 -> (forall d' a', a' <> a -> (d', a') ∈ q <-> (d', a') ∈ q0) -> (storage_Store a d st).1 = Ok tt ->
  holds isIPv6 (storage_SaveMetadataAsync m (storage_Store a d st).2) ((d, a) :: q0).
Proof.
  intros Hs Hk Ha H6 [Hd Hl Hks] Hnew Hfree Hsame Hok.
  assert (Hq0 : forall d' a', (d', a') ∈ q0 -> a' <> a /\ (d', a') ∈ q).
  { intros d' a' Hin. assert (a' <> a) by (intros ->; apply Hfree; by apply (list_elem_of_fmap_2 snd) in Hin). split; [done|by apply Hsame]. }
  constructor.
  - intros d' a' Hk'. rewrite async_load_domain, store_load_domain, bool_decide_eq_true_2, elem_of_cons by done. case_bool_decide as Hdd.
    + subst d'. split; [intros [= <-]; by left|]. intros [[= ->]|Hin]; [done|]. destruct (Hq0 _ _ Hin) as [_ Hin']. by apply (list_elem_of_fmap_2 fst) in Hin'.
    + case_bool_decide as Hold.
      * apply Hl in Hold; [|done..]. split; [done|]. intros [[=]|Hin]; [congruence|]. destruct (Hq0 _ _ Hin) as [Hne Hin'].
        apply Hd in Hin'; [|done]. apply Hd in Hold; [|done]. congruence.
      * rewrite (Hd d' a') by done. split.
        -- intros Hin. right. apply Hsame; [|done]. intros ->. by apply Hold, Hl.
        -- intros [[=]|Hin]; [congruence|]. by apply Hq0.
  - intros d' a' Ha' H6'. rewrite async_load, store_load, elem_of_cons by done. case_bool_decide as Haa.
    + subst a'. split; [intros [= <-]; by left|]. intros [[= ->]|Hin]; [done|]. by destruct (Hq0 _ _ Hin).
    + rewrite (Hl d' a') by done. rewrite (Hsame d' a') by done. split; [by right|]. by intros [[=]|Hin].
  - cbn [fmap list_fmap fst]. constructor; [done|]. apply list.Forall_forall. intros x ([d' a'] & -> & Hin)%list_elem_of_fmap.
    rewrite list.Forall_forall in Hks. apply Hks. destruct (Hq0 _ _ Hin) as [_ Hin']. by apply (list_elem_of_fmap_2 fst) in Hin'.
Qed.
Lemma holds_other isIPv6 st q d a m : storage_sane st -> storage_key d -> storage_addr a -> Addr_Is6 a <> isIPv6 -> holds isIPv6 st q ->
  (storage_Store a d st).1 = Ok tt -> holds isIPv6 (storage_SaveMetadataAsync m (storage_Store a d st).2) q.
Proof.
  intros Hs Hk Ha H6 [Hd Hl Hks] Hok. constructor; [| |done].
  - intros d' a' Hk'. rewrite async_load_domain, store_load_domain, bool_decide_eq_false_2 by (done || congruence). by apply Hd.
  - intros d' a' Ha' H6'. rewrite async_load, store_load, bool_decide_eq_false_2 by (done || congruence). by apply Hl.
Qed.
Lemma family_other isIPv6 range last current st q d a m : storage_sane st -> storage_key d -> storage_addr a -> Addr_Is6 a <> isIPv6 ->
  family isIPv6 range last current st q -> (storage_Store a d st).1 = Ok tt ->
  family isIPv6 range last current (storage_SaveMetadataAsync m (storage_Store a d st).2) q.
Proof.
  intros Hs Hk Ha H6 Hf Hok. destruct q as [q|].
  - destruct Hf as (H1 & H2 & H3 & H4). split; [done|]. split; [done|]. split; [by apply holds_other|done].
  - destruct Hf as [H1 H2]. split; [done|by apply holds_other].
Qed.

(** A new domain in a family with a range *)
Lemma family_new isIPv6 range last current st q d m : storage_sane st -> storage_key d -> family isIPv6 range last current st (Some q) ->
  storage_LoadDomain d isIPv6 st = None ->
  (forall a, storage_addr a -> (storage_Store a d st).1 = Ok tt) ->
  let a := next_address range last current in
  storage_addr a /\ Addr_Is6 a = isIPv6 /\
  exists q', queue_create (usable isIPv6 range) (range_size isIPv6 range) q d a q' /\
    family isIPv6 range last a (storage_SaveMetadataAsync m (storage_Store a d st).2) (Some q').
Proof.
  intros Hs Hk ((Hr & Hst) & -> & Hh & p & -> & Hq) Hnone Hok a. unfold a. rewrite next_slot by (done || apply Hq).
  set (p' := p mod range_size isIPv6 range + 1). pose proof (Z.mod_pos_bound p _ (size_pos isIPv6 range Hr)) as Hm.
  assert (Hp' : 1 <= p' <= range_size isIPv6 range) by (unfold p'; lia). pose proof (Hst p' Hp') as Ha. split; [done|]. split; [apply slot_family|].
  assert (Hnew : d ∉ q.*1).
  { intros ([d' a'] & Hd & Hin)%list_elem_of_fmap. cbn in Hd. subst d'. apply (hd_domain isIPv6 st q Hh) in Hin; [congruence|done]. }
  destruct (Z_lt_le_dec (len q) (range_size isIPv6 range)) as [Hlt|Hge].
  - destruct (slots_fresh isIPv6 range q p d Hr Hq Hlt) as [Hfree Hq']. eexists. split; [by apply queue_fresh; [|apply slot_usable|..]|].
    split; [done|]. split; [done|]. split; [|by exists p']. apply (holds_new isIPv6 st q); try done; [apply slot_family|by apply Hok].
  - destruct (slots_full isIPv6 range q p d Hr Hq) as (q0 & d0 & He & Hfree & Hq'); [destruct Hq as (_ & ? & _); lia|]. fold p' in He, Hfree, Hq'.
    eexists. split; [rewrite He; apply queue_full; [by rewrite <-He|rewrite <-He; destruct Hq as (_ & ? & _); lia]|].
    split; [done|]. split; [done|]. split; [|by exists p']. apply (holds_new isIPv6 st q); try done; [apply slot_family| |by apply Hok].
    intros d' a' Hne. rewrite He, elem_of_app, list_elem_of_singleton. split; [intros [|[=]]; [done|congruence]|by left].
Qed.

(** ** Every sequence of operations *)

Context (r4 r6 : Prefix).
Definition range_of (isIPv6 : bool) : Prefix := if isIPv6 then r6 else r4.
Context (writes : forall st a d, storage_sane st -> storage_key d -> storage_addr a -> (storage_Store a d st).1 = Ok tt).

Definition keeps (s : Store St) (p : Promise) : Prop :=
  inet4Range s = r4 /\ inet6Range s = r6 /\
  exists st, storage s = Some st /\ storage_sane st /\
    family false r4 (inet4Last s) (inet4Current s) st (names4 p) /\ family true r6 (inet6Last s) (inet6Current s) st (names6 p).
Definition op_ok (op : Op) : Prop :=
  match op with OpCreate d _ => storage_key d | OpLookup a => storage_addr a | OpReset => True end.

Lemma family_holds isIPv6 range last current st q : family isIPv6 range last current st q -> holds isIPv6 st (default [] q).
Proof. destruct q as [q|]; [by intros (_ & _ & Hh & _)|by intros [_ Hh]]. Qed.
Lemma family_reset isIPv6 range last current st q : storage_sane st -> family isIPv6 range last current st q ->
  family isIPv6 range last current (storage_Reset st).2 (match (storage_Reset st).1 with Ok _ => (fun _ => []) <$> q | _ => q end).
Proof.
  intros Hs Hf. assert (Hh : holds isIPv6 (storage_Reset st).2 (match (storage_Reset st).1 with Ok _ => [] | _ => default [] q end)).
  { pose proof (family_holds _ _ _ _ _ _ Hf) as Hh. destruct (storage_Reset st).1 as [[]|e|x] eqn:E; (constructor; [| |first [apply Hh|constructor]]).
    1-6: intros d a H; intros; rewrite ?reset_load_domain, ?reset_load, E by done; try (by apply Hh). all: split; [done|by intros Hin%not_elem_of_nil]. }
  destruct q as [q|].
  - destruct Hf as (H1 & H2 & _ & p & H3 & H4). destruct (storage_Reset st).1; (split; [done|]; split; [done|]; split; [done|]); [|by exists p..].
    exists p. split; [done|]. destruct H4 as (Hp & _ & _). split; [done|]. split; [|done]. destruct H1 as [Hr _]. pose proof (size_pos isIPv6 range Hr). unfold len. cbn. lia.
  - destruct Hf as [H1 _]. by destruct (storage_Reset st).1.
Qed.

Lemma lookup_promised st p a : storage_addr a -> holds (Addr_Is6 a) st (default [] (names_of p (Addr_Is6 a))) ->
  forall d, storage_Load a st = Some d <-> exists q, names_of p (Addr_Is6 a) = Some q /\ (d, a) ∈ q.
Proof.
  intros Ha Hh d. rewrite (hd_load _ _ _ Hh d a Ha eq_refl). destruct (names_of p (Addr_Is6 a)) as [q|]; cbn.
  - split; [by exists q|]. by intros (q' & [= <-] & Hin).
  - split; [by intros Hin%not_elem_of_nil|by intros (q & [=] & _)].
Qed.

Lemma keeps_create s p d isIPv6 : keeps s p -> storage_key d ->
  exists p', promise_step range_of p (OpCreate d isIPv6) (OutAddr (Store_Create s d isIPv6).1) p' /\ keeps (Store_Create s d isIPv6).2 p'.
Proof.
  intros (H4 & H6 & st & Hst & Hs & F4 & F6) Hk. unfold Store_Create, create_locked. rewrite Hst.
  assert (Hh : holds isIPv6 st (default [] (names_of p isIPv6))) by (destruct isIPv6; by eapply family_holds).
  destruct (storage_LoadDomain d isIPv6 st) as [a|] eqn:El.
  - (* the domain is known *)
    apply (hd_domain _ _ _ Hh) in El; [|done]. destruct (names_of p isIPv6) as [q|] eqn:En; [|by apply not_elem_of_nil in El].
    exists (set_names p isIPv6 q). split; [eapply promise_create; [done|by apply queue_known]|].
    replace (set_names p isIPv6 q) with p by (destruct p, isIPv6; cbn in En; by subst). by split; [|split; [|exists st]].
  - destruct isIPv6; cbn [names_of] in *.
    + destruct (names6 p) as [q|] eqn:En; [|].
      * assert (Hval : Addr_IsValid (inet6Current s) = true) by (by destruct F6 as (_ & _ & _ & k & -> & _)). rewrite Hval, H6. cbn [negb fst snd set_currents inet4Current inet6Current].
        destruct (family_new true r6 (inet6Last s) (inet6Current s) st q d
                    (store_metadata (set_currents s st (inet4Current s) (next_address r6 (inet6Last s) (inet6Current s)))) Hs Hk F6 El) as (Ha & Ha6 & q' & Hc & Hf);
          [by intros a Ha; apply writes|].
        exists (set_names p true q'). split; [by eapply promise_create|]. split; [done|]. split; [done|]. eexists. split; [done|]. split; [by apply async_sane, store_sane|].
        cbn [set_names names4 names6 set_currents inet4Last inet6Last inet4Current inet6Current]. split; [|done]. apply family_other; try done; [by rewrite Ha6|by apply writes].
      * destruct F6 as [Hc Hn]. rewrite Hc. cbn. exists p. split; [by apply promise_no_range|]. split; [done|]. split; [done|]. exists st. rewrite En. by split_and!.
    + destruct (names4 p) as [q|] eqn:En; [|].
      * assert (Hval : Addr_IsValid (inet4Current s) = true) by (by destruct F4 as (_ & _ & _ & k & -> & _)). rewrite Hval, H4. cbn [negb fst snd set_currents inet4Current inet6Current].
        destruct (family_new false r4 (inet4Last s) (inet4Current s) st q d
                    (store_metadata (set_currents s st (next_address r4 (inet4Last s) (inet4Current s)) (inet6Current s))) Hs Hk F4 El) as (Ha & Ha6 & q' & Hc & Hf);
          [by intros a Ha; apply writes|].
        exists (set_names p false q'). split; [by eapply promise_create|]. split; [done|]. split; [done|]. eexists. split; [done|]. split; [by apply async_sane, store_sane|].
        cbn [set_names names4 names6 set_currents inet4Last inet6Last inet4Current inet6Current]. split; [done|]. apply family_other; try done; [by rewrite Ha6|by apply writes].
      * destruct F4 as [Hc Hn]. rewrite Hc. cbn. exists p. split; [by apply promise_no_range|]. split; [done|]. split; [done|]. exists st. rewrite En. by split_and!.
Qed.

Lemma keeps_step s p op : keeps s p -> op_ok op ->
  exists p', promise_step range_of p op (run_op s op).1 p' /\ keeps (run_op s op).2 p'.
Proof.
  intros Hkeep Hop. destruct op as [d isIPv6|a|].
  - destruct (keeps_create s p d isIPv6 Hkeep Hop) as (p' & H1 & H2). cbn [run_op]. destruct (Store_Create s d isIPv6) as [r s']. by exists p'.
  - exists p. split; [|done]. destruct Hkeep as (_ & _ & st & Hst & _ & F4 & F6). cbn [run_op fst]. unfold Store_Lookup. rewrite Hst. apply promise_lookup, lookup_promised; [done|].
    destruct (Addr_Is6 a); by eapply family_holds.
  - destruct Hkeep as (H4 & H6 & st & Hst & Hs & F4 & F6). cbn [run_op]. unfold Store_Reset. rewrite Hst.
    apply family_reset in F4, F6; [|done..]. pose proof (reset_sane st Hs) as Hs'. pose proof (reset_returns st) as Hr. destruct (storage_Reset st) as [[[]|e|x] st'] eqn:E; [| |done]; cbn [fst snd] in *.
    + exists (forget p). split; [constructor|]. split; [done|]. split; [done|]. by exists st'.
    + exists p. split; [constructor|]. split; [done|]. split; [done|]. by exists st'.
Qed.
Lemma keeps_run ops : forall s p, keeps s p -> Forall op_ok ops ->
  exists p', promise_run range_of p ops (run_ops s ops).1 p' /\ keeps (run_ops s ops).2 p'.
Proof.
  induction ops as [|op ops IH]; intros s p Hkeep Hops; [exists p; split; [constructor|done]|]. apply Forall_cons_iff in Hops as [Hop Hops].
  destruct (keeps_step s p op Hkeep Hop) as (p1 & H1 & Hk1). cbn [run_ops]. destruct (run_op s op) as [o s1]. cbn [fst snd] in *.
  destruct (IH s1 p1 Hk1 Hops) as (p2 & H2 & Hk2). destruct (run_ops s1 ops) as [os s2]. exists p2. split; [by econstructor|done].
Qed.

(** ** Start *)

Definition range_given (isIPv6 : bool) (range : Prefix) : Prop := range = Prefix_zero \/ storable isIPv6 range.
Definition empty_names (range : Prefix) : option Names := if Prefix_IsValid range then Some [] else None.

Lemma range_valid isIPv6 range : range_ok isIPv6 range -> Prefix_IsValid range = true.
Proof. intros [_ _ Hb _]. apply Z.leb_le. lia. Qed.
Lemma family_start isIPv6 range st : range_given isIPv6 range -> holds isIPv6 st [] ->
  family isIPv6 range (if Prefix_IsValid range then broadcastAddress range else AddrNone) (first_current range AddrNone) st (empty_names range).
Proof.
  unfold empty_names, first_current. intros [->|[Hr Hst]] Hh; [done|]. rewrite (range_valid isIPv6) by done. split; [done|]. split; [done|]. split; [done|].
  exists 0. pose proof (size_pos isIPv6 range Hr) as Hs. split.
  - pose proof (range_last_bound isIPv6 range Hr). pose proof Hr as [Ha Hw _ _]. unfold in_width, range_size in *. fold (range_base range) in *.
    rewrite Ha, next_mk by lia. unfold slot. f_equal. lia.
  - split; [lia|]. split; [unfold len; cbn; lia|done].
Qed.
(** The storage is reset, or it is empty and has nothing to reset. *)
Definition cleared (st : St) : Prop :=
  (storage_Reset st).1 = Ok tt \/ (forall a, storage_Load a st = None) /\ forall d isIPv6, storage_LoadDomain d isIPv6 st = None.
Lemma holds_reset isIPv6 st : storage_sane st -> cleared st -> holds isIPv6 (storage_Reset st).2 [].
Proof.
  intros Hs Hc. assert (Hd : forall d, storage_LoadDomain d isIPv6 (storage_Reset st).2 = None).
  { intros d. rewrite reset_load_domain by done. destruct Hc as [->|[_ Hc]]; [done|]. rewrite Hc. by destruct (storage_Reset st).1. }
  assert (Hl : forall a, storage_Load a (storage_Reset st).2 = None).
  { intros a. rewrite reset_load by done. destruct Hc as [->|[Hc _]]; [done|]. rewrite Hc. by destruct (storage_Reset st).1. }
  constructor; [| |constructor]; intros; rewrite ?Hd, ?Hl; (split; [done|by intros Hin%not_elem_of_nil]).
Qed.
Lemma start_keeps st0 st1 : range_given false r4 -> range_given true r6 -> storage_Metadata st0 = (None, st1) -> storage_sane st1 ->
  cleared st1 -> keeps (Store_Start (NewStore r4 r6) st0) (mkPromise (empty_names r4) (empty_names r6)).
Proof.
  intros H4 H6 Hm Hs Hok. unfold Store_Start. rewrite Hm. split; [done|]. split; [done|]. eexists. split; [done|]. split; [by apply reset_sane|].
  split; apply family_start; try done; by apply holds_reset.
Qed.

(** C22: The store is a queue.  Whatever the storage, if it keeps what it is given and
    its writes succeed, a store that starts without saved addresses answers every
    sequence of creations, lookups and resets as a queue of the last domains: a known
    domain keeps its address, a new one gets an address inside the range that is not
    in use, and only when all are in use the address of the oldest domain, which is
    then unknown; a reset that fails changes nothing.  A family has no range, or one
    with room: its address plus two is below its last address ([range_ok]; smaller
    ranges are left by the addresses handed out, [small_range_left]).  Domains and
    addresses are such that the storage can keep them, and it starts empty or can be
    emptied. *)
Theorem fakeip_store_is_queue st0 st1 ops : range_given false r4 -> range_given true r6 -> storage_Metadata st0 = (None, st1) -> storage_sane st1 ->
  cleared st1 -> Forall op_ok ops ->
  exists p, promise_run range_of (mkPromise (empty_names r4) (empty_names r6)) ops (run_ops (Store_Start (NewStore r4 r6) st0) ops).1 p.
Proof.
  intros H4 H6 Hm Hs Hr Hops. destruct (keeps_run ops _ _ (start_keeps st0 st1 H4 H6 Hm Hs Hr) Hops) as (p & Hp & _). by exists p.
Qed.

End Refinement.

(** ** The storage in memory *)

Lemma memory_load a d st a' : Memory_FakeIPLoad a' (Memory_FakeIPStore a d st) = if bool_decide (a' = a) then Some d else Memory_FakeIPLoad a' st.
Proof.
  unfold Memory_FakeIPLoad, Memory_FakeIPStore.
  assert (H : forall m : MemoryStorage, addressCache m = addressCache st ->
    addressCache (if Addr_Is4 a then mkMemoryStorage (<[a:=d]> (addressCache m)) (<[d:=a]> (domainCache4 m)) (domainCache6 m)
                  else mkMemoryStorage (<[a:=d]> (addressCache m)) (domainCache4 m) (<[d:=a]> (domainCache6 m))) !! a' =
    if bool_decide (a' = a) then Some d else addressCache st !! a').
  { intros m <-. destruct (Addr_Is4 a); cbn [addressCache]; (case_bool_decide as Ha; [subst; by rewrite lookup_insert_eq|by rewrite lookup_insert_ne]). }
  apply H. destruct (addressCache st !! a); [|done]. by destruct (Addr_Is4 a).
Qed.
Lemma memory_load_domain a d st d' v : a <> AddrNone ->
  Memory_FakeIPLoadDomain d' v (Memory_FakeIPStore a d st) =
    if bool_decide (v = Addr_Is6 a)
    then if bool_decide (d' = d) then Some a else if bool_decide (Memory_FakeIPLoad a st = Some d') then None else Memory_FakeIPLoadDomain d' v st
    else Memory_FakeIPLoadDomain d' v st.
Proof.
  intros Ha. unfold Memory_FakeIPLoad, Memory_FakeIPStore, Memory_FakeIPLoadDomain. destruct a as [|x|x z]; [done|..]; cbn [Addr_Is4 Addr_Is6].
  - destruct v; cbn [negb]; [by destruct (addressCache st !! Addr4 x)|]. rewrite bool_decide_eq_true_2 by done. cbn [domainCache4].
    case_bool_decide as Hd; [subst; by rewrite lookup_insert_eq|]. rewrite lookup_insert_ne by congruence.
    destruct (addressCache st !! Addr4 x) as [old|]; cbn [domainCache4]; case_bool_decide as Ho; [injection Ho as <-; by rewrite lookup_delete_eq| |done|done].
    by rewrite lookup_delete_ne by congruence.
  - destruct v; cbn [negb]; [|by destruct (addressCache st !! Addr6 x z)]. rewrite bool_decide_eq_true_2 by done. cbn [domainCache6].
    case_bool_decide as Hd; [subst; by rewrite lookup_insert_eq|]. rewrite lookup_insert_ne by congruence.
    destruct (addressCache st !! Addr6 x z) as [old|]; cbn [domainCache6]; case_bool_decide as Ho; [injection Ho as <-; by rewrite lookup_delete_eq| |done|done].
    by rewrite lookup_delete_ne by congruence.
Qed.
#[global] Instance Memory_ok : StorageOk MemoryStorage.
Proof.
  unshelve refine {| storage_sane := fun _ => True; storage_key := fun _ => True; storage_addr := fun a => a <> AddrNone |}; try done.
  - intros a d st a' _ _ _ _ _. apply memory_load.
  - intros a d st d' v _ _ _ Ha _. by apply memory_load_domain.
  - intros d v st _. cbn. by destruct v.
Defined.
