(* ===== verification/FakeIPCache.v ===== *)
(** * Fake addresses in the cache file

    [experimental/cachefile/fakeip.go] and [adapter/fakeip_metadata.go]: the storage
    that survives a restart.  The database is the interface [Bolt]; a transaction
    that ends in an error changes nothing.  [FakeIPStoreAsync] has no caller, so the
    maps it fills are always empty; the loads read them as the source does. *)

From stdpp Require Import base numbers list strings gmap option.
From Stdlib Require Import ZArith Lia.
From S2P Require Import Prelude Bytes NetAddr Varbin Srs Ja3 FakeIP FakeIPQueue.

Local Open Scope Z_scope.

(** ** Metadata *)

(** [netip]: the binary forms of addresses and prefixes *)
Definition Addr_MarshalBinary (a : Addr) : bytes :=
  match a with Addr6 v zone => be_bytes 16 v ++ string_bytes zone | a => Addr_AsSlice a end.
Definition Addr_UnmarshalBinary (b : bytes) : Res Addr :=
  if (length b =? 0)%nat then Ok AddrNone
  else if (length b =? 4)%nat then Ok (Addr4 (be_value b))
  else if (16 <=? length b)%nat then Ok (Addr6 (be_value (take 16 b)) (bytes_string (drop 16 b)))
  else Err (E_New [AStr "unexpected slice size"]).
Definition Prefix_MarshalBinary (p : Prefix) : bytes := Addr_AsSlice (Prefix_Addr p) ++ [u8 (Prefix_Bits p)].
Definition Prefix_UnmarshalBinary (b : bytes) : Res Prefix :=
  match reverse b with
  | [] => Err (E_New [AStr "unexpected slice size"])
  | bits :: front => addr ← Addr_UnmarshalBinary (reverse front); Ok (PrefixFrom addr bits)
  end.

(** [FakeIPMetadata.MarshalBinary]: four elements, each behind its length *)
Definition write_element (data : bytes) : bytes := be_bytes 2 (u16 (len data)) ++ data.
Definition metadata_MarshalBinary (m : FakeIPMetadata) : bytes :=
  write_element (Prefix_MarshalBinary (Inet4Range m)) ++ write_element (Prefix_MarshalBinary (Inet6Range m)) ++
  write_element (Addr_MarshalBinary (Inet4Current m)) ++ write_element (Addr_MarshalBinary (Inet6Current m)).
(** [FakeIPMetadata.UnmarshalBinary]; [common.Must] panics when there is no length. *)
Definition read_element : Reader bytes := fun bs =>
  match binary_Read (ST := file_stream) 2 bs with
  | Ok (length, bs) => ReadFull (ST := file_stream) (Z.to_nat length) bs
  | Err _ => Panic "EOF"
  | Panic p => Panic p
  end.
Definition metadata_UnmarshalBinary (data : bytes) : Res FakeIPMetadata :=
  '(e, data) ← read_element data; r4 ← Prefix_UnmarshalBinary e;
  '(e, data) ← read_element data; r6 ← Prefix_UnmarshalBinary e;
  '(e, data) ← read_element data; c4 ← Addr_UnmarshalBinary e;
  '(e, data) ← read_element data; c6 ← Addr_UnmarshalBinary e;
  Ok (mkFakeIPMetadata r4 r6 c4 c6).

(** ** The database *)

(** bbolt: buckets of keys and values.  [bucket_Get] gives none for nil;
    [Commit] is the end of a transaction, [reset_db] the new file after a panic. *)
Class Bolt := {
  DB : Type;
  has_bucket : DB -> string -> bool;
  bucket_Get : DB -> string -> bytes -> option bytes;
  CreateBucketIfNotExists : DB -> string -> Res DB;
  bucket_Put : DB -> string -> bytes -> bytes -> Res DB;
  bucket_Delete : DB -> string -> bytes -> Res DB;
  DeleteBucket : DB -> string -> Res DB;
  Commit : DB -> Res unit;
  reset_db : DB -> DB;
  AddrFromIP : option bytes -> Addr;
  get_no_bucket db b k : has_bucket db b = false -> bucket_Get db b k = None;
  get_bytes db b k v : bucket_Get db b k = Some v -> Forall is_byte v;
  create_law db b db' : CreateBucketIfNotExists db b = Ok db' ->
    (forall b', has_bucket db' b' = bool_decide (b' = b) || has_bucket db b') /\ forall b' k, bucket_Get db' b' k = bucket_Get db b' k;
  put_law db b k v db' : Forall is_byte k -> Forall is_byte v -> bucket_Put db b k v = Ok db' ->
    (forall b', has_bucket db' b' = has_bucket db b') /\
    forall b' k', bucket_Get db' b' k' = if bool_decide (b' = b) && bool_decide (k' = k) then Some v else bucket_Get db b' k';
  delete_law db b k db' : bucket_Delete db b k = Ok db' ->
    (forall b', has_bucket db' b' = has_bucket db b') /\
    forall b' k', bucket_Get db' b' k' = if bool_decide (b' = b) && bool_decide (k' = k) then None else bucket_Get db b' k';
  delete_bucket_law db b db' : DeleteBucket db b = Ok db' ->
    has_bucket db b = true /\ (forall b', has_bucket db' b' = negb (bool_decide (b' = b)) && has_bucket db b') /\
    forall b' k, bucket_Get db' b' k = if bool_decide (b' = b) then None else bucket_Get db b' k;
  delete_bucket_returns db b : returns (DeleteBucket db b);
  commit_returns db : returns (Commit db);
  addr_law a : plain_addr a -> AddrFromIP (Some (Addr_AsSlice a)) = a;
  addr_nil : AddrFromIP None = AddrNone
}.

Definition bucketFakeIP : string := "fakeip_address".
Definition bucketFakeIPDomain4 : string := "fakeip_domain4".
Definition bucketFakeIPDomain6 : string := "fakeip_domain6".
Definition keyMetadata : bytes := string_bytes "fakeip_metadata".
Definition ErrNotExist : error := E_New [AStr "file does not exist"].

Section Cache.
Context {BO : Bolt}.

Record CacheFile := mkCacheFile {
  cf_DB : DB;
  saveMetadata : option FakeIPMetadata;
  saveDomain : gmap Addr string;
  saveAddress4 : gmap string Addr;
  saveAddress6 : gmap string Addr
}.
Definition set_DB (c : CacheFile) (db : DB) : CacheFile := mkCacheFile db (saveMetadata c) (saveDomain c) (saveAddress4 c) (saveAddress6 c).

(** [CacheFile.batch] *)
Definition batch {A} (c : CacheFile) (fn : DB -> Res (A * DB)) : Res A * CacheFile :=
  match fn (cf_DB c) with
  | Ok (a, db) =>
      match Commit db with
      | Ok _ => (Ok a, set_DB c db)
      | Err e => (Err e, c)
      | Panic _ => (Err (E_New [AStr "database corrupted: "]), set_DB c (reset_db (cf_DB c)))
      end
  | Err e => (Err e, c)
  | Panic _ => (Err (E_New [AStr "database corrupted: "]), set_DB c (reset_db (cf_DB c)))
  end.

Definition Cache_FakeIPMetadata (c : CacheFile) : option FakeIPMetadata * CacheFile :=
  let '(r, c) := batch c (fun tx =>
    if negb (has_bucket tx bucketFakeIP) then Err ErrNotExist
    else
      match bucket_Get tx bucketFakeIP keyMetadata with
      | None | Some [] => Err ErrInvalid
      | Some metadataBinary =>
          tx ← bucket_Delete tx bucketFakeIP keyMetadata;
          m ← metadata_UnmarshalBinary metadataBinary;
          Ok (m, tx)
      end) in
  (match r with Ok m => Some m | _ => None end, c).
Definition Cache_FakeIPSaveMetadata (metadata : FakeIPMetadata) (c : CacheFile) : Res unit * CacheFile :=
  batch c (fun tx =>
    tx ← CreateBucketIfNotExists tx bucketFakeIP;
    tx ← bucket_Put tx bucketFakeIP keyMetadata (metadata_MarshalBinary metadata);
    Ok (tt, tx)).
(** [FakeIPSaveMetadataAsync], and the timer it sets *)
Definition Cache_FakeIPSaveMetadataAsync (metadata : FakeIPMetadata) (c : CacheFile) : CacheFile :=
  mkCacheFile (cf_DB c) (Some metadata) (saveDomain c) (saveAddress4 c) (saveAddress6 c).
Definition saveMetadataTimer (c : CacheFile) : CacheFile :=
  match saveMetadata c with Some m => (Cache_FakeIPSaveMetadata m c).2 | None => c end.

Definition domain_bucket (isIPv6 : bool) : string := if isIPv6 then bucketFakeIPDomain6 else bucketFakeIPDomain4.
Definition Cache_FakeIPStore (address : Addr) (domain : string) (c : CacheFile) : Res unit * CacheFile :=
  batch c (fun tx =>
    tx ← CreateBucketIfNotExists tx bucketFakeIP;
    let oldDomain := bucket_Get tx bucketFakeIP (Addr_AsSlice address) in
    tx ← bucket_Put tx bucketFakeIP (Addr_AsSlice address) (string_bytes domain);
    let bucket := domain_bucket (negb (Addr_Is4 address)) in
    tx ← CreateBucketIfNotExists tx bucket;
    tx ← (match oldDomain with Some old => bucket_Delete tx bucket old | None => Ok tx end);
    tx ← bucket_Put tx bucket (string_bytes domain) (Addr_AsSlice address);
    Ok (tt, tx)).
Definition Cache_FakeIPLoad (address : Addr) (c : CacheFile) : option string :=
  match saveDomain c !! address with
  | Some cachedDomain => Some cachedDomain
  | None =>
      let domain := if has_bucket (cf_DB c) bucketFakeIP then bytes_string (default [] (bucket_Get (cf_DB c) bucketFakeIP (Addr_AsSlice address))) else "" in
      if bool_decide (domain = "") then None else Some domain
  end.
Definition Cache_FakeIPLoadDomain (domain : string) (isIPv6 : bool) (c : CacheFile) : option Addr :=
  match (if negb isIPv6 then saveAddress4 c !! domain else saveAddress6 c !! domain) with
  | Some cachedAddress => Some cachedAddress
  | None =>
      let bucket := domain_bucket isIPv6 in
      let address := if has_bucket (cf_DB c) bucket then AddrFromIP (bucket_Get (cf_DB c) bucket (string_bytes domain)) else AddrNone in
      if Addr_IsValid address then Some address else None
  end.
Definition Cache_FakeIPReset (c : CacheFile) : Res unit * CacheFile :=
  batch c (fun tx =>
    tx ← DeleteBucket tx bucketFakeIP;
    tx ← DeleteBucket tx bucketFakeIPDomain4;
    tx ← DeleteBucket tx bucketFakeIPDomain6;
    Ok (tt, tx)).

#[global] Instance Cache_storage : FakeIPStorage CacheFile := {|
  storage_Metadata := Cache_FakeIPMetadata;
  storage_SaveMetadata := Cache_FakeIPSaveMetadata;
  storage_SaveMetadataAsync := Cache_FakeIPSaveMetadataAsync;
  storage_Store := Cache_FakeIPStore;
  storage_Load := Cache_FakeIPLoad;
  storage_LoadDomain := Cache_FakeIPLoadDomain;
  storage_Reset := Cache_FakeIPReset
|}.

(** ** The laws of the storage *)

Definition cache_sane (c : CacheFile) : Prop := saveDomain c = ∅ /\ saveAddress4 c = ∅ /\ saveAddress6 c = ∅.

Lemma batch_ok {A} c (fn : DB -> Res (A * DB)) a : (batch c fn).1 = Ok a ->
  exists db, fn (cf_DB c) = Ok (a, db) /\ (batch c fn).2 = set_DB c db.
Proof.
  unfold batch. destruct (fn (cf_DB c)) as [[a' db]|e|x]; [|done..]. destruct (Commit db) as [[]|e|x]; [|done..]. intros [= ->]. by exists db.
Qed.
Lemma batch_sane {A} c (fn : DB -> Res (A * DB)) : cache_sane c -> cache_sane (batch c fn).2.
Proof. unfold batch. intros Hc. destruct (fn (cf_DB c)) as [[a' db]|e|x]; [destruct (Commit db)|..]; exact Hc. Qed.

Lemma cache_load a c : cache_sane c ->
  Cache_FakeIPLoad a c = let d := bytes_string (default [] (bucket_Get (cf_DB c) bucketFakeIP (Addr_AsSlice a))) in if bool_decide (d = "") then None else Some d.
Proof.
  intros (Hs & _). unfold Cache_FakeIPLoad. rewrite Hs, lookup_empty. destruct (has_bucket (cf_DB c) bucketFakeIP) eqn:E; [done|]. by rewrite get_no_bucket.
Qed.
Lemma cache_load_domain d v c : cache_sane c ->
  Cache_FakeIPLoadDomain d v c = let a := AddrFromIP (bucket_Get (cf_DB c) (domain_bucket v) (string_bytes d)) in if Addr_IsValid a then Some a else None.
Proof.
  intros (_ & H4 & H6). unfold Cache_FakeIPLoadDomain. rewrite H4, H6, !lookup_empty.
  replace (if negb v then None else None) with (@None Addr) by (by destruct v). destruct (has_bucket (cf_DB c) (domain_bucket v)) eqn:E; [done|].
  by rewrite get_no_bucket, addr_nil.
Qed.

Lemma AsSlice_bytes a : Forall is_byte (Addr_AsSlice a).
Proof. destruct a; [constructor|apply be_bytes_bytes..]. Qed.
Lemma AsSlice_inj a a' : plain_addr a -> plain_addr a' -> Addr_AsSlice a = Addr_AsSlice a' -> a = a'.
Proof. intros Ha Ha' He. rewrite <-(addr_law a Ha), <-(addr_law a' Ha'). by rewrite He. Qed.
Lemma domain_bucket_ne v : domain_bucket v <> bucketFakeIP.
Proof. by destruct v. Qed.
Lemma domain_bucket_inj v v' : domain_bucket v = domain_bucket v' -> v = v'.
Proof. by destruct v, v'. Qed.

(** What a stored domain changes *)
Lemma cache_store_get a d c b k : plain_addr a -> (Cache_FakeIPStore a d c).1 = Ok tt ->
  bucket_Get (cf_DB (Cache_FakeIPStore a d c).2) b k =
    if bool_decide (b = domain_bucket (Addr_Is6 a)) then
      if bool_decide (k = string_bytes d) then Some (Addr_AsSlice a)
      else if bool_decide (bucket_Get (cf_DB c) bucketFakeIP (Addr_AsSlice a) = Some k) then None else bucket_Get (cf_DB c) b k
    else if bool_decide (b = bucketFakeIP) && bool_decide (k = Addr_AsSlice a) then Some (string_bytes d) else bucket_Get (cf_DB c) b k.
Proof.
  intros Ha Hok. unfold Cache_FakeIPStore in *. apply batch_ok in Hok as (db & Hfn & ->). cbn [cf_DB set_DB].
  replace (negb (Addr_Is4 a)) with (Addr_Is6 a) in Hfn by (destruct a; [destruct Ha|done..]).
  destruct (CreateBucketIfNotExists (cf_DB c) bucketFakeIP) as [t1|e|x] eqn:E1; [|done..]. rewrite ok_bind in Hfn. destruct (create_law _ _ _ E1) as [_ G1].
  destruct (bucket_Put t1 bucketFakeIP (Addr_AsSlice a) (string_bytes d)) as [t2|e|x] eqn:E2; [|done..]. rewrite ok_bind in Hfn.
  destruct (put_law _ _ _ _ _ (AsSlice_bytes a) (string_bytes_bytes d) E2) as [_ G2].
  destruct (CreateBucketIfNotExists t2 (domain_bucket (Addr_Is6 a))) as [t3|e|x] eqn:E3; [|done..]. rewrite ok_bind in Hfn. destruct (create_law _ _ _ E3) as [_ G3].
  rewrite G1 in Hfn. set (old := bucket_Get (cf_DB c) bucketFakeIP (Addr_AsSlice a)) in *.
  destruct (match old with Some o => bucket_Delete t3 (domain_bucket (Addr_Is6 a)) o | None => Ok t3 end) as [t4|e|x] eqn:E4; [|done..]. rewrite ok_bind in Hfn.
  destruct (bucket_Put t4 (domain_bucket (Addr_Is6 a)) (string_bytes d) (Addr_AsSlice a)) as [t5|e|x] eqn:E5; [|done..]. rewrite ok_bind in Hfn. injection Hfn as <-.
  destruct (put_law _ _ _ _ _ (string_bytes_bytes d) (AsSlice_bytes a) E5) as [_ G5]. rewrite G5.
  assert (G4 : bucket_Get t4 b k = if bool_decide (b = domain_bucket (Addr_Is6 a)) && bool_decide (old = Some k) then None else bucket_Get t3 b k).
  { destruct old as [o|].
    - destruct (delete_law _ _ _ _ E4) as [_ ->]. destruct (decide (k = o)) as [->|Hne]; [by rewrite (bool_decide_eq_true_2 (o = o)), (bool_decide_eq_true_2 (Some o = Some o)) by done|].
      rewrite (bool_decide_eq_false_2 (k = o)), (bool_decide_eq_false_2 (Some o = Some k)) by congruence. done.
    - injection E4 as <-. by rewrite (bool_decide_eq_false_2 (None = Some k)), andb_false_r. }
  rewrite G4, G3, G2, G1. case_bool_decide as Hb; cbn [andb].
  - subst b. rewrite (bool_decide_eq_false_2 (domain_bucket _ = bucketFakeIP)) by apply domain_bucket_ne. done.
  - done.
Qed.

Lemma cache_reset_get c b k : b = bucketFakeIP \/ (exists v, b = domain_bucket v) ->
  bucket_Get (cf_DB (Cache_FakeIPReset c).2) b k = match (Cache_FakeIPReset c).1 with Ok _ => None | _ => bucket_Get (cf_DB c) b k end.
Proof.
  intros Hb. unfold Cache_FakeIPReset, batch. pose proof (delete_bucket_returns (cf_DB c) bucketFakeIP) as R1.
  destruct (DeleteBucket (cf_DB c) bucketFakeIP) as [t1|e|x] eqn:E1; [|done..]. rewrite ok_bind. destruct (delete_bucket_law _ _ _ E1) as (_ & _ & G1).
  pose proof (delete_bucket_returns t1 bucketFakeIPDomain4) as R2. destruct (DeleteBucket t1 bucketFakeIPDomain4) as [t2|e|x] eqn:E2; [|done..]. rewrite ok_bind.
  destruct (delete_bucket_law _ _ _ E2) as (_ & _ & G2). pose proof (delete_bucket_returns t2 bucketFakeIPDomain6) as R3.
  destruct (DeleteBucket t2 bucketFakeIPDomain6) as [t3|e|x] eqn:E3; [|done..]. rewrite ok_bind. destruct (delete_bucket_law _ _ _ E3) as (_ & _ & G3).
  pose proof (commit_returns t3) as RC. destruct (Commit t3) as [[]|e|x]; [|done..]. cbn [fst snd cf_DB set_DB]. rewrite G3, G2, G1.
  destruct Hb as [->|[[] ->]]; by repeat case_bool_decide.
Qed.

Lemma cache_load_is a c d : cache_sane c -> d <> "" ->
  bool_decide (Cache_FakeIPLoad a c = Some d) = bool_decide (bucket_Get (cf_DB c) bucketFakeIP (Addr_AsSlice a) = Some (string_bytes d)).
Proof.
  intros Hs Hd. rewrite cache_load by done. cbn zeta. apply bool_decide_ext. destruct (bucket_Get (cf_DB c) bucketFakeIP (Addr_AsSlice a)) as [v|] eqn:E; cbn [default from_option id].
  - apply get_bytes in E. case_bool_decide as He.
    + split; [done|]. intros [= Hv]. rewrite Hv, bytes_string_bytes in He. done.
    + split; [intros [= <-]; by rewrite string_bytes_string|intros [= ->]; by rewrite bytes_string_bytes].
  - done.
Qed.

#[global] Instance Cache_ok : StorageOk CacheFile.
Proof.
  unshelve refine {| storage_sane := cache_sane; storage_key := fun d => d <> ""; storage_addr := plain_addr |}; try done.
  - intros a d st. apply batch_sane.
  - intros st. apply batch_sane.
  - intros a d st a' Hs Hk Ha Ha' Hok. cbn in *. rewrite !cache_load by (done || by apply batch_sane). cbn zeta. rewrite cache_store_get by done.
    rewrite (bool_decide_eq_false_2 (bucketFakeIP = domain_bucket _)) by (intros He; by apply (domain_bucket_ne (Addr_Is6 a))). rewrite (bool_decide_eq_true_2 (bucketFakeIP = _)) by done.
    cbn [andb]. destruct (decide (a' = a)) as [->|Hne].
    + rewrite (bool_decide_eq_true_2 (Addr_AsSlice a = _)), (bool_decide_eq_true_2 (a = a)) by done. cbn [default from_option id]. rewrite bytes_string_bytes. by rewrite bool_decide_eq_false_2.
    + rewrite (bool_decide_eq_false_2 (Addr_AsSlice a' = _)) by (intros He; by apply Hne, AsSlice_inj). by rewrite (bool_decide_eq_false_2 (a' = a)).
  - intros a d st d' v Hs Hk Hk' Ha Hok. cbn in *. rewrite !cache_load_domain by (done || by apply batch_sane). cbn zeta. rewrite cache_store_get by done.
    destruct (decide (v = Addr_Is6 a)) as [->|Hv].
    + rewrite (bool_decide_eq_true_2 (domain_bucket _ = _)), (bool_decide_eq_true_2 (Addr_Is6 a = _)) by done. destruct (decide (d' = d)) as [->|Hd].
      * rewrite (bool_decide_eq_true_2 (string_bytes d = _)), (bool_decide_eq_true_2 (d = d)), addr_law by done. by destruct a.
      * rewrite (bool_decide_eq_false_2 (string_bytes d' = _)), (bool_decide_eq_false_2 (d' = d)) by (done || intros He; apply Hd; by rewrite <-(bytes_string_bytes d'), He, bytes_string_bytes).
        rewrite (cache_load_is a st d') by done. case_bool_decide; [by rewrite addr_nil|done].
    + rewrite (bool_decide_eq_false_2 (domain_bucket v = domain_bucket _)), (bool_decide_eq_false_2 (v = _)) by (done || intros He; by apply Hv, domain_bucket_inj).
      by rewrite (bool_decide_eq_false_2 (domain_bucket v = bucketFakeIP)) by apply domain_bucket_ne.
  - intros a st Hs. cbn. rewrite !cache_load by (done || by apply batch_sane). cbn zeta. rewrite cache_reset_get by (by left).
    by destruct (Cache_FakeIPReset st).1.
  - intros d v st Hs. cbn. rewrite !cache_load_domain by (done || by apply batch_sane). cbn zeta. rewrite cache_reset_get by (right; by exists v).
    destruct (Cache_FakeIPReset st).1; [by rewrite addr_nil|done..].
  - intros st. cbn. unfold Cache_FakeIPReset, batch. destruct (mbind _ _) as [[]|e|x]; [|done..]. by destruct (Commit _).
Defined.

(** ** Restart *)

Definition addr_fits (a : Addr) : Prop := a = AddrNone \/ exists isIPv6 v, a = mk_addr isIPv6 v /\ in_width (width_of isIPv6) v.
Definition prefix_fits (p : Prefix) : Prop :=
  p = Prefix_zero \/ exists isIPv6 v, Prefix_Addr p = mk_addr isIPv6 v /\ in_width (width_of isIPv6) v /\ 0 <= Prefix_Bits p <= width_of isIPv6.

Lemma addr_roundtrip a : addr_fits a -> Addr_UnmarshalBinary (Addr_MarshalBinary a) = Ok a.
Proof.
  intros [->|([] & v & -> & Hv)]; [done|..]; unfold in_width in Hv; cbn [mk_addr Addr_MarshalBinary Addr_AsSlice width_of] in *; unfold Addr_UnmarshalBinary.
  - change (string_bytes "") with (@nil Z). rewrite app_nil_r, be_bytes_length. cbn [Nat.eqb Nat.leb].
    rewrite take_ge, drop_ge by (by rewrite be_bytes_length). by rewrite be_value_bytes.
  - rewrite be_bytes_length. cbn [Nat.eqb]. by rewrite be_value_bytes.
Qed.
Lemma prefix_roundtrip p : prefix_fits p -> Prefix_UnmarshalBinary (Prefix_MarshalBinary p) = Ok p.
Proof.
  intros Hp. unfold Prefix_UnmarshalBinary, Prefix_MarshalBinary. rewrite reverse_snoc, reverse_involutive.
  destruct Hp as [->|(isIPv6 & v & Ha & Hv & Hb)]; [done|]. destruct p as [addr bits]. cbn [Prefix_Addr Prefix_Bits] in *. subst addr.
  assert (Hu : u8 bits = bits) by (unfold wrap; apply Z.mod_small; destruct isIPv6; cbn in Hb; lia). rewrite Hu.
  replace (Addr_AsSlice (mk_addr isIPv6 v)) with (Addr_MarshalBinary (mk_addr isIPv6 v)) by (destruct isIPv6; [apply app_nil_r|done]).
  rewrite addr_roundtrip by (right; by exists isIPv6, v). rewrite ok_bind. unfold PrefixFrom. destruct isIPv6; cbn [mk_addr Addr_IsValid Addr_BitLen width_of andb] in *;
    by rewrite !(proj2 (Z.leb_le _ _)) by lia.
Qed.
Lemma reads_element w : len w < 65536 -> reads read_element (write_element w) w.
Proof.
  intros Hw rest. unfold read_element, write_element. unfold wrap. pose proof (len_nonneg w). rewrite Z.mod_small by lia. rewrite <-app_assoc.
  rewrite (reads_binary (ST := file_stream) 2) by (cbn; lia). apply (reads_full (ST := file_stream)). unfold len. lia.
Qed.
Lemma marshal_lengths m : addr_fits (Inet4Current m) -> addr_fits (Inet6Current m) ->
  Forall (fun w => len w < 65536) [Prefix_MarshalBinary (Inet4Range m); Prefix_MarshalBinary (Inet6Range m); Addr_MarshalBinary (Inet4Current m); Addr_MarshalBinary (Inet6Current m)].
Proof.
  assert (Hs : forall a, len (Addr_AsSlice a) <= 16) by (intros []; unfold len; cbn [Addr_AsSlice]; rewrite ?be_bytes_length; cbn; lia).
  assert (Hp : forall p, len (Prefix_MarshalBinary p) < 65536) by (intros p; unfold Prefix_MarshalBinary; rewrite len_app, len_one; pose proof (Hs (Prefix_Addr p)); lia).
  assert (Ha : forall a, addr_fits a -> len (Addr_MarshalBinary a) < 65536).
  { intros a [->|([] & v & -> & _)]; [done|..]; cbn [mk_addr Addr_MarshalBinary Addr_AsSlice]; unfold len; rewrite ?length_app, !be_bytes_length; cbn; lia. }
  intros H4 H6. repeat constructor; auto.
Qed.
Lemma metadata_roundtrip m : prefix_fits (Inet4Range m) -> prefix_fits (Inet6Range m) -> addr_fits (Inet4Current m) -> addr_fits (Inet6Current m) ->
  metadata_UnmarshalBinary (metadata_MarshalBinary m) = Ok m.
Proof.
  intros H1 H2 H3 H4. pose proof (marshal_lengths m H3 H4) as Hl. rewrite !Forall_cons_iff in Hl. destruct Hl as (L1 & L2 & L3 & L4 & _).
  unfold metadata_UnmarshalBinary, metadata_MarshalBinary. rewrite (reads_element _ L1), ok_bind, prefix_roundtrip, ok_bind by done.
  rewrite (reads_element _ L2), ok_bind, prefix_roundtrip, ok_bind by done. rewrite (reads_element _ L3), ok_bind, addr_roundtrip, ok_bind by done.
  rewrite <-(app_nil_r (write_element (Addr_MarshalBinary (Inet6Current m)))), (reads_element _ L4), ok_bind, addr_roundtrip, ok_bind by done. by destruct m.
Qed.

(** A database that works: buckets are made, keys that are not empty are written,
    transactions end. *)
Record database_works : Prop := {
  works_create db b : exists db', CreateBucketIfNotExists db b = Ok db';
  works_put db b k v : has_bucket db b = true -> k <> [] -> Forall is_byte k -> Forall is_byte v -> exists db', bucket_Put db b k v = Ok db';
  works_delete db b k : has_bucket db b = true -> exists db', bucket_Delete db b k = Ok db';
  works_commit db : Commit db = Ok tt
}.
Context (works : database_works).

Lemma batch_works {A} c (fn : DB -> Res (A * DB)) a db : fn (cf_DB c) = Ok (a, db) -> batch c fn = (Ok a, set_DB c db).
Proof. intros H. unfold batch. by rewrite H, (works_commit works). Qed.
Lemma create_works db b : exists db', CreateBucketIfNotExists db b = Ok db' /\ has_bucket db' b = true /\
  (forall b', has_bucket db b' = true -> has_bucket db' b' = true) /\ forall b' k, bucket_Get db' b' k = bucket_Get db b' k.
Proof.
  destruct (works_create works db b) as [db' E]. exists db'. split; [done|]. destruct (create_law _ _ _ E) as [Hh Hg].
  split; [by rewrite Hh, bool_decide_eq_true_2|]. split; [|done]. intros b' Hb. rewrite Hh, Hb. apply orb_true_r.
Qed.
Lemma AsSlice_nonempty a : plain_addr a -> Addr_AsSlice a <> [].
Proof. intros Ha He. destruct a; [done|..]; cbn [Addr_AsSlice] in He; by apply (f_equal length) in He; rewrite be_bytes_length in He. Qed.
Lemma string_bytes_nonempty d : d <> "" -> string_bytes d <> [].
Proof. intros Hd He. apply Hd. by rewrite <-(bytes_string_bytes d), He. Qed.

Lemma cache_writes c a d : storage_sane c -> storage_key d -> storage_addr a -> (storage_Store a d c).1 = Ok tt.
Proof.
  cbn. intros _ Hd Ha. unfold Cache_FakeIPStore. destruct (create_works (cf_DB c) bucketFakeIP) as (t1 & E1 & B1 & _ & _).
  destruct (works_put works t1 bucketFakeIP (Addr_AsSlice a) (string_bytes d)) as [t2 E2]; [done|by apply AsSlice_nonempty|apply AsSlice_bytes|apply string_bytes_bytes|].
  set (b := domain_bucket (negb (Addr_Is4 a))). destruct (create_works t2 b) as (t3 & E3 & B3 & _ & _).
  set (old := bucket_Get t1 bucketFakeIP (Addr_AsSlice a)).
  assert (H4 : exists t4, match old with Some o => bucket_Delete t3 b o | None => Ok t3 end = Ok t4 /\ has_bucket t4 b = true).
  { destruct old as [o|]; [|by exists t3]. destruct (works_delete works t3 b o B3) as [t4 E4]. exists t4. split; [done|]. destruct (delete_law _ _ _ _ E4) as [-> _]. done. }
  destruct H4 as (t4 & E4 & B4).
  destruct (works_put works t4 b (string_bytes d) (Addr_AsSlice a)) as [t5 E5]; [done|by apply string_bytes_nonempty|apply string_bytes_bytes|apply AsSlice_bytes|].
  rewrite (batch_works c _ tt t5); [done|]. cbn beta. rewrite E1, ok_bind, E2, ok_bind. fold b old. by rewrite E3, ok_bind, E4, ok_bind, E5, ok_bind.
Qed.

Lemma marshal_bytes m : Forall is_byte (metadata_MarshalBinary m).
Proof.
  assert (He : forall w, Forall is_byte w -> Forall is_byte (write_element w)) by (intros w Hw; apply Forall_app; split; [apply be_bytes_bytes|done]).
  assert (Hp : forall p, Forall is_byte (Prefix_MarshalBinary p)).
  { intros p. apply Forall_app. split; [apply AsSlice_bytes|]. constructor; [|constructor]. by apply (wrap_range 8). }
  assert (Ha : forall a, Forall is_byte (Addr_MarshalBinary a)).
  { intros []; cbn [Addr_MarshalBinary]; [constructor|apply be_bytes_bytes|]. apply Forall_app. split; [apply be_bytes_bytes|apply string_bytes_bytes]. }
  unfold metadata_MarshalBinary. rewrite !Forall_app. repeat split; by apply He.
Qed.

(** The cache file of the next run *)
Definition reopen (c : CacheFile) : CacheFile := mkCacheFile (cf_DB c) None ∅ ∅ ∅.

(** Saved metadata is read by the next run, and everything else is as before. *)
Lemma saved_metadata c m : cache_sane c -> prefix_fits (Inet4Range m) -> prefix_fits (Inet6Range m) -> addr_fits (Inet4Current m) -> addr_fits (Inet6Current m) ->
  exists c1 c2, Cache_FakeIPSaveMetadata m c = (Ok tt, c1) /\ Cache_FakeIPMetadata (reopen c1) = (Some m, c2) /\ cache_sane c2 /\
    forall b k, (b, k) <> (bucketFakeIP, keyMetadata) -> bucket_Get (cf_DB c2) b k = bucket_Get (cf_DB c) b k.
Proof.
  intros Hs H1 H2 H3 H4. destruct (create_works (cf_DB c) bucketFakeIP) as (t1 & E1 & B1 & _ & G1).
  destruct (works_put works t1 bucketFakeIP keyMetadata (metadata_MarshalBinary m)) as [t2 E2]; [done|done|apply string_bytes_bytes|apply marshal_bytes|].
  destruct (put_law _ _ _ _ _ (string_bytes_bytes _) (marshal_bytes m) E2) as [B2 G2].
  exists (set_DB c t2). unfold Cache_FakeIPSaveMetadata. rewrite (batch_works c _ tt t2) by (by rewrite E1, ok_bind, E2).
  assert (Hb : has_bucket t2 bucketFakeIP = true) by (by rewrite B2). destruct (works_delete works t2 bucketFakeIP keyMetadata Hb) as [t3 E3].
  destruct (delete_law _ _ _ _ E3) as [_ G3]. exists (set_DB (reopen (set_DB c t2)) t3). split; [done|]. split; [|split; [done|]].
  - unfold Cache_FakeIPMetadata. rewrite (batch_works (reopen (set_DB c t2)) _ m t3); [done|]. cbn [reopen cf_DB set_DB]. rewrite Hb. cbn [negb].
    rewrite G2. rewrite !(bool_decide_eq_true_2 (_ = _)) by done. cbn [andb].
    pose proof (metadata_roundtrip m H1 H2 H3 H4) as Hr. set (w := metadata_MarshalBinary m) in *. clearbody w.
    destruct w as [|x w]; [done|]. by rewrite E3, ok_bind, Hr, ok_bind.
  - intros b k Hne. cbn [cf_DB set_DB reopen]. rewrite G3, G2, G1.
    assert (He : bool_decide (b = bucketFakeIP) && bool_decide (k = keyMetadata) = false); [|change (string_bytes "fakeip_metadata") with keyMetadata; by rewrite He].
    apply andb_false_iff. destruct (decide (b = bucketFakeIP)) as [->|]; [right|left]; rewrite bool_decide_eq_false; [intros ->; by apply Hne|done].
Qed.
Lemma keyMetadata_not_addr a : plain_addr a -> Addr_AsSlice a <> keyMetadata.
Proof. intros Ha He. apply (f_equal length) in He. destruct a; [done|..]; cbn [Addr_AsSlice] in He; by rewrite be_bytes_length in He. Qed.
Lemma holds_same isIPv6 c c2 q : cache_sane c -> cache_sane c2 ->
  (forall b k, (b, k) <> (bucketFakeIP, keyMetadata) -> bucket_Get (cf_DB c2) b k = bucket_Get (cf_DB c) b k) ->
  holds (St := CacheFile) isIPv6 c q -> holds (St := CacheFile) isIPv6 c2 q.
Proof.
  intros Hs Hs2 Hg [Hd Hl Hk]. constructor; [| |done].
  - intros d a Hd'. rewrite <-(Hd d a Hd'). cbn. rewrite !cache_load_domain by done. cbn zeta. by rewrite Hg by (intros [= He _]; by apply (domain_bucket_ne isIPv6)).
  - intros d a Ha H6. rewrite <-(Hl d a Ha H6). cbn. rewrite !cache_load by done. cbn zeta. by rewrite Hg by (intros [= He]; by apply (keyMetadata_not_addr a)).
Qed.

Lemma range_fits isIPv6 range : range_given (St := CacheFile) isIPv6 range -> prefix_fits range.
Proof. intros [->|[[Ha Hw Hb _] _]]; [by left|]. right. exists isIPv6, (Addr_bits (Prefix_Addr range)). split; [done|]. by split. Qed.
Lemma current_fits isIPv6 range last current c q : family (St := CacheFile) isIPv6 range last current c q -> addr_fits current.
Proof.
  destruct q as [q|]; [|intros [-> _]; by left]. intros ((Hr & _) & _ & _ & p & -> & Hp & _). right. exists isIPv6, (range_base range + 1 + p). split; [done|].
  pose proof (range_last_bound isIPv6 range Hr). destruct Hr as [_ Hw _ _]. unfold in_width, range_size in *. fold (range_base range) in Hw. lia.
Qed.
Lemma family_restart isIPv6 range last current c c2 q : range_given (St := CacheFile) isIPv6 range -> cache_sane c -> cache_sane c2 ->
  (forall b k, (b, k) <> (bucketFakeIP, keyMetadata) -> bucket_Get (cf_DB c2) b k = bucket_Get (cf_DB c) b k) ->
  family (St := CacheFile) isIPv6 range last current c q ->
  family (St := CacheFile) isIPv6 range (if Prefix_IsValid range then broadcastAddress range else AddrNone) current c2 q.
Proof.
  intros Hr Hs Hs2 Hg Hf. destruct q as [q|].
  - destruct Hf as (Hst & _ & Hh & Hp). split; [done|]. split; [destruct Hst as [Hok _]; by rewrite (range_valid isIPv6)|]. split; [exact (holds_same isIPv6 c c2 q Hs Hs2 Hg Hh)|done].
  - destruct Hf as [H1 H2]. split; [done|exact (holds_same isIPv6 c c2 [] Hs Hs2 Hg H2)].
Qed.

(** A restart keeps the promise. *)
Lemma restart_keeps r4 r6 s p : range_given (St := CacheFile) false r4 -> range_given (St := CacheFile) true r6 -> keeps (St := CacheFile) r4 r6 s p ->
  exists c1, (Store_Close s).1 = Ok tt /\ storage (Store_Close s).2 = Some c1 /\ keeps r4 r6 (Store_Start (NewStore r4 r6) (reopen c1)) p.
Proof.
  intros H4 H6 (R4 & R6 & c & Hc & Hs & F4 & F6). destruct (saved_metadata c (store_metadata s) Hs) as (c1 & c2 & Hsave & Hload & Hs2 & Hg).
  1-4: cbn [store_metadata Inet4Range Inet6Range Inet4Current Inet6Current]; rewrite ?R4, ?R6; first [by eapply range_fits|by eapply current_fits].
  exists c1. unfold Store_Close. rewrite Hc. cbn [storage_SaveMetadata Cache_storage]. rewrite Hsave. split; [done|]. split; [done|].
  unfold Store_Start. cbn [storage_Metadata Cache_storage]. rewrite Hload. cbn [store_metadata Inet4Range Inet6Range NewStore inet4Range inet6Range].
  rewrite R4, R6, !bool_decide_eq_true_2 by done. cbn [andb]. split; [done|]. split; [done|]. exists c2. split; [done|]. split; [done|].
  split; [exact (family_restart false r4 _ _ c c2 _ H4 Hs Hs2 Hg F4)|exact (family_restart true r6 _ _ c c2 _ H6 Hs Hs2 Hg F6)].
Qed.

Lemma promise_run_app range p ops1 outs1 p1 ops2 outs2 p2 : promise_run range p ops1 outs1 p1 -> promise_run range p1 ops2 outs2 p2 ->
  promise_run range p (ops1 ++ ops2) (outs1 ++ outs2) p2.
Proof. induction 1; [done|]. intros H2. cbn [app]. econstructor; [done|by apply IHpromise_run]. Qed.

(** C23: A restart does not show.  The program starts on an empty cache file, runs any
    operations, closes the store, and a later run starts on the same file with the
    same ranges: the answers of both runs together are those of one queue. *)
Theorem fakeip_survives_restart r4 r6 db ops1 ops2 : range_given (St := CacheFile) false r4 -> range_given (St := CacheFile) true r6 ->
  (forall b, has_bucket db b = false) -> Forall (op_ok (St := CacheFile)) ops1 -> Forall (op_ok (St := CacheFile)) ops2 ->
  let run1 := run_ops (Store_Start (NewStore r4 r6) (mkCacheFile db None ∅ ∅ ∅)) ops1 in
  exists c p, (Store_Close run1.2).1 = Ok tt /\ storage (Store_Close run1.2).2 = Some c /\
    promise_run (range_of r4 r6) (mkPromise (empty_names r4) (empty_names r6)) (ops1 ++ ops2)
      (run1.1 ++ (run_ops (Store_Start (NewStore r4 r6) (reopen c)) ops2).1) p.
Proof.
  intros H4 H6 Hdb Hops1 Hops2. set (c0 := mkCacheFile db None ∅ ∅ ∅). intros run1.
  assert (Hm : storage_Metadata c0 = (None, c0)) by (cbn; unfold Cache_FakeIPMetadata, batch; cbn [cf_DB c0]; by rewrite Hdb).
  assert (Hclear : cleared c0).
  { right. split; [intros a|intros d v]; cbn; [rewrite cache_load by done|rewrite cache_load_domain by done]; cbn [cf_DB c0]; rewrite get_no_bucket by done; [done|].
    cbn zeta. by rewrite addr_nil. }
  destruct (keeps_run r4 r6 cache_writes ops1 _ _ (start_keeps r4 r6 c0 c0 H4 H6 Hm ltac:(done) Hclear) Hops1) as (p1 & Hrun1 & Hk1). fold run1 in Hrun1, Hk1.
  destruct (restart_keeps r4 r6 run1.2 p1 H4 H6 Hk1) as (c & Hclose & Hc & Hk2).
  destruct (keeps_run r4 r6 cache_writes ops2 _ _ Hk2 Hops2) as (p2 & Hrun2 & _).
  exists c, p2. split; [done|]. split; [done|]. by eapply promise_run_app.
Qed.

End Cache.

(** ** Fake addresses at work

    A database of finite maps, the store in memory and in the cache file on concrete
    queries, and what goes wrong with small ranges and with a range that changes. *)

Module FakeIPDemo.

Abbreviation toy_db := (gmap string (gmap (list Z) (list Z))).
Definition all_bytes (l : list Z) : bool := forallb (fun b => (0 <=? b) && (b <? 256)) l.
Definition toy_get (db : toy_db) (b : string) (k : list Z) : option (list Z) :=
  m ← db !! b; v ← m !! k; if all_bytes v then Some v else None.
Definition toy_has (db : toy_db) (b : string) : bool := bool_decide (is_Some (db !! b)).
Definition toy_create (db : toy_db) (b : string) : Res toy_db :=
  Ok (match db !! b with Some _ => db | None => <[b := ∅]> db end).
Definition toy_put (db : toy_db) (b : string) (k v : list Z) : Res toy_db :=
  match db !! b with
  | Some m => if bool_decide (k = []) || negb (all_bytes v) then Err (E_New [AStr "key required"]) else Ok (<[b := <[k := v]> m]> db)
  | None => Err (E_New [AStr "bucket not found"])
  end.
Definition toy_delete (db : toy_db) (b : string) (k : list Z) : Res toy_db :=
  match db !! b with Some m => Ok (<[b := delete k m]> db) | None => Err (E_New [AStr "bucket not found"]) end.
Definition toy_delete_bucket (db : toy_db) (b : string) : Res toy_db :=
  if toy_has db b then Ok (delete b db) else Err (E_New [AStr "bucket not found"]).
Definition toy_addr (b : option (list Z)) : Addr :=
  match b with Some l => Addr_Unmap (default AddrNone (AddrFromSlice l)) | None => AddrNone end.

Lemma all_bytes_spec l : all_bytes l = true <-> Forall is_byte l.
Proof.
  split; [apply bytes_check|]. intros Hl. apply forallb_Forall'. eapply Forall_impl; [|exact Hl]. intros b [H1 H2]. cbn in H2. lia.
Qed.
Lemma toy_insert (db : toy_db) (b : string) (m : gmap (list Z) (list Z)) b' : toy_has (<[b := m]> db) b' = bool_decide (b' = b) || toy_has db b'.
Proof.
  unfold toy_has. destruct (decide (b' = b)) as [->|Hne].
  - rewrite lookup_insert_eq. by rewrite !bool_decide_eq_true_2 by (done || by eexists).
  - rewrite lookup_insert_ne by congruence. by rewrite (bool_decide_eq_false_2 (b' = b)).
Qed.
Lemma toy_has_some (db : toy_db) (b : string) (m : gmap (list Z) (list Z)) : db !! b = Some m -> toy_has db b = true.
Proof. intros H. apply bool_decide_eq_true_2. by eexists. Qed.
Lemma toy_insert_has (db : toy_db) (b : string) (m m0 : gmap (list Z) (list Z)) : db !! b = Some m0 -> forall b', toy_has (<[b := m]> db) b' = toy_has db b'.
Proof. intros H b'. rewrite toy_insert. case_bool_decide; [subst; by rewrite (toy_has_some _ _ _ H)|done]. Qed.
Lemma toy_get_insert (db : toy_db) (b : string) (m : gmap (list Z) (list Z)) b' k : toy_get (<[b := m]> db) b' k =
  if bool_decide (b' = b) then (v ← m !! k; if all_bytes v then Some v else None) else toy_get db b' k.
Proof. unfold toy_get. case_bool_decide; [subst; by rewrite lookup_insert_eq|by rewrite lookup_insert_ne by congruence]. Qed.

#[global] Instance toy_bolt : Bolt.
Proof.
  unshelve refine {| DB := toy_db; has_bucket := toy_has; bucket_Get := toy_get; CreateBucketIfNotExists := toy_create; bucket_Put := toy_put;
            bucket_Delete := toy_delete; DeleteBucket := toy_delete_bucket; Commit := fun _ => Ok tt; reset_db := fun _ => ∅; AddrFromIP := toy_addr |}; try done.
  - intros db b k H. unfold toy_has, toy_get in *. apply bool_decide_eq_false in H. destruct (db !! b); [by destruct H; eexists|done].
  - intros db b k v H. unfold toy_get in H. destruct (db !! b) as [m|]; [|done]. cbn in H. destruct (m !! k) as [w|]; [|done]. cbn in H.
    destruct (all_bytes w) eqn:E; [|done]. injection H as <-. by apply all_bytes_spec.
  - intros db b db' H. unfold toy_create in H. destruct (db !! b) as [m|] eqn:E; injection H as <-.
    + split; [|done]. intros b'. case_bool_decide; [subst; by rewrite (toy_has_some _ _ _ E)|done].
    + split; [apply toy_insert|]. intros b' k. rewrite toy_get_insert. case_bool_decide; [subst; unfold toy_get; by rewrite E|done].
  - intros db b k v db' Hk Hv H. unfold toy_put in H. destruct (db !! b) as [m|] eqn:E; [|done]. destruct (_ || _); [done|]. injection H as <-.
    split; [by eapply toy_insert_has|]. intros b' k'. rewrite toy_get_insert. case_bool_decide as Hb; [subst|done]. cbn [andb]. case_bool_decide as Hkk.
    + subst. rewrite lookup_insert_eq. cbn. by rewrite (proj2 (all_bytes_spec v)).
    + rewrite lookup_insert_ne by congruence. unfold toy_get. by rewrite E.
  - intros db b k db' H. unfold toy_delete in H. destruct (db !! b) as [m|] eqn:E; [|done]. injection H as <-.
    split; [by eapply toy_insert_has|]. intros b' k'. rewrite toy_get_insert. case_bool_decide as Hb; [subst|done]. cbn [andb]. case_bool_decide as Hkk.
    + subst. by rewrite lookup_delete_eq.
    + rewrite lookup_delete_ne by congruence. unfold toy_get. by rewrite E.
  - intros db b db' H. unfold toy_delete_bucket in H. destruct (toy_has db b) eqn:E; [|done]. injection H as <-. split; [done|]. split.
    + intros b'. unfold toy_has. case_bool_decide as Hb.
      * destruct (decide (b' = b)) as [->|]; [rewrite lookup_delete_eq in Hb; by destruct Hb|]. rewrite lookup_delete_ne in Hb by congruence.
        by rewrite (bool_decide_eq_false_2 (b' = b)), bool_decide_eq_true_2.
      * destruct (decide (b' = b)) as [->|]; [by rewrite (bool_decide_eq_true_2 (b = b))|]. rewrite lookup_delete_ne in Hb by congruence.
        by rewrite (bool_decide_eq_false_2 (is_Some _)), andb_false_r.
    + intros b' k. unfold toy_get. case_bool_decide; [subst; by rewrite lookup_delete_eq|by rewrite lookup_delete_ne by congruence].
  - intros db b. unfold toy_delete_bucket. by destruct (toy_has db b).
  - intros [|v|v z] Ha; [done|..]; cbn in Ha.
    + cbn [Addr_AsSlice toy_addr]. unfold AddrFromSlice. rewrite be_bytes_length. cbn [Nat.eqb default from_option id]. by rewrite be_value_bytes.
    + destruct Ha as (Hv & -> & H46). cbn [Addr_AsSlice toy_addr]. unfold AddrFromSlice. rewrite be_bytes_length. cbn [Nat.eqb default from_option id].
      rewrite be_value_bytes by done. unfold Addr_Unmap. cbn [Addr_Is4In6] in *. by rewrite H46.
Defined.

Lemma toy_works : database_works.
Proof.
  constructor; cbn.
  - intros db b. by eexists.
  - intros db b k v Hb Hk _ Hv. unfold toy_put. apply bool_decide_eq_true in Hb as [m ->]. rewrite (bool_decide_eq_false_2 (k = [])) by done.
    rewrite (proj2 (all_bytes_spec v)) by done. by eexists.
  - intros db b k Hb. unfold toy_delete. apply bool_decide_eq_true in Hb as [m ->]. by eexists.
  - done.
Qed.

(** 198.18.0.0/29 and fc00::/125: five usable addresses each *)
Definition v4 : Prefix := mkPrefix (Addr4 0xc6120000) 29.
Definition v6 : Prefix := mkPrefix (Addr6 (0xfc * 2 ^ 120) "") 125.
Lemma v4_ok : range_ok false v4.
Proof. constructor; [done|by split|done|done]. Qed.
Lemma v6_ok : range_ok true v6.
Proof. constructor; [done|by split|done|done]. Qed.
Definition names (n : nat) : list Op := map (fun i => OpCreate (String (Ascii.ascii_of_nat (97 + i)) ".test") false) (seq 0 n).

End FakeIPDemo.
Import FakeIPDemo.

Lemma v4_memory : range_given (St := MemoryStorage) false v4.
Proof. right. split; [exact v4_ok|done]. Qed.
Lemma v4_cache : range_given (St := CacheFile) false v4.
Proof. right. split; [exact v4_ok|]. intros p Hp. change (range_size false v4) with 5 in Hp. cbn. unfold in_width, range_base. cbn. lia. Qed.
Lemma v6_cache : range_given (St := CacheFile) true v6.
Proof.
  right. split; [exact v6_ok|]. intros p Hp. change (range_size true v6) with 5 in Hp. unfold slot. cbn [mk_addr storage_addr Cache_ok plain_addr].
  change (range_base v6) with (0xfc * 2 ^ 120). split; [unfold in_width; lia|]. split; [done|]. cbn [Addr_Is4In6]. rewrite Z.shiftr_div_pow2 by lia.
  apply Z.eqb_neq. replace (252 * 2 ^ 120 + 1 + p) with (p + 1 + (252 * 2 ^ 88) * 2 ^ 32) by lia. rewrite Z.div_add by lia. rewrite Z.div_small by lia. lia.
Qed.

(** Six domains, a lookup and the first domain again *)
Definition session : list Op := names 6 ++ [OpLookup (Addr4 0xc6120002); OpReset; OpCreate "a.test" false; OpCreate "a.test" true].
Example fakeip_store_is_queue_witness :
  exists p, promise_run (range_of v4 Prefix_zero) (mkPromise (empty_names v4) (empty_names Prefix_zero)) session
    (run_ops (Store_Start (NewStore v4 Prefix_zero) NewMemoryStorage) session).1 p.
Proof.
  apply (fakeip_store_is_queue (St := MemoryStorage) (FS := Memory_storage) (SO := Memory_ok) v4 Prefix_zero (fun _ _ _ _ _ _ => eq_refl) NewMemoryStorage NewMemoryStorage session);
    [exact v4_memory|by left|done|done|by left|repeat (constructor; [done|]); constructor].
Defined.
(** The sixth domain gets the address of the first, which the lookup then finds. *)
Example session_answers : (run_ops (Store_Start (NewStore v4 Prefix_zero) NewMemoryStorage) session).1 =
  [OutAddr (Ok (Addr4 0xc6120002)); OutAddr (Ok (Addr4 0xc6120003)); OutAddr (Ok (Addr4 0xc6120004)); OutAddr (Ok (Addr4 0xc6120005));
   OutAddr (Ok (Addr4 0xc6120006)); OutAddr (Ok (Addr4 0xc6120002)); OutName (Ok (Some "f.test")); OutDone (Ok tt);
   OutAddr (Ok (Addr4 0xc6120003)); OutAddr (Err (E_New [AStr "missing IPv6 fakeip address range"]))].
Proof. vm_compute. reflexivity. Qed.

Example fakeip_survives_restart_witness :
  let run1 := run_ops (Store_Start (NewStore v4 v6) (mkCacheFile ∅ None ∅ ∅ ∅)) (names 3) in
  exists c p, (Store_Close run1.2).1 = Ok tt /\ storage (Store_Close run1.2).2 = Some c /\
    promise_run (range_of v4 v6) (mkPromise (empty_names v4) (empty_names v6)) (names 3 ++ names 6)
      (run1.1 ++ (run_ops (Store_Start (NewStore v4 v6) (reopen c)) (names 6)).1) p.
Proof.
  apply (fakeip_survives_restart toy_works v4 v6 (∅ : toy_db)); [exact v4_cache|exact v6_cache|done|repeat (constructor; [done|]); constructor..].
Defined.

(** ** Ranges without room *)

(** A range of two addresses: the first domain gets an address behind it. *)
Example small_range_left :
  let r := mkPrefix (Addr4 0xc6120000) 31 in
  let '(a, s) := Store_Create (Store_Start (NewStore r Prefix_zero) NewMemoryStorage) "a.test" false in
  (a, Store_Contains s (Addr4 0xc6120002)) = (Ok (Addr4 0xc6120002), false).
Proof. vm_compute. reflexivity. Qed.

(** ** A range that changes *)

(** A cache file that has only ever seen IPv4 queries *)
Definition old_file : CacheFile :=
  default (mkCacheFile ∅ None ∅ ∅ ∅) (storage (Store_Close (Store_Create (Store_Start (NewStore v4 Prefix_zero) (mkCacheFile ∅ None ∅ ∅ ∅)) "a.test" false).2).2).
(** The user changes the range: the reset fails on the bucket of the other family,
    and the domain keeps an address of the old range, which the store does not take
    for a fake address any more. *)
Example changed_range_keeps_addresses :
  let r := mkPrefix (Addr4 0x0a000000) 8 in
  let s := Store_Start (NewStore r Prefix_zero) (reopen old_file) in
  let '(a, s) := Store_Create s "a.test" false in
  (a, Store_Contains s (Addr4 0xc6120002)) = (Ok (Addr4 0xc6120002), false).
Proof. vm_compute. reflexivity. Qed.
