(* ===== verification/TlsFragment.v ===== *)
(** * Fragmented client hellos

    [common/tlsfragment]: the connection that cuts the first client hello inside the
    server name, into several TCP segments, several TLS records or both.

    The lengths of headers and the reads of numbers are those of [common/ja3] (file
    [Ja3]).  Every read of the source is a checked [index] or [slice].  [rand.Intn] and the
    public suffix list are arguments, and the connection below is the interface
    [Peer]. *)

From stdpp Require Import base numbers list strings option.
From Stdlib Require Import ZArith Lia.
From S2P Require Import Prelude Bytes Ja3.

Local Open Scope Z_scope.

(** ** index.go *)

Record MyServerName := mkMyServerName {
  sn_Index : Z;
  sn_Length : Z;
  sn_ServerName : bytes;
  sn_ExtensionsListLengthIndex : Z
}.
(** The loop over the extensions.  Fuel: an extension takes four bytes. *)
Fixpoint index_extensions (fuel : nat) (exs : bytes) (currentIndex : Z) : Res (option MyServerName) :=
  if len exs <=? 0 then Ok None
  else
    match fuel with
    | O => Panic "fuel"
    | S fuel =>
        if len exs <? extensionHeaderLen then Ok None
        else
          exType ← u16_at exs 0;
          exLen ← u16_at exs 2;
          if len exs <? extensionHeaderLen + exLen then Ok None
          else
            sex ← slice exs extensionHeaderLen (extensionHeaderLen + exLen);
            if exType =? sniExtensionType then
              if len sex <? sniExtensionHeaderLen then Ok None
              else
                sniType ← index sex 2;
                if negb (sniType =? sniNameDNSHostnameType) then Ok None
                else
                  sniLen ← u16_at sex 3;
                  sex ← slice sex sniExtensionHeaderLen (len sex);
                  Ok (Some (mkMyServerName (currentIndex + extensionHeaderLen + sniExtensionHeaderLen) sniLen sex 0))
            else
              exs ← slice exs (wrap 16 (4 + exLen)) (len exs);
              index_extensions fuel exs (currentIndex + (4 + exLen))
    end.
Definition indexTLSServerNameFromExtensions (exs : bytes) : Res (option MyServerName) :=
  if len exs =? 0 then Ok None
  else if len exs <? extensionsHeaderLen then Ok None
  else
    exsLen ← u16_at exs 0;
    exs ← slice exs extensionsHeaderLen (len exs);
    if len exs <? exsLen then Ok None else index_extensions (length exs) exs extensionsHeaderLen.

Definition indexTLSServerNameFromHandshake (handshake : bytes) : Res (option MyServerName) :=
  if len handshake <? handshakeHeaderLen + randomDataLen + sessionIDHeaderLen then Ok None
  else
    t ← index handshake 0;
    if negb (t =? handshakeType) then Ok None
    else
      b1 ← index handshake 1; b2 ← index handshake 2; b3 ← index handshake 3;
      let handshakeLen := Z.lor (Z.lor (Z.shiftl b1 16) (Z.shiftl b2 8)) b3 in
      rest ← slice handshake 4 (len handshake);
      if negb (len rest =? handshakeLen) then Ok None
      else
        tlsVersion ← u16_at handshake 4;
        if negb (supported_version tlsVersion) then Ok None
        else
          sessionIDLen ← index handshake 38;
          let currentIndex := handshakeHeaderLen + randomDataLen + sessionIDHeaderLen + sessionIDLen in
          if len handshake <? currentIndex then Ok None
          else
            cipherSuites ← slice handshake currentIndex (len handshake);
            if len cipherSuites <? cipherSuiteHeaderLen then Ok None
            else
              csLen ← u16_at cipherSuites 0;
              if len cipherSuites <? cipherSuiteHeaderLen + csLen + compressMethodHeaderLen then Ok None
              else
                compressMethodLen ← index cipherSuites (cipherSuiteHeaderLen + csLen);
                let currentIndex := currentIndex + (cipherSuiteHeaderLen + csLen + compressMethodHeaderLen + compressMethodLen) in
                if len handshake <? currentIndex then Ok None
                else
                  exs ← slice handshake currentIndex (len handshake);
                  serverName ← indexTLSServerNameFromExtensions exs;
                  Ok (option_map (fun s => mkMyServerName (sn_Index s + currentIndex) (sn_Length s) (sn_ServerName s) currentIndex) serverName).

Definition IndexTLSServerName (payload : bytes) : Res (option MyServerName) :=
  if len payload <? recordLayerHeaderLen then Ok None
  else
    t ← index payload 0;
    if negb (t =? contentType) then Ok None
    else
      segmentLen ← u16_at payload 3;
      if len payload <? recordLayerHeaderLen + segmentLen then Ok None
      else
        handshake ← slice payload recordLayerHeaderLen (len payload);
        serverName ← indexTLSServerNameFromHandshake handshake;
        Ok (option_map (fun s => mkMyServerName (sn_Index s + recordLayerHeaderLen) (sn_Length s) (sn_ServerName s)
                        (sn_ExtensionsListLengthIndex s + recordLayerHeaderLen)) serverName).

(** ** conn.go *)

(** The connection below: a write, a write that waits for the acknowledgement, and
    the switch of Nagle's algorithm; waiting between writes is not modelled. *)
Class Peer (W : Type) := {
  peer_Write : bytes -> W -> Res unit * W;
  writeAndWaitAck : bytes -> W -> Res unit * W;
  SetNoDelay : bool -> W -> Res unit * W
}.

(** [strings.Split(s, ".")] and [strings.Count(s, ".")] on the bytes of a string *)
Definition dot : Z := 46.
Fixpoint split_dots (s : bytes) : list bytes :=
  match s with
  | [] => [[]]
  | b :: s =>
      match split_dots s with
      | [] => [[b]]
      | l :: ls => if b =? dot then [] :: l :: ls else (b :: l) :: ls
      end
  end.
Definition count_dots (s : bytes) : Z := len (List.filter (fun b => b =? dot) s).

(** The places to cut: one in each label, [Intn k n] below [n] for the [k]-th. *)
Fixpoint split_indexes (Intn : nat -> Z -> Z) (k : nat) (splits : list bytes) (currentIndex : Z) : Res (list Z) :=
  match splits with
  | [] => Ok []
  | split :: rest =>
      if len split <=? 0 then Panic "invalid argument to Intn"
      else
        l ← split_indexes Intn (S k) rest (currentIndex + len split + (if bool_decide (rest = []) then 0 else 1));
        Ok (currentIndex + Intn k (len split) :: l)
  end.
Definition three_dots : bytes := [dot; dot; dot].
Definition cut_indexes (Intn : nat -> Z -> Z) (PublicSuffix : bytes -> bytes) (serverName : MyServerName) : Res (list Z) :=
  let name := sn_ServerName serverName in
  let splits := split_dots name in
  splits ← (if bool_decide (PublicSuffix name = []) then Ok splits
            else let n := len splits - count_dots name in
                 if (0 <=? n) && (n <=? len splits) then Ok (take (Z.to_nat n) splits) else Panic "slice bounds out of range");
  let skip := (1 <? len splits) && bool_decide (list.head splits = Some three_dots) in
  split_indexes Intn 0 (if skip then drop 1 splits else splits)
    (if skip then sn_Index serverName + 3 + 1 else sn_Index serverName).

(** The pieces of the packet; without the header of its record when records are cut. *)
Fixpoint rest_pieces (b : bytes) (from : Z) (indexes : list Z) : Res (list bytes) :=
  match indexes with
  | [] => p ← slice b from (len b); Ok [p]
  | i :: indexes => p ← slice b from i; l ← rest_pieces b i indexes; Ok (p :: l)
  end.
Definition pieces (splitRecord : bool) (b : bytes) (indexes : list Z) : Res (list bytes) :=
  match indexes with
  | [] => Panic "index out of range"
  | i :: rest =>
      p ← slice b 0 i;
      p ← (if splitRecord then slice p recordLayerHeaderLen (len p) else Ok p);
      l ← rest_pieces b i rest;
      Ok (p :: l)
  end.
(** A record around a piece, with the type and version of the packet *)
Definition record_frame (b payload : bytes) : bytes := take 3 b ++ be_bytes 2 (u16 (len payload)) ++ payload.

Section Conn.
Context {W : Type} {PE : Peer W}.

Record Conn := mkConn { firstPacketWritten : bool; splitPacket : bool; splitRecord : bool; hasTCPConn : bool }.

(** The pieces one by one; all but the last wait for the other side. *)
Fixpoint send_pieces (tcp : bool) (payloads : list bytes) (w : W) : Res unit * W :=
  match payloads with
  | [] => (Ok tt, w)
  | [p] => peer_Write p w
  | p :: payloads =>
      let '(r, w) := if tcp then writeAndWaitAck p w else peer_Write p w in
      match r with Ok _ => send_pieces tcp payloads w | e => (e, w) end
  end.
(** The writes of a fragmented packet *)
Definition send_fragments (c : Conn) (b : bytes) (pieces : list bytes) (w : W) : Res unit * W :=
  let payloads := if splitRecord c then map (record_frame b) pieces else pieces in
  let '(r, w) := if splitPacket c then send_pieces (hasTCPConn c) payloads w else (Ok tt, w) in
  match r with
  | Ok _ =>
      let '(r, w) := if splitRecord c && negb (splitPacket c) then peer_Write (concat payloads) w else (Ok tt, w) in
      match r with
      | Ok _ => if hasTCPConn c then SetNoDelay false w else (Ok tt, w)
      | e => (e, w)
      end
  | e => (e, w)
  end.
Definition written (r : Res unit) (b : bytes) : Res Z :=
  match r with Ok _ => Ok (len b) | Err e => Err e | Panic p => Panic p end.

(** [Conn.Write].  The source cuts a piece just before it is sent; here all pieces are
    cut first, which is the same because no cut can fail ([pieces_ok]).  A write
    below that succeeds has written everything. *)
Definition Conn_Write (Intn : nat -> Z -> Z) (PublicSuffix : bytes -> bytes) (c : Conn) (b : bytes) (w : W) : Res Z * Conn * W :=
  let plain (c : Conn) := let '(r, w) := peer_Write b w in (written r b, c, w) in
  if firstPacketWritten c then plain c
  else
    let c' := mkConn true (splitPacket c) (splitRecord c) (hasTCPConn c) in
    match IndexTLSServerName b with
    | Ok None => plain c'
    | Ok (Some serverName) =>
        let '(r, w) := if splitPacket c && hasTCPConn c then SetNoDelay true w else (Ok tt, w) in
        match r with
        | Ok _ =>
            match indexes ← cut_indexes Intn PublicSuffix serverName; pieces (splitRecord c) b indexes with
            | Ok l => let '(r, w) := send_fragments c b l w in (written r b, c', w)
            | Err e => (Err e, c', w)
            | Panic p => (Panic p, c', w)
            end
        | e => (written e b, c', w)
        end
    | Err e => (Err e, c', w)
    | Panic p => (Panic p, c', w)
    end.

End Conn.

(** ** The server name is inside the packet *)

(** A server name that lies in [b], which starts at position [off], after at least
    nine bytes *)
Record name_at (off : Z) (b : bytes) (s : MyServerName) : Prop := {
  na_from : off + 9 <= sn_Index s;
  na_till : sn_Index s + len (sn_ServerName s) <= off + len b;
  na_bytes : take (length (sn_ServerName s)) (drop (Z.to_nat (sn_Index s - off)) b) = sn_ServerName s
}.
(** A result that is an answer, with a property when there is a name *)
Definition finds (Q : MyServerName -> Prop) (m : Res (option MyServerName)) : Prop :=
  match m with Ok (Some s) => Q s | Ok None => True | _ => False end.

Lemma finds_impl (P Q : MyServerName -> Prop) m : finds P m -> (forall s, P s -> Q s) -> finds Q m.
Proof. intros Hm H. destruct m as [[s|]|e|p]; [by apply H|done..]. Qed.
Lemma finds_map (P Q : MyServerName -> Prop) m f : finds P m -> (forall s, P s -> Q (f s)) -> finds Q (x ← m; Ok (option_map f x)).
Proof. intros Hm H. destruct m as [[s|]|e|p]; [by apply H|done..]. Qed.
(** The place in what follows the first [k] bytes, and the place counted from there *)
Lemma name_at_drop off k b s : 0 <= k <= len b -> name_at (off + k) (drop (Z.to_nat k) b) s -> name_at off b s.
Proof.
  intros Hk [H1 H2 H3]. rewrite len_drop in H2 by done. constructor; [lia|lia|]. rewrite <-H3 at 2. rewrite drop_drop. do 2 f_equal. lia.
Qed.
Lemma name_at_move off k b s t : sn_Index t = sn_Index s + k -> sn_ServerName t = sn_ServerName s -> name_at off b s -> name_at (off + k) b t.
Proof. intros Hi Hn [H1 H2 H3]. constructor; rewrite ?Hn; [lia|lia|]. rewrite <-H3 at 2. do 2 f_equal. lia. Qed.

Lemma index_extensions_at fuel : forall exs cur, Forall is_byte exs -> (length exs <= fuel)%nat -> len exs < 65536 ->
  finds (name_at cur exs) (index_extensions fuel exs cur).
Proof.
  induction fuel as [|fuel IH]; intros exs cur Hb Hf Hl.
  { destruct exs; [done|cbn in Hf; lia]. }
  cbn [index_extensions]. destruct (Z.leb_spec (len exs) 0); [done|]. destruct (Z.ltb_spec (len exs) extensionHeaderLen) as [|H4]; [done|]. unfold extensionHeaderLen in *.
  destruct (u16_at_ok exs 0) as (exType & -> & Ht); [done|lia..|]. destruct (u16_at_ok exs 2) as (exLen & -> & Hx); [done|lia..|]. rewrite !ok_bind.
  destruct (Z.ltb_spec (len exs) (4 + exLen)); [done|]. rewrite (slice_ok exs 4), ok_bind by lia. set (sex := take _ _).
  assert (Hsex : len sex = exLen) by (unfold sex, len in *; rewrite length_take, length_drop; lia).
  assert (Hsb : Forall is_byte sex) by (by apply Forall_take, Forall_drop). destruct (exType =? sniExtensionType).
  - destruct (Z.ltb_spec (len sex) sniExtensionHeaderLen) as [|H5]; [done|]. unfold sniExtensionHeaderLen in *.
    destruct (index_ok sex 2) as (t & -> & _); [done|lia|]. rewrite ok_bind. destruct (negb _); [done|].
    destruct (u16_at_ok sex 3) as (v & -> & _); [done|lia..|]. rewrite ok_bind, slice_tail, ok_bind by lia.
    constructor; cbn [sn_Index sn_ServerName]; [lia|rewrite len_drop; lia|]. replace (Z.to_nat (cur + 4 + 5 - cur)) with 9%nat by lia.
    unfold sex. rewrite skipn_firstn_comm, drop_drop. change (Z.to_nat 4 + Z.to_nat 5)%nat with 9%nat. rewrite length_take, length_drop.
    unfold len in *. f_equal. lia.
  - unfold wrap. rewrite Z.mod_small by lia. rewrite slice_tail, ok_bind by lia. eapply finds_impl.
    + apply IH; [by apply Forall_drop|rewrite length_drop; unfold len in *; lia|rewrite len_drop; lia].
    + intros s. apply name_at_drop. lia.
Qed.
(** An extension of 65532 bytes: the sum is a [uint16], and the loop stays where it
    is for ever.  The packet is longer than 65536 bytes. *)
Lemma index_extensions_stuck fuel exs cur t1 t2 rest : exs = t1 :: t2 :: 0xff :: 0xfc :: rest -> Z.lor (Z.shiftl t1 8) t2 <> 0 -> 65536 <= len exs ->
  index_extensions fuel exs cur = Panic "fuel".
Proof.
  intros He Ht Hl. revert cur. induction fuel as [|fuel IH]; intros cur; cbn [index_extensions]; (destruct (Z.leb_spec (len exs) 0); [lia|]); [done|].
  unfold extensionHeaderLen. destruct (Z.ltb_spec (len exs) 4); [lia|].
  replace (u16_at exs 0) with (Ok (Z.lor (Z.shiftl t1 8) t2)) by (by rewrite He). replace (u16_at exs 2) with (Ok 65532) by (by rewrite He). rewrite !ok_bind.
  destruct (Z.ltb_spec (len exs) (4 + 65532)); [lia|]. rewrite (slice_ok exs 4), ok_bind by lia. unfold sniExtensionType. rewrite (proj2 (Z.eqb_neq _ 0)) by done.
  change (wrap 16 (4 + 65532)) with 0. rewrite slice_tail, ok_bind by lia. change (drop (Z.to_nat 0) exs) with exs. apply IH.
Qed.

Lemma extensions_at exs : Forall is_byte exs -> len exs < 65536 -> finds (name_at 0 exs) (indexTLSServerNameFromExtensions exs).
Proof.
  intros Hb Hl. unfold indexTLSServerNameFromExtensions. destruct (len exs =? 0); [done|]. unfold extensionsHeaderLen. destruct (Z.ltb_spec (len exs) 2); [done|].
  destruct (u16_at_ok exs 0) as (n & -> & _); [done|lia..|]. rewrite ok_bind, slice_tail, ok_bind by lia. destruct (_ <? _); [done|].
  eapply finds_impl; [apply index_extensions_at; [by apply Forall_drop|done|rewrite len_drop; lia]|]. intros s. apply (name_at_drop 0 2). lia.
Qed.
Lemma handshake_at hs : Forall is_byte hs -> len hs < 65536 -> finds (name_at 0 hs) (indexTLSServerNameFromHandshake hs).
Proof.
  intros Hb Hl. unfold indexTLSServerNameFromHandshake, handshakeHeaderLen, randomDataLen, sessionIDHeaderLen, cipherSuiteHeaderLen, compressMethodHeaderLen.
  change (6 + 32 + 1) with 39. destruct (Z.ltb_spec (len hs) 39); [done|]. destruct (index_ok hs 0) as (t & -> & _); [done|lia|]. rewrite ok_bind. destruct (negb _); [done|].
  destruct (index_ok hs 1) as (b1 & -> & _); [done|lia|]. destruct (index_ok hs 2) as (b2 & -> & _); [done|lia|]. destruct (index_ok hs 3) as (b3 & -> & _); [done|lia|].
  rewrite !ok_bind, slice_tail, ok_bind by lia. destruct (negb _); [done|]. destruct (u16_at_ok hs 4) as (v & -> & _); [done|lia..|]. rewrite ok_bind. destruct (negb _); [done|].
  destruct (index_ok hs 38) as (sid & -> & Hsid); [done|lia|]. rewrite ok_bind. unfold is_byte, in_width in Hsid. destruct (Z.ltb_spec (len hs) (39 + sid)); [done|].
  rewrite slice_tail, ok_bind by lia. set (cs := drop _ hs). assert (Hcs : len cs = len hs - (39 + sid)) by (unfold cs; rewrite len_drop; lia).
  assert (Hcb : Forall is_byte cs) by (by apply Forall_drop). destruct (Z.ltb_spec (len cs) 2); [done|]. destruct (u16_at_ok cs 0) as (n & -> & Hn); [done|lia..|]. rewrite ok_bind.
  destruct (Z.ltb_spec (len cs) (2 + n + 1)); [done|]. destruct (index_ok cs (2 + n)) as (m & -> & Hm); [done|lia|]. rewrite ok_bind. unfold is_byte, in_width in Hm.
  set (k := 39 + sid + (2 + n + 1 + m)). destruct (Z.ltb_spec (len hs) k); [done|]. rewrite slice_tail, ok_bind by lia.
  eapply finds_map; [apply extensions_at; [by apply Forall_drop|rewrite len_drop; lia]|]. intros s Hs. apply (name_at_drop 0 k); [lia|]. by apply (name_at_move 0 k _ s).
Qed.
(** [IndexTLSServerName] answers, and a name it finds stands at its place in the packet. *)
Lemma server_name_at b : Forall is_byte b -> len b < 65536 -> finds (name_at 0 b) (IndexTLSServerName b).
Proof.
  intros Hb Hl. unfold IndexTLSServerName, recordLayerHeaderLen. destruct (Z.ltb_spec (len b) 5); [done|]. destruct (index_ok b 0) as (t & -> & _); [done|lia|].
  rewrite ok_bind. destruct (negb _); [done|]. destruct (u16_at_ok b 3) as (n & -> & _); [done|lia..|]. rewrite ok_bind. destruct (_ <? _); [done|].
  rewrite slice_tail, ok_bind by lia. eapply finds_map; [apply handshake_at; [by apply Forall_drop|rewrite len_drop; lia]|].
  intros s Hs. apply (name_at_drop 0 5); [lia|]. by apply (name_at_move 0 5 _ s).
Qed.

(** ** The places to cut *)

(** The bytes of labels with the dots between them *)
Fixpoint span (labels : list bytes) : Z :=
  match labels with [] => 0 | [l] => len l | l :: rest => len l + 1 + span rest end.
Lemma span_cons l rest : rest <> [] -> span (l :: rest) = len l + 1 + span rest.
Proof. by destruct rest. Qed.
Lemma span_nonneg labels : 0 <= span labels.
Proof. induction labels as [|l rest IH]; [done|]. pose proof (len_nonneg l). destruct rest; [done|]. rewrite span_cons by done. lia. Qed.
Lemma split_dots_nonempty s : split_dots s <> [].
Proof. destruct s as [|b s]; [done|]. cbn. destruct (split_dots s); [done|]. by destruct (_ =? _). Qed.
Lemma split_dots_span s : span (split_dots s) = len s.
Proof.
  induction s as [|b s IH]; [done|]. cbn [split_dots]. pose proof (split_dots_nonempty s). destruct (split_dots s) as [|l ls] eqn:E; [done|].
  assert (Hl : len (b :: s) = 1 + len s) by (unfold len; cbn; lia). destruct (b =? dot).
  - rewrite span_cons by done. rewrite IH, Hl. change (len (@nil Z)) with 0. lia.
  - rewrite Hl, <-IH. destruct ls as [|l' ls]; [cbn [span]; unfold len; cbn [length]; lia|]. rewrite (span_cons (b :: l)), (span_cons l) by done. unfold len. cbn [length]. lia.
Qed.
Lemma split_dots_count s : len (split_dots s) = count_dots s + 1.
Proof.
  induction s as [|b s IH]; [done|]. cbn [split_dots]. pose proof (split_dots_nonempty s). destruct (split_dots s) as [|l ls] eqn:E; [done|].
  unfold count_dots, len in *. cbn [List.filter]. destruct (b =? dot); cbn [length] in *; lia.
Qed.

(** Increasing places from [from] on and below [till] *)
Fixpoint increasing (from till : Z) (l : list Z) : Prop :=
  match l with [] => True | i :: l => from <= i < till /\ increasing (i + 1) till l end.
Lemma increasing_from from from' till l : increasing from till l -> from' <= from -> increasing from' till l.
Proof. destruct l as [|i l]; [done|]. cbn. intros [H1 H2] H. split; [lia|done]. Qed.
Lemma increasing_till from till till' l : increasing from till l -> till <= till' -> increasing from till' l.
Proof. revert from. induction l as [|i l IH]; intros from; [done|]. cbn. intros [H1 H2] H. split; [lia|by apply IH]. Qed.

Section Cut.
Context (Intn : nat -> Z -> Z) (Intn_range : forall k n, 0 < n -> 0 <= Intn k n < n).

Lemma split_indexes_spec splits : forall k cur,
  match split_indexes Intn k splits cur with
  | Ok l => increasing cur (cur + span splits) l /\ length l = length splits
  | Err _ => False
  | Panic _ => [] ∈ splits
  end.
Proof.
  induction splits as [|split rest IH]; intros k cur; cbn [split_indexes]; [done|]. destruct (Z.leb_spec (len split) 0) as [Hz|Hz].
  { destruct split; [left|unfold len in Hz; cbn in Hz; lia]. }
  pose proof (Intn_range k (len split) Hz) as Hi. destruct (decide (rest = [])) as [->|Hne].
  - cbn. split; [lia|done].
  - rewrite bool_decide_eq_false_2 by done. specialize (IH (S k) (cur + len split + 1)).
    destruct (split_indexes Intn (S k) rest (cur + len split + 1)) as [l|e|p]; [|done|by right]. rewrite ok_bind. destruct IH as [Hl Hlen].
    rewrite span_cons by done. pose proof (span_nonneg rest). split; [|cbn [length]; lia]. cbn [increasing]. split; [lia|].
    apply (increasing_from (cur + len split + 1)); [|lia]. eapply increasing_till; [exact Hl|lia].
Qed.
Lemma span_take n splits : span (take n splits) <= span splits.
Proof.
  revert n. induction splits as [|l rest IH]; intros [|n]; [done|done|apply span_nonneg|]. cbn [take]. destruct rest as [|l' rest]; [by destruct n|].
  specialize (IH n). rewrite (span_cons l (l' :: rest)) by done. pose proof (span_nonneg (l' :: rest)). destruct n as [|n]; [change (len l <= len l + 1 + span (l' :: rest)); lia|].
  rewrite span_cons by done. lia.
Qed.
Lemma cut_indexes_spec PublicSuffix s :
  match cut_indexes Intn PublicSuffix s with
  | Ok l => increasing (sn_Index s) (sn_Index s + len (sn_ServerName s)) l /\ l <> []
  | Err _ => False
  | Panic _ => [] ∈ split_dots (sn_ServerName s)
  end.
Proof.
  unfold cut_indexes. set (name := sn_ServerName s). pose proof (split_dots_count name) as Hc. pose proof (len_nonneg (List.filter (fun b => b =? dot) name)) as Hcn. fold (count_dots name) in Hcn.
  set (chosen := if bool_decide (PublicSuffix name = []) then _ else _).
  assert (Hch : exists splits, chosen = Ok splits /\ splits <> [] /\ span splits <= len name /\ forall l, l ∈ splits -> l ∈ split_dots name).
  { unfold chosen. destruct (bool_decide _).
    - exists (split_dots name). split; [done|]. split; [apply split_dots_nonempty|]. split; [by rewrite split_dots_span|done].
    - rewrite Hc. replace (count_dots name + 1 - count_dots name) with 1 by lia. destruct (Z.leb_spec 1 (count_dots name + 1)); [|lia]. cbn [andb Z.leb].
      exists (take 1 (split_dots name)). split; [done|]. split; [pose proof (split_dots_nonempty name); by destruct (split_dots name)|].
      split; [rewrite <-(split_dots_span name); apply span_take|]. intros l Hl. by apply (subseteq_take 1). }
  destruct Hch as (splits & -> & Hne & Hspan & Hin). rewrite ok_bind. destruct ((1 <? len splits) && bool_decide (list.head splits = Some three_dots)) eqn:E.
  - apply andb_true_iff in E as [E1 E2]. apply bool_decide_eq_true in E2. destruct splits as [|l rest]; [done|]. injection E2 as ->. cbn [drop]. rewrite drop_0.
    assert (Hr : rest <> []) by (intros ->; done). rewrite span_cons in Hspan by done. change (len three_dots) with 3 in Hspan.
    pose proof (split_indexes_spec rest 0 (sn_Index s + 3 + 1)) as Hs. destruct (split_indexes Intn 0 rest _) as [l|e|p]; [|done|by apply Hin; right].
    destruct Hs as [Hs Hlen]. split; [eapply increasing_from; [eapply increasing_till; [exact Hs|lia]|lia]|]. intros ->. by destruct rest.
  - pose proof (split_indexes_spec splits 0 (sn_Index s)) as Hs. destruct (split_indexes Intn 0 splits _) as [l|e|p]; [|done|by apply Hin].
    destruct Hs as [Hs Hlen]. split; [eapply increasing_till; [exact Hs|lia]|]. intros ->. by destruct splits.
Qed.
End Cut.

(** ** The pieces *)

Lemma rest_pieces_ok b indexes : forall from, 0 <= from <= len b -> increasing from (len b) indexes ->
  exists l, rest_pieces b from indexes = Ok l /\ concat l = drop (Z.to_nat from) b /\ length l = S (length indexes).
Proof.
  induction indexes as [|i indexes IH]; intros from Hf Hi; cbn [rest_pieces].
  - rewrite slice_tail, ok_bind by lia. eexists. split; [done|]. by rewrite concat_cons, app_nil_r.
  - cbn [increasing] in Hi. destruct Hi as [H1 H2]. rewrite slice_ok, ok_bind by lia.
    destruct (IH i ltac:(lia)) as (l & -> & Hl & Hn); [apply (increasing_from (i + 1)); [done|lia]|]. rewrite ok_bind. eexists. split; [done|].
    rewrite concat_cons, Hl. split; [|cbn [length]; lia].
    replace (drop (Z.to_nat i) b) with (drop (Z.to_nat (i - from)) (drop (Z.to_nat from) b)) by (rewrite drop_drop; f_equal; lia).
    apply take_drop.
Qed.
(** The first piece ends where the first cut is. *)
Lemma pieces_ok sr b i indexes : increasing 9 (len b) (i :: indexes) ->
  exists l, pieces sr b (i :: indexes) = Ok ((if sr then drop 5 (take (Z.to_nat i) b) else take (Z.to_nat i) b) :: l) /\
    concat l = drop (Z.to_nat i) b /\ length l = S (length indexes).
Proof.
  cbn [increasing]. intros [H1 H2]. unfold pieces, recordLayerHeaderLen. rewrite slice_ok, ok_bind by lia.
  replace (i - 0) with i by lia. change (drop (Z.to_nat 0) b) with b. set (p := take _ b).
  assert (Hp : len p = i) by (unfold p, len in *; rewrite length_take; lia).
  destruct (rest_pieces_ok b indexes i ltac:(lia)) as (l & Hr & Hl & Hn); [apply (increasing_from (i + 1)); [done|lia]|].
  exists l. destruct sr; rewrite ?slice_tail by lia; rewrite ok_bind, Hr, ok_bind; done.
Qed.

(** ** The record layer of the receiver *)

(** The bytes of the content, each with the type and version of its record, and what
    is left of an unfinished record.  Fuel: a record takes five bytes. *)
Fixpoint records (fuel : nat) (s : bytes) : list (bytes * Z) * bytes :=
  match fuel with
  | O => ([], s)
  | S fuel =>
      let n := be_value (take 2 (drop 3 s)) in
      if (len s <? 5) || (len s <? 5 + n) then ([], s)
      else
        let '(c, r) := records fuel (drop (Z.to_nat (5 + n)) s) in
        (map (pair (take 3 s)) (take (Z.to_nat n) (drop 5 s)) ++ c, r)
  end.
Definition record_content (s : bytes) : list (bytes * Z) * bytes := records (length s) s.
Definition more_content (header p : bytes) (cr : list (bytes * Z) * bytes) : list (bytes * Z) * bytes :=
  (map (pair header) p ++ cr.1, cr.2).

Lemma be_value_nonneg l : Forall is_byte l -> 0 <= be_value l.
Proof.
  induction l as [|b l IH] using rev_ind; [done|]. intros H. apply list.Forall_app in H as [Hl Hb]. apply (Forall_singleton is_byte) in Hb.
  rewrite be_value_app. specialize (IH Hl). unfold is_byte, in_width in Hb. lia.
Qed.
Lemma records_fuel fuel : forall fuel' s, Forall is_byte s -> (length s <= fuel)%nat -> (length s <= fuel')%nat -> records fuel s = records fuel' s.
Proof.
  induction fuel as [|fuel IH]; intros [|fuel'] s Hb Hf Hf'; [done|destruct s; [done|cbn in Hf; lia]|destruct s; [done|cbn in Hf'; lia]|].
  cbn [records]. pose proof (be_value_nonneg (take 2 (drop 3 s)) ltac:(by apply Forall_take, Forall_drop)) as Hn.
  destruct (Z.ltb_spec (len s) 5) as [|H5]; [done|]. cbn [orb]. destruct (_ <? _); [done|].
  rewrite (IH fuel'); [done|by apply Forall_drop|rewrite length_drop; unfold len in *; lia..].
Qed.
(** A record in front adds its content. *)
Lemma record_content_cons header p rest : Forall is_byte (header ++ p ++ rest) -> len header = 3 -> len p < 65536 ->
  record_content (header ++ be_bytes 2 (len p) ++ p ++ rest) = more_content header p (record_content rest).
Proof.
  intros Hb Hh Hp. apply list.Forall_app in Hb as [Hb1 Hb]. apply list.Forall_app in Hb as [Hb2 Hb3]. pose proof (len_nonneg p). pose proof (len_nonneg rest).
  unfold record_content. set (s := header ++ _). assert (Hl : len s = 5 + len p + len rest) by (unfold s; rewrite !len_app, len_be; lia).
  assert (Hbs : Forall is_byte s) by (unfold s; rewrite !list.Forall_app; split; [done|]; split; [apply be_bytes_bytes|done]).
  destruct (length s) as [|fuel] eqn:Hf; [unfold len in Hl; lia|]. cbn [records].
  assert (Hh' : length header = 3%nat) by (unfold len in Hh; lia).
  assert (H3 : take 3 s = header) by (unfold s; rewrite <-Hh'; apply take_app_length).
  assert (Hd3 : drop 3 s = be_bytes 2 (len p) ++ p ++ rest) by (unfold s; rewrite <-Hh'; apply drop_app_length).
  assert (Hn : be_value (take 2 (drop 3 s)) = len p).
  { rewrite Hd3. rewrite (take_app_length' (be_bytes 2 (len p))) by (by rewrite be_bytes_length). apply be_value_bytes. cbn. lia. }
  assert (Hd5 : drop 5 s = p ++ rest).
  { replace (drop 5 s) with (drop 2 (drop 3 s)) by (by rewrite drop_drop). rewrite Hd3. apply drop_app_length'. by rewrite be_bytes_length. }
  rewrite Hn, H3, Hd5. destruct (Z.ltb_spec (len s) 5); [lia|]. destruct (Z.ltb_spec (len s) (5 + len p)); [lia|]. cbn [orb].
  replace (take (Z.to_nat (len p)) (p ++ rest)) with p by (unfold len; by rewrite Nat2Z.id, take_app_length).
  replace (drop (Z.to_nat (5 + len p)) s) with rest.
  2: { replace (Z.to_nat (5 + len p)) with (5 + length p)%nat by (unfold len; lia). rewrite <-drop_drop, Hd5. by rewrite drop_app_length. }
  rewrite (records_fuel fuel (length rest)); [|done|unfold len in *; lia|done]. by destruct (records _ _).
Qed.

(** The packet is one record. *)
Definition one_record (b : bytes) : Prop := u16_at b 3 = Ok (len b - 5).
Lemma one_record_bytes b : Forall is_byte b -> 5 <= len b -> one_record b -> b = take 3 b ++ be_bytes 2 (len (drop 5 b)) ++ drop 5 b.
Proof.
  intros Hb Hl Hr. destruct b as [|b0 [|b1 [|b2 [|x [|y p]]]]]; try (unfold len in Hl; cbn in Hl; lia).
  unfold one_record in Hr. change (u16_at _ 3) with (Ok (Z.lor (Z.shiftl x 8) y)) in Hr. cbn [take drop app]. rewrite drop_0.
  apply (Forall_drop _ 3) in Hb. cbn [drop] in Hb. apply list.Forall_cons in Hb as [Hx Hb]. apply list.Forall_cons in Hb as [Hy _].
  injection Hr as Hr. rewrite u16_join in Hr by done. replace (len p) with (x * 256 + y) by (unfold len in *; cbn [length] in Hr; lia).
  change (be_bytes 2 (x * 256 + y)) with [(x * 256 + y) / 256 mod 256; (x * 256 + y) mod 256]. unfold is_byte, in_width in *. rewrite Z.div_add_l, (Z.div_small y), Z.add_0_r by lia. rewrite (Z.mod_small x) by lia.
  rewrite Z.add_comm, Z.mod_add, Z.mod_small by lia. done.
Qed.
(** Records around the pieces have the content of a record around the whole. *)
Lemma frames_content b rest l : Forall is_byte (take 3 b) -> Forall is_byte rest -> 3 <= len b -> Forall (Forall is_byte) l -> Forall (fun p => len p < 65536) l ->
  record_content (concat (map (record_frame b) l) ++ rest) = more_content (take 3 b) (concat l) (record_content rest).
Proof.
  intros Hh Hr H3. assert (Hlen : len (take 3 b) = 3) by (unfold len in *; rewrite length_take; lia).
  induction l as [|p l IH]; intros Hb Hl; [unfold more_content; cbn [map concat app]; by destruct (record_content rest)|].
  apply list.Forall_cons in Hb as [Hp Hb]. apply list.Forall_cons in Hl as [Hpl Hl]. cbn [map concat]. pose proof (len_nonneg p). unfold record_frame at 1, u16, wrap.
  rewrite Z.mod_small by lia. rewrite <-!app_assoc.
  assert (Hbytes : Forall is_byte (concat (map (record_frame b) l) ++ rest)).
  { apply list.Forall_app. split; [|done]. apply Forall_concat, Forall_map. eapply Forall_impl; [|exact Hb]. intros q Hq. unfold record_frame.
    rewrite !list.Forall_app. split; [done|]. split; [apply (be_bytes_bytes 2)|done]. }
  rewrite record_content_cons; [|apply list.Forall_app; split; [done|by apply list.Forall_app]|done|done]. rewrite IH by done. unfold more_content. cbn [fst snd]. by rewrite map_app, <-app_assoc.
Qed.

(** ** What a write sends *)

(** What the connection below promises, in terms of the segments it has sent: a write
    that succeeds sends all its bytes, one that fails sends some of them; nothing
    panics. *)
Class PeerOk (W : Type) {PE : Peer W} := {
  segments : W -> list bytes;
  delivers (b : bytes) (w : W) (x : Res unit * W) : Prop :=
    match x with
    | (Ok _, w') => segments w' = segments w ++ [b]
    | (Err _, w') => exists k, segments w' = segments w ++ [take k b]
    | (Panic _, _) => False
    end;
  write_delivers : forall b w, delivers b w (peer_Write b w);
  wait_delivers : forall b w, delivers b w (writeAndWaitAck b w);
  delay_quiet : forall v w, let '(r, w') := SetNoDelay v w in segments w' = segments w /\ forall p, r <> Panic p
}.

Section Sent.
Context {W : Type} {PE : Peer W} {PO : PeerOk W}.

(** Segments that carry a stream, or a part of it when there was an error *)
Definition sends (stream : bytes) (w : W) (r : Res unit) (w' : W) : Prop :=
  match r with
  | Ok _ => exists out, segments w' = segments w ++ out /\ concat out = stream
  | Err _ => exists out, segments w' = segments w ++ out /\ concat out `prefix_of` stream
  | Panic _ => False
  end.
Lemma delivers_sends b w x : delivers b w x -> sends b w x.1 x.2.
Proof.
  destruct x as [[u|e|p] w']; cbn; [|intros [k Hk]|done].
  - intros H. exists [b]. split; [done|]. by rewrite concat_cons, app_nil_r.
  - exists [take k b]. split; [done|]. rewrite concat_cons, app_nil_r. exists (drop k b). by rewrite take_drop.
Qed.
Lemma sends_nothing w : sends [] w (Ok tt) w.
Proof. exists []. by rewrite app_nil_r. Qed.
Lemma sends_then s1 s2 w1 w2 w3 r : sends s1 w1 (Ok tt) w2 -> sends s2 w2 r w3 -> sends (s1 ++ s2) w1 r w3.
Proof.
  intros (o1 & H1 & <-) H2. destruct r as [v|e|p]; [destruct H2 as (o2 & H2 & Hs)..|done]; exists (o1 ++ o2); rewrite H2, H1, app_assoc; (split; [done|]); rewrite concat_app.
  - by rewrite Hs.
  - by apply prefix_app.
Qed.
Lemma sends_stop s1 s2 w1 e w2 : sends s1 w1 (Err e) w2 -> sends (s1 ++ s2) w1 (Err e) w2.
Proof. intros (o & Ho & Hp). exists o. split; [done|]. by apply prefix_app_r. Qed.
Lemma delay_sends v w : let '(r, w') := SetNoDelay v w in sends [] w r w'.
Proof.
  pose proof (delay_quiet v w) as H. destruct (SetNoDelay v w) as [r w']. destruct H as [H Hp].
  destruct r as [u|e|p]; [..|by destruct (Hp p)]; exists []; by rewrite app_nil_r.
Qed.

Lemma send_pieces_sends tcp l w : let '(r, w') := send_pieces tcp l w in sends (concat l) w r w'.
Proof.
  revert w. induction l as [|p l IH]; intros w; [apply sends_nothing|]. cbn [send_pieces]. destruct l as [|p' l].
  { rewrite concat_cons, app_nil_r. pose proof (delivers_sends _ _ _ (write_delivers p w)) as H. by destruct (peer_Write p w). }
  rewrite concat_cons. set (x := if tcp then _ else _).
  assert (Hx : sends p w x.1 x.2) by (unfold x; destruct tcp; apply delivers_sends; [apply wait_delivers|apply write_delivers]).
  destruct x as [[u|e|q] w1]; cbn in Hx; [|by apply sends_stop|done].
  specialize (IH w1). destruct (send_pieces tcp (p' :: l) w1) as [r w2]. by eapply sends_then.
Qed.
Lemma send_fragments_sends c b l w : splitPacket c || splitRecord c = true ->
  let '(r, w') := send_fragments c b l w in sends (concat (if splitRecord c then map (record_frame b) l else l)) w r w'.
Proof.
  intros Hc. unfold send_fragments. set (payloads := if splitRecord c then _ else _).
  assert (Hend : forall w1, sends (concat payloads) w (Ok tt) w1 ->
    let '(r, w') := if hasTCPConn c then SetNoDelay false w1 else (Ok tt, w1) in sends (concat payloads) w r w').
  { intros w1 H1. rewrite <-(app_nil_r (concat payloads)). destruct (hasTCPConn c).
    - pose proof (delay_sends false w1) as Hd. destruct (SetNoDelay false w1) as [r w2]. by eapply sends_then.
    - eapply sends_then; [exact H1|apply sends_nothing]. }
  destruct (splitPacket c) eqn:Ep; cbn [negb andb].
  - pose proof (send_pieces_sends (hasTCPConn c) payloads w) as H. destruct (send_pieces _ payloads w) as [[u|e|q] w1]; [|done|done].
    rewrite andb_false_r. by eapply Hend.
  - cbn [orb] in Hc. rewrite Hc. cbn [andb]. pose proof (delivers_sends _ _ _ (write_delivers (concat payloads) w)) as H.
    destruct (peer_Write (concat payloads) w) as [[u|e|q] w1]; [|done|done]. by eapply Hend.
Qed.
End Sent.
