(* ===== verification/TlsFragmentWrite.v ===== *)
(** * Fragmented client hellos: what a write promises

    A write sends the packet it is given: the same bytes, or records with the same
    content.  It panics only on a server name with an empty label, and after an error
    only a part of the packet has been sent. *)

From stdpp Require Import base numbers list strings option.
From Stdlib Require Import ZArith Lia.
From S2P Require Import Prelude Bytes Ja3 TlsFragment.

Local Open Scope Z_scope.

(** A stream the other side reads as the packet *)
Definition carries (c : Conn) (b stream : bytes) : Prop :=
  (splitRecord c = false -> stream = b) /\
  (splitRecord c = true -> one_record b -> forall rest, Forall is_byte rest -> record_content (stream ++ rest) = record_content (b ++ rest)).
Lemma carries_same c b : carries c b b.
Proof. by split. Qed.

Section Writes.
Context {W : Type} {PE : Peer W} {PO : PeerOk W}.
Context (Intn : nat -> Z -> Z) (Intn_range : forall k n, 0 < n -> 0 <= Intn k n < n) (PublicSuffix : bytes -> bytes).

(** The places to cut are in the packet, and so are the pieces. *)
Lemma cut_pieces sr b s : name_at 0 b s ->
  match indexes ← cut_indexes Intn PublicSuffix s; pieces sr b indexes with
  | Ok l => concat l = if sr then drop 5 b else b
  | Err _ => False
  | Panic _ => [] ∈ split_dots (sn_ServerName s)
  end.
Proof.
  intros [H9 Hl _]. pose proof (cut_indexes_spec Intn Intn_range PublicSuffix s) as Hc. destruct (cut_indexes Intn PublicSuffix s) as [idx|e|p]; [|done..].
  destruct Hc as [Hi Hne]. rewrite ok_bind. destruct idx as [|i idx]; [done|].
  assert (H : increasing 9 (len b) (i :: idx)) by (eapply increasing_till, Hl; eapply increasing_from; done).
  destruct (pieces_ok sr b i idx H) as (l & -> & Hd & _). rewrite concat_cons, Hd. destruct H as [Hr _]. destruct sr; [|apply take_drop].
  rewrite <-(take_drop (Z.to_nat i) b) at 3. rewrite drop_app_le; [done|]. rewrite length_take. unfold len in *. lia.
Qed.
Lemma framed_carries c b l : Forall is_byte b -> 5 <= len b < 65536 -> splitRecord c = true -> concat l = drop 5 b -> carries c b (concat (map (record_frame b) l)).
Proof.
  intros Hb Hl Hc Hp. split; [by rewrite Hc|]. intros _ Hr rest Hrest.
  assert (Hall : Forall is_byte (concat l)) by (rewrite Hp; by apply Forall_drop).
  assert (Hpb : Forall (Forall is_byte) l) by (by apply Forall_concat).
  assert (Hpl : Forall (fun p => len p < 65536) l).
  { apply list.Forall_forall. intros p Hin. apply list_elem_of_split in Hin as (l1 & l2 & ->).
    assert (length (concat (l1 ++ p :: l2)) = length (drop 5 b)) as Hlen by (by rewrite Hp). rewrite concat_app, concat_cons, !length_app, length_drop in Hlen. unfold len in *. lia. }
  rewrite frames_content by (try apply Forall_take; done || lia). rewrite Hp. rewrite (one_record_bytes b) at 3 by (done || lia). rewrite <-!app_assoc.
  assert (len (take 3 b) = 3) by (unfold len in *; rewrite length_take; lia). rewrite record_content_cons; [done| |done|rewrite (len_drop 5); lia].
  rewrite !list.Forall_app. split; [by apply Forall_take|]. split; [by apply Forall_drop|done].
Qed.

(** What one write does with the packet [b] *)
Definition write_outcome (c : Conn) (b : bytes) (w : W) (r : Res Z) (c' : Conn) (w' : W) : Prop :=
  c' = mkConn true (splitPacket c) (splitRecord c) (hasTCPConn c) /\
  match r with
  | Ok n => n = len b /\ exists stream, sends stream w (Ok tt) w' /\ carries c b stream
  | Err e => exists stream, sends stream w (Err e) w' /\ carries c b stream
  | Panic _ => exists s, IndexTLSServerName b = Ok (Some s) /\ [] ∈ split_dots (sn_ServerName s)
  end.
Lemma outcome_sends c b w stream r c' w' : c' = mkConn true (splitPacket c) (splitRecord c) (hasTCPConn c) -> carries c b stream -> sends stream w r w' ->
  write_outcome c b w (written r b) c' w'.
Proof. intros -> Hc Hs. split; [done|]. destruct r as [[]|e|p]; [split; [done|]; by exists stream|by exists stream|done]. Qed.
Lemma plain_outcome c b w c' : c' = mkConn true (splitPacket c) (splitRecord c) (hasTCPConn c) ->
  write_outcome c b w (written (peer_Write b w).1 b) c' (peer_Write b w).2.
Proof. intros Hc. eapply outcome_sends; [done|apply carries_same|]. apply delivers_sends, write_delivers. Qed.

Lemma Conn_Write_outcome c b w r c' w' :
  splitPacket c || splitRecord c = true -> Forall is_byte b -> len b < 65536 -> Conn_Write Intn PublicSuffix c b w = (r, c', w') -> write_outcome c b w r c' w'.
Proof.
  intros Hc Hb Hl. unfold Conn_Write. destruct (firstPacketWritten c) eqn:Ef.
  { pose proof (plain_outcome c b w c) as H. destruct (peer_Write b w). intros [= <- <- <-]. apply H. destruct c; cbn in *; by subst. }
  pose proof (server_name_at b Hb Hl) as Hn. destruct (IndexTLSServerName b) as [[s|]|e|p] eqn:Es; [| |done..]; cbn [finds] in Hn.
  2: { pose proof (plain_outcome c b w _ eq_refl) as H. destruct (peer_Write b w). by intros [= <- <- <-]. }
  set (x := if splitPacket c && hasTCPConn c then _ else _).
  assert (Hx : sends [] w x.1 x.2) by (unfold x; destruct (_ && _); [pose proof (delay_sends true w); by destruct (SetNoDelay true w)|apply sends_nothing]).
  destruct x as [[[]|e|p] w1]; [|intros [= <- <- <-]|done].
  2: { split; [done|]. exists b. split; [apply (sends_stop [] b); exact Hx|apply carries_same]. }
  pose proof (cut_pieces (splitRecord c) b s Hn) as Hp. destruct (indexes ← cut_indexes Intn PublicSuffix s; pieces (splitRecord c) b indexes) as [l|e|p]; [|done|].
  2: { intros [= <- <- <-]. split; [done|]. by exists s. }
  pose proof (send_fragments_sends c b l w1 Hc) as Hs. destruct (send_fragments c b l w1) as [r1 w2]. intros [= <- <- <-].
  eapply outcome_sends; [done| |exact (sends_then [] _ _ _ _ _ Hx Hs)]. destruct Hn as [H9 Hi _]. pose proof (len_nonneg (sn_ServerName s)). cbn [app].
  destruct (splitRecord c) eqn:Er; [by apply framed_carries; [done|lia|..]|]. rewrite Hp. apply carries_same.
Qed.

(** Packets written one after the other, until one fails *)
Fixpoint write_all (c : Conn) (packets : list bytes) (w : W) : Res unit * Conn * W :=
  match packets with
  | [] => (Ok tt, c, w)
  | b :: packets =>
      let '(r, c, w) := Conn_Write Intn PublicSuffix c b w in
      match r with Ok _ => write_all c packets w | Err e => (Err e, c, w) | Panic p => (Panic p, c, w) end
  end.
Lemma write_all_plain packets : forall c w w' c', firstPacketWritten c = true -> write_all c packets w = (Ok tt, c', w') -> sends (concat packets) w (Ok tt) w'.
Proof.
  induction packets as [|b packets IH]; intros c w w' c' Hc; cbn [write_all]; [intros [= _ <-]; apply sends_nothing|].
  unfold Conn_Write. rewrite Hc. pose proof (delivers_sends b w _ (write_delivers b w)) as Hd. destruct (peer_Write b w) as [[[]|e|p] w1]; [|done..].
  intros H. rewrite concat_cons. eapply sends_then; [exact Hd|by eapply IH].
Qed.

(** C31: Cutting the client hello does not change what the other side reads.  Whatever
    packets are written one after the other, however the random places fall and
    whatever the public suffix list says, once all the writes have succeeded the
    segments that were sent carry exactly the packets' bytes when only segments are
    cut; when records are cut too and the first packet is one TLS record, the record
    layer of the other side reads from them the same content, with the same type and
    version on every byte, and keeps the same unfinished bytes, as from the packets
    themselves. *)
Theorem fragmented_stream_preserved packets first c w c' w' :
  splitPacket c || splitRecord c = true -> Forall is_byte first -> len first < 65536 -> Forall (Forall is_byte) packets ->
  write_all c (first :: packets) w = (Ok tt, c', w') ->
  exists out, segments w' = segments w ++ out /\
    (splitRecord c = false -> concat out = concat (first :: packets)) /\
    (splitRecord c = true -> one_record first -> record_content (concat out) = record_content (concat (first :: packets))).
Proof.
  intros Hc Hb Hl Hbs. cbn [write_all]. destruct (Conn_Write Intn PublicSuffix c first w) as [[r c1] w1] eqn:E. apply Conn_Write_outcome in E as [-> Ho]; [|done..].
  destruct r as [n|e|p]; [|done..]. intros H. apply write_all_plain in H; [|done]. destruct Ho as (_ & stream & Hs & Hsame & Hrec).
  destruct (sends_then _ _ _ _ _ _ Hs H) as (out & Ho & He). exists out. split; [done|]. rewrite He, concat_cons. split.
  - intros Hr. by rewrite Hsame.
  - intros Hr H1. apply Hrec; [done|done|]. by apply Forall_concat.
Qed.

(** C32: A write of the first packet has one of three outcomes.  It returns the length
    of the packet and the packet has been sent (as above); it returns an error and
    what was sent is a prefix of what a success would have sent, never anything else;
    or it panics, and then the client hello's server name has an empty label, an empty
    name among them, for which [rand.Intn(0)] is called.  In every case the packet
    counts as written and the next ones are sent as they are. *)
Theorem fragmented_write_outcomes c b w : splitPacket c || splitRecord c = true -> Forall is_byte b -> len b < 65536 ->
  exists r w', Conn_Write Intn PublicSuffix c b w = (r, mkConn true (splitPacket c) (splitRecord c) (hasTCPConn c), w') /\
    match r with
    | Ok n => n = len b /\ exists out, segments w' = segments w ++ out /\ carries c b (concat out)
    | Err e => exists out stream, segments w' = segments w ++ out /\ concat out `prefix_of` stream /\ carries c b stream
    | Panic _ => exists s, IndexTLSServerName b = Ok (Some s) /\ [] ∈ split_dots (sn_ServerName s)
    end.
Proof.
  intros Hc Hb Hl. destruct (Conn_Write Intn PublicSuffix c b w) as [[r c'] w'] eqn:E. apply Conn_Write_outcome in E as [-> Ho]; [|done..].
  exists r, w'. split; [done|]. destruct r as [n|e|p]; [|destruct Ho as (stream & (out & H1 & H2) & H3); by exists out, stream|done].
  destruct Ho as (Hn & stream & (out & H1 & <-) & H3). split; [done|]. by exists out.
Qed.
End Writes.
