(* ===== verification/TlsFragmentHello.v ===== *)
(** * Fragmented client hellos: the name is found and cut

    The server name of a client hello is found at its place in the record, and the
    first segment of a fragmented client hello ends inside it. *)

From stdpp Require Import base numbers list strings option.
From Stdlib Require Import ZArith Lia.
From S2P Require Import Prelude Bytes Ja3 TlsFragment TlsFragmentWrite.

Local Open Scope Z_scope.

(** ** The search follows the layout of a client hello *)

(** The header of an extension *)
Lemma ext_header x tail : ext_fits x -> let exs := ext_bytes x ++ tail in
  u16_at exs 0 = Ok (ext_type x) /\ u16_at exs 2 = Ok (len (ext_data x)) /\ len exs = 4 + len (ext_data x) + len tail /\
  slice exs 4 (4 + len (ext_data x)) = Ok (ext_data x) /\ slice exs (4 + len (ext_data x)) (len exs) = Ok tail.
Proof.
  intros Hx exs. pose proof (len_nonneg (ext_data x)). pose proof (len_nonneg tail). assert (Hw : in_width 16 (len (ext_data x))) by (unfold in_width; pose proof (proj2 Hx); lia).
  assert (Hlen : len exs = 4 + len (ext_data x) + len tail) by (unfold exs; by rewrite len_app, len_ext_bytes).
  split. { unfold exs, ext_bytes. rewrite <-!app_assoc. by apply (u16_at_app []), ext_type_width. }
  split. { unfold exs, ext_bytes. rewrite <-!app_assoc. by apply (u16_at_app (be_bytes 2 (ext_type x))). }
  split; [done|]. split; [|unfold exs; rewrite <-len_ext_bytes; apply slice_after].
  rewrite slice_ok by lia. f_equal. unfold exs, ext_bytes. rewrite <-!app_assoc, app_assoc. change (Z.to_nat 4) with 4%nat.
  rewrite (drop_app_length' (be_bytes 2 (ext_type x) ++ _)) by (by rewrite length_app, !be_bytes_length). apply take_app_length'. unfold len. lia.
Qed.
(** Extensions without the server name are passed over. *)
Lemma index_extensions_skip pre : Forall ext_fits pre -> Forall (fun x => ext_type x <> sniExtensionType) pre -> forall fuel tail cur,
  (length pre <= fuel)%nat -> len (exts_bytes pre) < 65536 ->
  index_extensions fuel (exts_bytes pre ++ tail) cur = index_extensions (fuel - length pre) tail (cur + len (exts_bytes pre)).
Proof.
  unfold exts_bytes. induction 1 as [|x pre Hx Hpre IH]; intros Hs fuel tail cur Hf Hl.
  { cbn [map concat length app]. change (len []) with 0. by rewrite Nat.sub_0_r, Z.add_0_r. }
  apply list.Forall_cons in Hs as [Hxs Hs]. destruct fuel as [|fuel]; [cbn in Hf; lia|]. cbn [map concat] in *. rewrite <-app_assoc. cbn [index_extensions length Nat.sub].
  rewrite len_app, len_ext_bytes in Hl. pose proof (len_nonneg (ext_data x)). pose proof (len_nonneg (concat (map ext_bytes pre))). pose proof (len_nonneg tail).
  destruct (ext_header x (concat (map ext_bytes pre) ++ tail) Hx) as (Ha & Hb & Hc & Hd & He). rewrite (len_app (concat _)) in Hc. set (exs := ext_bytes x ++ _) in *.
  unfold extensionHeaderLen. destruct (Z.leb_spec (len exs) 0); [lia|]. destruct (Z.ltb_spec (len exs) 4); [lia|]. rewrite Ha, Hb, !ok_bind.
  destruct (Z.ltb_spec (len exs) (4 + len (ext_data x))); [lia|]. rewrite Hd, ok_bind, (proj2 (Z.eqb_neq _ _)) by done. unfold wrap. rewrite Z.mod_small, He, ok_bind by lia.
  rewrite IH by (done || lia || (cbn in Hf; lia)). f_equal. rewrite len_app, len_ext_bytes. lia.
Qed.
(** The server name is found. *)
Lemma index_extensions_name fuel name tail cur : ext_fits (X_ServerName name) -> (0 < fuel)%nat ->
  index_extensions fuel (ext_bytes (X_ServerName name) ++ tail) cur =
  Ok (Some (mkMyServerName (cur + 4 + 5) (len (string_bytes name)) (string_bytes name) 0)).
Proof.
  intros Hx Hf. destruct fuel as [|fuel]; [lia|]. cbn [index_extensions]. destruct (ext_header _ tail Hx) as (Ha & Hb & Hc & He & _). destruct Hx as [_ Hl].
  set (x := X_ServerName name) in *. set (exs := ext_bytes x ++ tail) in *. set (n := string_bytes name) in *. pose proof (len_nonneg tail). pose proof (len_nonneg n).
  assert (Hd : ext_data x = be_bytes 2 (len n + 3) ++ [sniNameDNSHostnameType] ++ be_bytes 2 (len n) ++ n) by done.
  assert (Hdl : len (ext_data x) = 5 + len n) by (rewrite Hd, !len_app, !len_be, len_one; lia).
  unfold extensionHeaderLen. destruct (Z.leb_spec (len exs) 0); [lia|]. destruct (Z.ltb_spec (len exs) 4); [lia|]. rewrite Ha, Hb, !ok_bind.
  destruct (Z.ltb_spec (len exs) (4 + len (ext_data x))); [lia|]. rewrite He, ok_bind. cbn [ext_type x]. rewrite Z.eqb_refl. unfold sniExtensionHeaderLen.
  destruct (Z.ltb_spec (len (ext_data x)) 5); [lia|].
  assert (Ht : index (ext_data x) 2 = Ok sniNameDNSHostnameType) by (rewrite Hd; apply (index_app (be_bytes 2 (len n + 3)))). rewrite Ht, ok_bind, Z.eqb_refl. cbn [negb].
  assert (Hn : u16_at (ext_data x) 3 = Ok (len n)).
  { rewrite Hd, app_assoc. pose proof (u16_at_app (be_bytes 2 (len n + 3) ++ [sniNameDNSHostnameType]) (len n) n) as Hu. apply Hu. unfold in_width. lia. }
  rewrite Hn, ok_bind.
  assert (Hs : slice (ext_data x) 5 (len (ext_data x)) = Ok n).
  { rewrite Hd, !app_assoc. apply (slice_after ((be_bytes 2 (len n + 3) ++ [sniNameDNSHostnameType]) ++ be_bytes 2 (len n)) n). }
  by rewrite Hs, ok_bind.
Qed.

(** A client hello whose first server name extension holds [name] *)
Record names (h : Hello) (name : string) (pre post : list Extension) : Prop := {
  nm_fits : hello_fits h;
  nm_extensions : hl_extensions h = pre ++ X_ServerName name :: post;
  nm_first : Forall (fun x => ext_type x <> sniExtensionType) pre
}.
Lemma index_hello_exts h name pre post : names h name pre post -> len (hello_exts h) < 65536 ->
  indexTLSServerNameFromExtensions (hello_exts h) =
    Ok (Some (mkMyServerName (2 + len (exts_bytes pre) + 4 + 5) (len (string_bytes name)) (string_bytes name) 0)).
Proof.
  intros [Hh He Hp] Hl. pose proof (hf_extensions h Hh) as Hf. rewrite He in Hf. apply list.Forall_app in Hf as [Hfp Hf]. apply list.Forall_cons in Hf as [Hfn _].
  unfold indexTLSServerNameFromExtensions, hello_exts in *. destruct (hl_extensions h) as [|x xs] eqn:E; [by destruct pre|]. rewrite He in *. clear x xs He E.
  set (xs := pre ++ _) in *. set (b := exts_bytes xs) in *. rewrite len_app, len_be in *. pose proof (len_nonneg b).
  destruct (Z.eqb_spec (Z.of_nat 2 + len b) 0); [lia|]. unfold extensionsHeaderLen. destruct (Z.ltb_spec (Z.of_nat 2 + len b) 2); [lia|].
  pose proof (u16_at_app [] (len b) b ltac:(unfold in_width; lia)) as Ha. cbn [app] in Ha. change (len []) with 0 in Ha. rewrite Ha, ok_bind.
  replace (Z.of_nat 2 + len b) with (len (be_bytes 2 (len b) ++ b)) by (by rewrite len_app, len_be).
  pose proof (slice_after (be_bytes 2 (len b)) b) as Hb. rewrite len_be in Hb. change (Z.of_nat 2) with 2 in Hb. rewrite Hb, ok_bind.
  destruct (Z.ltb_spec (len b) (len b)); [lia|].
  assert (Hx : b = exts_bytes pre ++ ext_bytes (X_ServerName name) ++ exts_bytes post).
  { unfold b, xs, exts_bytes. by rewrite map_app, concat_app. }
  pose proof (exts_count pre) as Hc. pose proof (len_ext_bytes (X_ServerName name)) as Hn. pose proof (len_nonneg (ext_data (X_ServerName name))).
  assert (Hbl : len b = len (exts_bytes pre) + len (ext_bytes (X_ServerName name)) + len (exts_bytes post)) by (rewrite Hx, !len_app; lia).
  pose proof (len_nonneg (exts_bytes post)). rewrite Hx, index_extensions_skip; [|done|done|rewrite <-Hx; unfold len in *; lia|lia].
  apply index_extensions_name; [done|]. rewrite <-Hx. unfold len in *. lia.
Qed.

Lemma index_hello_handshake h name pre post : names h name pre post ->
  exists s, indexTLSServerNameFromHandshake (hello_handshake h) = Ok (Some s) /\ sn_ServerName s = string_bytes name.
Proof.
  intros Hn. pose proof (nm_fits _ _ _ _ Hn) as Hh. destruct (hello_handshake_fields h Hh) as [Hlen Hty (a & b & c & Ha & Hb & Hc' & Hval) Hver Hsess Hslice].
  pose proof (hf_length h Hh) as Hl. destruct (hf_version h Hh) as [_ Hs]. pose proof (len_nonneg (hl_session h)). pose proof (len_nonneg (hl_ciphers h)).
  pose proof (len_nonneg (hl_compression h)). pose proof (len_nonneg (hello_exts h)). pose proof (len_hello_ciphers h) as Hcl.
  unfold indexTLSServerNameFromHandshake, handshakeHeaderLen, randomDataLen, sessionIDHeaderLen, cipherSuiteHeaderLen, compressMethodHeaderLen. change (6 + 32 + 1) with 39.
  destruct (Z.ltb_spec (len (hello_handshake h)) 39); [lia|]. rewrite Hty, Ha, Hb, Hc', !ok_bind, Z.eqb_refl. cbn [negb].
  rewrite slice_tail, ok_bind, len_drop, Hval, Z.eqb_refl by lia. cbn [negb]. rewrite Hver, ok_bind, Hs. cbn [negb]. rewrite Hsess, ok_bind.
  destruct (Z.ltb_spec (len (hello_handshake h)) (39 + len (hl_session h))); [lia|]. rewrite Hslice, ok_bind.
  destruct (hello_ciphers_fields h ltac:(lia)) as (Hca & Hcb & Hce). set (n := 2 * len (hl_ciphers h)) in *.
  destruct (Z.ltb_spec (len (hello_ciphers h)) 2); [lia|]. rewrite Hca, ok_bind. destruct (Z.ltb_spec (len (hello_ciphers h)) (2 + n + 1)); [lia|]. rewrite Hcb, ok_bind.
  destruct (Z.ltb_spec (len (hello_handshake h)) (39 + len (hl_session h) + (2 + n + 1 + len (hl_compression h)))); [lia|].
  assert (He : slice (hello_handshake h) (39 + len (hl_session h) + (2 + n + 1 + len (hl_compression h))) (len (hello_handshake h)) = Ok (hello_exts h)).
  { rewrite slice_tail in Hslice |- * by lia. rewrite slice_tail in Hce by lia. injection Hslice as Hslice. injection Hce as Hce. rewrite <-Hce, <-Hslice, drop_drop. do 2 f_equal. lia. }
  rewrite He, ok_bind, (index_hello_exts h name pre post) by (done || lia). rewrite ok_bind. by eexists.
Qed.
Lemma index_hello h name pre post : names h name pre post ->
  exists s, IndexTLSServerName (hello_record h) = Ok (Some s) /\ sn_ServerName s = string_bytes name.
Proof.
  intros Hn. destruct (index_hello_handshake h name pre post Hn) as (s & Hs & Hname). pose proof (hf_length h (nm_fits _ _ _ _ Hn)) as Hl.
  pose proof (len_nonneg (hello_handshake h)). unfold IndexTLSServerName, recordLayerHeaderLen.
  assert (Hlen : len (hello_record h) = 5 + len (hello_handshake h)) by (unfold hello_record; rewrite !len_app, len_be; change (len [_; _; _]) with 3; lia).
  destruct (Z.ltb_spec (len (hello_record h)) 5); [lia|]. change (index (hello_record h) 0) with (Ok contentType). rewrite ok_bind, Z.eqb_refl. cbn [negb].
  assert (Hu : u16_at (hello_record h) 3 = Ok (len (hello_handshake h))) by (apply (u16_at_app [contentType; 3; 3]); unfold in_width; lia).
  rewrite Hu, ok_bind. destruct (Z.ltb_spec (len (hello_record h)) (5 + len (hello_handshake h))); [lia|].
  pose proof (slice_after ([contentType; 3; 3] ++ be_bytes 2 (len (hello_handshake h))) (hello_handshake h)) as Hsl. rewrite <-app_assoc in Hsl.
  change (slice (hello_record h) 5 (len (hello_record h)) = Ok (hello_handshake h)) in Hsl. rewrite Hsl, ok_bind, Hs, ok_bind. by eexists.
Qed.

(** ** The first segment ends in the name *)

Section Cut.
Context {W : Type} {PE : Peer W} {PO : PeerOk W}.
Context (Intn : nat -> Z -> Z) (Intn_range : forall k n, 0 < n -> 0 <= Intn k n < n) (PublicSuffix : bytes -> bytes).

(** A connection whose writes succeed *)
Record healthy : Prop := {
  healthy_write : forall b w, exists w', peer_Write b w = (Ok tt, w');
  healthy_wait : forall b w, exists w', writeAndWaitAck b w = (Ok tt, w');
  healthy_delay : forall v w, exists w', SetNoDelay v w = (Ok tt, w')
}.
Context (Hhealthy : healthy).

Lemma delay_succeeds on v w : exists w', (if on : bool then SetNoDelay v w else (Ok tt, w)) = (Ok tt, w') /\ segments w' = segments w.
Proof.
  destruct on; [|by exists w]. destruct (healthy_delay Hhealthy v w) as (w' & E). exists w'. split; [done|]. pose proof (delay_quiet v w) as H. rewrite E in H. apply H.
Qed.
Lemma write_succeeds (tcp : bool) p w : exists w', (if tcp then writeAndWaitAck p w else peer_Write p w) = (Ok tt, w') /\ segments w' = segments w ++ [p].
Proof.
  destruct tcp.
  - destruct (healthy_wait Hhealthy p w) as (w' & E). pose proof (wait_delivers p w) as H. rewrite E in H. by exists w'.
  - destruct (healthy_write Hhealthy p w) as (w' & E). pose proof (write_delivers p w) as H. rewrite E in H. by exists w'.
Qed.
Lemma send_pieces_succeeds tcp l : forall w, exists w', send_pieces tcp l w = (Ok tt, w') /\ segments w' = segments w ++ l.
Proof.
  induction l as [|p l IH]; intros w; [exists w; by rewrite app_nil_r|]. cbn [send_pieces]. destruct l as [|p' l]; [apply (write_succeeds false)|].
  destruct (write_succeeds tcp p w) as (w1 & -> & H1). destruct (IH w1) as (w2 & -> & H2). exists w2. split; [done|]. by rewrite H2, H1, <-app_assoc.
Qed.

(** Labels have no dots, and the first cut is in the first label. *)
Lemma split_dots_free s l : l ∈ split_dots s -> dot ∉ l.
Proof.
  revert l. induction s as [|b s IH]; intros l; cbn [split_dots]; [by intros ->%list_elem_of_singleton; apply not_elem_of_nil|].
  pose proof (split_dots_nonempty s). destruct (split_dots s) as [|x xs]; [done|]. destruct (Z.eqb_spec b dot) as [->|Hb].
  - intros [->|Hl]%elem_of_cons; [apply not_elem_of_nil|by apply IH].
  - intros [->|Hl]%elem_of_cons; [|apply IH; by right]. intros [?|Hin]%elem_of_cons; [congruence|]. by apply (IH x); [left|].
Qed.
Lemma first_cut s i idx : cut_indexes Intn PublicSuffix s = Ok (i :: idx) ->
  exists label, list.head (split_dots (sn_ServerName s)) = Some label /\ label <> [] /\ i = sn_Index s + Intn 0 (len label).
Proof.
  unfold cut_indexes. set (name := sn_ServerName s). set (chosen := if bool_decide (PublicSuffix name = []) then _ else _).
  destruct chosen as [splits|e|p] eqn:Hc; [rewrite ok_bind; intros Hi|done..].
  assert (Hh : splits = [] \/ list.head splits = list.head (split_dots name)).
  { unfold chosen in Hc. destruct (bool_decide _); [right; by injection Hc as <-|]. destruct (_ && _); [|done]. injection Hc as <-.
    destruct (Z.to_nat _); [by left|right]. by destruct (split_dots name). }
  destruct ((1 <? len splits) && bool_decide (list.head splits = Some three_dots)) eqn:Hd.
  - exfalso. apply andb_true_iff in Hd as [_ Hd%bool_decide_eq_true]. destruct Hh as [->|Hh]; [done|].
    assert (Hin : three_dots ∈ split_dots name). { rewrite Hd in Hh. destruct (split_dots name); [done|]. injection Hh as ->. left. }
    apply split_dots_free in Hin. apply Hin. left.
  - destruct splits as [|l rest]; [done|]. destruct Hh as [?|Hh]; [done|]. exists l. split; [by rewrite <-Hh|].
    cbn [split_indexes] in Hi. destruct (Z.leb_spec (len l) 0) as [Hl|Hl]; [done|].
    destruct (split_indexes Intn 1 rest _) as [l'|e|p]; [|done..]. rewrite ok_bind in Hi. injection Hi as <- _. split; [by intros ->|done].
Qed.

(** C33: The client hello is cut at its server name.  Written first over a connection
    that cuts segments ([splitPacket]) and whose writes succeed, a client hello of less
    than 65536 bytes whose server name has no empty label is sent as at least two
    segments, and the first one ends in the first label of the name, before its last
    byte, at the place that [rand.Intn] chooses: its bytes up to there, or, when records
    are cut too, a record with its content up to there.  So the first segment never has
    the whole label; when [rand.Intn] gives 0 it ends just before the name, which is then
    not cut there ([uncut_example]). *)
Theorem client_hello_is_cut h name pre post c w :
  names h name pre post -> Forall is_byte (hello_record h) -> len (hello_record h) < 65536 -> [] ∉ split_dots (string_bytes name) ->
  firstPacketWritten c = false -> splitPacket c = true ->
  let b := hello_record h in
  exists w' start label i rest,
    Conn_Write Intn PublicSuffix c b w = (Ok (len b), mkConn true true (splitRecord c) (hasTCPConn c), w') /\
    take (length (string_bytes name)) (drop (Z.to_nat start) b) = string_bytes name /\
    list.head (split_dots (string_bytes name)) = Some label /\ i = start + Intn 0 (len label) /\ start <= i < start + len label /\ rest <> [] /\
    segments w' = segments w ++ (if splitRecord c then record_frame b (drop 5 (take (Z.to_nat i) b)) else take (Z.to_nat i) b) :: rest.
Proof.
  intros Hn Hb Hl Hlabels Hf Hp b. destruct (index_hello h name pre post Hn) as (s & Hs & Hname). fold b in Hb, Hl, Hs.
  pose proof (server_name_at b Hb Hl) as Hat. rewrite Hs in Hat. destruct Hat as [H9 Htill Hbytes]. unfold Conn_Write. rewrite Hf, Hs, Hp. cbn [andb].
  destruct (delay_succeeds (hasTCPConn c) true w) as (w1 & -> & H1).
  pose proof (cut_indexes_spec Intn Intn_range PublicSuffix s) as Hc. pose proof (first_cut s) as Hfirst. rewrite Hname in Hc, Htill, Hbytes, Hfirst.
  destruct (cut_indexes Intn PublicSuffix s) as [idx|e|p]; [|done..].
  destruct Hc as [Hi Hne]. rewrite ok_bind. destruct idx as [|i idx]; [done|].
  destruct (Hfirst i idx eq_refl) as (label & Hlabel & Hfull & Heq).
  assert (Hrange : 0 <= Intn 0%nat (len label) < len label) by (apply Intn_range; destruct label; [done|unfold len; cbn; lia]).
  assert (Hinc : increasing 9 (len b) (i :: idx)) by (eapply increasing_till, Htill; eapply increasing_from; done).
  destruct (pieces_ok (splitRecord c) b i idx Hinc) as (l & -> & _ & Hlen). unfold send_fragments. rewrite Hp. cbn [negb andb]. rewrite andb_false_r.
  set (payloads := if splitRecord c then _ else _). destruct (send_pieces_succeeds (hasTCPConn c) payloads w1) as (w2 & -> & H2).
  destruct (delay_succeeds (hasTCPConn c) false w2) as (w3 & -> & H3). exists w3, (sn_Index s), label, i, (if splitRecord c then map (record_frame b) l else l).
  split; [done|]. split; [by rewrite Z.sub_0_r in Hbytes|]. split; [done|]. split; [done|]. split; [lia|]. split; [destruct l; [done|by destruct (splitRecord c)]|].
  rewrite H3, H2, H1. unfold payloads. by destruct (splitRecord c).
Qed.
End Cut.

(** ** Fragmented client hellos at work

    A client hello for [a.test] cut into segments and records, and the names for which
    the write panics. *)

Module TlsDemo.
(** A connection that keeps the segments *)
#[global] Instance wire : Peer (list bytes) := {|
  peer_Write b w := (Ok tt, w ++ [b]);
  writeAndWaitAck b w := (Ok tt, w ++ [b]);
  SetNoDelay _ w := (Ok tt, w)
|}.
#[global] Instance wire_ok : PeerOk (list bytes).
Proof. by unshelve refine {| segments w := w |}. Defined.
Lemma wire_healthy : healthy (W := list bytes).
Proof. constructor; intros; by eexists. Qed.

Definition half (k : nat) (n : Z) : Z := n / 2.
Lemma half_range k n : 0 < n -> 0 <= half k n < n.
Proof. intros H. unfold half. split; [apply Z.div_pos; lia|apply Z.div_lt; lia]. Qed.
Definition no_suffix (name : bytes) : bytes := [].
Definition top_suffix (name : bytes) : bytes := default [] (list.last (split_dots name)).

Definition hello (name : string) : Hello := mkHello 0x0303 (repeat 7 32) [] [0x1301; 0x1302] [0] [X_Groups [29; 23]; X_ServerName name; X_Algorithms [0x0403]].
Definition segments_only : Conn := mkConn false true false true.
Definition records_only : Conn := mkConn false false true true.
Definition both : Conn := mkConn false true true false.
Definition data : bytes := [23; 3; 3; 0; 2; 1; 2].

Ltac widths := repeat (constructor; [by split|]); constructor.
Lemma hello_names : names (hello "ab.test") "ab.test" [X_Groups [29; 23]] [X_Algorithms [0x0403]].
Proof.
  constructor; [|done|by constructor].
  constructor; [split; [by unfold in_width|done]|done|cbn; widths| |vm_compute; done].
  constructor; [split; [cbn; widths|done]|]. constructor; [split; [done|vm_compute; done]|]. constructor; [split; [cbn; widths|done]|constructor].
Qed.
Lemma hello_bytes name : forallb (fun b => (0 <=? b) && (b <? 256)) (hello_record (hello name)) = true -> Forall is_byte (hello_record (hello name)).
Proof. apply bytes_check. Qed.
End TlsDemo.
Import TlsDemo.

Example fragmented_stream_preserved_witness : exists out,
  segments (write_all half no_suffix both [hello_record (hello "ab.test"); data] []).2 = [] ++ out /\
  record_content (concat out) = record_content (concat [hello_record (hello "ab.test"); data]).
Proof.
  destruct (fragmented_stream_preserved half half_range no_suffix [data] (hello_record (hello "ab.test")) both []
    (mkConn true true true false) (write_all half no_suffix both [hello_record (hello "ab.test"); data] []).2) as (out & Ho & _ & Hr).
  - done.
  - by apply bytes_check.
  - done.
  - constructor; [by apply bytes_check|constructor].
  - done.
  - exists out. split; [exact Ho|]. by apply Hr.
Defined.

Example fragmented_write_outcomes_witness : exists r w',
  Conn_Write half top_suffix segments_only (hello_record (hello "")) [] = (r, mkConn true true false true, w') /\
  match r with
  | Ok n => False
  | Err _ => False
  | Panic _ => exists s, IndexTLSServerName (hello_record (hello "")) = Ok (Some s) /\ [] ∈ split_dots (sn_ServerName s)
  end.
Proof.
  destruct (fragmented_write_outcomes half half_range top_suffix segments_only (hello_record (hello "")) []) as (r & w' & E & H); [done|by apply bytes_check|done|].
  exists r, w'. split; [exact E|]. vm_compute in E. destruct r; [done..|exact H].
Defined.

Lemma client_hello_is_cut_witness : exists w' start i rest,
    Conn_Write half no_suffix segments_only (hello_record (hello "ab.test")) [] = (Ok 88, mkConn true true false true, w') /\
    take 7 (drop (Z.to_nat start) (hello_record (hello "ab.test"))) = string_bytes "ab.test" /\ i = start + 1 /\ rest <> [] /\
    segments w' = take (Z.to_nat i) (hello_record (hello "ab.test")) :: rest.
Proof.
  destruct (client_hello_is_cut half half_range no_suffix wire_healthy (hello "ab.test") "ab.test" [X_Groups [29; 23]] [X_Algorithms [0x0403]] segments_only [])
    as (w' & start & label & i & rest & H1 & H2 & H3 & H4 & _ & H5 & H6).
  - exact hello_names.
  - by apply bytes_check.
  - done.
  - by apply (bool_decide_unpack _).
  - done.
  - done.
  - vm_compute in H3. injection H3 as <-. exists w', start, i, rest. split; [exact H1|]. split; [exact H2|]. split; [exact H4|]. split; [exact H5|exact H6].
Defined.

(** A public suffix leaves one label; with an offset of 0 the second segment has the
    whole name. *)
Example uncut_example :
  match (Conn_Write (fun _ _ => 0) top_suffix segments_only (hello_record (hello "ab.test")) []).2 with
  | [first; second] => take 7 second = string_bytes "ab.test"
  | _ => False
  end.
Proof. vm_compute. done. Qed.
(** The same client hello in segments, in records and in both *)
Example segments_example : map len (Conn_Write half no_suffix segments_only (hello_record (hello "ab.test")) []).2 = [74; 4; 10].
Proof. vm_compute. done. Qed.
Example records_example : map len (Conn_Write half no_suffix records_only (hello_record (hello "ab.test")) []).2 = [98].
Proof. vm_compute. done. Qed.
(** A public suffix leaves the first label only. *)
Example suffix_example : map len (Conn_Write half top_suffix segments_only (hello_record (hello "www.shop.test")) []).2 = [74; 20].
Proof. vm_compute. done. Qed.
(** Without a cut of segments or records nothing is written and the length is returned. *)
Example lost_example : (Conn_Write half no_suffix (mkConn false false false true) (hello_record (hello "ab.test")) []) =
  (Ok 88, mkConn true false false true, []).
Proof. vm_compute. done. Qed.
(** An empty label of a name *)
Example empty_label_example : exists p w, Conn_Write half no_suffix segments_only (hello_record (hello "a..test")) [] = (Panic p, mkConn true true false true, w).
Proof. eexists _, _. vm_compute. done. Qed.
