(* ===== verification/Counting.v ===== *)
(** * Counting over goroutines

    Invariants of concurrent parts count, for every resource, the goroutines that hold
    it: numbers of occurrences as sums, so that a step is an equation of sums. *)

From stdpp Require Import base numbers list gmap option.
From Stdlib Require Import Lia.

(** A fact as a number *)
Definition one (b : bool) : nat := if b then 1 else 0.
Lemma one_mono P Q `{Decision P, Decision Q} : (P -> Q) -> one (bool_decide P) <= one (bool_decide Q).
Proof. intros HPQ. unfold one. repeat case_bool_decide; try lia. tauto. Qed.
Lemma one_le b : one b <= 1.
Proof. destruct b; cbn; lia. Qed.

Section Sums.
Context {A : Type}.
Implicit Types (f : A -> nat) (l : list A).

(** The list after the step of its [i]-th goroutine, which starts others *)
Lemma run_split l new i t t' : l !! i = Some t -> exists l1 l2, l = l1 ++ t :: l2 /\ <[i := t']> l ++ new = l1 ++ t' :: l2 ++ new.
Proof.
  intros Hi. apply list_elem_of_split_length in Hi as (l1 & l2 & -> & ->). exists l1, l2. split; [done|].
  rewrite insert_app_r_alt, Nat.sub_diag by lia. cbn. by rewrite <-app_assoc.
Qed.
Lemma sum_run f l1 t l2 : sum_list_with f (l1 ++ t :: l2) = f t + (sum_list_with f l1 + sum_list_with f l2).
Proof. rewrite sum_list_with_app. cbn. lia. Qed.
Lemma sum_spawn f l1 t l2 new : sum_list_with f (l1 ++ t :: l2 ++ new) = f t + sum_list_with f new + (sum_list_with f l1 + sum_list_with f l2).
Proof. rewrite sum_list_with_app. cbn. rewrite sum_list_with_app. lia. Qed.
Lemma sum_elem f l i x : l !! i = Some x -> f x <= sum_list_with f l.
Proof. revert i. induction l as [|z l IH]; intros [|i] Hi; cbn in *; simplify_eq; [lia|]. apply IH in Hi. lia. Qed.
Lemma sum_pair f l i j x y : l !! i = Some x -> l !! j = Some y -> i <> j -> f x + f y <= sum_list_with f l.
Proof.
  revert i j. induction l as [|z l IH]; intros [|i] [|j] Hi Hj Hne; try done; cbn in *; simplify_eq.
  - apply (sum_elem f) in Hj. lia.
  - apply (sum_elem f) in Hi. lia.
  - specialize (IH i j Hi Hj ltac:(lia)). lia.
Qed.
Lemma sum_zero f l : Forall (fun x => f x = 0) l -> sum_list_with f l = 0.
Proof. induction 1 as [|x l Hx _ IH]; cbn; lia. Qed.
Lemma sum_pos f l : sum_list_with f l <> 0 -> exists i x, l !! i = Some x /\ f x <> 0.
Proof.
  induction l as [|x l IH]; cbn; [done|]. intros H. destruct (decide (f x = 0)) as [Hx|Hx]; [|by exists 0, x].
  destruct IH as (i & y & Hi & Hy); [lia|]. by exists (S i), y.
Qed.
#[export] Instance sum_perm f : Proper ((≡ₚ) ==> (=)) (sum_list_with f).
Proof. intros l1 l2 H. induction H; cbn; lia. Qed.
End Sums.
