(* ===== verification/ConnPool.v ===== *)
(** * The connection pool of the DNS transports

    [dns/transport/conn_pool.go]: one shared connection ([ConnPoolSingle]) or several
    idle ones ([ConnPoolOrdered]), dialled by concurrent callers, dropped when they
    are dead, and closed together by [Reset] and [Close].

    A step is what a goroutine does between two operations on shared state: a critical
    section of [access], a call of [Close] on a connection, the cancellation of a
    state, the closing of a channel.  Connections, states and dial attempts are
    numbers; the states live on a heap, because goroutines keep the state they started
    with after it has been replaced. *)

From stdpp Require Import base numbers list gmap sets strings option.
From Stdlib Require Import ZArith Lia.
From S2P Require Import Prelude.

Inductive ConnPoolMode := ConnPoolSingle | ConnPoolOrdered.

(** [connPoolState]: whether its context is cancelled, the tracked connections, the
    idle ones in their order (the keys of [idleElements]), the shared one with
    [sharedClaimed], and the dial that is on its way *)
Record connPoolState := mkState {
  st_cancelled : bool;
  st_all : gset nat;
  st_idle : list nat;
  st_shared : option nat;
  st_sharedClaimed : bool;
  st_connecting : option nat
}.
Definition newConnPoolState : connPoolState := mkState false ∅ [] None false None.
(** [connPoolConnect]: whether [done] is closed, and [err] *)
Record connPoolConnect := mkConnect { cc_done : bool; cc_err : option error }.

(** [ConnPool].  [state] and [closed]: the current state, none once the pool is
    closed; the free slots of the semaphore, if there is one.  Of the world: the next
    connection a dial gives, the connections that [Close] was called on, the
    connections whose context is cancelled, and whether a closed channel was closed. *)
Record ConnPool := mkPool {
  cp_state : option nat;
  cp_states : list connPoolState;
  cp_connects : list connPoolConnect;
  cp_sem : option nat;
  cp_next : nat;
  cp_closed : list nat;
  cp_cancelled : list nat;
  cp_panicked : bool
}.
Definition NewConnPool (mode : ConnPoolMode) (MaxInflight : nat) : ConnPool :=
  mkPool (Some 0) [newConnPoolState] []
    (match mode with ConnPoolOrdered => if (0 <? MaxInflight)%nat then Some MaxInflight else None | ConnPoolSingle => None end)
    0 [] [] false.

Definition the_state (p : ConnPool) (g : nat) : connPoolState := default newConnPoolState (cp_states p !! g).
Definition set_state (p : ConnPool) (g : nat) (st : connPoolState) : ConnPool :=
  mkPool (cp_state p) (<[g := st]> (cp_states p)) (cp_connects p) (cp_sem p) (cp_next p) (cp_closed p) (cp_cancelled p) (cp_panicked p).
Definition set_connects (p : ConnPool) (l : list connPoolConnect) : ConnPool :=
  mkPool (cp_state p) (cp_states p) l (cp_sem p) (cp_next p) (cp_closed p) (cp_cancelled p) (cp_panicked p).
(** [options.Close] *)
Definition close_conn (p : ConnPool) (conn : nat) : ConnPool :=
  mkPool (cp_state p) (cp_states p) (cp_connects p) (cp_sem p) (cp_next p) (conn :: cp_closed p) (cp_cancelled p) (cp_panicked p).
Definition cancel_conn (p : ConnPool) (conn : nat) : ConnPool :=
  mkPool (cp_state p) (cp_states p) (cp_connects p) (cp_sem p) (cp_next p) (cp_closed p) (conn :: cp_cancelled p) (cp_panicked p).
Definition set_sem (p : ConnPool) (sem : option nat) : ConnPool :=
  mkPool (cp_state p) (cp_states p) (cp_connects p) sem (cp_next p) (cp_closed p) (cp_cancelled p) (cp_panicked p).
Definition dialled (p : ConnPool) : ConnPool :=
  mkPool (cp_state p) (cp_states p) (cp_connects p) (cp_sem p) (S (cp_next p)) (cp_closed p) (cp_cancelled p) (cp_panicked p).

Definition set_all (st : connPoolState) (all : gset nat) : connPoolState :=
  mkState (st_cancelled st) all (st_idle st) (st_shared st) (st_sharedClaimed st) (st_connecting st).
Definition set_idle (st : connPoolState) (idle : list nat) : connPoolState :=
  mkState (st_cancelled st) (st_all st) idle (st_shared st) (st_sharedClaimed st) (st_connecting st).
Definition set_connecting (st : connPoolState) (c : option nat) : connPoolState :=
  mkState (st_cancelled st) (st_all st) (st_idle st) (st_shared st) (st_sharedClaimed st) c.
Definition set_claimed (st : connPoolState) : connPoolState :=
  mkState (st_cancelled st) (st_all st) (st_idle st) (st_shared st) true (st_connecting st).
Definition set_shared (st : connPoolState) (conn : nat) : connPoolState :=
  mkState (st_cancelled st) ({[conn]} ∪ st_all st) (st_idle st) (Some conn) (st_sharedClaimed st) (st_connecting st).
Definition set_cancelled (st : connPoolState) : connPoolState :=
  mkState true (st_all st) (st_idle st) (st_shared st) (st_sharedClaimed st) (st_connecting st).

Definition ErrClosed : error := E_New [AStr "use of closed network connection"].
Definition ctx_done : error := E_New [AStr "context canceled"].

Section Pool.
Context (mode : ConnPoolMode).

(** [removeConn] *)
Definition removeConn (p : ConnPool) (g : nat) (conn : nat) : ConnPool :=
  let st := the_state p g in
  match mode with
  | ConnPoolSingle =>
      if bool_decide (st_shared st = Some conn)
      then cancel_conn (set_state p g (mkState (st_cancelled st) (st_all st ∖ {[conn]}) (st_idle st) None false (st_connecting st))) conn
      else set_state p g (set_all st (st_all st ∖ {[conn]}))
  | ConnPoolOrdered =>
      set_state p g (set_idle (set_all st (st_all st ∖ {[conn]})) (filter (fun c => c <> conn) (st_idle st)))
  end.

(** ** The goroutines *)

(** The result of an acquisition: a connection and [created], or an error *)
Abbreviation Acquired := ((nat * bool) + error)%type.

Inductive Thread :=
  (* [acquireShared]: at the top of its loop; about to close a dead connection and
     loop; in the [select] *)
  | T_Shared
  | T_DropShared (conn : nat)
  | T_Wait (g connect : nat) (startDial : bool)
  (* [connectSingle]: in [dial]; about to close a connection that came too late; about
     to install the result; about to close what could not be installed; about to close
     [done] *)
  | T_Connect (g connect : nat)
  | T_LateConnect (g connect conn : nat) (err : error)
  | T_Connected (g connect : nat) (result : nat + error)
  | T_CloseNew (connect conn : nat)
  | T_Signal (connect : nat)
  (* [acquireOrdered] and [dialAndInstall] *)
  | T_Ordered
  | T_DropIdle (conn : nat)
  | T_Slot (g : nat)
  | T_Dial (g : nat)
  | T_LateDial (conn : nat) (err : error)
  | T_Install (g conn : nat)
  | T_CloseDial (conn : nat)
  (* the result of an acquisition *)
  | T_Return (result : Acquired)
  (* [Release] and [Invalidate], and the [Close] they end with *)
  | T_Release (conn : nat) (reuse : bool)
  | T_Invalidate (conn : nat)
  | T_Close (conn : nat)
  (* [Reset], [Close] and [closeState] *)
  | T_Reset
  | T_ClosePool
  | T_CloseState (g : nat)
  | T_CloseAll (conns : list nat)
  | T_Done.

(** What moves a goroutine: it goes on, with what [IsAlive] says at this time; its
    context ends; the context of its state is cancelled; its dial returns, with the error of its context if that has ended;
    the caller gives the connection back *)
Inductive Event :=
  | Go (alive : nat -> bool)
  | Cancel
  | StateDone
  | Dialled (ok : bool) (err : error) (ctxErr : option error)
  | GiveBack (reuse : bool).

(** [AcquireShared] and [Acquire] *)
Definition pool_acquire : Thread := match mode with ConnPoolSingle => T_Shared | ConnPoolOrdered => T_Ordered end.

(** The connection is handed out, and claimed by the first caller. *)
Definition claim (p : ConnPool) (g conn : nat) : Thread * list Thread * ConnPool :=
  let st := the_state p g in
  (T_Return (inl (conn, negb (st_sharedClaimed st))), [], set_state p g (set_claimed st)).

(** One round of [acquireShared] up to the [select] *)
Definition acquireShared (alive : nat -> bool) (p : ConnPool) : Thread * list Thread * ConnPool :=
  match cp_state p with
  | None => (T_Return (inr ErrClosed), [], p)
  | Some g =>
      let st := the_state p g in
      match st_shared st with
      | Some conn => if alive conn then claim p g conn else (T_DropShared conn, [], removeConn p g conn)
      | None =>
          match st_connecting st with
          | Some connect => (T_Wait g connect false, [], p)
          | None =>
              let connect := length (cp_connects p) in
              (T_Wait g connect true, [T_Connect g connect],
               set_connects (set_state p g (set_connecting st (Some connect))) (cp_connects p ++ [mkConnect false None]))
          end
      end
  end.

(** [collectShared] *)
Definition collectShared (alive : nat -> bool) (g : nat) (err : option error) (startDial : bool) (p : ConnPool) : Thread * list Thread * ConnPool :=
  match err with
  | Some err => (if startDial then T_Return (inr err) else T_Shared, [], p)
  | None =>
      if bool_decide (cp_state p = Some g) then
        match st_shared (the_state p g) with
        | None => (T_Shared, [], p)
        | Some conn => if alive conn then claim p g conn else (T_DropShared conn, [], removeConn p g conn)
        end
      else (T_Return (inr ErrClosed), [], p)
  end.

(** The error of a dial whose context or state has ended *)
Definition dial_error (p : ConnPool) (g : nat) (ctxErr : option error) : option error :=
  match ctxErr with Some e => Some e | None => if st_cancelled (the_state p g) then Some ErrClosed else None end.

(** [connectSingle] after the dial, up to the critical section *)
Definition connect_dialled (g connect : nat) (ok : bool) (err : error) (ctxErr : option error) (p : ConnPool) : Thread * list Thread * ConnPool :=
  let dialErr := dial_error p g ctxErr in
  if ok then
    (match dialErr with Some e => T_LateConnect g connect (cp_next p) e | None => T_Connected g connect (inl (cp_next p)) end, [], dialled p)
  else (T_Connected g connect (inr (default err dialErr)), [], p).
(** Its critical section *)
Definition connect_install (g connect : nat) (result : nat + error) (p : ConnPool) : Thread * list Thread * ConnPool :=
  let st := set_connecting (the_state p g) None in
  let fail e := set_connects (set_state p g st) (<[connect := mkConnect false (Some e)]> (cp_connects p)) in
  match result with
  | inr e => (T_Signal connect, [], fail e)
  | inl conn =>
      if bool_decide (cp_state p = Some g) then (T_Signal connect, [], set_state p g (set_shared st conn))
      else (T_CloseNew connect conn, [], fail ErrClosed)
  end.
(** [close(state.done)] *)
Definition signal (connect : nat) (p : ConnPool) : ConnPool :=
  let c := default (mkConnect false None) (cp_connects p !! connect) in
  mkPool (cp_state p) (cp_states p) (<[connect := mkConnect true (cc_err c)]> (cp_connects p)) (cp_sem p) (cp_next p) (cp_closed p)
    (cp_cancelled p) (cp_panicked p || cc_done c).

(** One round of [acquireOrdered] *)
Definition acquireOrdered (alive : nat -> bool) (p : ConnPool) : Thread * list Thread * ConnPool :=
  match cp_state p with
  | None => (T_Return (inr ErrClosed), [], p)
  | Some g =>
      let st := the_state p g in
      match st_idle st with
      | conn :: idle =>
          if alive conn then (T_Return (inl (conn, false)), [], set_state p g (set_idle st idle))
          else (T_DropIdle conn, [], set_state p g (set_idle (set_all st (st_all st ∖ {[conn]})) idle))
      | [] => (T_Slot g, [], p)
      end
  end.
(** [releaseSlot] *)
Definition releaseSlot (p : ConnPool) : ConnPool := set_sem p (S <$> cp_sem p).
(** [dialAndInstall] after the dial, and its critical section *)
Definition ordered_dialled (g : nat) (ok : bool) (err : error) (ctxErr : option error) (p : ConnPool) : Thread * list Thread * ConnPool :=
  let dialErr := dial_error p g ctxErr in
  if ok then (match dialErr with Some e => T_LateDial (cp_next p) e | None => T_Install g (cp_next p) end, [], dialled p)
  else (T_Return (inr (default err dialErr)), [], releaseSlot p).
Definition ordered_install (g conn : nat) (p : ConnPool) : Thread * list Thread * ConnPool :=
  if bool_decide (cp_state p = Some g) then
    (T_Return (inl (conn, true)), [], releaseSlot (set_state p g (set_all (the_state p g) ({[conn]} ∪ st_all (the_state p g)))))
  else (T_CloseDial conn, [], p).

(** [Release], up to the [Close] *)
Definition Pool_Release (alive : nat -> bool) (conn : nat) (reuse : bool) (p : ConnPool) : Thread * list Thread * ConnPool :=
  match cp_state p with
  | None => (T_Close conn, [], p)
  | Some g =>
      let st := the_state p g in
      if negb (bool_decide (conn ∈ st_all st)) then (T_Close conn, [], p)
      else if negb reuse || negb (alive conn) then (T_Close conn, [], removeConn p g conn)
      else
        match mode with
        | ConnPoolOrdered => (T_Done, [], if bool_decide (conn ∈ st_idle st) then p else set_state p g (set_idle st (st_idle st ++ [conn])))
        | ConnPoolSingle => (T_Done, [], p)
        end
  end.
(** [Invalidate], up to the [Close] *)
Definition Pool_Invalidate (conn : nat) (p : ConnPool) : Thread * list Thread * ConnPool :=
  match cp_state p with
  | None => (T_Close conn, [], p)
  | Some g => if bool_decide (conn ∈ st_all (the_state p g)) then (T_Close conn, [], removeConn p g conn) else (T_Done, [], p)
  end.
(** [Reset] and [Close], up to [closeState] *)
Definition Pool_Reset (p : ConnPool) : Thread * list Thread * ConnPool :=
  match cp_state p with
  | None => (T_Done, [], p)
  | Some g =>
      (T_CloseState g, [], mkPool (Some (length (cp_states p))) (cp_states p ++ [newConnPoolState]) (cp_connects p) (cp_sem p) (cp_next p) (cp_closed p)
                             (cp_cancelled p) (cp_panicked p))
  end.
Definition Pool_Close (p : ConnPool) : Thread * list Thread * ConnPool :=
  match cp_state p with
  | None => (T_Done, [], p)
  | Some g => (T_CloseState g, [], mkPool None (cp_states p) (cp_connects p) (cp_sem p) (cp_next p) (cp_closed p) (cp_cancelled p) (cp_panicked p))
  end.

(** A step of a goroutine: what it does next, the goroutines it starts, and the pool.
    The connections that [closeState] ranges over are those of a state that is no
    longer current, which nobody changes. *)
Definition thread_step (t : Thread) (e : Event) (p : ConnPool) : option (Thread * list Thread * ConnPool) :=
  match t, e with
  | T_Shared, Go alive => Some (acquireShared alive p)
  | T_DropShared conn, Go _ => Some (T_Shared, [], close_conn p conn)
  | T_Wait g connect startDial, Go alive =>
      match cp_connects p !! connect with
      | Some (mkConnect true err) => Some (collectShared alive g err startDial p)
      | _ => None
      end
  | T_Wait g _ _, StateDone =>
      if st_cancelled (the_state p g)
      then Some (match cp_state p with None => T_Return (inr ErrClosed) | Some _ => T_Shared end, [], p)
      else None
  | T_Wait _ _ _, Cancel => Some (T_Return (inr ctx_done), [], p)
  | T_Connect g connect, Dialled ok err ctxErr => Some (connect_dialled g connect ok err ctxErr p)
  | T_LateConnect g connect conn err, Go _ => Some (T_Connected g connect (inr err), [], close_conn p conn)
  | T_Connected g connect result, Go _ => Some (connect_install g connect result p)
  | T_CloseNew connect conn, Go _ => Some (T_Signal connect, [], close_conn p conn)
  | T_Signal connect, Go _ => Some (T_Done, [], signal connect p)
  | T_Ordered, Go alive => Some (acquireOrdered alive p)
  | T_DropIdle conn, Go _ => Some (T_Ordered, [], close_conn p conn)
  | T_Slot g, Go _ =>
      match cp_sem p with
      | None => Some (T_Dial g, [], p)
      | Some (S n) => Some (T_Dial g, [], set_sem p (Some n))
      | Some O => None
      end
  | T_Slot g, StateDone =>
      if bool_decide (cp_sem p <> None) && st_cancelled (the_state p g) then Some (T_Return (inr ErrClosed), [], p) else None
  | T_Slot _, Cancel => if bool_decide (cp_sem p <> None) then Some (T_Return (inr ctx_done), [], p) else None
  | T_Dial g, Dialled ok err ctxErr => Some (ordered_dialled g ok err ctxErr p)
  | T_LateDial conn err, Go _ => Some (T_Return (inr err), [], releaseSlot (close_conn p conn))
  | T_Install g conn, Go _ => Some (ordered_install g conn p)
  | T_CloseDial conn, Go _ => Some (T_Return (inr ErrClosed), [], releaseSlot (close_conn p conn))
  | T_Return (inl (conn, _)), GiveBack reuse => Some (T_Release conn reuse, [], p)
  | T_Release conn reuse, Go alive => Some (Pool_Release alive conn reuse p)
  | T_Invalidate conn, Go _ => Some (Pool_Invalidate conn p)
  | T_Close conn, Go _ => Some (T_Done, [], close_conn p conn)
  | T_Reset, Go _ => Some (Pool_Reset p)
  | T_ClosePool, Go _ => Some (Pool_Close p)
  | T_CloseState g, Go _ => Some (T_CloseAll (elements (st_all (the_state p g))), [], set_state p g (set_cancelled (the_state p g)))
  | T_CloseAll (conn :: conns), Go _ => Some (T_CloseAll conns, [], close_conn p conn)
  | T_CloseAll [], Go _ => Some (T_Done, [], p)
  | _, _ => None
  end.

End Pool.
