(* ===== verification/ConnPoolInv.v ===== *)
(** * The connection pool: no connection is lost

    Every connection that was dialled is on its way into the pool, tracked by it, or
    closed or about to be closed, over all interleavings of callers, dials, resets
    and the closing of the pool. *)

From stdpp Require Import base numbers list gmap sets strings option.
From Stdlib Require Import ZArith Lia.
From S2P Require Import Prelude Counting ConnPool.

(** ** Several goroutines *)

Section System.
Context (mode : ConnPoolMode).

(** The goroutines, the pool, and the history of the connections handed out *)
Record System := mkSystem { sy_threads : list Thread; sy_pool : ConnPool; sy_handed : list (nat * bool) }.

(** The calls of the pool's users; only a connection that was handed out is
    invalidated. *)
Inductive PoolCall := C_Acquire | C_Invalidate (conn : nat) | C_Reset | C_Close.
Inductive Action := Start (c : PoolCall) | Run (i : nat) (e : Event).

Definition call_thread (s : System) (c : PoolCall) : option Thread :=
  match c with
  | C_Acquire => Some (pool_acquire mode)
  | C_Invalidate conn => if bool_decide (conn ∈ (sy_handed s).*1) then Some (T_Invalidate conn) else None
  | C_Reset => Some T_Reset
  | C_Close => Some T_ClosePool
  end.
Definition handed_by (t : Thread) : list (nat * bool) := match t with T_Return (inl r) => [r] | _ => [] end.
Definition pool_sys_step (a : Action) (s : System) : option System :=
  match a with
  | Start c => t ← call_thread s c; Some (mkSystem (sy_threads s ++ [t]) (sy_pool s) (sy_handed s))
  | Run i e =>
      t ← sy_threads s !! i;
      '(t', new, p) ← thread_step mode t e (sy_pool s);
      Some (mkSystem (<[i := t']> (sy_threads s) ++ new) p (handed_by t' ++ sy_handed s))
  end.
Inductive reachable (limit : nat) : System -> Prop :=
  | reach_new : reachable limit (mkSystem [] (NewConnPool mode limit) [])
  | reach_step a s s' : reachable limit s -> pool_sys_step a s = Some s' -> reachable limit s'.

(** ** Where a connection is *)

(** On its way into the pool, and about to be closed *)
Definition fresh (c : nat) (t : Thread) : nat :=
  match t with T_Connected _ _ (inl c') | T_Install _ c' => one (bool_decide (c = c')) | _ => 0 end.
Definition dying (p : ConnPool) (c : nat) (t : Thread) : nat :=
  match t with
  | T_LateConnect _ _ c' _ | T_CloseNew _ c' | T_LateDial c' _ | T_CloseDial c' | T_DropShared c' | T_DropIdle c' | T_Close c' => one (bool_decide (c = c'))
  | T_CloseState g => one (bool_decide (c ∈ st_all (the_state p g)))
  | T_CloseAll l => one (bool_decide (c ∈ l))
  | _ => 0
  end.
Definition tracked (p : ConnPool) (c : nat) : nat :=
  match cp_state p with Some g => one (bool_decide (c ∈ st_all (the_state p g))) | None => 0 end.
Definition closed (p : ConnPool) (c : nat) : nat := one (bool_decide (c ∈ cp_closed p)).

(** A connection below [n], and no other, is in one of the four places; one that is
    on its way or tracked is in one place only. *)
Definition placed (n : nat) (c F T D K : nat) : Prop :=
  F + T <= 1 /\ (F + T = 1 -> D + K = 0) /\ (1 <= F + T + D + K <-> c < n).

(** What a goroutine knows *)
Definition mode_of (t : Thread) : option ConnPoolMode :=
  match t with
  | T_Shared | T_DropShared _ | T_Wait _ _ _ | T_Connect _ _ | T_LateConnect _ _ _ _ | T_Connected _ _ _ | T_CloseNew _ _ | T_Signal _ => Some ConnPoolSingle
  | T_Ordered | T_DropIdle _ | T_Slot _ | T_Dial _ | T_LateDial _ _ | T_Install _ _ | T_CloseDial _ => Some ConnPoolOrdered
  | _ => None
  end.
Definition thread_ok (p : ConnPool) (handed : list (nat * bool)) (t : Thread) : Prop :=
  (forall m, mode_of t = Some m -> m = mode) /\
  match t with
  | T_Return (inl (c, _)) | T_Release c _ | T_Invalidate c => c ∈ handed.*1
  | T_CloseState g => g < length (cp_states p) /\ cp_state p <> Some g
  | T_Wait g _ _ | T_Connect g _ | T_LateConnect g _ _ _ | T_Connected g _ _ | T_Slot g | T_Dial g | T_Install g _ => g < length (cp_states p)
  | _ => True
  end.
(** The current state *)
Record state_ok (st : connPoolState) (handed : list (nat * bool)) : Prop := {
  so_shared : forall c, st_shared st = Some c -> c ∈ st_all st;
  so_idle : forall c, c ∈ st_idle st -> c ∈ st_all st;
  so_mode : match mode with ConnPoolSingle => st_idle st = [] | ConnPoolOrdered => st_shared st = None end;
  so_unclaimed : st_shared st = None -> st_sharedClaimed st = false;
  so_claimed : forall c, st_shared st = Some c -> st_sharedClaimed st = false -> (c, true) ∉ handed;
  so_nodup : NoDup (st_idle st)
}.
Definition pool_ok (p : ConnPool) (handed : list (nat * bool)) : Prop :=
  match cp_state p with Some g => g < length (cp_states p) /\ state_ok (the_state p g) handed | None => True end.

Record pool_inv (s : System) : Prop := {
  pi_placed : forall c, placed (cp_next (sy_pool s)) c (sum_list_with (fresh c) (sy_threads s)) (tracked (sy_pool s) c)
                          (sum_list_with (dying (sy_pool s) c) (sy_threads s)) (closed (sy_pool s) c);
  pi_handed : forall c, c ∈ (sy_handed s).*1 -> c < cp_next (sy_pool s) /\ sum_list_with (fresh c) (sy_threads s) = 0;
  pi_threads : Forall (thread_ok (sy_pool s) (sy_handed s)) (sy_threads s);
  pi_pool : pool_ok (sy_pool s) (sy_handed s);
  pi_created : NoDup (filter (fun r => r.2 = true) (sy_handed s)).*1
}.

(** ** Reading the pool after a change *)

Lemma the_state_same p g st : g < length (cp_states p) -> the_state (set_state p g st) g = st.
Proof. intros H. unfold the_state. cbn. by rewrite list_lookup_insert_eq. Qed.
Lemma the_state_other p g g' st : g <> g' -> the_state (set_state p g st) g' = the_state p g'.
Proof. intros H. unfold the_state. cbn. by rewrite list_lookup_insert_ne. Qed.
Lemma all_set_state p g g' st : st_all st = st_all (the_state p g) -> st_all (the_state (set_state p g st) g') = st_all (the_state p g').
Proof.
  intros H. destruct (decide (g = g')) as [<-|]; [|by rewrite the_state_other]. unfold the_state in *. cbn. rewrite list_lookup_insert.
  by case_decide.
Qed.
Lemma tracked_set_state p g st c : cp_state p = Some g -> g < length (cp_states p) -> tracked (set_state p g st) c = one (bool_decide (c ∈ st_all st)).
Proof. intros Hg Hl. unfold tracked. cbn. by rewrite Hg, the_state_same. Qed.
Lemma tracked_at p g c : cp_state p = Some g -> tracked p c = one (bool_decide (c ∈ st_all (the_state p g))).
Proof. intros Hg. unfold tracked. by rewrite Hg. Qed.

Lemma thread_ok_same p p' handed t : cp_state p' = cp_state p -> length (cp_states p') = length (cp_states p) -> thread_ok p handed t -> thread_ok p' handed t.
Proof. intros H1 H2 [Hm Ht]. split; [done|]. destruct t; cbn in *; rewrite ?H1, ?H2; done. Qed.

Lemma new_state_ok handed : state_ok newConnPoolState handed.
Proof. constructor; cbn; [done|by intros c ?%elem_of_nil|by destruct mode|done|done|constructor]. Qed.

(** ** What a step keeps *)

(** States that are not current keep their connections and do not become current. *)
Definition frozen (p p' : ConnPool) : Prop :=
  length (cp_states p) <= length (cp_states p') /\
  forall g, g < length (cp_states p) -> cp_state p <> Some g -> st_all (the_state p' g) = st_all (the_state p g) /\ cp_state p' <> Some g.
Lemma frozen_refl p p' : cp_states p' = cp_states p -> cp_state p' = cp_state p \/ cp_state p' = None -> frozen p p'.
Proof. intros H1 H2. unfold frozen, the_state. rewrite H1. split; [done|]. intros g Hg Hn. split; [done|]. by destruct H2 as [-> | ->]. Qed.
Lemma frozen_set p g st p' : cp_state p = Some g \/ st_all st = st_all (the_state p g) ->
  cp_states p' = cp_states (set_state p g st) -> cp_state p' = cp_state p -> frozen p p'.
Proof.
  intros H H1 H2. unfold frozen. rewrite H1, H2. cbn. rewrite length_insert. split; [done|]. intros g' Hg Hn. split; [|done].
  replace (the_state p' g') with (the_state (set_state p g st) g') by (unfold the_state; by rewrite H1).
  destruct H as [H|H]; [rewrite the_state_other; [done|congruence]|by apply all_set_state].
Qed.

(** A step of [t] in a pool [p] *)
Record good (p : ConnPool) (handed : list (nat * bool)) (t : Thread) (t' : Thread) (new : list Thread) (p' : ConnPool) : Prop := {
  gd_placed : forall c Fr Dr, (c ∈ handed.*1 -> Fr = 0) ->
    placed (cp_next p) c (fresh c t + Fr) (tracked p c) (dying p c t + Dr) (closed p c) ->
    placed (cp_next p') c (fresh c t' + Fr) (tracked p' c) (dying p' c t' + Dr) (closed p' c);
  gd_next : cp_next p <= cp_next p';
  gd_fresh : forall c, fresh c t' <= fresh c t + one (bool_decide (c = cp_next p));
  gd_frozen : frozen p p';
  gd_thread : thread_ok p' (handed_by t' ++ handed) t';
  gd_new : new = [] \/ exists g k, new = [T_Connect g k] /\ g < length (cp_states p') /\ mode = ConnPoolSingle;
  gd_pool : pool_ok p' (handed_by t' ++ handed);
  gd_handed : forall r, r ∈ handed_by t' -> tracked p' r.1 = 1 /\ (r.2 = true -> (r.1, true) ∉ handed)
}.

Section Steps.
Context (p : ConnPool) (handed : list (nat * bool)) (t : Thread).
Context (Hpool : pool_ok p handed) (Hthread : thread_ok p handed t).
Context (Hhanded : forall c, c ∈ handed.*1 -> c < cp_next p /\ fresh c t = 0).

(** A goroutine goes on; what it was to install it may now be about to close. *)
Definition moves (t' : Thread) : Prop := forall c, fresh c t' <= fresh c t /\ fresh c t' + dying p c t' = fresh c t + dying p c t.
(** Connections, states and [Close] calls stay as they are. *)
Lemma good_same t' p' : cp_state p' = cp_state p -> cp_states p' = cp_states p -> cp_next p' = cp_next p -> cp_closed p' = cp_closed p ->
  moves t' -> handed_by t' = [] -> thread_ok p handed t' -> good p handed t t' [] p'.
Proof.
  intros H1 H2 H3 H4 Hm Hh Ht.
  assert (Hs : forall g, the_state p' g = the_state p g) by (intros g; unfold the_state; by rewrite H2).
  constructor; rewrite ?Hh, ?H3; try done.
  - intros c Fr Dr _. unfold placed, tracked, closed. rewrite H1, H4. replace (dying p' c t') with (dying p c t') by (destruct t'; cbn; by rewrite ?Hs).
    destruct (Hm c). destruct (cp_state p); rewrite ?Hs; lia.
  - intros c. destruct (Hm c). lia.
  - apply frozen_refl; [done|by left].
  - cbn [app]. apply (thread_ok_same p); [done|by rewrite H2|done].
  - by left.
  - unfold pool_ok in *. rewrite H1, H2. destruct (cp_state p); by rewrite ?Hs.
  - intros r Hr. by apply elem_of_nil in Hr.
Qed.
(** Some state changes, but not its connections. *)
Lemma good_minor g st p' t' new : cp_state p' = cp_state p -> cp_states p' = <[g := st]> (cp_states p) -> cp_next p' = cp_next p -> cp_closed p' = cp_closed p ->
  st_all st = st_all (the_state p g) -> st_shared st = st_shared (the_state p g) -> st_idle st = st_idle (the_state p g) ->
  st_sharedClaimed st = st_sharedClaimed (the_state p g) ->
  moves t' -> handed_by t' = [] -> thread_ok p handed t' -> (new = [] \/ exists g k, new = [T_Connect g k] /\ g < length (cp_states p) /\ mode = ConnPoolSingle) -> good p handed t t' new p'.
Proof.
  intros H1 H2 H3 H4 Ha Hsh Hid Hcl Hm Hh Ht Hnew.
  assert (Hs : forall g', st_all (the_state p' g') = st_all (the_state p g')).
  { intros g'. rewrite <-(all_set_state p g g' st Ha). unfold the_state. by rewrite H2. }
  constructor; rewrite ?Hh, ?H3; try done.
  - intros c Fr Dr _. unfold placed, tracked, closed. rewrite H1, H4. replace (dying p' c t') with (dying p c t') by (destruct t'; cbn; by rewrite ?Hs).
    destruct (Hm c). destruct (cp_state p); rewrite ?Hs; lia.
  - intros c. destruct (Hm c). lia.
  - apply (frozen_set p g st); [by right|done|done].
  - cbn [app]. apply (thread_ok_same p); [done|by rewrite H2, length_insert|done].
  - by rewrite H2, length_insert.
  - unfold pool_ok in *. rewrite H1, H2, length_insert. destruct (cp_state p) as [g'|]; [|done]. destruct Hpool as [Hl [Hp1 Hp2 Hp0 Hp3 Hp4 Hp5]]. split; [done|].
    cbn [app]. unfold the_state in *. rewrite H2, list_lookup_insert. case_decide as Hg; [destruct Hg as [<- Hg]|by constructor]. cbn. constructor; rewrite ?Ha, ?Hsh, ?Hid, ?Hcl; done.
  - intros r Hr. by apply elem_of_nil in Hr.
Qed.
(** [Close] is called on a connection that was to be closed. *)
Lemma good_close t' conn p' : cp_state p' = cp_state p -> cp_states p' = cp_states p -> cp_next p' = cp_next p -> cp_closed p' = conn :: cp_closed p ->
  (forall c, fresh c t' = fresh c t) -> (forall c, dying p c t = Nat.max (one (bool_decide (c = conn))) (dying p c t')) -> handed_by t' = [] -> thread_ok p handed t' ->
  good p handed t t' [] p'.
Proof.
  intros H1 H2 H3 H4 Hf Hd Hh Ht.
  assert (Hs : forall g, the_state p' g = the_state p g) by (intros g; unfold the_state; by rewrite H2).
  constructor; rewrite ?Hh, ?H3; try done.
  - intros c Fr Dr _. unfold placed, tracked, closed. rewrite H1, H4, Hf, Hd.
    replace (dying p' c t') with (dying p c t') by (destruct t'; cbn; by rewrite ?Hs).
    assert (Hc : one (bool_decide (c ∈ conn :: cp_closed p)) = Nat.max (one (bool_decide (c = conn))) (one (bool_decide (c ∈ cp_closed p)))).
    { rewrite (bool_decide_ext _ _ (elem_of_cons _ _ _)), bool_decide_or. unfold one. by destruct (bool_decide (c = conn)), (bool_decide _). }
    rewrite Hc. unfold one. destruct (cp_state p); rewrite ?Hs; repeat case_bool_decide; lia.
  - intros c. rewrite Hf. lia.
  - apply frozen_refl; [done|by left].
  - cbn [app]. apply (thread_ok_same p); [done|by rewrite H2|done].
  - by left.
  - unfold pool_ok in *. rewrite H1, H2. destruct (cp_state p); by rewrite ?Hs.
  - intros r Hr. by apply elem_of_nil in Hr.
Qed.
(** A new state [st] in place of the current one *)
Lemma good_update g st p' t' new : cp_state p = Some g -> g < length (cp_states p) ->
  cp_state p' = Some g -> cp_states p' = <[g := st]> (cp_states p) -> cp_next p' = cp_next p -> cp_closed p' = cp_closed p ->
  state_ok st (handed_by t' ++ handed) -> thread_ok p' (handed_by t' ++ handed) t' ->
  (forall c, fresh c t' <= fresh c t) ->
  (forall c, c ∈ st_all st <-> (c ∈ st_all (the_state p g) /\ dying p c t' = 0) \/ fresh c t' < fresh c t) ->
  (forall c, dying p c t = 0 /\ dying p' c t' = dying p c t' /\ (dying p c t' <= 1) /\ (dying p c t' = 1 -> c ∈ st_all (the_state p g))) ->
  (new = [] \/ exists g k, new = [T_Connect g k] /\ g < length (cp_states p') /\ mode = ConnPoolSingle) ->
  (forall r, r ∈ handed_by t' -> r.1 ∈ st_all st /\ (r.2 = true -> (r.1, true) ∉ handed)) ->
  good p handed t t' new p'.
Proof.
  intros Hg Hl H1 H2 H3 H4 Hst Ht Hf Hall Hd Hnew Hr.
  assert (Hs : the_state p' g = st) by (unfold the_state; by rewrite H2, list_lookup_insert_eq).
  assert (Ht' : forall c, tracked p' c = one (bool_decide (c ∈ st_all st))) by (intros c; unfold tracked; by rewrite H1, Hs).
  constructor; rewrite ?H3; try done.
  - intros c Fr Dr _. specialize (Hall c). specialize (Hf c). destruct (Hd c) as (Hd1 & Hd2 & Hd3 & Hd4). unfold placed, closed.
    rewrite Ht', H4, Hd1, Hd2, (tracked_at p g) by done. unfold one.
    destruct (decide (c ∈ st_all (the_state p g))) as [Ha|Ha]; [rewrite (bool_decide_eq_true_2 _ Ha)|rewrite (bool_decide_eq_false_2 _ Ha)];
      (destruct (decide (c ∈ st_all st)) as [Hb|Hb]; [rewrite (bool_decide_eq_true_2 _ Hb)|rewrite (bool_decide_eq_false_2 _ Hb)]).
    + apply Hall in Hb as [[_ Hb]|Hb]; lia.
    + assert (dying p c t' <> 0 /\ ~ fresh c t' < fresh c t) as [? ?] by tauto. lia.
    + apply Hall in Hb as [[Hb _]|Hb]; [done|]. assert (dying p c t' <> 1) by tauto. lia.
    + assert (dying p c t' <> 1 /\ ~ fresh c t' < fresh c t) as [? ?] by tauto. lia.
  - intros c. specialize (Hf c). lia.
  - apply (frozen_set p g st); [by left|done|by rewrite H1].
  - unfold pool_ok. rewrite H1, Hs, H2, length_insert. done.
  - intros r Hin. rewrite Ht'. destruct (Hr r Hin) as [Hin' Hc]. split; [|done]. by rewrite bool_decide_eq_true_2.
Qed.
(** A dial has given a connection. *)
Lemma good_dialled t' : (forall c, dying p c t = 0 /\ fresh c t = 0) ->
  (forall c, fresh c t' + dying p c t' = one (bool_decide (c = cp_next p))) -> handed_by t' = [] -> thread_ok p handed t' ->
  good p handed t t' [] (dialled p).
Proof.
  intros Hz Hd Hh Ht. constructor; rewrite ?Hh; try done.
  - intros c Fr Dr _. destruct (Hz c) as [Hz1 Hz2]. specialize (Hd c). unfold placed. change (tracked (dialled p) c) with (tracked p c).
    change (dying (dialled p) c t') with (dying p c t'). change (closed (dialled p) c) with (closed p c). change (cp_next (dialled p)) with (S (cp_next p)).
    rewrite Hz1, Hz2. unfold one in Hd. case_bool_decide; lia.
  - cbn. lia.
  - intros c. specialize (Hd c). lia.
  - by left.
  - intros r Hr. by apply elem_of_nil in Hr.
Qed.
(** The current state is taken out of the pool. *)
Lemma good_retire g p' : cp_state p = Some g -> g < length (cp_states p) -> (forall c, dying p c t = 0 /\ fresh c t = 0) ->
  (cp_state p' = None /\ cp_states p' = cp_states p \/ cp_state p' = Some (length (cp_states p)) /\ cp_states p' = cp_states p ++ [newConnPoolState]) ->
  cp_next p' = cp_next p -> cp_closed p' = cp_closed p -> good p handed t (T_CloseState g) [] p'.
Proof.
  intros Hg Hl Hz Hp H3 H4.
  assert (Hold : forall g', g' < length (cp_states p) -> the_state p' g' = the_state p g').
  { intros g' Hg'. unfold the_state. destruct Hp as [[_ ->] | [_ ->]]; [done|]. by rewrite lookup_app_l. }
  assert (Hlen : length (cp_states p) <= length (cp_states p')) by (destruct Hp as [[_ ->] | [_ ->]]; rewrite ?length_app; lia).
  assert (Hne : forall g', g' < length (cp_states p) -> cp_state p' <> Some g') by (intros g' Hg'; destruct Hp as [[-> _] | [-> _]]; naive_solver lia).
  assert (Hst : cp_state p' = None \/ exists g', cp_state p' = Some g' /\ g' < length (cp_states p') /\ the_state p' g' = newConnPoolState).
  { destruct Hp as [[-> _] | [-> Hp]]; [by left|right]. eexists. split; [done|]. unfold the_state. rewrite Hp, length_app, lookup_app_r, Nat.sub_diag by done. cbn. split; [lia|done]. }
  assert (Ht : forall c, tracked p' c = 0).
  { intros c. unfold tracked. destruct Hst as [-> | (g' & -> & _ & ->)]; [done|]. cbn. by rewrite bool_decide_eq_false_2 by apply not_elem_of_empty. }
  constructor; rewrite ?H3; try done.
  - intros c Fr Dr _. destruct (Hz c) as [Hz1 Hz2]. unfold placed, closed. rewrite Ht, H4, Hz1, Hz2, (tracked_at p g) by done. cbn [fresh dying].
    rewrite Hold by done. unfold one. repeat case_bool_decide; lia.
  - cbn. lia.
  - split; [done|]. intros g' Hg' _. split; [by rewrite Hold|by apply Hne].
  - split; [done|]. split; [lia|by apply Hne].
  - by left.
  - unfold pool_ok. destruct Hst as [-> | (g' & -> & Hg' & ->)]; [done|]. split; [done|]. apply new_state_ok.
  - intros r Hr. by apply elem_of_nil in Hr.
Qed.
(** A connection that was handed out and is no longer tracked is closed once more. *)
Lemma good_again t' conn : conn ∈ handed.*1 -> tracked p conn = 0 -> (forall c, fresh c t = 0 /\ dying p c t = 0) ->
  (forall c, fresh c t' = 0 /\ dying p c t' = one (bool_decide (c = conn))) -> handed_by t' = [] -> thread_ok p handed t' -> good p handed t t' [] p.
Proof.
  intros Hin Htr Hz Hd Hh Ht. constructor; rewrite ?Hh; try done.
  - intros c Fr Dr HF. destruct (Hz c) as [-> ->], (Hd c) as [-> ->]. unfold placed, one. case_bool_decide as Hc; [|lia]. subst c. specialize (HF Hin).
    destruct (Hhanded conn Hin). lia.
  - intros c. destruct (Hd c). lia.
  - by left.
  - intros r Hr. by apply elem_of_nil in Hr.
Qed.
(** [removeConn] *)
Lemma good_remove g conn t' : cp_state p = Some g -> conn ∈ st_all (the_state p g) -> (forall c, fresh c t = 0 /\ dying p c t = 0) ->
  (forall p' c, fresh c t' = 0 /\ dying p' c t' = one (bool_decide (c = conn))) -> handed_by t' = [] -> (forall p', thread_ok p' handed t') ->
  good p handed t t' [] (removeConn mode p g conn).
Proof.
  intros Hg Hin Hz Hd Hh Ht. unfold pool_ok in Hpool. rewrite Hg in Hpool. destruct Hpool as [Hl Hst].
  set (st := the_state p g) in *.
  assert (exists st', cp_states (removeConn mode p g conn) = <[g := st']> (cp_states p) /\ st_all st' = st_all st ∖ {[conn]} /\ state_ok st' handed) as (st' & H2 & Ha & Hok).
  { destruct Hst as [Hs1 Hs2 Hs0 Hs3 Hs4 Hs5]. unfold removeConn. fold st. destruct mode eqn:Em; [case_bool_decide as Hsh|]; eexists; (split; [done|split; [done|]]);
      constructor; cbn; rewrite ?Em; try done.
    - intros c. rewrite Hs0. by intros ?%elem_of_nil.
    - intros c Hc. apply elem_of_difference. split; [by apply Hs1|]. intros ->%elem_of_singleton. done.
    - intros c. rewrite Hs0. by intros ?%elem_of_nil.
    - intros c Hc. by rewrite Hs0 in Hc.
    - intros c [Hne Hc]%list_elem_of_filter. apply elem_of_difference. split; [by apply Hs2|]. by rewrite elem_of_singleton.
    - by apply list.NoDup_filter. }
  apply (good_update g st'); try done.
  - unfold removeConn. destruct mode; [case_bool_decide|]; done.
  - unfold removeConn. destruct mode; [case_bool_decide|]; done.
  - unfold removeConn. destruct mode; [case_bool_decide|]; done.
  - by rewrite Hh.
  - rewrite Hh. apply Ht.
  - intros c. destruct (Hz c) as [-> _], (Hd p c) as [-> _]. lia.
  - intros c. destruct (Hz c) as [-> _], (Hd p c) as [-> ->]. rewrite Ha, elem_of_difference, elem_of_singleton. fold st. unfold one. case_bool_decide as Hc; split.
    + by intros [_ ?].
    + intros [[_ ?]|?]; lia.
    + intros [? _]. by left.
    + intros [[? _]|?]; [done|lia].
  - intros c. destruct (Hz c) as [_ ->], (Hd p c) as [_ ->], (Hd (removeConn mode p g conn) c) as [_ ->]. unfold one. case_bool_decide; naive_solver.
  - by left.
  - intros r Hr. rewrite Hh in Hr. by apply elem_of_nil in Hr.
Qed.
(** A new state that keeps the tracked connections *)
Lemma good_keep g st p' t' : cp_state p = Some g -> cp_state p' = Some g -> cp_states p' = <[g := st]> (cp_states p) -> cp_next p' = cp_next p -> cp_closed p' = cp_closed p ->
  st_all st = st_all (the_state p g) -> state_ok st (handed_by t' ++ handed) -> thread_ok p (handed_by t' ++ handed) t' ->
  (forall c, fresh c t = 0 /\ fresh c t' = 0 /\ dying p c t = 0 /\ forall p', dying p' c t' = 0) ->
  (forall r, r ∈ handed_by t' -> r.1 ∈ st_all st /\ (r.2 = true -> (r.1, true) ∉ handed)) -> good p handed t t' [] p'.
Proof.
  intros Hg H1 H2 H3 H4 Ha Hst Ht Hz Hr. unfold pool_ok in Hpool. rewrite Hg in Hpool. destruct Hpool as [Hl _]. apply (good_update g st); try done.
  - apply (thread_ok_same p); [by rewrite H1|by rewrite H2, length_insert|done].
  - intros c. destruct (Hz c) as (-> & -> & _). done.
  - intros c. destruct (Hz c) as (-> & -> & _ & Hd). rewrite Hd, Ha. split; [by left|]. intros [[? _]|?]; [done|lia].
  - intros c. destruct (Hz c) as (_ & _ & -> & Hd). rewrite !Hd. split; [done|]. split; [done|]. split; [lia|done].
  - by left.
Qed.
(** The shared connection is handed out, or dropped when it is dead. *)
Lemma good_claim g conn alive x : cp_state p = Some g -> st_shared (the_state p g) = Some conn -> mode = ConnPoolSingle -> (forall c, fresh c t = 0 /\ dying p c t = 0) ->
  (if alive : bool then claim p g conn else (T_DropShared conn, [], removeConn mode p g conn)) = x -> good p handed t x.1.1 x.1.2 x.2.
Proof.
  intros Hg Hs Hm Hz <-. pose proof Hpool as Hp. unfold pool_ok in Hp. rewrite Hg in Hp. destruct Hp as [Hl [Hs1 Hs2 Hs0 Hs3 Hs4 Hs5]]. destruct alive.
  - unfold claim. cbn [fst snd]. apply (good_keep g (set_claimed (the_state p g))); try done.
    + constructor; cbn; try done. by rewrite Hs.
    + split; [done|]. cbn. apply elem_of_cons. by left.
    + intros c. destruct (Hz c) as [-> ->]. done.
    + intros r ->%list_elem_of_singleton. cbn. split; [by apply Hs1|]. rewrite negb_true_iff. by apply Hs4.
  - cbn [fst snd]. apply good_remove; try done; [by apply Hs1|]. intros p'. split; [by intros m [= <-]|done].
Qed.
End Steps.

Ltac in_mode Hmode := split; [first [done|intros m [= <-]; by apply Hmode]|done].
Ltac counts := intros c; cbn; lia.
Ltac same Hmode := apply good_same; first [done|counts|in_mode Hmode].
Ltac closes Hmode conn := eapply good_close with (conn := conn); first [done|counts|in_mode Hmode].
Ltac minor Hmode := eapply good_minor; first [done|counts|in_mode Hmode|by left|idtac].

Lemma acquireShared_good p handed t alive t' new p' : pool_ok p handed -> t = T_Shared -> mode = ConnPoolSingle ->
  (forall c, c ∈ handed.*1 -> c < cp_next p /\ fresh c t = 0) ->
  acquireShared mode alive p = (t', new, p') -> good p handed t t' new p'.
Proof.
  intros Hpool -> Hm Hhanded. assert (Hmode : forall m, Some ConnPoolSingle = Some m -> m = mode) by (by intros m [= <-]). unfold acquireShared.
  destruct (cp_state p) as [g|] eqn:Hg; [|intros [= <- <- <-]; same Hmode]. pose proof Hpool as Hp. unfold pool_ok in Hp. rewrite Hg in Hp. destruct Hp as [Hl _].
  destruct (st_shared (the_state p g)) as [conn|] eqn:Hs.
  { intros H. by eapply good_claim in H. }
  destruct (st_connecting (the_state p g)) as [k|] eqn:Hk; intros [= <- <- <-]; [same Hmode|].
  minor Hmode. right. by eexists _, _.
Qed.
Lemma collectShared_good p handed t alive g err sd t' new p' k : pool_ok p handed -> t = T_Wait g k sd -> mode = ConnPoolSingle ->
  (forall c, c ∈ handed.*1 -> c < cp_next p /\ fresh c t = 0) ->
  collectShared mode alive g err sd p = (t', new, p') -> good p handed t t' new p'.
Proof.
  intros Hpool -> Hm Hhanded. assert (Hmode : forall m, Some ConnPoolSingle = Some m -> m = mode) by (by intros m [= <-]). unfold collectShared.
  destruct err as [err|]; [destruct sd; intros [= <- <- <-]; same Hmode|]. case_bool_decide as Hg; [|intros [= <- <- <-]; same Hmode].
  destruct (st_shared (the_state p g)) as [conn|] eqn:Hs; [|intros [= <- <- <-]; same Hmode].
  intros H. by eapply good_claim in H.
Qed.
Lemma connect_install_good p handed t g k result t' new p' : pool_ok p handed -> thread_ok p handed t -> t = T_Connected g k result ->
  (forall c, c ∈ handed.*1 -> c < cp_next p /\ fresh c t = 0) -> connect_install g k result p = (t', new, p') -> good p handed t t' new p'.
Proof.
  intros Hpool [Hmode Hknows] -> Hhanded. cbn in Hmode, Hknows. specialize (Hmode _ eq_refl) as Hm. unfold connect_install.
  destruct result as [conn|err].
  2: { intros [= <- <- <-]. minor Hmode. }
  case_bool_decide as Hg.
  2: { intros [= <- <- <-]. minor Hmode. }
  intros [= <- <- <-]. pose proof Hpool as Hp. unfold pool_ok in Hp. rewrite Hg in Hp. destruct Hp as [_ [Hs1 Hs2 Hs0 Hs3 Hs4 Hs5]].
  assert (Hnew : conn ∉ handed.*1) by (intros Hin; apply Hhanded in Hin as [_ Hin]; cbn in Hin; by rewrite bool_decide_eq_true_2 in Hin).
  eapply (good_update _ _ _ g); try done.
  - constructor; cbn; try done.
    + intros c [= <-]. set_solver.
    + intros c Hc. apply Hs2 in Hc. set_solver.
    + rewrite <-Hm in Hs0 |- *. done.
    + intros c [= <-] _ Hin. apply Hnew. apply list_elem_of_fmap. by exists (conn, true).
  - intros c. cbn. lia.
  - intros c. cbn. unfold one. rewrite elem_of_union, elem_of_singleton. case_bool_decide as Hc; split.
    + intros _. right. lia.
    + intros _. by left.
    + intros [?|?]; [done|by left].
    + intros [[? _]|?]; [by right|lia].
  - intros c. cbn. split; [done|]. split; [done|]. split; [lia|done].
  - by left.
  - intros r Hr. by apply elem_of_nil in Hr.
Qed.

Lemma acquireOrdered_good p handed t alive t' new p' : pool_ok p handed -> t = T_Ordered -> mode = ConnPoolOrdered ->
  (forall c, c ∈ handed.*1 -> c < cp_next p /\ fresh c t = 0) -> acquireOrdered alive p = (t', new, p') -> good p handed t t' new p'.
Proof.
  intros Hpool -> Hm Hhanded. assert (Hmode : forall m, Some ConnPoolOrdered = Some m -> m = mode) by (by intros m [= <-]). unfold acquireOrdered.
  destruct (cp_state p) as [g|] eqn:Hg; [|intros [= <- <- <-]; same Hmode]. pose proof Hpool as Hp. unfold pool_ok in Hp. rewrite Hg in Hp. destruct Hp as [Hl [Hs1 Hs2 Hs0 Hs3 Hs4 Hs5]].
  destruct (st_idle (the_state p g)) as [|conn idle] eqn:Hi; [intros [= <- <- <-]; same Hmode|].
  assert (Hin : conn ∈ st_all (the_state p g)) by (apply Hs2; by left).
  assert (Hrest : forall c, c ∈ idle -> c ∈ st_all (the_state p g)) by (intros c Hc; apply Hs2; by right).
  rewrite Hm in Hs0. destruct (alive conn); intros [= <- <- <-].
  - eapply good_keep; try done.
    + constructor; cbn; try done; [by rewrite Hm|by rewrite Hs0|]. by apply list.NoDup_cons in Hs5 as [_ Hs5].
    + split; [done|]. cbn. by left.
    + by intros r ->%list_elem_of_singleton.
  - eapply (good_update _ _ _ g); try done.
    + apply list.NoDup_cons in Hs5 as [Hni Hs5]. constructor; cbn; try done; [by rewrite Hs0| |by rewrite Hm].
      intros c Hc. apply elem_of_difference. split; [by apply Hrest|]. by intros ->%elem_of_singleton.
    + intros c. cbn. rewrite elem_of_difference, elem_of_singleton. unfold one. case_bool_decide as Hc; split.
      * by intros [_ ?].
      * intros [[_ ?]|?]; lia.
      * intros [? _]. by left.
      * intros [[? _]|?]; [done|lia].
    + intros c. cbn. unfold one. case_bool_decide as Hc; [subst c|]; (split; [done|]); (split; [done|]); (split; [lia|done]).
    + by left.
    + intros r Hr. by apply elem_of_nil in Hr.
Qed.
Lemma ordered_install_good p handed t g conn t' new p' : pool_ok p handed -> thread_ok p handed t -> t = T_Install g conn ->
  (forall c, c ∈ handed.*1 -> c < cp_next p /\ fresh c t = 0) -> ordered_install g conn p = (t', new, p') -> good p handed t t' new p'.
Proof.
  intros Hpool [Hmode Hknows] -> Hhanded. specialize (Hmode _ eq_refl) as Hm. unfold ordered_install. case_bool_decide as Hg; [|intros [= <- <- <-]; same Hmode].
  intros [= <- <- <-]. pose proof Hpool as Hp. unfold pool_ok in Hp. rewrite Hg in Hp. destruct Hp as [_ [Hs1 Hs2 Hs0 Hs3 Hs4 Hs5]].
  assert (Hnew : conn ∉ handed.*1) by (intros Hin; apply Hhanded in Hin as [_ Hin]; cbn in Hin; by rewrite bool_decide_eq_true_2 in Hin).
  rewrite <-Hm in Hs0. eapply (good_update _ _ _ g); try done.
  - constructor; cbn; try done; [by rewrite Hs0| |by rewrite <-Hm|by rewrite Hs0]. intros c Hc. apply elem_of_union. right. by apply Hs2.
  - split; [done|]. cbn. by left.
  - intros c. cbn. lia.
  - intros c. cbn. unfold one. rewrite elem_of_union, elem_of_singleton. case_bool_decide as Hc; split.
    + intros _. right. lia.
    + intros _. by left.
    + intros [?|?]; [done|by left].
    + intros [[? _]|?]; [by right|lia].
  - intros c. cbn. split; [done|]. split; [done|]. split; [lia|done].
  - by left.
  - intros r ->%list_elem_of_singleton. cbn. split; [apply elem_of_union; left; by apply elem_of_singleton|].
    intros _ Hin. apply Hnew, list_elem_of_fmap. by exists (conn, true).
Qed.
Lemma tracked_none p conn : cp_state p = None -> tracked p conn = 0.
Proof. intros H. unfold tracked. by rewrite H. Qed.
Lemma untracked p g conn : cp_state p = Some g -> conn ∉ st_all (the_state p g) -> tracked p conn = 0.
Proof. intros H Hn. rewrite (tracked_at p g) by done. by rewrite bool_decide_eq_false_2. Qed.
Ltac again conn := eapply good_again with (conn := conn); first [done|by apply tracked_none|by eapply untracked].
Lemma Pool_Release_good p handed t alive conn reuse t' new p' : pool_ok p handed -> thread_ok p handed t -> t = T_Release conn reuse ->
  (forall c, c ∈ handed.*1 -> c < cp_next p /\ fresh c t = 0) -> Pool_Release mode alive conn reuse p = (t', new, p') -> good p handed t t' new p'.
Proof.
  intros Hpool [Hmode Hknows] -> Hhanded. cbn in Hknows. unfold Pool_Release. destruct (cp_state p) as [g|] eqn:Hg; [|intros [= <- <- <-]; again conn].
  pose proof Hpool as Hp. unfold pool_ok in Hp. rewrite Hg in Hp. destruct Hp as [Hl [Hs1 Hs2 Hs0 Hs3 Hs4 Hs5]].
  case_bool_decide as Hin; cbn [negb]; [|intros [= <- <- <-]; again conn].
  destruct (negb reuse || negb (alive conn)); [intros [= <- <- <-]; by apply good_remove|]. destruct mode eqn:Em; [intros [= <- <- <-]; same Hmode|].
  case_bool_decide as Hi; intros [= <- <- <-]; [same Hmode|]. eapply good_keep with (g := g); try done.
  - constructor; cbn; try done; [|by rewrite Em|].
    + intros c [Hc| ->%list_elem_of_singleton]%elem_of_app; [by apply Hs2|done].
    + apply list.NoDup_app. split; [done|]. split; [by intros c Hc ->%list_elem_of_singleton|apply NoDup_singleton].
  - intros r Hr. by apply elem_of_nil in Hr.
Qed.
Lemma Pool_Invalidate_good p handed t conn t' new p' : pool_ok p handed -> thread_ok p handed t -> t = T_Invalidate conn ->
  (forall c, c ∈ handed.*1 -> c < cp_next p /\ fresh c t = 0) -> Pool_Invalidate mode conn p = (t', new, p') -> good p handed t t' new p'.
Proof.
  intros Hpool [Hmode Hknows] -> Hhanded. cbn in Hknows. unfold Pool_Invalidate. destruct (cp_state p) as [g|] eqn:Hg; [|intros [= <- <- <-]; again conn].
  case_bool_decide as Hin; intros [= <- <- <-]; [by apply good_remove|same Hmode].
Qed.

Lemma step_good p handed t e t' new p' : pool_ok p handed -> thread_ok p handed t -> (forall c, c ∈ handed.*1 -> c < cp_next p /\ fresh c t = 0) ->
  thread_step mode t e p = Some (t', new, p') -> good p handed t t' new p'.
Proof.
  intros Hpool Hthread Hhanded. pose proof Hthread as [Hmode Hknows].
  destruct t as [|conn|g k sd|g k|g k conn err|g k [conn|err]|k conn|k| |conn|g|g|conn err|g conn|conn|[[conn cr]|err]|conn reuse|conn|conn| | |g|[|conn conns]|],
    e as [alive| | |ok err' ctxErr|reuse']; cbn [thread_step]; try done.
  - intros H%(inj Some). eapply acquireShared_good; [done|done| |done|done]. by rewrite (Hmode _ eq_refl).
  - intros [= <- <- <-]. closes Hmode conn.
  - destruct (cp_connects p !! k) as [[[|] err]|]; [|done..]. intros H%(inj Some). eapply collectShared_good; [done|done| |done|done]. by rewrite (Hmode _ eq_refl).
  - intros [= <- <- <-]. same Hmode.
  - destruct (st_cancelled (the_state p g)); [|done]. destruct (cp_state p); intros [= <- <- <-]; same Hmode.
  - intros H%(inj Some). unfold connect_dialled in H. destruct ok; [destruct (dial_error _ _ _)|]; injection H as <- <- <-; [apply good_dialled..|same Hmode]; try done; try in_mode Hmode; counts.
  - intros [= <- <- <-]. closes Hmode conn.
  - intros H%(inj Some). by eapply connect_install_good.
  - intros H%(inj Some). by eapply connect_install_good.
  - intros [= <- <- <-]. closes Hmode conn.
  - intros [= <- <- <-]. same Hmode.
  - intros H%(inj Some). eapply acquireOrdered_good; [done|done| |done|done]. by rewrite (Hmode _ eq_refl).
  - intros [= <- <- <-]. closes Hmode conn.
  - destruct (cp_sem p) as [[|n]|]; [done|..]; intros [= <- <- <-]; same Hmode.
  - destruct (bool_decide _); [|done]. intros [= <- <- <-]. same Hmode.
  - destruct (_ && _); [|done]. intros [= <- <- <-]. same Hmode.
  - intros H%(inj Some). unfold ordered_dialled in H. destruct ok; [destruct (dial_error _ _ _)|]; injection H as <- <- <-; [apply good_dialled..|same Hmode]; try done; try in_mode Hmode; counts.
  - intros [= <- <- <-]. closes Hmode conn.
  - intros H%(inj Some). by eapply ordered_install_good.
  - intros [= <- <- <-]. closes Hmode conn.
  - intros [= <- <- <-]. same Hmode.
  - intros H%(inj Some). by eapply Pool_Release_good.
  - intros H%(inj Some). by eapply Pool_Invalidate_good.
  - intros [= <- <- <-]. closes Hmode conn.
  - intros H%(inj Some). unfold Pool_Reset in H. destruct (cp_state p) as [g|] eqn:Hg; injection H as <- <- <-; [|same Hmode].
    unfold pool_ok in Hpool. rewrite Hg in Hpool. apply good_retire; try done; [by apply Hpool|by right].
  - intros H%(inj Some). unfold Pool_Close in H. destruct (cp_state p) as [g|] eqn:Hg; injection H as <- <- <-; [|same Hmode].
    unfold pool_ok in Hpool. rewrite Hg in Hpool. apply good_retire; try done; [by apply Hpool|by left].
  - intros [= <- <- <-]. minor Hmode. intros c. cbn. rewrite (bool_decide_ext _ _ (elem_of_elements _ _)). lia.
  - intros [= <- <- <-]. same Hmode.
  - intros [= <- <- <-]. eapply good_close with (conn := conn); try done. intros c. cbn.
    rewrite (bool_decide_ext _ _ (elem_of_cons _ _ _)), bool_decide_or. unfold one. by destruct (bool_decide (c = conn)), (bool_decide _).
Qed.

(** ** The invariant *)

Lemma thread_ok_frozen p p' handed more t : frozen p p' -> thread_ok p handed t -> thread_ok p' (more ++ handed) t.
Proof.
  intros [Hl Hf] [Hm Hk]. split; [done|]. destruct t as [| | | | | | | | | | | | | | |[[conn cr]|err]| | | | | |g| |]; cbn in *; try done; try lia;
    try (rewrite fmap_app; apply elem_of_app; by right).
  destruct Hk as [Hg Hn]. destruct (Hf g Hg Hn). split; [lia|done].
Qed.
Lemma dying_frozen p p' handed l c : frozen p p' -> Forall (thread_ok p handed) l -> sum_list_with (dying p' c) l = sum_list_with (dying p c) l.
Proof.
  intros [_ Hf] Hl. induction Hl as [|t l [_ Ht] _ IH]; [done|]. cbn. rewrite IH. f_equal. destruct t; cbn in *; try done.
  destruct Ht as [Hg Hn]. by destruct (Hf g Hg Hn) as [-> _].
Qed.
Lemma run_inv p handed l1 t l2 t' new p' : pool_inv (mkSystem (l1 ++ t :: l2) p handed) -> good p handed t t' new p' ->
  pool_inv (mkSystem (l1 ++ t' :: l2 ++ new) p' (handed_by t' ++ handed)).
Proof.
  intros [Hp Hh Ht Hpl Hc] [Gp Gn Gf Gz Gt Gnew Gpl Gh]. cbn [sy_threads sy_pool sy_handed] in *.
  apply list.Forall_app in Ht as [Ht1 [Ht Ht2]%list.Forall_cons].
  assert (Hnew : forall c, sum_list_with (fresh c) new = 0 /\ sum_list_with (dying p' c) new = 0) by (intros c; destruct Gnew as [-> | (g & k & -> & _)]; done).
  assert (HF : forall c, sum_list_with (fresh c) (l1 ++ t' :: l2 ++ new) = fresh c t' + (sum_list_with (fresh c) l1 + sum_list_with (fresh c) l2))
    by (intros c; destruct (Hnew c) as [Hz _]; rewrite !sum_list_with_app; cbn; rewrite sum_list_with_app, Hz; lia).
  assert (HF0 : forall c, sum_list_with (fresh c) (l1 ++ t :: l2) = fresh c t + (sum_list_with (fresh c) l1 + sum_list_with (fresh c) l2))
    by (intros c; rewrite !sum_list_with_app; cbn; lia).
  assert (Hplaced : forall c, placed (cp_next p') c (sum_list_with (fresh c) (l1 ++ t' :: l2 ++ new)) (tracked p' c) (sum_list_with (dying p' c) (l1 ++ t' :: l2 ++ new)) (closed p' c)).
  { intros c. destruct (Hnew c) as [_ Hz]. rewrite HF, !sum_list_with_app. cbn. rewrite sum_list_with_app, Hz, !(dying_frozen p p' handed) by done.
    replace (_ + (dying p' c t' + _)) with (dying p' c t' + (sum_list_with (dying p c) l1 + sum_list_with (dying p c) l2)) by lia. apply Gp.
    - intros Hin. destruct (Hh c Hin) as [_ Hz']. rewrite HF0 in Hz'. lia.
    - specialize (Hp c). rewrite HF0, !sum_list_with_app in Hp. cbn in Hp. rewrite (Nat.add_comm (dying p c t)), <-Nat.add_assoc, (Nat.add_comm _ (dying p c t)). exact Hp. }
  constructor; cbn [sy_threads sy_pool sy_handed]; [done| | |done|].
  - intros c Hin. rewrite fmap_app in Hin. apply elem_of_app in Hin as [Hin|Hin].
    + apply list_elem_of_fmap in Hin as ([c' b] & -> & Hin). destruct (Gh _ Hin) as [Htr _]. destruct (Hplaced c') as (H1 & _ & H2). cbn in *. lia.
    + destruct (Hh c Hin) as [Hlt Hz]. split; [lia|]. rewrite HF. rewrite HF0 in Hz. specialize (Gf c). rewrite bool_decide_eq_false_2 in Gf by lia. cbn in Gf. lia.
  - rewrite list.Forall_app, list.Forall_cons, list.Forall_app. split; [|split; [done|split]].
    + eapply Forall_impl; [|exact Ht1]. intros r. by apply thread_ok_frozen.
    + eapply Forall_impl; [|exact Ht2]. intros r. by apply thread_ok_frozen.
    + destruct Gnew as [-> | (g & k & -> & Hg & Hm)]; [constructor|]. apply Forall_singleton. split; [by intros m [= <-]|done].
  - rewrite list.filter_app, fmap_app. apply list.NoDup_app. split; [|split; [|done]].
    + destruct t' as [| | | | | | | | | | | | | | |[[conn [|]]|err]| | | | | | | |]; try constructor; [|constructor]. by intros ?%elem_of_nil.
    + intros c ([c1 b1] & -> & [Hb1 Hin1]%list_elem_of_filter)%list_elem_of_fmap ([c2 b2] & Heq & [Hb2 Hin2]%list_elem_of_filter)%list_elem_of_fmap. cbn in *. subst.
      destruct (Gh _ Hin1) as [_ Hnot]. by apply Hnot.
Qed.

Lemma pool_start_inv c t s : pool_inv s -> call_thread s c = Some t -> pool_inv (mkSystem (sy_threads s ++ [t]) (sy_pool s) (sy_handed s)).
Proof.
  intros [Hp Hh Ht Hpl Hc] Hcall.
  assert (Hz : forall c, fresh c t = 0 /\ dying (sy_pool s) c t = 0) by (intros c'; destruct c; cbn in Hcall; try case_bool_decide; simplify_eq; unfold pool_acquire; by destruct mode).
  assert (Hok : thread_ok (sy_pool s) (sy_handed s) t).
  { destruct c; cbn in Hcall; try case_bool_decide; simplify_eq; (split; [|unfold pool_acquire; by destruct mode]); unfold pool_acquire; destruct mode eqn:Em; try done; intros m [= <-]; done. }
  constructor; cbn [sy_threads sy_pool sy_handed]; try done.
  - intros c'. rewrite !sum_list_with_app. cbn. destruct (Hz c') as [-> ->]. rewrite !Nat.add_0_r. apply Hp.
  - intros c' Hin. rewrite sum_list_with_app. cbn. destruct (Hz c') as [-> _]. rewrite !Nat.add_0_r. by apply Hh.
  - rewrite list.Forall_app, Forall_singleton. done.
Qed.
(** The step of a goroutine is a good one. *)
Lemma run_good i e s s' : pool_inv s -> pool_sys_step (Run i e) s = Some s' -> exists t t' new,
  sy_threads s !! i = Some t /\ thread_step mode t e (sy_pool s) = Some (t', new, sy_pool s') /\ sy_threads s' = <[i := t']> (sy_threads s) ++ new /\
  sy_handed s' = handed_by t' ++ sy_handed s /\ good (sy_pool s) (sy_handed s) t t' new (sy_pool s').
Proof.
  intros [_ Hh Ht Hpl _]. cbn [pool_sys_step]. intros (t & Hi & Hs)%bind_Some. destruct (thread_step mode t e (sy_pool s)) as [[[t' new] p']|] eqn:E; [|done].
  cbn in Hs. injection Hs as <-. exists t, t', new. cbn. split; [done|]. split; [done|]. split; [done|]. split; [done|].
  eapply step_good; [done|by eapply Forall_lookup_1| |exact E]. intros c Hc. destruct (Hh c Hc) as [Hlt Hz]. split; [done|].
  apply list_elem_of_split_length in Hi as (l1 & l2 & Hl & _). rewrite Hl, sum_list_with_app in Hz. cbn in Hz. lia.
Qed.
Lemma pool_step_inv a s s' : pool_inv s -> pool_sys_step a s = Some s' -> pool_inv s'.
Proof.
  intros Hinv. destruct a as [c|i e].
  - intros (t & Ht & [= <-])%bind_Some. by eapply pool_start_inv.
  - intros Hs. destruct (run_good i e s s' Hinv Hs) as (t & t' & new & Hi & _ & Hl & Hh & Hg). destruct (run_split _ new i t t' Hi) as (l1 & l2 & Hl1 & Hl2).
    destruct s as [threads p handed], s' as [threads' p' handed']. cbn [sy_threads sy_pool sy_handed] in *. subst threads threads' handed'. rewrite Hl2. by eapply run_inv.
Qed.
Lemma reachable_pool limit s : reachable limit s -> pool_inv s.
Proof.
  induction 1 as [|a s s' _ IH Hs]; [|by eapply pool_step_inv]. constructor; cbn [sy_threads sy_pool sy_handed]; [|by intros c ?%elem_of_nil|constructor| |constructor].
  - intros c. unfold placed, tracked, closed. cbn. rewrite !bool_decide_eq_false_2 by (apply not_elem_of_empty || apply not_elem_of_nil). cbn. lia.
  - unfold pool_ok. cbn. split; [lia|]. apply new_state_ok.
Qed.

(** Goroutines that are done, or wait in the pool *)
Definition settled (t : Thread) : bool :=
  match t with T_Return _ | T_Done | T_Shared | T_Ordered | T_Wait _ _ _ | T_Slot _ => true | _ => false end.
Lemma settled_holds t p c : settled t = true -> fresh c t = 0 /\ dying p c t = 0.
Proof. by destruct t. Qed.
Lemma settled_sum (f : Thread -> nat) l : (forall t, settled t = true -> f t = 0) -> Forall (fun t => settled t = true) l -> sum_list_with f l = 0.
Proof. intros Hf Hl. apply sum_zero. eapply Forall_impl; [|exact Hl]. done. Qed.

(** Is the connection tracked by the pool? *)
Definition in_pool (p : ConnPool) (c : nat) : Prop := exists g, cp_state p = Some g /\ c ∈ st_all (the_state p g).
Lemma in_pool_tracked p c : in_pool p c <-> tracked p c = 1.
Proof.
  unfold in_pool, tracked. split.
  - intros (g & -> & Hc). by rewrite bool_decide_eq_true_2.
  - destruct (cp_state p) as [g|]; [|done]. case_bool_decide; [|done]. by exists g.
Qed.
Lemma closed_elem p c : closed p c = 0 <-> c ∉ cp_closed p.
Proof. unfold closed. case_bool_decide; cbn; naive_solver lia. Qed.

(** C24: The connection pool loses no connection and hands out none that it has closed,
    over all interleavings of acquisitions, dials that succeed, fail or come too late,
    releases, invalidations, resets and the closing of the pool.  Whenever no goroutine
    is on its way through the pool, every connection that was ever dialled is either
    tracked by the pool or has been closed, and not both; so once the pool is closed
    every connection has been closed.  A connection that an acquisition returns is
    tracked at that moment and has not been closed; and for every connection at most
    one acquisition says that it created it. *)
Theorem pool_loses_no_connection limit s : reachable limit s ->
  (Forall (fun t => settled t = true) (sy_threads s) -> forall c, c < cp_next (sy_pool s) ->
     (in_pool (sy_pool s) c /\ c ∉ cp_closed (sy_pool s)) \/ (~ in_pool (sy_pool s) c /\ c ∈ cp_closed (sy_pool s))) /\
  (Forall (fun t => settled t = true) (sy_threads s) -> cp_state (sy_pool s) = None -> forall c, c < cp_next (sy_pool s) -> c ∈ cp_closed (sy_pool s)) /\
  (forall a s' c b, pool_sys_step a s = Some s' -> sy_handed s' = (c, b) :: sy_handed s -> in_pool (sy_pool s') c /\ c ∉ cp_closed (sy_pool s')) /\
  NoDup (filter (fun r => r.2 = true) (sy_handed s)).*1.
Proof.
  intros Hr. apply reachable_pool in Hr as Hinv. destruct Hinv as [Hp Hh Ht Hpl Hc].
  assert (Hq : Forall (fun t => settled t = true) (sy_threads s) -> forall c, c < cp_next (sy_pool s) ->
     (in_pool (sy_pool s) c /\ c ∉ cp_closed (sy_pool s)) \/ (~ in_pool (sy_pool s) c /\ c ∈ cp_closed (sy_pool s))).
  { intros Hs c Hlt. specialize (Hp c). rewrite !settled_sum in Hp by (done || (intros t Hst; by apply (settled_holds t (sy_pool s) c))).
    destruct Hp as (H1 & H2 & H3). rewrite in_pool_tracked. unfold closed, one in *. case_bool_decide; [right|left]; (split; [lia|done]). }
  split; [exact Hq|]. split; [|split; [|done]].
  - intros Hs Hn c Hlt. destruct (Hq Hs c Hlt) as [[(g & Hg & _) _]|[_ Hcl]]; [congruence|done].
  - intros a s' c b Hstep Hhand. assert (Hinv' : pool_inv s') by (eapply reachable_pool; by eapply reach_step). rewrite in_pool_tracked, <-closed_elem.
    destruct a as [cl|i e].
    { cbn in Hstep. apply bind_Some in Hstep as (t & _ & [= <-]). cbn in Hhand. apply (f_equal length) in Hhand. cbn in Hhand. lia. }
    destruct (run_good i e s s') as (t & t' & new & _ & _ & _ & Hh' & Hg); [by eapply reachable_pool|done|]. rewrite Hhand in Hh'.
    destruct (gd_handed _ _ _ _ _ _ Hg (c, b)) as [Htr _].
    + destruct (handed_by t') as [|r l]; [apply (f_equal length) in Hh'; cbn in Hh'; lia|]. injection Hh' as -> _. by left.
    + cbn in Htr. split; [done|]. destruct (pi_placed _ Hinv' c) as (H1 & H2 & _). lia.
Qed.
End System.
