(* ===== verification/ConnPoolWait.v ===== *)
(** * The connection pool: waiting callers and creators

    A caller that waits for the dial of another one is woken, and every shared
    connection has exactly one caller that is told to have created it. *)

From stdpp Require Import base numbers list gmap sets strings option.
From Stdlib Require Import ZArith Lia.
From S2P Require Import Prelude Counting ConnPool ConnPoolInv.

Section Wait.
Context (mode : ConnPoolMode).

(** The goroutines that serve a dial attempt, and those of a state whose result is not
    yet installed *)
Definition serves (k : nat) (t : Thread) : nat :=
  match t with
  | T_Connect _ k' | T_LateConnect _ k' _ _ | T_Connected _ k' _ | T_CloseNew k' _ | T_Signal k' => one (bool_decide (k = k'))
  | _ => 0
  end.
Definition dials (g : nat) (t : Thread) : nat :=
  match t with T_Connect g' _ | T_LateConnect g' _ _ _ | T_Connected g' _ _ => one (bool_decide (g = g')) | _ => 0 end.
Definition is_done (p : ConnPool) (k : nat) : nat := one (match cp_connects p !! k with Some c => cc_done c | None => false end).
Definition started (p : ConnPool) (k : nat) : nat := one (bool_decide (k < length (cp_connects p))).
Definition connecting (p : ConnPool) (g : nat) : nat := one (bool_decide (st_connecting (the_state p g) <> None)).

(** The states: a dial is one that was started, and there is no shared connection
    while one is on its way. *)
Definition state_waits (p : ConnPool) (g : nat) : Prop :=
  forall k, st_connecting (the_state p g) = Some k -> k < length (cp_connects p) /\ st_shared (the_state p g) = None.
Definition thread_waits (p : ConnPool) (t : Thread) : Prop := match t with T_Wait _ k _ => k < length (cp_connects p) | _ => True end.
(** Who created what is handed out *)
Record created (p : ConnPool) (handed : list (nat * bool)) : Prop := {
  cr_again : forall c, (c, false) ∈ handed -> (c, true) ∈ handed;
  cr_shared : forall g c, cp_state p = Some g -> st_shared (the_state p g) = Some c -> st_sharedClaimed (the_state p g) = true -> (c, true) ∈ handed;
  cr_idle : forall g c, cp_state p = Some g -> c ∈ st_idle (the_state p g) -> (c, true) ∈ handed
}.
Record wait_inv (s : System) : Prop := {
  wi_served : forall k, sum_list_with (serves k) (sy_threads s) + is_done (sy_pool s) k = started (sy_pool s) k;
  wi_dials : forall g, sum_list_with (dials g) (sy_threads s) = connecting (sy_pool s) g;
  wi_states : forall g, state_waits (sy_pool s) g;
  wi_threads : Forall (thread_waits (sy_pool s)) (sy_threads s);
  wi_created : created (sy_pool s) (sy_handed s);
  wi_panic : cp_panicked (sy_pool s) = false
}.

(** A step of [t] *)
Record orderly (p : ConnPool) (handed : list (nat * bool)) (t t' : Thread) (new : list Thread) (p' : ConnPool) : Prop := {
  od_served : forall k, serves k t + is_done p k <= 1 ->
    serves k t' + sum_list_with (serves k) new + is_done p' k + started p k = serves k t + is_done p k + started p' k;
  od_started : length (cp_connects p) <= length (cp_connects p');
  od_dials : forall g, dials g t <= connecting p g -> dials g t' + sum_list_with (dials g) new + connecting p g = dials g t + connecting p' g;
  od_states : (forall g, dials g t <= connecting p g) -> (forall g, state_waits p g) -> forall g, state_waits p' g;
  od_thread : thread_waits p' t' /\ Forall (thread_waits p') new;
  od_created : (forall g, dials g t <= connecting p g) -> created p' (handed_by t' ++ handed);
  od_panic : (forall k, serves k t + is_done p k <= 1) -> cp_panicked p' = cp_panicked p
}.
Section Steps.
Context (p : ConnPool) (handed : list (nat * bool)) (t : Thread).
Context (Hpool : pool_ok mode p handed) (Hthread : thread_ok mode p handed t) (Hwaits : thread_waits p t) (Hcreated : created p handed) (Hstates : forall g, state_waits p g).

(** Nothing changes that concerns dials. *)
Lemma orderly_states t' p' : cp_connects p' = cp_connects p -> cp_panicked p' = cp_panicked p ->
  (forall g, st_connecting (the_state p' g) = st_connecting (the_state p g) /\
     (st_shared (the_state p' g) = st_shared (the_state p g) \/ st_shared (the_state p' g) = None)) ->
  (forall k, serves k t' = serves k t) -> (forall g, dials g t' = dials g t) -> thread_waits p t' -> created p' (handed_by t' ++ handed) -> orderly p handed t t' [] p'.
Proof.
  intros H1 H2 Hs Hk Hg Ht Hc. constructor; try done.
  - intros k _. rewrite Hk. unfold is_done, started. rewrite H1. cbn. lia.
  - by rewrite H1.
  - intros g _. rewrite Hg. unfold connecting. destruct (Hs g) as [-> _]. cbn. lia.
  - intros _ _ g k. destruct (Hs g) as [Hc' Hn]. rewrite Hc', H1. intros Hk'. destruct (Hstates g k Hk') as [Hlt Hn']. split; [done|]. by destruct Hn as [-> | ->].
  - split; [|constructor]. destruct t'; cbn in *; by rewrite ?H1.
Qed.
(** The pool's states are the same. *)
Lemma created_same p' : cp_state p' = cp_state p -> cp_states p' = cp_states p -> created p' handed.
Proof.
  intros H1 H2. assert (Hs : forall g, the_state p' g = the_state p g) by (intros g; unfold the_state; by rewrite H2). destruct Hcreated as [Hc1 Hc2 Hc3].
  constructor; [done|intros g c; rewrite H1, Hs; apply Hc2|intros g c; rewrite H1, Hs; apply Hc3].
Qed.
Lemma orderly_same t' p' : cp_state p' = cp_state p -> cp_states p' = cp_states p -> cp_connects p' = cp_connects p -> cp_panicked p' = cp_panicked p -> handed_by t' = [] ->
  (forall k, serves k t' = serves k t) -> (forall g, dials g t' = dials g t) -> thread_waits p t' -> orderly p handed t t' [] p'.
Proof.
  intros H1 H2 H3 H4 Hh Hk Hg Ht. apply orderly_states; try done.
  - intros g. unfold the_state. rewrite H2. split; [done|by left].
  - rewrite Hh. by apply created_same.
Qed.
(** A new current state [st] *)
Lemma created_update g st p' more : cp_state p = Some g -> g < length (cp_states p) -> cp_state p' = Some g -> cp_states p' = <[g := st]> (cp_states p) ->
  (forall r, r ∈ more -> r.2 = true \/ (r.1, true) ∈ handed) ->
  (forall c, st_shared st = Some c -> st_sharedClaimed st = true -> (c, true) ∈ more ++ handed) ->
  (forall c, c ∈ st_idle st -> (c, true) ∈ more ++ handed) -> created p' (more ++ handed).
Proof.
  intros Hg Hl H1 H2 Hm Hs Hi. assert (Hst : the_state p' g = st) by (unfold the_state; by rewrite H2, list_lookup_insert_eq). destruct Hcreated as [Hc1 _ _].
  constructor.
  - intros c [Hin|Hin]%elem_of_app; apply elem_of_app; right; [|by apply Hc1]. destruct (Hm _ Hin); done.
  - intros g' c. rewrite H1. intros [= <-]. rewrite Hst. apply Hs.
  - intros g' c. rewrite H1. intros [= <-]. rewrite Hst. apply Hi.
Qed.
Lemma orderly_update g st p' t' : cp_state p = Some g -> g < length (cp_states p) -> cp_state p' = Some g -> cp_states p' = <[g := st]> (cp_states p) ->
  cp_connects p' = cp_connects p -> cp_panicked p' = cp_panicked p ->
  st_connecting st = st_connecting (the_state p g) -> (st_shared st = st_shared (the_state p g) \/ st_shared st = None) ->
  (forall k, serves k t' = serves k t) -> (forall g, dials g t' = dials g t) -> thread_waits p t' ->
  (forall r, r ∈ handed_by t' -> r.2 = true \/ (r.1, true) ∈ handed) ->
  (forall c, st_shared st = Some c -> st_sharedClaimed st = true -> (c, true) ∈ handed_by t' ++ handed) ->
  (forall c, c ∈ st_idle st -> (c, true) ∈ handed_by t' ++ handed) -> orderly p handed t t' [] p'.
Proof.
  intros Hg Hl H1 H2 H3 H4 Hc Hs Hk Hd Ht Hm Hcl Hi. apply orderly_states; try done.
  - intros g'. unfold the_state in *. rewrite H2, list_lookup_insert. case_decide as Hx; [destruct Hx as [<- _]; done|]. split; [done|by left].
  - by eapply created_update.
Qed.
Lemma current_ok g : cp_state p = Some g -> g < length (cp_states p) /\ state_ok mode (the_state p g) handed.
Proof. intros Hg. unfold pool_ok in Hpool. by rewrite Hg in Hpool. Qed.
(** [removeConn] *)
Lemma orderly_remove g conn t' : cp_state p = Some g -> handed_by t' = [] -> (forall k, serves k t' = serves k t) -> (forall g, dials g t' = dials g t) -> thread_waits p t' ->
  orderly p handed t t' [] (removeConn mode p g conn).
Proof.
  intros Hg Hh Hk Hd Ht. destruct (current_ok g Hg) as [Hl Hok]. destruct Hcreated as [Hc1 Hc2 Hc3]. unfold removeConn. set (st := the_state p g) in *.
  destruct mode; [case_bool_decide|]; (eapply (orderly_update g); [done..| | |done|done|done| | |]); rewrite ?Hh; cbn [app]; try done; try (by left); try (by right);
    try (by intros r ?%elem_of_nil); cbn; try (intros c; apply Hc2; done); try (intros c; apply Hc3; done).
  intros c [_ Hin]%list_elem_of_filter. by apply (Hc3 g).
Qed.
(** The shared connection is handed out, or dropped when it is dead. *)
Lemma orderly_claim g conn alive x : cp_state p = Some g -> st_shared (the_state p g) = Some conn -> (forall k, serves k t = 0) -> (forall g, dials g t = 0) ->
  (if alive : bool then claim p g conn else (T_DropShared conn, [], removeConn mode p g conn)) = x -> orderly p handed t x.1.1 x.1.2 x.2.
Proof.
  intros Hg Hs Hk Hd <-. destruct (current_ok g Hg) as [Hl Hok]. destruct Hcreated as [Hc1 Hc2 Hc3]. destruct alive; [|by apply orderly_remove].
  unfold claim. cbn [fst snd]. eapply (orderly_update g); [done..| | |done|done|done| | |]; cbn; try done; [by left|..].
  - intros r ->%list_elem_of_singleton. cbn. destruct (st_sharedClaimed (the_state p g)) eqn:Ec; [right; by apply (Hc2 g)|by left].
  - intros c. rewrite Hs. intros [= <-] _. destruct (st_sharedClaimed (the_state p g)) eqn:Ec; [right; by apply (Hc2 g)|by left].
  - intros c Hin. right. by apply (Hc3 g).
Qed.
(** A dial is started. *)
Lemma orderly_start g t' : cp_state p = Some g -> st_shared (the_state p g) = None -> st_connecting (the_state p g) = None ->
  t' = T_Wait g (length (cp_connects p)) true -> (forall k, serves k t = 0) -> (forall g, dials g t = 0) ->
  orderly p handed t t' [T_Connect g (length (cp_connects p))]
    (set_connects (set_state p g (set_connecting (the_state p g) (Some (length (cp_connects p))))) (cp_connects p ++ [mkConnect false None])).
Proof.
  intros Hg Hs Hc -> Hk Hd. destruct (current_ok g Hg) as [Hl Hok]. set (n := length (cp_connects p)). set (st := set_connecting _ _). set (p' := set_connects _ _).
  assert (Hst : forall g', the_state p' g' = if decide (g' = g) then st else the_state p g').
  { intros g'. unfold p'. change (the_state (set_connects (set_state p g st) ?l) ?x) with (the_state (set_state p g st) x). case_decide; [subst; by apply the_state_same|by apply the_state_other]. }
  assert (Hlen : length (cp_connects p') = S n) by (unfold p'; cbn; rewrite length_app; cbn; lia).
  constructor.
  - intros k _. cbn. rewrite Hk. unfold is_done, started. rewrite Hlen. fold n. unfold p'. cbn. rewrite lookup_app. fold n.
    destruct (cp_connects p !! k) as [x|] eqn:E.
    + apply lookup_lt_Some in E. fold n in E. rewrite (bool_decide_eq_false_2 (k = n)), !bool_decide_eq_true_2 by lia. cbn. lia.
    + apply lookup_ge_None in E. fold n in E. rewrite (bool_decide_eq_false_2 (k < n)) by lia. destruct (decide (k = n)) as [->|Hne].
      * rewrite Nat.sub_diag. cbn. rewrite !bool_decide_eq_true_2 by lia. done.
      * rewrite (bool_decide_eq_false_2 (k = n)), (bool_decide_eq_false_2 (k < S n)) by lia. rewrite lookup_ge_None_2; [done|cbn; lia].
  - rewrite Hlen. lia.
  - intros g' _. cbn. rewrite Hd. unfold connecting. rewrite Hst. case_decide as Hx; [subst g'|rewrite (bool_decide_eq_false_2 (g' = g)) by done; cbn; lia].
    rewrite Hc. cbn. rewrite bool_decide_eq_true_2 by done. done.
  - intros _ _ g' k. rewrite Hst, Hlen. case_decide; [subst g'; cbn; intros [= <-]; split; [lia|done]|]. intros Hk'. destruct (Hstates g' k Hk'). split; [fold n in H; lia|done].
  - split; [cbn; rewrite length_app; cbn; lia|]. by apply Forall_singleton.
  - intros _. cbn [handed_by app]. destruct Hcreated as [Hc1 Hc2 Hc3]. eapply (created_update g st p' []); try done.
    + by intros r ?%elem_of_nil.
    + intros c. cbn. by rewrite Hs.
    + intros c. cbn. apply (Hc3 g). done.
  - done.
Qed.
(** The state [g] after a change of its record, whichever state is current *)
Lemma the_state_set g st p' g' : g < length (cp_states p) -> cp_states p' = <[g := st]> (cp_states p) -> the_state p' g' = if decide (g' = g) then st else the_state p g'.
Proof. intros Hl H. unfold the_state. rewrite H, list_lookup_insert. case_decide as Hx; case_decide as Hy; subst; try done; [by destruct Hx|]. destruct Hx. done. Qed.
Lemma is_done_insert k e p' k' : cp_connects p' = <[k := mkConnect false e]> (cp_connects p) -> is_done p k = 0 -> is_done p' k' = is_done p k' /\ started p' k' = started p k'.
Proof.
  intros H Hd. unfold is_done, started in *. rewrite H, length_insert, list_lookup_insert. split; [|done]. case_decide as Hx; [|done]. destruct Hx as [<- _]. done.
Qed.
(** A dial that is not installed leaves its state without a dial. *)
Lemma orderly_fail g k result t' p' : g < length (cp_states p) -> t = T_Connected g k result -> (forall k', serves k' t' = serves k' t) -> (forall g', dials g' t' = 0) ->
  handed_by t' = [] -> (forall p, thread_waits p t') -> cp_state p' = cp_state p -> cp_states p' = <[g := set_connecting (the_state p g) None]> (cp_states p) ->
  (exists e, cp_connects p' = <[k := mkConnect false e]> (cp_connects p)) -> cp_panicked p' = cp_panicked p -> orderly p handed t t' [] p'.
Proof.
  intros Hl -> Hs Hd Hh Ht H1 H2 (e & H3) H4. pose proof (fun g' => the_state_set g _ p' g' Hl H2) as Hst. assert (Hlen : length (cp_connects p') = length (cp_connects p)) by (by rewrite H3, length_insert).
  constructor; try done.
  - intros k' Hk. destruct (decide (k' = k)) as [->|Hne].
    + cbn in Hk. rewrite bool_decide_eq_true_2 in Hk by done. destruct (is_done_insert k e p' k H3) as [-> ->]; [cbn in Hk; lia|]. rewrite Hs. cbn. lia.
    + rewrite Hs. unfold is_done, started. rewrite H3, length_insert, list_lookup_insert_ne by done. cbn. lia.
  - by rewrite Hlen.
  - intros g' Hg'. rewrite Hd. cbn in Hg' |- *. unfold connecting in *. rewrite Hst. destruct (decide (g' = g)) as [->|Hx]; [|rewrite (bool_decide_eq_false_2 (g' = g)) by done; cbn; lia].
    cbn. rewrite (bool_decide_eq_true_2 (g = g)) in * by done. cbn in *. destruct (bool_decide (st_connecting _ <> None)); cbn in *; lia.
  - intros _ _ g' k'. rewrite Hst, Hlen. case_decide; [done|]. apply Hstates.
  - intros _. rewrite Hh. cbn [app]. destruct Hcreated as [Hc1 Hc2 Hc3]. constructor; [done|..]; intros g' c; rewrite H1, Hst; case_decide; subst; cbn; by eauto.
Qed.
(** The result of a dial is installed. *)
Lemma orderly_install g k result t' new p' : g < length (cp_states p) -> t = T_Connected g k result -> connect_install g k result p = (t', new, p') -> orderly p handed t t' new p'.
Proof.
  intros Hl Ht. unfold connect_install. destruct result as [conn|err]; [case_bool_decide as Hg|].
  2,3: intros [= <- <- <-]; eapply (orderly_fail g k); try done; [intros k'; by subst t|eexists; done].
  intros [= <- <- <-]. set (st := set_shared _ _). set (p' := set_state p g st).
  pose proof (fun g' => the_state_set g st p' g' Hl eq_refl) as Hst. constructor; subst t; try done.
  - intros k' _. change (is_done p' k') with (is_done p k'). change (started p' k') with (started p k'). cbn. lia.
  - intros g' Hg'. cbn in Hg' |- *. unfold connecting in *. rewrite Hst. destruct (decide (g' = g)) as [->|Hx]; [|rewrite (bool_decide_eq_false_2 (g' = g)) by done; cbn; lia].
    cbn. rewrite (bool_decide_eq_true_2 (g = g)) in * by done. cbn in *. destruct (bool_decide (st_connecting _ <> None)); cbn in *; lia.
  - intros _ _ g' k'. rewrite Hst. case_decide; [done|]. apply Hstates.
  - intros Hd. cbn [handed_by app]. destruct (current_ok g Hg) as [_ Hok]. destruct Hcreated as [Hc1 Hc2 Hc3].
    apply (created_update g st p' []); try done.
    + by intros r ?%elem_of_nil.
    + intros c _ Hcl. specialize (Hd g). cbn in Hd. rewrite bool_decide_eq_true_2 in Hd by done. unfold connecting in Hd.
      case_bool_decide as Hx; [|cbn in Hd; lia]. destruct (st_connecting (the_state p g)) as [k'|] eqn:Ek; [|done]. destruct (Hstates g k' Ek) as [_ Hn].
      cbn in Hcl. rewrite (so_unclaimed _ _ _ Hok Hn) in Hcl. done.
    + intros c Hin. by apply (Hc3 g).
Qed.
(** [close(state.done)] *)
Lemma orderly_signal k : t = T_Signal k -> (started p k = 1) -> orderly p handed t T_Done [] (signal k p).
Proof.
  intros -> Hk. assert (Hlt : k < length (cp_connects p)) by (unfold started in Hk; by case_bool_decide). assert (Hlen : length (cp_connects (signal k p)) = length (cp_connects p)) by (cbn; by rewrite length_insert).
  constructor; try done.
  - intros k' Hk'. unfold started. rewrite Hlen. cbn [serves sum_list_with] in *. unfold is_done in *. cbn [signal cp_connects]. destruct (decide (k' = k)) as [->|Hne].
    + rewrite list_lookup_insert_eq by done. rewrite (bool_decide_eq_true_2 (k = k)) in * by done. cbn in *. lia.
    + rewrite list_lookup_insert_ne by done. rewrite (bool_decide_eq_false_2 (k' = k)) by done. cbn. lia.
  - by rewrite Hlen.
  - intros _ _ g k'. rewrite Hlen. apply Hstates.
  - intros _. by apply created_same.
  - intros Hs. specialize (Hs k). cbn [serves] in Hs. rewrite bool_decide_eq_true_2 in Hs by done. unfold is_done in Hs. cbn [signal cp_panicked].
    destruct (cp_connects p !! k) as [c|]; [|by rewrite orb_false_r]. cbn. destruct (cc_done c); [cbn in Hs; lia|by rewrite orb_false_r].
Qed.
(** [Reset] *)
Lemma orderly_reset g p' : cp_state p' = Some (length (cp_states p)) -> cp_states p' = cp_states p ++ [newConnPoolState] -> cp_connects p' = cp_connects p ->
  cp_panicked p' = cp_panicked p -> t = T_Reset -> orderly p handed t (T_CloseState g) [] p'.
Proof.
  intros H1 H2 H3 H4 Ht.
  assert (Hst : forall g', the_state p' g' = the_state p g').
  { intros g'. unfold the_state. rewrite H2, lookup_app. destruct (cp_states p !! g') eqn:E; [done|]. cbn. by destruct (g' - length (cp_states p)) as [|[|]]. }
  apply orderly_states; try done; try (intros ?; by rewrite Ht).
  - intros g'. rewrite Hst. split; [done|by left].
  - cbn [handed_by app]. destruct Hcreated as [Hc1 _ _].
    assert (Hnew : the_state p (length (cp_states p)) = newConnPoolState) by (unfold the_state; by rewrite lookup_ge_None_2).
    constructor; [done|..]; intros g' c; rewrite H1; intros [= <-]; rewrite Hst, Hnew; cbn; [done|by intros ?%elem_of_nil].
Qed.
(** [Release] *)
Lemma orderly_release alive conn reuse t' new p' : t = T_Release conn reuse -> Pool_Release mode alive conn reuse p = (t', new, p') -> orderly p handed t t' new p'.
Proof.
  intros Ht. destruct Hthread as [Hmode Hknows]. rewrite Ht in Hknows. cbn in Hknows. unfold Pool_Release.
  assert (Hz : (forall k, serves k t = 0) /\ (forall g, dials g t = 0)) by (rewrite Ht; done). destruct Hz as [Hk Hd]. clear Ht.
  destruct (cp_state p) as [g|] eqn:Hg; [|intros [= <- <- <-]; by apply orderly_same]. destruct (current_ok g Hg) as [Hl Hok].
  case_bool_decide as Hin; cbn [negb]; [|intros [= <- <- <-]; by apply orderly_same].
  destruct (negb reuse || negb (alive conn)); [intros [= <- <- <-]; by apply orderly_remove|]. destruct mode; [intros [= <- <- <-]; by apply orderly_same|].
  case_bool_decide as Hi; intros [= <- <- <-]; [by apply orderly_same|]. pose proof Hcreated as [Hc1 Hc2 Hc3].
  eapply (orderly_update g); try done; cbn; try (by left).
  - by intros r ?%elem_of_nil.
  - intros c. by apply (Hc2 g).
  - intros c [Hc| ->%list_elem_of_singleton]%elem_of_app; [by apply (Hc3 g)|].
    apply list_elem_of_fmap in Hknows as ([c b] & -> & Hr). cbn in *. destruct b; [done|by apply Hc1].
Qed.
(** [closeState] cancels a state that is not current. *)
Lemma orderly_cancel g l : t = T_CloseState g -> g < length (cp_states p) -> cp_state p <> Some g ->
  orderly p handed t (T_CloseAll l) [] (set_state p g (set_cancelled (the_state p g))).
Proof.
  intros Ht Hl Hn. set (p' := set_state _ _ _). pose proof (fun g' => the_state_set g _ p' g' Hl eq_refl) as Hst.
  apply orderly_states; try done; try (intros ?; by rewrite Ht).
  - intros g'. rewrite Hst. destruct (decide (g' = g)) as [->|]; (split; [done|by left]).
  - cbn [handed_by app]. destruct Hcreated as [Hc1 Hc2 Hc3]. constructor; [done|..]; intros g' c Hg'; rewrite Hst; (destruct (decide (g' = g)) as [->|]; [done|]); [by apply Hc2|by apply Hc3].
Qed.
End Steps.

Lemma step_orderly p handed t e t' new p' : pool_ok mode p handed -> thread_ok mode p handed t -> thread_waits p t -> created p handed -> (forall g, state_waits p g) ->
  (forall k, serves k t <= started p k) -> thread_step mode t e p = Some (t', new, p') -> orderly p handed t t' new p'.
Proof.
  intros Hpool Hthread Hwaits Hcreated Hstates Hserves. pose proof Hthread as [Hmode Hknows].
  destruct t as [|conn|g k sd|g k|g k conn err|g k result|k conn|k| |conn|g|g|conn err|g conn|conn|[[conn cr]|err]|conn reuse|conn|conn| | |g|[|conn conns]|],
    e as [alive| | |ok err' ctxErr|reuse']; cbn [thread_step]; try done; intros H.
  - apply (inj Some) in H. unfold acquireShared in H. destruct (cp_state p) as [g|] eqn:Hg; [|simplify_eq; by apply orderly_same].
    destruct (st_shared (the_state p g)) as [conn|] eqn:Hs; [by eapply orderly_claim in H|].
    destruct (st_connecting (the_state p g)) as [k|] eqn:Hk; injection H as <- <- <-; [apply orderly_same; try done; by apply (Hstates g)|by eapply orderly_start].
  - injection H as <- <- <-. by apply orderly_same.
  - destruct (cp_connects p !! k) as [[[|] err]|]; [|done..]. apply (inj Some) in H. unfold collectShared in H.
    destruct err as [err|]; [destruct sd; injection H as <- <- <-; by apply orderly_same|]. case_bool_decide as Hg; [|injection H as <- <- <-; by apply orderly_same].
    destruct (st_shared (the_state p g)) as [conn|] eqn:Hs; [by eapply orderly_claim in H|]. injection H as <- <- <-; by apply orderly_same.
  - injection H as <- <- <-. by apply orderly_same.
  - destruct (st_cancelled (the_state p g)); [|done]. destruct (cp_state p); injection H as <- <- <-; by apply orderly_same.
  - apply (inj Some) in H. unfold connect_dialled in H. destruct ok; [destruct (dial_error _ _ _)|]; injection H as <- <- <-; by apply orderly_same.
  - injection H as <- <- <-. by apply orderly_same.
  - apply (inj Some) in H. by eapply orderly_install.
  - injection H as <- <- <-. by apply orderly_same.
  - injection H as <- <- <-. apply orderly_signal; try done. specialize (Hserves k). cbn in Hserves. rewrite bool_decide_eq_true_2 in Hserves by done. unfold started in *. by case_bool_decide; cbn in *; [|lia].
  - apply (inj Some) in H. unfold acquireOrdered in H. destruct (cp_state p) as [g|] eqn:Hg; [|injection H as <- <- <-; by apply orderly_same].
    destruct (current_ok _ _ Hpool g Hg) as [Hl Hok]. pose proof Hcreated as [Hc1 Hc2 Hc3]. pose proof (Hc2 g) as Hsh. pose proof (fun c => Hc3 g c Hg) as Hid.
    destruct (st_idle (the_state p g)) as [|conn idle] eqn:Hi; [injection H as <- <- <-; by apply orderly_same|].
    assert (Hrest : forall c, c ∈ idle -> (c, true) ∈ handed) by (intros c Hc; apply Hid; by right). assert (Hconn : (conn, true) ∈ handed) by (apply Hid; by left).
    destruct (alive conn); injection H as <- <- <-; eapply (orderly_update _ _ _ Hcreated Hstates g); try done; cbn; try (by left).
    + intros r ->%list_elem_of_singleton. by right.
    + intros c H1 H2. right. by apply Hsh.
    + intros c Hc. right. by apply Hrest.
    + by intros r ?%elem_of_nil.
    + intros c. by apply Hsh.
  - injection H as <- <- <-. by apply orderly_same.
  - destruct (cp_sem p) as [[|n]|]; [done|..]; injection H as <- <- <-; by apply orderly_same.
  - destruct (bool_decide _); [|done]. injection H as <- <- <-. by apply orderly_same.
  - destruct (_ && _); [|done]. injection H as <- <- <-. by apply orderly_same.
  - apply (inj Some) in H. unfold ordered_dialled in H. destruct ok; [destruct (dial_error _ _ _)|]; injection H as <- <- <-; by apply orderly_same.
  - injection H as <- <- <-. by apply orderly_same.
  - apply (inj Some) in H. unfold ordered_install in H. case_bool_decide as Hg; injection H as <- <- <-; [|by apply orderly_same].
    destruct (current_ok _ _ Hpool g Hg) as [Hl Hok]. pose proof Hcreated as [Hc1 Hc2 Hc3]. eapply (orderly_update _ _ _ Hcreated Hstates g); try done; cbn; try (by left).
    + intros r ->%list_elem_of_singleton. by left.
    + intros c H1 H2. right. by apply (Hc2 g).
    + intros c Hc. right. by apply (Hc3 g).
  - injection H as <- <- <-. by apply orderly_same.
  - injection H as <- <- <-. by apply orderly_same.
  - apply (inj Some) in H. by eapply orderly_release.
  - apply (inj Some) in H. unfold Pool_Invalidate in H. destruct (cp_state p) as [g|] eqn:Hg; [|injection H as <- <- <-; by apply orderly_same].
    case_bool_decide as Hin; injection H as <- <- <-; [by apply orderly_remove|by apply orderly_same].
  - injection H as <- <- <-. by apply orderly_same.
  - apply (inj Some) in H. unfold Pool_Reset in H. destruct (cp_state p) as [g|] eqn:Hg; injection H as <- <- <-; [by apply orderly_reset|by apply orderly_same].
  - apply (inj Some) in H. unfold Pool_Close in H. destruct (cp_state p) as [g|] eqn:Hg; injection H as <- <- <-; [|by apply orderly_same].
    apply orderly_states; try done; [intros g'; split; [done|by left]|]. cbn. by constructor; [apply Hcreated|..].
  - injection H as <- <- <-. destruct Hknows as [Hl Hn]. by apply orderly_cancel.
  - injection H as <- <- <-. by apply orderly_same.
  - injection H as <- <- <-. by apply orderly_same.
Qed.

(** ** The invariant *)

Lemma thread_waits_later p p' t : length (cp_connects p) <= length (cp_connects p') -> thread_waits p t -> thread_waits p' t.
Proof. intros Hl. destruct t; cbn; try done. lia. Qed.
Lemma wait_step a s s' : pool_inv mode s -> wait_inv s -> pool_sys_step mode a s = Some s' -> wait_inv s'.
Proof.
  intros Hinv [Hs Hd Hst Ht Hc Hp]. destruct a as [c|i e].
  - intros (t & Hcall & [= <-])%bind_Some.
    assert (Hz : (forall k, serves k t = 0) /\ (forall g, dials g t = 0) /\ thread_waits (sy_pool s) t)
      by (destruct c; cbn in Hcall; try case_bool_decide; simplify_eq; unfold pool_acquire; by destruct mode). destruct Hz as (Hz1 & Hz2 & Hz3).
    constructor; cbn [sy_threads sy_pool sy_handed]; try done.
    + intros k. rewrite sum_list_with_app. cbn. rewrite Hz1, !Nat.add_0_r. apply Hs.
    + intros g. rewrite sum_list_with_app. cbn. rewrite Hz2, !Nat.add_0_r. apply Hd.
    + rewrite list.Forall_app, Forall_singleton. done.
  - intros Hstep. destruct (run_good mode i e s s' Hinv Hstep) as (t & t' & new & Hi & Hts & Hl & Hh & _). destruct (run_split _ new i t t' Hi) as (l1 & l2 & Hl1 & Hl2).
    rewrite Hl2 in Hl. rewrite Hl1 in Hs, Hd, Ht. apply list.Forall_app in Ht as [Ht1 [Ht Ht2]%list.Forall_cons].
    assert (Hs' : forall k, serves k t + (sum_list_with (serves k) l1 + sum_list_with (serves k) l2) + is_done (sy_pool s) k = started (sy_pool s) k)
      by (intros k; rewrite <-Hs, sum_list_with_app; cbn; lia).
    assert (Hd' : forall g, dials g t + (sum_list_with (dials g) l1 + sum_list_with (dials g) l2) = connecting (sy_pool s) g)
      by (intros g; rewrite <-Hd, sum_list_with_app; cbn; lia).
    assert (Hone : forall k, started (sy_pool s) k <= 1) by (intros k; unfold started, one; case_bool_decide; lia).
    destruct Hinv as [_ _ Hthreads Hpl _]. assert (Hok : thread_ok mode (sy_pool s) (sy_handed s) t) by (by eapply Forall_lookup_1).
    destruct (step_orderly _ _ _ _ _ _ _ Hpl Hok Ht Hc Hst ltac:(intros k; specialize (Hs' k); lia) Hts) as [O1 O2 O3 O4 [O5 O6] O7 O8].
    assert (Hle : forall g, dials g t <= connecting (sy_pool s) g) by (intros g; specialize (Hd' g); lia).
    constructor; rewrite ?Hl, ?Hh; try done.
    + intros k. specialize (Hs' k). specialize (O1 k ltac:(specialize (Hone k); lia)). rewrite !sum_list_with_app. cbn. rewrite sum_list_with_app. lia.
    + intros g. specialize (Hd' g). specialize (O3 g (Hle g)). rewrite !sum_list_with_app. cbn. rewrite sum_list_with_app. lia.
    + by apply O4.
    + rewrite list.Forall_app, list.Forall_cons, list.Forall_app. split; [|split; [done|split; [|done]]]; (eapply Forall_impl; [|done]); intros r; by apply thread_waits_later.
    + by apply O7.
    + rewrite O8; [done|]. intros k. specialize (Hs' k). specialize (Hone k). lia.
Qed.
Lemma reachable_waits limit s : reachable mode limit s -> wait_inv s.
Proof.
  induction 1 as [|a s s' Hr IH Hs]; [|eapply wait_step; [by eapply reachable_pool|done..]].
  assert (Hst : forall g, the_state (NewConnPool mode limit) g = newConnPoolState) by (by intros [|[|g]]). constructor; cbn [sy_threads sy_pool sy_handed]; try done.
  - intros g. unfold connecting. by rewrite Hst.
  - intros g k. by rewrite Hst.
  - constructor; [by intros c ?%elem_of_nil|..]; intros g c _; rewrite Hst; [done|by intros ?%elem_of_nil].
Qed.
(** How many steps a goroutine is from closing the channel of its dial *)
Definition rank (t : Thread) : nat :=
  match t with T_Connect _ _ => 4 | T_LateConnect _ _ _ _ => 3 | T_Connected _ _ _ => 2 | T_CloseNew _ _ => 1 | _ => 0 end.
Lemma served_elem k l : sum_list_with (serves k) l <> 0 -> exists j t, l !! j = Some t /\ serves k t = 1.
Proof. intros (j & t & Hj & Ht)%sum_pos. exists j, t. split; [done|]. unfold serves, one in *. destruct t; try done; by case_bool_decide. Qed.
Lemma serves_moves k t e p t' new p' : thread_step mode t e p = Some (t', new, p') -> serves k t = 1 -> k < length (cp_connects p) ->
  serves k t' = 1 /\ rank t' < rank t \/ is_done p' k = 1.
Proof.
  intros H Hs Hk. destruct t as [| | |g k'|g k' conn err|g k' result|k' conn|k'| | | | | | | | | | | | | | | |]; try done; destruct e as [alive| | |ok err' ctxErr|reuse']; try done;
    cbn [thread_step] in H; apply (inj Some) in H.
  - left. unfold connect_dialled in H. destruct ok; [destruct (dial_error _ _ _)|]; injection H as <- <- <-; cbn; (split; [done|lia]).
  - left. injection H as <- <- <-. cbn. split; [done|lia].
  - left. unfold connect_install in H. destruct result; [case_bool_decide|]; injection H as <- <- <-; cbn; (split; [done|lia]).
  - left. injection H as <- <- <-. cbn. split; [done|lia].
  - right. injection H as <- <- <-. cbn in Hs. case_bool_decide; [subst k'|done]. unfold is_done, signal. cbn. by rewrite list_lookup_insert_eq.
Qed.
Lemma serves_enabled k t p : serves k t = 1 -> exists e x, thread_step mode t e p = Some x.
Proof.
  intros Hs. destruct t; try done; first [by exists (Go (fun _ => true)); eexists|by exists (Dialled true ctx_done None); eexists].
Qed.

(** C25: A caller that waits for a shared connection is not left waiting.  In every
    reachable state, for every caller in the [select] of [acquireShared] either the
    dial it waits for is done, and the caller can go on whatever [IsAlive] says, or
    some goroutine serves that dial; that goroutine can move, and each of its moves
    brings it nearer to closing the channel or closes it.  No channel is closed twice,
    and whoever gets a connection without having created it can rely on an earlier
    caller that was told to have created it. *)
Theorem pool_waiters_resume limit s : reachable mode limit s ->
  (forall i g k sd, sy_threads s !! i = Some (T_Wait g k sd) ->
     (forall alive, exists s', pool_sys_step mode (Run i (Go alive)) s = Some s') \/
     (exists j t, sy_threads s !! j = Some t /\ serves k t = 1 /\ (exists e s', pool_sys_step mode (Run j e) s = Some s') /\
        forall e s', pool_sys_step mode (Run j e) s = Some s' ->
          is_done (sy_pool s') k = 1 \/ exists t', sy_threads s' !! j = Some t' /\ serves k t' = 1 /\ rank t' < rank t)) /\
  cp_panicked (sy_pool s) = false /\ (forall c, (c, false) ∈ sy_handed s -> (c, true) ∈ sy_handed s).
Proof.
  intros Hr. pose proof (reachable_pool mode limit s Hr) as Hinv. destruct (reachable_waits limit s Hr) as [Hs _ _ Ht Hc Hp]. split; [|split; [done|apply Hc]].
  intros i g k sd Hi. assert (Hk : k < length (cp_connects (sy_pool s))) by (apply (Forall_lookup_1 _ _ _ _ Ht Hi)).
  specialize (Hs k). unfold started in Hs. rewrite bool_decide_eq_true_2 in Hs by done. cbn in Hs. destruct (decide (is_done (sy_pool s) k = 1)) as [Hd|Hd].
  - left. intros alive. unfold is_done in Hd. destruct (cp_connects (sy_pool s) !! k) as [[[|] err]|] eqn:Ek; try done.
    cbn [pool_sys_step]. rewrite Hi. cbn [mbind option_bind thread_step]. rewrite Ek. destruct (collectShared mode alive g err sd (sy_pool s)) as [[t' new] p']. by eexists.
  - right. destruct (served_elem k (sy_threads s)) as (j & t & Hj & Hserve); [unfold is_done, one in *; destruct (match _ with _ => _ end); lia|].
    exists j, t. split; [done|]. split; [done|]. split.
    + destruct (serves_enabled k t (sy_pool s) Hserve) as (e & [[t' new] p'] & He). exists e. cbn [pool_sys_step]. rewrite Hj. cbn [mbind option_bind]. rewrite He. by eexists.
    + intros e s' Hstep. destruct (run_good mode j e s s' Hinv Hstep) as (t1 & t' & new & Hj' & Hts & Hl & _). rewrite Hj in Hj'. injection Hj' as <-.
      destruct (serves_moves k t e _ t' new _ Hts Hserve Hk) as [Hm|Hm]; [right|by left]. exists t'. split; [|done]. rewrite Hl.
      apply lookup_lt_Some in Hj. rewrite lookup_app_l; [by apply list_lookup_insert_eq|by rewrite length_insert].
Qed.
End Wait.
