(* ===== verification/ConnPoolOrder.v ===== *)
(** * The connection pool: idle connections are not shared

    With [ConnPoolOrdered] a connection has one holder at a time, and no more dials are
    on their way than [MaxInflight] allows. *)

From stdpp Require Import base numbers list gmap sets strings option.
From Stdlib Require Import ZArith Lia.
From S2P Require Import Prelude Counting ConnPool ConnPoolInv.

Abbreviation mode := ConnPoolOrdered.

(** The callers that hold a connection, and the goroutines that hold a slot *)
Definition holds (c : nat) (t : Thread) : nat :=
  match t with T_Return (inl (c', _)) | T_Release c' _ => one (bool_decide (c = c')) | _ => 0 end.
Definition slot (t : Thread) : nat := match t with T_Dial _ | T_LateDial _ _ | T_Install _ _ | T_CloseDial _ => 1 | _ => 0 end.
Definition idle (p : ConnPool) (c : nat) : nat :=
  match cp_state p with Some g => one (bool_decide (c ∈ st_idle (the_state p g))) | None => 0 end.
Definition free (p : ConnPool) : nat := default 0 (cp_sem p).

Record order_inv (limit : nat) (s : System) : Prop := {
  oi_held : forall c, sum_list_with (holds c) (sy_threads s) + idle (sy_pool s) c <= 1;
  oi_slots : 0 < limit -> cp_sem (sy_pool s) <> None /\ sum_list_with slot (sy_threads s) + free (sy_pool s) = limit
}.

Lemma idle_set p p' g st c : cp_state p = Some g -> g < length (cp_states p) -> cp_state p' = Some g -> cp_states p' = <[g := st]> (cp_states p) ->
  idle p' c = one (bool_decide (c ∈ st_idle st)).
Proof. intros Hg Hl H1 H2. unfold idle, the_state. by rewrite H1, H2, list_lookup_insert_eq. Qed.
Lemma idle_same p p' c : cp_state p' = cp_state p -> cp_states p' = cp_states p -> idle p' c = idle p c.
Proof. intros H1 H2. unfold idle, the_state. by rewrite H1, H2. Qed.
(** A step gives nobody a second hold, and keeps the slots. *)
Lemma step_holds p handed t e t' new p' c : pool_ok mode p handed -> thread_ok mode p handed t -> thread_step mode t e p = Some (t', new, p') ->
  (forall g, t <> T_Install g c) -> holds c t' + sum_list_with (holds c) new + idle p' c <= holds c t + idle p c.
Proof.
  intros Hpool [Hmode Hknows] H Hni.
  assert (Hcur : forall g, cp_state p = Some g -> g < length (cp_states p) /\ state_ok mode (the_state p g) handed) by (intros g Hg; unfold pool_ok in Hpool; by rewrite Hg in Hpool).
  assert (Hrm : forall g conn, cp_state p = Some g -> idle (removeConn mode p g conn) c <= idle p c).
  { intros g conn Hg. destruct (Hcur g Hg) as [Hl _]. rewrite (idle_set p (removeConn mode p g conn) g (set_idle (set_all (the_state p g) (st_all (the_state p g) ∖ {[conn]})) (filter (fun c => c <> conn) (st_idle (the_state p g)))) c Hg Hl Hg eq_refl).
    unfold idle. rewrite Hg. apply one_mono. cbn. by intros [_ ?]%list_elem_of_filter. }
  destruct t as [|conn|g k sd|g k|g k conn err|g k result|k conn|k| |conn|g|g|conn err|g conn|conn|[[conn cr]|err]|conn reuse|conn|conn| | |g|[|conn conns]|];
    try (specialize (Hmode _ eq_refl); done); destruct e as [alive| | |ok err' ctxErr|reuse']; cbn [thread_step] in H; try done; apply (inj Some) in H || idtac.
  all: try (injection H as <- <- <-; cbn; by rewrite ?(idle_same p) by done).
  - unfold acquireOrdered in H. destruct (cp_state p) as [g|] eqn:Hg; [|injection H as <- <- <-; cbn; lia]. destruct (Hcur g eq_refl) as [Hl Hok]. pose proof (so_nodup _ _ _ Hok) as Hnd.
    assert (Hi : idle p c = one (bool_decide (c ∈ st_idle (the_state p g)))) by (unfold idle; by rewrite Hg).
    destruct (st_idle (the_state p g)) as [|conn l] eqn:El; [injection H as <- <- <-; cbn; lia|]. apply list.NoDup_cons in Hnd as [Hni' _].
    destruct (alive conn); injection H as <- <- <-; erewrite idle_set by done; rewrite Hi; cbn; unfold one; repeat case_bool_decide; try lia; set_solver.
  - destruct (cp_sem p) as [[|n]|]; [done|..]; injection H as <- <- <-; by rewrite ?(idle_same p).
  - destruct (bool_decide _); [|done]. by injection H as <- <- <-.
  - destruct (_ && _); [|done]. by injection H as <- <- <-.
  - unfold ordered_dialled in H. destruct ok; [destruct (dial_error _ _ _)|]; injection H as <- <- <-; by rewrite ?(idle_same p).
  - unfold ordered_install in H. case_bool_decide as Hg; injection H as <- <- <-; [|done]. destruct (Hcur g Hg) as [Hl Hok]. erewrite idle_set by done.
    cbn. rewrite bool_decide_eq_false_2 by (intros ->; by apply (Hni g)). unfold idle. by rewrite Hg.
  - injection H as <- <- <-. cbn. lia.
  - unfold Pool_Release in H. destruct (cp_state p) as [g|] eqn:Hg; [|injection H as <- <- <-; cbn; lia]. case_bool_decide as Hin; cbn [negb] in H; [|injection H as <- <- <-; cbn; lia].
    destruct (negb reuse || negb (alive conn)); [injection H as <- <- <-; specialize (Hrm g conn eq_refl); cbn in *; lia|]. case_bool_decide; injection H as <- <- <-; [cbn; lia|].
    destruct (Hcur g eq_refl) as [Hl Hok]. erewrite idle_set by done. unfold idle. rewrite Hg. cbn. unfold one. repeat case_bool_decide; try lia. set_solver.
  - unfold Pool_Invalidate in H. destruct (cp_state p) as [g|] eqn:Hg; [|injection H as <- <- <-; cbn; lia].
    case_bool_decide; injection H as <- <- <-; [specialize (Hrm g conn eq_refl); cbn in *; lia|cbn; lia].
  - unfold Pool_Reset in H. destruct (cp_state p) as [g|] eqn:Hg; injection H as <- <- <-; [|cbn; lia]. unfold idle at 1. cbn. unfold the_state. cbn.
    rewrite lookup_app_r, Nat.sub_diag by done. cbn. rewrite bool_decide_eq_false_2 by apply not_elem_of_nil. cbn. lia.
  - unfold Pool_Close in H. destruct (cp_state p) as [g|] eqn:Hg; injection H as <- <- <-; cbn; lia.
  - injection H as <- <- <-. cbn. unfold idle. cbn. destruct (cp_state p) as [g'|] eqn:Hg; [|lia]. destruct Hknows as [_ Hn]. rewrite the_state_other; [lia|congruence].
Qed.
Lemma step_slots p handed t e t' new p' : thread_ok mode p handed t -> thread_step mode t e p = Some (t', new, p') -> cp_sem p <> None ->
  cp_sem p' <> None /\ slot t' + sum_list_with slot new + free p' = slot t + free p.
Proof.
  intros [Hmode _] H Hs. destruct (cp_sem p) as [n|] eqn:En; [clear Hs|done]. unfold free.
  destruct t as [|conn|g k sd|g k|g k conn err|g k result|k conn|k| |conn|g|g|conn err|g conn|conn|[[conn cr]|err]|conn reuse|conn|conn| | |g|[|conn conns]|];
    try (specialize (Hmode _ eq_refl); done); destruct e as [alive| | |ok err' ctxErr|reuse']; cbn [thread_step] in H; try done.
  all: unfold acquireOrdered, ordered_dialled, ordered_install, Pool_Release, Pool_Invalidate, Pool_Reset, Pool_Close, removeConn in H;
    repeat match type of H with
    | context [match ?x with _ => _ end] => first [is_var x; destruct x|destruct x eqn:?]
    | context [if ?x then _ else _] => destruct x eqn:?
    end; try done; simplify_eq; cbn; rewrite ?En; cbn; (split; [done|lia]).
Qed.

(** A connection that somebody holds was handed out. *)
Lemma held_handed p handed l c : Forall (thread_ok mode p handed) l -> c ∉ handed.*1 -> sum_list_with (holds c) l = 0.
Proof.
  intros Hl Hn. induction Hl as [|t l [_ Ht] _ IH]; [done|]. cbn. rewrite IH.
  destruct t as [| | | | | | | | | | | | | | |[[conn cr]|err]|conn reuse| | | | | | |]; cbn in *; try done; rewrite bool_decide_eq_false_2; (done || (intros ->; done)).
Qed.
Lemma order_step limit a s s' : pool_inv mode s -> order_inv limit s -> pool_sys_step mode a s = Some s' -> order_inv limit s'.
Proof.
  intros Hinv [Hheld Hslots]. destruct a as [c|i e].
  - intros (t & Hcall & [= <-])%bind_Some. assert (Hz : (forall c, holds c t = 0) /\ slot t = 0) by (destruct c; cbn in Hcall; try case_bool_decide; by simplify_eq).
    destruct Hz as [Hz1 Hz2]. constructor; cbn [sy_threads sy_pool]; [intros c'|]; rewrite sum_list_with_app; cbn; rewrite ?Hz1, ?Hz2, !Nat.add_0_r; [apply Hheld|done].
  - intros Hstep. destruct (run_good mode i e s s' Hinv Hstep) as (t & t' & new & Hi & Hts & Hl & _ & _). destruct (run_split _ new i t t' Hi) as (l1 & l2 & Hl1 & Hl2).
    rewrite Hl2 in Hl. destruct Hinv as [Hpl Hh Ht Hpool _]. pose proof (Forall_lookup_1 _ _ _ _ Ht Hi) as Hok. constructor.
    + intros c. specialize (Hheld c). rewrite Hl, !sum_list_with_app. cbn. rewrite sum_list_with_app. rewrite Hl1, sum_list_with_app in Hheld. cbn in Hheld.
      assert (Hcase : (exists g, t = T_Install g c) \/ (forall g, t <> T_Install g c)).
      { destruct t as [| | | | | | | | | | | | |g conn| | | | | | | | | |]; try (by right). destruct (decide (conn = c)) as [->|]; [left; by exists g|right; congruence]. }
      destruct Hcase as [[g ->]|Hni].
      * assert (Hn : c ∉ (sy_handed s).*1).
        { intros Hin. destruct (Hh c Hin) as [_ Hz]. rewrite Hl1, sum_list_with_app in Hz. cbn in Hz. rewrite bool_decide_eq_true_2 in Hz by done. cbn in Hz. lia. }
        rewrite Hl1 in Ht. apply list.Forall_app in Ht as [Ht1 [_ Ht2]%list.Forall_cons]. rewrite !(held_handed (sy_pool s) (sy_handed s)) by done.
        destruct e; try done. cbn in Hts. apply (inj Some) in Hts. unfold ordered_install in Hts. case_bool_decide as Hg; injection Hts as <- <- Hp; cbn; [|rewrite <-Hp; lia].
        unfold pool_ok in Hpool. rewrite Hg in Hpool. destruct Hpool as [Hlen Hst]. rewrite (bool_decide_eq_true_2 (c = c)) by done. rewrite <-Hp. erewrite idle_set by done.
        rewrite bool_decide_eq_false_2; [done|]. cbn. intros Hin. apply (so_idle _ _ _ Hst) in Hin.
        destruct (Hpl c) as (H1 & _ & _). rewrite Hl1, sum_list_with_app in H1. cbn in H1. rewrite (tracked_at _ g) in H1 by done.
        rewrite !bool_decide_eq_true_2 in H1 by done. cbn in H1. lia.
      * pose proof (step_holds _ _ _ _ _ _ _ c Hpool Hok Hts) as Hle. specialize (Hle Hni). lia.
    + intros Hlim. destruct (Hslots Hlim) as [Hs Hsum]. destruct (step_slots _ _ _ _ _ _ _ Hok Hts Hs) as [Hs' Heq]. split; [done|].
      rewrite Hl, !sum_list_with_app. cbn. rewrite sum_list_with_app. rewrite Hl1, sum_list_with_app in Hsum. cbn in Hsum. lia.
Qed.
Lemma reachable_order limit s : reachable mode limit s -> order_inv limit s.
Proof.
  induction 1 as [|a s s' Hr IH Hs]; [|eapply order_step; [by eapply reachable_pool|done..]]. constructor; cbn [sy_threads sy_pool].
  - intros c. unfold idle. cbn. rewrite bool_decide_eq_false_2 by apply not_elem_of_nil. cbn. lia.
  - intros Hl. unfold free. cbn [NewConnPool cp_sem]. rewrite (proj2 (Nat.ltb_lt 0 limit) Hl). by split.
Qed.
(** A goroutine that is dialling *)
Definition dialling (t : Thread) : bool := match t with T_Dial _ => true | _ => false end.
Lemma slot_count l : length (List.filter dialling l) <= sum_list_with slot l.
Proof. induction l as [|t l IH]; [done|]. cbn. destruct t; cbn; lia. Qed.

(** C26: With [ConnPoolOrdered] a connection has one holder at a time: over all
    interleavings, two callers never hold the same connection between its acquisition
    and the end of its release, and a connection that somebody holds is not in the list
    of idle ones.  With [MaxInflight] set, at most that many dials are on their way at
    any time, and no slot is lost: when nobody holds one, all are free. *)
Theorem ordered_pool_exclusive limit s : reachable mode limit s ->
  (forall i j t1 t2 c, sy_threads s !! i = Some t1 -> sy_threads s !! j = Some t2 -> i <> j -> holds c t1 = 1 -> holds c t2 = 1 -> False) /\
  (forall i t g c, sy_threads s !! i = Some t -> holds c t = 1 -> cp_state (sy_pool s) = Some g -> c ∉ st_idle (the_state (sy_pool s) g)) /\
  (0 < limit -> length (List.filter dialling (sy_threads s)) <= limit /\
     (Forall (fun t => slot t = 0) (sy_threads s) -> cp_sem (sy_pool s) = Some limit)).
Proof.
  intros Hr. destruct (reachable_order limit s Hr) as [Hh Hs]. split; [|split].
  - intros i j t1 t2 c Hi Hj Hne H1 H2. pose proof (sum_pair (holds c) _ i j t1 t2 Hi Hj Hne). specialize (Hh c). lia.
  - intros i t g c Hi H1 Hg Hin. specialize (Hh c). unfold idle in Hh. rewrite Hg, bool_decide_eq_true_2 in Hh by done. cbn in Hh.
    apply list_elem_of_split_length in Hi as (l1 & l2 & Hl & _). rewrite Hl, sum_list_with_app in Hh. cbn in Hh. lia.
  - intros Hl. destruct (Hs Hl) as [Hsem Hsum]. pose proof (slot_count (sy_threads s)). split; [lia|]. intros Hz.
    assert (Hsum0 : sum_list_with slot (sy_threads s) = 0) by (by apply sum_zero).
    unfold free in Hsum. destruct (cp_sem (sy_pool s)); [|done]. cbn in Hsum. f_equal. lia.
Qed.

(** ** The connection pool at work

    Two callers share one dial, the pool is reset and closed; a dial that comes too
    late is closed; two callers of an ordered pool. *)

From S2P Require Import ConnPoolWait.

Module PoolDemo.
Definition run (mode : ConnPoolMode) (actions : list Action) (s : System) : option System :=
  fold_left (fun s a => s ← s; pool_sys_step mode a s) actions (Some s).
Lemma run_none mode actions : fold_left (fun s a => s ← s; pool_sys_step mode a s) actions None = None.
Proof. by induction actions. Qed.
Lemma run_reachable mode limit actions : forall s s', reachable mode limit s -> run mode actions s = Some s' -> reachable mode limit s'.
Proof.
  unfold run. induction actions as [|a actions IH]; intros s s' Hr; cbn; [by intros [= <-]|].
  destruct (pool_sys_step mode a s) as [s1|] eqn:E; [|by rewrite run_none]. apply IH. by eapply reach_step.
Qed.
Definition start (mode : ConnPoolMode) (limit : nat) : System := mkSystem [] (NewConnPool mode limit) [].
Definition go : Event := Go (fun _ => true).
Definition no_error : error := E_New [AStr "unused"].

(** Two callers; the first one dials. *)
Definition two_callers : list Action := [Start C_Acquire; Start C_Acquire; Run 0 go; Run 1 go].
(** The dial succeeds and both get the connection; then the pool is closed. *)
Definition shared : list Action :=
  two_callers ++ [Run 2 (Dialled true no_error None); Run 2 go; Run 2 go; Run 1 go; Run 0 go].
Definition closing : list Action := [Start C_Close; Run 3 go; Run 3 go; Run 3 go; Run 3 go].
(** The pool is closed while the dial is on its way. *)
Definition too_late : list Action :=
  two_callers ++ [Start C_Close; Run 3 go; Run 3 go; Run 3 go; Run 2 (Dialled true no_error None); Run 2 go; Run 2 go; Run 2 go; Run 0 StateDone; Run 1 go].
(** Two dials with two slots in an ordered pool *)
Definition ordered : list Action :=
  [Start C_Acquire; Start C_Acquire; Start C_Acquire; Run 0 go; Run 1 go; Run 2 go; Run 0 go; Run 1 go; Run 0 (Dialled true no_error None); Run 0 go].
Definition after (mode : ConnPoolMode) (limit : nat) (actions : list Action) : System := default (start mode limit) (run mode actions (start mode limit)).
Definition runs (mode : ConnPoolMode) (limit : nat) (actions : list Action) : bool := match run mode actions (start mode limit) with Some _ => true | None => false end.
Lemma after_reachable mode limit actions : runs mode limit actions = true -> reachable mode limit (after mode limit actions).
Proof.
  intros H. unfold runs, after in *. destruct (run mode actions (start mode limit)) as [s|] eqn:E; [|done]. cbn. eapply run_reachable; [constructor|exact E].
Qed.
End PoolDemo.
Import PoolDemo.

(** The second caller claims the connection first. *)
Example shared_example : let s := after ConnPoolSingle 0 shared in sy_handed s = [(0, false); (0, true)] /\ cp_closed (sy_pool s) = [].
Proof. vm_compute. done. Qed.
Example too_late_example : let s := after ConnPoolSingle 0 too_late in
  sy_threads s !! 0 = Some (T_Return (inr ErrClosed)) /\ sy_threads s !! 1 = Some T_Shared /\ cp_closed (sy_pool s) = [0] /\ cp_next (sy_pool s) = 1.
Proof. vm_compute. done. Qed.

Example pool_loses_no_connection_witness : let s := after ConnPoolSingle 0 (shared ++ closing) in
  cp_next (sy_pool s) = 1 /\ 0 ∈ cp_closed (sy_pool s) /\ NoDup (filter (fun r => r.2 = true) (sy_handed s)).*1.
Proof.
  set (s := after _ _ _). destruct (pool_loses_no_connection ConnPoolSingle 0 s) as (_ & H2 & _ & H4).
  - apply after_reachable. vm_compute. done.
  - split; [vm_compute; done|]. split; [|exact H4]. apply H2; [|vm_compute; done|vm_compute; lia].
    vm_compute. by repeat (constructor; [done|]).
Defined.
Example pool_waiters_resume_witness : let s := after ConnPoolSingle 0 two_callers in
  sy_threads s !! 1 = Some (T_Wait 0 0 false) /\
  ((forall alive, exists s', pool_sys_step ConnPoolSingle (Run 1 (Go alive)) s = Some s') \/ (exists j t, sy_threads s !! j = Some t /\ serves 0 t = 1)) /\
  cp_panicked (sy_pool s) = false.
Proof.
  set (s := after _ _ _). destruct (pool_waiters_resume ConnPoolSingle 0 s) as (H1 & H2 & _).
  - apply after_reachable. vm_compute. done.
  - split; [vm_compute; done|]. split; [|exact H2]. destruct (H1 1 0 0 false) as [H|(j & t & H & Hs & _)]; [vm_compute; done|left; exact H|right]. exists j, t. split; [exact H|exact Hs].
Defined.
Example ordered_pool_exclusive_witness : let s := after ConnPoolOrdered 2 ordered in
  length (List.filter dialling (sy_threads s)) <= 2 /\ sy_threads s !! 0 = Some (T_Return (inl (0, true))) /\ 0 ∉ st_idle (the_state (sy_pool s) 0).
Proof.
  set (s := after _ _ _). destruct (ordered_pool_exclusive 2 s) as (_ & H2 & H3).
  - apply after_reachable. vm_compute. done.
  - destruct H3 as [H3 _]; [lia|]. split; [exact H3|]. split; [vm_compute; done|]. apply (H2 0 (T_Return (inl (0, true)))); vm_compute; done.
Defined.
