(* ===== verification/Multiplexer.v ===== *)
(** * The query multiplexer of the DNS transports

    [dns/transport/multiplexer.go]: many queries over one connection, told apart by an
    identifier of 16 bits; their responses, the ends of their contexts and the end of
    the connection race for them.  Servers that do not answer several queries on one
    connection are found by a probe and get a connection per query.

    A step is what a goroutine does between two operations on shared state.  A query
    is the number of its call; a connection is a number; a registration is a number,
    under which the two functions of [context.AfterFunc] are armed.  Of the connection
    pool (file [ConnPool]) the multiplexer sees the results of [AcquireShared] and the
    contexts of connections, which [Invalidate], [Reset] and [Close] cancel. *)

From stdpp Require Import base numbers list gmap sets strings option.
From Stdlib Require Import ZArith Lia.
From S2P Require Import Prelude.

Local Open Scope Z_scope.

Inductive ReuseState := reuseStateUnknown | reuseStateProbing | reuseStateSupported | reuseStateUnsupported.
#[global] Instance reuse_dec : EqDecision ReuseState.
Proof. solve_decision. Defined.
Definition reuseProbeRetryInterval : Z := 60000000000.
Definition reuseDemoteFailureLimit : Z := 3.
Definition reuseProbeQueryIdA : Z := 1.
Definition reuseProbeQueryIdB : Z := 2.

(** Why a connection ended: [queryMultiplexerReadError] or another error *)
Inductive ConnCause := ReadError (cause : error) | OtherCause (cause : error).
Definition cause_error (c : ConnCause) : error := match c with ReadError e | OtherCause e => e end.

(** [pendingQuery]: its connection, its query (message, callback and context), the
    read epoch at its registration, whether it is tried again ([retryCtx]), and the
    registration of its functions *)
Record pendingQuery := mkPending {
  pe_conn : nat;
  pe_query : nat;
  pe_readEpoch : nat;
  pe_retry : bool;
  pe_reg : nat
}.

(** [queryMultiplexer]; the read epochs of connections; the armed functions of
    registrations and what they are for (identifier, query, connection); the
    connections whose contexts are cancelled, and those the pool no longer tracks *)
Record Mux := mkMux {
  mx_queryId : Z;
  mx_queries : gmap Z pendingQuery;
  mx_reuse : ReuseState;
  mx_demoteFailures : Z;
  mx_probeEpoch : Z;
  mx_lastProbeTime : option Z;
  mx_epochs : gmap nat nat;
  mx_regs : list (Z * nat * nat);
  mx_ctxArmed : list nat;
  mx_connArmed : list nat;
  mx_cancelled : gmap nat ConnCause;
  mx_dropped : list nat
}.
Definition newQueryMultiplexer : Mux := mkMux 0 ∅ reuseStateUnknown 0 0 None ∅ [] [] [] ∅ [].

Definition set_queries (m : Mux) (queryId : Z) (queries : gmap Z pendingQuery) : Mux :=
  mkMux queryId queries (mx_reuse m) (mx_demoteFailures m) (mx_probeEpoch m) (mx_lastProbeTime m) (mx_epochs m) (mx_regs m) (mx_ctxArmed m) (mx_connArmed m) (mx_cancelled m) (mx_dropped m).
Definition set_reuse (m : Mux) (reuse : ReuseState) (failures epoch : Z) (time : option Z) : Mux :=
  mkMux (mx_queryId m) (mx_queries m) reuse failures epoch time (mx_epochs m) (mx_regs m) (mx_ctxArmed m) (mx_connArmed m) (mx_cancelled m) (mx_dropped m).
Definition set_epochs (m : Mux) (epochs : gmap nat nat) : Mux :=
  mkMux (mx_queryId m) (mx_queries m) (mx_reuse m) (mx_demoteFailures m) (mx_probeEpoch m) (mx_lastProbeTime m) epochs (mx_regs m) (mx_ctxArmed m) (mx_connArmed m) (mx_cancelled m) (mx_dropped m).
Definition set_armed (m : Mux) (regs : list (Z * nat * nat)) (ctx conn : list nat) : Mux :=
  mkMux (mx_queryId m) (mx_queries m) (mx_reuse m) (mx_demoteFailures m) (mx_probeEpoch m) (mx_lastProbeTime m) (mx_epochs m) regs ctx conn (mx_cancelled m) (mx_dropped m).
Definition set_cancelled_conns (m : Mux) (cancelled : gmap nat ConnCause) : Mux :=
  mkMux (mx_queryId m) (mx_queries m) (mx_reuse m) (mx_demoteFailures m) (mx_probeEpoch m) (mx_lastProbeTime m) (mx_epochs m) (mx_regs m) (mx_ctxArmed m) (mx_connArmed m) cancelled (mx_dropped m).
Definition set_dropped (m : Mux) (dropped : list nat) : Mux :=
  mkMux (mx_queryId m) (mx_queries m) (mx_reuse m) (mx_demoteFailures m) (mx_probeEpoch m) (mx_lastProbeTime m) (mx_epochs m) (mx_regs m) (mx_ctxArmed m) (mx_connArmed m) (mx_cancelled m) dropped.
(** A context is cancelled with the first cause it gets. *)
Definition cancel_context (m : Mux) (conn : nat) (cause : ConnCause) : Mux :=
  match mx_cancelled m !! conn with Some _ => m | None => set_cancelled_conns m (<[conn := cause]> (mx_cancelled m)) end.
(** [ConnPool.Invalidate]: nothing happens to a connection that the pool no longer
    tracks; [Reset] and [Close] cancel its context. *)
Definition pool_Invalidate (m : Mux) (conn : nat) (cause : ConnCause) : Mux :=
  if bool_decide (conn ∈ mx_dropped m) then m else cancel_context m conn cause.
Definition epoch_of (m : Mux) (conn : nat) : nat := default 0%nat (mx_epochs m !! conn).

Section Mux.
(** A message: its identifier and the rest *)
Context {Body : Type}.
Record Msg := mkMsg { msg_Id : Z; msg_body : Body }.
Inductive Outcome := Answer (response : Msg) | Failed (err : error).

(** [queryMultiplexerOptions], and the messages of the queries *)
Context (probeReuse retryReadError : bool) (message : nat -> Msg) (hasQuestion : nat -> bool).

(** ** Identifiers *)

(** One round of the loop of [register]: it goes on from an identifier, or ends *)
Definition try_id (queries : gmap Z pendingQuery) (start id : Z) : Z + option Z :=
  let id := u16 (id + 1) in
  match queries !! id with
  | None => inr (Some id)
  | Some _ => if id =? start then inr None else inl id
  end.
(** The rounds of the loop.  Fuel: [2 ^ k] rounds. *)
Fixpoint next_id (k : nat) (queries : gmap Z pendingQuery) (start id : Z) : Z + option Z :=
  match k with
  | O => try_id queries start id
  | S k => match next_id k queries start id with inl id => next_id k queries start id | r => r end
  end.
(** [register] *)
Definition register (m : Mux) (q conn : nat) (retry : bool) : option (Z * Mux) :=
  match next_id 16 (mx_queries m) (mx_queryId m) (mx_queryId m) with
  | inl _ | inr None => None
  | inr (Some id) =>
      let reg := length (mx_regs m) in
      let m := set_queries m id (<[id := mkPending conn q (epoch_of m conn) retry reg]> (mx_queries m)) in
      Some (id, set_armed m (mx_regs m ++ [(id, q, conn)]) (reg :: mx_ctxArmed m) (reg :: mx_connArmed m))
  end.
(** [take], up to the stopping of the functions *)
Definition take_query (m : Mux) (id : Z) : option pendingQuery * Mux :=
  match mx_queries m !! id with
  | None => (None, m)
  | Some pe => (Some pe, set_queries m (mx_queryId m) (delete id (mx_queries m)))
  end.
(** [pending.stopContext()] and [pending.stopConn()] *)
Definition stop (m : Mux) (reg : nat) : Mux :=
  set_armed m (mx_regs m) (filter (fun r => r <> reg) (mx_ctxArmed m)) (filter (fun r => r <> reg) (mx_connArmed m)).

(** ** The probe *)

(** [maybeStartProbe] *)
Definition maybeStartProbe (now : Z) (q : nat) (m : Mux) : option Z * Mux :=
  if negb (hasQuestion q) then (None, m)
  else if bool_decide (mx_reuse m = reuseStateProbing) then (None, m)
  else if match mx_lastProbeTime m with Some t => now - t <? reuseProbeRetryInterval | None => false end then (None, m)
  else (Some (mx_probeEpoch m), set_reuse m reuseStateProbing (mx_demoteFailures m) (mx_probeEpoch m) (Some now)).
(** The identifiers the probe reads until it has both; when nothing more comes the
    timeout closes the connection, and reading fails *)
Fixpoint probe_reads (reads : list (option Z + error)) (seenA seenAAAA : bool) : bool :=
  if seenA && seenAAAA then true
  else match reads with
       | [] | inr _ :: _ => false
       | inl None :: reads => probe_reads reads seenA seenAAAA
       | inl (Some id) :: reads => probe_reads reads (seenA || (id =? reuseProbeQueryIdA)) (seenAAAA || (id =? reuseProbeQueryIdB))
       end.
(** [executeReuseProbe]: whether the dial and both writes succeed, and what is read *)
Definition executeReuseProbe (dialled wroteA wroteAAAA : bool) (reads : list (option Z + error)) : bool * bool :=
  if negb dialled then (false, true)
  else if negb (wroteA && wroteAAAA) then (false, false)
  else (probe_reads reads false false, false).
(** [runReuseProbe] after the probe *)
Definition runReuseProbe (supported dialFailed : bool) (epoch : Z) (m : Mux) : Mux :=
  if negb (mx_probeEpoch m =? epoch) then m
  else if supported then set_reuse m reuseStateSupported 0 (mx_probeEpoch m) (mx_lastProbeTime m)
  else if dialFailed then set_reuse m reuseStateUnknown (mx_demoteFailures m) (mx_probeEpoch m) (mx_lastProbeTime m)
  else set_reuse m reuseStateUnsupported (mx_demoteFailures m) (mx_probeEpoch m) (mx_lastProbeTime m).
(** [recordConnDeath] *)
Definition recordConnDeath (now : Z) (conn : nat) (m : Mux) : Mux :=
  if negb probeReuse || negb (bool_decide (mx_reuse m = reuseStateSupported)) then m
  else if (epoch_of m conn =? 0)%nat then m
  else if bool_decide (map_Forall (fun _ pe => pe_conn pe <> conn) (mx_queries m)) then set_reuse m (mx_reuse m) 0 (mx_probeEpoch m) (mx_lastProbeTime m)
  else
    let failures := mx_demoteFailures m + 1 in
    if failures <? reuseDemoteFailureLimit then set_reuse m (mx_reuse m) failures (mx_probeEpoch m) (mx_lastProbeTime m)
    else set_reuse m reuseStateUnsupported 0 (mx_probeEpoch m) (Some now).
(** [Reset], without the pool *)
Definition Mux_Reset (m : Mux) : Mux :=
  if probeReuse then set_reuse m reuseStateUnknown 0 (wrap 32 (mx_probeEpoch m + 1)) None else m.

(** ** The goroutines *)

Inductive Goroutine :=
  (* [dispatch], [maybeStartProbe] and [exchangeSingle] *)
  | G_Dispatch (q : nat) (retry : bool)
  | G_StartProbe (q : nat)
  | G_SingleDial (q : nat)
  | G_SingleWrite (q : nat)
  | G_SingleRead (q : nat)
  (* [exchangeAsync] *)
  | G_Acquire (q : nat) (retry first : bool)
  | G_Register (q conn : nat) (created retry first : bool)
  | G_Write (q : nat) (id : Z) (conn : nat) (created retry first : bool)
  | G_WriteFailed (q : nat) (id : Z) (conn : nat) (created retry first : bool) (err : error)
  | G_WriteTaken (q conn : nat) (created retry first : bool) (err : error) (found : bool)
  (* [completeContextDone] and [completeConnDone] *)
  | G_ContextDone (id : Z)
  | G_ContextTaken (pe : pendingQuery)
  | G_ConnDone (id : Z) (conn : nat)
  | G_ConnTaken (pe : pendingQuery) (conn : nat)
  (* [recvLoop] and [complete] *)
  | G_Recv (conn : nat)
  | G_Complete (conn : nat) (response : Msg)
  | G_Completed (conn : nat) (pe : pendingQuery) (response : Msg)
  | G_Death (conn : nat) (err : error)
  (* a call of a callback, the functions that are stopped, [runReuseProbe] *)
  | G_Callback (q : nat) (outcome : Outcome) (next : Goroutine)
  | G_Stop (reg : nat) (next : Goroutine)
  | G_Probe (epoch : Z)
  | G_End.

(** What moves a goroutine: it goes on, at a time; the results of dials, acquisitions,
    writes and reads, with the error of the context if it has ended; the error of the
    context and whether its deadline passed; what happens to a probe *)
Inductive MuxEvent :=
  | V_Go (now : Z)
  | V_Dialled (err : option error)
  | V_Acquired (result : (nat * bool) + error)
  | V_Wrote (err : option error) (ctxErr : option error)
  | V_Read (result : (option Msg) + error) (ctxErr : option error)
  | V_ContextErr (err : error) (deadline : bool)
  | V_Probed (dialled wroteA wroteAAAA : bool) (reads : list (option Z + error)).

(** The error of an operation, or that of the context *)
Definition op_error (err : error) (ctxErr : option error) (what : string) : error :=
  match ctxErr with Some e => e | None => E_Cause err [AStr what] end.
Definition no_id : error := E_New [AStr "no available query ID"].

(** A step of a goroutine: what it does next, the goroutines it starts, the
    multiplexer, and the callback it calls *)
Definition mux_step (t : Goroutine) (e : MuxEvent) (m : Mux) : option (Goroutine * list Goroutine * Mux * list (nat * Outcome)) :=
  match t, e with
  | G_Dispatch q retry, V_Go _ =>
      if probeReuse && negb (bool_decide (mx_reuse m = reuseStateSupported)) then Some (G_StartProbe q, [], m, [])
      else Some (G_Acquire q retry true, [], m, [])
  | G_StartProbe q, V_Go now =>
      let '(probe, m) := maybeStartProbe now q m in
      Some (G_SingleDial q, match probe with Some epoch => [G_Probe epoch] | None => [] end, m, [])
  | G_SingleDial q, V_Dialled err =>
      Some (match err with Some e => G_Callback q (Failed e) G_End | None => G_SingleWrite q end, [], m, [])
  | G_SingleWrite q, V_Wrote err ctxErr =>
      Some (match err with Some e => G_Callback q (Failed (op_error e ctxErr "write request")) G_End | None => G_SingleRead q end, [], m, [])
  | G_SingleRead q, V_Read result ctxErr =>
      Some (match result with
            | inr e => G_Callback q (Failed (op_error e ctxErr "read response")) G_End
            | inl None => G_SingleRead q
            | inl (Some response) => G_Callback q (Answer (mkMsg (msg_Id (message q)) (msg_body response))) G_End
            end, [], m, [])
  | G_Acquire q retry first, V_Acquired result =>
      Some (match result with
            | inr e => (G_Callback q (Failed e) G_End, [], m, [])
            | inl (conn, created) => (G_Register q conn created retry first, if created then [G_Recv conn] else [], m, [])
            end)
  | G_Register q conn created retry first, V_Go _ =>
      match register m q conn (retry && retryReadError && negb created) with
      | None => Some (G_Callback q (Failed no_id) G_End, [], m, [])
      | Some (id, m) => Some (G_Write q id conn created retry first, [], m, [])
      end
  | G_Write q id conn created retry first, V_Wrote err _ =>
      Some (match err with None => G_End | Some e => G_WriteFailed q id conn created retry first e end, [], m, [])
  | G_WriteFailed q id conn created retry first err, V_Go _ =>
      let '(pe, m) := take_query m id in
      Some (match pe with
            | None => G_WriteTaken q conn created retry first err false
            | Some pe => G_Stop (pe_reg pe) (G_WriteTaken q conn created retry first err true)
            end, [], m, [])
  | G_WriteTaken q conn created retry first err found, V_Go _ =>
      Some (if negb found then G_End
            else if negb created && first then G_Acquire q retry false
            else G_Callback q (Failed (E_Cause err [AStr "write request"])) G_End,
            [], pool_Invalidate m conn (OtherCause err), [])
  | G_ContextDone id, V_Go _ =>
      let '(pe, m) := take_query m id in
      Some (match pe with None => G_End | Some pe => G_Stop (pe_reg pe) (G_ContextTaken pe) end, [], m, [])
  | G_ContextTaken pe, V_ContextErr err deadline =>
      Some (G_Callback (pe_query pe) (Failed err) G_End, [],
            if deadline && (epoch_of m (pe_conn pe) =? pe_readEpoch pe)%nat then pool_Invalidate m (pe_conn pe) (OtherCause err) else m, [])
  | G_ConnDone id conn, V_Go _ =>
      let '(pe, m) := take_query m id in
      Some (match pe with None => G_End | Some pe => G_Stop (pe_reg pe) (G_ConnTaken pe conn) end, [], m, [])
  | G_ConnTaken pe conn, V_Go _ =>
      match mx_cancelled m !! conn with
      | Some (ReadError e) => Some (if pe_retry pe then G_Dispatch (pe_query pe) false else G_Callback (pe_query pe) (Failed e) G_End, [], m, [])
      | Some (OtherCause e) => Some (G_Callback (pe_query pe) (Failed e) G_End, [], m, [])
      | None => None
      end
  | G_Recv conn, V_Read result _ =>
      let read := set_epochs m (<[conn := S (epoch_of m conn)]> (mx_epochs m)) in
      Some (match result with
            | inr e => (G_Death conn e, [], m, [])
            | inl None => (G_Recv conn, [], read, [])
            | inl (Some response) => (G_Complete conn response, [], read, [])
            end)
  | G_Complete conn response, V_Go _ =>
      let '(pe, m) := take_query m (msg_Id response) in
      Some (match pe with None => G_Recv conn | Some pe => G_Stop (pe_reg pe) (G_Completed conn pe response) end, [], m, [])
  | G_Completed conn pe response, V_Go _ =>
      Some (G_Callback (pe_query pe) (Answer (mkMsg (msg_Id (message (pe_query pe))) (msg_body response))) (G_Recv conn), [], m, [])
  | G_Death conn err, V_Go now => Some (G_End, [], pool_Invalidate (recordConnDeath now conn m) conn (ReadError err), [])
  | G_Callback q outcome next, V_Go _ => Some (next, [], m, [(q, outcome)])
  | G_Stop reg next, V_Go _ => Some (next, [], stop m reg, [])
  | G_Probe epoch, V_Probed dialled wroteA wroteAAAA reads =>
      let '(supported, dialFailed) := executeReuseProbe dialled wroteA wroteAAAA reads in
      Some (G_End, [], runReuseProbe supported dialFailed epoch m, [])
  | _, _ => None
  end.

(** ** Several goroutines *)

(** The goroutines, the multiplexer, the callbacks that were called, and the next query *)
Record MuxSystem := mkMuxSystem {
  ms_goroutines : list Goroutine;
  ms_mux : Mux;
  ms_called : list (nat * Outcome);
  ms_next : nat
}.
(** [ExchangeAsync]; the context of a query ends and the function of a registration
    runs; the function of a registration runs for a cancelled connection; [Reset] or
    [Close] of the pool gives up the connections it tracks, and later cancels their
    contexts; [Reset]; a step of a goroutine *)
Inductive MuxAction :=
  | U_Exchange
  | U_ContextEnds (reg : nat)
  | U_ConnEnds (reg : nat)
  | U_PoolDrops (conn : nat)
  | U_PoolCloses (conn : nat) (err : error)
  | U_Reset
  | U_Run (i : nat) (e : MuxEvent).
Definition disarm (reg : nat) (l : list nat) : list nat := filter (fun r => r <> reg) l.
Definition mux_system_step (a : MuxAction) (s : MuxSystem) : option MuxSystem :=
  let m := ms_mux s in
  let spawn t m := mkMuxSystem (ms_goroutines s ++ [t]) m (ms_called s) (ms_next s) in
  match a with
  | U_Exchange => Some (mkMuxSystem (ms_goroutines s ++ [G_Dispatch (ms_next s) true]) m (ms_called s) (S (ms_next s)))
  | U_ContextEnds reg =>
      '(id, _, _) ← mx_regs m !! reg;
      if bool_decide (reg ∈ mx_ctxArmed m) then Some (spawn (G_ContextDone id) (set_armed m (mx_regs m) (disarm reg (mx_ctxArmed m)) (mx_connArmed m))) else None
  | U_ConnEnds reg =>
      '(id, _, conn) ← mx_regs m !! reg;
      if bool_decide (reg ∈ mx_connArmed m) && bool_decide (is_Some (mx_cancelled m !! conn))
      then Some (spawn (G_ConnDone id conn) (set_armed m (mx_regs m) (mx_ctxArmed m) (disarm reg (mx_connArmed m)))) else None
  | U_PoolDrops conn => Some (mkMuxSystem (ms_goroutines s) (set_dropped m (conn :: mx_dropped m)) (ms_called s) (ms_next s))
  | U_PoolCloses conn err => Some (mkMuxSystem (ms_goroutines s) (cancel_context m conn (OtherCause err)) (ms_called s) (ms_next s))
  | U_Reset => Some (mkMuxSystem (ms_goroutines s) (Mux_Reset m) (ms_called s) (ms_next s))
  | U_Run i e =>
      t ← ms_goroutines s !! i;
      '(t', new, m, called) ← mux_step t e m;
      Some (mkMuxSystem (<[i := t']> (ms_goroutines s) ++ new) m (called ++ ms_called s) (ms_next s))
  end.
End Mux.
