(* ===== verification/MultiplexerOnce.v ===== *)
(** * The query multiplexer: every query is answered once

    The callback of a query is called exactly once, whatever races for it; a pending
    query is never forgotten; and registration fails only when all identifiers are
    taken. *)

From stdpp Require Import base numbers list gmap sets strings option.
From Stdlib Require Import ZArith Lia.
From S2P Require Import Prelude Counting Multiplexer.

(** ** Identifiers *)

Section Ids.
Local Open Scope Z_scope.

Lemma u16_succ start j : 0 <= j -> u16 (u16 (start + j) + 1) = u16 (start + (j + 1)).
Proof. intros Hj. unfold wrap. rewrite Zplus_mod_idemp_l. f_equal. lia. Qed.
Lemma u16_again start j : in_width 16 start -> 0 < j <= 65536 -> u16 (start + j) = start -> j = 65536.
Proof.
  unfold wrap, in_width. intros Hs Hj He. destruct (Z_lt_ge_dec (start + j) (2 ^ 16)) as [Hc|Hc]; [rewrite Z.mod_small in He; lia|].
  rewrite <-(Z.mod_unique_pos (start + j) (2 ^ 16) 1 (start + j - 2 ^ 16)) in He by lia. lia.
Qed.
(** After [2 ^ k] rounds from the [j]-th identifier on *)
Lemma next_id_spec queries start k : in_width 16 start -> forall j, 0 <= j -> j + 2 ^ Z.of_nat k <= 65536 ->
  let taken till := forall i, j < i <= till -> queries !! u16 (start + i) <> None in
  match next_id k queries start (u16 (start + j)) with
  | inl id => j + 2 ^ Z.of_nat k < 65536 /\ id = u16 (start + (j + 2 ^ Z.of_nat k)) /\ taken (j + 2 ^ Z.of_nat k)
  | inr (Some id) => in_width 16 id /\ queries !! id = None
  | inr None => taken 65536
  end.
Proof.
  intros Hs. induction k as [|k IH]; intros j Hj Hb taken; cbn [next_id].
  - change (2 ^ Z.of_nat 0) with 1 in *. unfold try_id. rewrite u16_succ by lia.
    destruct (queries !! u16 (start + (j + 1))) as [pe|] eqn:E; [|split; [apply wrap_range; lia|done]].
    assert (Ht : taken (j + 1)) by (intros i Hi; replace i with (j + 1) by lia; by rewrite E).
    destruct (Z.eqb_spec (u16 (start + (j + 1))) start) as [He|He].
    + apply u16_again in He; [|done|lia]. by rewrite He in Ht.
    + split; [|done]. destruct (decide (j + 1 = 65536)) as [Hx|]; [|lia]. rewrite Hx in He. destruct He. unfold wrap. change 65536 with (1 * 2 ^ 16). rewrite Z.mod_add by lia. by apply Z.mod_small.
  - rewrite Nat2Z.inj_succ, Z.pow_succ_r in * by lia. pose proof (Z.pow_pos_nonneg 2 (Z.of_nat k) ltac:(lia) ltac:(lia)). specialize (IH j ltac:(lia) ltac:(lia)) as IH1. cbv zeta in IH1.
    destruct (next_id k queries start (u16 (start + j))) as [id|[id|]]; [|done|done]. destruct IH1 as (Hlt & -> & Ht).
    specialize (IH (j + 2 ^ Z.of_nat k) ltac:(lia) ltac:(lia)). cbv zeta in IH. replace (j + 2 * 2 ^ Z.of_nat k) with (j + 2 ^ Z.of_nat k + 2 ^ Z.of_nat k) by lia.
    assert (Hjoin : forall till, (forall i, j + 2 ^ Z.of_nat k < i <= till -> queries !! u16 (start + i) <> None) -> taken till).
    { intros till Hti i Hi. destruct (Z_le_gt_dec i (j + 2 ^ Z.of_nat k)); [apply Ht|apply Hti]; lia. }
    destruct (next_id k queries start _) as [id|[id|]]; [|done|by apply Hjoin]. destruct IH as (H1 & H2 & H3). split; [done|]. split; [done|]. by apply Hjoin.
Qed.
Lemma every_id start id : in_width 16 start -> in_width 16 id -> exists i, 0 < i <= 65536 /\ u16 (start + i) = id.
Proof.
  unfold in_width, wrap. intros Hs Hi. destruct (Z_lt_le_dec start id).
  - exists (id - start). split; [lia|]. rewrite Z.mod_small; lia.
  - exists (id - start + 65536). split; [lia|]. replace (start + (id - start + 65536)) with (id + 1 * 2 ^ 16) by lia. rewrite Z.mod_add by lia. apply Z.mod_small. lia.
Qed.
(** [register] gives a free identifier, and fails only when there is none. *)
Lemma register_spec m q conn retry : in_width 16 (mx_queryId m) ->
  match register m q conn retry with
  | Some (id, m') => in_width 16 id /\ mx_queries m !! id = None /\
      m' = mkMux id (<[id := mkPending conn q (epoch_of m conn) retry (length (mx_regs m))]> (mx_queries m)) (mx_reuse m) (mx_demoteFailures m) (mx_probeEpoch m)
             (mx_lastProbeTime m) (mx_epochs m) (mx_regs m ++ [(id, q, conn)]) (length (mx_regs m) :: mx_ctxArmed m) (length (mx_regs m) :: mx_connArmed m) (mx_cancelled m) (mx_dropped m)
  | None => forall id, in_width 16 id -> mx_queries m !! id <> None
  end.
Proof.
  intros Hw. unfold register. pose proof (next_id_spec (mx_queries m) (mx_queryId m) 16 Hw 0 ltac:(lia) ltac:(done)) as Hn. cbv zeta in Hn.
  rewrite Z.add_0_r, (wrap_small 16) in Hn by done. destruct (next_id 16 _ _ _) as [id|[id|]].
  - destruct Hn as [Hn _]. done.
  - destruct Hn as [Hi Hn]. done.
  - intros id Hi. destruct (every_id _ id Hw Hi) as (i & Hr & <-). by apply Hn.
Qed.
End Ids.

(** ** Who has a query *)

Section Once.
Context {Body : Type}.
Context (probeReuse retryReadError : bool) (message : nat -> @Msg Body) (hasQuestion : nat -> bool).
Abbreviation G := (@Goroutine Body).
Abbreviation step := (@mux_system_step Body probeReuse retryReadError message hasQuestion).

(** The goroutines that are responsible for a query *)
Fixpoint owns (q : nat) (t : G) : nat :=
  match t with
  | G_Dispatch q' _ | G_StartProbe q' | G_SingleDial q' | G_SingleWrite q' | G_SingleRead q' | G_Acquire q' _ _ | G_Register q' _ _ _ _ => one (bool_decide (q = q'))
  | G_WriteTaken q' _ _ _ _ _ found => if found then one (bool_decide (q = q')) else 0
  | G_ContextTaken pe | G_ConnTaken pe _ | G_Completed _ pe _ => one (bool_decide (q = pe_query pe))
  | G_Callback q' _ next => one (bool_decide (q = q')) + owns q next
  | G_Stop _ next => owns q next
  | _ => 0
  end.
(** The identifiers under which it is pending, and the calls of its callback *)
Definition pending (q : nat) (queries : gmap Z pendingQuery) : nat :=
  sum_list_with (fun e => one (bool_decide (q = pe_query e.2))) (map_to_list queries).
Definition called (q : nat) (calls : list (nat * @Outcome Body)) : nat := sum_list_with (fun c => one (bool_decide (q = c.1))) calls.

Lemma pending_insert q id pe queries : queries !! id = None -> pending q (<[id := pe]> queries) = one (bool_decide (q = pe_query pe)) + pending q queries.
Proof. intros H. unfold pending. by rewrite map_to_list_insert. Qed.
Lemma pending_delete q id pe queries : queries !! id = Some pe -> pending q queries = one (bool_decide (q = pe_query pe)) + pending q (delete id queries).
Proof. intros H. rewrite <-(pending_insert q id) by apply lookup_delete_eq. by rewrite insert_delete_id. Qed.

(** A goroutine that writes a query, or whose write has failed *)
Definition writes (t : G) : option (nat * Z) :=
  match t with G_Write q id _ _ _ _ | G_WriteFailed q id _ _ _ _ _ => Some (q, id) | _ => None end.
Definition writer_ok (queries : gmap Z pendingQuery) (t : G) : Prop :=
  forall q id pe, writes t = Some (q, id) -> queries !! id = Some pe -> pe_query pe = q.
(** An answer has the identifier of its query; nothing is written after a callback. *)
Fixpoint answers_ok (t : G) : Prop :=
  match t with
  | G_Callback q o next => (forall r, o = Answer r -> msg_Id r = msg_Id (message q)) /\ writes next = None /\ answers_ok next
  | G_Stop _ next => writes next = None /\ answers_ok next
  | _ => True
  end.

(** No identifier is given again while the write of its last query is still running;
    between a write and its end there would have to be 65536 registrations. *)
Definition no_reuse (s s' : @MuxSystem Body) : Prop :=
  forall t q id, t ∈ ms_goroutines s -> writes t = Some (q, id) -> mx_queries (ms_mux s) !! id = None -> mx_queries (ms_mux s') !! id = None.
Inductive mux_reachable : @MuxSystem Body -> Prop :=
  | mux_new : mux_reachable (mkMuxSystem [] newQueryMultiplexer [] 0)
  | mux_next a s s' : mux_reachable s -> step a s = Some s' -> no_reuse s s' -> mux_reachable s'.

Record once_inv (s : @MuxSystem Body) : Prop := {
  on_once : forall q, sum_list_with (owns q) (ms_goroutines s) + pending q (mx_queries (ms_mux s)) + called q (ms_called s) = one (bool_decide (q < ms_next s));
  on_writers : Forall (writer_ok (mx_queries (ms_mux s))) (ms_goroutines s);
  on_answers : Forall answers_ok (ms_goroutines s) /\ Forall (fun c => forall r, c.2 = Answer r -> msg_Id r = msg_Id (message c.1)) (ms_called s);
  on_id : in_width 16 (mx_queryId (ms_mux s))
}.

(** What a step of a goroutine does with queries *)
Record keeps (m : Mux) (t t' : G) (new : list G) (m' : Mux) (calls : list (nat * @Outcome Body)) : Prop := {
  ke_once : forall q, owns q t' + sum_list_with (owns q) new + pending q (mx_queries m') + called q calls = owns q t + pending q (mx_queries m);
  ke_writer : writer_ok (mx_queries m') t' /\ Forall (fun t => writes t = None) new;
  ke_answers : answers_ok t' /\ Forall answers_ok new /\ Forall (fun c => forall r, c.2 = Answer r -> msg_Id r = msg_Id (message c.1)) calls;
  ke_id : in_width 16 (mx_queryId m');
  ke_entries : forall id pe, mx_queries m' !! id = Some pe -> mx_queries m !! id = Some pe \/ mx_queries m !! id = None
}.
Lemma keeps_same m t t' new m' calls : mx_queries m' = mx_queries m -> mx_queryId m' = mx_queryId m -> in_width 16 (mx_queryId m) ->
  (forall q, owns q t' + sum_list_with (owns q) new + called q calls = owns q t) -> (writes t' = None \/ writes t' = writes t) -> writer_ok (mx_queries m) t ->
  Forall (fun t => writes t = None) new -> answers_ok t' -> Forall answers_ok new ->
  Forall (fun c => forall r, c.2 = Answer r -> msg_Id r = msg_Id (message c.1)) calls -> keeps m t t' new m' calls.
Proof.
  intros H1 H2 Hid Ho Hw Hwo Hn Ha Hna Hc. constructor; rewrite ?H1, ?H2; try done.
  - intros q. specialize (Ho q). lia.
  - split; [|done]. intros q id pe Ht. destruct Hw as [Hw|Hw]; rewrite Hw in Ht; [done|]. by apply Hwo.
  - intros id pe Hl. by left.
Qed.
(** [take] *)
Lemma keeps_take m t t' id f pe m' : take_query m id = (pe, m') -> in_width 16 (mx_queryId m) ->
  t' = f pe -> (forall q, owns q t = 0) -> (forall q, owns q (f None) = 0) -> (forall q pe, mx_queries m !! id = Some pe -> owns q (f (Some pe)) = one (bool_decide (q = pe_query pe))) ->
  (forall pe, writes (f pe) = None) -> (forall pe, answers_ok (f pe)) -> keeps m t t' [] m' [].
Proof.
  unfold take_query. intros H Hid -> Hz Hn Hs Hw Ha. destruct (mx_queries m !! id) as [pe0|] eqn:E; injection H as <- <-.
  - constructor; try done.
    + intros q. cbn. rewrite Hs, Hz, (pending_delete q id pe0 (mx_queries m)) by done. lia.
    + split; [|done]. intros q id' pe. by rewrite Hw.
    + intros id' pe Hl. cbn in Hl. apply lookup_delete_Some in Hl as [_ Hl]. by left.
  - constructor; try done.
    + intros q. cbn. rewrite Hn, Hz. lia.
    + split; [|done]. intros q id' pe. by rewrite Hw.
    + intros id' pe Hl. by left.
Qed.
Ltac same := eapply keeps_same; try done; try (intros q'; cbn; lia); try (by left).
Lemma cancel_same m conn c : mx_queries (cancel_context m conn c) = mx_queries m /\ mx_queryId (cancel_context m conn c) = mx_queryId m.
Proof. unfold cancel_context. by destruct (mx_cancelled m !! conn). Qed.
Lemma invalidate_same m conn c : mx_queries (pool_Invalidate m conn c) = mx_queries m /\ mx_queryId (pool_Invalidate m conn c) = mx_queryId m.
Proof. unfold pool_Invalidate. case_bool_decide; [done|apply cancel_same]. Qed.
Lemma reuse_same m : (forall now conn, mx_queries (recordConnDeath probeReuse now conn m) = mx_queries m /\ mx_queryId (recordConnDeath probeReuse now conn m) = mx_queryId m) /\
  (forall a b epoch, mx_queries (runReuseProbe a b epoch m) = mx_queries m /\ mx_queryId (runReuseProbe a b epoch m) = mx_queryId m).
Proof. unfold recordConnDeath, runReuseProbe. split; intros; repeat case_match; done. Qed.
Lemma mux_step_keeps m t e t' new m' calls : in_width 16 (mx_queryId m) -> writer_ok (mx_queries m) t -> answers_ok t ->
  mux_step probeReuse retryReadError message hasQuestion t e m = Some (t', new, m', calls) -> keeps m t t' new m' calls.
Proof.
  intros Hid Hw Ha H.
  destruct t as [q retry|q|q|q|q|q retry first|q conn created retry first|q id conn created retry first|q id conn created retry first err
    |q conn created retry first err found|id|pe|id conn|pe conn|conn|conn response|conn pe response|conn err|q o next|reg next|epoch|];
    destruct e as [now|derr|res|werr cerr|res cerr|cerr dl|dialled wa wb reads]; cbn [mux_step] in H; try done.
  - destruct (_ && _); injection H as <- <- <- <-; same.
  - unfold maybeStartProbe in H. repeat case_match; simplify_eq; same; by constructor.
  - destruct derr; injection H as <- <- <- <-; same.
  - destruct werr; injection H as <- <- <- <-; same.
  - destruct res as [[r|]|er]; injection H as <- <- <- <-; same. cbn. split; [|done]. by intros r' [= <-].
  - destruct res as [[conn [|]]|er]; injection H as <- <- <- <-; same; by constructor.
  - pose proof (register_spec m q conn (retry && retryReadError && negb created) Hid) as Hr. destruct (register _ _ _ _) as [[id m1]|]; [|injection H as <- <- <- <-; same].
    injection H as <- <- <- <-. destruct Hr as (Hi & Hn & ->). constructor; cbn [mx_queries mx_queryId]; try done.
    + intros q'. rewrite pending_insert by done. cbn. lia.
    + split; [|constructor]. intros q' id' pe' [= <- <-]. rewrite lookup_insert_eq. by intros [= <-].
    + intros id' pe' Hl. destruct (decide (id = id')) as [<-|Hne]; [by right|]. rewrite lookup_insert_ne in Hl by done. by left.
  - destruct werr; injection H as <- <- <- <-; same. by right.
  - destruct (take_query m id) as [pe m1] eqn:E. injection H as <- <- <- <-.
    eapply (keeps_take m _ _ id (fun pe => match pe with None => G_WriteTaken q conn created retry first err false | Some pe => _ end)); try done; [|by intros [|]..].
    intros q' pe' Hl. cbn. by rewrite (Hw q id pe').
  - injection H as <- <- <- <-. destruct (invalidate_same m conn (OtherCause err)). destruct found; cbn [negb]; [destruct (negb created && first)|]; same.
  - destruct (take_query m id) as [pe m1] eqn:E. injection H as <- <- <- <-. eapply (keeps_take m _ _ id (fun pe => match pe with None => G_End | Some pe => _ end)); try done; by intros [|].
  - injection H as <- <- <- <-. destruct (invalidate_same m (pe_conn pe) (OtherCause cerr)). destruct (_ && _); same.
  - destruct (take_query m id) as [pe m1] eqn:E. injection H as <- <- <- <-. eapply (keeps_take m _ _ id (fun pe => match pe with None => G_End | Some pe => _ end)); try done; by intros [|].
  - destruct (mx_cancelled m !! conn) as [[er|er]|]; [|..|done]; [destruct (pe_retry pe)|]; injection H as <- <- <- <-; same.
  - destruct res as [[r|]|er]; injection H as <- <- <- <-; same.
  - destruct (take_query m (msg_Id response)) as [pe m1] eqn:E. injection H as <- <- <- <-. eapply (keeps_take m _ _ (msg_Id response) (fun pe => match pe with None => G_Recv conn | Some pe => _ end)); try done; by intros [|].
  - injection H as <- <- <- <-. same. cbn. split; [|done]. by intros r' [= <-].
  - injection H as <- <- <- <-. destruct (reuse_same m) as [Hr _]. destruct (Hr now conn) as [Hr1 Hr2], (invalidate_same (recordConnDeath probeReuse now conn m) conn (ReadError err)) as [Hc1 Hc2]. same; congruence.
  - injection H as <- <- <- <-. cbn in Ha. destruct Ha as (Ha1 & Ha2 & Ha3). same. constructor; [|constructor]. done.
  - injection H as <- <- <- <-. cbn in Ha. destruct Ha as (Ha1 & Ha2). same.
  - destruct (executeReuseProbe _ _ _ _) as [sup df]. injection H as <- <- <- <-. destruct (reuse_same m) as [_ Hr]. destruct (Hr sup df epoch) as [Hr1 Hr2]. same.
Qed.

(** ** The invariant *)

Lemma once_spawn s t m next : once_inv s -> (forall q, owns q t + one (bool_decide (q < ms_next s)) = one (bool_decide (q < next))) -> writes t = None -> answers_ok t ->
  mx_queries m = mx_queries (ms_mux s) -> mx_queryId m = mx_queryId (ms_mux s) -> once_inv (mkMuxSystem (ms_goroutines s ++ [t]) m (ms_called s) next).
Proof.
  intros [Ho Hw [Ha1 Ha2] Hid] Ht Hwt Hat H1 H2. constructor; cbn [ms_goroutines ms_mux ms_called ms_next]; rewrite ?H1, ?H2; try done.
  - intros q. specialize (Ho q). specialize (Ht q). rewrite sum_list_with_app. cbn. lia.
  - apply list.Forall_app. split; [done|]. apply Forall_singleton. intros q id pe. by rewrite Hwt.
  - split; [|done]. apply list.Forall_app. split; [done|]. by apply Forall_singleton.
Qed.
Lemma once_mux s m : once_inv s -> mx_queries m = mx_queries (ms_mux s) -> mx_queryId m = mx_queryId (ms_mux s) ->
  once_inv (mkMuxSystem (ms_goroutines s) m (ms_called s) (ms_next s)).
Proof. intros [Ho Hw Ha Hid] H1 H2. constructor; cbn; rewrite ?H1, ?H2; done. Qed.
Lemma once_step a s s' : once_inv s -> step a s = Some s' -> no_reuse s s' -> once_inv s'.
Proof.
  intros Hinv Hstep Hreuse. destruct a as [|reg|reg|conn|conn err| |i e]; cbn in Hstep.
  - injection Hstep as <-. apply once_spawn; try done. intros q. cbn. unfold one. repeat case_bool_decide; lia.
  - apply bind_Some in Hstep as ([[id q] conn] & _ & Hs). case_bool_decide; [|done]. injection Hs as <-. by apply once_spawn.
  - apply bind_Some in Hstep as ([[id q] conn] & _ & Hs). destruct (_ && _); [|done]. injection Hs as <-. by apply once_spawn.
  - injection Hstep as <-. by apply once_mux.
  - injection Hstep as <-. destruct (cancel_same (ms_mux s) conn (OtherCause err)). by apply once_mux.
  - injection Hstep as <-. apply once_mux; [done|..]; unfold Mux_Reset; by destruct probeReuse.
  - apply bind_Some in Hstep as (t & Hi & Hs). destruct (mux_step _ _ _ _ t e (ms_mux s)) as [[[[t' new] m'] calls]|] eqn:E; [|done]. cbn in Hs. injection Hs as <-.
    destruct Hinv as [Ho Hw [Ha1 Ha2] Hid]. destruct (mux_step_keeps _ _ _ _ _ _ _ Hid (Forall_lookup_1 _ _ _ _ Hw Hi) (Forall_lookup_1 _ _ _ _ Ha1 Hi) E) as [K1 [K2 K3] (K4 & K5 & K6) K7 K8].
    destruct (run_split _ new i t t' Hi) as (l1 & l2 & Hl1 & Hl2). unfold no_reuse in Hreuse. cbn [ms_goroutines ms_mux ms_called ms_next] in *.
    assert (Hkeep : forall r, r ∈ ms_goroutines s -> writer_ok (mx_queries (ms_mux s)) r -> writer_ok (mx_queries m') r).
    { intros r Hr Hok q id pe Hwr Hl. destruct (K8 id pe Hl) as [Hold|Hold]; [by apply (Hok q id pe)|]. rewrite (Hreuse r q id) in Hl by done. done. }
    rewrite list.Forall_forall in Hw. constructor; cbn [ms_goroutines ms_mux ms_called ms_next]; rewrite ?Hl2; try done.
    + intros q. specialize (Ho q). specialize (K1 q). rewrite Hl1, sum_run in Ho. rewrite sum_spawn. unfold called in *. rewrite sum_list_with_app. lia.
    + rewrite Hl1 in Hw, Hkeep. rewrite list.Forall_app, list.Forall_cons, list.Forall_app. split; [|split; [done|split]].
      * apply list.Forall_forall. intros r Hr. apply Hkeep; [|apply Hw]; apply elem_of_app; by left.
      * apply list.Forall_forall. intros r Hr. apply Hkeep; [|apply Hw]; apply elem_of_app; right; by right.
      * eapply Forall_impl; [|exact K3]. intros r Hr q id pe. by rewrite Hr.
    + rewrite Hl1 in Ha1. apply list.Forall_app in Ha1 as [Ha1 [_ Ha3]%list.Forall_cons]. rewrite !list.Forall_app, list.Forall_cons, list.Forall_app. done.
Qed.
Lemma mux_once s : mux_reachable s -> once_inv s.
Proof.
  induction 1 as [|a s s' _ IH Hs Hr]; [|by eapply once_step]. constructor; cbn [ms_goroutines ms_mux ms_called ms_next]; [done|constructor|split; constructor|done].
Qed.

(** C27: The callback of every query is called exactly once.  Over all interleavings of
    responses, failing writes and their retries, ended contexts, dying and reset
    connections, retries after a read error and single exchanges, in which no
    identifier is given again while the write of its last query still runs: a query
    that was started is at every moment in exactly one place, held by one goroutine,
    pending under one identifier, or called back once; so its callback is never called
    twice, and it has been called once no goroutine holds the query and it is no longer
    pending.  A response given to a callback has the identifier of its query's
    message. *)
Theorem callback_called_once s : mux_reachable s ->
  (forall q, q < ms_next s -> sum_list_with (owns q) (ms_goroutines s) + pending q (mx_queries (ms_mux s)) + called q (ms_called s) = 1) /\
  (forall q, called q (ms_called s) <= 1) /\
  (forall q, q < ms_next s -> Forall (fun t => owns q t = 0) (ms_goroutines s) -> map_Forall (fun _ pe => pe_query pe <> q) (mx_queries (ms_mux s)) ->
     exists outcome, (q, outcome) ∈ ms_called s) /\
  (forall q response, (q, Answer response) ∈ ms_called s -> msg_Id response = msg_Id (message q)).
Proof.
  intros Hr. apply mux_once in Hr as [Ho _ [_ Ha] _]. split; [|split; [|split]].
  - intros q Hq. rewrite Ho. by rewrite bool_decide_eq_true_2.
  - intros q. specialize (Ho q). pose proof (one_le (bool_decide (q < ms_next s))). lia.
  - intros q Hq Hz Hp. specialize (Ho q). rewrite bool_decide_eq_true_2, sum_zero in Ho by done. cbn in Ho.
    assert (Hn : pending q (mx_queries (ms_mux s)) = 0).
    { apply sum_zero, list.Forall_forall. intros [id pe] Hin%elem_of_map_to_list. cbn. rewrite bool_decide_eq_false_2; [done|]. intros ->. by apply (Hp id pe Hin). }
    destruct (sum_pos (fun c : nat * @Outcome Body => one (bool_decide (q = c.1))) (ms_called s)) as (i & [q' o] & Hi & Hone); [unfold called in Ho; lia|].
    cbn in Hone. case_bool_decide as Hq'; [subst q'|done]. exists o. by eapply list_elem_of_lookup_2.
  - intros q response Hin. rewrite list.Forall_forall in Ha. by apply (Ha (q, Answer response)).
Qed.
End Once.

(** C29: Registration uses all 65536 identifiers: it gives an identifier of 16 bits that
    is not pending and makes the query pending under it, leaving every other pending
    query as it is; it fails, changing nothing, exactly when all identifiers are
    pending. *)
Theorem register_uses_all_ids m q conn retry : in_width 16 (mx_queryId m) ->
  match register m q conn retry with
  | Some (id, m') => in_width 16 id /\ mx_queries m !! id = None /\
      (exists pe, pe_query pe = q /\ pe_conn pe = conn /\ mx_queries m' = <[id := pe]> (mx_queries m)) /\ mx_queryId m' = id
  | None => forall id, in_width 16 id -> mx_queries m !! id <> None
  end.
Proof.
  intros Hw. pose proof (register_spec m q conn retry Hw) as Hr. destruct (register m q conn retry) as [[id m']|]; [|done].
  destruct Hr as (Hi & Hn & ->). split; [done|]. split; [done|]. split; [|done]. by eexists (mkPending _ _ _ _ _).
Qed.
