(* ===== verification/MultiplexerWatch.v ===== *)
(** * The query multiplexer: no pending query is forgotten

    While a query is pending, the end of its context and the end of its connection both
    lead to its completion. *)

From stdpp Require Import base numbers list gmap sets strings option.
From Stdlib Require Import ZArith Lia.
From S2P Require Import Prelude Counting Multiplexer MultiplexerOnce.

Section Watch.
Context {Body : Type}.
Context (probeReuse retryReadError : bool) (message : nat -> @Msg Body) (hasQuestion : nat -> bool).
Abbreviation G := (@Goroutine Body).
Abbreviation step := (@mux_system_step Body probeReuse retryReadError message hasQuestion).

#[local] Instance pending_dec : EqDecision pendingQuery.
Proof. solve_decision. Defined.

(** A pending query [pe] under [id]: its two functions are armed, or run *)
Record watched (gs : list G) (m : Mux) (id : Z) (pe : pendingQuery) : Prop := {
  wa_reg : mx_regs m !! pe_reg pe = Some (id, pe_query pe, pe_conn pe);
  wa_ctx : pe_reg pe ∈ mx_ctxArmed m \/ G_ContextDone id ∈ gs;
  wa_conn : pe_reg pe ∈ mx_connArmed m \/ G_ConnDone id (pe_conn pe) ∈ gs
}.
(** The functions that are about to be stopped are those of no pending query. *)
Fixpoint stops_ok (m : Mux) (t : G) : Prop :=
  match t with
  | G_Stop reg next => reg < length (mx_regs m) /\ (forall id pe, mx_queries m !! id = Some pe -> pe_reg pe <> reg) /\ stops_ok m next
  | G_Callback _ _ next => stops_ok m next
  | _ => True
  end.
Record watch_inv (s : @MuxSystem Body) : Prop := {
  wi_watched : forall id pe, mx_queries (ms_mux s) !! id = Some pe -> watched (ms_goroutines s) (ms_mux s) id pe;
  wi_stops : Forall (stops_ok (ms_mux s)) (ms_goroutines s);
  wi_id16 : in_width 16 (mx_queryId (ms_mux s))
}.

(** Pending queries are old ones, or new with a new registration. *)
Definition extends (m m' : Mux) : Prop :=
  (exists l, mx_regs m' = mx_regs m ++ l) /\
  forall id pe, mx_queries m' !! id = Some pe -> mx_queries m !! id = Some pe \/ length (mx_regs m) <= pe_reg pe.
Lemma stops_ok_extends m m' t : extends m m' -> stops_ok m t -> stops_ok m' t.
Proof.
  intros [[l Hl] Hq]. induction t; cbn; try done. intros (H1 & H2 & H3). split; [rewrite Hl, length_app; lia|]. split; [|by auto].
  intros id pe Hin. destruct (Hq id pe Hin) as [Hold|Hnew]; [by apply (H2 id)|lia].
Qed.
Lemma extends_same m m' : mx_queries m' = mx_queries m -> mx_regs m' = mx_regs m -> extends m m'.
Proof. intros H1 H2. split; [exists []; by rewrite H2, app_nil_r|]. intros id pe. rewrite H1. by left. Qed.

(** A step of [t] *)
Record watches (m : Mux) (t t' : G) (new : list G) (m' : Mux) : Prop := {
  wt_extends : extends m m';
  wt_stops : stops_ok m t -> stops_ok m' t' /\ Forall (stops_ok m') new;
  wt_id : in_width 16 (mx_queryId m');
  wt_keep : forall gs id pe, stops_ok m t -> mx_queries m !! id = Some pe -> mx_queries m' !! id = Some pe -> watched (t :: gs) m id pe -> watched (t' :: gs ++ new) m' id pe;
  wt_new : forall gs id pe, mx_queries m !! id <> Some pe -> mx_queries m' !! id = Some pe -> watched gs m' id pe
}.
Lemma watched_more gs gs' m id pe : (forall t, t ∈ gs -> t ∈ gs') -> watched gs m id pe -> watched gs' m id pe.
Proof. intros H [H1 [H2|H2] [H3|H3]]; constructor; auto. Qed.
#[local] Instance watched_perm : Proper ((≡ₚ) ==> (=) ==> (=) ==> (=) ==> iff) watched.
Proof. intros gs gs' H m ? <- id ? <- pe ? <-. split; apply watched_more; intros t; by rewrite H. Qed.
(** A goroutine that completes nothing *)
Definition plain (t : G) : Prop := match t with G_ContextDone _ | G_ConnDone _ _ => False | _ => True end.
Lemma watched_plain t t' gs m m' id pe : plain t -> mx_regs m' = mx_regs m -> mx_ctxArmed m' = mx_ctxArmed m -> mx_connArmed m' = mx_connArmed m ->
  watched (t :: gs) m id pe -> watched (t' :: gs) m' id pe.
Proof.
  intros Hp H1 H2 H3 [W1 W2 W3]. constructor; rewrite ?H1, ?H2, ?H3; [done|..].
  - destruct W2 as [W2|[<-|W2]%elem_of_cons]; [by left|done|right; by right].
  - destruct W3 as [W3|[<-|W3]%elem_of_cons]; [by left|done|right; by right].
Qed.
Lemma watches_same m t t' new m' : in_width 16 (mx_queryId m) -> plain t -> mx_queries m' = mx_queries m -> mx_queryId m' = mx_queryId m -> mx_regs m' = mx_regs m ->
  mx_ctxArmed m' = mx_ctxArmed m -> mx_connArmed m' = mx_connArmed m -> (stops_ok m t -> stops_ok m t') -> Forall (fun t => forall m, stops_ok m t) new -> watches m t t' new m'.
Proof.
  intros Hid Hp H1 H2 H3 H4 H5 Hs Hn. pose proof (extends_same m m' H1 H3) as He. constructor; [done|..].
  - intros Hst. split; [apply (stops_ok_extends m); by auto|]. eapply Forall_impl; [|exact Hn]. done.
  - by rewrite H2.
  - intros gs id pe _ _ _ Hw. apply (watched_more (t' :: gs)); [set_solver|]. by eapply watched_plain.
  - intros gs id pe Hn' Hs'. rewrite H1 in Hs'. congruence.
Qed.
(** [take]: the query leaves the table; its functions are stopped *)
Lemma watches_take m t t' id f pe m' : take_query m id = (pe, m') -> in_width 16 (mx_queryId m) -> t' = f pe -> stops_ok m (f None) ->
  (forall pe m, mx_queries m !! id = None -> pe_reg pe < length (mx_regs m) -> (forall id' pe', mx_queries m !! id' = Some pe' -> pe_reg pe' <> pe_reg pe) -> stops_ok m (f (Some pe))) ->
  (forall id' conn, t = G_ContextDone id' \/ t = G_ConnDone id' conn -> id' = id) ->
  (forall id pe, mx_queries m !! id = Some pe -> exists q conn, mx_regs m !! pe_reg pe = Some (id, q, conn)) ->
  watches m t t' [] m'.
Proof.
  unfold take_query. intros H Hid -> Hn Hs Ht Hregs. assert (Hw : forall gs id' pe' m', id' <> id -> mx_regs m' = mx_regs m -> mx_ctxArmed m' = mx_ctxArmed m -> mx_connArmed m' = mx_connArmed m ->
    watched (t :: gs) m id' pe' -> watched (f pe :: gs ++ []) m' id' pe').
  { intros gs id' pe' m2 Hne H1 H2 H3 [W1 W2 W3]. rewrite app_nil_r. constructor; rewrite ?H1, ?H2, ?H3; [done|..].
    - destruct W2 as [W2|[W2|W2]%elem_of_cons]; [by left| |right; by right]. destruct Hne. apply (Ht id' 0). by left.
    - destruct W3 as [W3|[W3|W3]%elem_of_cons]; [by left| |right; by right]. destruct Hne. apply (Ht id' (pe_conn pe')). by right. }
  destruct (mx_queries m !! id) as [pe0|] eqn:E; injection H as <- <-.
  - constructor; cbn [mx_queries mx_queryId mx_regs set_queries]; [split|..].
    + exists []. by rewrite app_nil_r.
    + intros id' pe'. cbn. intros [_ Hl]%lookup_delete_Some. by left.
    + intros _. split; [|constructor]. apply Hs; cbn; [apply lookup_delete_eq|..].
      * destruct (Hregs id pe0 E) as (q & conn & Hr). by apply lookup_lt_Some in Hr.
      * intros id' pe' [Hne Hl]%lookup_delete_Some Heq. destruct (Hregs id pe0 E) as (q & conn & Hr), (Hregs id' pe' Hl) as (q' & conn' & Hr'). rewrite Heq, Hr in Hr'. naive_solver.
    + done.
    + intros gs id' pe' _ Hl [Hne _]%lookup_delete_Some. by apply Hw.
    + intros gs id' pe' Hnone [_ Hl]%lookup_delete_Some. congruence.
  - constructor; [by apply extends_same|by split|done|..].
    + intros gs id' pe' _ Hl _. apply Hw; try done. intros ->. congruence.
    + intros gs id' pe' Hnone Hl. congruence.
Qed.
(** The functions of a query that is no longer pending are stopped. *)
Lemma watches_stop m reg next : in_width 16 (mx_queryId m) -> watches m (G_Stop reg next) next [] (stop m reg).
Proof.
  intros Hid. constructor; [by apply extends_same|..]; cbn [stops_ok].
  - intros (_ & _ & Hs). split; [|constructor]. apply (stops_ok_extends m); [by apply extends_same|done].
  - done.
  - intros gs id pe (_ & Hne & _) Hl _ [W1 W2 W3]. specialize (Hne id pe Hl). rewrite app_nil_r. constructor; cbn; [done|..].
    + destruct W2 as [W2|[?|W2]%elem_of_cons]; [left; by apply list_elem_of_filter|done|right; by right].
    + destruct W3 as [W3|[?|W3]%elem_of_cons]; [left; by apply list_elem_of_filter|done|right; by right].
  - intros gs id pe Hn Hl. cbn in Hl. congruence.
Qed.
Lemma cancel_frame m conn c : exists cancelled, cancel_context m conn c = set_cancelled_conns m cancelled.
Proof. unfold cancel_context. destruct (mx_cancelled m !! conn); [exists (mx_cancelled m); by destruct m|by eexists]. Qed.
Lemma invalidate_frame m conn c : exists cancelled, pool_Invalidate m conn c = set_cancelled_conns m cancelled.
Proof. unfold pool_Invalidate. case_bool_decide; [exists (mx_cancelled m); by destruct m|apply cancel_frame]. Qed.
Lemma death_frame now conn m : exists r f e t, recordConnDeath probeReuse now conn m = set_reuse m r f e t.
Proof. unfold recordConnDeath. destruct m. repeat case_match; by eexists _, _, _, _. Qed.
Lemma probe_frame a b epoch m : exists r f e t, runReuseProbe a b epoch m = set_reuse m r f e t.
Proof. unfold runReuseProbe. destruct m. repeat case_match; by eexists _, _, _, _. Qed.
Lemma watches_register m q conn created retry first again id m' t' : register m q conn again = Some (id, m') -> in_width 16 (mx_queryId m) -> (forall m, stops_ok m t') ->
  watches m (G_Register q conn created retry first) t' [] m'.
Proof.
  intros H Hid Ht. pose proof (register_spec m q conn again Hid) as Hr. rewrite H in Hr. destruct Hr as (Hi & Hn & ->). constructor; cbn [mx_queries mx_queryId mx_regs].
  - split; [by eexists|]. intros id' pe' Hl. cbn in Hl. destruct (decide (id = id')) as [<-|Hne]; [rewrite lookup_insert_eq in Hl; injection Hl as <-; by right|]. rewrite lookup_insert_ne in Hl by done. by left.
  - intros _. split; [done|constructor].
  - done.
  - intros gs id' pe' _ _ _ [W1 W2 W3]. rewrite app_nil_r. constructor; cbn; [by apply lookup_app_l_Some|..].
    + destruct W2 as [W2|[?|W2]%elem_of_cons]; [left; by right|done|right; by right].
    + destruct W3 as [W3|[?|W3]%elem_of_cons]; [left; by right|done|right; by right].
  - intros gs id' pe' Hn' Hl. destruct (decide (id = id')) as [<-|Hne]; [|rewrite lookup_insert_ne in Hl by done; congruence]. rewrite lookup_insert_eq in Hl. injection Hl as <-.
    constructor; cbn; [|left; left..]. by rewrite lookup_app_r, Nat.sub_diag by done.
Qed.
Ltac same := apply watches_same; try done; try (intros _; cbn; done); try (by constructor).
Lemma mux_step_watches m t e t' new m' calls : in_width 16 (mx_queryId m) -> (forall id pe, mx_queries m !! id = Some pe -> exists q conn, mx_regs m !! pe_reg pe = Some (id, q, conn)) ->
  mux_step probeReuse retryReadError message hasQuestion t e m = Some (t', new, m', calls) -> watches m t t' new m'.
Proof.
  intros Hid Hregs H.
  destruct t as [q retry|q|q|q|q|q retry first|q conn created retry first|q id conn created retry first|q id conn created retry first err
    |q conn created retry first err found|id|pe|id conn|pe conn|conn|conn response|conn pe response|conn err|q o next|reg next|epoch|];
    destruct e as [now|derr|res|werr cerr|res cerr|cerr dl|dialled wa wb reads]; cbn [mux_step] in H; try done.
  - destruct (_ && _); injection H as <- <- <- <-; same.
  - unfold maybeStartProbe in H. repeat case_match; simplify_eq; same.
  - destruct derr; injection H as <- <- <- <-; same.
  - destruct werr; injection H as <- <- <- <-; same.
  - destruct res as [[r|]|er]; injection H as <- <- <- <-; same.
  - destruct res as [[conn [|]]|er]; injection H as <- <- <- <-; same.
  - destruct (register _ _ _ _) as [[id m1]|] eqn:E; injection H as <- <- <- <-; [|same]. by eapply watches_register.
  - destruct werr; injection H as <- <- <- <-; same.
  - destruct (take_query m id) as [pe m1] eqn:E. injection H as <- <- <- <-.
    eapply (watches_take m _ _ id (fun pe => match pe with None => G_WriteTaken q conn created retry first err false | Some pe => _ end)); try done. naive_solver.
  - injection H as <- <- <- <-. destruct (invalidate_frame m conn (OtherCause err)) as [c ->]. same. intros _. by destruct (negb found), (negb created && first).
  - destruct (take_query m id) as [pe m1] eqn:E. injection H as <- <- <- <-. eapply (watches_take m _ _ id (fun pe => match pe with None => G_End | Some pe => _ end)); try done. naive_solver.
  - injection H as <- <- <- <-. destruct (invalidate_frame m (pe_conn pe) (OtherCause cerr)) as [c ->]. destruct (_ && _); same.
  - destruct (take_query m id) as [pe m1] eqn:E. injection H as <- <- <- <-. eapply (watches_take m _ _ id (fun pe => match pe with None => G_End | Some pe => _ end)); try done. naive_solver.
  - destruct (mx_cancelled m !! conn) as [[er|er]|]; [|..|done]; [destruct (pe_retry pe)|]; injection H as <- <- <- <-; same.
  - destruct res as [[r|]|er]; injection H as <- <- <- <-; same.
  - destruct (take_query m (msg_Id response)) as [pe m1] eqn:E. injection H as <- <- <- <-.
    eapply (watches_take m _ _ (msg_Id response) (fun pe => match pe with None => G_Recv conn | Some pe => _ end)); try done. naive_solver.
  - injection H as <- <- <- <-. same.
  - injection H as <- <- <- <-. destruct (death_frame now conn m) as (r & f & ep & ti & ->). destruct (invalidate_frame (set_reuse m r f ep ti) conn (ReadError err)) as [c ->]. same.
  - injection H as <- <- <- <-. same.
  - injection H as <- <- <- <-. by apply watches_stop.
  - destruct (executeReuseProbe _ _ _ _) as [sup df]. injection H as <- <- <- <-. destruct (probe_frame sup df epoch m) as (r & f & ep & ti & ->). same.
Qed.

(** ** The invariant *)

(** States that the actions of goroutines and of the world lead to *)
Inductive mux_runs_to : @MuxSystem Body -> Prop :=
  | runs_new : mux_runs_to (mkMuxSystem [] newQueryMultiplexer [] 0)
  | runs_next a s s' : mux_runs_to s -> step a s = Some s' -> mux_runs_to s'.

Lemma watch_spawn s t m called next : watch_inv s -> (forall m, stops_ok m t) -> mx_queries m = mx_queries (ms_mux s) -> mx_queryId m = mx_queryId (ms_mux s) -> mx_regs m = mx_regs (ms_mux s) ->
  (forall id pe, watched (ms_goroutines s) (ms_mux s) id pe -> watched (ms_goroutines s ++ [t]) m id pe) -> watch_inv (mkMuxSystem (ms_goroutines s ++ [t]) m called next).
Proof.
  intros [Hw Hs Hid] Ht H1 H2 H3 Hkeep. constructor; cbn [ms_goroutines ms_mux]; rewrite ?H1, ?H2; [by auto| |done].
  apply list.Forall_app. split; [|by apply Forall_singleton]. eapply Forall_impl; [|exact Hs]. intros t'. apply stops_ok_extends. by apply extends_same.
Qed.
Lemma watch_mux s m : watch_inv s -> mx_queries m = mx_queries (ms_mux s) -> mx_queryId m = mx_queryId (ms_mux s) -> mx_regs m = mx_regs (ms_mux s) ->
  mx_ctxArmed m = mx_ctxArmed (ms_mux s) -> mx_connArmed m = mx_connArmed (ms_mux s) -> watch_inv (mkMuxSystem (ms_goroutines s) m (ms_called s) (ms_next s)).
Proof.
  intros [Hw Hs Hid] H1 H2 H3 H4 H5. constructor; cbn [ms_goroutines ms_mux]; rewrite ?H1, ?H2; [| |done].
  - intros id pe Hl. destruct (Hw id pe Hl) as [W1 W2 W3]. constructor; by rewrite ?H3, ?H4, ?H5.
  - eapply Forall_impl; [|exact Hs]. intros t'. apply stops_ok_extends. by apply extends_same.
Qed.
Lemma watch_run s i e s' : watch_inv s -> step (U_Run i e) s = Some s' -> watch_inv s'.
Proof.
  intros [Hw Hs Hid] Hstep. cbn in Hstep. apply bind_Some in Hstep as (t & Hi & Hst). destruct (mux_step _ _ _ _ t e (ms_mux s)) as [[[[t' new] m'] calls]|] eqn:E; [|done]. cbn in Hst. injection Hst as <-.
  assert (Hregs : forall id pe, mx_queries (ms_mux s) !! id = Some pe -> exists q conn, mx_regs (ms_mux s) !! pe_reg pe = Some (id, q, conn)).
  { intros id pe Hl. destruct (Hw id pe Hl) as [W _ _]. by eexists _, _. }
  destruct (mux_step_watches _ _ _ _ _ _ _ Hid Hregs E) as [Ke Ks Ki Kk Kn].
  destruct (run_split _ new i t t' Hi) as (l1 & l2 & Hl1 & Hl2). constructor; cbn [ms_goroutines ms_mux]; rewrite ?Hl2; [| |done]; rewrite Hl1 in Hs, Hw; apply list.Forall_app in Hs as [Hs1 [Hst Hs2]%list.Forall_cons].
  - intros id pe Hl. assert (Hp : l1 ++ t' :: l2 ++ new ≡ₚ t' :: (l1 ++ l2) ++ new) by solve_Permutation. rewrite Hp. destruct (decide (mx_queries (ms_mux s) !! id = Some pe)) as [Eo|Eo]; [|by apply Kn].
    apply Kk; try done. specialize (Hw id pe Eo). by rewrite <-Permutation_middle in Hw.
  - destruct (Ks Hst) as [Ks1 Ks2]. assert (Hext : forall l, Forall (stops_ok (ms_mux s)) l -> Forall (stops_ok m') l) by (intros l Hl; eapply Forall_impl; [|exact Hl]; intros r; by apply stops_ok_extends).
    rewrite list.Forall_app, list.Forall_cons, list.Forall_app. by auto.
Qed.
Lemma watch_reached s : mux_runs_to s -> watch_inv s.
Proof.
  induction 1 as [|a s s' _ IH Hs]; [constructor; cbn; [done|constructor|done]|].
  destruct a as [|reg|reg|conn|conn err| |i e]; [cbn in Hs..|by eapply watch_run].
  - injection Hs as <-. apply watch_spawn; try done. intros id pe. apply watched_more. set_solver.
  - apply bind_Some in Hs as ([[id q] conn] & Hreg & Hs). case_bool_decide as Hin; [|done]. injection Hs as <-. apply watch_spawn; try done. intros id' pe [W1 W2 W3]. constructor; cbn; [done| |set_solver].
    destruct (decide (pe_reg pe = reg)) as [He|Hne]; [rewrite He, Hreg in W1; injection W1 as -> _ _; set_solver|]. destruct W2; [left; by apply list_elem_of_filter|set_solver].
  - apply bind_Some in Hs as ([[id q] conn] & Hreg & Hs). destruct (_ && _); [|done]. injection Hs as <-. apply watch_spawn; try done. intros id' pe [W1 W2 W3]. constructor; cbn; [done|set_solver|].
    destruct (decide (pe_reg pe = reg)) as [He|Hne]; [rewrite He, Hreg in W1; injection W1 as -> _ ->; set_solver|]. destruct W3; [left; by apply list_elem_of_filter|set_solver].
  - injection Hs as <-. by apply watch_mux.
  - injection Hs as <-. destruct (cancel_frame (ms_mux s) conn (OtherCause err)) as [c ->]. by apply watch_mux.
  - injection Hs as <-. apply watch_mux; [done|..]; unfold Mux_Reset; by destruct probeReuse.
Qed.

(** ** Completion *)

(** Actions, one after the other *)
Fixpoint mux_runs (actions : list MuxAction) (s : @MuxSystem Body) : option MuxSystem :=
  match actions with [] => Some s | a :: actions => s ← step a s; mux_runs actions s end.
Lemma run_at s i e t t' new m' calls : ms_goroutines s !! i = Some t -> mux_step probeReuse retryReadError message hasQuestion t e (ms_mux s) = Some (t', new, m', calls) ->
  exists s', step (U_Run i e) s = Some s' /\ ms_goroutines s' !! i = Some t' /\ ms_mux s' = m' /\ ms_called s' = calls ++ ms_called s.
Proof.
  intros Hi Hs. eexists. cbn. rewrite Hi. cbn. rewrite Hs. cbn. split; [done|]. cbn. split; [|done].
  apply lookup_app_l_Some, list_lookup_insert_eq. by apply lookup_lt_Some in Hi.
Qed.
Lemma mux_runs_cons a s s' actions : step a s = Some s' -> mux_runs (a :: actions) s = mux_runs actions s'.
Proof. intros H. cbn. by rewrite H. Qed.
(** A function of the query runs: the query is taken, and its functions are stopped. *)
Lemma take_runs s i id pe t f : ms_goroutines s !! i = Some t -> mx_queries (ms_mux s) !! id = Some pe ->
  (forall m pe m', take_query m id = (Some pe, m') -> mux_step probeReuse retryReadError message hasQuestion t (V_Go 0) m = Some (G_Stop (pe_reg pe) (f pe), [], m', [])) ->
  exists s', mux_runs [U_Run i (V_Go 0); U_Run i (V_Go 0)] s = Some s' /\ ms_goroutines s' !! i = Some (f pe) /\ mx_queries (ms_mux s') !! id = None /\ mx_cancelled (ms_mux s') = mx_cancelled (ms_mux s).
Proof.
  intros Hi Hl Ht. destruct (run_at s i (V_Go 0) t _ _ _ _ Hi (Ht (ms_mux s) pe _ ltac:(unfold take_query; by rewrite Hl))) as (s1 & H1 & G1 & M1 & _).
  destruct (run_at s1 i (V_Go 0) _ _ _ _ _ G1 ltac:(done)) as (s2 & H2 & G2 & M2 & _). exists s2. rewrite (mux_runs_cons _ _ s1), (mux_runs_cons _ _ s2) by done. split; [done|]. split; [done|].
  rewrite M2, M1. cbn. split; [apply lookup_delete_eq|done].
Qed.
(** A goroutine that runs a function of the query, now or after an action *)
Definition alone (a : @MuxAction Body) (i : nat) (actions : list (@MuxAction Body)) : Prop := Forall (fun b => b = a \/ exists e, b = U_Run i e) actions.
Ltac runs_alone := repeat (apply list.Forall_cons; split; [first [by left|right; by eexists]|]); by apply list.Forall_nil.
Lemma completion_starts s id pe a t : mx_queries (ms_mux s) !! id = Some pe ->
  t ∈ ms_goroutines s \/ (exists m, step a s = Some (mkMuxSystem (ms_goroutines s ++ [t]) m (ms_called s) (ms_next s)) /\ mx_queries m = mx_queries (ms_mux s) /\ mx_cancelled m = mx_cancelled (ms_mux s)) ->
  exists pre i s', length pre <= 1 /\ alone a i pre /\ mux_runs pre s = Some s' /\ ms_goroutines s' !! i = Some t /\ mx_queries (ms_mux s') !! id = Some pe /\ mx_cancelled (ms_mux s') = mx_cancelled (ms_mux s).
Proof.
  intros Hl [[i Hi]%list_elem_of_lookup_1|(m & Hs & H1 & H2)]; [by exists [], i, s; repeat split; try constructor|].
  exists [a], (length (ms_goroutines s)). eexists. rewrite (mux_runs_cons a s _ [] Hs). cbn. split; [done|]. split; [runs_alone|]. split; [done|]. cbn. rewrite ?H1, ?H2. split; [|done].
  by rewrite lookup_app_r, Nat.sub_diag by done.
Qed.
Lemma mux_runs_app l1 l2 s s' : mux_runs l1 s = Some s' -> mux_runs (l1 ++ l2) s = mux_runs l2 s'.
Proof. revert s. induction l1 as [|a l1 IH]; intros s; cbn; [by intros [= ->]|]. destruct (step a s); cbn; [apply IH|done]. Qed.

Lemma conn_taken_runs s i pe conn cause : ms_goroutines s !! i = Some (G_ConnTaken pe conn) -> mx_cancelled (ms_mux s) !! conn = Some cause ->
  exists post s', length post <= 2 /\ (forall a, alone a i post) /\ mux_runs post s = Some s' /\ mx_queries (ms_mux s') = mx_queries (ms_mux s) /\
    match cause, pe_retry pe with
    | ReadError _, true => ms_goroutines s' !! i = Some (G_Dispatch (pe_query pe) false)
    | _, _ => (pe_query pe, Failed (cause_error cause)) ∈ ms_called s'
    end.
Proof.
  intros G0 Hc. destruct (match cause with ReadError _ => pe_retry pe | _ => false end) eqn:Er.
  - destruct cause as [e|e]; [|done]. rewrite Er. destruct (run_at s i (V_Go 0) _ (G_Dispatch (pe_query pe) false) [] (ms_mux s) [] G0 ltac:(cbn; by rewrite Hc, Er)) as (s1 & H1 & G1 & M1 & _).
    exists [U_Run i (V_Go 0)], s1. rewrite (mux_runs_cons _ _ s1), M1 by done. repeat split; try done; [cbn; lia|]. intros a. runs_alone.
  - destruct (run_at s i (V_Go 0) _ (G_Callback (pe_query pe) (Failed (cause_error cause)) G_End) [] (ms_mux s) [] G0) as (s1 & H1 & G1 & M1 & _).
    { cbn. rewrite Hc. by destruct cause; [rewrite Er|]. }
    destruct (run_at s1 i (V_Go 0) _ _ _ _ _ G1 ltac:(done)) as (s2 & H2 & G2 & M2 & C2).
    exists [U_Run i (V_Go 0); U_Run i (V_Go 0)], s2. rewrite (mux_runs_cons _ _ s1), (mux_runs_cons _ _ s2), M2, M1 by done. split; [done|].
    split; [intros a; runs_alone|]. split; [done|]. split; [done|]. destruct cause; [rewrite Er|]; rewrite C2; set_solver.
Qed.

(** C28: No pending query is forgotten.  In every state that any interleaving leads to,
    the end of a pending query's context, and the end of its connection, complete it: a
    goroutine that already runs, or that this end starts, needs at most five steps of
    its own and of no other goroutine to take the query from the table, stop its
    functions and call its callback with the error of the context or the cause of the
    connection's end; or, when reading failed and the query may be tried again, to
    dispatch it again. *)
Theorem pending_query_completes s id pe : mux_runs_to s -> mx_queries (ms_mux s) !! id = Some pe ->
  (forall err deadline, exists i actions s', length actions <= 5 /\ alone (U_ContextEnds (pe_reg pe)) i actions /\ mux_runs actions s = Some s' /\
     V_ContextErr err deadline ∈ omap (fun a => match a with U_Run _ e => Some e | _ => None end) actions /\
     mx_queries (ms_mux s') !! id = None /\ (pe_query pe, Failed err) ∈ ms_called s') /\
  (forall cause, mx_cancelled (ms_mux s) !! pe_conn pe = Some cause -> exists i actions s', length actions <= 5 /\ alone (U_ConnEnds (pe_reg pe)) i actions /\ mux_runs actions s = Some s' /\
     mx_queries (ms_mux s') !! id = None /\
     match cause, pe_retry pe with
     | ReadError _, true => ms_goroutines s' !! i = Some (G_Dispatch (pe_query pe) false)
     | _, _ => (pe_query pe, Failed (cause_error cause)) ∈ ms_called s'
     end).
Proof.
  intros Hr Hl. apply watch_reached in Hr as Hi. destruct (wi_watched _ Hi id pe Hl) as [W1 W2 W3]. split.
  - intros err deadline. destruct (completion_starts s id pe (U_ContextEnds (pe_reg pe)) (G_ContextDone id) Hl) as (pre & i & s0 & Hp & Ha & Hs0 & G0 & Q0 & C0).
    { destruct W2 as [W2|W2]; [right|by left]. eexists. cbn. rewrite W1. cbn. by rewrite bool_decide_eq_true_2. }
    destruct (take_runs s0 i id pe _ G_ContextTaken G0 Q0) as (s1 & H1 & G1 & Q1 & _); [intros m pe' m' Ht; cbn; by rewrite Ht|].
    destruct (run_at s1 i (V_ContextErr err deadline) _ _ _ _ _ G1 ltac:(done)) as (s2 & H2 & G2 & M2 & _). destruct (run_at s2 i (V_Go 0) _ _ _ _ _ G2 ltac:(done)) as (s3 & H3 & G3 & M3 & C3).
    exists i, (pre ++ [U_Run i (V_Go 0); U_Run i (V_Go 0)] ++ [U_Run i (V_ContextErr err deadline); U_Run i (V_Go 0)]), s3. split; [rewrite length_app; cbn; lia|].
    split; [apply list.Forall_app; split; [done|]; runs_alone|].
    rewrite (mux_runs_app _ _ _ s0), (mux_runs_app _ _ _ s1), (mux_runs_cons _ _ s2), (mux_runs_cons _ _ s3) by done. split; [done|].
    split; [rewrite omap_app; set_solver|]. split; [|rewrite C3; set_solver].
    rewrite M3, M2. destruct (_ && _); [|done]. by rewrite (proj1 (invalidate_same _ _ _)).
  - intros cause Hc. destruct (completion_starts s id pe (U_ConnEnds (pe_reg pe)) (G_ConnDone id (pe_conn pe)) Hl) as (pre & i & s0 & Hp & Ha & Hs0 & G0 & Q0 & C0).
    { destruct W3 as [W3|W3]; [right|by left]. eexists. cbn. rewrite W1. cbn. rewrite Hc. by rewrite bool_decide_eq_true_2. }
    destruct (take_runs s0 i id pe _ (fun pe' => G_ConnTaken pe' (pe_conn pe)) G0 Q0) as (s1 & H1 & G1 & Q1 & K1); [intros m pe' m' Ht; cbn; by rewrite Ht|].
    destruct (conn_taken_runs s1 i pe (pe_conn pe) cause G1) as (post & s2 & Hp2 & Ha2 & H2 & Q2 & O2); [by rewrite K1, C0|].
    exists i, (pre ++ [U_Run i (V_Go 0); U_Run i (V_Go 0)] ++ post), s2. rewrite (mux_runs_app _ _ _ s0), (mux_runs_app _ _ _ s1), Q2 by done. repeat split; try done; [rewrite !length_app; cbn; lia|].
    unfold alone. rewrite !list.Forall_app. split; [done|]. split; [runs_alone|apply Ha2].
Qed.
End Watch.

(** ** The query multiplexer at work

    A query is answered; the write of the next one fails on the old connection and is
    tried again on a new one, which the pool then closes. *)

Module MuxDemo.
Definition message (q : nat) : @Msg nat := mkMsg (Z.of_nat (q + 100)) q.
Abbreviation System := (@MuxSystem nat).
Definition step : @MuxAction nat -> System -> option System := mux_system_step false true message (fun _ => true).
Definition no_reuse_b (s s' : System) : bool :=
  forallb (fun t => match writes t with
                    | Some (_, id) => bool_decide (is_Some (mx_queries (ms_mux s) !! id)) || bool_decide (mx_queries (ms_mux s') !! id = None)
                    | None => true
                    end) (ms_goroutines s).
Fixpoint runs (actions : list (@MuxAction nat)) (s : System) : option System :=
  match actions with
  | [] => Some s
  | a :: actions => s' ← step a s; if no_reuse_b s s' then runs actions s' else None
  end.
Lemma no_reuse_reflect s s' : no_reuse_b s s' = true -> no_reuse s s'.
Proof.
  intros H t q id Ht Hw Hn. unfold no_reuse_b in H. rewrite forallb_forall in H. specialize (H t). rewrite Hw in H. apply list_elem_of_In in Ht. specialize (H Ht).
  apply orb_true_iff in H as [H|H]; apply bool_decide_eq_true in H; [rewrite Hn in H; by destruct H|done].
Qed.
Lemma runs_reachable actions : forall s s', mux_reachable false true message (fun _ => true) s -> mux_runs_to false true message (fun _ => true) s -> runs actions s = Some s' ->
  mux_reachable false true message (fun _ => true) s' /\ mux_runs_to false true message (fun _ => true) s'.
Proof.
  induction actions as [|a actions IH]; intros s s' H1 H2; cbn; [by intros [= <-]|]. destruct (step a s) as [s1|] eqn:E; [|done]. cbn. destruct (no_reuse_b s s1) eqn:En; [|done].
  apply IH; [|by eapply runs_next]. eapply mux_next; [done|done|]. by apply no_reuse_reflect.
Qed.
Definition new : System := mkMuxSystem [] newQueryMultiplexer [] 0.
Definition after (actions : list (@MuxAction nat)) : System := default new (runs actions new).
Definition ok (actions : list (@MuxAction nat)) : bool := match runs actions new with Some _ => true | None => false end.
Lemma actions_reachable actions : ok actions = true -> mux_reachable false true message (fun _ => true) (after actions) /\ mux_runs_to false true message (fun _ => true) (after actions).
Proof.
  intros H. unfold ok, after in *. destruct (runs actions new) as [s|] eqn:E; [|done]. apply (runs_reachable actions new); [constructor|constructor|done].
Qed.

Definition go : @MuxEvent nat := V_Go 0.
Definition broken : error := E_New [AStr "broken pipe"].
Definition answered : list (@MuxAction nat) :=
  [U_Exchange; U_Run 0 go; U_Run 0 (V_Acquired (inl (0, true))); U_Run 0 go; U_Run 0 (V_Wrote None None);
   U_Run 1 (V_Read (inl (Some (mkMsg 1 7))) None); U_Run 1 go; U_Run 1 go; U_Run 1 go; U_Run 1 go].
Definition written_again : list (@MuxAction nat) :=
  [U_Exchange; U_Run 2 go; U_Run 2 (V_Acquired (inl (0, false))); U_Run 2 go; U_Run 2 (V_Wrote (Some broken) None); U_Run 2 go; U_Run 2 go; U_Run 2 go;
   U_Run 2 (V_Acquired (inl (1, true))); U_Run 2 go; U_Run 2 (V_Wrote None None)].
Definition closed : list (@MuxAction nat) := [U_PoolCloses 1 broken].
End MuxDemo.
Import MuxDemo.

Example written_again_example : let s := after (answered ++ written_again) in
  ms_called s = [(0, Answer (mkMsg 100 7))] /\ mx_queries (ms_mux s) = {[3%Z := mkPending 1 1 0 false 2]} /\ is_Some (mx_cancelled (ms_mux s) !! 0).
Proof. vm_compute. split; [done|]. split; [done|by eexists]. Qed.
(** A probe needs both answers, in any order. *)
Example probe_example : executeReuseProbe true true true [inl (Some 2%Z); inl None; inl (Some 1%Z)] = (true, false) /\
  executeReuseProbe true true true [inl (Some 2%Z); inl (Some 2%Z); inr broken] = (false, false) /\ executeReuseProbe false true true [] = (false, true).
Proof. vm_compute. done. Qed.
Example callback_called_once_witness : let s := after answered in
  called 0 (ms_called s) <= 1 /\ exists outcome, (0, outcome) ∈ ms_called s.
Proof.
  set (s := after _). destruct (callback_called_once false true message (fun _ => true) s) as (_ & H2 & H3 & _).
  - apply actions_reachable. vm_compute. done.
  - split; [apply H2|]. apply H3; [vm_compute; lia|vm_compute; by repeat constructor|]. apply (bool_decide_unpack _). vm_compute. done.
Defined.
Example register_uses_all_ids_witness : in_width 16 0 /\ match register newQueryMultiplexer 0 0 false with Some (id, _) => in_width 16 id | None => False end.
Proof. split; [done|]. pose proof (register_uses_all_ids newQueryMultiplexer 0 0 false ltac:(done)) as H. vm_compute register in H |- *. by destruct H. Defined.
Example pending_query_completes_witness : let s := after (answered ++ written_again ++ closed) in
  exists i actions s', length actions <= 5 /\ alone (U_ConnEnds 2) i actions /\ mux_runs false true message (fun _ => true) actions s = Some s' /\
    mx_queries (ms_mux s') !! 3%Z = None /\ (1, Failed broken) ∈ ms_called s'.
Proof.
  set (s := after _). destruct (pending_query_completes false true message (fun _ => true) s 3%Z (mkPending 1 1 0 false 2)) as (_ & H2).
  - apply actions_reachable. vm_compute. done.
  - vm_compute. done.
  - apply (H2 (OtherCause broken)). vm_compute. done.
Defined.
