(* ===== verification/Lines.v ===== *)
(** * Lines read through a buffer

    [bufio.Reader] of the Go standard library, as far as lines are read with it.  Bytes
    are characters. *)

From stdpp Require Import base numbers list strings option.
From Stdlib Require Import ZArith Lia Ascii.
From S2P Require Import Prelude.

Definition nl : ascii := "010".
Definition cr : ascii := "013".
Definition defaultBufSize : nat := N.to_nat 4096.

(** [Reader.ReadSlice('\n')] with room for [n] bytes, and why it ends *)
Inductive SliceEnd := Delimited | BufferFull | AtEnd.
Fixpoint ReadSlice (n : nat) (b : list ascii) : list ascii * SliceEnd * list ascii :=
  match n, b with
  | O, _ => ([], BufferFull, b)
  | _, [] => ([], AtEnd, [])
  | S n, c :: b =>
      if decide (c = nl) then ([c], Delimited, b)
      else let '(line, e, rest) := ReadSlice n b in (c :: line, e, rest)
  end.
Definition drop_last (c : ascii) (line : list ascii) : list ascii :=
  if decide (list.last line = Some c) then removelast line else line.
(** [Reader.ReadLine]: a line or a part of one, whether the line goes on, and what is
    left; [None] at the end.  A carriage return at the end of a part is put back. *)
Definition ReadLine (size : nat) (b : list ascii) : option (list ascii * bool * list ascii) :=
  let '(line, e, rest) := ReadSlice size b in
  match e with
  | BufferFull => Some (if decide (list.last line = Some cr) then (removelast line, true, cr :: rest) else (line, true, rest))
  | Delimited => Some (drop_last cr (removelast line), false, rest)
  | AtEnd => match line with [] => None | _ => Some (line, false, rest) end
  end.

Lemma ReadSlice_spec n b : forall line e rest, ReadSlice n b = (line, e, rest) ->
  match e with
  | Delimited => exists l, line = l ++ [nl] /\ nl ∉ l /\ b = l ++ nl :: rest
  | BufferFull => b = line ++ rest /\ length line = n /\ nl ∉ line
  | AtEnd => b = line /\ rest = [] /\ nl ∉ line
  end.
Proof.
  revert b. induction n as [|n IH]; intros b line e rest; cbn [ReadSlice].
  - intros [= <- <- <-]. repeat split; try done. apply not_elem_of_nil.
  - destruct b as [|c b]; [intros [= <- <- <-]; repeat split; apply not_elem_of_nil|]. destruct (decide (c = nl)) as [->|Hc].
    + intros [= <- <- <-]. exists []. split; [done|]. split; [apply not_elem_of_nil|done].
    + destruct (ReadSlice n b) as [[line' e'] rest'] eqn:E. intros [= <- <- <-]. specialize (IH _ _ _ _ E). destruct e'.
      * destruct IH as (l & -> & Hn & ->). exists (c :: l). split; [done|]. split; [|done]. by apply not_elem_of_cons.
      * destruct IH as (-> & <- & Hn). split; [done|]. split; [done|]. by apply not_elem_of_cons.
      * destruct IH as (-> & -> & Hn). split; [done|]. split; [done|]. by apply not_elem_of_cons.
Qed.
Lemma ReadSlice_full b : nl ∉ b -> ReadSlice (length b) b = (b, BufferFull, []).
Proof. induction b as [|c b IH]; intros Hn; [done|]. apply not_elem_of_cons in Hn as [Hc Hn]. cbn. destruct (decide (c = nl)); [done|]. by rewrite IH. Qed.
(** The first line is at least as long as what comes before its end. *)
Lemma ReadLine_prefix size p y : p <> [] -> nl ∉ p -> list.last p <> Some cr -> (length p < size)%nat ->
  exists line more rest, ReadLine size (p ++ y) = Some (line, more, rest) /\ (length p <= length line)%nat.
Proof.
  intros Hp Hn Hc Hs. assert (Hrl : forall l : list ascii, (length l - 1 <= length (removelast l))%nat). { intros [|x l]; [cbn; lia|]. rewrite removelast_firstn_len, length_take. lia. }
  unfold ReadLine. destruct (ReadSlice size (p ++ y)) as [[line e] rest] eqn:E. apply ReadSlice_spec in E. destruct e.
  - destruct E as (l & -> & Hnl & Heq). rewrite removelast_last. eexists _, _, _. split; [done|]. unfold drop_last.
    assert (Hle : (length p <= length l)%nat).
    { destruct (Nat.le_gt_cases (length p) (length l)) as [|Hgt]; [done|]. destruct Hn. apply (list_elem_of_lookup_2 _ (length l)).
      rewrite <-(lookup_app_l p y) by done. rewrite Heq, lookup_app_r, Nat.sub_diag by done. done. }
    destruct (decide _) as [Hl|]; [|done]. destruct (decide (length l = length p)) as [He|]; [|specialize (Hrl l); lia].
    apply app_inj_1 in Heq as [-> _]; [done|done].
  - destruct E as (_ & Hl & _). destruct (decide _); eexists _, _, _; (split; [done|]); [specialize (Hrl line); lia|lia].
  - destruct E as (<- & -> & _). destruct p as [|c p]; [done|]. cbn. eexists _, _, _. split; [done|]. cbn. rewrite length_app. lia.
Qed.
