(* ===== verification/Hosts.v ===== *)
(** * The hosts server

    [dns/transport/hosts]: hosts files read line by line through a buffer, kept for
    five seconds and read again when their time or size has changed, and the DNS
    transport that answers from predefined addresses and from such files.

    Bytes of a file are characters.  A time is a number of nanoseconds since the zero
    time of Go. *)

From stdpp Require Import base numbers list strings gmap option.
From Stdlib Require Import ZArith Lia Ascii.
From S2P Require Import Prelude Lines NetAddr RuleAction DnsMessage FakeIP.

Local Open Scope Z_scope.

(** ** Fields of a line, [strings.Fields] *)

(** The number of bytes of the white space at the head: one in ASCII, or an encoded
    U+0085, U+00A0, U+1680, U+2000 to U+200A, U+2028, U+2029, U+202F, U+205F, U+3000 *)
Definition ascii_space (c : Z) : bool := (9 <=? c) && (c <=? 13) || (c =? 32).
Definition space_len (s : list ascii) : nat :=
  match map (fun c => Z.of_nat (nat_of_ascii c)) s with
  | c :: s =>
      if ascii_space c then 1%nat
      else match s with
           | d :: s =>
               if (c =? 0xC2) && ((d =? 0x85) || (d =? 0xA0)) then 2%nat
               else match s with
                    | e :: _ =>
                        if (c =? 0xE1) && (d =? 0x9A) && (e =? 0x80)
                           || (c =? 0xE2) && (d =? 0x80) && ((0x80 <=? e) && (e <=? 0x8A) || (e =? 0xA8) || (e =? 0xA9) || (e =? 0xAF))
                           || (c =? 0xE2) && (d =? 0x81) && (e =? 0x9F)
                           || (c =? 0xE3) && (d =? 0x80) && (e =? 0x80)
                        then 3%nat else 0%nat
                    | [] => 0%nat
                    end
           | [] => 0%nat
           end
  | [] => 0%nat
  end.
(** [skip] bytes of white space are left; [field] is the field so far. *)
Definition end_field (field : list ascii) : list string :=
  match field with [] => [] | _ => [String.string_of_list_ascii field] end.
Fixpoint fields_from (skip : nat) (field : list ascii) (s : list ascii) : list string :=
  match s with
  | [] => end_field field
  | c :: s' =>
      match skip with
      | S skip => fields_from skip field s'
      | O =>
          match space_len s with
          | S skip => end_field field ++ fields_from skip [] s'
          | O => fields_from O (field ++ [c]) s'
          end
      end
  end.
Definition Fields (s : list ascii) : list string := fields_from 0 [] s.
(** The line up to a comment *)
Fixpoint before_comment (line : list ascii) : list ascii :=
  match line with [] => [] | c :: line => if decide (c = "#"%char) then [] else c :: before_comment line end.

(** ** The file *)

Section Hosts.
Context `{GoStd} `{ThirdParty}.
Abbreviation Names := (gmap string (list Addr)).

Definition cacheMaxAge : Z := 5000000000.
Record File := mkFile {
  hf_path : string;
  byName : Names;
  expire : Z;
  modTime : Z;
  hf_size : Z
}.
Definition NewFile (path : string) : File := mkFile path ∅ 0 0 0.

(** What a line adds *)
Definition add_name (addr : Addr) (byName : Names) (field : string) : Names :=
  let canonicalName := dns_CanonicalName field in
  <[canonicalName := default [] (byName !! canonicalName) ++ [addr]]> byName.
Definition add_line (byName : Names) (line : list ascii) : Names :=
  match Fields (before_comment line) with
  | address :: ((_ :: _) as names) =>
      match ParseAddr address with
      | Ok addr => fold_left (add_name addr) names byName
      | _ => byName
      end
  | _ => byName
  end.
(** The loop over the lines; [failed]: reading fails after the bytes.  The result is
    [None] when reading failed.  Fuel: one round per byte, and one. *)
Fixpoint read_names (size fuel : nat) (failed : bool) (b prefix : list ascii) (byName : Names) : option Names :=
  match fuel with
  | O => None
  | S fuel =>
      match ReadLine size b with
      | None => if failed then None else Some byName
      | Some (line, true, rest) => read_names size fuel failed rest (prefix ++ line) byName
      | Some (line, false, rest) => read_names size fuel failed rest [] (add_line byName (prefix ++ line))
      end
  end.
(** [File.update]; [stat] and [opened] are the results of [Stat] and of reading: time
    and size, bytes and whether reading fails after them *)
Definition update (now : Z) (stat : option (Z * Z)) (opened : option (list ascii * bool)) (f : File) : File :=
  if (now <? expire f) && negb (bool_decide (byName f = ∅)) then f
  else match stat with
       | None => f
       | Some (time, size) =>
           if (modTime f =? time) && (hf_size f =? size) then mkFile (hf_path f) (byName f) (now + cacheMaxAge) (modTime f) (hf_size f)
           else match opened with
                | None => f
                | Some (b, failed) =>
                    match read_names defaultBufSize (S (length b)) failed b [] ∅ with
                    | None => f
                    | Some names => mkFile (hf_path f) names (now + cacheMaxAge) time size
                    end
                end
       end.

(** A disk: the results of [Stat] and of reading, per path *)
Record Disk := mkDisk { dk_stat : string -> option (Z * Z); dk_open : string -> option (list ascii * bool) }.
(** [File.Lookup] *)
Definition File_Lookup (disk : Disk) (now : Z) (f : File) (name : string) : list Addr * File :=
  let f := update now (dk_stat disk (hf_path f)) (dk_open disk (hf_path f)) f in
  (default [] (byName f !! dns_CanonicalName name), f).

(** ** The transport *)

Record HostsTransport := mkHosts { ht_files : list File; predefined : Names }.
(** [NewTransport]: the paths, or the default path when there are none, and the
    predefined entries; later entries replace earlier ones *)
Definition hosts_NewTransport (defaultPath : Res string) (paths : list string) (entries : list (string * list Addr)) : Res HostsTransport :=
  let predefined := fold_left (fun m e => <[dns_CanonicalName e.1 := e.2]> m) entries ∅ in
  match paths with
  | [] =>
      match defaultPath with
      | Ok path => Ok (mkHosts [NewFile path] predefined)
      | Err e => Err (E_Cause e [AStr "resolve default hosts path"])
      | Panic p => Panic p
      end
  | _ => Ok (mkHosts (map NewFile paths) predefined)
  end.
(** The loops over the files: the addresses of the first file that has some *)
Fixpoint lookup_files (disk : Disk) (now : Z) (files : list File) (domain : string) : list Addr * list File :=
  match files with
  | [] => ([], [])
  | f :: files =>
      let '(addresses, f) := File_Lookup disk now f domain in
      match addresses with
      | [] => let '(addresses, files) := lookup_files disk now files domain in (addresses, f :: files)
      | _ => (addresses, f :: files)
      end
  end.
(** [Transport.PreferredDomain] *)
Definition PreferredDomain (disk : Disk) (now : Z) (t : HostsTransport) (domain : string) : bool * HostsTransport :=
  match predefined t !! domain with
  | Some _ => (true, t)
  | None =>
      let '(addresses, files) := lookup_files disk now (ht_files t) domain in
      (negb (bool_decide (addresses = [])), mkHosts files (predefined t))
  end.
Definition RcodeNameError : Z := 3.
Definition name_error (message : CMsg) (question : Question) : CMsg :=
  mkCMsg (mkMsgHdr (hdr_Id (c_hdr message)) true false false false RcodeNameError) [question] [] [] [].
(** [Transport.Exchange] *)
Definition hosts_Exchange (disk : Disk) (now : Z) (t : HostsTransport) (message : CMsg) : Res CMsg * HostsTransport :=
  match c_Question message with
  | [] => (Panic "index out of range", t)
  | question :: _ =>
      let domain := dns_CanonicalName (q_Name question) in
      if (q_Qtype question =? T_A) || (q_Qtype question =? T_AAAA) then
        match predefined t !! domain with
        | Some addresses => (Ok (FixedResponse (hdr_Id (c_hdr message)) question addresses DefaultDNSTTL), t)
        | None =>
            let '(addresses, files) := lookup_files disk now (ht_files t) domain in
            let t := mkHosts files (predefined t) in
            match addresses with
            | [] => (Ok (name_error message question), t)
            | _ => (Ok (FixedResponse (hdr_Id (c_hdr message)) question addresses DefaultDNSTTL), t)
            end
        end
      else (Ok (name_error message question), t)
  end.
End Hosts.
