(* ===== verification/HostsProps.v ===== *)
(** * The hosts server: what it answers

    Reading a file through the buffer gives the names of its lines; the answers of the
    server are those of its files, no more than five seconds old, as long as the files
    can be read. *)

From stdpp Require Import base numbers list strings gmap option.
From Stdlib Require Import ZArith Lia Ascii.
From S2P Require Import Prelude Lines NetAddr RuleAction DnsMessage FakeIP Hosts.

Local Open Scope Z_scope.

(** ** Lines *)

(** The lines of a file, after the bytes [line] of the current one; a line ends in a
    line feed, with or without a carriage return *)
Fixpoint lines_from (line b : list ascii) : list (list ascii) :=
  match b with
  | [] => match line with [] => [] | _ => [line] end
  | c :: b => if decide (c = nl) then drop_last cr line :: lines_from [] b else lines_from (line ++ [c]) b
  end.
(** What follows the last line feed *)
Fixpoint tail_from (line b : list ascii) : list ascii :=
  match b with
  | [] => line
  | c :: b => if decide (c = nl) then tail_from [] b else tail_from (line ++ [c]) b
  end.

Lemma lines_app l : nl ∉ l -> forall line b, lines_from line (l ++ b) = lines_from (line ++ l) b /\ tail_from line (l ++ b) = tail_from (line ++ l) b.
Proof.
  induction l as [|c l IH]; intros Hn line b; [by rewrite app_nil_r|]. apply not_elem_of_cons in Hn as [Hc Hn]. cbn. destruct (decide (c = nl)); [done|].
  destruct (IH Hn (line ++ [c]) b) as [-> ->]. by rewrite <-!app_assoc.
Qed.
Lemma tail_short line b : nl ∉ b -> tail_from line b = line ++ b.
Proof. intros Hn. destruct (lines_app b Hn line []) as [_ Ht]. by rewrite app_nil_r in Ht. Qed.

Lemma last_app_cons {A} (l : list A) x : list.last l = Some x -> l = removelast l ++ [x].
Proof. intros Hl. apply last_Some in Hl as [l' ->]. by rewrite removelast_last. Qed.
Lemma drop_last_app c (l1 l2 : list ascii) : (list.last l1 = Some c -> l2 <> []) -> drop_last c (l1 ++ l2) = l1 ++ drop_last c l2.
Proof.
  intros Hl. unfold drop_last. destruct l2 as [|x l2].
  - rewrite app_nil_r. destruct (decide (list.last l1 = Some c)) as [Hc|]; [by destruct (Hl Hc)|]. destruct (decide _); [done|by rewrite app_nil_r].
  - rewrite last_app. destruct (list.last (x :: l2)) as [y|] eqn:E; [|by apply last_None in E]. destruct (decide (Some y = Some c)); [|done]. by rewrite removelast_app.
Qed.
(** A part of a line ends in a carriage return only before another one. *)
Definition part_ok (prefix b : list ascii) : Prop := list.last prefix = Some cr -> list.head b = Some cr.

(** [ReadLine] gives a part of the lines; when a line goes on, there is more of it. *)
Lemma ReadLine_spec size b : (2 <= size)%nat ->
  match ReadLine size b with
  | None => b = []
  | Some (line, true, rest) => b = line ++ rest /\ nl ∉ line /\ part_ok line rest /\ line <> [] /\ (nl ∉ rest -> size <= length b)%nat
  | Some (line, false, rest) => (length rest < length b)%nat /\ forall prefix, part_ok prefix b ->
      lines_from prefix b = (prefix ++ line) :: lines_from [] rest /\ (rest <> [] -> tail_from prefix b = tail_from [] rest)
  end.
Proof.
  intros Hs. unfold ReadLine. destruct (ReadSlice size b) as [[line e] rest] eqn:E. apply ReadSlice_spec in E. destruct e.
  - destruct E as (l & -> & Hn & ->). rewrite removelast_last. split; [rewrite length_app; cbn; lia|]. intros prefix Hp.
    destruct (lines_app l Hn prefix (nl :: rest)) as [-> ->]. cbn. destruct (decide (nl = nl)); [|done]. split; [|done]. rewrite drop_last_app; [done|]. intros Hc%Hp ->. done.
  - destruct E as (-> & Hl & Hn). destruct (decide (list.last line = Some cr)) as [Hc|Hc].
    + pose proof (last_app_cons _ _ Hc) as Hd. generalize dependent (removelast line). intros l Hd. subst line. rewrite length_app in Hl. cbn in Hl. rewrite elem_of_app in Hn.
      split; [by rewrite <-app_assoc|]. split; [naive_solver|]. split; [by intros ?|]. split; [destruct l; [cbn in Hl; lia|done]|]. rewrite !length_app. cbn. lia.
    + split; [done|]. split; [done|]. split; [by intros ?|]. split; [destruct line; [cbn in Hl; lia|done]|]. rewrite length_app. lia.
  - destruct E as (-> & -> & Hn). destruct line as [|c line]; [done|]. split; [cbn; lia|]. intros prefix Hp. destruct (lines_app (c :: line) Hn prefix []) as [H1 H2]. rewrite app_nil_r in H1. rewrite H1. split; [|done].
    cbn. by destruct prefix.
Qed.

(** ** Names *)

Section Names.
Context `{GoStd} `{ThirdParty}.

(** The names and addresses of a line, and of a file *)
Definition line_entries (line : list ascii) : list (string * Addr) :=
  match Fields (before_comment line) with
  | address :: ((_ :: _) as names) => match ParseAddr address with Ok addr => map (fun name => (dns_CanonicalName name, addr)) names | _ => [] end
  | _ => []
  end.
Definition entries (b : list ascii) : list (string * Addr) := concat (map line_entries (lines_from [] b)).
Definition addresses_of (l : list (string * Addr)) (name : string) : list Addr := (filter (fun e => e.1 = name) l).*2.
(** The addresses of a map are those of a list. *)
Definition holds (names : gmap string (list Addr)) (l : list (string * Addr)) : Prop := forall name, default [] (names !! name) = addresses_of l name.

Lemma addresses_app l1 l2 name : addresses_of (l1 ++ l2) name = addresses_of l1 name ++ addresses_of l2 name.
Proof. unfold addresses_of. by rewrite list.filter_app, fmap_app. Qed.
Lemma add_name_holds addr names l field : holds names l -> holds (add_name addr names field) (l ++ [(dns_CanonicalName field, addr)]).
Proof.
  intros Hh name. unfold add_name. rewrite addresses_app, <-Hh. unfold addresses_of. cbn. destruct (decide (dns_CanonicalName field = name)) as [<-|Hne].
  - by rewrite lookup_insert_eq.
  - rewrite lookup_insert_ne by done. cbn. by rewrite app_nil_r.
Qed.
Lemma add_names_holds addr fields : forall names l, holds names l -> holds (fold_left (add_name addr) fields names) (l ++ map (fun name => (dns_CanonicalName name, addr)) fields).
Proof.
  induction fields as [|field fields IH]; intros names l Hh; cbn; [by rewrite app_nil_r|]. rewrite cons_middle, app_assoc. by apply IH, add_name_holds.
Qed.
Lemma add_line_holds names l line : holds names l -> holds (add_line names line) (l ++ line_entries line).
Proof.
  intros Hh. unfold add_line, line_entries. destruct (Fields _) as [|address [|name fields]]; [by rewrite app_nil_r..|]. destruct (ParseAddr address); [by apply add_names_holds|by rewrite app_nil_r..].
Qed.
(** The whole file is read, when its last line ends in a line feed or is shorter than
    the buffer. *)
Lemma read_names_holds size fuel : (2 <= size)%nat -> forall b prefix names l, (length b < fuel)%nat -> part_ok prefix b -> (b = [] -> prefix = []) -> (length (tail_from prefix b) < size)%nat -> holds names l ->
  exists names', read_names size fuel false b prefix names = Some names' /\ holds names' (l ++ concat (map line_entries (lines_from prefix b))).
Proof.
  intros Hs. induction fuel as [|fuel IH]; intros b prefix names l Hf Hp He Ht Hh; [lia|]. cbn [read_names]. pose proof (ReadLine_spec size b Hs) as Hr.
  destruct (ReadLine size b) as [[[line [|]] rest]|].
  - destruct Hr as (-> & Hn & Hok & Hne & Hlong). rewrite length_app in Hf. destruct (lines_app line Hn prefix rest) as [Hl1 Hl2]. rewrite Hl1. rewrite Hl2 in Ht.
    assert (Hlt : (0 < length line)%nat) by (destruct line; [done|cbn; lia]). apply IH; [lia| | |done|done].
    + intros Hc. apply Hok. rewrite last_app in Hc. destruct (list.last line) eqn:E; [done|]. by apply last_None in E.
    + intros ->. rewrite app_nil_r in Hlong. specialize (Hlong ltac:(apply not_elem_of_nil)). cbn in Ht. rewrite length_app in Ht. lia.
  - destruct Hr as (Hlt & Hr). destruct (Hr prefix Hp) as [-> Htail]. cbn [map concat]. rewrite app_assoc. apply IH; [lia|done|done| |by apply add_line_holds].
    destruct rest; [cbn; lia|]. rewrite <-Htail by done. done.
  - subst b. rewrite He in * by done. exists names. cbn. by rewrite app_nil_r.
Qed.
End Names.

(** A file of one line that fills the buffer and has no line feed: nothing is read. *)
Lemma full_line_lost `{GoStd} `{ThirdParty} b : length b = defaultBufSize -> nl ∉ b -> list.last b <> Some cr -> read_names defaultBufSize (S (length b)) false b [] ∅ = Some ∅.
Proof.
  intros Hl Hn Hc. cbn [read_names]. unfold ReadLine. rewrite <-Hl, ReadSlice_full by done. destruct (decide _); [done|]. destruct b as [|c b]; [done|]. done.
Qed.

(** ** Answers *)

(** Whether a file can be read, or which call fails *)
Inductive Access := Works | StatFails | OpenFails | ReadFails (after : nat).
#[export] Instance Access_eq_dec : EqDecision Access.
Proof. solve_decision. Defined.

Section Fresh.
Context `{GoStd} `{ThirdParty}.
(** The files over time: their times of change, their bytes, and whether they can be
    read *)
Context (stamp : string -> Z -> Z) (content : string -> Z -> list ascii) (access : string -> Z -> Access).
Definition disk_at (now : Z) : Disk :=
  mkDisk (fun path => match access path now with StatFails => None | _ => Some (stamp path now, Z.of_nat (length (content path now))) end)
         (fun path => match access path now with
                      | Works => Some (content path now, false)
                      | ReadFails n => Some (take n (content path now), true)
                      | _ => None
                      end).
(** A file that changes gets another time or size; its last line ends in a line feed
    or is shorter than the buffer. *)
Context (changes_show : forall path t t', stamp path t = stamp path t' -> length (content path t) = length (content path t') -> content path t = content path t').
Context (lines_end : forall path t, (length (tail_from [] (content path t)) < defaultBufSize)%nat).

(** A transport that has been used, and when *)
Inductive used : HostsTransport -> Z -> Prop :=
  | used_new defaultPath paths predefined t now : hosts_NewTransport defaultPath paths predefined = Ok t -> used t now
  | used_exchange t last now message : used t last -> last <= now -> used (hosts_Exchange (disk_at now) now t message).2 now
  | used_preferred t last now domain : used t last -> last <= now -> used (PreferredDomain (disk_at now) now t domain).2 now.
(** The bytes of a file within the last five seconds; when it cannot be read now, the
    bytes it had at some earlier time, or none when it was never read *)
Definition recent (now : Z) (path : string) (b : list ascii) : Prop :=
  (exists t, now - cacheMaxAge < t <= now /\ b = content path t) \/
  access path now <> Works /\ (b = [] \/ exists t, t <= now /\ b = content path t).
(** The addresses of the first file that knows a name *)
Fixpoint first_known (files : list (list ascii)) (name : string) : list Addr :=
  match files with
  | [] => []
  | b :: files => match addresses_of (entries b) name with [] => first_known files name | addresses => addresses end
  end.
(** What a server answers that has the predefined addresses and the bytes of the files *)
Definition hosts_answer (predefined : gmap string (list Addr)) (files : list (list ascii)) (message : CMsg) (question : Question) : CMsg :=
  let domain := dns_CanonicalName (q_Name question) in
  let addresses := match predefined !! domain with
                   | Some addresses => Some addresses
                   | None => match first_known files (dns_CanonicalName domain) with [] => None | addresses => Some addresses end
                   end in
  match addresses with
  | Some addresses =>
      if bool_decide (q_Qtype question ∈ [T_A; T_AAAA]) then FixedResponse (hdr_Id (c_hdr message)) question addresses DefaultDNSTTL else name_error message question
  | None => name_error message question
  end.

(** A file holds the names its bytes had at a time. *)
Definition file_ok (last : Z) (f : File) : Prop :=
  byName f = ∅ /\ modTime f = 0 /\ hf_size f = 0 \/
  exists t, t <= last /\ holds (byName f) (entries (content (hf_path f) t)) /\ modTime f = stamp (hf_path f) t /\ hf_size f = Z.of_nat (length (content (hf_path f) t)) /\ expire f <= t + cacheMaxAge.
Lemma file_ok_later last now f : last <= now -> file_ok last f -> file_ok now f.
Proof. intros Hl [Hf|(t & Ht & Hf)]; [by left|right]. exists t. split; [lia|done]. Qed.
Lemma read_names_failed size fuel : forall b prefix names, read_names size fuel true b prefix names = None.
Proof.
  induction fuel as [|fuel IH]; intros b prefix names; [done|]. cbn [read_names].
  destruct (ReadLine size b) as [[[line []] rest]|]; [apply IH..|done].
Qed.
(** What a file that is left alone holds *)
Lemma file_old last now f : file_ok last f -> last <= now -> access (hf_path f) now <> Works ->
  exists b, recent now (hf_path f) b /\ holds (byName f) (entries b).
Proof.
  intros Hf Hl Ha. destruct Hf as [(Hn & _)|(t & Ht & Hh & _)].
  - exists []. split; [right; by split; [|left]|]. rewrite Hn. intros name. by rewrite lookup_empty.
  - exists (content (hf_path f) t). split; [|done]. right. split; [done|]. right. exists t. by split; [lia|].
Qed.
Lemma update_recent last now f : file_ok last f -> last <= now ->
  let f' := update now (dk_stat (disk_at now) (hf_path f)) (dk_open (disk_at now) (hf_path f)) f in
  hf_path f' = hf_path f /\ file_ok now f' /\ exists b, recent now (hf_path f) b /\ holds (byName f') (entries b).
Proof.
  intros Hf Hl. cbn [disk_at dk_stat dk_open]. unfold update. set (path := hf_path f). set (b := content path now). assert (Hb : recent now path b) by (left; exists now; unfold cacheMaxAge; split; [lia|done]).
  assert (Hold : access path now <> Works -> hf_path f = path /\ file_ok now f /\ exists b, recent now path b /\ holds (byName f) (entries b)).
  { intros Ha. split; [done|]. split; [by apply (file_ok_later last)|]. by apply (file_old last). }
  destruct ((now <? expire f) && negb (bool_decide (byName f = ∅))) eqn:Ec.
  - apply andb_true_iff in Ec as [Ec1%Z.ltb_lt Ec2%negb_true_iff]. apply bool_decide_eq_false in Ec2. cbn. split; [done|]. split; [by apply (file_ok_later last)|].
    destruct Hf as [[? _]|(t & Ht & Hh & _ & _ & Hx)]; [done|]. exists (content path t). split; [|done]. left. exists t. split; [unfold cacheMaxAge in *; lia|done].
  - destruct (decide (access path now = StatFails)) as [Ha|Ha]; [rewrite Ha; apply Hold; by rewrite Ha|].
    assert (Hstat : match access path now with StatFails => None | _ => Some (stamp path now, Z.of_nat (length b)) end = Some (stamp path now, Z.of_nat (length b))) by (by destruct (access path now)).
    rewrite Hstat. clear Hstat. destruct ((modTime f =? stamp path now) && (hf_size f =? Z.of_nat (length b))) eqn:Es.
    + apply andb_true_iff in Es as [Es1%Z.eqb_eq Es2%Z.eqb_eq]. cbn. split; [done|].
      assert (Hh : holds (byName f) (entries b)).
      { destruct Hf as [(Hn & _ & Hz)|(t & _ & Hh & Ht1 & Ht2 & _)].
        - assert (b = []) as Hz' by (destruct b; [done|cbn in Es2; lia]). rewrite Hn. unfold b in *. rewrite Hz'. intros name. by rewrite lookup_empty.
        - fold path in Hh, Ht1, Ht2. unfold b. rewrite (changes_show path now t); [done|congruence|]. unfold b in Es2. lia. }
      split; [|by exists b]. right. exists now. cbn. fold path. fold b. split; [lia|]. split; [done|]. split; [done|]. split; [done|unfold cacheMaxAge; lia].
    + destruct (access path now) as [| | |n] eqn:Ea; [|done|by apply Hold|rewrite read_names_failed; by apply Hold].
      destruct (read_names_holds defaultBufSize (S (length b)) ltac:(unfold defaultBufSize; lia) b [] ∅ []) as (names & -> & Hh); [lia|by intros ?|done|apply lines_end|done|].
      cbn. split; [done|]. split; [|by exists b]. right. exists now. cbn. fold path. fold b. split; [lia|]. split; [done|]. split; [done|]. split; [done|unfold cacheMaxAge; lia].
Qed.
Lemma lookup_files_recent last now domain files : Forall (file_ok last) files -> last <= now ->
  exists bs, Forall2 (recent now) (map hf_path files) bs /\ (lookup_files (disk_at now) now files domain).1 = first_known bs (dns_CanonicalName domain) /\
    Forall (file_ok now) (lookup_files (disk_at now) now files domain).2 /\ map hf_path (lookup_files (disk_at now) now files domain).2 = map hf_path files.
Proof.
  intros Hf Hl. induction Hf as [|f files Hf Hfs (bs & H1 & H2 & H3 & H4)]; cbn [lookup_files map]; [by exists []|].
  destruct (update_recent last now f Hf Hl) as (U1 & U2 & b & U3 & U4). unfold File_Lookup. set (f' := update _ _ _ f) in *. exists (b :: bs). split; [by constructor|]. cbn [first_known]. rewrite <-U4.
  destruct (default [] _) as [|a addresses].
  - destruct (lookup_files (disk_at now) now files domain) as [addresses files']. cbn in *. split; [done|]. split; [by constructor|]. by rewrite U1, H4.
  - cbn. split; [done|]. split; [|by rewrite U1]. constructor; [done|]. eapply Forall_impl; [|exact Hfs]. intros f0. by apply file_ok_later.
Qed.
Lemma used_ok t last : used t last -> Forall (file_ok last) (ht_files t).
Proof.
  induction 1 as [defaultPath paths predefined t now Hn|t last now message Hu IH Hl|t last now domain Hu IH Hl].
  - assert (Hfs : exists ps, ht_files t = map NewFile ps). { unfold hosts_NewTransport in Hn. repeat case_match; simplify_eq; [by exists [a]|by eexists (_ :: _)]. }
    destruct Hfs as [ps ->]. apply Forall_fmap, list.Forall_forall. intros p _. by left.
  - pose proof (fun domain => lookup_files_recent last now domain _ IH Hl) as Hr. assert (Hlater : Forall (file_ok now) (ht_files t)) by (eapply Forall_impl; [|exact IH]; intros f; by apply file_ok_later).
    unfold hosts_Exchange. destruct (c_Question message) as [|q qs]; [done|]. destruct (_ || _); [|done]. destruct (predefined t !! _); [done|]. destruct (Hr (dns_CanonicalName (q_Name q))) as (bs & _ & _ & H3 & _).
    destruct (lookup_files _ _ _ _) as [[|a l] files]; done.
  - pose proof (fun domain => lookup_files_recent last now domain _ IH Hl) as Hr. assert (Hlater : Forall (file_ok now) (ht_files t)) by (eapply Forall_impl; [|exact IH]; intros f; by apply file_ok_later).
    unfold PreferredDomain. destruct (predefined t !! _); [done|]. destruct (Hr domain) as (bs & _ & _ & H3 & _). by destruct (lookup_files _ _ _ _) as [l files].
Qed.

(** C30: The hosts server answers from its files, no more than five seconds late as long
    as they can be read.  However it was used before, and however the files change, as
    long as a change shows in the time or the size of a file: the answer to a question
    is that of a server that has the predefined addresses and, for every file, bytes
    the file had within the last five seconds, or, when [Stat], [Open] or reading fails
    now, bytes it had at an earlier time (none when it was never read).  For the types A
    and AAAA these are the predefined addresses of the name, or else those of the first
    file that knows it, every line with all its names and its comment removed, whatever
    the length of the lines that end in a line feed; a last line without one is shorter
    than the buffer of 4096 bytes ([lines_end]; [full_line_lost]).  An unknown name and any
    other type get a name error. *)
Theorem hosts_answers_recent t last now message question rest : used t last -> last <= now -> c_Question message = question :: rest ->
  exists files, Forall2 (recent now) (map hf_path (ht_files t)) files /\
    (hosts_Exchange (disk_at now) now t message).1 = Ok (hosts_answer (predefined t) files message question).
Proof.
  intros Hu Hl Hq. destruct (lookup_files_recent last now (dns_CanonicalName (q_Name question)) _ (used_ok _ _ Hu) Hl) as (bs & H1 & H2 & _).
  exists bs. split; [done|]. unfold hosts_Exchange, hosts_answer. rewrite Hq.
  assert (Ht : (q_Qtype question =? T_A) || (q_Qtype question =? T_AAAA) = bool_decide (q_Qtype question ∈ [T_A; T_AAAA])).
  { apply eq_bool_prop_intro. rewrite orb_True, !Is_true_true, !Z.eqb_eq, bool_decide_eq_true. set_solver. }
  rewrite Ht, <-H2. destruct (predefined t !! _); [by destruct (bool_decide _)|]. destruct (lookup_files _ _ _ _) as [[|a l] files]; by destruct (bool_decide _).
Qed.
End Fresh.

(** ** The hosts server at work *)

From S2P Require Import Demo.

Module HostsDemo.
#[local] Existing Instance Demo.third.
Definition std : GoStd := {|
  strings_ToLower s := s;
  strings_TrimSpace s := s;
  strings_EqualFold a b := bool_decide (a = b);
  Regexp := string;
  regexp_Compile s := Ok s;
  MatchString r s := str_contains r s;
  ParsePrefix := Demo.demo_ParsePrefix;
  ParseAddr s := if bool_decide (s = "127.0.0.1") then Ok (Addr4 0x7F000001) else if bool_decide (s = "::1") then Ok (Addr6 1 "") else Err (E_New [AStr "netip.ParseAddr"; AStr s]);
  Prefix_String p := "prefix";
  ParseMAC s := Err (E_New [AStr "net.ParseMAC"; AStr s]);
  HardwareAddr_String l := "mac";
  hex_DecodeString s := Err (E_New [AStr "hex"; AStr s])
|}.
#[local] Existing Instance std.

Definition text (s : string) : list ascii := String.list_ascii_of_string s.
Definition before : list ascii := text "127.0.0.1  localhost home # loopback" ++ [cr; nl] ++ text "::1 localhost" ++ [nl] ++ text "other localhost".
(** The file changes after ten seconds. *)
Definition stamp (_ : string) (t : Z) : Z := if t <? 10000000000 then 1 else 2.
Definition content (_ : string) (t : Z) : list ascii := if t <? 10000000000 then before else [].
Lemma changes_show path t t' : stamp path t = stamp path t' -> length (content path t) = length (content path t') -> content path t = content path t'.
Proof. unfold stamp, content. by destruct (t <? 10000000000), (t' <? 10000000000). Qed.
Lemma lines_end path t : (length (tail_from [] (content path t)) < defaultBufSize)%nat.
Proof.
  assert (Hs : (length (tail_from [] (content path t)) <= 15)%nat) by (unfold content; destruct (t <? 10000000000); apply Nat.leb_le; vm_compute; done).
  unfold defaultBufSize. lia.
Qed.

Definition transport : HostsTransport := mkHosts [NewFile "/etc/hosts"] ∅.
Definition question (qtype : Z) : Question := mkQuestion "localhost" qtype 1.
Definition query (qtype : Z) : CMsg := mkCMsg (mkMsgHdr 7 false false true false 0) [question qtype] [] [] [].
(** It cannot be read from twenty seconds on. *)
Definition access (_ : string) (t : Z) : Access := if t <? 20000000000 then Works else StatFails.
Definition ask (now qtype : Z) (t : HostsTransport) : Res CMsg * HostsTransport := hosts_Exchange (disk_at stamp content access now) now t (query qtype).
End HostsDemo.
Import HostsDemo.
#[local] Existing Instance HostsDemo.std.
#[local] Existing Instance Demo.third.

Example read_small : let names := default ∅ (read_names 16 (S (length before)) false before [] ∅) in
  names !! "localhost" = Some [Addr4 0x7F000001; Addr6 1 ""] /\ names !! "home" = Some [Addr4 0x7F000001] /\ names !! "#" = None.
Proof. vm_compute. done. Qed.
(** The answer at eight seconds is kept until thirteen seconds. *)
Example kept_answer : let t := (ask 8000000000 T_A transport).2 in
  (ask 12000000000 T_AAAA t).1 = Ok (FixedResponse 7 (question T_AAAA) [Addr6 1 ""] 600) /\
  (ask 13000000000 T_A t).1 = Ok (name_error (query T_A) (question T_A)).
Proof. vm_compute. done. Qed.
(** A file that cannot be read keeps its names. *)
Example stale_answer : let t := (ask 8000000000 T_A transport).2 in
  (ask 60000000000 T_AAAA t).1 = Ok (FixedResponse 7 (question T_AAAA) [Addr6 1 ""] 600).
Proof. vm_compute. done. Qed.
Lemma hosts_answers_recent_witness : let t := (ask 8000000000 T_A transport).2 in
  exists files, Forall2 (recent content access 12000000000) ["/etc/hosts"] files /\ (ask 12000000000 T_AAAA t).1 = Ok (hosts_answer ∅ files (query T_AAAA) (question T_AAAA)).
Proof.
  set (t := (ask _ _ _).2). destruct (hosts_answers_recent stamp content access changes_show lines_end t 8000000000 12000000000 (query T_AAAA) (question T_AAAA) []) as (files & H1 & H2).
  - apply (used_exchange _ _ _ transport 0); [|lia]. by apply (used_new _ _ _ (Ok "/etc/hosts") [] []).
  - lia.
  - done.
  - exists files. split; [exact H1|exact H2].
Defined.
