(* ===== verification/Sniffers.v ===== *)
(** * The smaller sniffers

    [common/sniff]: BitTorrent with uTP and UDP trackers, DNS, DTLS, NTP, RDP, SSH and
    STUN.  A stream sniffer reads from the buffers of the connection one after the
    other ([io.MultiReader]); a packet sniffer has one packet.  The message parser of
    miekg/dns is a parameter. *)

From stdpp Require Import base numbers list strings gmap option.
From Stdlib Require Import ZArith Lia Ascii.
From S2P Require Import Prelude Bytes Lines NetAddr Metadata RuleAction DnsMessage Varbin Srs Router Ja3 Quic.

Local Open Scope Z_scope.

(** The result of a sniffer, and the metadata *)
Abbreviation Sniffed := (Res unit * InboundContext)%type.

(** Errors of reading mean that more data may help; a wrong value is invalid. *)
Definition need {A} (f : Reader A) : Reader A := fun bs =>
  match f bs with Err e => Err (E_Cause1 ErrNeedMoreData e) | r => r end.
Definition peek_uint (n : nat) : Reader Z := need (binary_Read (ST := file_stream) n).
Definition check (b : bool) : Reader unit := if b then mret tt else fail ErrInvalid.
Definition sniff_with (f : Reader unit) (protocol : string) (m : InboundContext) (bs : bytes) : Sniffed :=
  match f bs with
  | Ok _ => (Ok tt, set_Protocol m protocol)
  | Err e => (Err e, m)
  | Panic p => (Panic p, m)
  end.
(** A big-endian number in a packet *)
Definition be_at (b : bytes) (lo n : nat) : Z := be_value (take n (drop lo b)).

(** ** Streams *)

(** [reader.Read(p)] of [io.MultiReader]: what the first buffer with data left gives *)
Fixpoint multi_Read (n : nat) (buffers : list bytes) : option bytes :=
  match buffers with
  | [] => None
  | [] :: buffers => multi_Read n buffers
  | b :: _ => Some (take n b)
  end.
(** After [n] bytes were read *)
Fixpoint multi_skip (n : nat) (buffers : list bytes) : list bytes :=
  match buffers with
  | [] => []
  | b :: buffers => if (length b <=? n)%nat then multi_skip (n - length b) buffers else drop n b :: buffers
  end.

Definition bt_header : bytes := string_bytes "BitTorrent protocol".
(** [BitTorrent] *)
Definition sniff_BitTorrent (m : InboundContext) (buffers : list bytes) : Sniffed :=
  match peek_uint 1 (concat buffers) with
  | Ok (first, _) =>
      if negb (first =? 19) then (Err ErrInvalid, m)
      else
        let read := multi_Read 19 (multi_skip 1 buffers) in
        let protocol := default [] read in
        if bool_decide (protocol <> take (length protocol) bt_header) then (Err ErrInvalid, m)
        else match read with
             | None => (Err (E_Cause1 ErrNeedMoreData io_EOF), m)
             | Some _ =>
                 if (length protocol <? 19)%nat then (Err ErrNeedMoreData, m)
                 else (Ok tt, set_Protocol m "bittorrent")
             end
  | Err e => (Err e, m)
  | Panic p => (Panic p, m)
  end.

(** [RDP] *)
Definition read_RDP : Reader unit :=
  tpktVersion ← peek_uint 1; check (tpktVersion =? 0x03);;
  tpktReserved ← peek_uint 1; check (tpktReserved =? 0x00);;
  tpktLength ← peek_uint 2; check (tpktLength =? 19);;
  cotpLength ← peek_uint 1; check (cotpLength =? 14);;
  cotpTpduType ← peek_uint 1; check (cotpTpduType =? 0xE0);;
  need (skip 5);;
  rdpType ← peek_uint 1; check (rdpType =? 0x01);;
  rdpFlags ← peek_uint 1;
  rdpLength ← peek_uint 1; check (rdpLength =? 8).
Definition sniff_RDP (m : InboundContext) (buffers : list bytes) : Sniffed := sniff_with read_RDP "rdp" m (concat buffers).

(** [SSH]; the client is the rest of the first line *)
Definition sshPrefix : bytes := string_bytes "SSH-2.0-".
Definition to_ascii (b : bytes) : list ascii := map (fun z => ascii_of_nat (Z.to_nat z)) b.
Definition sniff_SSH (m : InboundContext) (buffers : list bytes) : Sniffed :=
  let b := concat buffers in
  let prefix := take (length sshPrefix) b in
  if bool_decide (prefix <> take (length prefix) sshPrefix) then (Err ErrInvalid, m)
  else if (length prefix <? length sshPrefix)%nat then (Err (E_Cause1 ErrNeedMoreData io_EOF), m)
  else match ReadLine defaultBufSize (to_ascii b) with
       | None => (Err io_EOF, m)
       | Some (fistLine, _, _) =>
           if (length fistLine <? 8)%nat then (Panic "slice bounds out of range", m)
           else (Ok tt, set_sniffed m "ssh" (c_Domain (ic_sniffer m)) (String.string_of_list_ascii (drop 8 fistLine)))
       end.

Section Dns.
Context (Unpack : bytes -> Res CMsg).

(** [DomainNameQuery]; for a message that is not a query the error is nil *)
Definition sniff_DomainNameQuery (m : InboundContext) (packet : bytes) : Sniffed :=
  match Unpack packet with
  | Ok msg =>
      if hdr_Response (c_hdr msg) || (len (c_Question msg) =? 0) || (0 <? len (c_Answer msg)) || (0 <? len (c_Ns msg))
      then (Ok tt, m) else (Ok tt, set_Protocol m "dns")
  | Err e => (Err e, m)
  | Panic p => (Panic p, m)
  end.
(** [StreamDomainNameQuery]: the header is checked as far as it has arrived *)
Definition header_invalid (packet : bytes) : bool :=
  let n := length packet in
  let at_ i := default 0 (packet !! i) in
  (2 <? n)%nat && negb (Z.land (at_ 2%nat) 0x80 =? 0) ||
  (5 <? n)%nat && (at_ 4%nat =? 0) && (at_ 5%nat =? 0) ||
  existsb (fun i => (i <? n)%nat && negb (at_ i =? 0)) (seq 6 4).
Definition sniff_StreamDomainNameQuery (m : InboundContext) (buffers : list bytes) : Sniffed :=
  match peek_uint 2 (concat buffers) with
  | Ok (length_, rest) =>
      if length_ <? 12 then (Err ErrInvalid, m)
      else
        let packet := take (Z.to_nat length_) rest in
        if header_invalid packet then (Err ErrInvalid, m)
        else if len packet <? length_ then (Err (E_Cause1 ErrNeedMoreData (if len packet =? 0 then io_EOF else io_ErrUnexpectedEOF)), m)
        else sniff_DomainNameQuery m packet
  | Err e => (Err e, m)
  | Panic p => (Panic p, m)
  end.
End Dns.

(** ** Packets *)

(** The extensions of a uTP packet: [extension] is the type of the next one.  Fuel:
    one round per byte, and one. *)
Fixpoint utp_extensions (fuel : nat) (extension : Z) (b : bytes) : Res unit :=
  match fuel with
  | O => Panic "out of fuel"
  | S fuel =>
      if extension =? 0 then Ok tt
      else match b with
           | [] => Err io_EOF
           | extension :: b =>
               if 0x04 <? extension then Err ErrInvalid
               else match b with
                    | [] => Err io_EOF
                    | length_ :: b => utp_extensions fuel extension (drop (Z.to_nat length_) b)
                    end
           end
  end.
(** [UTP] *)
Definition sniff_UTP (m : InboundContext) (packet : bytes) : Sniffed :=
  match packet with
  | first :: extension :: _ =>
      if len packet <? 20 then (Err ErrInvalid, m)
      else if negb (Z.land first 0x0F =? 1) || (4 <? Z.shiftr first 4) then (Err ErrInvalid, m)
      else match utp_extensions (S (length packet)) extension (drop 20 packet) with
           | Ok _ => (Ok tt, set_Protocol m "bittorrent")
           | r => (r, m)
           end
  | _ => (Err ErrInvalid, m)
  end.

Definition sniff_if (b : bool) (protocol : string) (m : InboundContext) : Sniffed :=
  if b then (Ok tt, set_Protocol m protocol) else (Err ErrInvalid, m).
Definition trackerConnectFlag : Z := 0.
Definition trackerProtocolID : Z := 0x41727101980.
Definition trackerConnectMinSize : Z := 16.
(** [UDPTracker] *)
Definition sniff_UDPTracker (m : InboundContext) (packet : bytes) : Sniffed :=
  sniff_if ((trackerConnectMinSize <=? len packet) && (be_at packet 0 8 =? trackerProtocolID) && (be_at packet 8 4 =? trackerConnectFlag)) "bittorrent" m.
(** [DTLSRecord] *)
Definition sniff_DTLSRecord (m : InboundContext) (packet : bytes) : Sniffed :=
  match packet with
  | contentType :: versionMajor :: versionMinor :: _ =>
      sniff_if ((13 <=? len packet) && bool_decide (contentType ∈ [20; 21; 22; 23; 25]) && (versionMajor =? 0xfe) && ((versionMinor =? 0xff) || (versionMinor =? 0xfd))) "dtls" m
  | _ => (Err ErrInvalid, m)
  end.
(** [STUNMessage] *)
Definition sniff_STUNMessage (m : InboundContext) (packet : bytes) : Sniffed :=
  sniff_if ((20 <=? len packet) && (be_at packet 4 4 =? 0x2112A442) && (20 + be_at packet 2 2 <=? len packet)) "stun" m.
(** [NTP]; the quotients of the two 32-bit values by 65536 are exact in [float64] *)
Definition sniff_NTP (m : InboundContext) (packet : bytes) : Sniffed :=
  match packet with
  | firstByte :: _ =>
      let li := Z.land (Z.shiftr firstByte 6) 0x03 in
      let vn := Z.land (Z.shiftr firstByte 3) 0x07 in
      let mode := Z.land firstByte 0x07 in
      sniff_if ((48 <=? len packet) && (li <=? 3) && ((vn =? 3) || (vn =? 4)) && (mode =? 3) &&
                (be_at packet 4 4 <=? 16 * 65536) && (be_at packet 8 4 <=? 16 * 65536)) "ntp" m
  | [] => (Err ErrInvalid, m)
  end.
