(* ===== verification/SniffersProps.v ===== *)
(** * The smaller sniffers: signatures

    BitTorrent, SSH and RDP are recognised by their first bytes, however the stream
    arrives. *)

From stdpp Require Import base numbers list strings gmap option.
From Stdlib Require Import ZArith Lia Ascii.
From S2P Require Import Prelude Bytes Lines NetAddr Metadata RuleAction Varbin Srs Router Ja3 Quic Sniffers.

Local Open Scope Z_scope.

(** ** Signatures *)

(** The first bytes of a protocol, [None] where any byte may be *)
Abbreviation Signature := (list (option Z)).
Fixpoint matches (sig : Signature) (b : bytes) : bool :=
  match sig, b with
  | [], _ => true
  | _ :: _, [] => false
  | o :: sig, c :: b => match o with Some x => c =? x | None => true end && matches sig b
  end.
Lemma matches_length sig b : matches sig b = true -> (length sig <= length b)%nat.
Proof. revert b. induction sig as [|o sig IH]; intros [|c b]; cbn [matches length]; try done; try lia. intros [_ Hm%IH]%andb_true_iff. lia. Qed.
Lemma matches_app sig b x : matches sig b = true -> matches sig (b ++ x) = true.
Proof. revert b. induction sig as [|o sig IH]; intros [|c b]; cbn; try done. intros [Hc Hm%IH]%andb_true_iff. by rewrite Hc, Hm. Qed.

(** What an error says of the bytes: more are needed, or none can help *)
Definition error_true (sig : Signature) (b : bytes) (e : error) : Prop :=
  if is_need_more e then (length b < length sig)%nat else forall x, matches sig (b ++ x) = false.
Lemma needs_more sig b err : (length b < length sig)%nat -> error_true sig b (E_Cause1 ErrNeedMoreData err).
Proof. done. Qed.
Lemma error_true_matches sig b e : error_true sig b e -> matches sig b = false.
Proof.
  unfold error_true. destruct (is_need_more e); intros H; [|by rewrite <-(H []), app_nil_r]. destruct (matches sig b) eqn:E; [|done]. apply matches_length in E. lia.
Qed.
Definition follows (sig : Signature) (f : Reader unit) : Prop := forall b, Forall is_byte b ->
  match f b with Ok _ => matches sig b = true | Err e => error_true sig b e | Panic _ => False end.
Lemma error_true_cons o sig c b e : match o with Some x => c =? x | None => true end = true -> error_true sig b e -> error_true (o :: sig) (c :: b) e.
Proof. intros Hc. unfold error_true. destruct (is_need_more e); cbn; [lia|]. intros H x. by rewrite Hc, H. Qed.

Lemma peek_uint_1 c b : peek_uint 1 (c :: b) = Ok (c, b).
Proof. done. Qed.
Lemma peek_uint_2 c d b : peek_uint 2 (c :: d :: b) = Ok (c * 256 + d, b).
Proof. done. Qed.
Lemma follows_end : follows [] (mret tt).
Proof. by intros b Hb. Qed.
Lemma follows_last k : follows [Some k] (v ← peek_uint 1; check (v =? k)).
Proof.
  intros [|c b] Hb; [by apply needs_more; cbn; lia|]. unfold mbind, reader_bind. rewrite peek_uint_1. unfold check. destruct (c =? k) eqn:E; cbn; [by rewrite E|]. intros x. by rewrite E.
Qed.
Lemma follows_any sig f : follows sig f -> follows (None :: sig) (v ← peek_uint 1; f).
Proof.
  intros Hf [|c b] Hb; [by apply needs_more; cbn; lia|]. apply list.Forall_cons in Hb as [_ Hb]. unfold mbind, reader_bind. rewrite peek_uint_1. specialize (Hf b Hb). destruct (f b) as [[u r]|e|p]; cbn; [done| |done]. by apply error_true_cons.
Qed.
Lemma follows_byte k sig f : follows sig f -> follows (Some k :: sig) (v ← peek_uint 1; check (v =? k);; f).
Proof.
  intros Hf [|c b] Hb; [by apply needs_more; cbn; lia|]. apply list.Forall_cons in Hb as [_ Hb]. unfold mbind, reader_bind. rewrite peek_uint_1. unfold check. destruct (c =? k) eqn:E; cbn.
  - specialize (Hf b Hb). destruct (f b) as [[u r]|e|p]; [by rewrite E| |done]. by apply error_true_cons.
  - intros x. by rewrite E.
Qed.
Lemma follows_two k sig f : 0 <= k < 65536 -> follows sig f -> follows (Some (k / 256) :: Some (k mod 256) :: sig) (v ← peek_uint 2; check (v =? k);; f).
Proof.
  intros Hk Hf [|c [|d b]] Hb; [by apply needs_more; cbn; lia|by apply needs_more; cbn; lia|]. apply list.Forall_cons in Hb as [Hc [Hd Hb]%list.Forall_cons]. unfold is_byte, in_width in Hc, Hd. cbn in Hc, Hd.
  pose proof (Z.div_mod k 256). pose proof (Z.mod_pos_bound k 256). assert (Heq : (c * 256 + d =? k) = (c =? k / 256) && (d =? k mod 256)).
  { destruct (Z.eqb_spec c (k / 256)), (Z.eqb_spec d (k mod 256)); cbn; lia. }
  unfold mbind, reader_bind. rewrite peek_uint_2. unfold check. rewrite Heq. destruct (c =? k / 256) eqn:E1, (d =? k mod 256) eqn:E2; cbn [andb]; try (intros x; cbn; by rewrite E1, ?E2).
  specialize (Hf b Hb). cbn. rewrite E1, E2. destruct (f b) as [[u r]|e|p]; [done| |done]. by apply error_true_cons; [|apply error_true_cons].
Qed.
Lemma follows_skip n sig f : follows sig f -> follows (replicate n None ++ sig) (need (skip (Z.of_nat n));; f).
Proof.
  intros Hf b Hb. unfold mbind, reader_bind, need, skip, len. destruct (Z.leb_spec (Z.of_nat n) (Z.of_nat (length b))) as [Hl|Hl].
  - rewrite Nat2Z.id. specialize (Hf (drop n b) ltac:(by apply Forall_drop)).
    pose proof (take_drop n b) as Hby.
    assert (Hm : forall p y, length p = n -> matches (replicate n None ++ sig) (p ++ y) = matches sig y). { clear. intros p. revert n. induction p as [|c p IH]; intros n y <-; cbn; [done|by apply IH]. }
    assert (Ht : length (take n b) = n) by (rewrite length_take; lia). destruct (f (drop n b)) as [[u r]|e|p]; [by rewrite <-Hby, Hm| |done].
    unfold error_true in *. destruct (is_need_more e); [rewrite length_app, length_replicate; rewrite length_drop in Hf; lia|]. intros x. by rewrite <-Hby, <-app_assoc, Hm.
  - apply needs_more. rewrite length_app, length_replicate. lia.
Qed.
Definition rdp_signature : Signature :=
  [Some 3; Some 0; Some 0; Some 19; Some 14; Some 0xE0] ++ replicate 5 None ++ [Some 1; None; Some 8].
Lemma read_RDP_follows : follows rdp_signature read_RDP.
Proof.
  apply follows_byte, follows_byte, (follows_two 19); [lia|]. apply follows_byte, follows_byte, (follows_skip 5), follows_byte, follows_any, follows_last.
Qed.

(** ** Texts *)

Definition literal (h : bytes) : Signature := map Some h.
Lemma literal_matches h : forall b, matches (literal h) b = bool_decide (take (length h) b = h).
Proof.
  induction h as [|x h IH]; intros [|c b]; cbn; try done. rewrite IH. destruct (Z.eqb_spec c x) as [->|Hne]; cbn.
  - apply bool_decide_ext. split; [by intros ->|by intros [= ->]].
  - symmetry. apply bool_decide_eq_false. congruence.
Qed.
(** The bytes that have arrived differ from the text: nothing can help. *)
Lemma literal_differs h b x : take (length h) b <> take (length (take (length h) b)) h -> matches (literal h) (b ++ x) = false.
Proof.
  rewrite literal_matches. intros Hd. apply bool_decide_eq_false. intros Ht. destruct Hd. set (n := length h) in *.
  rewrite <-Ht, length_take, take_take, Nat.min_l, take_app_le by lia. destruct (Nat.le_ge_cases n (length b)); [by rewrite Nat.min_l by lia|]. rewrite Nat.min_r by lia. by rewrite !take_ge by lia.
Qed.
Lemma literal_same h b : take (length h) b = take (length (take (length h) b)) h -> (length h <= length (take (length h) b))%nat -> matches (literal h) b = true.
Proof. rewrite literal_matches. intros H Hl. apply bool_decide_eq_true. etrans; [exact H|]. by apply take_ge. Qed.

(** A sniffer that decides by a signature, on data in one buffer *)
Record decides (sig : Signature) (protocol : string) (m : InboundContext) (b : bytes) (r : Sniffed) : Prop := {
  de_result : match r.1 with Ok _ => matches sig b = true | Err e => error_true sig b e | Panic _ => False end;
  de_metadata : match r.1 with Ok _ => c_Protocol (ic_sniffer r.2) = protocol | _ => r.2 = m end
}.
Lemma RDP_decides m b : Forall is_byte b -> decides rdp_signature "rdp" m b (sniff_RDP m [b]).
Proof.
  intros Hb. unfold sniff_RDP, sniff_with. cbn [concat]. rewrite app_nil_r. pose proof (read_RDP_follows b Hb) as Hf. by destruct (read_RDP b) as [[u r]|e|p].
Qed.
Definition bt_signature : Signature := Some 19 :: literal bt_header.
Lemma bt_matches c b : (c =? 19) = true -> matches bt_signature (c :: b) = matches (literal bt_header) b.
Proof. intros Hc. change (matches bt_signature (c :: b)) with ((c =? 19) && matches (literal bt_header) b). by rewrite Hc. Qed.
Lemma BitTorrent_decides m b : decides bt_signature "bittorrent" m b (sniff_BitTorrent m [b]).
Proof.
  unfold sniff_BitTorrent. cbn [concat]. rewrite app_nil_r. destruct b as [|c b]; [by constructor; [apply needs_more; cbn; lia|]|]. rewrite peek_uint_1.
  destruct (c =? 19) eqn:Ec; cbn [negb]; [|constructor; [|done]; intros x; cbn; by rewrite Ec].
  assert (Hr : multi_Read 19 (multi_skip 1 [c :: b]) = match b with [] => None | _ => Some (take 19 b) end). { by destruct b as [|d b]. }
  rewrite Hr. assert (Hp : default [] (match b with [] => None | _ => Some (take 19 b) end) = take (length bt_header) b) by (by destruct b). rewrite Hp.
  case_bool_decide as Hd.
  - constructor; [|done]. intros x. cbn [app]. rewrite bt_matches by done. by apply literal_differs.
  - destruct b as [|d b]; [by constructor; [apply needs_more; cbn; lia|]|]. destruct (Nat.ltb_spec (length (take (length bt_header) (d :: b))) 19) as [Hl|Hl].
    + constructor; [|done]. cbn [fst]. unfold error_true. change (is_need_more ErrNeedMoreData) with true. change (length bt_signature) with 20%nat. rewrite length_take in Hl. change (length bt_header) with 19%nat in Hl. cbn [length] in *. lia.
    + constructor; [|done]. cbn [fst]. rewrite bt_matches by done. by apply literal_same.
Qed.

Lemma SSH_decides m b : decides (literal sshPrefix) "ssh" m b (sniff_SSH m [b]).
Proof.
  unfold sniff_SSH. cbn [concat]. rewrite app_nil_r. case_bool_decide as Hd.
  - constructor; [|done]. intros x. by apply literal_differs.
  - destruct (Nat.ltb_spec (length (take (length sshPrefix) b)) (length sshPrefix)) as [Hl|Hl].
    + constructor; [|done]. apply needs_more. unfold literal. rewrite length_map. rewrite length_take in Hl. lia.
    + pose proof (literal_same _ _ Hd Hl) as Hm. rewrite literal_matches in Hm. apply bool_decide_eq_true in Hm.
      assert (Ha : to_ascii b = to_ascii sshPrefix ++ to_ascii (drop (length sshPrefix) b)). { rewrite <-(take_drop (length sshPrefix) b) at 1. rewrite Hm. unfold to_ascii. by rewrite map_app. }
      destruct (ReadLine_prefix defaultBufSize (to_ascii sshPrefix) (to_ascii (drop (length sshPrefix) b))) as (line & more & rest & Hr & Hlen).
      * done.
      * apply (bool_decide_unpack _). vm_compute. done.
      * done.
      * change (length (to_ascii sshPrefix)) with 8%nat. unfold defaultBufSize. lia.
      * rewrite Ha, Hr. change (length (to_ascii sshPrefix)) with 8%nat in Hlen. rewrite (proj2 (Nat.ltb_ge _ _) Hlen). constructor; [|done]. cbn [fst]. rewrite literal_matches. by apply bool_decide_eq_true.
Qed.

(** ** The stream sniffers as the router calls them *)

Definition signature (s : StreamSniffer) : Signature :=
  match s with BitTorrent => bt_signature | SSH => literal sshPrefix | RDP => rdp_signature | _ => [] end.
Definition protocol_of (s : StreamSniffer) : string := match s with BitTorrent => "bittorrent" | SSH => "ssh" | RDP => "rdp" | _ => "" end.
Definition signature_sniff (s : StreamSniffer) (m : InboundContext) (buffers : list bytes) : Sniffed :=
  match s with BitTorrent => sniff_BitTorrent m buffers | SSH => sniff_SSH m buffers | RDP => sniff_RDP m buffers | _ => (Err ErrInvalid, m) end.
Definition by_signature (s : StreamSniffer) : Prop := s = BitTorrent \/ s = SSH \/ s = RDP.
(** BitTorrent calls [Read] once, which stops at the end of a buffer: it needs the
    data in one buffer. *)
Definition reads_through (s : StreamSniffer) (earlier : list bytes) : Prop := s = BitTorrent -> earlier = [].
Lemma signature_decides s m earlier b : by_signature s -> reads_through s earlier -> Forall is_byte (concat earlier ++ b) ->
  decides (signature s) (protocol_of s) m (concat earlier ++ b) (signature_sniff s m (earlier ++ [b])).
Proof.
  assert (Hc : concat (earlier ++ [b]) = concat [concat earlier ++ b]) by (rewrite concat_app; cbn; by rewrite !app_nil_r).
  intros [->|[->| ->]] Hr Hb.
  - rewrite (Hr eq_refl). apply BitTorrent_decides.
  - cbn [signature_sniff]. unfold sniff_SSH. rewrite Hc. apply SSH_decides.
  - cbn [signature_sniff]. unfold sniff_RDP. rewrite Hc. by apply RDP_decides.
Qed.
Lemma signature_returns s m bs : by_signature s -> Forall is_byte (concat bs) ->
  match (signature_sniff s m bs).1 with Panic _ => False | _ => True end.
Proof.
  intros [->|[->| ->]] Hb; cbn [signature_sniff].
  - unfold sniff_BitTorrent. destruct (concat bs) as [|c l]; [done|]. rewrite peek_uint_1. destruct (negb _); [done|].
    cbv zeta. case_bool_decide; [done|]. destruct (multi_Read _ _); [|done]. by destruct (_ <? 19)%nat.
  - pose proof (SSH_decides m (concat bs)) as [D _]. unfold sniff_SSH in *. cbn [concat] in D. rewrite app_nil_r in D. destruct (if bool_decide _ then _ else _) as [[] ?]; done.
  - pose proof (RDP_decides m (concat bs) Hb) as [D _]. unfold sniff_RDP in *. cbn [concat] in D. rewrite app_nil_r in D. destruct (sniff_with _ _ _ _) as [[] ?]; done.
Qed.

(** ** Extensions of uTP *)

(** A chain of extensions: the type of the next one, a length and as many bytes, which
    the packet need not have at the end of the chain *)
Inductive utp_chain : Z -> bytes -> Prop :=
  | chain_end b : utp_chain 0 b
  | chain_next extension next length_ b : extension <> 0 -> next <= 4 -> utp_chain next (drop (Z.to_nat length_) b) -> utp_chain extension (next :: length_ :: b).
Lemma utp_extensions_spec fuel : forall extension b, (length b < fuel)%nat ->
  match utp_extensions fuel extension b with Ok _ => utp_chain extension b | Err _ => ~ utp_chain extension b | Panic _ => False end.
Proof.
  induction fuel as [|fuel IH]; intros extension b Hf; [lia|]. cbn [utp_extensions]. destruct (Z.eqb_spec extension 0) as [->|Hne]; [constructor|].
  destruct b as [|next b]; [by inversion 1|]. destruct (Z.ltb_spec 4 next) as [Hn|Hn]; [inversion 1; lia|]. destruct b as [|length_ b]; [by inversion 1|].
  specialize (IH next (drop (Z.to_nat length_) b)). rewrite length_drop in IH. cbn in Hf. specialize (IH ltac:(lia)). destruct (utp_extensions fuel next _) as [u|e|p]; [by constructor| |done]. by inversion 1.
Qed.

Section Peek.
Context (re : RouterEnv).
(** The router is connected to these sniffers. *)
Definition connected : Prop := forall s m bs, by_signature s -> Forall is_byte (concat bs) ->
  signature_sniff s m bs = (match (re_streamSniff re s m bs).1 with None => Ok tt | Some e => Err e end, (re_streamSniff re s m bs).2).
Context (Hre : connected).
(** The buffers that earlier rules have filled *)
Context (earlier : list bytes).
Abbreviation usable := (Forall (fun s => by_signature s /\ reads_through s earlier)).

Lemma try_by_signature sniffers m b : usable sniffers -> Forall is_byte (concat earlier ++ b) ->
  let '(found, m', errs) := try_sniffers (re_streamSniff re) sniffers m (earlier ++ [b]) in
  if found then exists s, s ∈ sniffers /\ matches (signature s) (concat earlier ++ b) = true /\ c_Protocol (ic_sniffer m') = protocol_of s
  else m' = m /\ Forall2 (fun s e => error_true (signature s) (concat earlier ++ b) e) sniffers errs.
Proof.
  intros Hs Hb. revert m. induction Hs as [|s sniffers [Hs Hr] Hss IH]; intros m; cbn [try_sniffers]; [by split|].
  assert (Hb' : Forall is_byte (concat (earlier ++ [b]))) by (rewrite concat_app; cbn; by rewrite app_nil_r).
  destruct (signature_decides s m earlier b Hs Hr Hb) as [D1 D2]. rewrite (Hre s m _ Hs Hb') in D1, D2.
  destruct (re_streamSniff re s m _) as [[e|] m1]; cbn in D1, D2.
  - subst m1. specialize (IH m). destruct (try_sniffers _ sniffers m _) as [[[|] m'] errs].
    + destruct IH as (s' & H1 & H2). exists s'. split; [by right|done].
    + destruct IH as [-> IH]. split; [done|]. by constructor.
  - exists s. split; [by left|done].
Qed.
Lemma signature_short s : (length (signature s) <= 20)%nat.
Proof. destruct s; vm_compute; lia. Qed.

Lemma peek_by_signature sniffers m : sniffers <> [] -> usable sniffers -> forall datas buffer first last, Forall is_byte (concat earlier ++ buffer) -> Forall (Forall is_byte) datas ->
  (datas = [] -> first = false /\ last <> None /\ Forall (fun s => matches (signature s) (concat earlier ++ buffer) = false) sniffers) ->
  let '(err, m', buffer', rest) := PeekStream re sniffers earlier m buffer first last (map SRead datas) in
  match err with
  | None => exists s, s ∈ sniffers /\ matches (signature s) (concat earlier ++ buffer ++ concat datas) = true /\ c_Protocol (ic_sniffer m') = protocol_of s
  | Some _ => m' = m /\ Forall (fun s => matches (signature s) (concat earlier ++ buffer ++ concat datas) = false) sniffers
  end /\
  exists k, rest = map SRead (drop k datas) /\ buffer' = buffer ++ concat (take k datas) /\ ((k <= 1)%nat \/ (length (concat earlier ++ buffer ++ concat (take (k - 1) datas)) < 20)%nat).
Proof.
  intros Hne Hs. induction datas as [|data datas IH]; intros buffer first last Hb Hd Hend; cbn [map PeekStream].
  - destruct Hend as (-> & Hl & Hm); [done|]. destruct last as [e|]; [|done]. split; [by rewrite app_nil_r|]. exists 0%nat. split; [done|]. split; [by rewrite app_nil_r|left; lia].
  - apply list.Forall_cons in Hd as [Hd Hds]. assert (Hb' : Forall is_byte (concat earlier ++ buffer ++ data)) by (rewrite app_assoc; by apply list.Forall_app). cbn [concat].
    assert (Hcut : forall l, concat earlier ++ buffer ++ data ++ l = (concat earlier ++ buffer ++ data) ++ l) by (intros l; by rewrite !app_assoc).
    pose proof (try_by_signature sniffers m _ Hs Hb') as Ht. destruct (try_sniffers _ sniffers m _) as [[[|] m'] errs].
    + split; [|exists 1%nat; cbn; rewrite drop_0, app_nil_r; by auto]. destruct Ht as (s & H1 & H2 & H3). exists s. rewrite Hcut. split; [done|]. split; [by apply matches_app|done].
    + destruct Ht as [-> Ht]. assert (Hj : join_errors errs <> None). { destruct Ht as [|? ? ? ? _ Ht]; [done|]. cbn. by destruct Ht. }
      destruct (existsb is_need_more errs) eqn:En.
      * specialize (IH (buffer ++ data) false (join_errors errs) Hb' Hds). destruct (PeekStream _ _ _ _ _ _ _ _) as [[[err m'] buffer'] rest]. destruct IH as [I1 (k & -> & -> & I3)].
        { intros _. split; [done|]. split; [done|]. clear -Ht. induction Ht as [|s e ss es H _ IH]; constructor; [by apply error_true_matches in H|done]. }
        rewrite <-!app_assoc in I1. rewrite <-!app_assoc in I3. split; [done|]. exists (S k). cbn [drop take concat]. rewrite app_assoc. split; [done|]. split; [done|]. destruct k as [|k]; [left; lia|right].
        cbn [Nat.sub take concat]. destruct I3 as [I3|I3]; [|cbn in I3; by rewrite Nat.sub_0_r in I3]. destruct k as [|k]; [|lia]. cbn. rewrite app_nil_r.
        apply existsb_exists in En as (e & Hin & He). apply list_elem_of_In, list_elem_of_lookup_1 in Hin as [i Hi]. destruct (Forall2_lookup_r _ _ _ _ _ Ht Hi) as (s & _ & Hx).
        unfold error_true in Hx. rewrite He in Hx. pose proof (signature_short s). lia.
      * destruct (join_errors errs) as [e|]; [|done]. split; [|exists 1%nat; cbn; rewrite drop_0, app_nil_r; by auto]. split; [done|]. rewrite Hcut. clear -Ht En.
        induction Ht as [|s e ss es H _ IH]; constructor; cbn in En; apply orb_false_iff in En as [He En]; [|by auto]. unfold error_true in H. rewrite He in H. by apply H.
Qed.

(** C37: The sniffers of BitTorrent, SSH and RDP find a protocol exactly when the stream
    starts with its signature, however the stream arrives in pieces.  When they are
    connected to the router, and one piece after the other is read into a buffer with
    room for them: the protocol of a sniffer whose signature matches is found if there
    is one; otherwise there is an error and the metadata are unchanged; and once
    twenty bytes have arrived, no further piece is read.  The stream starts with the
    buffers that earlier rules have filled; the BitTorrent sniffer, which calls [Read]
    once, is only used without such buffers ([handshake_in_two_buffers]). *)
Theorem signatures_found sniffers m datas : sniffers <> [] -> usable sniffers -> datas <> [] -> Forall is_byte (concat earlier) -> Forall (Forall is_byte) datas ->
  let '(err, m', buffer, rest) := PeekStream re sniffers earlier m [] true None (map SRead datas) in
  let stream := concat earlier ++ concat datas in
  (err = None <-> Exists (fun s => matches (signature s) stream = true) sniffers) /\
  (err = None -> exists s, s ∈ sniffers /\ matches (signature s) stream = true /\ c_Protocol (ic_sniffer m') = protocol_of s) /\
  (err <> None -> m' = m) /\
  exists k, rest = map SRead (drop k datas) /\ buffer = concat (take k datas) /\
    ((k <= 1)%nat \/ (length (concat earlier ++ concat (take (k - 1) datas)) < 20)%nat).
Proof.
  intros Hne Hs Hd He Hb. pose proof (peek_by_signature sniffers m Hne Hs datas [] true None ltac:(by rewrite app_nil_r) Hb ltac:(done)) as Hp.
  destruct (PeekStream _ _ _ _ _ _ _ _) as [[[err m'] buffer] rest]. destruct Hp as [H1 H2]. cbn [app] in H1, H2. cbv zeta. split; [|split; [|split; [|exact H2]]].
  - destruct err as [e|]; split; intros H; [done| |..].
    + destruct H1 as [_ H1]. exfalso. apply list.Exists_exists in H as (s & Hin & H). rewrite list.Forall_forall in H1. rewrite (H1 s Hin) in H. done.
    + apply list.Exists_exists. destruct H1 as (s & H3 & H4 & _). by exists s.
    + done.
  - by intros ->.
  - destruct err as [e|]; [|done]. intros _. by destruct H1.
Qed.
End Peek.

(** ** The smaller sniffers at work *)

From S2P Require Import Demo DnsMessage RouterExamples.

Module SniffersDemo.
Definition stream (s : StreamSniffer) (m : InboundContext) (bs : list bytes) : option error * InboundContext :=
  let '(r, m) := signature_sniff s m bs in (match r with Ok _ => None | Err e => Some e | Panic _ => Some ErrClosed end, m).
Definition re : RouterEnv :=
  let r := RouterExamples.plain_router in
  mkRouterEnv (re_processSearcher r) (re_platformAddresses r) (re_neighborResolver r) (re_fakeIP r) (re_LookupReverseMapping r) (re_Transport r) (re_Lookup r)
    stream (re_packetSniff r) (re_inbound r) (re_Outbound r) (re_Default r) (re_Network r) (re_Now r) (re_Flow r) (re_trackers r) (re_packetTrackers r).
Lemma re_connected : connected re.
Proof.
  intros s m bs Hs Hb. change (re_streamSniff re) with stream. unfold stream. pose proof (signature_returns s m bs Hs Hb) as D. by destruct (signature_sniff s m bs) as [[[]|e|p] m'].
Qed.
Definition m : InboundContext := RouterExamples.web.
Definition handshake : bytes := 19 :: bt_header ++ [0; 0].
(** A message that is a response *)
Definition response : CMsg := mkCMsg (mkMsgHdr 1 true false false false 0) [] [] [] [].
End SniffersDemo.
Import SniffersDemo.

(** [Read] returns what one buffer has: a handshake over two buffers is not found. *)
Example handshake_in_two_buffers : (sniff_BitTorrent m [take 5 handshake; drop 5 handshake]).1 = Err ErrNeedMoreData /\ (sniff_BitTorrent m [handshake]).1 = Ok tt.
Proof. vm_compute. done. Qed.
(** A response ends sniffing with success and without a protocol. *)
Example response_sniffed : sniff_DomainNameQuery (fun _ => Ok response) m [] = (Ok tt, m).
Proof. done. Qed.
(** The client of SSH is taken from the part of the line that has arrived. *)
Example cut_client : Client (sniff_SSH m [string_bytes "SSH-2.0-Open"]).2 = "Open" /\ Client (sniff_SSH m [string_bytes "SSH-2.0-OpenSSH_9.8" ++ [13; 10]]).2 = "OpenSSH_9.8".
Proof. vm_compute. done. Qed.
Example packet_examples :
  (sniff_UTP m ([0x41; 1] ++ replicate 18 0 ++ [0; 4; 0; 0; 0; 0])).1 = Ok tt /\ (sniff_UTP m ([0x41; 1] ++ replicate 18 0 ++ [5; 0])).1 = Err ErrInvalid /\
  (sniff_STUNMessage m ([0; 1; 0; 0; 0x21; 0x12; 0xA4; 0x42] ++ replicate 12 0)).1 = Ok tt /\
  (sniff_UDPTracker m (be_bytes 8 trackerProtocolID ++ replicate 8 0)).1 = Ok tt /\
  (sniff_DTLSRecord m ([22; 0xfe; 0xfd] ++ replicate 10 0)).1 = Ok tt /\ (sniff_NTP m (0x23 :: replicate 47 0)).1 = Ok tt.
Proof. vm_compute. done. Qed.

(** SSH and RDP behind a buffer of an earlier rule, BitTorrent in the first one *)
Lemma signatures_found_witness :
  (let '(err, m', _, rest) := PeekStream re [SSH; RDP] [[83; 83]] m [] true None (map SRead [[72; 45; 50]; [46; 48; 45; 79]; [112]]) in
   err = None /\ Exists (fun s => matches (signature s) [83; 83; 72; 45; 50; 46; 48; 45; 79; 112] = true) [SSH; RDP] /\ Protocol m' = "ssh" /\ rest = [SRead [112]]) /\
  (let '(err, m', _, _) := PeekStream re [SSH; BitTorrent; RDP] [] m [] true None (map SRead [take 5 handshake; drop 5 handshake]) in
   (err = None <-> Exists (fun s => matches (signature s) handshake = true) [SSH; BitTorrent; RDP]) /\ Protocol m' = "bittorrent").
Proof.
  split.
  - pose proof (signatures_found re re_connected [[83; 83]] [SSH; RDP] m [[72; 45; 50]; [46; 48; 45; 79]; [112]]) as H.
    destruct (PeekStream _ _ _ _ _ _ _ _) as [[[err m'] buffer] rest] eqn:E. vm_compute in E. injection E as <- <- <- <-.
    destruct H as [H1 _].
    + done.
    + repeat constructor; try (unfold by_signature; tauto); by intros [=].
    + done.
    + repeat constructor; lia.
    + repeat constructor; lia.
    + split; [done|]. split; [by apply H1|]. vm_compute. done.
  - pose proof (signatures_found re re_connected [] [SSH; BitTorrent; RDP] m [take 5 handshake; drop 5 handshake]) as H.
    destruct (PeekStream _ _ _ _ _ _ _ _) as [[[err m'] buffer] rest] eqn:E. vm_compute in E. injection E as <- <- <- <-.
    destruct H as [H1 _].
    + done.
    + repeat constructor; unfold by_signature; tauto.
    + done.
    + done.
    + repeat constructor; vm_compute; done.
    + split; [exact H1|]. vm_compute. done.
Defined.
